(* ===== verification/_CoqProject ===== *)
-Q . S2P
Prelude.v
IntUtil.v
Stream.v
StringTools.v
Base58.v
Config.v
Difficulty.v
Types.v
Serializer.v
TxSerialization.v
TransactionExtra.v
TreeHash.v
BlockSerialization.v
FormatUtils.v
Currency.v
Checkpoints.v
ThreadPool.v
Validate.v
Pool.v
BlockchainCache.v
CacheChain.v
ShuffleGenerator.v
CacheQueries.v
BlockValidation.v
SegmentTree.v
Ledger.v
Core.v
CoreInvariant.v
CorePool.v
CoreSafety.v
CoreReach.v
WalletUtil.v
Addresses.v
SubWallet.v
SubWallets.v
WalletInvariant.v
WalletSync.v
WalletChain.v
ValidateParameters.v
Transfer.v
TransferRing.v
TransferMade.v
TransferSend.v
TransferNode.v
ParseExtra.v
TransferExtra.v
CoreQueries.v
CoreSync.v
CoreOutputs.v
Miner.v
CoreTemplate.v
TemplateAccepted.v
WalletNode.v
Payment.v
