(* ===== verification/Prelude.v ===== *)
(** * A verification development for DeroGold

    DeroGold is a CryptoNote currency: a daemon that keeps a chain of blocks and a
    pool of transactions, and wallets that read it.  This library models the code
    that decides what a valid amount, transaction, block and chain is, and the wallet
    that follows the chain and sends transactions, from the C++ under [src/], and proves
    what makes them correct, apart and together.

    ** How the program is put together

    Bytes from the network or the disk are read by a stream ([src/common]) and a
    bidirectional serializer ([src/serialization]) into the structs of
    [include/CryptoNote.h].  [Currency] holds the parameters of the network and the
    rules that depend on them: emission, sizes, fusion transactions, proof of work.
    [ValidateTransaction] judges a transaction against a [Currency], the
    [Checkpoints], the blockchain cache and the key images spent so far, and checks
    the ring signatures on a [ThreadPool].  [Core] keeps a tree of chain segments, each a
    [BlockchainCache] that points to its parent, the leaves of that tree with the main
    chain first, and a pool of transactions.  A block from the network or a miner is
    checked on the segment that holds its predecessor: the transactions one after the
    other on one validator state, the reward, the proof of work; it is pushed onto the
    segment, or the segment is split and a new one is made, and when another chain
    becomes the heavier one the leaves are swapped and the pool is put in order.

    A wallet ([SubWallets]) holds addresses and their inputs.  [WalletSynchronizer] asks the
    daemon for blocks after the hashes it knows, scans them for outputs of its addresses
    and for its own key images, and completes them in the order they were downloaded, removing
    what a fork took back.  [SendTransaction] checks the parameters, chooses inputs, asks the
    daemon for ring members, builds, works on, signs and checks a transaction, relays it and
    locks the inputs.

    The mining program asks the daemon for a template ([Core::getBlockTemplate]), tags it, and
    searches for its nonce with several threads; the block goes back to [Core].

    ** Files

    - [Prelude.v]: machine integers and their wrap-around, outcomes (a value, an
      exception, undefined behaviour), bytes, positional numerals, sums; the tactics
      [width_solve], [unwrap], [inv_ok], [okbind] and [by_compute].
    - [IntUtil.v]: [common/int-util.h], 128-bit arithmetic and byte swaps.
    - [Stream.v]: [common/StreamTools.cpp], [Varint.h], [MemoryInputStream.cpp].
    - [StringTools.v]: [common/StringTools.cpp], hexadecimal text and fields.
    - [Base58.v]: [common/Base58.cpp], the block codec and checksummed addresses.
    - [Config.v]: the constants of [config/CryptoNoteConfig.h], fees and mixins.
    - [Difficulty.v]: [cryptonotecore/Difficulty.cpp], [common/CheckDifficulty.cpp].
    - [Types.v]: the structs of [include/CryptoNote.h].
    - [Serializer.v]: the serializer interface and its binary implementations; the
      classes [RoundTrip] and [Canonical] state what a serializer promises, with an
      instance per type in [TxSerialization.v] and [BlockSerialization.v].
    - [TxSerialization.v], [BlockSerialization.v]: [CryptoNoteSerialization.cpp] and
      the hashes of [CachedBlock.cpp].
    - [TransactionExtra.v]: [common/TransactionExtra.cpp].
    - [TreeHash.v]: [crypto/tree-hash.c], Merkle roots and branches.
    - [FormatUtils.v]: [CryptoNoteFormatUtils.cpp], amounts, ring offsets,
      denominations.
    - [Currency.v]: [Currency.cpp], [CryptoNoteBasicImpl.cpp].
    - [Checkpoints.v]: [Checkpoints.cpp] and its file format.
    - [ThreadPool.v]: [utilities/ThreadPool.h] and the fan-out of input validation,
      as a step relation with an executable scheduler.
    - [Validate.v]: [ValidateTransaction.cpp], [Mixins.h], [CachedTransaction.cpp],
      [TransactionValidatiorState.cpp], and the callers in [Core.cpp].
    - [Pool.v]: [TransactionPool.cpp], [TransactionPoolCleaner.cpp].
    - [BlockchainCache.v]: [BlockchainCache.cpp], a segment as a record, a cache as the
      list of its segment and those of its parents; [CacheChain.v]: the invariant of
      such a list and its flat view as one chain; [CacheQueries.v]: the queries for
      blocks, raw transactions and decoys; [ShuffleGenerator.v]:
      [common/ShuffleGenerator.h].
    - [BlockValidation.v]: [Core::validateBlock] and the checks of [Core::addBlock];
      [Ledger.v]: the invariant of a chain's blocks and raw blocks that they keep.
    - [SegmentTree.v]: the cache objects in a heap with parent and child pointers.
    - [Core.v]: the state of [Core] and its handlers, on every branch;
      [CoreInvariant.v], [CorePool.v], [CoreSafety.v]: its invariant and one lemma per
      branch; [CoreReach.v]: the handlers as steps and the reachable states.
    - [CoreQueries.v]: what [Core] answers to peers and wallets; [CoreSync.v]: blocks for
      a wallet and the sparse chain of a peer, against the flat main chain;
      [CoreOutputs.v]: the outputs offered for rings.
    - [CoreTemplate.v]: [Core::getBlockTemplate]; [Miner.v]: [src/miner], the hashes, the tag and
      the search of the mining program; [TemplateAccepted.v]: the two together before the
      checks of [BlockValidation.v].
    - [WalletUtil.v]: [utilities/Utilities.cpp], [String.cpp]; [Addresses.v]:
      [utilities/Addresses.cpp] and the address checks of [errors/ValidateParameters.cpp];
      [ValidateParameters.v]: the other checks of that file.
    - [SubWallet.v], [SubWallets.v]: [subwallets/], an address and the wallet;
      [WalletInvariant.v]: its operations as steps, and their invariant.
    - [WalletSync.v]: [WalletSynchronizer.cpp], [BlockDownloader.cpp],
      [SynchronizationStatus.cpp]; [WalletChain.v]: the wallet as a view of the chain it
      scanned.
    - [Transfer.v]: [walletbackend/Transfer.cpp]; [TransferRing.v], [TransferMade.v],
      [TransferSend.v]: rings, the transaction that is made, and sending; the class
      [Sending] and the record [Nigel] are what it uses of the library and the daemon,
      and [honest_daemon] what it relies on; [TransferNode.v]: the sent transaction before
      the validator of [Validate.v].
    - [ParseExtra.v]: [utilities/ParseExtra.cpp]; [TransferExtra.v]: it reads what
      [Transfer.v] writes.
    - [WalletNode.v]: the wallet and the core together; [Payment.v]: a payment from the
      sender's wallet through a block to the receiver's.

    ** How code becomes definitions

    A [w]-bit integer is a [Z] with its wrap-around written out ([u64], [i64], ...);
    a byte string is a list of [Z]; keys and hashes are byte strings of their size.
    A call returns an [outcome]: [Ok], [Throw] for an exception, [Undefined] for an
    access out of range, a division by zero, a signed overflow or a failed assertion.
    Members a method changes are a record passed through; constant members are a
    record it reads.  The hash functions and the elliptic curve are parameters
    (arguments of a Section); the theorems hold for any of them, and the witnesses
    use toy ones.  Loops without a structural bound take fuel, and the theorems show
    that the fuel given is enough.  A varint has at most ten bytes.  The decimal
    loops need one round a digit, twenty for 64 bits.  The parser of an extra and the
    checkpoint loader consume a byte a round; the sparse chain has a hash for each of at
    most 32 doublings; a fusion has an attempt for each input.  Running out of fuel is [Undefined], so
    a theorem that a call returns excludes it.

    ** What the theorems show

    - Codecs: varints, hexadecimal, Base58 addresses, amounts as text, extras,
      transactions, blocks and checkpoint files are read back as written, and for
      varints, addresses and transactions the reader accepts nothing but what the
      writer makes, so a received transaction has one hash.
    - Arithmetic: the 128-bit products and quotients, the reward penalty, the hash
      test and the overflow checks are exact; decomposing an amount keeps its sum.
    - Money: a reward never takes the coins past the supply, the miner transaction
      pays exactly the reward, a fusion transaction conserves its amount, a validated
      transaction pays its exact fee, and a block spends no key image twice.
    - Validation: on every thread schedule the validator accepts exactly the
      transactions of a declarative specification, records an error exactly when it
      rejects, finishes if no ring offset wraps around and no sum of inputs is zero, and can be undone on the validator state.
    - Caches: a chain of segments answers what the flat chain has; pushing extends it by
      exactly one block, splitting changes nothing that can be seen, ring members are
      read back as they were recorded.
    - Pool: distinct hashes and key images, ordered by fee per byte, after any sequence
      of operations.
    - The node: in every state that blocks, transactions and cleanings can lead to, the
      main chain is the heaviest, and each chain is linked by hashes, adds the difficulty
      asked for, records exactly the coins created, and spends no key image twice; an
      added block is found again, a refused one changes no chain.
    - Answers: a wallet gets the blocks of the main chain after the first of its known hashes
      that is on it, a peer's sparse chain leads to a common block near the fork, and the ring
      members offered are outputs of the main chain, in order.
    - Mining: a template names valid transactions and pays exactly the reward of the block it becomes;
      what the mining program finds on it, on any schedule, the node accepts, under the conditions of
      [found_on] in [TemplateAccepted.v] (among them the signatures, which the template leaves to the pool).
    - The wallet: whatever is done with it, its addresses and keys agree.  As long as it receives no
      key image twice, which neither the wallet nor the node ensures, its key images agree too, and after any
      blocks and forks it holds exactly what the chain it scanned gives to its addresses;
      with a daemon that answers from its core that chain becomes the daemon's main chain, if the first known
      hash on it is that of a block above the genesis block that the wallet has scanned.
    - Sending: a failed send changes nothing; a successful one relays a transaction the
      node's validator accepts if its size and extra field are within the node's limits, pays what was asked and the fee, and locks exactly the
      inputs it spends; the payment ID, data and key in its extra field are read back,
      and a wallet that scans the block finds what was paid to it.
    - Errors: inputs on which the code divides by zero, throws or truncates are
      theorems too.

    A block that is added must leave room in the counters ([room] in [Ledger.v]): the
    height and the outputs of an amount fit 32 bits, the cumulative difficulty fits 64,
    and the fees are coins that exist; the last one stands for what the ring signatures
    are to ensure, whose mathematics are parameters here.

    ** Not modelled

    The curve and hash primitives of [src/crypto] are vendored reference C and are
    parameters.  Sockets, the dispatcher, HTTP and JSON-RPC, logging, databases and
    the command line programs are input and output; the root segment is the in-memory
    cache of [MemoryBlockchainCacheFactory].  The operations of [Core] run one at a time,
    as its dispatcher runs them, and those of the wallet as its mutex orders them; the
    validation of inputs and the search for a nonce have threads, and the scanned blocks of a wallet any order.
    Rewinding and the block details of [Core], the wallet file, the older
    [WalletGreen] with the transfers containers, and the peer list are not modelled. *)

From Stdlib Require Import ZArith Lia.
From stdpp Require Import base tactics list numbers option strings.

Local Open Scope Z_scope.

(** ** Machine integers

    An unsigned [w]-bit integer is a [Z] in [[0, 2^w)]; a signed one is a [Z]
    in [[-2^(w-1), 2^(w-1))].  [wrap] is the conversion every unsigned C++
    operation performs on its mathematical result. *)

Definition wrap (w x : Z) : Z := x mod 2 ^ w.
Definition in_width (w x : Z) : Prop := 0 <= x < 2 ^ w.
Definition in_swidth (w x : Z) : Prop := - 2 ^ (w - 1) <= x < 2 ^ (w - 1).
Definition swrap (w x : Z) : Z := (x + 2 ^ (w - 1)) mod 2 ^ w - 2 ^ (w - 1).

Abbreviation u8 := (wrap 8).
Abbreviation u16 := (wrap 16).
Abbreviation u32 := (wrap 32).
Abbreviation u64 := (wrap 64).
Abbreviation i64 := (swrap 64).
Abbreviation is_u8 := (in_width 8).
Abbreviation is_u16 := (in_width 16).
Abbreviation is_u32 := (in_width 32).
Abbreviation is_u64 := (in_width 64).
Abbreviation is_i64 := (in_swidth 64).

#[global] Instance in_width_dec w x : Decision (in_width w x).
Proof. unfold in_width. apply _. Defined.
#[global] Instance in_swidth_dec w x : Decision (in_swidth w x).
Proof. unfold in_swidth. apply _. Defined.

Definition MAX_U64 : Z := 2 ^ 64 - 1.

Lemma wrap_small w x : in_width w x -> wrap w x = x.
Proof. apply Z.mod_small. Qed.

Lemma wrap_range w x : 0 <= w -> in_width w (wrap w x).
Proof. intros. apply Z.mod_pos_bound, Z.pow_pos_nonneg; lia. Qed.

Lemma wrap_wrap w x : wrap w (wrap w x) = wrap w x.
Proof. unfold wrap. apply Zmod_mod. Qed.

Lemma wrap_add_l w a b : wrap w (wrap w a + b) = wrap w (a + b).
Proof. apply Zplus_mod_idemp_l. Qed.

Lemma wrap_add_r w a b : wrap w (a + wrap w b) = wrap w (a + b).
Proof. apply Zplus_mod_idemp_r. Qed.

Lemma swrap_small w x : in_swidth w x -> 0 < w -> swrap w x = x.
Proof.
  unfold in_swidth, swrap. intros H Hw.
  assert (2 ^ w = 2 * 2 ^ (w - 1)).
  { replace w with (1 + (w - 1)) at 1 by lia. rewrite Z.pow_add_r by lia. lia. }
  rewrite Z.mod_small; lia.
Qed.

Create HintDb width.
#[export] Hint Resolve wrap_range : width.

(** [width_solve] unfolds the width predicates, evaluates the powers of two
    and calls [lia]; [unwrap] removes every [wrap] whose argument is in range. *)

Ltac eval_pow2 :=
  repeat match goal with
  | |- context [2 ^ ?n] =>
      let v := eval vm_compute in (2 ^ n) in
      lazymatch v with Zpos _ => change (2 ^ n) with v end
  | H : context [2 ^ ?n] |- _ =>
      let v := eval vm_compute in (2 ^ n) in
      lazymatch v with Zpos _ => change (2 ^ n) with v in H end
  end.
Ltac width_unfold := unfold in_width, in_swidth, MAX_U64 in *.
Ltac width_solve := width_unfold; eval_pow2; simpl Z.sub in *; lia.
Ltac unwrap := repeat (rewrite wrap_small by width_solve).

(** ** Bits *)

Lemma testbit_small a n i : 0 <= a < 2 ^ n -> n <= i -> Z.testbit a i = false.
Proof.
  intros Ha Hi. destruct (Z.eq_dec a 0) as [->|]; [apply Z.testbit_0_l|].
  apply Z.bits_above_log2; [lia|].
  apply Z.lt_le_trans with n; [|done]. apply Z.log2_lt_pow2; lia.
Qed.

Lemma small_testbit x n :
  0 <= n -> (forall i, n <= i -> Z.testbit x i = false) -> 0 <= x < 2 ^ n.
Proof.
  intros Hn H. assert (x = x mod 2 ^ n) as ->.
  { apply Z.bits_inj'. intros i Hi. destruct (Z.lt_ge_cases i n).
    - by rewrite Z.mod_pow2_bits_low.
    - by rewrite Z.mod_pow2_bits_high, H by lia. }
  apply Z.mod_pos_bound, Z.pow_pos_nonneg; lia.
Qed.

Lemma land_shiftl_0 a b n : 0 <= n -> 0 <= a < 2 ^ n -> Z.land a (Z.shiftl b n) = 0.
Proof.
  intros Hn Ha. apply Z.bits_inj'. intros i Hi.
  rewrite Z.land_spec, Z.bits_0. destruct (Z.lt_ge_cases i n).
  - rewrite Z.shiftl_spec_low by lia. apply andb_false_r.
  - by rewrite (testbit_small a n).
Qed.

(** Disjoint bit fields: a low part below [2^n] and a part shifted by [n]. *)
Lemma lor_shiftl_add a b n :
  0 <= n -> 0 <= a < 2 ^ n -> Z.lor a (Z.shiftl b n) = a + b * 2 ^ n.
Proof.
  intros Hn Ha. rewrite <- Z.lxor_lor by by apply land_shiftl_0.
  rewrite <- Z.add_nocarry_lxor by by apply land_shiftl_0.
  by rewrite Z.shiftl_mul_pow2.
Qed.

Lemma land_ones_mod a n : 0 <= n -> Z.land a (2 ^ n - 1) = a mod 2 ^ n.
Proof.
  intros. rewrite <- Z.land_ones by done. f_equal. rewrite Z.ones_equiv. lia.
Qed.

Lemma shiftr_bound a n m : 0 <= n -> 0 <= m -> 0 <= a < 2 ^ (n + m) -> 0 <= Z.shiftr a n < 2 ^ m.
Proof.
  intros. rewrite Z.shiftr_div_pow2 by done. rewrite Z.pow_add_r in * by lia.
  split; [apply Z.div_pos; lia|]. apply Z.div_lt_upper_bound; lia.
Qed.

(** ** Outcomes

    A C++ call returns a value, throws, or has undefined behaviour: an access
    past the end of a container, an integer division by zero, a signed overflow,
    or a failed [assert] (which a build without [NDEBUG] turns into an abort). *)

Inductive outcome (A : Type) : Type :=
| Ok (a : A)
| Throw (msg : string)
| Undefined (why : string).
Arguments Ok {A} a.
Arguments Throw {A} msg.
Arguments Undefined {A} why.

#[global] Instance outcome_ret : MRet outcome := fun A a => Ok a.
#[global] Instance outcome_bind : MBind outcome := fun A B f o =>
  match o with
  | Ok a => f a
  | Throw e => Throw e
  | Undefined w => Undefined w
  end.

#[global] Instance outcome_eq_dec {A} `{EqDecision A} : EqDecision (outcome A).
Proof. solve_decision. Defined.

Definition require (b : bool) (msg : string) : outcome unit :=
  if b then Ok () else Throw msg.
Definition assert (b : bool) (why : string) : outcome unit :=
  if b then Ok () else Undefined why.
Definition from_option {A} (why : string) (o : option A) : outcome A :=
  match o with Some a => Ok a | None => Undefined why end.

(** [try { ... } catch (std::exception &) { ... }]: an exception becomes [None]. *)
Definition try_catch {A} (o : outcome A) : outcome (option A) :=
  match o with Ok a => Ok (Some a) | Throw _ => Ok None | Undefined w => Undefined w end.

Definition is_ok {A} (o : outcome A) : bool :=
  match o with Ok _ => true | _ => false end.

Lemma bind_ok {A B} (f : A -> outcome B) (o : outcome A) b :
  (o ≫= f) = Ok b <-> exists a, o = Ok a /\ f a = Ok b.
Proof.
  split; [|by intros (a & -> & H)]. destruct o; simpl; [eauto|done|done].
Qed.

Lemma Ok_inj {A} (a b : A) : Ok a = Ok b -> a = b.
Proof. by intros [= ->]. Qed.

Lemma require_ok b msg u : require b msg = Ok u <-> b = true.
Proof. destruct b, u; simpl; naive_solver. Qed.

Lemma assert_ok b msg u : assert b msg = Ok u <-> b = true.
Proof. destruct b, u; simpl; naive_solver. Qed.

(** The call has defined behaviour: it returns or throws. *)
Definition defined {A} (o : outcome A) : Prop :=
  match o with Undefined _ => False | _ => True end.

Lemma defined_bind {A B} (f : A -> outcome B) (o : outcome A) :
  defined o -> (forall a, o = Ok a -> defined (f a)) -> defined (o ≫= f).
Proof. destruct o; simpl; auto. Qed.

Lemma defined_require b msg : defined (require b msg).
Proof. by destruct b. Qed.

Lemma defined_ok {A} (o : outcome A) x : o = Ok x -> defined o.
Proof. by intros ->. Qed.

Create HintDb defined.
#[export] Hint Resolve defined_require : defined.

(** [inv_ok] takes apart every hypothesis saying that a sequence of calls
    returned normally. *)
Ltac inv_ok :=
  repeat match goal with
  | H : (_ ≫= _) = Ok _ |- _ =>
      let x := fresh "v" in let Hx := fresh "Hok" in
      apply bind_ok in H as [x [Hx H]]
  | H : require _ _ = Ok _ |- _ => apply require_ok in H
  | H : assert _ _ = Ok _ |- _ => apply assert_ok in H
  | H : Ok _ = Ok _ |- _ => injection H as H
  | H : Throw _ = Ok _ |- _ => discriminate H
  | H : Undefined _ = Ok _ |- _ => discriminate H
  | x : unit |- _ => destruct x
  end.

(** [okbind] runs the binds whose first call has returned, and nothing else. *)
Ltac okbind := cbn [andb orb negb assert require mbind outcome_bind].

(** Left-to-right iteration of a fallible step over a list ([for] loops that
    may return early with an exception). *)
Fixpoint foldM {A S} (f : S -> A -> outcome S) (s : S) (l : list A) : outcome S :=
  match l with
  | [] => Ok s
  | a :: l => s' ← f s a; foldM f s' l
  end.

Lemma foldM_keeps {A S} (P : S -> Prop) (f : S -> A -> outcome S) l : forall s c, foldM f s l = Ok c ->
  (forall x a y, P x -> f x a = Ok y -> P y) -> P s -> P c.
Proof. induction l as [|a l IH]; intros s c E Hf Hs; [by injection E as <-|]. simpl in E. destruct (f s a) as [t| |] eqn:F; [|done..]. eauto. Qed.
Lemma foldM_app {A S} (f : S -> A -> outcome S) s l1 l2 :
  foldM f s (l1 ++ l2) = (s' ← foldM f s l1; foldM f s' l2).
Proof.
  revert s. induction l1 as [|a l1 IH]; intros s; [done|]. simpl.
  destruct (f s a); simpl; auto.
Qed.

(** ** Bytes

    A byte string ([std::vector<uint8_t>], [std::string], a POD blob) is a
    [list Z] whose elements are in [[0, 256)]. *)

Abbreviation bytes := (list Z).
Definition is_bytes (l : bytes) : Prop := Forall (in_width 8) l.

#[global] Instance is_bytes_dec l : Decision (is_bytes l).
Proof. unfold is_bytes. apply _. Defined.

(** A decidable property of one byte is proved by evaluating it on the 256 values. *)
Lemma byte_forall (P : Z -> bool) :
  forallb P (seqZ 0 256) = true -> forall b, is_u8 b -> P b = true.
Proof.
  intros H b Hb. rewrite forallb_forall in H. apply H.
  apply list_elem_of_In, elem_of_seqZ. unfold in_width in Hb.
  change (2 ^ 8) with 256 in Hb. lia.
Qed.

(** Characters of a source literal as bytes. *)
Definition ascii_code (a : Ascii.ascii) : Z := Z.of_N (Ascii.N_of_ascii a).
Fixpoint str (s : string) : bytes :=
  match s with
  | EmptyString => []
  | String a s => ascii_code a :: str s
  end.

(** ** Positional numerals

    The value of a digit string, least significant digit first, and the [n]
    lowest digits of a number. *)
Fixpoint from_base (B : Z) (l : list Z) : Z :=
  match l with
  | [] => 0
  | d :: l => d + B * from_base B l
  end.
Fixpoint to_base (B : Z) (n : nat) (x : Z) : list Z :=
  match n with
  | O => []
  | S n => x mod B :: to_base B n (x / B)
  end.
Definition is_digit (B d : Z) : Prop := 0 <= d < B.

Section base.
Context (B : Z) (HB : 1 < B).

Lemma length_to_base n x : length (to_base B n x) = n.
Proof. revert x. induction n; intros; simpl; auto. Qed.

Lemma to_base_digits n x : Forall (is_digit B) (to_base B n x).
Proof using HB.
  revert x. induction n as [|n IH]; intros x; constructor; [|apply IH].
  apply Z.mod_pos_bound. lia.
Qed.

Lemma from_base_bound l : Forall (is_digit B) l -> 0 <= from_base B l < B ^ Z.of_nat (length l).
Proof using HB.
  induction 1 as [|d l Hd _ IH]; [done|]. simpl from_base.
  change (length (d :: l)) with (S (length l)).
  rewrite Nat2Z.inj_succ, Z.pow_succ_r by lia. unfold is_digit in Hd.
  assert (B * from_base B l <= B * (B ^ Z.of_nat (length l) - 1))
    by (apply Z.mul_le_mono_nonneg_l; lia). nia.
Qed.

Lemma from_to_base n x : from_base B (to_base B n x) = x mod B ^ Z.of_nat n.
Proof using HB.
  revert x. induction n as [|n IH]; intros x; [simpl; by rewrite Z.mod_1_r|].
  simpl to_base. simpl from_base. rewrite IH, Nat2Z.inj_succ, Z.pow_succ_r by lia.
  assert (0 < B ^ Z.of_nat n) by (apply Z.pow_pos_nonneg; lia).
  rewrite Z.rem_mul_r; lia.
Qed.

Lemma to_from_base l : Forall (is_digit B) l -> to_base B (length l) (from_base B l) = l.
Proof using HB.
  induction 1 as [|d l Hd _ IH]; [done|]. simpl. unfold is_digit in Hd.
  rewrite (Z.mul_comm B), Z.mod_add, Z.div_add, Z.mod_small, Z.div_small by lia.
  by rewrite Z.add_0_l, IH.
Qed.

Lemma from_base_app l1 l2 :
  from_base B (l1 ++ l2) = from_base B l1 + B ^ Z.of_nat (length l1) * from_base B l2.
Proof using HB.
  induction l1 as [|a l1 IH]; [simpl; lia|]. simpl from_base.
  change (length (a :: l1)) with (S (length l1)).
  rewrite IH, Nat2Z.inj_succ, Z.pow_succ_r by lia. ring.
Qed.

Lemma from_base_zeros n : from_base B (replicate n 0) = 0.
Proof. induction n; simpl; lia. Qed.

Lemma to_base_0 n : to_base B n 0 = replicate n 0.
Proof using HB. induction n as [|n IH]; simpl; [done|]. by rewrite Z.mod_0_l, Z.div_0_l, IH by lia. Qed.

(** A number is its low digits and the rest. *)
Lemma to_base_app n m x : to_base B (n + m) x = to_base B n x ++ to_base B m (x / B ^ Z.of_nat n).
Proof using HB.
  revert x. induction n as [|n IH]; intros x; [simpl; by rewrite Z.div_1_r|]. simpl.
  rewrite IH. do 3 f_equal.
  change (Z.pos (Pos.of_succ_nat n)) with (Z.of_nat (S n)).
  rewrite Nat2Z.inj_succ, Z.pow_succ_r by lia.
  rewrite Z.div_div; [done|lia|apply Z.pow_pos_nonneg; lia].
Qed.
End base.

(** The memory image of an integer on the platforms the code targets: its
    little-endian bytes. *)
Abbreviation le_val := (from_base 256).
Abbreviation le_bytes := (to_base 256).

Lemma length_le_bytes n x : length (le_bytes n x) = n.
Proof. apply length_to_base. Qed.
Lemma le_bytes_is_bytes n x : is_bytes (le_bytes n x).
Proof. by apply to_base_digits. Qed.
Lemma le_val_bound l : is_bytes l -> 0 <= le_val l < 256 ^ Z.of_nat (length l).
Proof. by apply from_base_bound. Qed.
Lemma le_val_le_bytes n x : le_val (le_bytes n x) = x mod 256 ^ Z.of_nat n.
Proof. by apply from_to_base. Qed.
Lemma le_bytes_le_val l : is_bytes l -> le_bytes (length l) (le_val l) = l.
Proof. by apply to_from_base. Qed.

(** ** Sums *)

Definition sumZ (l : list Z) : Z := foldr Z.add 0 l.

Lemma sumZ_cons a l : sumZ (a :: l) = a + sumZ l.
Proof. done. Qed.

Lemma sumZ_app l1 l2 : sumZ (l1 ++ l2) = sumZ l1 + sumZ l2.
Proof. induction l1; simpl; [done|]. unfold sumZ in *. simpl. lia. Qed.

Lemma sumZ_nonneg l : Forall (fun x => 0 <= x) l -> 0 <= sumZ l.
Proof. induction 1; [done|]. rewrite sumZ_cons. lia. Qed.

Lemma sumZ_perm l1 l2 : l1 ≡ₚ l2 -> sumZ l1 = sumZ l2.
Proof. induction 1; rewrite ?sumZ_cons in *; try lia; congruence. Qed.

#[global] Instance sumZ_Proper : Proper ((≡ₚ) ==> (=)) sumZ.
Proof. intros l1 l2. apply sumZ_perm. Qed.

(** Decide a closed proposition by evaluation. *)
Ltac by_compute := apply (bool_decide_eq_true_1 _); vm_compute; reflexivity.
