(* ===== verification/IntUtil.v ===== *)
(** * [common/int-util.h]: double-width multiplication, long division
    and byte swaps

    The consensus arithmetic (block reward penalties, transaction priorities,
    base58 decoding) goes through these helpers.  Out-parameters are returned
    as pairs; the [assert] of [mul128] and a zero divisor are [Undefined]. *)

From Stdlib Require Import ZArith Lia.
From stdpp Require Import base tactics list numbers strings.
From S2P Require Import Prelude.

Local Open Scope Z_scope.

Definition hi_dword (val : Z) : Z := Z.shiftr val 32.
Definition lo_dword (val : Z) : Z := Z.land val 0xFFFFFFFF.

(** Returns [(product_lo, product_hi)]. *)
Definition mul128 (multiplier multiplicand : Z) : outcome (Z * Z) :=
  let a := hi_dword multiplier in
  let b := lo_dword multiplier in
  let c := hi_dword multiplicand in
  let d := lo_dword multiplicand in
  let ac := u64 (a * c) in
  let ad := u64 (a * d) in
  let bc := u64 (b * c) in
  let bd := u64 (b * d) in
  let adbc := u64 (ad + bc) in
  let adbc_carry := if adbc <? ad then 1 else 0 in
  let product_lo := u64 (bd + u64 (Z.shiftl adbc 32)) in
  let product_lo_carry := if product_lo <? bd then 1 else 0 in
  let product_hi :=
    u64 (ac + Z.shiftr adbc 32 + u64 (Z.shiftl adbc_carry 32) + product_lo_carry) in
  _ ← assert (ac <=? product_hi) "mul128: ac <= *product_hi";
  Ok (product_lo, product_hi).

(** Returns [(quotient, new remainder)]. *)
Definition div_with_reminder (dividend divisor remainder : Z) : outcome (Z * Z) :=
  let dividend := Z.lor dividend (Z.shiftl remainder 32) in
  _ ← assert (negb (divisor =? 0)) "integer division by zero";
  Ok (dividend / divisor, u32 (dividend mod divisor)).

(** Returns [(quotient_hi, quotient_lo, remainder)]. *)
Definition div128_32 (dividend_hi dividend_lo divisor : Z) : outcome (Z * Z * Z) :=
  '(q3, r3) ← div_with_reminder (hi_dword dividend_hi) divisor 0;
  '(q2, r2) ← div_with_reminder (lo_dword dividend_hi) divisor r3;
  '(q1, r1) ← div_with_reminder (hi_dword dividend_lo) divisor r2;
  '(q0, r0) ← div_with_reminder (lo_dword dividend_lo) divisor r1;
  let quotient_hi := Z.lor (u64 (Z.shiftl q3 32)) q2 in
  let quotient_lo := Z.lor (u64 (Z.shiftl q1 32)) q0 in
  Ok (quotient_hi, quotient_lo, r0).

Definition swap64 (x : Z) : Z :=
  let x := Z.lor (u64 (Z.shiftl (Z.land x 0x00ff00ff00ff00ff) 8))
                 (Z.shiftr (Z.land x 0xff00ff00ff00ff00) 8) in
  let x := Z.lor (u64 (Z.shiftl (Z.land x 0x0000ffff0000ffff) 16))
                 (Z.shiftr (Z.land x 0xffff0000ffff0000) 16) in
  Z.lor (u64 (Z.shiftl x 32)) (Z.shiftr x 32).

(** The macro [SWAP64], which base58 uses through [SWAP64BE]. *)
Definition SWAP64 (x : Z) : Z :=
  Z.lor (Z.lor (Z.lor (Z.lor (Z.lor (Z.lor (Z.lor
    (u64 (Z.shiftl (Z.land x 0x00000000000000ff) 56))
    (u64 (Z.shiftl (Z.land x 0x000000000000ff00) 40)))
    (u64 (Z.shiftl (Z.land x 0x0000000000ff0000) 24)))
    (u64 (Z.shiftl (Z.land x 0x00000000ff000000) 8)))
    (Z.shiftr (Z.land x 0x000000ff00000000) 8))
    (Z.shiftr (Z.land x 0x0000ff0000000000) 24))
    (Z.shiftr (Z.land x 0x00ff000000000000) 40))
    (Z.shiftr (Z.land x 0xff00000000000000) 56).

(** ** Words split in halves *)

Ltac div_mod_lia := Z.to_euclidean_division_equations; lia.

Lemma hi_dword_div x : hi_dword x = x / 2 ^ 32.
Proof. unfold hi_dword. by rewrite Z.shiftr_div_pow2. Qed.

Lemma lo_dword_mod x : lo_dword x = x mod 2 ^ 32.
Proof. unfold lo_dword. change 0xFFFFFFFF with (2 ^ 32 - 1). by apply land_ones_mod. Qed.

(** Four 32-bit halves and their products, the shape [mul128] works on. *)
Lemma mul_halves a b c d :
  is_u32 a -> is_u32 b -> is_u32 c -> is_u32 d ->
  (a * 2 ^ 32 + b) * (c * 2 ^ 32 + d)
    = a * c * 2 ^ 64 + (a * d + b * c) * 2 ^ 32 + b * d
  /\ 0 <= a * c <= (2 ^ 32 - 1) * (2 ^ 32 - 1)
  /\ 0 <= a * d <= (2 ^ 32 - 1) * (2 ^ 32 - 1)
  /\ 0 <= b * c <= (2 ^ 32 - 1) * (2 ^ 32 - 1)
  /\ 0 <= b * d <= (2 ^ 32 - 1) * (2 ^ 32 - 1).
Proof.
  unfold in_width. intros. split; [ring|].
  repeat split; try (apply Z.mul_nonneg_nonneg; lia); apply Z.mul_le_mono_nonneg; lia.
Qed.

Lemma split_u64 x : is_u64 x ->
  is_u32 (x / 2 ^ 32) /\ is_u32 (x mod 2 ^ 32) /\ x = x / 2 ^ 32 * 2 ^ 32 + x mod 2 ^ 32.
Proof. unfold in_width. eval_pow2. intros. repeat split; div_mod_lia. Qed.

(** The carries of the schoolbook product, on the four partial products. *)
Lemma mul128_carries ac ad bc bd :
  0 <= ac <= (2 ^ 32 - 1) * (2 ^ 32 - 1) ->
  0 <= ad <= (2 ^ 32 - 1) * (2 ^ 32 - 1) ->
  0 <= bc <= (2 ^ 32 - 1) * (2 ^ 32 - 1) ->
  0 <= bd <= (2 ^ 32 - 1) * (2 ^ 32 - 1) ->
  0 <= ac * 2 ^ 64 + (ad + bc) * 2 ^ 32 + bd < 2 ^ 128 ->
  let adbc := (ad + bc) mod 2 ^ 64 in
  let lo := (bd + (adbc * 2 ^ 32) mod 2 ^ 64) mod 2 ^ 64 in
  let hi := ac + adbc / 2 ^ 32 + ((if adbc <? ad then 1 else 0) * 2 ^ 32) mod 2 ^ 64
            + (if lo <? bd then 1 else 0) in
  hi * 2 ^ 64 + lo = ac * 2 ^ 64 + (ad + bc) * 2 ^ 32 + bd
  /\ is_u64 lo /\ is_u64 hi /\ ac <= hi.
Proof.
  intros H1 H2 H3 H4 H5 adbc lo hi. subst hi.
  assert (Hadbc : adbc + (if adbc <? ad then 1 else 0) * 2 ^ 64 = ad + bc /\ 0 <= adbc < 2 ^ 64).
  { subst adbc. eval_pow2.
    destruct (Z.ltb_spec ((ad + bc) mod 18446744073709551616) ad); div_mod_lia. }
  destruct Hadbc as [Hadbc Hr]. clearbody adbc.
  set (low := (adbc * 2 ^ 32) mod 2 ^ 64) in *.
  assert (Hlow : low + adbc / 2 ^ 32 * 2 ^ 64 = adbc * 2 ^ 32 /\ 0 <= low < 2 ^ 64).
  { subst low. eval_pow2. div_mod_lia. }
  destruct Hlow as [Hlow Hlr]. clearbody low.
  assert (Hlo : lo + (if lo <? bd then 1 else 0) * 2 ^ 64 = bd + low /\ 0 <= lo < 2 ^ 64).
  { subst lo. eval_pow2.
    destruct (Z.ltb_spec ((bd + low) mod 18446744073709551616) bd); div_mod_lia. }
  destruct Hlo as [Hlo Hlor]. clearbody lo.
  assert (0 <= adbc / 2 ^ 32) by (apply Z.div_pos; lia).
  replace (((if adbc <? ad then 1 else 0) * 2 ^ 32) mod 2 ^ 64)
    with ((if adbc <? ad then 1 else 0) * 2 ^ 32) by (destruct (adbc <? ad); done).
  unfold in_width. generalize dependent (adbc / 2 ^ 32). intros q Hq1 Hq2.
  destruct (adbc <? ad), (lo <? bd); eval_pow2; lia.
Qed.

Lemma mul128_ok a b : is_u64 a -> is_u64 b ->
  mul128 a b = Ok ((a * b) mod 2 ^ 64, a * b / 2 ^ 64).
Proof.
  intros Ha Hb.
  destruct (split_u64 a Ha) as (Ha1 & Ha2 & Ea), (split_u64 b Hb) as (Hb1 & Hb2 & Eb).
  pose proof (mul_halves _ _ _ _ Ha1 Ha2 Hb1 Hb2) as (Hprod & R1 & R2 & R3 & R4).
  rewrite <- Ea, <- Eb in Hprod.
  assert (Hab : 0 <= a * b < 2 ^ 128).
  { unfold in_width in *. change (2 ^ 128) with (2 ^ 64 * 2 ^ 64).
    split; [apply Z.mul_nonneg_nonneg; lia|]. apply Z.mul_lt_mono_nonneg; lia. }
  pose proof (mul128_carries _ _ _ _ R1 R2 R3 R4) as Hc. rewrite <- Hprod in Hc.
  specialize (Hc Hab). simpl in Hc. unfold mul128.
  rewrite !hi_dword_div, !lo_dword_mod.
  rewrite !Z.shiftl_mul_pow2, !Z.shiftr_div_pow2 by lia.
  set (ac := a / 2 ^ 32 * (b / 2 ^ 32)) in *. set (ad := a / 2 ^ 32 * (b mod 2 ^ 32)) in *.
  set (bc := a mod 2 ^ 32 * (b / 2 ^ 32)) in *. set (bd := a mod 2 ^ 32 * (b mod 2 ^ 32)) in *.
  clearbody ac ad bc bd.
  rewrite (wrap_small 64 ac), (wrap_small 64 ad), (wrap_small 64 bc), (wrap_small 64 bd)
    by (unfold in_width; eval_pow2; lia).
  unfold wrap.
  set (adbc := (ad + bc) mod 2 ^ 64) in *.
  set (lo := (bd + (adbc * 2 ^ 32) mod 2 ^ 64) mod 2 ^ 64) in *.
  set (hi := ac + adbc / 2 ^ 32 + _ + _) in *.
  destruct Hc as (He & Hlo & Hhi & Hac). clearbody hi lo.
  change (hi mod 2 ^ 64) with (u64 hi). rewrite (wrap_small 64 hi Hhi).
  rewrite (proj2 (Z.leb_le _ _) Hac). simpl. unfold in_width in *. repeat f_equal.
  - apply Z.mod_unique_pos with hi; lia.
  - apply Z.div_unique_pos with lo; lia.
Qed.

(** ** Long division *)

Lemma div_with_reminder_ok x d r : is_u32 x -> 0 < d < 2 ^ 32 -> 0 <= r < d ->
  div_with_reminder x d r = Ok ((x + r * 2 ^ 32) / d, (x + r * 2 ^ 32) mod d).
Proof.
  intros Hx Hd Hr. unfold div_with_reminder.
  rewrite lor_shiftl_add by (unfold in_width in Hx; lia).
  rewrite (proj2 (Z.eqb_neq d 0)) by lia. simpl.
  rewrite wrap_small; [done|]. unfold in_width.
  pose proof (Z.mod_pos_bound (x + r * 2 ^ 32) d). lia.
Qed.

(** One digit of the division in base [2^32]: the quotient digit fits, and the
    remainder is ready for the next digit. *)
Lemma div_digit x d r : is_u32 x -> 0 < d < 2 ^ 32 -> 0 <= r < d ->
  let v := x + r * 2 ^ 32 in
  v = d * (v / d) + v mod d /\ is_u32 (v / d) /\ 0 <= v mod d < d.
Proof.
  intros Hx Hd Hr v. unfold in_width in *.
  pose proof (Z.mod_pos_bound v d). pose proof (Z.div_mod v d).
  split; [lia|]. split; [|lia]. split; [apply Z.div_pos; lia|].
  apply Z.div_lt_upper_bound; [lia|]. subst v.
  assert (r * 2 ^ 32 <= (d - 1) * 2 ^ 32) by (apply Z.mul_le_mono_nonneg_r; lia). lia.
Qed.

Lemma lor_digits q1 q0 : is_u32 q1 -> is_u32 q0 ->
  Z.lor (u64 (Z.shiftl q1 32)) q0 = q1 * 2 ^ 32 + q0.
Proof.
  intros H1 H0. unfold in_width in *.
  rewrite wrap_small by (rewrite Z.shiftl_mul_pow2 by lia; width_solve).
  rewrite Z.lor_comm, lor_shiftl_add; lia.
Qed.

Lemma div128_32_ok hi lo d : is_u64 hi -> is_u64 lo -> 0 < d < 2 ^ 32 ->
  exists qhi qlo r, div128_32 hi lo d = Ok (qhi, qlo, r)
    /\ is_u64 qhi /\ is_u64 qlo
    /\ qhi * 2 ^ 64 + qlo = (hi * 2 ^ 64 + lo) / d
    /\ r = (hi * 2 ^ 64 + lo) mod d.
Proof.
  intros Hhi Hlo Hd. unfold div128_32. rewrite !hi_dword_div, !lo_dword_mod.
  destruct (split_u64 _ Hhi) as (X3 & X2 & Ehi), (split_u64 _ Hlo) as (X1 & X0 & Elo).
  set (x3 := hi / 2 ^ 32) in *. set (x2 := hi mod 2 ^ 32) in *.
  set (x1 := lo / 2 ^ 32) in *. set (x0 := lo mod 2 ^ 32) in *. clearbody x3 x2 x1 x0.
  rewrite (div_with_reminder_ok x3 d 0) by (done || lia). simpl.
  destruct (div_digit x3 d 0 X3 Hd ltac:(lia)) as (E3 & Q3 & R3).
  set (r3 := (x3 + 0 * 2 ^ 32) mod d) in *. set (q3 := (x3 + 0 * 2 ^ 32) / d) in *.
  rewrite (div_with_reminder_ok x2 d r3) by done. simpl.
  destruct (div_digit x2 d r3 X2 Hd R3) as (E2 & Q2 & R2).
  set (r2 := (x2 + r3 * 2 ^ 32) mod d) in *. set (q2 := (x2 + r3 * 2 ^ 32) / d) in *.
  rewrite (div_with_reminder_ok x1 d r2) by done. simpl.
  destruct (div_digit x1 d r2 X1 Hd R2) as (E1 & Q1 & R1).
  set (r1 := (x1 + r2 * 2 ^ 32) mod d) in *. set (q1 := (x1 + r2 * 2 ^ 32) / d) in *.
  rewrite (div_with_reminder_ok x0 d r1) by done. simpl.
  destruct (div_digit x0 d r1 X0 Hd R1) as (E0 & Q0 & R0).
  set (r0 := (x0 + r1 * 2 ^ 32) mod d) in *. set (q0 := (x0 + r1 * 2 ^ 32) / d) in *.
  clearbody r3 q3 r2 q2 r1 q1 r0 q0.
  rewrite !lor_digits by done. do 3 eexists. split; [done|].
  unfold in_width in *. split; [eval_pow2; lia|]. split; [eval_pow2; lia|].
  assert (E : hi * 2 ^ 64 + lo
    = d * (q3 * 2 ^ 96 + q2 * 2 ^ 64 + q1 * 2 ^ 32 + q0) + r0) by (eval_pow2; lia).
  split.
  - apply Z.div_unique_pos with r0; [lia|]. rewrite E. eval_pow2. ring.
  - symmetry. rewrite E, Z.add_comm, Z.mul_comm, Z.mod_add by lia. apply Z.mod_small. lia.
Qed.

(** ** Byte swaps

    A word is the value of its little-endian bytes, and the bitwise operations
    act on those lists byte by byte. *)

Section bytewise.
Context (op : Z -> Z -> Z) (opb : bool -> bool -> bool).
Hypothesis op_spec : forall a b i, Z.testbit (op a b) i = opb (Z.testbit a i) (Z.testbit b i).
Hypothesis op_u8 : forall a b, is_u8 a -> is_u8 b -> is_u8 (op a b).
Hypothesis opb_ff : opb false false = false.

Lemma op_join a b c d : is_u8 a -> is_u8 b -> 0 <= c -> 0 <= d ->
  op (a + 256 * c) (b + 256 * d) = op a b + 256 * op c d.
Proof using op_spec op_u8 opb_ff.
  intros Ha Hb Hc Hd. pose proof (op_u8 a b Ha Hb) as Hab. unfold in_width in *.
  assert (J : forall x y, 0 <= x < 2 ^ 8 -> x + 256 * y = Z.lor x (Z.shiftl y 8)).
  { intros. rewrite lor_shiftl_add; lia. }
  rewrite !J by done. apply Z.bits_inj'. intros i Hi.
  rewrite op_spec, !Z.lor_spec, !Z.shiftl_spec, !op_spec by done.
  destruct (Z.lt_ge_cases i 8).
  - rewrite !(Z.testbit_neg_r _ (i - 8)) by lia. by rewrite opb_ff, !orb_false_r.
  - by rewrite (testbit_small a 8), (testbit_small b 8), opb_ff by done.
Qed.

Lemma op_le_val l1 l2 : is_bytes l1 -> is_bytes l2 -> length l1 = length l2 -> op 0 0 = 0 ->
  op (le_val l1) (le_val l2) = le_val (zip_with op l1 l2).
Proof using op_spec op_u8 opb_ff.
  intros H1. revert l2. induction H1 as [|a l1 Ha H1 IH]; intros l2 H2 Hlen H0.
  - by destruct l2.
  - destruct H2 as [|b l2 Hb H2]; [done|]. simpl in *.
    pose proof (le_val_bound l1 H1). pose proof (le_val_bound l2 H2).
    rewrite op_join by (done || lia). rewrite IH; auto.
Qed.
End bytewise.

Lemma land_u8 a b : is_u8 a -> is_u8 b -> is_u8 (Z.land a b).
Proof.
  intros Ha Hb. apply small_testbit; [lia|]. intros i Hi.
  by rewrite Z.land_spec, (testbit_small a 8).
Qed.

Lemma lor_u8 a b : is_u8 a -> is_u8 b -> is_u8 (Z.lor a b).
Proof.
  intros Ha Hb. apply small_testbit; [lia|]. intros i Hi.
  by rewrite Z.lor_spec, (testbit_small a 8), (testbit_small b 8).
Qed.

Lemma land_le_val l1 l2 : is_bytes l1 -> is_bytes l2 -> length l1 = length l2 ->
  Z.land (le_val l1) (le_val l2) = le_val (zip_with Z.land l1 l2).
Proof. intros. apply (op_le_val Z.land andb); auto using Z.land_spec, land_u8. Qed.

Lemma lor_le_val l1 l2 : is_bytes l1 -> is_bytes l2 -> length l1 = length l2 ->
  Z.lor (le_val l1) (le_val l2) = le_val (zip_with Z.lor l1 l2).
Proof. intros. apply (op_le_val Z.lor orb); auto using Z.lor_spec, lor_u8. Qed.

(** Shifts by whole bytes move the bytes of an eight-byte word. *)
Lemma shl_bytes k l : (k <= 8)%nat -> is_bytes l -> length l = 8%nat ->
  u64 (Z.shiftl (le_val l) (8 * Z.of_nat k)) = le_val (replicate k 0 ++ take (8 - k) l).
Proof.
  intros Hk Hl Hlen. rewrite Z.shiftl_mul_pow2, Z.pow_mul_r by lia. change (2 ^ 8) with 256.
  rewrite from_base_app, from_base_zeros, length_replicate, Z.add_0_l by lia.
  rewrite <- (take_drop (8 - k) l) at 1. rewrite from_base_app by lia.
  assert (Hl' : is_bytes (take (8 - k) l)) by by apply Forall_take.
  pose proof (le_val_bound _ Hl') as Hb. rewrite length_take, Hlen in *.
  replace ((8 - k) `min` 8)%nat with (8 - k)%nat in * by lia.
  unfold wrap. rewrite Z.mul_add_distr_r.
  assert (Hp : 256 ^ Z.of_nat (8 - k) * 256 ^ Z.of_nat k = 2 ^ 64).
  { rewrite <- Z.pow_add_r by lia.
    replace (Z.of_nat (8 - k) + Z.of_nat k) with 8 by lia. done. }
  replace (256 ^ Z.of_nat (8 - k) * le_val (drop (8 - k) l) * 256 ^ Z.of_nat k)
    with (le_val (drop (8 - k) l) * 2 ^ 64) by (rewrite <- Hp; ring).
  rewrite Z.mod_add by lia.
  rewrite Z.mod_small; [lia|].
  assert (0 < 256 ^ Z.of_nat k) by (apply Z.pow_pos_nonneg; lia).
  rewrite <- Hp. split; [apply Z.mul_nonneg_nonneg; lia|]. apply Z.mul_lt_mono_pos_r; lia.
Qed.

Lemma shr_bytes k l : (k <= 8)%nat -> is_bytes l -> length l = 8%nat ->
  Z.shiftr (le_val l) (8 * Z.of_nat k) = le_val (drop k l ++ replicate k 0).
Proof.
  intros Hk Hl Hlen. rewrite Z.shiftr_div_pow2, Z.pow_mul_r by lia. change (2 ^ 8) with 256.
  rewrite from_base_app, from_base_zeros, Z.mul_0_r, Z.add_0_r by lia.
  rewrite <- (take_drop k l) at 1. rewrite from_base_app by lia.
  assert (Hl' : is_bytes (take k l)) by by apply Forall_take.
  pose proof (le_val_bound _ Hl') as Hb. rewrite length_take, Hlen in *.
  replace (k `min` 8)%nat with k in * by lia.
  rewrite Z.mul_comm, Z.div_add, Z.div_small by lia. lia.
Qed.

Lemma land_255 a : is_u8 a -> Z.land a 255 = a.
Proof.
  intros Ha. change 255 with (2 ^ 8 - 1). rewrite land_ones_mod by lia.
  by apply Z.mod_small.
Qed.

(** [bytewise] evaluates a bitwise expression over words given by their eight
    bytes, which are variables with a hypothesis [is_u8]. *)
Ltac bytes_side :=
  first [ reflexivity | unfold is_bytes;
          repeat (apply Forall_cons_2; [first [assumption | by vm_compute]|]); apply Forall_nil_2 ].
Ltac byte_ops :=
  cbn [zip_with]; rewrite ?Z.land_0_r, ?Z.lor_0_r, ?Z.lor_0_l, ?land_255 by done.
Ltac shl_by n k :=
  change (Z.shiftl ?a n) with (Z.shiftl a (8 * Z.of_nat k));
  rewrite (shl_bytes k) by first [lia | bytes_side]; cbn [take drop replicate app Nat.sub].
Ltac shr_by n k :=
  change (Z.shiftr ?a n) with (Z.shiftr a (8 * Z.of_nat k));
  rewrite (shr_bytes k) by first [lia | bytes_side]; cbn [take drop replicate app Nat.sub].

Lemma swap64_bytes b0 b1 b2 b3 b4 b5 b6 b7 :
  is_bytes [b0; b1; b2; b3; b4; b5; b6; b7] ->
  swap64 (le_val [b0; b1; b2; b3; b4; b5; b6; b7])
  = le_val [b7; b6; b5; b4; b3; b2; b1; b0].
Proof.
  intros H. unfold is_bytes in H. rewrite !Forall_cons in H. destruct_and! H.
  unfold swap64.
  change 0x00ff00ff00ff00ff with (le_val [255; 0; 255; 0; 255; 0; 255; 0]).
  change 0xff00ff00ff00ff00 with (le_val [0; 255; 0; 255; 0; 255; 0; 255]).
  change 0x0000ffff0000ffff with (le_val [255; 255; 0; 0; 255; 255; 0; 0]).
  change 0xffff0000ffff0000 with (le_val [0; 0; 255; 255; 0; 0; 255; 255]).
  rewrite !land_le_val by bytes_side. byte_ops. shl_by 8 1%nat. shr_by 8 1%nat.
  rewrite !lor_le_val by bytes_side. byte_ops.
  rewrite !land_le_val by bytes_side. byte_ops. shl_by 16 2%nat. shr_by 16 2%nat.
  rewrite !lor_le_val by bytes_side. byte_ops. shl_by 32 4%nat. shr_by 32 4%nat.
  rewrite !lor_le_val by bytes_side. byte_ops. done.
Qed.

Lemma SWAP64_bytes b0 b1 b2 b3 b4 b5 b6 b7 :
  is_bytes [b0; b1; b2; b3; b4; b5; b6; b7] ->
  SWAP64 (le_val [b0; b1; b2; b3; b4; b5; b6; b7])
  = le_val [b7; b6; b5; b4; b3; b2; b1; b0].
Proof.
  intros H. unfold is_bytes in H. rewrite !Forall_cons in H. destruct_and! H.
  unfold SWAP64.
  change 0x00000000000000ff with (le_val [255; 0; 0; 0; 0; 0; 0; 0]).
  change 0x000000000000ff00 with (le_val [0; 255; 0; 0; 0; 0; 0; 0]).
  change 0x0000000000ff0000 with (le_val [0; 0; 255; 0; 0; 0; 0; 0]).
  change 0x00000000ff000000 with (le_val [0; 0; 0; 255; 0; 0; 0; 0]).
  change 0x000000ff00000000 with (le_val [0; 0; 0; 0; 255; 0; 0; 0]).
  change 0x0000ff0000000000 with (le_val [0; 0; 0; 0; 0; 255; 0; 0]).
  change 0x00ff000000000000 with (le_val [0; 0; 0; 0; 0; 0; 255; 0]).
  change 0xff00000000000000 with (le_val [0; 0; 0; 0; 0; 0; 0; 255]).
  rewrite !land_le_val by bytes_side. byte_ops.
  shl_by 56 7%nat. shl_by 40 5%nat. shl_by 24 3%nat. shl_by 8 1%nat.
  shr_by 56 7%nat. shr_by 40 5%nat. shr_by 24 3%nat. shr_by 8 1%nat.
  do 7 (rewrite lor_le_val by bytes_side; byte_ops). done.
Qed.

Lemma u64_bytes x : is_u64 x -> exists b0 b1 b2 b3 b4 b5 b6 b7,
  le_bytes 8 x = [b0; b1; b2; b3; b4; b5; b6; b7]
  /\ is_bytes [b0; b1; b2; b3; b4; b5; b6; b7] /\ x = le_val [b0; b1; b2; b3; b4; b5; b6; b7].
Proof.
  intros Hx. pose proof (le_bytes_is_bytes 8 x) as Hb.
  pose proof (le_val_le_bytes 8 x) as Hv. rewrite Z.mod_small in Hv by done.
  simpl le_bytes in *. eauto 20.
Qed.

Lemma SWAP64_le_bytes x : is_u64 x -> le_bytes 8 (SWAP64 x) = reverse (le_bytes 8 x).
Proof.
  intros Hx. destruct (u64_bytes x Hx) as (b0&b1&b2&b3&b4&b5&b6&b7&->&Hb&->).
  rewrite SWAP64_bytes by done. rewrite (le_bytes_le_val [b7; _; _; _; _; _; _; _]); [done|].
  unfold is_bytes in *. by rewrite <- Forall_reverse in Hb.
Qed.

(** ** Properties *)

(** [mul128] computes the exact 128-bit product of two 64-bit words: the
    low and high words it returns are the low and high halves of the product,
    no partial carry is lost and its assertion never fires. *)
Theorem mul128_correct a b : is_u64 a -> is_u64 b ->
  mul128 a b = Ok ((a * b) mod 2 ^ 64, a * b / 2 ^ 64).
Proof. apply mul128_ok. Qed.

Lemma mul128_correct_witness :
  mul128 (2 ^ 64 - 1) (2 ^ 64 - 1) = Ok (1, 2 ^ 64 - 2).
Proof. apply (mul128_correct (2 ^ 64 - 1) (2 ^ 64 - 1)); by vm_compute. Defined.

(** [div128_32] is the Euclidean division of the 128-bit dividend by any
    nonzero 32-bit divisor: quotient words and remainder are exact. *)
Theorem div128_32_correct hi lo d : is_u64 hi -> is_u64 lo -> 0 < d < 2 ^ 32 ->
  exists qhi qlo r, div128_32 hi lo d = Ok (qhi, qlo, r)
    /\ is_u64 qhi /\ is_u64 qlo
    /\ qhi * 2 ^ 64 + qlo = (hi * 2 ^ 64 + lo) / d
    /\ r = (hi * 2 ^ 64 + lo) mod d.
Proof. apply div128_32_ok. Qed.

Lemma div128_32_correct_witness : exists qhi qlo r,
  div128_32 5 7 1000 = Ok (qhi, qlo, r) /\ qhi * 2 ^ 64 + qlo = (5 * 2 ^ 64 + 7) / 1000.
Proof.
  destruct (div128_32_correct 5 7 1000) as (qhi & qlo & r & H & _ & _ & Hq & _);
    [by vm_compute | by vm_compute | lia |]. eauto.
Defined.

(** [swap64] and the macro [SWAP64] agree; both reverse the bytes of a
    64-bit word, and swapping twice is the identity. *)
Theorem swap64_reverses x : is_u64 x ->
  le_bytes 8 (swap64 x) = reverse (le_bytes 8 x)
  /\ swap64 x = SWAP64 x /\ swap64 (swap64 x) = x.
Proof.
  intros Hx. destruct (u64_bytes x Hx) as (b0&b1&b2&b3&b4&b5&b6&b7&Hl&Hb&Hx').
  assert (Hr : is_bytes [b7; b6; b5; b4; b3; b2; b1; b0])
    by (unfold is_bytes in *; by rewrite <- Forall_reverse in Hb).
  rewrite Hl. subst x. rewrite swap64_bytes, SWAP64_bytes, swap64_bytes by done.
  by rewrite (le_bytes_le_val [b7; _; _; _; _; _; _; _]).
Qed.

Lemma swap64_reverses_witness :
  le_bytes 8 (swap64 0x0102030405060708) = reverse (le_bytes 8 0x0102030405060708).
Proof. apply (swap64_reverses 0x0102030405060708). by vm_compute. Defined.
