(* ===== verification/Stream.v ===== *)
(** * Byte streams and variable-length integers

    [common/MemoryInputStream.cpp], [common/StreamTools.cpp] and
    [common/Varint.h].  An input stream is the list of the bytes not yet read
    (the buffer from [position] on); a reader returns the value and the stream
    left behind, or the exception the C++ throws. *)

From Stdlib Require Import ZArith Lia.
From stdpp Require Import base tactics list numbers strings.
From S2P Require Import Prelude IntUtil.

Local Open Scope Z_scope.

(** ** Memory streams *)

Definition endOfStream (s : bytes) : bool := bool_decide (s = []).

(** The bytes copied to [data], and the stream after the call. *)
Definition readSome (s : bytes) (size : Z) : bytes * bytes :=
  let readSize := Z.to_nat (Z.min size (Z.of_nat (length s))) in
  (take readSize s, drop readSize s).

(** [Common::read(in, data, size)]: ask [readSome] for the rest of the bytes
    until there are none left to ask for.  The stream only shrinks, so as many
    rounds as it has bytes, and one, are enough ([read_step]). *)
Fixpoint read_loop (fuel : nat) (s : bytes) (size : Z) : outcome (bytes * bytes) :=
  if negb (0 <? size) then Ok ([], s)
  else
    match fuel with
    | O => Undefined "out of fuel"
    | S fuel =>
        let '(got, s') := readSome s size in
        if bool_decide (got = []) then Throw "Failed to read from IInputStream"
        else
          '(more, s'') ← read_loop fuel s' (size - Z.of_nat (length got));
          Ok (got ++ more, s'')
    end.
Definition read (s : bytes) (size : Z) : outcome (bytes * bytes) :=
  read_loop (S (length s)) s size.

Definition read_uint8 (s : bytes) : outcome (Z * bytes) :=
  '(l, s') ← read s 1; Ok (le_val l, s').

(** ** [StreamTools]: [readVarint] for a [w]-bit target, and [writeVarint] *)

Fixpoint readVarint_loop (w shift temp : Z) (s : bytes) : outcome (Z * bytes) :=
  match s with
  | [] => Throw "Failed to read from IInputStream"
  | piece :: s =>
      overflow ← (if w - 7 <=? shift then
                    _ ← assert ((0 <=? w - shift) && (w - shift <? 31)) "shift count out of range";
                    Ok (Z.shiftl 1 (w - shift) <=? piece)
                  else Ok false);
      _ ← require (negb overflow) "readVarint, value overflow";
      let temp := wrap w (Z.lor temp (u64 (Z.shiftl (Z.land piece 0x7f) shift))) in
      if Z.land piece 0x80 =? 0 then
        _ ← require (negb ((piece =? 0) && negb (shift =? 0)))
              "readVarint, invalid value representation";
        Ok (temp, s)
      else readVarint_loop w (u8 (shift + 7)) temp s
  end.
Definition readVarint (w : Z) (s : bytes) : outcome (Z * bytes) := readVarint_loop w 0 0 s.

Fixpoint writeVarint_loop (fuel : nat) (value : Z) : bytes :=
  match fuel with
  | O => []
  | S fuel =>
      if 0x80 <=? value then
        u8 (Z.lor value 0x80) :: writeVarint_loop fuel (Z.shiftr value 7)
      else [u8 value]
  end.
(** Ten groups of seven bits cover 64 bits. *)
Definition writeVarint (value : Z) : bytes := writeVarint_loop 10 value.

(** ** [Varint.h]: the iterator versions, which report errors as codes *)

Fixpoint write_varint_loop (fuel : nat) (i : Z) : bytes :=
  match fuel with
  | O => []
  | S fuel =>
      if 0x80 <=? i then
        Z.lor (Z.land (u8 i) 0x7f) 0x80 :: write_varint_loop fuel (Z.shiftr i 7)
      else [u8 i]
  end.
Definition get_varint_data (v : Z) : bytes := write_varint_loop 10 v.

(** Returns the code, the value [i] read so far and the bytes left.  A positive
    code is the number of bytes read, also when the input ends early. *)
Fixpoint read_varint_loop (bits shift count i : Z) (s : bytes) : Z * Z * bytes :=
  match s with
  | [] => (count, i, [])
  | byte :: s =>
      let count := count + 1 in
      if (bits <=? shift + 7) && (Z.shiftl 1 (bits - shift) <=? byte) then (-1, i, s)
      else if (byte =? 0) && negb (shift =? 0) then (-2, i, s)
      else
        let i := wrap bits (Z.lor i (Z.shiftl (Z.land byte 0x7f) shift)) in
        if Z.land byte 0x80 =? 0 then (count, i, s)
        else read_varint_loop bits (shift + 7) count i s
  end.
Definition read_varint (bits : Z) (s : bytes) : Z * Z * bytes := read_varint_loop bits 0 0 0 s.

(** ** Reading *)

Lemma read_step s size : 0 <= size <= Z.of_nat (length s) ->
  read s size = Ok (take (Z.to_nat size) s, drop (Z.to_nat size) s).
Proof.
  intros H. unfold read. simpl. destruct (Z.ltb_spec 0 size).
  - simpl. replace (Z.min size (Z.of_nat (length s))) with size by lia.
    rewrite bool_decide_eq_false_2.
    + rewrite length_take. replace (size - _) with 0 by lia.
      destruct (length s); simpl; by rewrite app_nil_r.
    + intros E%(f_equal length). rewrite length_take in E. simpl in E. lia.
  - by replace size with 0 by lia.
Qed.

Lemma read_short s size : Z.of_nat (length s) < size ->
  read s size = Throw "Failed to read from IInputStream".
Proof.
  intros H. unfold read. simpl. rewrite (proj2 (Z.ltb_lt 0 size)) by lia. simpl.
  replace (Z.min size (Z.of_nat (length s))) with (Z.of_nat (length s)) by lia.
  rewrite Nat2Z.id, firstn_all, drop_all.
  destruct s as [|b s]; [done|]. rewrite bool_decide_eq_false_2 by done.
  simpl length. simpl read_loop.
  rewrite (proj2 (Z.ltb_lt 0 _)) by (simpl in *; lia).
  simpl. rewrite Z.min_r by (simpl in *; lia). done.
Qed.

Lemma read_app l rest : read (l ++ rest) (Z.of_nat (length l)) = Ok (l, rest).
Proof.
  rewrite read_step by (rewrite length_app; lia).
  by rewrite Nat2Z.id, take_app_length, drop_app_length.
Qed.

Lemma read_inv s size l s' : 0 <= size -> read s size = Ok (l, s') ->
  s = l ++ s' /\ Z.of_nat (length l) = size.
Proof.
  intros Hs H. destruct (Z.le_gt_cases size (Z.of_nat (length s))).
  - rewrite read_step in H by lia. simplify_eq. rewrite take_drop, length_take. split; [done|lia].
  - by rewrite read_short in H by lia.
Qed.

(** ** Variable-length integers *)

Lemma high_bit b : is_u8 b -> (Z.land b 0x80 =? 0) = (b <? 128).
Proof.
  intros Hb. apply eqb_prop.
  by apply (byte_forall (fun b => Bool.eqb (Z.land b 0x80 =? 0) (b <? 128))).
Qed.

Lemma low_bits b : Z.land b 0x7f = b mod 128.
Proof. change 0x7f with (2 ^ 7 - 1). by rewrite land_ones_mod. Qed.

Lemma lor_high_bit v : 0 <= v -> u8 (Z.lor v 0x80) = 128 + v mod 128.
Proof.
  intros Hv. unfold wrap.
  transitivity (Z.lor (v mod 2 ^ 8) 0x80).
  { apply Z.bits_inj'. intros i Hi. destruct (Z.lt_ge_cases i 8).
    - rewrite Z.mod_pow2_bits_low, !Z.lor_spec, Z.mod_pow2_bits_low by lia. done.
    - rewrite Z.mod_pow2_bits_high, Z.lor_spec, Z.mod_pow2_bits_high by lia.
      by rewrite (testbit_small 128 8) by lia. }
  assert (H := byte_forall (fun b => Z.lor b 0x80 =? 128 + b mod 128) eq_refl
                 (v mod 2 ^ 8) (wrap_range 8 v ltac:(lia))).
  rewrite Z.eqb_eq in H. rewrite H. f_equal.
  change (2 ^ 8) with (128 * 2). rewrite Z.rem_mul_r by lia.
  rewrite (Z.mul_comm 128), Z.mod_add, Zmod_mod; lia.
Qed.

Lemma writeVarint_loop_S n v : 0 <= v ->
  writeVarint_loop (S n) v
  = if 128 <=? v then 128 + v mod 128 :: writeVarint_loop n (v / 128) else [v].
Proof.
  intros Hv. simpl. destruct (Z.leb_spec 128 v).
  - rewrite lor_high_bit, Z.shiftr_div_pow2 by lia. done.
  - rewrite wrap_small; [done|]. unfold in_width. lia.
Qed.

Lemma writeVarint_fuel n m v : 0 <= v < 128 ^ Z.of_nat n -> (n <= m)%nat -> (0 < n)%nat ->
  writeVarint_loop m v = writeVarint_loop n v.
Proof.
  revert m v. induction n as [|n IH]; intros m v Hv Hm Hn; [lia|].
  destruct m as [|m]; [lia|]. rewrite !writeVarint_loop_S by lia.
  destruct (Z.leb_spec 128 v); [|done]. f_equal.
  rewrite Nat2Z.inj_succ, Z.pow_succ_r in Hv by lia.
  assert (0 <= v / 128 < 128 ^ Z.of_nat n).
  { split; [apply Z.div_pos; lia|]. apply Z.div_lt_upper_bound; lia. }
  destruct n; [simpl in *; lia|]. apply IH; lia.
Qed.

(** The defining equation of the format, free of fuel. *)
Lemma writeVarint_eq v : is_u64 v ->
  writeVarint v = if 128 <=? v then 128 + v mod 128 :: writeVarint (v / 128) else [v].
Proof.
  intros [Hv1 Hv2]. unfold writeVarint at 1. rewrite writeVarint_loop_S by done.
  destruct (Z.leb_spec 128 v); [|done]. f_equal. symmetry. apply writeVarint_fuel; try lia.
  split; [apply Z.div_pos; lia|]. apply Z.div_lt_upper_bound; [lia|]. eval_pow2. simpl. lia.
Qed.

Lemma writeVarint_is_bytes n v : 0 <= v -> is_bytes (writeVarint_loop n v).
Proof.
  revert v. induction n as [|n IH]; intros v Hv; [constructor|].
  rewrite writeVarint_loop_S by done. destruct (Z.leb_spec 128 v).
  - constructor; [|apply IH, Z.div_pos; lia].
    pose proof (Z.mod_pos_bound v 128). unfold in_width. lia.
  - constructor; [|constructor]. unfold in_width. lia.
Qed.

Lemma length_writeVarint v : is_u64 v -> (1 <= length (writeVarint v) <= 10)%nat.
Proof.
  assert (B : forall n v, (length (writeVarint_loop n v) <= n)%nat).
  { induction n as [|n IH]; intros u; simpl; [done|].
    destruct (0x80 <=? u); simpl; [specialize (IH (Z.shiftr u 7)); lia|lia]. }
  intros Hv. split; [|apply B]. rewrite writeVarint_eq by done.
  destruct (128 <=? v); simpl; lia.
Qed.

(** One accumulation step: seven more bits above the [shift] already read. *)
Lemma temp_step w shift temp b :
  0 <= shift -> 0 <= temp < 2 ^ shift -> 0 <= b < 128 ->
  temp + b * 2 ^ shift < 2 ^ w -> w <= 64 ->
  wrap w (Z.lor temp (u64 (Z.shiftl b shift))) = temp + b * 2 ^ shift.
Proof.
  intros Hs Ht Hb Hw H64.
  assert (0 <= b * 2 ^ shift) by (apply Z.mul_nonneg_nonneg; lia).
  assert (2 ^ w <= 2 ^ 64) by (apply Z.pow_le_mono_r; lia).
  rewrite (wrap_small 64) by (rewrite Z.shiftl_mul_pow2 by lia; unfold in_width; lia).
  rewrite lor_shiftl_add by done. apply wrap_small. unfold in_width. lia.
Qed.

(** The widths [StreamTools] instantiates the reader at. *)
Definition varint_width (w : Z) : Prop := w = 8 \/ w = 16 \/ w = 32 \/ w = 64.

Lemma readVarint_loop_write w n v shift temp rest :
  varint_width w -> 0 <= shift -> 0 <= temp < 2 ^ shift ->
  0 <= v < 128 ^ Z.of_nat n -> (0 < n)%nat -> temp + v * 2 ^ shift < 2 ^ w ->
  (shift = 0 \/ v <> 0) ->
  readVarint_loop w shift temp (writeVarint_loop n v ++ rest)
  = Ok (temp + v * 2 ^ shift, rest).
Proof.
  intros Hw. revert v shift temp. induction n as [|n IH]; intros v shift temp Hs Ht Hv Hn Hlt Hc; [lia|].
  rewrite writeVarint_loop_S by lia.
  assert (Hw64 : w <= 64) by (unfold varint_width in Hw; lia).
  assert (Hp : 0 < 2 ^ shift) by (apply Z.pow_pos_nonneg; lia).
  destruct (Z.leb_spec 128 v).
  - (* a continuation byte *)
    assert (Hsw : shift < w - 7).
    { apply Z.nle_gt. intros Hge.
      assert (2 ^ w <= 2 ^ (shift + 7)) by (apply Z.pow_le_mono_r; lia).
      rewrite Z.pow_add_r in * by lia. assert (128 * 2 ^ shift <= v * 2 ^ shift)
        by (apply Z.mul_le_mono_nonneg_r; lia). lia. }
    set (b := v mod 128). assert (Hb : 0 <= b < 128) by (apply Z.mod_pos_bound; lia).
    assert (Hv' : v = b + 128 * (v / 128)) by (subst b; pose proof (Z.div_mod v 128); lia).
    assert (Hq : 1 <= v / 128) by (apply Z.div_le_lower_bound; lia).
    set (q := v / 128) in *. clearbody b q.
    simpl. rewrite (proj2 (Z.leb_gt _ _)) by lia. simpl.
    rewrite high_bit by (unfold in_width; lia).
    rewrite (proj2 (Z.ltb_ge _ _)) by lia. rewrite low_bits.
    replace ((128 + b) mod 128) with b
      by (rewrite <- (Z.mul_1_l 128) at 1; rewrite Z.add_comm, Z.mod_add, Z.mod_small; lia).
    assert (Hbs : b * 2 ^ shift <= v * 2 ^ shift) by (apply Z.mul_le_mono_nonneg_r; lia).
    rewrite temp_step by lia.
    rewrite (wrap_small 8) by (unfold in_width; lia).
    assert (Hpow : 2 ^ (shift + 7) = 128 * 2 ^ shift) by (rewrite Z.pow_add_r; lia).
    assert (b * 2 ^ shift <= 127 * 2 ^ shift) by (apply Z.mul_le_mono_nonneg_r; lia).
    assert (0 <= b * 2 ^ shift) by (apply Z.mul_nonneg_nonneg; lia).
    rewrite Nat2Z.inj_succ, Z.pow_succ_r in Hv by lia.
    destruct n as [|n]; [simpl in *; lia|].
    assert (Hsum : v * 2 ^ shift = b * 2 ^ shift + q * (128 * 2 ^ shift)) by (rewrite Hv'; ring).
    rewrite IH by (rewrite ?Hpow; lia). rewrite Hpow. do 2 f_equal. lia.
  - (* the last byte *)
    simpl. rewrite high_bit by (unfold in_width; lia).
    rewrite (proj2 (Z.ltb_lt _ _)) by lia. rewrite low_bits, Z.mod_small by lia.
    rewrite temp_step by lia.
    replace ((v =? 0) && negb (shift =? 0)) with false
      by (destruct (Z.eqb_spec v 0), (Z.eqb_spec shift 0); simpl; done || lia).
    destruct (Z.leb_spec (w - 7) shift) as [Hge|]; [|done].
    assert (Hsw : 0 <= w - shift).
    { destruct Hc as [->|Hnz]; [unfold varint_width in Hw; lia|].
      apply Z.le_0_sub, Z.lt_le_incl, (Z.pow_lt_mono_r_iff 2); [lia|unfold varint_width in Hw; lia|].
      assert (1 * 2 ^ shift <= v * 2 ^ shift) by (apply Z.mul_le_mono_nonneg_r; lia). lia. }
    rewrite (proj2 (Z.leb_le 0 _)), (proj2 (Z.ltb_lt (w - shift) 31)) by lia. simpl.
    rewrite Z.shiftl_mul_pow2, Z.mul_1_l by lia.
    rewrite (proj2 (Z.leb_gt _ _)); [done|].
    apply (Z.mul_lt_mono_pos_r (2 ^ shift)); [done|]. rewrite <- Z.pow_add_r by lia.
    replace (w - shift + shift) with w by lia. lia.
Qed.

Lemma readVarint_writeVarint w v rest : varint_width w -> in_width w v ->
  readVarint w (writeVarint v ++ rest) = Ok (v, rest).
Proof.
  intros Hw [Hv1 Hv2]. unfold readVarint, writeVarint.
  assert (2 ^ w <= 2 ^ 64) by (apply Z.pow_le_mono_r; unfold varint_width in Hw; lia).
  assert (v < 128 ^ Z.of_nat 10) by (apply Z.lt_trans with (2 ^ 64 + 1); [lia|done]).
  rewrite readVarint_loop_write by (rewrite ?Z.pow_0_r; done || lia).
  do 2 f_equal. lia.
Qed.

(** What the reader accepts is exactly what the writer produces. *)
Lemma readVarint_loop_inv w s shift temp x rest :
  varint_width w -> is_bytes s -> 0 <= shift <= w -> 0 <= temp < 2 ^ shift ->
  readVarint_loop w shift temp s = Ok (x, rest) ->
  exists v n, x = temp + v * 2 ^ shift /\ x < 2 ^ w /\ 0 <= v < 128 ^ Z.of_nat n
    /\ (shift = 0 \/ v <> 0) /\ (0 < n)%nat /\ s = writeVarint_loop n v ++ rest.
Proof.
  intros Hw Hs. assert (Hw64 : w <= 64) by (unfold varint_width in Hw; lia).
  revert shift temp. induction Hs as [|b s Hb Hs IH]; intros shift temp Hsh Ht H; [done|].
  simpl in H. inv_ok. assert (Hp : 0 < 2 ^ shift) by (apply Z.pow_pos_nonneg; lia).
  rewrite high_bit, low_bits in H by done. unfold in_width in Hb. change (2 ^ 8) with 256 in Hb.
  assert (Hov : w - 7 <= shift -> b < 2 ^ (w - shift)).
  { intros Hge. rewrite (proj2 (Z.leb_le _ _) Hge) in Hok. inv_ok. subst.
    rewrite Z.shiftl_mul_pow2, Z.mul_1_l in Hok0 by lia.
    apply negb_true_iff, Z.leb_gt in Hok0. done. }
  clear Hok Hok0. set (b' := b mod 128) in H.
  assert (Hb' : 0 <= b' < 128) by (apply Z.mod_pos_bound; lia).
  assert (Hfit : temp + b' * 2 ^ shift < 2 ^ w).
  { assert (Hbound : (b' + 1) * 2 ^ shift <= 2 ^ w); [|lia].
    destruct (Z.le_gt_cases (w - 7) shift) as [Hge|Hlt].
    - specialize (Hov Hge).
      assert (2 ^ (w - shift) <= 2 ^ 7) by (apply Z.pow_le_mono_r; lia).
      assert (b' = b) by (apply Z.mod_small; lia).
      replace (2 ^ w) with (2 ^ (w - shift) * 2 ^ shift)
        by (rewrite <- Z.pow_add_r by lia; f_equal; lia).
      apply Z.mul_le_mono_nonneg_r; lia.
    - assert (2 ^ (shift + 7) <= 2 ^ w) by (apply Z.pow_le_mono_r; lia).
      rewrite Z.pow_add_r in * by lia.
      assert ((b' + 1) * 2 ^ shift <= 128 * 2 ^ shift) by (apply Z.mul_le_mono_nonneg_r; lia).
      lia. }
  rewrite temp_step in H by lia.
  destruct (Z.ltb_spec b 128).
  - inv_ok. simplify_eq. assert (b' = b) as -> by (apply Z.mod_small; lia).
    exists b, 1%nat. rewrite writeVarint_loop_S by lia.
    rewrite (proj2 (Z.leb_gt _ _)) by lia.
    assert (shift = 0 \/ b <> 0)
      by (destruct (Z.eqb_spec b 0), (Z.eqb_spec shift 0); simpl in *; try done; lia).
    repeat split; try (done || lia).
  - assert (Hsw : shift < w - 7).
    { apply Z.nle_gt. intros Hge. specialize (Hov Hge).
      assert (2 ^ (w - shift) <= 2 ^ 7) by (apply Z.pow_le_mono_r; lia). lia. }
    rewrite (wrap_small 8) in H by (unfold in_width; lia).
    assert (Hpow : 2 ^ (shift + 7) = 128 * 2 ^ shift) by (rewrite Z.pow_add_r; lia).
    apply IH in H as (u & n & -> & Hx & Hu & Hc & Hn & ->); [|lia|].
    + exists (b' + 128 * u), (S n). rewrite Nat2Z.inj_succ, Z.pow_succ_r by lia.
      rewrite writeVarint_loop_S, (proj2 (Z.leb_le _ _)) by lia.
      replace ((b' + 128 * u) mod 128) with b'
        by (rewrite Z.mul_comm, Z.mod_add, Z.mod_small; lia).
      replace ((b' + 128 * u) / 128) with u
        by (rewrite Z.mul_comm, Z.div_add, Z.div_small; lia).
      assert (b' = b - 128) by (symmetry; apply (Z.mod_unique_pos b 128 1); lia).
      replace b with (128 + b') by lia.
      repeat split; try (done || lia).
    + rewrite Hpow. assert (b' * 2 ^ shift <= 127 * 2 ^ shift) by (apply Z.mul_le_mono_nonneg_r; lia).
      assert (0 <= b' * 2 ^ shift) by (apply Z.mul_nonneg_nonneg; lia). lia.
Qed.

Lemma readVarint_inv w s x rest : varint_width w -> is_bytes s ->
  readVarint w s = Ok (x, rest) -> in_width w x /\ s = writeVarint x ++ rest.
Proof.
  intros Hw Hs H. unfold readVarint in H.
  apply readVarint_loop_inv in H as (v & n & -> & Hx & Hv & _ & Hn & ->);
    [|done|done|unfold varint_width in Hw; lia|lia].
  rewrite Z.pow_0_r in *. replace (0 + v * 1) with v in * by lia.
  split; [unfold in_width; lia|]. f_equal. unfold writeVarint.
  destruct (Nat.le_gt_cases n 10).
  - by rewrite (writeVarint_fuel n 10).
  - apply writeVarint_fuel; try lia.
    split; [lia|]. apply Z.lt_trans with (2 ^ 64 + 1); [|done].
    assert (2 ^ w <= 2 ^ 64) by (apply Z.pow_le_mono_r; unfold varint_width in Hw; lia). lia.
Qed.

(** ** The code-returning versions of [Varint.h] agree with [StreamTools] *)

Lemma get_varint_data_eq v : 0 <= v -> get_varint_data v = writeVarint v.
Proof.
  unfold get_varint_data, writeVarint. generalize 10%nat. intros n.
  revert v. induction n as [|n IH]; intros v Hv; [done|]. simpl.
  destruct (Z.leb_spec 128 v); [|done].
  rewrite IH by (apply Z.shiftr_nonneg; lia). f_equal.
  rewrite lor_high_bit by done. rewrite low_bits.
  assert (Hm : u8 v mod 128 = v mod 128).
  { unfold wrap. change (2 ^ 8) with (128 * 2). rewrite Z.rem_mul_r by lia.
    rewrite (Z.mul_comm 128), Z.mod_add, Zmod_mod; lia. }
  rewrite Hm, Z.lor_comm. pose proof (Z.mod_pos_bound v 128).
  assert (E := byte_forall (fun b => implb (b <? 128) (Z.lor 128 b =? 128 + b)) eq_refl (v mod 128)).
  specialize (E ltac:(unfold in_width; lia)). cbv beta in E.
  rewrite (proj2 (Z.ltb_lt _ _)) in E by lia. by apply Z.eqb_eq.
Qed.

Lemma wrap_lor_u64 w a c : 0 <= w <= 64 -> wrap w (Z.lor a (u64 c)) = wrap w (Z.lor a c).
Proof.
  intros Hw. unfold wrap. apply Z.bits_inj'. intros i Hi. destruct (Z.lt_ge_cases i w).
  - rewrite !Z.mod_pow2_bits_low, !Z.lor_spec, Z.mod_pow2_bits_low by lia. done.
  - by rewrite !Z.mod_pow2_bits_high by lia.
Qed.

Lemma read_varint_loop_agrees w s shift temp count x rest :
  varint_width w -> is_bytes s -> 0 <= shift ->
  readVarint_loop w shift temp s = Ok (x, rest) ->
  read_varint_loop w shift count temp s
  = (count + Z.of_nat (length s) - Z.of_nat (length rest), x, rest).
Proof.
  intros Hw Hs. assert (Hw64 : 0 <= w <= 64) by (unfold varint_width in Hw; lia).
  revert shift temp count.
  induction Hs as [|b s Hb Hs IH]; intros shift temp count Hsh H; [done|].
  cbn [readVarint_loop read_varint_loop length] in *. inv_ok. rewrite wrap_lor_u64 in H by done.
  assert (Hov : (w <=? shift + 7) && (Z.shiftl 1 (w - shift) <=? b) = false /\ shift <= w).
  { destruct (Z.leb_spec (w - 7) shift), (Z.leb_spec w (shift + 7)); try lia; inv_ok; subst.
    apply negb_true_iff in Hok0. rewrite Hok0. split; [done|].
    match goal with A : _ && _ = true |- _ => apply andb_true_iff in A as [A%Z.leb_le _] end. lia. }
  destruct Hov as [-> Hsw]. rewrite high_bit in * by done.
  destruct (Z.ltb_spec b 128).
  - inv_ok. simplify_eq. apply negb_true_iff in Hok1. rewrite Hok1. do 2 f_equal. lia.
  - rewrite (proj2 (Z.eqb_neq b 0)) by lia. simpl.
    rewrite (wrap_small 8) in H by (unfold in_width; lia).
    rewrite (IH (shift + 7) _ (count + 1) ltac:(lia) H). do 2 f_equal. lia.
Qed.

Lemma read_varint_get_varint_data w v rest : varint_width w -> in_width w v -> is_bytes rest ->
  read_varint w (get_varint_data v ++ rest)
  = (Z.of_nat (length (get_varint_data v)), v, rest).
Proof.
  intros Hw Hv Hr. rewrite get_varint_data_eq by apply Hv. unfold read_varint.
  rewrite (read_varint_loop_agrees w _ 0 0 0 v rest).
  - rewrite length_app. do 2 f_equal. lia.
  - done.
  - apply Forall_app. split; [apply writeVarint_is_bytes, Hv|done].
  - done.
  - by apply readVarint_writeVarint.
Qed.

(** The iterator version also accepts an input that ends inside a number; as
    soon as bytes are left over, what it accepted was a complete number. *)
Lemma read_varint_loop_complete w s shift temp count n x rest :
  varint_width w -> is_bytes s -> 0 <= shift <= w -> 0 <= count ->
  read_varint_loop w shift count temp s = (n, x, rest) -> 0 <= n -> rest <> [] ->
  readVarint_loop w shift temp s = Ok (x, rest)
  /\ n = count + Z.of_nat (length s) - Z.of_nat (length rest).
Proof.
  intros Hw Hs. assert (Hw64 : 0 <= w <= 64) by (unfold varint_width in Hw; lia).
  revert shift temp count.
  induction Hs as [|b s Hb Hs IH]; intros shift temp count Hsh Hc H Hn Hr; [by simplify_eq/=|].
  cbn [readVarint_loop read_varint_loop length] in *. rewrite wrap_lor_u64 by done.
  destruct ((w <=? shift + 7) && (Z.shiftl 1 (w - shift) <=? b)) eqn:Hov; [simplify_eq; lia|].
  destruct ((b =? 0) && negb (shift =? 0)) eqn:Hz; [simplify_eq; lia|].
  replace (w - 7 <=? shift) with (w <=? shift + 7)
    by (destruct (Z.leb_spec w (shift + 7)), (Z.leb_spec (w - 7) shift); lia).
  rewrite high_bit in * by done.
  destruct (Z.leb_spec w (shift + 7)) as [Hge|Hlt]; cbn [andb] in Hov.
  - rewrite (proj2 (Z.leb_le 0 _)), (proj2 (Z.ltb_lt (w - shift) 31)) by lia. okbind.
    rewrite Hov. okbind. apply Z.leb_gt in Hov. rewrite Z.shiftl_mul_pow2, Z.mul_1_l in Hov by lia.
    assert (2 ^ (w - shift) <= 2 ^ 7) by (apply Z.pow_le_mono_r; lia).
    rewrite (proj2 (Z.ltb_lt b 128)) in * by lia. simplify_eq. okbind. split; [done|lia].
  - okbind. destruct (Z.ltb_spec b 128).
    + simplify_eq. okbind. split; [done|lia].
    + rewrite (wrap_small 8) by (unfold in_width; lia).
      apply IH in H as [-> ->]; [|lia..|done|done]. split; [done|lia].
Qed.

Lemma read_varint_loop_rest w s shift temp count n x rest :
  0 <= count -> read_varint_loop w shift count temp s = (n, x, rest) -> 0 <= n ->
  count <= n /\ rest = drop (Z.to_nat (n - count)) s.
Proof.
  revert shift temp count. induction s as [|b s IH]; intros shift temp count Hc H Hn;
    cbn [read_varint_loop] in H.
  { simplify_eq. by rewrite Z.sub_diag. }
  repeat case_match; simplify_eq; try lia.
  - split; [lia|]. by replace (count + 1 - count) with 1 by lia.
  - apply IH in H as [? ->]; [|lia|done]. split; [lia|].
    replace (Z.to_nat (n - count)) with (S (Z.to_nat (n - (count + 1)))) by lia. done.
Qed.

Lemma read_varint_inv w s n x rest : varint_width w -> is_bytes s ->
  read_varint w s = (n, x, rest) -> 0 <= n -> rest <> [] ->
  in_width w x /\ s = get_varint_data x ++ rest /\ n = Z.of_nat (length (get_varint_data x)).
Proof.
  intros Hw Hs H Hn Hr.
  apply read_varint_loop_complete in H as [H ->]; [|done|done|unfold varint_width in Hw; lia|lia|done|done].
  apply readVarint_inv in H as [Hx ->]; [|done|done].
  rewrite get_varint_data_eq by apply Hx. rewrite length_app. split_and!; [apply Hx..|done|lia].
Qed.

(** The shifts stay in range on every input: the reader returns or throws. *)
Lemma readVarint_loop_defined w s shift temp :
  varint_width w -> is_bytes s -> 0 <= shift <= w -> defined (readVarint_loop w shift temp s).
Proof.
  intros Hw Hs. assert (Hw64 : 8 <= w <= 64) by (unfold varint_width in Hw; lia).
  revert shift temp. induction Hs as [|b s Hb Hs IH]; intros shift temp Hsh; [done|].
  cbn [readVarint_loop]. rewrite high_bit by done. destruct (Z.leb_spec (w - 7) shift) as [Hl|Hl].
  - rewrite (proj2 (Z.leb_le 0 (w - shift))), (proj2 (Z.ltb_lt (w - shift) 31)) by lia. okbind.
    destruct (Z.leb_spec (Z.shiftl 1 (w - shift)) b) as [?|Hlt]; [done|]. okbind.
    rewrite Z.shiftl_mul_pow2, Z.mul_1_l in Hlt by lia.
    assert (2 ^ (w - shift) <= 2 ^ 7) by (apply Z.pow_le_mono_r; lia).
    rewrite (proj2 (Z.ltb_lt b 128)) by (eval_pow2; lia).
    by destruct (_ && _).
  - okbind. destruct (b <? 128).
    + by destruct (_ && _).
    + rewrite wrap_small by width_solve. apply IH. lia.
Qed.

Lemma readVarint_defined w s : varint_width w -> is_bytes s -> defined (readVarint w s).
Proof. intros Hw Hs. apply readVarint_loop_defined; try done. unfold varint_width in Hw. lia. Qed.

Lemma read_defined s size : 0 <= size -> defined (read s size).
Proof.
  intros H. destruct (Z.le_gt_cases size (Z.of_nat (length s))).
  - by rewrite read_step by lia.
  - by rewrite read_short by lia.
Qed.
#[export] Hint Resolve readVarint_defined read_defined : defined.

Lemma read_uint8_cons b s : read_uint8 (b :: s) = Ok (b, s).
Proof.
  unfold read_uint8. rewrite (read_step (b :: s) 1) by (simpl; lia). simpl. do 2 f_equal. lia.
Qed.

(** ** Properties *)

(** Reading back a written varint returns the number and leaves exactly the
    bytes that followed it, for each of the widths the readers exist at. *)
Theorem varint_roundtrip w v rest : varint_width w -> in_width w v ->
  readVarint w (writeVarint v ++ rest) = Ok (v, rest).
Proof. apply readVarint_writeVarint. Qed.

Lemma varint_roundtrip_witness :
  readVarint 64 (writeVarint (2 ^ 64 - 1) ++ [7]) = Ok (2 ^ 64 - 1, [7]).
Proof.
  apply (varint_roundtrip 64 (2 ^ 64 - 1) [7]); [right; right; by right | by vm_compute].
Defined.

(** The varint format is canonical: whatever byte string the reader accepts
    is the writer's encoding of the number it returns, and the number fits its
    width.  So no two encodings denote the same number. *)
Theorem varint_canonical w s x rest : varint_width w -> is_bytes s ->
  readVarint w s = Ok (x, rest) -> in_width w x /\ s = writeVarint x ++ rest.
Proof. apply readVarint_inv. Qed.

Lemma varint_canonical_witness :
  [0xac; 0x02; 5] = writeVarint 300 ++ [5].
Proof.
  apply (varint_canonical 32 [0xac; 0x02; 5] 300 [5]);
    [right; right; by left | by repeat constructor | by vm_compute].
Defined.
