(* ===== verification/StringTools.v ===== *)
(** * [common/StringTools.cpp]: hexadecimal text and delimited text

    Strings and binary buffers are byte lists.  The overloads of [fromHex]
    become separate definitions: those that throw return an [outcome], those
    that return [bool] return an [option] (or, when they append to a vector
    that keeps what was pushed before the failure, the flag and the vector). *)

From Stdlib Require Import ZArith Lia.
From stdpp Require Import base tactics list numbers sets strings.
From S2P Require Import Prelude.

Local Open Scope Z_scope.

Definition characterValues : list Z :=
  [
   255; 255; 255; 255; 255; 255; 255; 255; 255; 255; 255; 255; 255; 255; 255; 255;
   255; 255; 255; 255; 255; 255; 255; 255; 255; 255; 255; 255; 255; 255; 255; 255;
   255; 255; 255; 255; 255; 255; 255; 255; 255; 255; 255; 255; 255; 255; 255; 255;
   0; 1; 2; 3; 4; 5; 6; 7; 8; 9; 255; 255; 255; 255; 255; 255;
   255; 10; 11; 12; 13; 14; 15; 255; 255; 255; 255; 255; 255; 255; 255; 255;
   255; 255; 255; 255; 255; 255; 255; 255; 255; 255; 255; 255; 255; 255; 255; 255;
   255; 10; 11; 12; 13; 14; 15; 255; 255; 255; 255; 255; 255; 255; 255; 255;
   255; 255; 255; 255; 255; 255; 255; 255; 255; 255; 255; 255; 255; 255; 255; 255;
   255; 255; 255; 255; 255; 255; 255; 255; 255; 255; 255; 255; 255; 255; 255; 255;
   255; 255; 255; 255; 255; 255; 255; 255; 255; 255; 255; 255; 255; 255; 255; 255;
   255; 255; 255; 255; 255; 255; 255; 255; 255; 255; 255; 255; 255; 255; 255; 255;
   255; 255; 255; 255; 255; 255; 255; 255; 255; 255; 255; 255; 255; 255; 255; 255;
   255; 255; 255; 255; 255; 255; 255; 255; 255; 255; 255; 255; 255; 255; 255; 255;
   255; 255; 255; 255; 255; 255; 255; 255; 255; 255; 255; 255; 255; 255; 255; 255;
   255; 255; 255; 255; 255; 255; 255; 255; 255; 255; 255; 255; 255; 255; 255; 255;
   255; 255; 255; 255; 255; 255; 255; 255; 255; 255; 255; 255; 255; 255; 255; 255].

Definition characterValue (c : Z) : Z := nth (Z.to_nat c) characterValues 0.

(** [uint8_t fromHex(char)] *)
Definition fromHex_char (c : Z) : outcome Z :=
  let value := characterValue c in
  if 0x0f <? value then Throw "fromHex: invalid character" else Ok value.

(** [bool fromHex(char, uint8_t &)] *)
Definition fromHex_char_opt (c : Z) : option Z :=
  if 0x0f <? characterValue c then None else Some (characterValue c).

(** The loop of the throwing overloads, two characters a round. *)
Fixpoint fromHex_pairs (text : bytes) : outcome bytes :=
  match text with
  | c1 :: c2 :: text =>
      v1 ← fromHex_char c1;
      v2 ← fromHex_char c2;
      data ← fromHex_pairs text;
      Ok (u8 (Z.lor (Z.shiftl v1 4) v2) :: data)
  | _ => Ok []
  end.

(** [uint64_t fromHex(text, data, bufferSize)]: the bytes stored; their number
    is the value returned. *)
Definition fromHex_buffer (text : bytes) (bufferSize : Z) : outcome bytes :=
  _ ← require (Z.land (Z.of_nat (length text)) 1 =? 0) "fromHex: invalid string size";
  _ ← require (Z.shiftr (Z.of_nat (length text)) 1 <=? bufferSize) "fromHex: invalid buffer size";
  fromHex_pairs text.

(** [std::vector<uint8_t> fromHex(text)] *)
Definition fromHex (text : bytes) : outcome bytes :=
  _ ← require (Z.land (Z.of_nat (length text)) 1 =? 0) "fromHex: invalid string size";
  fromHex_pairs text.

(** The loop of the non-throwing overloads: the flag, and what was stored. *)
Fixpoint fromHex_pairs_opt (text : bytes) (data : bytes) : bool * bytes :=
  match text with
  | c1 :: c2 :: text =>
      match fromHex_char_opt c1 with
      | None => (false, data)
      | Some value1 =>
          match fromHex_char_opt c2 with
          | None => (false, data)
          | Some value2 =>
              fromHex_pairs_opt text (data ++ [u8 (Z.lor (Z.shiftl value1 4) value2)])
          end
      end
  | _ => (true, data)
  end.

(** [bool fromHex(text, std::vector<uint8_t> &data)]: appends to [data]. *)
Definition fromHex_append (text : bytes) (data : bytes) : bool * bytes :=
  if negb (Z.land (Z.of_nat (length text)) 1 =? 0) then (false, data)
  else fromHex_pairs_opt text data.

(** [bool fromHex(text, data, bufferSize, size)]: [Some] of the bytes stored. *)
Definition fromHex_buffer_opt (text : bytes) (bufferSize : Z) : option bytes :=
  if negb (Z.land (Z.of_nat (length text)) 1 =? 0) then None
  else if bufferSize <? Z.shiftr (Z.of_nat (length text)) 1 then None
  else
    match fromHex_pairs_opt text [] with
    | (true, data) => Some data
    | (false, _) => None
    end.

(** [podFromHex<T>] for a [T] of [size] bytes. *)
Definition podFromHex (size : Z) (text : bytes) : option bytes :=
  match fromHex_buffer_opt text size with
  | Some data => if Z.of_nat (length data) =? size then Some data else None
  | None => None
  end.

Definition hex_digits : bytes := str "0123456789abcdef".
Definition hex_digit (d : Z) : Z := nth (Z.to_nat d) hex_digits 0.

Fixpoint toHex (data : bytes) : bytes :=
  match data with
  | [] => []
  | b :: data => hex_digit (Z.shiftr b 4) :: hex_digit (Z.land b 15) :: toHex data
  end.
(** [podToHex<T>], on the bytes of the object. *)
Definition podToHex (data : bytes) : bytes := toHex data.

(** [text.find(delimiter)], as the position counted from the front of [text]. *)
Fixpoint find_char (text : bytes) (delimiter : Z) : option nat :=
  match text with
  | [] => None
  | c :: text => if c =? delimiter then Some O else S <$> find_char text delimiter
  end.

(** [extract(std::string &text, char delimiter)]: the field returned, and the
    new value of [text]. *)
Definition extract (text : bytes) (delimiter : Z) : bytes * bytes :=
  match find_char text delimiter with
  | Some delimiterPosition => (take delimiterPosition text, drop (S delimiterPosition) text)
  | None => (text, [])
  end.

(** [extract(const std::string &text, char delimiter, uint64_t &offset)]: the
    field returned, and the new [offset].  [substr(pos, n)] is [n] characters
    from [pos] on, fewer when the string ends first. *)
Definition extract_at (text : bytes) (delimiter : Z) (offset : nat) : bytes * nat :=
  match find_char (drop offset text) delimiter with
  | Some p =>
      let delimiterPosition := (offset + p)%nat in
      let offset := S delimiterPosition in
      (take delimiterPosition (drop offset text), offset)
  | None =>
      let offset := length text in
      (drop offset text, offset)
  end.

(** ** Hexadecimal digits *)

Definition is_hex_char (c : Z) : bool := characterValue c <=? 0x0f.
Definition to_lower (c : Z) : Z := if (65 <=? c) && (c <=? 90) then c + 32 else c.

Lemma hex_digit_value b : is_u8 b ->
  characterValue (hex_digit (Z.shiftr b 4)) = Z.shiftr b 4
  /\ characterValue (hex_digit (Z.land b 15)) = Z.land b 15
  /\ u8 (Z.lor (Z.shiftl (Z.shiftr b 4) 4) (Z.land b 15)) = b
  /\ Z.shiftr b 4 <= 15 /\ Z.land b 15 <= 15.
Proof.
  intros Hb. assert (H := byte_forall (fun b =>
    (characterValue (hex_digit (Z.shiftr b 4)) =? Z.shiftr b 4)
    && (characterValue (hex_digit (Z.land b 15)) =? Z.land b 15)
    && (u8 (Z.lor (Z.shiftl (Z.shiftr b 4) 4) (Z.land b 15)) =? b)
    && (Z.shiftr b 4 <=? 15) && (Z.land b 15 <=? 15)) eq_refl b Hb).
  cbv beta in H. rewrite !andb_true_iff, !Z.eqb_eq, !Z.leb_le in H. tauto.
Qed.

(** The value of a hexadecimal character is the digit [toHex] prints for it, in
    lower case. *)
Lemma value_hex_digit c1 c2 : is_u8 c1 -> is_u8 c2 ->
  characterValue c1 <= 15 -> characterValue c2 <= 15 ->
  let b := u8 (Z.lor (Z.shiftl (characterValue c1) 4) (characterValue c2)) in
  is_u8 b /\ hex_digit (Z.shiftr b 4) = to_lower c1 /\ hex_digit (Z.land b 15) = to_lower c2.
Proof.
  intros H1 H2 V1 V2. assert (H := byte_forall (fun c1 => forallb (fun c2 =>
    implb ((characterValue c1 <=? 15) && (characterValue c2 <=? 15))
      (let b := u8 (Z.lor (Z.shiftl (characterValue c1) 4) (characterValue c2)) in
       (0 <=? b) && (b <? 2 ^ 8) && (hex_digit (Z.shiftr b 4) =? to_lower c1)
       && (hex_digit (Z.land b 15) =? to_lower c2))) (seqZ 0 256))
    ltac:(vm_compute; reflexivity) c1 H1).
  cbv beta in H. apply (byte_forall _ H) in H2 as H3. cbv beta zeta in H3.
  apply Z.leb_le in V1, V2. rewrite V1, V2 in H3. cbn [implb andb] in H3.
  rewrite !andb_true_iff, !Z.eqb_eq, Z.leb_le, Z.ltb_lt in H3. unfold in_width. tauto.
Qed.

Lemma fromHex_char_ok c : characterValue c <= 15 -> fromHex_char c = Ok (characterValue c).
Proof. intros H. unfold fromHex_char. by rewrite (proj2 (Z.ltb_ge _ _)). Qed.

(** Induction over texts two characters at a time. *)
Lemma pairs_ind {A} (P : list A -> Prop) :
  P [] -> (forall a, P [a]) -> (forall a b l, P l -> P (a :: b :: l)) -> forall l, P l.
Proof.
  intros H0 H1 H2. fix IH 1. intros [|a [|b l]]; [done|apply H1|]. apply H2, IH.
Qed.

Lemma length_toHex d : length (toHex d) = (2 * length d)%nat.
Proof. induction d as [|b d IH]; simpl; [done|]. rewrite IH. lia. Qed.

Lemma even_length_land n : Z.land (Z.of_nat (2 * n)) 1 = 0.
Proof.
  change 1 with (2 ^ 1 - 1). rewrite land_ones_mod by lia.
  rewrite Nat2Z.inj_mul, Z.mul_comm, Z.mod_mul; lia.
Qed.

Lemma even_length_shiftr n : Z.shiftr (Z.of_nat (2 * n)) 1 = Z.of_nat n.
Proof.
  rewrite Z.shiftr_div_pow2, Nat2Z.inj_mul, Z.mul_comm by lia. apply Z.div_mul. lia.
Qed.

Lemma fromHex_pairs_toHex d : is_bytes d -> fromHex_pairs (toHex d) = Ok d.
Proof.
  induction 1 as [|b d Hb _ IH]; [done|]. simpl.
  destruct (hex_digit_value b Hb) as (V1 & V2 & Hv & L1 & L2).
  rewrite !fromHex_char_ok by lia. simpl. by rewrite IH, V1, V2, Hv.
Qed.

Lemma fromHex_pairs_inv text : is_bytes text -> forall d,
  fromHex_pairs text = Ok d -> Nat.Even (length text) ->
  is_bytes d /\ length text = (2 * length d)%nat /\ toHex d = to_lower <$> text.
Proof.
  induction text as [|a|c1 c2 text IH] using pairs_ind; intros Ht d H He.
  - simpl in H. inv_ok. subst. by split_and!; [constructor|..].
  - exfalso. destruct He as [k Hk]. simpl in Hk. lia.
  - unfold is_bytes in Ht. rewrite !Forall_cons in Ht. destruct Ht as (H1 & H2 & Ht).
    simpl in H. inv_ok. subst. unfold fromHex_char in Hok, Hok0.
    destruct (Z.ltb_spec 15 (characterValue c1)), (Z.ltb_spec 15 (characterValue c2)); inv_ok.
    subst. destruct (value_hex_digit c1 c2) as (Hb & E1 & E2); [done..|].
    assert (He' : Nat.Even (length text)) by (destruct He as [k Hk]; exists (k - 1)%nat; simpl in Hk; lia).
    destruct (IH Ht _ Hok1 He') as (Hd & Hl & HE). cbn [toHex]. rewrite E1, E2, HE. split_and!.
    + by constructor.
    + simpl. lia.
    + done.
Qed.

(** The throwing and the non-throwing loops accept the same texts and agree. *)
Lemma fromHex_pairs_opt_agrees text : forall data,
  match fromHex_pairs text with
  | Ok d => fromHex_pairs_opt text data = (true, data ++ d)
  | _ => fst (fromHex_pairs_opt text data) = false
  end.
Proof.
  induction text as [|a|c1 c2 text IH] using pairs_ind; intros data; simpl.
  - by rewrite app_nil_r.
  - by rewrite app_nil_r.
  - unfold fromHex_char, fromHex_char_opt.
    destruct (15 <? characterValue c1); [done|]. simpl.
    destruct (15 <? characterValue c2); [done|]. simpl.
    specialize (IH (data ++ [u8 (Z.lor (Z.shiftl (characterValue c1) 4) (characterValue c2))])).
    destruct (fromHex_pairs text); simpl; [|done..]. by rewrite IH, <- app_assoc.
Qed.

Lemma even_land n : Z.land (Z.of_nat n) 1 = 0 -> Nat.Even n.
Proof.
  change 1 with (2 ^ 1 - 1). rewrite land_ones_mod by lia. intros H.
  exists (n / 2)%nat. apply Nat2Z.inj. rewrite Nat2Z.inj_mul, Nat2Z.inj_div.
  pose proof (Z.div_mod (Z.of_nat n) 2). change (2 ^ 1) with 2 in H. lia.
Qed.

Lemma podFromHex_toHex d : is_bytes d -> podFromHex (Z.of_nat (length d)) (toHex d) = Some d.
Proof.
  intros Hd. unfold podFromHex, fromHex_buffer_opt.
  rewrite length_toHex, even_length_land, even_length_shiftr, Z.ltb_irrefl. simpl.
  pose proof (fromHex_pairs_opt_agrees (toHex d) []) as H.
  rewrite fromHex_pairs_toHex in H by done. rewrite H. simpl. by rewrite Z.eqb_refl.
Qed.

Lemma podFromHex_inv size text d : is_bytes text -> podFromHex size text = Some d ->
  is_bytes d /\ Z.of_nat (length d) = size /\ toHex d = to_lower <$> text.
Proof.
  intros Ht H. unfold podFromHex, fromHex_buffer_opt in H.
  destruct (Z.eqb_spec (Z.land (Z.of_nat (length text)) 1) 0) as [He|]; [|done]. simpl in H.
  destruct (_ <? _); [done|].
  pose proof (fromHex_pairs_opt_agrees text []) as Ha.
  destruct (fromHex_pairs text) as [d'| |] eqn:Hp;
    [|destruct (fromHex_pairs_opt text []) as [[] ?]; simpl in Ha; done..].
  rewrite Ha in H. simpl in H. destruct (Z.eqb_spec (Z.of_nat (length d')) size); [|done].
  simplify_eq. destruct (fromHex_pairs_inv text Ht d Hp (even_land _ He)) as (? & ? & ?). done.
Qed.

Lemma find_char_app a d b : d ∉ a -> find_char (a ++ d :: b) d = Some (length a).
Proof.
  induction a as [|c a IH]; intros Hd; simpl; [by rewrite Z.eqb_refl|].
  rewrite (proj2 (Z.eqb_neq c d)) by set_solver. rewrite IH by set_solver. done.
Qed.

(** ** Properties *)

(** Hexadecimal text round-trips: what [toHex] prints for a byte string is
    read back unchanged by the throwing reader, by the appending reader and by
    [podFromHex] at the object's size. *)
Theorem hex_roundtrip d : is_bytes d ->
  fromHex (toHex d) = Ok d
  /\ (forall data, fromHex_append (toHex d) data = (true, data ++ d))
  /\ podFromHex (Z.of_nat (length d)) (toHex d) = Some d.
Proof.
  intros Hd. split_and!; [| |by apply podFromHex_toHex].
  - unfold fromHex. rewrite length_toHex, even_length_land. simpl. by apply fromHex_pairs_toHex.
  - intros data. unfold fromHex_append. rewrite length_toHex, even_length_land. simpl.
    pose proof (fromHex_pairs_opt_agrees (toHex d) data) as H.
    by rewrite fromHex_pairs_toHex in H.
Qed.

Lemma hex_roundtrip_witness : fromHex (toHex [0xde; 0xad; 0x00]) = Ok [0xde; 0xad; 0x00].
Proof. apply (hex_roundtrip [0xde; 0xad; 0x00]). by repeat constructor. Defined.

(** [podFromHex] accepts a text only when it is exactly the object's size in
    hexadecimal digits, of either case, and then printing the object gives the
    text back in lower case: no hash or key has a second spelling. *)
Theorem podFromHex_sound size text d : is_bytes text -> podFromHex size text = Some d ->
  is_bytes d /\ Z.of_nat (length d) = size /\ podToHex d = to_lower <$> text.
Proof. apply podFromHex_inv. Qed.

Lemma podFromHex_sound_witness :
  podToHex [0xAB; 0x01] = to_lower <$> str "aB01".
Proof. apply (podFromHex_sound 2 (str "aB01") [0xAB; 0x01]); [by repeat constructor|done]. Defined.

(** [extract(text, delimiter, offset)] moves [offset] before it takes the
    substring: on a text whose first field is [a] it returns the beginning of
    what follows the delimiter, [length a] characters of it, and not [a] (which
    the overload without [offset] returns). *)
Theorem extract_at_skips_field a d b : d ∉ a ->
  extract_at (a ++ d :: b) d 0 = (take (length a) b, S (length a))
  /\ extract (a ++ d :: b) d = (a, b).
Proof.
  intros Hd. unfold extract_at, extract. rewrite drop_0, find_char_app by done. simpl.
  assert (E : drop (S (length a)) (a ++ d :: b) = b).
  { change (a ++ d :: b) with (a ++ [d] ++ b). rewrite app_assoc.
    replace (S (length a)) with (length (a ++ [d])) by (rewrite length_app; simpl; lia).
    apply drop_app_length. }
  rewrite E. split; [done|]. by rewrite take_app_length.
Qed.

Lemma extract_at_skips_field_witness :
  extract_at (str "ab" ++ 44 :: str "cdef") 44 0 = (str "cd", 3%nat).
Proof. apply (extract_at_skips_field (str "ab") 44 (str "cdef")). by apply not_elem_of_cons; split; [|apply not_elem_of_cons; split; [|apply not_elem_of_nil]]. Defined.
