(* ===== verification/Base58.v ===== *)
(** * [common/Base58.cpp]: the text form of addresses

    Blocks of eight bytes become eleven characters, a shorter last block
    becomes the number of characters [encoded_block_sizes] gives.  The output
    buffers the C++ writes into are returned as values; [None] is the [false]
    of the decoders.  The digest [Crypto::cn_fast_hash] is a parameter. *)

From Stdlib Require Import ZArith Lia.
From stdpp Require Import base tactics list numbers strings.
From S2P Require Import Prelude IntUtil Stream.

Local Open Scope Z_scope.

Definition alphabet : bytes := str "123456789ABCDEFGHJKLMNPQRSTUVWXYZabcdefghijkmnopqrstuvwxyz".
Definition alphabet_size : Z := 58.
Definition alphabet_at (i : Z) : Z := nth (Z.to_nat i) alphabet 0.
Definition encoded_block_sizes : list Z := [0; 2; 3; 5; 6; 7; 9; 10; 11].
Definition encoded_block_size (size : nat) : nat := Z.to_nat (nth size encoded_block_sizes 0).
Definition full_block_size : nat := 8.
Definition full_encoded_block_size : nat := encoded_block_size full_block_size.
Definition addr_checksum_size : nat := 4.

(** The table the constructor of [reverse_alphabet] fills. *)
Definition reverse_alphabet_data : list Z :=
  foldl (fun m_data i =>
           let idx := u64 (alphabet_at i - alphabet_at 0) in <[Z.to_nat idx := i]> m_data)
    (replicate (Z.to_nat (alphabet_at (alphabet_size - 1) - alphabet_at 0 + 1)) (-1))
    (seqZ 0 alphabet_size).

(** [reverse_alphabet::operator()]: [char] is signed, and a letter before
    ['1'] wraps to an index past the table. *)
Definition reverse_alphabet (letter : Z) : Z :=
  let idx := u64 (swrap 8 letter - alphabet_at 0) in
  if idx <? Z.of_nat (length reverse_alphabet_data)
  then nth (Z.to_nat idx) reverse_alphabet_data (-1) else -1.

(** The table the constructor of [decoded_block_sizes] fills. *)
Definition decoded_block_sizes_data : list Z :=
  foldl (fun m_data i => <[encoded_block_size i := Z.of_nat i]> m_data)
    (replicate (encoded_block_size full_block_size + 1) (-1)) (seq 0 (S full_block_size)).
Definition decoded_block_sizes (encoded_block_size : nat) : outcome Z :=
  from_option "decoded_block_sizes: index out of range" (decoded_block_sizes_data !! encoded_block_size).

(** The [switch] falls through from the first byte to the last. *)
Definition uint_8be_to_64 (data : bytes) : outcome Z :=
  _ ← assert ((1 <=? length data) && (length data <=? 8))%nat "uint_8be_to_64: size";
  Ok (foldl (fun res b => Z.lor (u64 (Z.shiftl res 8)) b) 0 data).

Definition uint_64_to_8be (num : Z) (size : nat) : outcome bytes :=
  _ ← assert ((1 <=? size) && (size <=? 8))%nat "uint_64_to_8be: size";
  Ok (drop (8 - size) (le_bytes 8 (SWAP64 num))).

(** [while (0 < num)]: digits are stored from position [i] leftwards; position
    -1 would be outside the buffer. *)
Fixpoint encode_digits (fuel : nat) (num i : Z) (res : bytes) : outcome bytes :=
  if negb (0 <? num) then Ok res
  else
    match fuel with
    | O => Undefined "out of fuel"
    | S fuel =>
        let remainder := num mod alphabet_size in
        let num := num / alphabet_size in
        _ ← assert ((0 <=? i) && (i <? Z.of_nat (length res))) "encode_block: buffer overrun";
        encode_digits fuel num (i - 1) (<[Z.to_nat i := alphabet_at remainder]> res)
    end.

Definition encode_block (block : bytes) : outcome bytes :=
  let size := length block in
  _ ← assert ((1 <=? size) && (size <=? full_block_size))%nat "encode_block: size";
  num ← uint_8be_to_64 block;
  let i := Z.of_nat (encoded_block_size size) - 1 in
  encode_digits 11 num i (replicate (encoded_block_size size) (alphabet_at 0)).

(** The loop from the last character to the first, on the reversed block. *)
Fixpoint decode_digits (rblock : bytes) (res_num order : Z) : outcome (option Z) :=
  match rblock with
  | [] => Ok (Some res_num)
  | c :: rblock =>
      let digit := reverse_alphabet c in
      if digit <? 0 then Ok None
      else
        '(lo, product_hi) ← mul128 order digit;
        let tmp := u64 (res_num + lo) in
        if (tmp <? res_num) || negb (product_hi =? 0) then Ok None
        else decode_digits rblock tmp (u64 (order * alphabet_size))
  end.

Definition decode_block (block : bytes) : outcome (option bytes) :=
  let size := length block in
  _ ← assert ((1 <=? size) && (size <=? full_encoded_block_size))%nat "decode_block: size";
  res_size ← decoded_block_sizes size;
  if res_size <=? 0 then Ok None
  else
    res ← decode_digits (reverse block) 0 1;
    match res with
    | None => Ok None
    | Some res_num =>
        if (res_size <? Z.of_nat full_block_size)
           && (Z.shiftl 1 (8 * res_size) <=? res_num) then Ok None
        else data ← uint_64_to_8be res_num (Z.to_nat res_size); Ok (Some data)
    end.

Fixpoint encode_full_blocks (count : nat) (data : bytes) : outcome bytes :=
  match count with
  | O => Ok []
  | S count =>
      b ← encode_block (take full_block_size data);
      rest ← encode_full_blocks count (drop full_block_size data);
      Ok (b ++ rest)
  end.

Definition encode (data : bytes) : outcome bytes :=
  if bool_decide (data = []) then Ok []
  else
    let full_block_count := (length data / full_block_size)%nat in
    let last_block_size := (length data mod full_block_size)%nat in
    res ← encode_full_blocks full_block_count data;
    if (0 <? last_block_size)%nat then
      last ← encode_block (drop (full_block_count * full_block_size) data);
      Ok (res ++ last)
    else Ok res.

Fixpoint decode_full_blocks (count : nat) (enc : bytes) : outcome (option bytes) :=
  match count with
  | O => Ok (Some [])
  | S count =>
      b ← decode_block (take full_encoded_block_size enc);
      match b with
      | None => Ok None
      | Some b =>
          rest ← decode_full_blocks count (drop full_encoded_block_size enc);
          Ok (option_map (app b) rest)
      end
  end.

Definition decode (enc : bytes) : outcome (option bytes) :=
  if bool_decide (enc = []) then Ok (Some [])
  else
    let full_block_count := (length enc / full_encoded_block_size)%nat in
    let last_block_size := (length enc mod full_encoded_block_size)%nat in
    last_block_decoded_size ← decoded_block_sizes last_block_size;
    if last_block_decoded_size <? 0 then Ok None
    else
      data ← decode_full_blocks full_block_count enc;
      match data with
      | None => Ok None
      | Some data =>
          if (0 <? last_block_size)%nat then
            last ← decode_block (drop (full_block_count * full_encoded_block_size) enc);
            Ok (option_map (app data) last)
          else Ok (Some data)
      end.

Section address.
Context (cn_fast_hash : bytes -> bytes).

Definition encode_addr (tag : Z) (data : bytes) : outcome bytes :=
  let buf := get_varint_data tag ++ data in
  encode (buf ++ take addr_checksum_size (cn_fast_hash buf)).

(** [Some (tag, data)] when the address is accepted. *)
Definition decode_addr (addr : bytes) : outcome (option (Z * bytes)) :=
  r ← decode addr;
  match r with
  | None => Ok None
  | Some addr_data =>
      if (length addr_data <=? addr_checksum_size)%nat then Ok None
      else
        let n := (length addr_data - addr_checksum_size)%nat in
        let checksum := drop n addr_data in
        let addr_data := take n addr_data in
        let expected_checksum := take addr_checksum_size (cn_fast_hash addr_data) in
        if bool_decide (expected_checksum <> checksum) then Ok None
        else
          let '(read, tag, _) := read_varint 64 addr_data in
          if read <=? 0 then Ok None
          else Ok (Some (tag, drop (Z.to_nat read) addr_data))
  end.
End address.

(** ** Digits *)

Lemma alphabet_digit d : is_digit 58 d ->
  reverse_alphabet (alphabet_at d) = d /\ is_u8 (alphabet_at d).
Proof.
  intros Hd. assert (H : forallb (fun d => (reverse_alphabet (alphabet_at d) =? d)
    && (0 <=? alphabet_at d) && (alphabet_at d <? 2 ^ 8)) (seqZ 0 58) = true) by by vm_compute.
  rewrite forallb_forall in H. specialize (H d).
  rewrite <- list_elem_of_In, elem_of_seqZ in H. specialize (H Hd).
  rewrite !andb_true_iff, Z.eqb_eq, Z.leb_le, Z.ltb_lt in H. unfold in_width. tauto.
Qed.

Lemma letter_digit c : is_u8 c -> 0 <= reverse_alphabet c ->
  is_digit 58 (reverse_alphabet c) /\ alphabet_at (reverse_alphabet c) = c.
Proof.
  intros Hc Hr. assert (H := byte_forall (fun c => implb (0 <=? reverse_alphabet c)
    ((reverse_alphabet c <? 58) && (alphabet_at (reverse_alphabet c) =? c)))
    ltac:(by vm_compute) c Hc). cbv beta in H.
  rewrite (proj2 (Z.leb_le _ _) Hr) in H. cbn [implb] in H.
  rewrite andb_true_iff, Z.ltb_lt, Z.eqb_eq in H. unfold is_digit. lia.
Qed.

(** The block sizes: every decoded size has its encoded size, and a block of
    [size] bytes fits in that many base-58 digits. *)
Lemma block_sizes size : (1 <= size <= 8)%nat ->
  (1 <= encoded_block_size size <= 11)%nat
  /\ decoded_block_sizes (encoded_block_size size) = Ok (Z.of_nat size)
  /\ 256 ^ Z.of_nat size <= 58 ^ Z.of_nat (encoded_block_size size).
Proof.
  intros H. do 9 (destruct size as [|size]; [try lia; vm_compute; intuition (try congruence; lia)|]). lia.
Qed.

Lemma decoded_sizes n : (n <= 11)%nat -> exists r, decoded_block_sizes n = Ok r
  /\ (r <= 0 \/ exists size, r = Z.of_nat size /\ (1 <= size <= 8)%nat /\ encoded_block_size size = n).
Proof.
  intros H. do 12 (destruct n as [|n]; [eexists; split; [reflexivity|];
    first [left; lia | right; eexists (Z.to_nat _); split; [symmetry; apply Z2Nat.id; lia|]; vm_compute; split; [lia|done]]|]). lia.
Qed.

(** ** Big-endian words *)

Lemma uint_8be_to_64_ok data : is_bytes data -> (1 <= length data <= 8)%nat ->
  uint_8be_to_64 data = Ok (le_val (reverse data)).
Proof.
  intros Hd Hl. unfold uint_8be_to_64.
  rewrite (proj2 (Nat.leb_le _ _)), (proj2 (Nat.leb_le _ _)) by lia. simpl. f_equal.
  assert (G : forall acc k, is_digit (256 ^ Z.of_nat k) acc -> (k + length data <= 8)%nat ->
    foldl (fun res b => Z.lor (u64 (Z.shiftl res 8)) b) acc data
    = acc * 256 ^ Z.of_nat (length data) + le_val (reverse data)).
  { clear Hl. induction Hd as [|b data Hb Hd IH]; intros acc k Ha Hk; [simpl; lia|].
    cbn [foldl length]. unfold is_digit, in_width in *. cbn [length] in Hk.
    assert (256 ^ Z.of_nat k * 256 <= 2 ^ 64).
    { rewrite Z.mul_comm, <- Z.pow_succ_r, <- Nat2Z.inj_succ by lia.
      change (2 ^ 64) with (256 ^ 8). apply Z.pow_le_mono_r; lia. }
    rewrite wrap_small by (rewrite Z.shiftl_mul_pow2 by lia; unfold in_width; lia).
    rewrite Z.lor_comm, lor_shiftl_add by lia.
    rewrite (IH _ (S k)).
    - rewrite reverse_cons, from_base_app, length_reverse, Nat2Z.inj_succ, Z.pow_succ_r by lia.
      simpl from_base. change (2 ^ 8) with 256. ring.
    - rewrite Nat2Z.inj_succ, Z.pow_succ_r by lia. change (2 ^ 8) with 256 in *. lia.
    - lia. }
  rewrite (G 0 0%nat); [lia|done|lia].
Qed.

Lemma uint_64_to_8be_ok num size : is_u64 num -> (1 <= size <= 8)%nat ->
  uint_64_to_8be num size = Ok (reverse (le_bytes size num)).
Proof.
  intros Hn Hs. unfold uint_64_to_8be.
  rewrite (proj2 (Nat.leb_le _ _)), (proj2 (Nat.leb_le _ _)) by lia. okbind. f_equal.
  rewrite SWAP64_le_bytes by done. replace 8%nat with (size + (8 - size))%nat at 2 by lia.
  rewrite to_base_app, reverse_app by lia.
  rewrite drop_app_le by (rewrite length_reverse, length_to_base; lia).
  rewrite drop_ge by (rewrite length_reverse, length_to_base; lia). done.
Qed.

(** ** One block *)

Lemma insert_last {A} n (x c : A) suf : <[n := c]> (replicate (S n) x ++ suf) = replicate n x ++ c :: suf.
Proof.
  replace (S n) with (n + 1)%nat by lia. rewrite replicate_add, <- app_assoc.
  rewrite insert_app_r_alt by (rewrite length_replicate; lia).
  by rewrite length_replicate, Nat.sub_diag.
Qed.

Lemma encode_digits_ok fuel n : forall num suf,
  0 <= num < 58 ^ Z.of_nat n -> (n <= fuel)%nat ->
  encode_digits fuel num (Z.of_nat n - 1) (replicate n (alphabet_at 0) ++ suf)
  = Ok ((alphabet_at <$> reverse (to_base 58 n num)) ++ suf).
Proof.
  revert n. induction fuel as [|fuel IH]; intros n num suf Hn Hf.
  - assert (n = 0%nat) as -> by lia. simpl in Hn. by replace num with 0 by lia.
  - cbn [encode_digits]. destruct (Z.ltb_spec 0 num) as [Hpos|Hz]; cbn [negb].
    + destruct n as [|n]; [simpl in Hn; lia|].
      rewrite length_app, length_replicate.
      rewrite (proj2 (Z.leb_le _ _)), (proj2 (Z.ltb_lt _ _)) by lia. cbn [andb].
      replace (Z.of_nat (S n) - 1) with (Z.of_nat n) by lia. rewrite Nat2Z.id, insert_last.
      okbind. rewrite Nat2Z.inj_succ, Z.pow_succ_r in Hn by lia.
      rewrite IH; [|split; [apply Z.div_pos; unfold alphabet_size; lia|
        apply Z.div_lt_upper_bound; unfold alphabet_size; lia]|lia].
      cbn [to_base]. rewrite reverse_cons, fmap_app, <- app_assoc. done.
    + replace num with 0 by lia. rewrite to_base_0, reverse_replicate by lia.
      by rewrite fmap_replicate.
Qed.

Lemma encode_block_ok block : is_bytes block -> (1 <= length block <= 8)%nat ->
  encode_block block = Ok (alphabet_at <$> reverse
    (to_base 58 (encoded_block_size (length block)) (le_val (reverse block)))).
Proof.
  intros Hb Hl. unfold encode_block, full_block_size.
  rewrite (proj2 (Nat.leb_le _ _)), (proj2 (Nat.leb_le _ _)) by lia. okbind.
  rewrite uint_8be_to_64_ok by done. okbind.
  destruct (block_sizes _ Hl) as (Hs & _ & Hle).
  assert (Hr : is_bytes (reverse block)) by (unfold is_bytes; by rewrite Forall_reverse).
  pose proof (le_val_bound _ Hr) as Hv. rewrite length_reverse in Hv.
  pose proof (encode_digits_ok 11 (encoded_block_size (length block)) (le_val (reverse block)) [])
    as H. rewrite !app_nil_r in H. apply H; lia.
Qed.

Definition is_letter (c : Z) : bool := 0 <=? reverse_alphabet c.

Lemma letters_digits l : is_bytes l -> forallb is_letter l = true ->
  Forall (is_digit 58) (reverse_alphabet <$> l) /\ alphabet_at <$> (reverse_alphabet <$> l) = l.
Proof.
  induction 1 as [|c l Hc _ IH]; [done|]. cbn [forallb]. intros [H1 H2]%andb_true_iff.
  apply Z.leb_le in H1. destruct (letter_digit c Hc H1) as [Hd Ha], (IH H2) as [Hf He].
  split; [by constructor|]. rewrite !fmap_cons. by rewrite Ha, He.
Qed.

(** The overflow test of one step is exact. *)
Lemma decode_step_overflow acc p : is_u64 acc -> 0 <= p ->
  (u64 (acc + p mod 2 ^ 64) <? acc) || negb (p / 2 ^ 64 =? 0) = negb (acc + p <? 2 ^ 64).
Proof.
  intros Ha Hp. unfold in_width, wrap in *.
  destruct (Z.lt_ge_cases p (2 ^ 64)) as [Hlt|Hge].
  - rewrite (Z.div_small p), (Z.mod_small p) by lia. rewrite orb_false_r.
    destruct (Z.ltb_spec (acc + p) (2 ^ 64)).
    + rewrite Z.mod_small by lia. apply Z.ltb_ge. lia.
    + apply Z.ltb_lt. replace ((acc + p) mod 2 ^ 64) with (acc + p - 2 ^ 64); [lia|].
      apply (Z.mod_unique_pos _ _ 1); lia.
  - assert (1 <= p / 2 ^ 64) by (apply Z.div_le_lower_bound; lia).
    rewrite (proj2 (Z.eqb_neq _ _)) by lia. rewrite (proj2 (Z.ltb_ge (acc + p) _)) by lia.
    apply orb_true_r.
Qed.

Lemma decode_digits_ok rblock : is_bytes rblock -> forall k acc,
  (k + length rblock <= 11)%nat -> is_u64 acc ->
  let total := acc + 58 ^ Z.of_nat k * from_base 58 (reverse_alphabet <$> rblock) in
  decode_digits rblock acc (u64 (58 ^ Z.of_nat k))
  = Ok (if forallb is_letter rblock && (total <? 2 ^ 64) then Some total else None).
Proof.
  induction 1 as [|c rblock Hc Hr IH]; intros k acc Hk Hacc total.
  - subst total. simpl. rewrite Z.mul_0_r, Z.add_0_r.
    by rewrite (proj2 (Z.ltb_lt _ _)) by apply Hacc.
  - subst total. cbn [decode_digits length forallb] in *. unfold is_letter at 1.
    destruct (Z.ltb_spec (reverse_alphabet c) 0) as [Hneg|Hpos].
    { by rewrite (proj2 (Z.leb_gt _ _)). }
    rewrite (proj2 (Z.leb_le _ _)) by done. cbn [andb].
    destruct (letter_digit c Hc Hpos) as [Hd _].
    assert (Hord : 0 < 58 ^ Z.of_nat k <= 58 ^ 10)
      by (split; [apply Z.pow_pos_nonneg; lia|apply Z.pow_le_mono_r; lia]).
    rewrite (wrap_small 64 (58 ^ _)) by (unfold in_width; eval_pow2; lia).
    rewrite mul128_ok by (unfold in_width, is_digit in *; eval_pow2; lia). okbind.
    rewrite fmap_cons. cbn [from_base].
    set (d := reverse_alphabet c) in *. set (p := 58 ^ Z.of_nat k * d).
    assert (0 <= p) by (apply Z.mul_nonneg_nonneg; lia).
    rewrite decode_step_overflow by done.
    set (V := from_base 58 (reverse_alphabet <$> rblock)).
    assert (Hsum : acc + 58 ^ Z.of_nat k * (d + 58 * V) = acc + p + 58 ^ Z.of_nat (S k) * V).
    { rewrite Nat2Z.inj_succ, Z.pow_succ_r by lia. subst p. ring. }
    rewrite Hsum. destruct (Z.ltb_spec (acc + p) (2 ^ 64)) as [Hlt|Hge]; cbn [negb].
    + rewrite (Z.mod_small p), (wrap_small 64 (acc + p)) by (unfold in_width in *; lia).
      replace (58 ^ Z.of_nat k * alphabet_size) with (58 ^ Z.of_nat (S k))
        by (rewrite Nat2Z.inj_succ, Z.pow_succ_r by lia; unfold alphabet_size; ring).
      apply IH; [lia|unfold in_width in *; lia].
    + destruct (forallb is_letter rblock) eqn:Hl; [|done]. cbn [andb].
      destruct (letters_digits rblock Hr Hl) as [Hf _].
      pose proof (from_base_bound 58 ltac:(lia) _ Hf).
      assert (0 <= 58 ^ Z.of_nat (S k) * V)
        by (apply Z.mul_nonneg_nonneg; [apply Z.pow_nonneg|]; lia).
      by rewrite (proj2 (Z.ltb_ge _ _)) by lia.
Qed.

(** What [decode_block] returns on any block of one to eleven characters. *)
Definition block_value (block : bytes) : Z := from_base 58 (reverse_alphabet <$> reverse block).

Lemma decode_block_spec block size : is_bytes block -> (1 <= size <= 8)%nat ->
  length block = encoded_block_size size ->
  decode_block block
  = Ok (if forallb is_letter block && (block_value block <? 256 ^ Z.of_nat size)
        then Some (reverse (le_bytes size (block_value block))) else None).
Proof.
  intros Hb Hs Hl. destruct (block_sizes size Hs) as (He & Hd & Hle).
  unfold decode_block. rewrite Hl.
  change full_encoded_block_size with 11%nat.
  rewrite (proj2 (Nat.leb_le 1 _)), (proj2 (Nat.leb_le _ 11)) by lia. okbind.
  rewrite Hd. okbind. rewrite (proj2 (Z.leb_gt _ _)) by lia.
  assert (Hrev : is_bytes (reverse block)) by (unfold is_bytes; by rewrite Forall_reverse).
  pose proof (decode_digits_ok (reverse block) Hrev 0 0) as H.
  rewrite length_reverse, Hl in H. specialize (H ltac:(lia) ltac:(done)).
  rewrite Z.pow_0_r, Z.mul_1_l, Z.add_0_l in H. change (u64 1) with 1 in H.
  fold (block_value block) in H. rewrite H. okbind.
  replace (forallb is_letter (reverse block)) with (forallb is_letter block)
    by (apply eq_bool_prop_intro; rewrite !forallb_True; by rewrite Forall_reverse).
  destruct (forallb is_letter block) eqn:Hf; [|done]. cbn [andb].
  assert (Hp : 256 ^ Z.of_nat size <= 2 ^ 64).
  { change (2 ^ 64) with (256 ^ 8). apply Z.pow_le_mono_r; lia. }
  assert (Hshift : Z.shiftl 1 (8 * Z.of_nat size) = 256 ^ Z.of_nat size)
    by (rewrite Z.shiftl_mul_pow2, Z.pow_mul_r, Z.mul_1_l by lia; done).
  assert (Hnn : 0 <= block_value block).
  { destruct (letters_digits (reverse block) Hrev) as [Hdg _].
    { apply Is_true_true, forallb_True. rewrite Forall_reverse. by apply forallb_True, Is_true_true. }
    by apply (from_base_bound 58 ltac:(lia)) in Hdg as [? _]. }
  destruct (Z.ltb_spec (block_value block) (256 ^ Z.of_nat size)) as [Hlt|Hge].
  - rewrite (proj2 (Z.ltb_lt _ (2 ^ 64))) by lia. rewrite Hshift.
    rewrite (proj2 (Z.leb_gt _ _)), andb_false_r by lia. rewrite Nat2Z.id.
    rewrite uint_64_to_8be_ok by (done || unfold in_width; lia). done.
  - destruct (Z.ltb_spec (block_value block) (2 ^ 64)); [|done].
    rewrite Hshift, (proj2 (Z.leb_le _ _)), andb_true_r by lia.
    destruct (Z.ltb_spec (Z.of_nat size) (Z.of_nat full_block_size)) as [|Hfull]; [done|].
    assert (size = 8%nat) as -> by (unfold full_block_size in Hfull; lia).
    change (256 ^ Z.of_nat 8) with (2 ^ 64) in Hge. lia.
Qed.

Lemma digits_letters l : Forall (is_digit 58) l ->
  reverse_alphabet <$> (alphabet_at <$> l) = l /\ is_bytes (alphabet_at <$> l)
  /\ forallb is_letter (alphabet_at <$> l) = true.
Proof.
  induction 1 as [|d l Hd _ (E & Hb & Hf)]; [by split_and!; [|constructor|]|].
  rewrite !fmap_cons. destruct (alphabet_digit d Hd) as [Hr Hu]. rewrite Hr, E.
  split_and!; [done|by constructor|]. cbn [forallb]. unfold is_letter at 1. rewrite Hr, Hf.
  unfold is_digit in Hd. by rewrite (proj2 (Z.leb_le _ _)) by lia.
Qed.

Lemma encoded_block_roundtrip block : is_bytes block -> (1 <= length block <= 8)%nat ->
  exists e, encode_block block = Ok e /\ length e = encoded_block_size (length block)
    /\ is_bytes e /\ decode_block e = Ok (Some block).
Proof.
  intros Hb Hl. rewrite encode_block_ok by done.
  destruct (block_sizes _ Hl) as (He & Hd & Hle).
  assert (Hr : is_bytes (reverse block)) by (unfold is_bytes; by rewrite Forall_reverse).
  pose proof (le_val_bound _ Hr) as Hv. rewrite length_reverse in Hv.
  set (n := encoded_block_size (length block)) in *.
  pose proof (to_base_digits 58 ltac:(lia) n (le_val (reverse block))) as Hdg.
  assert (Hdg' := Hdg). rewrite <- Forall_reverse in Hdg'.
  destruct (digits_letters _ Hdg') as (_ & Hbe & Hf).
  eexists. split; [done|].
  assert (Hlen : length (alphabet_at <$> reverse (to_base 58 n (le_val (reverse block)))) = n)
    by (by rewrite length_fmap, length_reverse, length_to_base).
  split; [done|]. split; [done|].
  rewrite (decode_block_spec _ (length block)) by done. rewrite Hf.
  assert (Hval : block_value (alphabet_at <$> reverse (to_base 58 n (le_val (reverse block))))
                 = le_val (reverse block)).
  { unfold block_value. rewrite <- fmap_reverse, reverse_involutive.
    rewrite (proj1 (digits_letters _ Hdg)), from_to_base by lia. apply Z.mod_small. lia. }
  rewrite Hval, (proj2 (Z.ltb_lt _ _)) by lia. cbn [andb]. do 2 f_equal.
  replace (length block) with (length (reverse block)) by apply length_reverse.
  rewrite le_bytes_le_val by done. apply reverse_involutive.
Qed.

Lemma decode_block_total e : is_bytes e -> (1 <= length e <= 11)%nat ->
  exists r, decode_block e = Ok r.
Proof.
  intros He Hl. destruct (decoded_sizes (length e) ltac:(lia)) as (r & Hd & [Hr|(size & -> & Hs & Henc)]).
  - exists None. unfold decode_block. change full_encoded_block_size with 11%nat.
    rewrite (proj2 (Nat.leb_le 1 _)), (proj2 (Nat.leb_le _ 11)) by lia. okbind.
    rewrite Hd. okbind. by rewrite (proj2 (Z.leb_le _ _)).
  - eexists. by apply (decode_block_spec e size).
Qed.

Lemma block_canonical e data : is_bytes e -> (1 <= length e <= 11)%nat ->
  decode_block e = Ok (Some data) ->
  encode_block data = Ok e /\ is_bytes data /\ (1 <= length data <= 8)%nat
  /\ length e = encoded_block_size (length data).
Proof.
  intros He Hl H.
  destruct (decoded_sizes (length e) ltac:(lia)) as (r & Hd & [Hr|(size & -> & Hs & Henc)]).
  { unfold decode_block in H. change full_encoded_block_size with 11%nat in H.
    rewrite (proj2 (Nat.leb_le 1 _)), (proj2 (Nat.leb_le _ 11)) in H by lia.
    cbn [andb assert mbind outcome_bind] in H. rewrite Hd in H. cbn [mbind outcome_bind] in H.
    by rewrite (proj2 (Z.leb_le _ _)) in H. }
  rewrite (decode_block_spec e size) in H by done.
  destruct (forallb is_letter e) eqn:Hf; [|done]. cbn [andb] in H.
  destruct (Z.ltb_spec (block_value e) (256 ^ Z.of_nat size)) as [Hlt|]; [|done].
  simplify_eq. assert (Her : is_bytes (reverse e)) by (unfold is_bytes; by rewrite Forall_reverse).
  assert (Hfr : forallb is_letter (reverse e) = true).
  { apply Is_true_true, forallb_True. rewrite Forall_reverse. by apply forallb_True, Is_true_true. }
  destruct (letters_digits _ Her Hfr) as [Hdg Ha].
  pose proof (from_base_bound 58 ltac:(lia) _ Hdg) as Hv. fold (block_value e) in Hv.
  rewrite length_fmap, length_reverse in Hv.
  assert (Hdata : is_bytes (reverse (le_bytes size (block_value e))))
    by (unfold is_bytes; rewrite Forall_reverse; apply le_bytes_is_bytes).
  assert (Hlen : length (reverse (le_bytes size (block_value e))) = size)
    by (by rewrite length_reverse, length_to_base).
  split_and!; [|done|lia|lia|congruence].
  rewrite encode_block_ok by (done || lia). rewrite Hlen, reverse_involutive.
  rewrite le_val_le_bytes, Z.mod_small by lia. rewrite Henc. f_equal.
  unfold block_value.
  replace (length e) with (length (reverse_alphabet <$> reverse e))
    by (by rewrite length_fmap, length_reverse).
  rewrite to_from_base by (done || lia).
  by rewrite fmap_reverse, Ha, reverse_involutive.
Qed.

(** ** Whole strings *)

Lemma is_bytes_take n l : is_bytes l -> is_bytes (take n l).
Proof. apply Forall_take. Qed.
Lemma is_bytes_drop n l : is_bytes l -> is_bytes (drop n l).
Proof. apply Forall_drop. Qed.
#[local] Hint Resolve is_bytes_take is_bytes_drop : core.

Lemma encoded_full n : (n <= 8)%nat -> encoded_block_size n = 11%nat -> n = 8%nat.
Proof. intros Hn H. do 8 (destruct n as [|n]; [discriminate|]). lia. Qed.

Lemma encoded_partial n : (n < 8)%nat -> (encoded_block_size n < 11)%nat
  /\ decoded_block_sizes (encoded_block_size n) = Ok (Z.of_nat n)
  /\ (0 <? encoded_block_size n)%nat = (0 <? n)%nat.
Proof.
  intros H. do 8 (destruct n as [|n]; [split_and!; [vm_compute; lia|done|done]|]). lia.
Qed.

Lemma encode_full_ok count : forall data, is_bytes data -> (8 * count <= length data)%nat ->
  exists e, encode_full_blocks count data = Ok e /\ length e = (11 * count)%nat /\ is_bytes e
    /\ forall rest, decode_full_blocks count (e ++ rest) = Ok (Some (take (8 * count) data)).
Proof.
  induction count as [|count IH]; intros data Hd Hl.
  { exists []. split_and!; try done. constructor. }
  cbn [encode_full_blocks]. unfold full_block_size.
  assert (H8 : length (take 8 data) = 8%nat) by (rewrite length_take; lia).
  destruct (encoded_block_roundtrip (take 8 data)) as (e & -> & Hel & Heb & Hed); [auto|lia|].
  rewrite H8 in Hel. change (encoded_block_size 8) with 11%nat in Hel. okbind.
  destruct (IH (drop 8 data)) as (es & -> & Hesl & Hesb & Hesd); [auto|rewrite length_drop; lia|].
  okbind. eexists. split; [done|]. split_and!.
  - rewrite length_app. lia.
  - by apply Forall_app.
  - intros rest. cbn [decode_full_blocks]. change full_encoded_block_size with 11%nat.
    rewrite <- app_assoc, take_app_length', drop_app_length' by done.
    rewrite Hed. okbind. rewrite Hesd. okbind. cbn [option_map]. do 2 f_equal.
    replace (8 * S count)%nat with (8 + 8 * count)%nat by lia. by rewrite take_take_drop.
Qed.

Lemma decode_full_inv count : forall e d, is_bytes e -> (11 * count <= length e)%nat ->
  decode_full_blocks count e = Ok (Some d) ->
  length d = (8 * count)%nat /\ is_bytes d
  /\ forall rest, encode_full_blocks count (d ++ rest) = Ok (take (11 * count) e).
Proof.
  induction count as [|count IH]; intros e d He Hl H; cbn [decode_full_blocks] in H.
  { inv_ok. simplify_eq. split_and!; [done|constructor|done]. }
  change full_encoded_block_size with 11%nat in H. inv_ok. destruct v as [b|]; [|done]. inv_ok.
  destruct v as [d'|]; simplify_eq. cbn [option_map] in H. simplify_eq.
  assert (H11 : length (take 11 e) = 11%nat) by (rewrite length_take; lia).
  apply block_canonical in Hok as (Henc & Hbb & Hbl & Hbe); [|auto|lia].
  assert (Hb8 : length b = 8%nat) by (apply encoded_full; lia).
  apply IH in Hok0 as (Hl' & Hb' & He'); [|auto|rewrite length_drop; lia].
  split_and!.
  - rewrite length_app. lia.
  - by apply Forall_app.
  - intros rest. cbn [encode_full_blocks]. unfold full_block_size.
    rewrite <- app_assoc, take_app_length', drop_app_length' by done.
    rewrite Henc. okbind. rewrite He'. okbind. f_equal.
    replace (11 * S count)%nat with (11 + 11 * count)%nat by lia. by rewrite take_take_drop.
Qed.


Lemma div_mod_blocks (k q r : nat) : (r < k)%nat ->
  ((k * q + r) / k = q /\ (k * q + r) mod k = r)%nat.
Proof.
  intros. split.
  - symmetry. apply (Nat.div_unique _ _ _ r); lia.
  - symmetry. apply (Nat.mod_unique _ _ q); lia.
Qed.

Lemma encode_ok data : is_bytes data -> exists e,
  encode data = Ok e /\ is_bytes e /\ decode e = Ok (Some data).
Proof.
  intros Hd. unfold encode. destruct (decide (data = [])) as [->|Hne].
  { exists []. split_and!; [done|constructor|done]. }
  rewrite bool_decide_eq_false_2 by done. unfold full_block_size.
  set (q := (length data / 8)%nat). set (r := (length data mod 8)%nat).
  assert (Hl : length data = (8 * q + r)%nat) by apply Nat.div_mod_eq.
  assert (Hr : (r < 8)%nat) by (apply Nat.mod_upper_bound; lia). clearbody q r.
  destruct (encode_full_ok q data Hd ltac:(lia)) as (e & -> & Hel & Heb & Hed). okbind.
  destruct (encoded_partial r Hr) as (He11 & Hdec & Hz).
  assert (D : forall last, length last = encoded_block_size r ->
    decode (e ++ last) = if (0 <? r)%nat then
      last ← decode_block last; Ok (option_map (app (take (8 * q) data)) last)
      else Ok (Some (take (8 * q) data))).
  { intros last Hlast. unfold decode. rewrite bool_decide_eq_false_2.
    2:{ intros E%(f_equal length). rewrite length_app in E. simpl in E.
        destruct (Nat.ltb_spec 0 r); destruct (Nat.ltb_spec 0 (encoded_block_size r)); try done; try lia.
        assert (data = []); [|done]. apply length_zero_iff_nil. lia. }
    rewrite length_app, Hel, Hlast. change full_encoded_block_size with 11%nat.
    destruct (div_mod_blocks 11 q (encoded_block_size r) He11) as [-> ->].
    rewrite Hdec. okbind. rewrite (proj2 (Z.ltb_ge _ _)) by lia.
    rewrite Hed. okbind. rewrite Hz. destruct (0 <? r)%nat; [|done].
    by rewrite drop_app_length' by lia. }
  destruct (Nat.ltb_spec 0 r) as [Hpos|Hzero].
  - replace (q * 8)%nat with (8 * q)%nat by lia.
    assert (Hlast : length (drop (8 * q) data) = r) by (rewrite length_drop; lia).
    destruct (encoded_block_roundtrip (drop (8 * q) data)) as (el & -> & Hell & Helb & Held);
      [auto|lia|]. okbind. eexists. split; [done|].
    split; [by apply Forall_app|]. rewrite Hlast in Hell. rewrite D by done.
    rewrite Held. okbind. cbn [option_map]. by rewrite take_drop.
  - assert (r = 0%nat) as -> by lia. exists e. split_and!; [done|done|].
    rewrite <- (app_nil_r e), D by done. by rewrite take_ge by lia.
Qed.

Lemma decode_canonical e data : is_bytes e -> decode e = Ok (Some data) ->
  encode data = Ok e /\ is_bytes data.
Proof.
  intros He H. unfold decode in H. destruct (decide (e = [])) as [->|Hne].
  { rewrite bool_decide_eq_true_2 in H by done. inv_ok. simplify_eq. split; [done|constructor]. }
  rewrite bool_decide_eq_false_2 in H by done. change full_encoded_block_size with 11%nat in H.
  set (q := (length e / 11)%nat) in *. set (s := (length e mod 11)%nat) in *.
  assert (Hl : length e = (11 * q + s)%nat) by apply Nat.div_mod_eq.
  assert (Hs : (s < 11)%nat) by (apply Nat.mod_upper_bound; lia). clearbody q s.
  inv_ok. destruct (Z.ltb_spec v 0); [done|]. inv_ok. destruct v0 as [d|]; [|done].
  apply decode_full_inv in Hok0 as (Hdl & Hdb & Henc); [|done|lia].
  destruct (Nat.ltb_spec 0 s) as [Hpos|Hzero].
  - inv_ok. destruct v0 as [last|]; cbn [option_map] in H; simplify_eq.
    replace (q * 11)%nat with (11 * q)%nat in Hok0 by lia.
    assert (Hlast : length (drop (11 * q) e) = s) by (rewrite length_drop; lia).
    apply block_canonical in Hok0 as (Hle & Hlb & Hll & Hlen); [|auto|lia].
    assert (Hlt : (length last < 8)%nat).
    { destruct (decide (length last = 8%nat)) as [E|]; [|lia].
      rewrite E, Hlast in Hlen. change (encoded_block_size 8) with 11%nat in Hlen. lia. }
    split; [|by apply Forall_app]. unfold encode, full_block_size.
    rewrite bool_decide_eq_false_2.
    2:{ intros E%(f_equal length). rewrite length_app in E. simpl in E. lia. }
    rewrite length_app, Hdl. destruct (div_mod_blocks 8 q (length last) Hlt) as [-> ->].
    rewrite Henc. okbind. rewrite (proj2 (Nat.ltb_lt _ _)) by lia.
    rewrite drop_app_length' by lia. rewrite Hle. okbind. by rewrite take_drop.
  - inv_ok. simplify_eq. split; [|done]. assert (s = 0%nat) as -> by lia.
    unfold encode, full_block_size. rewrite bool_decide_eq_false_2.
    2:{ intros ->. simpl in Hdl. apply Hne, length_zero_iff_nil. lia. }
    rewrite Hdl. replace (8 * q)%nat with (8 * q + 0)%nat by lia.
    destruct (div_mod_blocks 8 q 0 ltac:(lia)) as [-> ->].
    specialize (Henc []). rewrite app_nil_r in Henc. rewrite Henc. okbind.
    by rewrite take_ge by lia.
Qed.

Lemma decode_total e : is_bytes e -> exists r, decode e = Ok r.
Proof.
  intros He. unfold decode. case_bool_decide as Hne; [eauto|].
  change full_encoded_block_size with 11%nat.
  set (q := (length e / 11)%nat). set (s := (length e mod 11)%nat).
  assert (Hl : length e = (11 * q + s)%nat) by apply Nat.div_mod_eq.
  assert (Hs : (s < 11)%nat) by (apply Nat.mod_upper_bound; lia). clearbody q s.
  destruct (decoded_sizes s ltac:(lia)) as (r & -> & _). okbind.
  destruct (r <? 0); [eauto|].
  assert (F : forall count e, is_bytes e -> (11 * count <= length e)%nat ->
    exists r, decode_full_blocks count e = Ok r).
  { clear. induction count as [|count IH]; intros e He Hl; cbn [decode_full_blocks]; [eauto|].
    change full_encoded_block_size with 11%nat.
    destruct (decode_block_total (take 11 e)) as [[b|] ->];
      [auto|rewrite length_take; lia| |okbind; eauto]. okbind.
    destruct (IH (drop 11 e)) as [r ->]; [auto|rewrite length_drop; lia|]. okbind. eauto. }
  destruct (F q e He ltac:(lia)) as [[d|] ->]; okbind; [|eauto].
  destruct (Nat.ltb_spec 0 s); [|eauto].
  destruct (decode_block_total (drop (q * 11) e)) as [r' ->];
    [auto|rewrite length_drop; lia|]. okbind. eauto.
Qed.

(** ** Addresses *)

Section address_properties.
Context (cn_fast_hash : bytes -> bytes).
(** A digest is 32 bytes. *)
Hypothesis hash_bytes : forall x, is_bytes x -> is_bytes (cn_fast_hash x) /\ length (cn_fast_hash x) = 32%nat.

Lemma decode_encode_addr tag data : is_u64 tag -> is_bytes data -> exists addr,
  encode_addr cn_fast_hash tag data = Ok addr /\ is_bytes addr
  /\ decode_addr cn_fast_hash addr = Ok (Some (tag, data)).
Proof using hash_bytes.
  intros Ht Hd. unfold encode_addr.
  assert (Hv : is_bytes (get_varint_data tag))
    by (rewrite get_varint_data_eq by apply Ht; apply writeVarint_is_bytes, Ht).
  set (buf := get_varint_data tag ++ data).
  assert (Hbuf : is_bytes buf) by by apply Forall_app.
  destruct (hash_bytes buf Hbuf) as [Hh Hhl].
  set (sum := take addr_checksum_size (cn_fast_hash buf)).
  assert (Hsl : length sum = 4%nat) by (subst sum; rewrite length_take, Hhl; done).
  destruct (encode_ok (buf ++ sum)) as (e & -> & He & Hdec).
  { apply Forall_app. split; [done|by apply Forall_take]. }
  exists e. split; [done|]. split; [done|]. unfold decode_addr. rewrite Hdec. okbind.
  assert (Hvl := length_writeVarint tag Ht). rewrite <- get_varint_data_eq in Hvl by apply Ht.
  rewrite length_app, Hsl. unfold addr_checksum_size.
  rewrite (proj2 (Nat.leb_gt _ _)) by (subst buf; rewrite length_app; lia).
  replace (length buf + 4 - 4)%nat with (length buf) by lia.
  rewrite take_app_length, drop_app_length. rewrite bool_decide_eq_false_2 by tauto.
  subst buf. rewrite read_varint_get_varint_data by (done || by do 3 right).
  rewrite (proj2 (Z.leb_gt _ _)) by lia. by rewrite Nat2Z.id, drop_app_length.
Qed.

Lemma encode_decode_addr addr tag data : is_bytes addr -> data <> [] ->
  decode_addr cn_fast_hash addr = Ok (Some (tag, data)) ->
  is_u64 tag /\ is_bytes data /\ encode_addr cn_fast_hash tag data = Ok addr.
Proof.
  intros Ha Hne H. unfold decode_addr in H. inv_ok. destruct v as [d|]; [|done].
  apply decode_canonical in Hok as [Henc Hd]; [|done].
  destruct (Nat.leb_spec (length d) addr_checksum_size) as [|Hlen]; [done|].
  set (n := (length d - addr_checksum_size)%nat) in *.
  case_bool_decide as Hsum; [done|].
  destruct (read_varint 64 (take n d)) as [[read tag'] rest] eqn:Hread.
  destruct (Z.leb_spec read 0); [done|]. simplify_eq.
  apply read_varint_loop_rest in Hread as Hrest; [|lia..]. rewrite Z.sub_0_r in Hrest.
  destruct Hrest as [_ Hrest]. rewrite <- Hrest in *.
  apply read_varint_inv in Hread as (Ht & Hs & _);
    [|by do 3 right|by apply Forall_take|lia|done].
  split; [done|]. split; [rewrite Hrest; by apply Forall_drop, Forall_take|].
  unfold encode_addr. rewrite <- Hs, Hsum, take_drop. done.
Qed.
End address_properties.

(** ** Properties *)

(** Base58 text round-trips: every byte string has an encoding, and decoding
    it returns the byte string. *)
Theorem base58_roundtrip data : is_bytes data ->
  exists e, encode data = Ok e /\ decode e = Ok (Some data).
Proof. intros H. destruct (encode_ok data H) as (e & ? & _ & ?). eauto. Qed.

Lemma base58_roundtrip_witness :
  exists e, encode (str "DeroGold!") = Ok e /\ decode e = Ok (Some (str "DeroGold!")).
Proof. apply (base58_roundtrip (str "DeroGold!")). by repeat constructor. Defined.

(** Base58 decoding is total and canonical on every byte string: it never
    reads outside a table or overflows, it either refuses the text or returns
    data whose encoding is exactly the text. *)
Theorem base58_decode_canonical e : is_bytes e -> exists r, decode e = Ok r
  /\ match r with Some data => encode data = Ok e | None => True end.
Proof.
  intros He. destruct (decode_total e He) as [r Hr]. exists r. split; [done|].
  destruct r as [data|]; [|done]. by apply decode_canonical.
Qed.

Lemma base58_decode_canonical_witness : exists r, decode (str "11") = Ok r
  /\ match r with Some data => encode data = Ok (str "11") | None => True end.
Proof. apply (base58_decode_canonical (str "11")). by repeat constructor. Defined.

(** Addresses round-trip for every digest of 32 bytes: the text built from a
    prefix and the key data decodes to that prefix and that data. *)
Theorem address_roundtrip cn_fast_hash tag data :
  (forall x, is_bytes x -> is_bytes (cn_fast_hash x) /\ length (cn_fast_hash x) = 32%nat) ->
  is_u64 tag -> is_bytes data ->
  exists addr, encode_addr cn_fast_hash tag data = Ok addr
    /\ decode_addr cn_fast_hash addr = Ok (Some (tag, data)).
Proof.
  intros Hh Ht Hd. destruct (decode_encode_addr cn_fast_hash Hh tag data Ht Hd) as (a & ? & _ & ?). eauto.
Qed.

(** A stand-in digest: the first bytes of the message, padded to 32. *)
Definition pad_hash (x : bytes) : bytes := take 32 (x ++ replicate 32 0).
Lemma pad_hash_bytes x : is_bytes x -> is_bytes (pad_hash x) /\ length (pad_hash x) = 32%nat.
Proof.
  intros Hx. unfold pad_hash. split.
  - apply Forall_take, Forall_app. split; [done|]. by apply Forall_replicate.
  - rewrite length_take, length_app, length_replicate. lia.
Qed.

Lemma address_roundtrip_witness : exists addr,
  encode_addr pad_hash 8411 (replicate 64 7) = Ok addr
  /\ decode_addr pad_hash addr = Ok (Some (8411, replicate 64 7)).
Proof.
  apply (address_roundtrip pad_hash 8411 (replicate 64 7));
    [apply pad_hash_bytes | by vm_compute | by apply Forall_replicate].
Defined.

(** Address text is not malleable: if a text is accepted as an address with
    nonempty data, it is the text [encode_addr] produces for that prefix and
    data, so its checksum, its varint prefix and its base58 form are all
    determined. *)
Theorem address_canonical cn_fast_hash addr tag data :
  is_bytes addr -> data <> [] ->
  decode_addr cn_fast_hash addr = Ok (Some (tag, data)) ->
  encode_addr cn_fast_hash tag data = Ok addr.
Proof. intros Ha Hd H. by apply encode_decode_addr in H as (_ & _ & ?). Qed.

Definition sample_address : bytes :=
  match encode_addr pad_hash 8411 [1; 2; 3] with Ok a => a | _ => [] end.
Lemma address_canonical_witness : encode_addr pad_hash 8411 [1; 2; 3] = Ok sample_address.
Proof.
  apply (address_canonical pad_hash sample_address 8411 [1; 2; 3]);
    [by vm_compute; repeat constructor | done | by vm_compute].
Defined.
