(* ===== verification/Config.v ===== *)
(** * Consensus parameters: [config/CryptoNoteConfig.h] and [config/Constants.h]

    The constants keep their names; the functions of the height that choose
    among them ([getCurrentDifficultyTarget], [Utilities::getMinimumFee],
    [Utilities::getMixinAllowableRange]) follow. *)

From Stdlib Require Import ZArith Lia.
From stdpp Require Import base tactics list numbers.
From S2P Require Import Prelude.

Local Open Scope Z_scope.

Definition DIFFICULTY_TARGET : Z := 10.
Definition DIFFICULTY_TARGET_V2 : Z := 20.
Definition DIFFICULTY_TARGET_V3 : Z := 300.
Definition DIFFICULTY_TARGET_V2_HEIGHT : Z := 700000.
Definition DIFFICULTY_TARGET_V3_HEIGHT : Z := 2325000.
Definition CRYPTONOTE_MAX_BLOCK_NUMBER : Z := 500000000.
Definition CRYPTONOTE_MAX_BLOCK_BLOB_SIZE : Z := 500000000.
Definition CRYPTONOTE_MAX_TX_SIZE : Z := 1000000000.
Definition CRYPTONOTE_PUBLIC_ADDRESS_BASE58_PREFIX : Z := 8411.
Definition CRYPTONOTE_MINED_MONEY_UNLOCK_WINDOW : Z := 120.
Definition CRYPTONOTE_MINED_MONEY_UNLOCK_WINDOW_V2 : Z := 8.
Definition CRYPTONOTE_MINED_MONEY_UNLOCK_WINDOW_V2_HEIGHT : Z := 2325000.
Definition CRYPTONOTE_BLOCK_FUTURE_TIME_LIMIT : Z := 6 * DIFFICULTY_TARGET_V3.
Definition BLOCKCHAIN_TIMESTAMP_CHECK_WINDOW : Z := 11.
Definition MONEY_SUPPLY : Z := 10000000000000000.
Definition EMISSION_SPEED_FACTOR : Z := 23.
Definition EMISSION_SPEED_FACTOR_V2 : Z := 24.
Definition EMISSION_SPEED_FACTOR_V2_HEIGHT : Z := 700000.
Definition GENESIS_BLOCK_TIMESTAMP : Z := 1545261161.
Definition CRYPTONOTE_REWARD_BLOCKS_WINDOW : Z := 100.
Definition CRYPTONOTE_BLOCK_GRANTED_FULL_REWARD_ZONE : Z := 100000.
Definition CRYPTONOTE_BLOCK_GRANTED_FULL_REWARD_ZONE_V2 : Z := 20000.
Definition CRYPTONOTE_BLOCK_GRANTED_FULL_REWARD_ZONE_V1 : Z := 10000.
Definition CRYPTONOTE_BLOCK_GRANTED_FULL_REWARD_ZONE_CURRENT : Z := CRYPTONOTE_BLOCK_GRANTED_FULL_REWARD_ZONE.
Definition CRYPTONOTE_COINBASE_BLOB_RESERVED_SIZE : Z := 600.
Definition CRYPTONOTE_DISPLAY_DECIMAL_POINT : Z := 2.
Definition MINIMUM_FEE : Z := 10.
Definition MINIMUM_FEE_V1 : Z := 1000000.
Definition MINIMUM_FEE_V1_HEIGHT : Z := 1470000.
Definition MINIMUM_FEE_V2 : Z := 10000.
Definition MINIMUM_FEE_V2_HEIGHT : Z := 2517000.
Definition MINIMUM_MIXIN_V1 : Z := 0.
Definition MAXIMUM_MIXIN_V1 : Z := 3.
Definition MIXIN_LIMITS_V1_HEIGHT : Z := 1470000.
Definition DEFAULT_MIXIN_V0 : Z := 3.
Definition DEFAULT_MIXIN_V1 : Z := 1.
Definition DEFAULT_DUST_THRESHOLD : Z := 0.
Definition EXPECTED_NUMBER_OF_BLOCKS_PER_DAY : Z := 24 * 60 * 60 / DIFFICULTY_TARGET_V3.
Definition DIFFICULTY_WINDOW : Z := 60.
Definition DIFFICULTY_CUT : Z := 0.
Definition DIFFICULTY_CUT_V1 : Z := 60.
Definition DIFFICULTY_CUT_V2 : Z := 60.
Definition DIFFICULTY_LAG : Z := 0.
Definition DIFFICULTY_LAG_V1 : Z := 15.
Definition DIFFICULTY_LAG_V2 : Z := 15.
Definition MAX_BLOCK_SIZE_INITIAL : Z := 100000.
Definition MAX_BLOCK_SIZE_V1_HEIGHT : Z := 2361823.
Definition MAX_BLOCK_SIZE_V1 : Z := 614400.
Definition MAX_BLOCK_SIZE_GROWTH_SPEED_NUMERATOR : Z := 100 * 1024.
Definition MAX_BLOCK_SIZE_GROWTH_SPEED_DENOMINATOR : Z := 365 * 24 * 60 * 60 / DIFFICULTY_TARGET_V3.
Definition MAX_EXTRA_SIZE : Z := 140000.
Definition MAX_EXTRA_SIZE_V2 : Z := 1024.
Definition MAX_EXTRA_SIZE_V2_HEIGHT : Z := 700000.
Definition MAX_EXTRA_SIZE_V3 : Z := 512.
Definition MAX_EXTRA_SIZE_V3_HEIGHT : Z := 1470000.
Definition TRANSACTION_POW_HEIGHT : Z := 2370000.
Definition TRANSACTION_POW_DIFFICULTY : Z := 17000.
Definition TRANSACTION_SIGNATURE_COUNT_VALIDATION_HEIGHT : Z := 700000.
Definition BLOCK_BLOB_SHUFFLE_CHECK_HEIGHT : Z := 1800000.
Definition TRANSACTION_INPUT_BLOCKTIME_VALIDATION_HEIGHT : Z := 1600000.
Definition CRYPTONOTE_LOCKED_TX_ALLOWED_DELTA_BLOCKS : Z := 1.
Definition CRYPTONOTE_LOCKED_TX_ALLOWED_DELTA_SECONDS : Z := DIFFICULTY_TARGET_V3 * CRYPTONOTE_LOCKED_TX_ALLOWED_DELTA_BLOCKS.
Definition CRYPTONOTE_MEMPOOL_TX_LIVETIME : Z := 60 * 60 * 24.
Definition CRYPTONOTE_MEMPOOL_TX_FROM_ALT_BLOCK_LIVETIME : Z := 60 * 60 * 24 * 7.
Definition CRYPTONOTE_NUMBER_OF_PERIODS_TO_FORGET_TX_DELETED_FROM_POOL : Z := 7.
Definition FUSION_TX_MAX_SIZE : Z := CRYPTONOTE_BLOCK_GRANTED_FULL_REWARD_ZONE_CURRENT * 30 / 100.
Definition FUSION_TX_MIN_INPUT_COUNT : Z := 12.
Definition FUSION_TX_MIN_IN_OUT_COUNT_RATIO : Z := 4.
Definition FUSION_FEE_V1_HEIGHT : Z := 2325000.
Definition FUSION_FEE_V1_EXIT_HEIGHT : Z := 2361823.
Definition FUSION_FEE_V1 : Z := 1000000.
Definition FUSION_TX_MAX_POOL_COUNT : Z := 130.
Definition TX_MAX_POOL_COUNT : Z := 260.
Definition UPGRADE_HEIGHT_V2 : Z := 1.
Definition UPGRADE_HEIGHT_V3 : Z := 2.
Definition UPGRADE_HEIGHT_V4 : Z := 3.
Definition UPGRADE_HEIGHT_V5 : Z := 4.
Definition UPGRADE_HEIGHT_V6 : Z := 2325000.
Definition UPGRADE_HEIGHT_V7 : Z := 2420000.
Definition UPGRADE_VOTING_THRESHOLD : Z := 90.
Definition UPGRADE_VOTING_WINDOW : Z := EXPECTED_NUMBER_OF_BLOCKS_PER_DAY.
Definition UPGRADE_WINDOW : Z := EXPECTED_NUMBER_OF_BLOCKS_PER_DAY.
Definition TRANSACTION_VERSION_1 : Z := 1.
Definition TRANSACTION_VERSION_2 : Z := 2.
Definition CURRENT_TRANSACTION_VERSION : Z := TRANSACTION_VERSION_1.
Definition BLOCK_MAJOR_VERSION_1 : Z := 1.
Definition BLOCK_MAJOR_VERSION_2 : Z := 2.
Definition BLOCK_MAJOR_VERSION_3 : Z := 3.
Definition BLOCK_MAJOR_VERSION_4 : Z := 4.
Definition BLOCK_MAJOR_VERSION_5 : Z := 5.
Definition BLOCK_MAJOR_VERSION_6 : Z := 6.
Definition BLOCK_MAJOR_VERSION_7 : Z := 7.
Definition BLOCK_MINOR_VERSION_0 : Z := 0.

Definition getCurrentDifficultyTarget (networkHeight : Z) : Z :=
  if DIFFICULTY_TARGET_V3_HEIGHT <=? networkHeight then DIFFICULTY_TARGET_V3
  else if DIFFICULTY_TARGET_V2_HEIGHT <=? networkHeight then DIFFICULTY_TARGET_V2
  else DIFFICULTY_TARGET.

Definition getMinimumFee (height : Z) : Z :=
  if MINIMUM_FEE_V2_HEIGHT <=? height then MINIMUM_FEE_V2
  else if MINIMUM_FEE_V1_HEIGHT <=? height then MINIMUM_FEE_V1
  else MINIMUM_FEE.

(** [(minMixin, maxMixin, defaultMixin)] *)
Definition getMixinAllowableRange (height : Z) : Z * Z * Z :=
  if MIXIN_LIMITS_V1_HEIGHT <=? height
  then (MINIMUM_MIXIN_V1, MAXIMUM_MIXIN_V1, DEFAULT_MIXIN_V1)
  else (0, MAX_U64, DEFAULT_MIXIN_V0).

(** The denominations [d * 10^k] that fit in 64 bits, in increasing order. *)
Definition PRETTY_AMOUNTS : list Z :=
  [
   1; 2; 3; 4; 5; 6; 7; 8; 9;
   10; 20; 30; 40; 50; 60; 70; 80; 90;
   100; 200; 300; 400; 500; 600; 700; 800; 900;
   1000; 2000; 3000; 4000; 5000; 6000; 7000; 8000; 9000;
   10000; 20000; 30000; 40000; 50000; 60000; 70000; 80000; 90000;
   100000; 200000; 300000; 400000; 500000; 600000; 700000; 800000; 900000;
   1000000; 2000000; 3000000; 4000000; 5000000; 6000000; 7000000; 8000000; 9000000;
   10000000; 20000000; 30000000; 40000000; 50000000; 60000000; 70000000; 80000000; 90000000;
   100000000; 200000000; 300000000; 400000000; 500000000; 600000000; 700000000; 800000000; 900000000;
   1000000000; 2000000000; 3000000000; 4000000000; 5000000000; 6000000000; 7000000000; 8000000000; 9000000000;
   10000000000; 20000000000; 30000000000; 40000000000; 50000000000; 60000000000; 70000000000; 80000000000; 90000000000;
   100000000000; 200000000000; 300000000000; 400000000000; 500000000000; 600000000000; 700000000000; 800000000000; 900000000000;
   1000000000000; 2000000000000; 3000000000000; 4000000000000; 5000000000000; 6000000000000; 7000000000000; 8000000000000; 9000000000000;
   10000000000000; 20000000000000; 30000000000000; 40000000000000; 50000000000000; 60000000000000; 70000000000000; 80000000000000; 90000000000000;
   100000000000000; 200000000000000; 300000000000000; 400000000000000; 500000000000000; 600000000000000; 700000000000000; 800000000000000; 900000000000000;
   1000000000000000; 2000000000000000; 3000000000000000; 4000000000000000; 5000000000000000; 6000000000000000; 7000000000000000; 8000000000000000; 9000000000000000;
   10000000000000000; 20000000000000000; 30000000000000000; 40000000000000000; 50000000000000000; 60000000000000000; 70000000000000000; 80000000000000000; 90000000000000000;
   100000000000000000; 200000000000000000; 300000000000000000; 400000000000000000; 500000000000000000; 600000000000000000; 700000000000000000; 800000000000000000; 900000000000000000;
   1000000000000000000; 2000000000000000000; 3000000000000000000; 4000000000000000000; 5000000000000000000; 6000000000000000000; 7000000000000000000; 8000000000000000000; 9000000000000000000;
   10000000000000000000].
