(* ===== verification/Difficulty.v ===== *)
(** * Difficulty: [cryptonotecore/Difficulty.cpp] and [common/CheckDifficulty.cpp]

    [nextDifficulty] is the LWMA retarget rule in [int64_t] arithmetic: a signed
    overflow, an index past the end of a vector and a division by zero are
    [Undefined].  [check_hash] compares a 256-bit hash with a 64-bit
    difficulty by a carry chain over 64-bit words. *)

From Stdlib Require Import ZArith Lia.
From stdpp Require Import base tactics list numbers strings.
From S2P Require Import Prelude Config.

Local Open Scope Z_scope.

(** Signed 64-bit arithmetic: the result when it fits. *)
Definition ck64 (x : Z) : outcome Z :=
  if bool_decide (is_i64 x) then Ok x else Undefined "signed overflow".
Definition at_ (l : list Z) (i : Z) : outcome Z :=
  from_option "vector index out of range" (l !! Z.to_nat i).
Definition div64 (a b : Z) : outcome Z :=
  _ ← assert (negb (b =? 0)) "division by zero"; ck64 (Z.quot a b).

(** One round of the loop over [i = 1 .. N]; the state is [(L, sum_3_ST)]. *)
Definition solvetime_step (T N : Z) (timestamps : list Z) (s : Z * Z) (i : Z) : outcome (Z * Z) :=
  let '(L, sum_3_ST) := s in
  t1 ← at_ timestamps i;
  t0 ← at_ timestamps (i - 1);
  ST ← ck64 (i64 t1 - i64 t0);
  let ST := Z.max (-4 * T) (Z.min ST (6 * T)) in
  L ← ck64 (L + ST * i);
  sum_3_ST ← (if N - 3 <? i then ck64 (sum_3_ST + ST) else Ok sum_3_ST);
  Ok (L, sum_3_ST).

Definition nextDifficulty (timestamps cumulativeDifficulties : list Z) (blockHeight : Z) : outcome Z :=
  let T := if DIFFICULTY_TARGET_V3_HEIGHT <=? blockHeight then DIFFICULTY_TARGET_V3
           else if DIFFICULTY_TARGET_V2_HEIGHT <=? blockHeight then DIFFICULTY_TARGET_V2
           else DIFFICULTY_TARGET in
  let N := DIFFICULTY_WINDOW in
  if Z.of_nat (length timestamps) <? N + 1 then Ok 10000
  else
    '(L, sum_3_ST) ← foldM (solvetime_step T N timestamps) (0, 0) (seqZ 1 N);
    cdN ← at_ cumulativeDifficulties N;
    cd0 ← at_ cumulativeDifficulties 0;
    p ← ck64 (i64 (u64 (cdN - cd0)) * T);
    p ← ck64 (p * (N + 1));
    p ← ck64 (p * 99);
    q ← ck64 (100 * 2 * L);
    next_D ← div64 p q;
    cdN1 ← at_ cumulativeDifficulties (N - 1);
    let prev_D := i64 (u64 (cdN - cdN1)) in
    d67 ← ck64 (prev_D * 67);
    d150 ← ck64 (prev_D * 150);
    let next_D := Z.max (Z.quot d67 100) (Z.min next_D (Z.quot d150 100)) in
    next_D ← (if sum_3_ST <? Z.quot (8 * T) 10 then
                d108 ← ck64 (prev_D * 108);
                Ok (Z.max next_D (Z.quot d108 100))
              else Ok next_D);
    Ok (u64 next_D).

(** [mul]: [(low, high)]. *)
Definition mul (a b : Z) : Z * Z := (u64 (a * b), u64 (Z.shiftr (a * b) 64)).
Definition cadd (a b : Z) : bool := u64 (a + b) <? a.
Definition cadc (a b : Z) (c : bool) : bool :=
  (u64 (a + b) <? a) || (c && (u64 (a + b) =? MAX_U64)).

(** Word [k] of the hash read as an array of [uint64_t]; [swap64le] is the
    identity on little-endian platforms. *)
Definition hash_word (hash : bytes) (k : nat) : Z := le_val (take 8 (drop (8 * k) hash)).

Definition check_hash (hash : bytes) (difficulty : Z) : bool :=
  let '(top, high) := mul (hash_word hash 3) difficulty in
  if negb (high =? 0) then false
  else
    let '(_, cur) := mul (hash_word hash 0) difficulty in
    let '(low, high) := mul (hash_word hash 1) difficulty in
    let carry := cadd cur low in
    let cur := high in
    let '(low, high) := mul (hash_word hash 2) difficulty in
    let carry := cadc cur low carry in
    let carry := cadc high top carry in
    negb carry.

(** ** Proof of work *)

Definition carry_bit (c : bool) : Z := if c then 1 else 0.

Lemma cadd_spec a b : is_u64 a -> is_u64 b -> cadd a b = (2 ^ 64 <=? a + b).
Proof.
  unfold in_width, cadd, wrap. intros Ha Hb. destruct (Z.leb_spec (2 ^ 64) (a + b)).
  - apply Z.ltb_lt. replace ((a + b) mod 2 ^ 64) with (a + b - 2 ^ 64); [lia|].
    apply (Z.mod_unique_pos _ _ 1); lia.
  - rewrite Z.mod_small by lia. apply Z.ltb_ge. lia.
Qed.

Lemma cadc_spec a b c : is_u64 a -> is_u64 b ->
  cadc a b c = (2 ^ 64 <=? a + b + carry_bit c).
Proof.
  intros Ha Hb. unfold cadc. fold (cadd a b). rewrite cadd_spec by done.
  unfold in_width, MAX_U64, wrap in *.
  destruct c; cbn [carry_bit andb]; [|by rewrite orb_false_r, Z.add_0_r].
  destruct (Z.leb_spec (2 ^ 64) (a + b)), (Z.leb_spec (2 ^ 64) (a + b + 1)); try lia; try done.
  - cbn [orb]. rewrite Z.mod_small by lia. apply Z.eqb_eq. lia.
  - cbn [orb]. rewrite Z.mod_small by lia. apply Z.eqb_neq. lia.
Qed.

Lemma mul_spec a b : is_u64 a -> is_u64 b -> exists lo hi,
  mul a b = (lo, hi) /\ is_u64 lo /\ is_u64 hi /\ a * b = lo + hi * 2 ^ 64.
Proof.
  intros Ha Hb. unfold mul. do 2 eexists. split; [done|].
  assert (Hab : 0 <= a * b < 2 ^ 64 * 2 ^ 64).
  { unfold in_width in *. split; [apply Z.mul_nonneg_nonneg; lia|].
    apply Z.mul_lt_mono_nonneg; lia. }
  rewrite Z.shiftr_div_pow2 by lia.
  rewrite (wrap_small 64 (a * b / 2 ^ 64)).
  - split; [apply wrap_range; lia|]. split.
    + split; [apply Z.div_pos; lia|apply Z.div_lt_upper_bound; lia].
    + unfold wrap. pose proof (Z.div_mod (a * b) (2 ^ 64)). lia.
  - split; [apply Z.div_pos; lia|apply Z.div_lt_upper_bound; lia].
Qed.

Lemma hash_word_u64 h k : is_bytes h -> is_u64 (hash_word h k).
Proof.
  intros Hh. unfold hash_word.
  assert (Hb : is_bytes (take 8 (drop (8 * k) h))) by by apply Forall_take, Forall_drop.
  apply le_val_bound in Hb. unfold in_width. split; [lia|].
  apply Z.lt_le_trans with (1 := proj2 Hb). change (2 ^ 64) with (256 ^ 8).
  apply Z.pow_le_mono_r; [lia|]. rewrite length_take. lia.
Qed.

Lemma hash_words h : is_bytes h -> length h = 32%nat ->
  le_val h = hash_word h 0 + hash_word h 1 * 2 ^ 64 + hash_word h 2 * 2 ^ 128 + hash_word h 3 * 2 ^ 192.
Proof.
  intros Hh Hl. unfold hash_word.
  rewrite <- (take_drop 8 h) at 1. rewrite from_base_app by lia.
  rewrite <- (take_drop 8 (drop 8 h)) at 1. rewrite from_base_app by lia.
  rewrite <- (take_drop 8 (drop 8 (drop 8 h))) at 1. rewrite from_base_app by lia.
  rewrite !length_take, !length_drop, Hl, !drop_drop. cbn [Nat.min Nat.sub Nat.add Nat.mul].
  rewrite (take_ge (drop 24 h)) by (rewrite length_drop; lia).
  replace (drop 0 h) with h by done. change (256 ^ Z.of_nat 8) with (2 ^ 64).
  change (2 ^ 128) with (2 ^ 64 * 2 ^ 64). change (2 ^ 192) with (2 ^ 64 * 2 ^ 64 * 2 ^ 64). ring.
Qed.

Lemma check_hash_ok h d : is_bytes h -> length h = 32%nat -> is_u64 d ->
  check_hash h d = (le_val h * d <? 2 ^ 256).
Proof.
  intros Hh Hl Hd. unfold check_hash. rewrite (hash_words h Hh Hl).
  destruct (mul_spec (hash_word h 3) d) as (l3 & h3 & -> & L3 & H3 & E3); [by apply hash_word_u64|done|].
  destruct (mul_spec (hash_word h 0) d) as (l0 & h0 & -> & L0 & H0 & E0); [by apply hash_word_u64|done|].
  destruct (mul_spec (hash_word h 1) d) as (l1 & h1 & -> & L1 & H1 & E1); [by apply hash_word_u64|done|].
  destruct (mul_spec (hash_word h 2) d) as (l2 & h2 & -> & L2 & H2 & E2); [by apply hash_word_u64|done|].
  assert (E : (hash_word h 0 + hash_word h 1 * 2 ^ 64 + hash_word h 2 * 2 ^ 128 + hash_word h 3 * 2 ^ 192) * d
    = (l0 + h0 * 2 ^ 64) + (l1 + h1 * 2 ^ 64) * 2 ^ 64 + (l2 + h2 * 2 ^ 64) * 2 ^ 128
      + (l3 + h3 * 2 ^ 64) * 2 ^ 192) by (rewrite <- E0, <- E1, <- E2, <- E3; ring).
  rewrite E. clear E E0 E1 E2 E3.
  rewrite !cadc_spec, cadd_spec by done. unfold carry_bit, in_width in *. eval_pow2.
  destruct (Z.eqb_spec h3 0) as [->|Hn]; cbn [negb].
  - destruct (Z.leb_spec 18446744073709551616 (h0 + l1)); cbn iota;
    match goal with |- context [if ?a <=? ?b then _ else _] => destruct (Z.leb_spec a b) end; cbn iota;
    match goal with |- context [negb (?a <=? ?b)] => destruct (Z.leb_spec a b) end; cbn [negb];
    symmetry; first [apply Z.ltb_lt; lia | apply Z.ltb_ge; lia].
  - symmetry. apply Z.ltb_ge. lia.
Qed.

(** ** Retargeting *)

Definition target_of (blockHeight : Z) : Z := getCurrentDifficultyTarget blockHeight.

(** The clamped solve time of block [i] of the window, and the weighted sum [L]. *)
Definition solvetime (T : Z) (ts : list Z) (i : Z) : Z :=
  Z.max (-4 * T) (Z.min (nth (Z.to_nat i) ts 0 - nth (Z.to_nat (i - 1)) ts 0) (6 * T)).
Definition lwma_sum (T : Z) (ts : list Z) : Z :=
  sumZ ((fun i => solvetime T ts i * i) <$> seqZ 1 DIFFICULTY_WINDOW).
Definition last_three (T : Z) (ts : list Z) : Z :=
  sumZ ((fun i => if DIFFICULTY_WINDOW - 3 <? i then solvetime T ts i else 0) <$> seqZ 1 DIFFICULTY_WINDOW).

Lemma ck64_ok x : is_i64 x -> ck64 x = Ok x.
Proof. intros H. unfold ck64. by rewrite bool_decide_eq_true_2. Qed.

Lemma target_cases h : target_of h = 10 \/ target_of h = 20 \/ target_of h = 300.
Proof. unfold target_of, getCurrentDifficultyTarget. repeat case_match; auto. Qed.

(** Timestamps below [2^63], the values whose differences fit. *)
Definition small_times (ts : list Z) : Prop := Forall (fun t => 0 <= t < 2 ^ 63) ts.

Lemma at_nth l i : 0 <= i < Z.of_nat (length l) -> at_ l i = Ok (nth (Z.to_nat i) l 0).
Proof.
  intros Hi. unfold at_. destruct (lookup_lt_is_Some_2 l (Z.to_nat i)) as [x Hx]; [lia|].
  rewrite Hx. simpl. f_equal. symmetry. by apply nth_lookup_Some.
Qed.

Lemma small_nth ts i : small_times ts -> 0 <= nth i ts 0 < 2 ^ 63.
Proof.
  intros H. destruct (nth_lookup_or_length ts i 0) as [Hl|Hl].
  - by eapply Forall_lookup_1 in H.
  - by rewrite nth_overflow.
Qed.

Lemma i64_small t : 0 <= t < 2 ^ 63 -> i64 t = t.
Proof. intros. apply swrap_small; [|lia]. unfold in_swidth. eval_pow2. simpl Z.sub. eval_pow2. lia. Qed.

Lemma solvetime_bound T ts i : 0 < T <= 300 -> -1200 <= solvetime T ts i <= 1800.
Proof. unfold solvetime. lia. Qed.

Lemma weighted_bound T ts i : 0 < T <= 300 -> 1 <= i <= 60 -> -108000 <= solvetime T ts i * i <= 108000.
Proof. intros HT Hi. pose proof (solvetime_bound T ts i HT). nia. Qed.

Lemma solvetime_step_ok T ts L s i :
  small_times ts -> (61 <= length ts)%nat -> 0 < T <= 300 -> 1 <= i <= 60 ->
  Z.abs L <= 2 ^ 40 -> Z.abs s <= 2 ^ 40 ->
  solvetime_step T DIFFICULTY_WINDOW ts (L, s) i
  = Ok (L + solvetime T ts i * i,
        s + (if DIFFICULTY_WINDOW - 3 <? i then solvetime T ts i else 0)).
Proof.
  intros Hts Hlen HT Hi HL Hs. unfold solvetime_step.
  rewrite !at_nth by lia. okbind.
  pose proof (small_nth ts (Z.to_nat i) Hts) as H1.
  pose proof (small_nth ts (Z.to_nat (i - 1)) Hts) as H0.
  rewrite !i64_small by done. rewrite ck64_ok by width_solve. okbind.
  fold (solvetime T ts i).
  pose proof (solvetime_bound T ts i HT). pose proof (weighted_bound T ts i HT Hi).
  rewrite (ck64_ok (L + _)) by width_solve. okbind.
  destruct (DIFFICULTY_WINDOW - 3 <? i); okbind; [|by rewrite Z.add_0_r].
  rewrite ck64_ok by width_solve. done.
Qed.

Lemma window_loop_ok T ts l : small_times ts -> (61 <= length ts)%nat -> 0 < T <= 300 ->
  Forall (fun i => 1 <= i <= 60) l -> forall L s,
  Z.abs L + 108000 * Z.of_nat (length l) <= 2 ^ 40 -> Z.abs s + 1800 * Z.of_nat (length l) <= 2 ^ 40 ->
  foldM (solvetime_step T DIFFICULTY_WINDOW ts) (L, s) l
  = Ok (L + sumZ ((fun i => solvetime T ts i * i) <$> l),
        s + sumZ ((fun i => if DIFFICULTY_WINDOW - 3 <? i then solvetime T ts i else 0) <$> l)).
Proof.
  intros Hts Hlen HT Hl. induction Hl as [|i l Hi Hl IH]; intros L s HL Hs.
  - simpl. by rewrite !Z.add_0_r.
  - cbn [foldM length] in *. rewrite solvetime_step_ok by (done || lia). okbind.
    pose proof (solvetime_bound T ts i HT). pose proof (weighted_bound T ts i HT Hi).
    assert (Z.abs (if DIFFICULTY_WINDOW - 3 <? i then solvetime T ts i else 0) <= 1800)
      by (case_match; lia).
    rewrite IH by lia. rewrite !fmap_cons, !sumZ_cons. do 2 f_equal; lia.
Qed.

Lemma window_ok T ts : small_times ts -> (61 <= length ts)%nat -> 0 < T <= 300 ->
  foldM (solvetime_step T DIFFICULTY_WINDOW ts) (0, 0) (seqZ 1 DIFFICULTY_WINDOW)
  = Ok (lwma_sum T ts, last_three T ts) /\ Z.abs (lwma_sum T ts) <= 108000 * 60.
Proof.
  intros Hts Hlen HT. rewrite window_loop_ok; try done.
  - split; [done|]. unfold lwma_sum.
    assert (G : forall l, Forall (fun i => 1 <= i <= 60) l ->
      Z.abs (sumZ ((fun i => solvetime T ts i * i) <$> l)) <= 108000 * Z.of_nat (length l)).
    { induction 1 as [|i l Hi _ IH]; [done|]. rewrite fmap_cons, sumZ_cons.
      pose proof (weighted_bound T ts i HT Hi). cbn [length]. lia. }
    apply (G (seqZ 1 DIFFICULTY_WINDOW)). apply Forall_seqZ. unfold DIFFICULTY_WINDOW. lia.
  - apply Forall_seqZ. unfold DIFFICULTY_WINDOW. lia.
Qed.

(** The cumulative difficulties the retarget rule can use: it reads entries
    0, 59 and 60, and its products stay below [2^63]. *)
Record good_difficulties (cds : list Z) (c0 c59 c60 : Z) : Prop := {
  gd_first : cds !! 0%nat = Some c0;
  gd_prev : cds !! 59%nat = Some c59;
  gd_last : cds !! 60%nat = Some c60;
  gd_order : 0 <= c0 <= c59 /\ c59 <= c60 < 2 ^ 64;
  gd_fits : (c60 - c0) * (300 * 61 * 99) < 2 ^ 63 }.

Lemma quot_i64 a b : 0 <= a < 2 ^ 63 -> b <> 0 -> is_i64 (Z.quot a b).
Proof.
  intros Ha Hb. assert (Z.abs (Z.quot a b) <= a).
  { rewrite <- Z.quot_abs by done. rewrite (Z.abs_eq a) by lia.
    rewrite Z.quot_div_nonneg by lia. apply Z.div_le_upper_bound; nia. }
  width_solve.
Qed.

(** The value the rule computes when nothing overflows. *)
Definition clamp_difficulty (prev next : Z) (fast : bool) : Z :=
  let d := Z.max (prev * 67 / 100) (Z.min next (prev * 150 / 100)) in
  if fast then Z.max d (prev * 108 / 100) else d.

Lemma clamp_bounds prev next fast : 0 <= prev ->
  prev * 67 / 100 <= clamp_difficulty prev next fast <= prev * 150 / 100 /\
  (fast = true -> prev * 108 / 100 <= clamp_difficulty prev next fast).
Proof.
  intros Hp. unfold clamp_difficulty.
  assert (prev * 67 / 100 <= prev * 150 / 100) by (apply Z.div_le_mono; lia).
  assert (prev * 108 / 100 <= prev * 150 / 100) by (apply Z.div_le_mono; lia).
  destruct fast; lia.
Qed.

Lemma nextDifficulty_ok ts cds h c0 c59 c60 :
  small_times ts -> (61 <= length ts)%nat -> good_difficulties cds c0 c59 c60 ->
  lwma_sum (target_of h) ts <> 0 ->
  nextDifficulty ts cds h
  = Ok (clamp_difficulty (c60 - c59)
          (Z.quot ((c60 - c0) * target_of h * 61 * 99) (200 * lwma_sum (target_of h) ts))
          (last_three (target_of h) ts <? 8 * target_of h / 10)).
Proof.
  intros Hts Hlen [G0 G59 G60 Gord Gfit] HL. unfold nextDifficulty.
  fold (getCurrentDifficultyTarget h). fold (target_of h).
  set (T := target_of h) in *.
  assert (HT : 0 < T <= 300) by (destruct (target_cases h) as [E|[E|E]]; subst T; rewrite E; lia).
  destruct (window_ok T ts Hts Hlen HT) as [-> HLb].
  change DIFFICULTY_WINDOW with 60 in *.
  replace (Z.of_nat (length ts) <? 60 + 1) with false by (symmetry; apply Z.ltb_ge; lia).
  okbind. unfold at_. change (Z.to_nat 60) with 60%nat. change (Z.to_nat 0) with 0%nat.
  change (Z.to_nat (60 - 1)) with 59%nat. rewrite G0, G59, G60. cbn [from_option]. okbind.
  assert (Hp : 0 <= c60 - c0 < 2 ^ 43) by (eval_pow2; lia).
  assert (E1 : 0 <= (c60 - c0) * T <= (c60 - c0) * 300) by nia.
  rewrite !(wrap_small 64) by width_solve. rewrite !i64_small by (eval_pow2; lia).
  repeat (rewrite ck64_ok by width_solve; okbind). unfold div64.
  replace (100 * 2 * lwma_sum T ts =? 0) with false by (symmetry; apply Z.eqb_neq; lia). okbind.
  replace ((c60 - c0) * T * (60 + 1) * 99) with ((c60 - c0) * T * 61 * 99) by lia.
  replace (100 * 2 * lwma_sum T ts) with (200 * lwma_sum T ts) by lia.
  rewrite ck64_ok by (apply quot_i64; [eval_pow2; lia|lia]). okbind.
  repeat (rewrite ck64_ok by width_solve; okbind).
  rewrite (Z.quot_div_nonneg (8 * T)), !(fun a => Z.quot_div_nonneg ((c60 - c59) * a) 100) by lia.
  set (q := Z.quot _ _). pose proof (clamp_bounds (c60 - c59) q (last_three T ts <? 8 * T / 10) ltac:(lia)) as Hb.
  unfold clamp_difficulty in *.
  assert ((c60 - c59) * 150 / 100 < 2 ^ 64) by (eval_pow2; apply Z.div_lt_upper_bound; lia).
  assert (0 <= (c60 - c59) * 67 / 100) by (apply Z.div_pos; lia).
  destruct (last_three T ts <? 8 * T / 10); okbind; (rewrite wrap_small; [done|unfold in_width; lia]).
Qed.

(** When the weighted sum is zero the rule divides by zero. *)
Lemma nextDifficulty_zero ts cds h c0 c59 c60 :
  small_times ts -> (61 <= length ts)%nat -> good_difficulties cds c0 c59 c60 ->
  lwma_sum (target_of h) ts = 0 -> nextDifficulty ts cds h = Undefined "division by zero".
Proof.
  intros Hts Hlen [G0 G59 G60 Gord Gfit] HL. unfold nextDifficulty.
  fold (getCurrentDifficultyTarget h). fold (target_of h). set (T := target_of h) in *.
  assert (HT : 0 < T <= 300) by (destruct (target_cases h) as [E|[E|E]]; subst T; rewrite E; lia).
  destruct (window_ok T ts Hts Hlen HT) as [-> _]. rewrite HL.
  change DIFFICULTY_WINDOW with 60 in *.
  replace (Z.of_nat (length ts) <? 60 + 1) with false by (symmetry; apply Z.ltb_ge; lia).
  okbind. unfold at_. change (Z.to_nat 60) with 60%nat. change (Z.to_nat 0) with 0%nat.
  change (Z.to_nat (60 - 1)) with 59%nat. rewrite G0, G59, G60. cbn [from_option]. okbind.
  assert (Hp : 0 <= c60 - c0 < 2 ^ 43) by (eval_pow2; lia).
  assert (E1 : 0 <= (c60 - c0) * T <= (c60 - c0) * 300) by nia.
  rewrite !(wrap_small 64) by width_solve. rewrite !i64_small by (eval_pow2; lia).
  repeat (rewrite ck64_ok by width_solve; okbind). done.
Qed.

(** Strictly increasing timestamps make every solve time, and so the sum, positive. *)
Lemma solvetime_pos T ts i : 0 < T ->
  nth (Z.to_nat (i - 1)) ts 0 < nth (Z.to_nat i) ts 0 -> 1 <= solvetime T ts i.
Proof. unfold solvetime. lia. Qed.

Lemma lwma_sum_pos T ts : 0 < T ->
  (forall i, 1 <= i <= 60 -> nth (Z.to_nat (i - 1)) ts 0 < nth (Z.to_nat i) ts 0) -> 0 < lwma_sum T ts.
Proof.
  intros HT Hinc. unfold lwma_sum.
  assert (G : forall l, l <> [] -> Forall (fun i => 1 <= i <= 60) l ->
    0 < sumZ ((fun i => solvetime T ts i * i) <$> l)).
  { intros l Hne Hl. induction Hl as [|i l Hi Hl IH]; [done|]. rewrite fmap_cons, sumZ_cons.
    pose proof (solvetime_pos T ts i HT (Hinc i Hi)).
    destruct l; [simpl; nia|]. specialize (IH ltac:(done)). nia. }
  apply G; [done|]. apply Forall_seqZ. unfold DIFFICULTY_WINDOW. lia.
Qed.

Lemma lwma_sum_const T t n : (61 <= n)%nat -> 0 < T -> lwma_sum T (replicate n t) = 0.
Proof.
  intros Hn HT. unfold lwma_sum.
  assert (G : forall l, Forall (fun i => 1 <= i <= 60) l ->
    sumZ ((fun i => solvetime T (replicate n t) i * i) <$> l) = 0).
  { induction 1 as [|i l Hi _ IH]; [done|]. rewrite fmap_cons, sumZ_cons, IH. unfold solvetime.
    assert (E : forall j, (j < n)%nat -> nth j (replicate n t) 0 = t)
      by (intros j Hj; by apply nth_lookup_Some, lookup_replicate_2).
    rewrite !E by lia. lia. }
  apply G. apply Forall_seqZ. unfold DIFFICULTY_WINDOW. lia.
Qed.

(** ** Properties *)

(** C35: [check_hash] accepts a 32-byte hash exactly when the hash, read as a
    256-bit little-endian number, times the difficulty is below [2^256]: the
    word-by-word carry chain loses no carry. *)
Theorem check_hash_correct h d :
  is_bytes h -> length h = 32%nat -> is_u64 d ->
  check_hash h d = true <-> le_val h * d < 2 ^ 256.
Proof. intros. rewrite check_hash_ok by done. apply Z.ltb_lt. Qed.

Lemma check_hash_correct_witness :
  check_hash (replicate 31 255 ++ [0]) 256 = true <-> le_val (replicate 31 255 ++ [0]) * 256 < 2 ^ 256.
Proof.
  apply check_hash_correct; [|done|done].
  by apply (bool_decide_eq_true_1 (is_bytes (replicate 31 255 ++ [0]))).
Defined.

(** C39: on a full window of timestamps, with difficulties small enough for the
    products to fit, [nextDifficulty] is decided by the weighted solve-time sum.
    When it is not zero the call returns, the new difficulty is between 67% and
    150% of the last block's, and at least 108% if the last three blocks came
    faster than 8/10 of the target; when it is zero the call divides by zero. *)
Theorem nextDifficulty_bounds ts cds h c0 c59 c60 :
  small_times ts -> (61 <= length ts)%nat -> good_difficulties cds c0 c59 c60 ->
  (lwma_sum (target_of h) ts <> 0 ->
   exists d, nextDifficulty ts cds h = Ok d /\
     (c60 - c59) * 67 / 100 <= d <= (c60 - c59) * 150 / 100 /\
     (last_three (target_of h) ts < 8 * target_of h / 10 -> (c60 - c59) * 108 / 100 <= d)) /\
  (lwma_sum (target_of h) ts = 0 -> nextDifficulty ts cds h = Undefined "division by zero").
Proof.
  intros Hts Hlen Hcd. split; [|by eapply nextDifficulty_zero].
  intros HL. eexists. split; [by apply nextDifficulty_ok|].
  destruct Hcd as [_ _ _ [? ?] _].
  edestruct clamp_bounds as [Hb Hf]; [|split; [exact Hb|]]; [lia|].
  intros Hl. apply Hf. by apply Z.ltb_lt.
Qed.

Definition steady_times : list Z := (fun i => 1000 + 20 * i) <$> seqZ 0 61.
Definition steady_difficulties : list Z := (fun i => 50000 * i) <$> seqZ 0 61.

Lemma steady_good : good_difficulties steady_difficulties 0 2950000 3000000.
Proof. constructor; try reflexivity; lia. Qed.

Lemma nextDifficulty_bounds_witness :
  exists d, nextDifficulty steady_times steady_difficulties 900000 = Ok d /\
    50000 * 67 / 100 <= d <= 50000 * 150 / 100 /\
    (last_three (target_of 900000) steady_times < 8 * target_of 900000 / 10 -> 50000 * 108 / 100 <= d).
Proof.
  apply (nextDifficulty_bounds steady_times steady_difficulties 900000 0 2950000 3000000).
  - unfold small_times. apply (bool_decide_eq_true_1 _). by vm_compute.
  - apply Nat.leb_le. by vm_compute.
  - exact steady_good.
  - by vm_compute.
Defined.

(** on strictly increasing timestamps the weighted sum is positive, so the
    rule never divides by zero and always returns a difficulty. *)
Theorem nextDifficulty_total ts cds h c0 c59 c60 :
  small_times ts -> (61 <= length ts)%nat -> good_difficulties cds c0 c59 c60 ->
  (forall i, 1 <= i <= 60 -> nth (Z.to_nat (i - 1)) ts 0 < nth (Z.to_nat i) ts 0) ->
  is_ok (nextDifficulty ts cds h) = true.
Proof.
  intros Hts Hlen Hcd Hinc. erewrite nextDifficulty_ok; try done.
  pose proof (lwma_sum_pos (target_of h) ts) as Hp.
  destruct (target_cases h) as [E|[E|E]]; rewrite E in *; specialize (Hp ltac:(lia) Hinc); lia.
Qed.

Lemma nextDifficulty_total_witness :
  is_ok (nextDifficulty steady_times steady_difficulties 900000) = true.
Proof.
  apply (nextDifficulty_total steady_times steady_difficulties 900000 0 2950000 3000000).
  - unfold small_times. apply (bool_decide_eq_true_1 _). by vm_compute.
  - apply Nat.leb_le. by vm_compute.
  - exact steady_good.
  - intros i Hi. assert (Hall : Forall (fun i => nth (Z.to_nat (i - 1)) steady_times 0
        < nth (Z.to_nat i) steady_times 0) (seqZ 1 60)) by (apply (bool_decide_eq_true_1 _); by vm_compute).
    rewrite Forall_seqZ in Hall. apply Hall. lia.
Defined.

(** a window of equal timestamps (a chain of blocks all stamped alike, which
    the median rule for timestamps allows) makes the weighted sum zero and the
    retarget rule divide by zero. *)
Theorem nextDifficulty_stall t n cds h c0 c59 c60 :
  0 <= t < 2 ^ 63 -> (61 <= n)%nat -> good_difficulties cds c0 c59 c60 ->
  nextDifficulty (replicate n t) cds h = Undefined "division by zero".
Proof.
  intros Ht Hn Hcd. eapply nextDifficulty_zero; [by apply Forall_replicate|by rewrite length_replicate|done|].
  apply lwma_sum_const; [done|]. destruct (target_cases h) as [E|[E|E]]; rewrite E; lia.
Qed.

Lemma nextDifficulty_stall_witness :
  nextDifficulty (replicate 61 1600000000) steady_difficulties 900000 = Undefined "division by zero".
Proof.
  apply (nextDifficulty_stall _ _ _ _ 0 2950000 3000000); [lia|lia|exact steady_good].
Defined.
