(* ===== verification/Types.v ===== *)
(** * Types: the data of [include/CryptoNote.h] and [include/CryptoTypes.h]

    Integers are [Z] with their width stated by the [wf_*] predicates; keys,
    hashes, key images and signatures are byte strings of their fixed size.
    [boost::variant]s are inductive types with the source's alternatives. *)

From Stdlib Require Import ZArith Lia.
From stdpp Require Import base tactics list numbers.
From S2P Require Import Prelude.

Local Open Scope Z_scope.

Abbreviation Hash := bytes.
Abbreviation PublicKey := bytes.
Abbreviation SecretKey := bytes.
Abbreviation KeyImage := bytes.
Abbreviation Signature := bytes.

(** A POD object of [n] bytes. *)
Definition pod (n : nat) (l : bytes) : Prop := is_bytes l /\ length l = n.
#[global] Instance pod_dec n l : Decision (pod n l).
Proof. unfold pod. apply _. Defined.

Definition NULL_HASH : Hash := replicate 32 0.

Record BaseInput := { blockIndex : Z }.

Record KeyInput := {
  ki_amount : Z;
  outputIndexes : list Z;
  keyImage : KeyImage }.

Inductive TransactionInput :=
| InBase (i : BaseInput)
| InKey (i : KeyInput).

Record KeyOutput := { ko_key : PublicKey }.

Inductive TransactionOutputTarget :=
| TargetKey (k : KeyOutput).

Record TransactionOutput := {
  out_amount : Z;
  target : TransactionOutputTarget }.

Record TransactionPrefix := {
  version : Z;
  unlockTime : Z;
  inputs : list TransactionInput;
  outputs : list TransactionOutput;
  extra : bytes }.

Record Transaction := {
  tx_prefix : TransactionPrefix;
  signatures : list (list Signature) }.

(** [BaseTransaction] adds nothing to [TransactionPrefix]. *)
Abbreviation BaseTransaction := TransactionPrefix.

Record ParentBlock := {
  pb_majorVersion : Z;
  pb_minorVersion : Z;
  pb_previousBlockHash : Hash;
  transactionCount : Z;
  baseTransactionBranch : list Hash;
  pb_baseTransaction : BaseTransaction;
  blockchainBranch : list Hash }.

Record BlockHeader := {
  majorVersion : Z;
  minorVersion : Z;
  nonce : Z;
  timestamp : Z;
  previousBlockHash : Hash }.

Record BlockTemplate := {
  header : BlockHeader;
  parentBlock : ParentBlock;
  baseTransaction : Transaction;
  transactionHashes : list Hash }.

Record AccountPublicAddress := {
  spendPublicKey : PublicKey;
  viewPublicKey : PublicKey }.

Record AccountKeys := {
  address : AccountPublicAddress;
  spendSecretKey : SecretKey;
  viewSecretKey : SecretKey }.

Record KeyPair := {
  publicKey : PublicKey;
  secretKey : SecretKey }.

Record RawBlock := {
  block : bytes;
  transactions : list bytes }.

#[global] Instance BaseInput_eq_dec : EqDecision BaseInput.
Proof. solve_decision. Defined.
#[global] Instance KeyInput_eq_dec : EqDecision KeyInput.
Proof. solve_decision. Defined.
#[global] Instance TransactionInput_eq_dec : EqDecision TransactionInput.
Proof. solve_decision. Defined.
#[global] Instance KeyOutput_eq_dec : EqDecision KeyOutput.
Proof. solve_decision. Defined.
#[global] Instance TransactionOutputTarget_eq_dec : EqDecision TransactionOutputTarget.
Proof. solve_decision. Defined.
#[global] Instance TransactionOutput_eq_dec : EqDecision TransactionOutput.
Proof. solve_decision. Defined.
#[global] Instance TransactionPrefix_eq_dec : EqDecision TransactionPrefix.
Proof. solve_decision. Defined.
#[global] Instance Transaction_eq_dec : EqDecision Transaction.
Proof. solve_decision. Defined.

(** Freshly constructed objects: empty containers.  The fields without an
    initialiser hold arbitrary values; the zeros here are one choice. *)
Definition new_BaseInput : BaseInput := {| blockIndex := 0 |}.
Definition new_KeyInput : KeyInput :=
  {| ki_amount := 0; outputIndexes := []; keyImage := replicate 32 0 |}.
Definition new_KeyOutput : KeyOutput := {| ko_key := replicate 32 0 |}.
Definition new_TransactionOutput : TransactionOutput :=
  {| out_amount := 0; target := TargetKey new_KeyOutput |}.
Definition new_TransactionPrefix : TransactionPrefix :=
  {| version := 0; unlockTime := 0; inputs := []; outputs := []; extra := [] |}.
Definition new_Transaction : Transaction :=
  {| tx_prefix := new_TransactionPrefix; signatures := [] |}.
Definition new_ParentBlock : ParentBlock :=
  {| pb_majorVersion := 0; pb_minorVersion := 0; pb_previousBlockHash := NULL_HASH;
     transactionCount := 0; baseTransactionBranch := [];
     pb_baseTransaction := new_TransactionPrefix; blockchainBranch := [] |}.
Definition new_BlockHeader : BlockHeader :=
  {| majorVersion := 0; minorVersion := 0; nonce := 0; timestamp := 0; previousBlockHash := NULL_HASH |}.
Definition new_BlockTemplate : BlockTemplate :=
  {| header := new_BlockHeader; parentBlock := new_ParentBlock;
     baseTransaction := new_Transaction; transactionHashes := [] |}.

(** ** Values the C++ types can hold *)

Definition small_list {A} (l : list A) : Prop := Z.of_nat (length l) < 2 ^ 64.

Definition wf_KeyInput (i : KeyInput) : Prop :=
  is_u64 (ki_amount i) /\ Forall (in_width 32) (outputIndexes i) /\
  small_list (outputIndexes i) /\ pod 32 (keyImage i).
Definition wf_input (i : TransactionInput) : Prop :=
  match i with
  | InBase i => is_u32 (blockIndex i)
  | InKey i => wf_KeyInput i
  end.
Definition wf_target (t : TransactionOutputTarget) : Prop :=
  match t with TargetKey k => pod 32 (ko_key k) end.
Definition wf_output (o : TransactionOutput) : Prop :=
  is_u64 (out_amount o) /\ wf_target (target o).
Definition wf_prefix (t : TransactionPrefix) : Prop :=
  is_u8 (version t) /\ is_u64 (unlockTime t) /\
  (Forall wf_input (inputs t) /\ small_list (inputs t)) /\
  (Forall wf_output (outputs t) /\ small_list (outputs t)) /\
  (is_bytes (extra t) /\ small_list (extra t)).

#[global] Instance small_list_dec {A} (l : list A) : Decision (small_list l).
Proof. unfold small_list. apply _. Defined.
#[global] Instance wf_KeyInput_dec i : Decision (wf_KeyInput i).
Proof. unfold wf_KeyInput. apply _. Defined.
#[global] Instance wf_input_dec i : Decision (wf_input i).
Proof. destruct i; simpl; apply _. Defined.
#[global] Instance wf_target_dec t : Decision (wf_target t).
Proof. destruct t; simpl; apply _. Defined.
#[global] Instance wf_output_dec o : Decision (wf_output o).
Proof. unfold wf_output. apply _. Defined.
#[global] Instance wf_prefix_dec t : Decision (wf_prefix t).
Proof. unfold wf_prefix. apply _. Defined.
