(* ===== verification/Serializer.v ===== *)
(** * Serializer: [serialization/Binary{Input,Output}StreamSerializer.cpp],
      [ISerializer.h] and [SerializationOverloads]

    One [serialize] function per type runs in both directions, as in the
    source: it receives the object and a serializer, and returns the object
    (changed when reading) and the serializer (advanced).  [ISerializer] is
    implemented here by the two binary serializers: the bytes still to be read,
    or the bytes written so far.  Their [beginObject], [endObject] and
    [endArray] do nothing and every call returns [true]. *)

From Stdlib Require Import ZArith Lia.
From stdpp Require Import base tactics list numbers strings.
From S2P Require Import Prelude Config Stream Types.

Local Open Scope Z_scope.

Inductive serializer :=
| INPUT (stream : bytes)
| OUTPUT (stream : bytes).

Abbreviation ser A := (A -> serializer -> outcome (A * serializer)).

(** ** [BinaryInputStreamSerializer] *)

Definition in_uint (w : Z) (st : bytes) : outcome (Z * bytes) := readVarint w st.
Definition in_sint (w : Z) (st : bytes) : outcome (Z * bytes) :=
  '(v, st) ← readVarint w st; Ok (swrap w v, st).
Definition in_beginArray (st : bytes) : outcome (Z * bytes) := readVarint 64 st.
Definition in_bool (st : bytes) : outcome (bool * bytes) :=
  '(v, st) ← read_uint8 st; Ok (negb (v =? 0), st).

(** Read and throw away [size] bytes, one at a time. *)
Fixpoint in_discard (size : nat) (st : bytes) : outcome bytes :=
  match size with
  | O => Ok st
  | S size => '(_, st) ← read st 1; in_discard size st
  end.

Definition in_string (name : string) (st : bytes) : outcome (bytes * bytes) :=
  '(size, st) ← readVarint 64 st;
  if (MAX_EXTRA_SIZE <? size) && bool_decide (name = "mm_tag"%string) then
    st ← in_discard (Z.to_nat size) st; Ok ([], st)
  else if 0 <? size then read st size
  else Ok ([], st).

Definition in_binary (size : nat) (st : bytes) : outcome (bytes * bytes) :=
  read st (Z.of_nat size).

(** ** [BinaryOutputStreamSerializer] *)

Definition out_uint (v : Z) (st : bytes) : bytes := st ++ writeVarint v.
Definition out_sint (w v : Z) (st : bytes) : bytes := st ++ writeVarint (wrap w v).
Definition out_beginArray (size : Z) (st : bytes) : bytes := st ++ writeVarint size.
Definition out_bool (v : bool) (st : bytes) : bytes := st ++ [if v then 1 else 0].
Definition out_string (v : bytes) (st : bytes) : bytes :=
  (st ++ writeVarint (Z.of_nat (length v))) ++ v.
Definition out_binary (v : bytes) (st : bytes) : bytes := st ++ v.

(** ** [ISerializer]: the virtual calls *)

Definition is_input (s : serializer) : bool :=
  match s with INPUT _ => true | OUTPUT _ => false end.

Definition reading {A} (r : outcome (A * bytes)) : outcome (A * serializer) :=
  '(v, st) ← r; Ok (v, INPUT st).

Definition op_uint (w : Z) : ser Z := fun v s =>
  match s with
  | INPUT st => reading (in_uint w st)
  | OUTPUT st => Ok (v, OUTPUT (out_uint v st))
  end.
Definition op_sint (w : Z) : ser Z := fun v s =>
  match s with
  | INPUT st => reading (in_sint w st)
  | OUTPUT st => Ok (v, OUTPUT (out_sint w v st))
  end.
Definition op_bool : ser bool := fun v s =>
  match s with
  | INPUT st => reading (in_bool st)
  | OUTPUT st => Ok (v, OUTPUT (out_bool v st))
  end.
Definition op_string (name : string) : ser bytes := fun v s =>
  match s with
  | INPUT st => reading (in_string name st)
  | OUTPUT st => Ok (v, OUTPUT (out_string v st))
  end.
Definition beginArray : ser Z := fun size s =>
  match s with
  | INPUT st => reading (in_beginArray st)
  | OUTPUT st => Ok (size, OUTPUT (out_beginArray size st))
  end.
(** [binary(void *value, uint64_t size, name)] for an object of [n] bytes. *)
Definition binary (n : nat) : ser bytes := fun v s =>
  match s with
  | INPUT st => reading (in_binary n st)
  | OUTPUT st => Ok (v, OUTPUT (out_binary v st))
  end.
(** [binary(std::string &value, name)]. *)
Definition binary_string (name : string) : ser bytes := op_string name.

(** ** [SerializationOverloads] *)

(** [serializeAsBinary] for [std::vector<uint8_t>]: [sizeof(T)] is 1, so every
    blob size is a whole number of elements. *)
Definition serializeAsBinary (name : string) : ser bytes := fun value s =>
  if is_input s then
    '(blob, s) ← binary_string name [] s; Ok (blob, s)
  else
    '(_, s) ← binary_string name value s; Ok (value, s).

(** [for (auto &item : value) serializer(item, "")]. *)
Fixpoint serialize_items {A} (f : ser A) (l : list A) (s : serializer) : outcome (list A * serializer) :=
  match l with
  | [] => Ok ([], s)
  | x :: l =>
      '(x, s) ← f x s;
      '(l, s) ← serialize_items f l s;
      Ok (x :: l, s)
  end.

(** [value.resize(size)] keeps a prefix and appends new elements. *)
Definition serializeContainer {A} (new : A) (f : ser A) : ser (list A) := fun value s =>
  '(size, s) ← beginArray (Z.of_nat (length value)) s;
  serialize_items f (resize (Z.to_nat size) new value) s.

Definition serializeBlockHeight : ser Z := fun blockHeight s =>
  if is_input s then
    '(height, s) ← op_uint 64 0 s;
    if height =? MAX_U64 then Ok (2 ^ 32 - 1, s)
    else if (2 ^ 32 - 1 <? height) && (height <? MAX_U64) then
      Throw "Deserialization error: wrong value"
    else Ok (u32 height, s)
  else op_uint 32 blockHeight s.

(** ** [SerializationTools]: whole objects *)

Definition toBinaryArray {A} (f : ser A) (object : A) : outcome bytes :=
  '(_, s) ← f object (OUTPUT []);
  match s with OUTPUT st => Ok st | INPUT _ => Undefined "a writer stays a writer" end.

Definition fromBinaryArray {A} (f : ser A) (object : A) (binaryArray : bytes) : outcome A :=
  '(object, s) ← f object (INPUT binaryArray);
  match s with
  | INPUT st => _ ← require (endOfStream st) "failed to unpack type"; Ok object
  | OUTPUT _ => Undefined "a reader stays a reader"
  end.

(** The overloads that catch exceptions and return [false]. *)
Definition toBinaryArray_opt {A} (f : ser A) (object : A) : outcome (option bytes) :=
  try_catch (toBinaryArray f object).
Definition fromBinaryArray_opt {A} (f : ser A) (object : A) (b : bytes) : outcome (option A) :=
  try_catch (fromBinaryArray f object b).
Definition getObjectBinarySize {A} (f : ser A) (object : A) : outcome Z :=
  r ← toBinaryArray_opt f object;
  Ok (match r with Some b => Z.of_nat (length b) | None => MAX_U64 end).

(** ** Laws of a serializer

    [writes f x out]: writing [x] appends [out].  [reads fresh f x out]: reading
    [out], into any [fresh] object and with any bytes after it, gives [x].
    [RoundTrip]: every valid object has bytes that are written and read back.
    [Canonical]: whatever is read successfully is valid, and writing it gives
    exactly the bytes that were consumed. *)

Definition writes {A} (f : ser A) (x : A) (out : bytes) : Prop :=
  forall pre, f x (OUTPUT pre) = Ok (x, OUTPUT (pre ++ out)).
Definition reads {A} (fresh : A -> Prop) (f : ser A) (x : A) (out : bytes) : Prop :=
  forall d rest, fresh d -> f d (INPUT (out ++ rest)) = Ok (x, INPUT rest).

Class RoundTrip {A} (fresh valid : A -> Prop) (f : ser A) : Prop :=
  roundtrip x : valid x -> exists out, is_bytes out /\ writes f x out /\ reads fresh f x out.
Class Canonical {A} (fresh valid : A -> Prop) (f : ser A) : Prop :=
  canonical d inp x s : fresh d -> is_bytes inp -> f d (INPUT inp) = Ok (x, s) ->
    valid x /\ exists out rest, s = INPUT rest /\ inp = out ++ rest /\ writes f x out.

(** An object of any content is fresh. *)
Definition any {A} (_ : A) : Prop := True.
Create HintDb ser.
#[export] Hint Unfold any : ser.

Section whole.
Context {A : Type} (fresh valid : A -> Prop) (f : ser A).

Lemma toBinaryArray_writes x out : writes f x out -> toBinaryArray f x = Ok out.
Proof. intros Hw. unfold toBinaryArray. by rewrite Hw. Qed.

Lemma fromBinaryArray_reads d x out : fresh d -> reads fresh f x out -> fromBinaryArray f d out = Ok x.
Proof.
  intros Hd Hr. unfold fromBinaryArray. specialize (Hr d [] Hd). rewrite app_nil_r in Hr.
  by rewrite Hr.
Qed.

Lemma whole_roundtrip `{!RoundTrip fresh valid f} d x : fresh d -> valid x ->
  exists out, is_bytes out /\ toBinaryArray f x = Ok out /\ fromBinaryArray f d out = Ok x.
Proof.
  intros Hd Hx. destruct (roundtrip x Hx) as (out & Hb & Hw & Hr). exists out.
  eauto using toBinaryArray_writes, fromBinaryArray_reads.
Qed.

Lemma whole_canonical `{!Canonical fresh valid f} d b x : fresh d -> is_bytes b ->
  fromBinaryArray f d b = Ok x -> valid x /\ toBinaryArray f x = Ok b.
Proof.
  intros Hd Hb H. unfold fromBinaryArray in H. inv_ok. destruct v as [x' s].
  destruct (canonical _ _ _ _ Hd Hb Hok) as (Hv & out & rest & -> & -> & Hw).
  inv_ok. subst. unfold endOfStream in Hok0. apply bool_decide_eq_true in Hok0 as ->.
  rewrite app_nil_r. split; [done|]. by apply toBinaryArray_writes.
Qed.
End whole.

(** *** The primitive calls *)

#[export] Instance op_uint_roundtrip w : varint_width w -> RoundTrip any (in_width w) (op_uint w).
Proof.
  intros Hw x Hx. exists (writeVarint x). split; [apply writeVarint_is_bytes, Hx|].
  split; [done|]. intros d rest _. simpl. unfold in_uint. by rewrite readVarint_writeVarint.
Qed.

#[export] Instance op_uint_canonical w : varint_width w -> Canonical any (in_width w) (op_uint w).
Proof.
  intros Hw d inp x s _ Hb H. simpl in H. unfold reading, in_uint in H. inv_ok. destruct v as [y st].
  inv_ok. simplify_eq. apply readVarint_inv in Hok as [Hx ->]; [|done|done].
  split; [done|]. by exists (writeVarint x), st.
Qed.

Lemma vw8 : varint_width 8. Proof. by left. Qed.
Lemma vw16 : varint_width 16. Proof. right; by left. Qed.
Lemma vw32 : varint_width 32. Proof. do 2 right; by left. Qed.
Lemma vw64 : varint_width 64. Proof. do 3 right; done. Qed.
#[export] Hint Resolve vw8 vw16 vw32 vw64 : typeclass_instances ser.

#[export] Instance beginArray_roundtrip : RoundTrip any (in_width 64) beginArray.
Proof. exact (op_uint_roundtrip 64 vw64). Qed.
#[export] Instance beginArray_canonical : Canonical any (in_width 64) beginArray.
Proof. exact (op_uint_canonical 64 vw64). Qed.

#[export] Instance binary_roundtrip n : RoundTrip any (pod n) (binary n).
Proof.
  intros x [Hb Hl]. exists x. split; [done|]. split; [done|]. intros d rest _.
  simpl. unfold in_binary. rewrite <- Hl, read_app. done.
Qed.

#[export] Instance binary_canonical n : Canonical any (pod n) (binary n).
Proof.
  intros d inp x s _ Hb H. simpl in H. unfold reading, in_binary in H. inv_ok. destruct v as [y st].
  inv_ok. simplify_eq. apply read_inv in Hok as [-> Hl]; [|lia].
  split; [|by exists x, st]. split; [|lia]. by apply Forall_app in Hb as [??].
Qed.

(** *** Strings and byte vectors *)

Definition valid_string (l : bytes) : Prop := is_bytes l /\ small_list l.

Lemma in_string_app name x rest : name <> "mm_tag"%string -> valid_string x ->
  in_string name (writeVarint (Z.of_nat (length x)) ++ x ++ rest) = Ok (x, rest).
Proof.
  intros Hn [Hb Hs]. unfold in_string.
  rewrite (readVarint_writeVarint 64 _ _ vw64) by (split; [lia|exact Hs]).
  okbind. rewrite bool_decide_eq_false_2 by done. rewrite andb_false_r.
  destruct (Z.ltb_spec 0 (Z.of_nat (length x))); [apply read_app|].
  destruct x; [done|simpl in *; lia].
Qed.

Lemma in_string_inv name st x rest : name <> "mm_tag"%string -> is_bytes st ->
  in_string name st = Ok (x, rest) ->
  valid_string x /\ st = writeVarint (Z.of_nat (length x)) ++ x ++ rest.
Proof.
  intros Hn Hb H. unfold in_string in H. inv_ok. destruct v as [size st'].
  apply readVarint_inv in Hok as [[Hs1 Hs2] ->]; [|auto with ser|done].
  rewrite bool_decide_eq_false_2, andb_false_r in H by done.
  apply Forall_app in Hb as [_ Hb]. destruct (Z.ltb_spec 0 size).
  - apply read_inv in H as [-> Hl]; [|lia]. apply Forall_app in Hb as [Hx _].
    rewrite Hl. unfold valid_string, small_list. rewrite Hl. done.
  - inv_ok. simplify_eq. replace size with 0 by lia. by repeat constructor.
Qed.

Lemma writeVarint_bytes v : 0 <= v -> is_bytes (writeVarint v).
Proof. apply writeVarint_is_bytes. Qed.
#[export] Hint Resolve writeVarint_bytes : ser.

#[export] Instance serializeAsBinary_roundtrip name : name <> "mm_tag"%string ->
  RoundTrip any valid_string (serializeAsBinary name).
Proof.
  intros Hn x Hx. exists (writeVarint (Z.of_nat (length x)) ++ x). split; [|split].
  - apply Forall_app. split; [apply writeVarint_bytes; lia|apply Hx].
  - intros pre. unfold serializeAsBinary. cbn -[writeVarint]. unfold out_string.
    by rewrite <- app_assoc.
  - intros d rest _. unfold serializeAsBinary. cbn -[writeVarint in_string app].
    unfold reading. rewrite <- app_assoc, in_string_app by done. done.
Qed.

#[export] Instance serializeAsBinary_canonical name : name <> "mm_tag"%string ->
  Canonical any valid_string (serializeAsBinary name).
Proof.
  intros Hn d inp x s _ Hb H. unfold serializeAsBinary in H. cbn -[in_string] in H.
  unfold reading in H. inv_ok. destruct v as [x' s'], v0 as [x'' st]. inv_ok.
  simplify_eq. apply in_string_inv in Hok0 as [Hx ->]; [|done|done]. split; [done|].
  exists (writeVarint (Z.of_nat (length x)) ++ x), st. split; [done|]. rewrite <- app_assoc.
  split; [done|]. intros pre. unfold serializeAsBinary. cbn -[writeVarint]. unfold out_string.
  by rewrite <- app_assoc.
Qed.

(** *** Containers *)

Lemma resize_all' {A} (x : A) l n : n = length l -> resize n x l = l.
Proof. intros ->. apply resize_all. Qed.

Section containers.
Context {A : Type} (valid : A -> Prop) (f : ser A) (new : A).
Context `{!RoundTrip any valid f} `{!Canonical any valid f}.

Lemma items_roundtrip l : Forall valid l -> exists out, is_bytes out /\
  (forall pre, serialize_items f l (OUTPUT pre) = Ok (l, OUTPUT (pre ++ out))) /\
  (forall ds rest, length ds = length l ->
    serialize_items f ds (INPUT (out ++ rest)) = Ok (l, INPUT rest)).
Proof using RoundTrip0.
  induction 1 as [|x l Hx Hl IH].
  - exists []. split; [constructor|]. split; [intros pre; by rewrite app_nil_r|].
    intros [|d ds] rest Hd; [done|discriminate].
  - destruct (roundtrip (f := f) x Hx) as (o1 & Hb1 & Hw1 & Hr1).
    destruct IH as (o2 & Hb2 & Hw2 & Hr2). exists (o1 ++ o2). split; [by apply Forall_app|]. split.
    + intros pre. cbn [serialize_items]. rewrite Hw1. okbind. rewrite Hw2. okbind.
      by rewrite <- app_assoc.
    + intros [|d ds] rest Hd; [discriminate|]. cbn [serialize_items].
      rewrite <- app_assoc, Hr1 by done. okbind. rewrite Hr2 by (simpl in Hd; lia). done.
Qed.

Lemma items_canonical ds inp l s : is_bytes inp -> serialize_items f ds (INPUT inp) = Ok (l, s) ->
  Forall valid l /\ length l = length ds /\ exists out rest, s = INPUT rest /\ inp = out ++ rest /\
  (forall pre, serialize_items f l (OUTPUT pre) = Ok (l, OUTPUT (pre ++ out))).
Proof using Canonical0.
  revert inp l s. induction ds as [|d ds IH]; intros inp l s Hb H; cbn [serialize_items] in H.
  - inv_ok. simplify_eq. split; [constructor|]. split; [done|]. exists [], inp.
    split; [done|]. split; [done|]. intros pre. by rewrite app_nil_r.
  - inv_ok. destruct v as [x s1]. inv_ok. destruct v as [l' s2]. inv_ok. simplify_eq.
    destruct (canonical d inp x s1 I Hb Hok) as (Hx & o1 & r1 & -> & -> & Hw1).
    pose proof Hb as Hb1. apply Forall_app in Hb1 as [_ Hb1].
    destruct (IH _ _ _ Hb1 Hok0) as (Hl & Hlen & o2 & r2 & -> & -> & Hw2).
    split; [by constructor|]. split; [simpl; lia|]. exists (o1 ++ o2), r2. rewrite <- app_assoc.
    split; [done|]. split; [done|]. intros pre. cbn [serialize_items]. rewrite Hw1. okbind.
    rewrite Hw2. okbind. by rewrite <- app_assoc.
Qed.

#[export] Instance serializeContainer_roundtrip :
  RoundTrip any (fun l => Forall valid l /\ small_list l) (serializeContainer new f).
Proof using RoundTrip0.
  intros l [Hl Hs]. destruct (items_roundtrip l Hl) as (o & Hb & Hw & Hr).
  assert (Hn : is_u64 (Z.of_nat (length l))) by (unfold in_width; split; [lia|exact Hs]).
  destruct (roundtrip (f := beginArray) _ Hn) as (o0 & Hb0 & Hw0 & Hr0).
  exists (o0 ++ o). split; [by apply Forall_app|]. split.
  - intros pre. unfold serializeContainer. rewrite Hw0. okbind. rewrite resize_all' by lia.
    by rewrite Hw, app_assoc.
  - intros d rest _. unfold serializeContainer. rewrite <- app_assoc, Hr0 by done. okbind.
    apply Hr. rewrite length_resize. lia.
Qed.

#[export] Instance serializeContainer_canonical :
  Canonical any (fun l => Forall valid l /\ small_list l) (serializeContainer new f).
Proof using Canonical0.
  intros d inp l s _ Hb H. unfold serializeContainer in H. inv_ok. destruct v as [size s0].
  destruct (canonical (f := beginArray) _ _ _ _ I Hb Hok) as (Hn & o0 & r0 & -> & -> & Hw0).
  pose proof Hb as Hb1. apply Forall_app in Hb1 as [_ Hb1].
  destruct (items_canonical _ _ _ _ Hb1 H) as (Hl & Hlen & o & rest & -> & -> & Hw).
  rewrite length_resize in Hlen. assert (E : Z.of_nat (length l) = size) by (unfold in_width in Hn; lia).
  split; [split; [done|]; unfold small_list, in_width in *; lia|].
  exists (o0 ++ o), rest. rewrite <- app_assoc. split; [done|]. split; [done|].
  intros pre. unfold serializeContainer. rewrite E, Hw0. okbind. rewrite resize_all' by lia.
  by rewrite Hw, app_assoc.
Qed.
End containers.

(** *** Records

    [ser_rt x] replaces the goal's next field by its bytes, [ser_write] and
    [ser_read] run a chain of calls whose bytes are known. *)
Ltac ser_field f x H := destruct (roundtrip (f := f) x H) as (? & ? & ? & ?).
Ltac ser_bytes := repeat (apply Forall_app; split); assumption.
Ltac ser_run_write :=
  repeat (match goal with H : writes ?f ?x _ |- context [?f ?x (OUTPUT _)] => rewrite (H _) end; okbind).
Ltac ser_write := intros pre; ser_run_write; rewrite <- ?app_assoc; done.
Ltac ser_run_read :=
  rewrite <- ?app_assoc;
  repeat (match goal with H : reads _ ?f _ _ |- context [?f _ (INPUT _)] => rewrite H by done end; okbind).
Ltac ser_read := ser_run_read; done.

(** [ser_inv] takes a successful chain of reads apart, one field at a time. *)
Ltac ser_step :=
  match goal with
  | Hb : is_bytes ?inp, H : ?f ?d (INPUT ?inp) = Ok ?p |- _ =>
      let Hv := fresh "Hv" in let o := fresh "o" in let r := fresh "r" in let Hw := fresh "Hw" in
      let E := fresh "E" in let x := fresh "x" in let s := fresh "s" in
      first [is_var p; destruct p as [x s] | idtac];
      destruct (canonical (f := f) d inp _ _ I Hb H) as (Hv & o & r & -> & E & Hw); clear H;
      subst inp; apply Forall_app in Hb as [_ Hb]; change (is_bytes r) in Hb
  end.
Ltac ser_inv := inv_ok; repeat (ser_step; inv_ok); simplify_eq.
(** The bytes consumed are [out] followed by what is left. *)
Ltac ser_consumed out :=
  exists out; eexists; split; [reflexivity|]; split; [by rewrite <- ?app_assoc|].
