(* ===== verification/TxSerialization.v ===== *)
(** * TxSerialization: transactions and addresses in [serialization/CryptoNoteSerialization.cpp]

    Each definition is one [serialize] overload, run in both directions. *)

From Stdlib Require Import ZArith Lia.
From stdpp Require Import base tactics list numbers strings.
From S2P Require Import Prelude Config Stream Types Serializer.

Local Open Scope Z_scope.

Definition getSignaturesCount (i : TransactionInput) : nat :=
  match i with
  | InBase _ => 0
  | InKey i => length (outputIndexes i)
  end.

(** [BinaryVariantTagGetter]. *)
Definition input_tag (i : TransactionInput) : Z :=
  match i with InBase _ => 0xff | InKey _ => 0x2 end.
Definition target_tag (t : TransactionOutputTarget) : Z :=
  match t with TargetKey _ => 0x2 end.

Definition serializeVarintVector : ser (list Z) := fun vector s =>
  '(size, s) ← beginArray (Z.of_nat (length vector)) s;
  serialize_items (op_uint 32) (resize (Z.to_nat size) 0 vector) s.

Definition serialize_BaseInput : ser BaseInput := fun gen s =>
  '(h, s) ← op_uint 32 (blockIndex gen) s; Ok ({| blockIndex := h |}, s).

Definition serialize_KeyInput : ser KeyInput := fun key s =>
  '(amount, s) ← op_uint 64 (ki_amount key) s;
  '(offsets, s) ← serializeVarintVector (outputIndexes key) s;
  '(image, s) ← binary 32 (keyImage key) s;
  Ok ({| ki_amount := amount; outputIndexes := offsets; keyImage := image |}, s).

(** [getVariantValue] for inputs: construct the alternative the tag names. *)
Definition getVariantValue_input (s : serializer) (tag : Z) : outcome (TransactionInput * serializer) :=
  if tag =? 0xff then '(v, s) ← serialize_BaseInput new_BaseInput s; Ok (InBase v, s)
  else if tag =? 0x2 then '(v, s) ← serialize_KeyInput new_KeyInput s; Ok (InKey v, s)
  else Throw "Unknown variant tag".

Definition serialize_TransactionInput : ser TransactionInput := fun i s =>
  if is_input s then
    '(tag, s) ← binary 1 [0] s;
    getVariantValue_input s (le_val tag)
  else
    '(_, s) ← binary 1 [input_tag i] s;
    match i with
    | InBase v => '(v, s) ← serialize_BaseInput v s; Ok (InBase v, s)
    | InKey v => '(v, s) ← serialize_KeyInput v s; Ok (InKey v, s)
    end.

Definition serialize_KeyOutput : ser KeyOutput := fun key s =>
  '(k, s) ← binary 32 (ko_key key) s; Ok ({| ko_key := k |}, s).

Definition getVariantValue_target (s : serializer) (tag : Z) : outcome (TransactionOutputTarget * serializer) :=
  if tag =? 0x2 then '(v, s) ← serialize_KeyOutput new_KeyOutput s; Ok (TargetKey v, s)
  else Throw "Unknown variant tag".

Definition serialize_TransactionOutputTarget : ser TransactionOutputTarget := fun t s =>
  if is_input s then
    '(tag, s) ← binary 1 [0] s;
    getVariantValue_target s (le_val tag)
  else
    '(_, s) ← binary 1 [target_tag t] s;
    match t with TargetKey v => '(v, s) ← serialize_KeyOutput v s; Ok (TargetKey v, s) end.

Definition serialize_TransactionOutput : ser TransactionOutput := fun o s =>
  '(amount, s) ← op_uint 64 (out_amount o) s;
  '(t, s) ← serialize_TransactionOutputTarget (target o) s;
  Ok ({| out_amount := amount; target := t |}, s).

Definition serialize_TransactionPrefix : ser TransactionPrefix := fun txP s =>
  '(ver, s) ← op_uint 8 (version txP) s;
  _ ← require (negb ((CURRENT_TRANSACTION_VERSION <? ver) && is_input s)) "Wrong transaction version";
  '(unlock, s) ← op_uint 64 (unlockTime txP) s;
  '(vin, s) ← serializeContainer (InBase new_BaseInput) serialize_TransactionInput (inputs txP) s;
  '(vout, s) ← serializeContainer new_TransactionOutput serialize_TransactionOutput (outputs txP) s;
  '(ext, s) ← serializeAsBinary "extra" (extra txP) s;
  Ok ({| version := ver; unlockTime := unlock; inputs := vin; outputs := vout; extra := ext |}, s).

(** [sigSize == 1 && tx.inputs[0].type() == typeid(BaseInput)]. *)
Definition is_base_inputs (l : list TransactionInput) : bool :=
  match l with [InBase _] => true | _ => false end.

(** The loop over [tx.inputs] and, in step, [tx.signatures]. *)
Fixpoint serialize_signatures (notExpected : bool) (ins : list TransactionInput)
    (sigs : list (list Signature)) (s : serializer) : outcome (list (list Signature) * serializer) :=
  match ins with
  | [] => Ok (sigs, s)
  | i :: ins =>
      let signatureSize := getSignaturesCount i in
      if notExpected then
        if (signatureSize =? 0)%nat then serialize_signatures notExpected ins sigs s
        else Throw "Serialization error: signatures are not expected"
      else
        match sigs with
        | [] => Undefined "vector index out of range"
        | sg :: sigs =>
            _ ← require (is_input s || (signatureSize =? length sg)%nat)
                  "Serialization error: unexpected signatures size";
            '(sg, s) ← serialize_items (binary 64)
              (if is_input s then replicate signatureSize (replicate 64 0) else sg) s;
            '(sigs, s) ← serialize_signatures notExpected ins sigs s;
            Ok (sg :: sigs, s)
        end
  end.

Definition serialize_Transaction : ser Transaction := fun tx s =>
  '(p, s) ← serialize_TransactionPrefix (tx_prefix tx) s;
  let sigs := if is_input s && negb (is_base_inputs (inputs p))
              then resize (length (inputs p)) [] (signatures tx) else signatures tx in
  let notExpected := bool_decide (sigs = []) in
  _ ← require (notExpected || (length (inputs p) =? length sigs)%nat)
        "Serialization error: unexpected signatures size";
  '(sigs, s) ← serialize_signatures notExpected (inputs p) sigs s;
  Ok ({| tx_prefix := p; signatures := sigs |}, s).

(** The base transaction of a parent block: no version limit, and one more
    number that is read and dropped, or written as zero, from version 2 on. *)
Definition serialize_BaseTransaction : ser BaseTransaction := fun tx s =>
  '(ver, s) ← op_uint 8 (version tx) s;
  '(unlock, s) ← op_uint 64 (unlockTime tx) s;
  '(vin, s) ← serializeContainer (InBase new_BaseInput) serialize_TransactionInput (inputs tx) s;
  '(vout, s) ← serializeContainer new_TransactionOutput serialize_TransactionOutput (outputs tx) s;
  '(ext, s) ← serializeAsBinary "extra" (extra tx) s;
  '(_, s) ← (if TRANSACTION_VERSION_2 <=? ver then op_uint 64 0 s else Ok (0, s));
  Ok ({| version := ver; unlockTime := unlock; inputs := vin; outputs := vout; extra := ext |}, s).

Definition serialize_AccountPublicAddress : ser AccountPublicAddress := fun a s =>
  '(spend, s) ← binary 32 (spendPublicKey a) s;
  '(view, s) ← binary 32 (viewPublicKey a) s;
  Ok ({| spendPublicKey := spend; viewPublicKey := view |}, s).

Definition serialize_AccountKeys : ser AccountKeys := fun k s =>
  '(a, s) ← serialize_AccountPublicAddress (address k) s;
  '(spend, s) ← binary 32 (spendSecretKey k) s;
  '(view, s) ← binary 32 (viewSecretKey k) s;
  Ok ({| address := a; spendSecretKey := spend; viewSecretKey := view |}, s).

Definition serialize_KeyPair : ser KeyPair := fun k s =>
  '(sec, s) ← binary 32 (secretKey k) s;
  '(pub, s) ← binary 32 (publicKey k) s;
  Ok ({| publicKey := pub; secretKey := sec |}, s).

(** A length-prefixed block and a doubly counted list of length-prefixed
    transactions: [tx_count] is read, then [beginArray] reads a second count
    that is ignored. *)
Definition serialize_blob : ser bytes := fun blob s =>
  '(size, s) ← op_uint 64 (Z.of_nat (length blob)) s;
  let blob := if is_input s then resize (Z.to_nat size) 0 blob else blob in
  binary (length blob) blob s.

Definition serialize_RawBlock : ser RawBlock := fun r s =>
  '(blk, s) ← serialize_blob (block r) s;
  '(txCount, s) ← op_uint 64 (Z.of_nat (length (transactions r))) s;
  let txs := if is_input s then resize (Z.to_nat txCount) [] (transactions r) else transactions r in
  '(_, s) ← beginArray txCount s;
  '(txs, s) ← serialize_items serialize_blob txs s;
  Ok ({| block := blk; transactions := txs |}, s).

(** ** Round trips and canonicity, type by type *)

#[export] Instance varintVector_roundtrip :
  RoundTrip any (fun l => Forall (in_width 32) l /\ small_list l) serializeVarintVector.
Proof. exact (serializeContainer_roundtrip _ (op_uint 32) 0). Qed.
#[export] Instance varintVector_canonical :
  Canonical any (fun l => Forall (in_width 32) l /\ small_list l) serializeVarintVector.
Proof. exact (serializeContainer_canonical _ (op_uint 32) 0). Qed.

#[export] Instance BaseInput_roundtrip : RoundTrip any (fun i => is_u32 (blockIndex i)) serialize_BaseInput.
Proof.
  intros [h] H. simpl in H. ser_field (op_uint 32) h H. exists x. split; [done|]. unfold serialize_BaseInput.
  split; [ser_write|intros d rest _; ser_read].
Qed.
#[export] Instance BaseInput_canonical : Canonical any (fun i => is_u32 (blockIndex i)) serialize_BaseInput.
Proof.
  intros d inp x s _ Hb H. unfold serialize_BaseInput in H. inv_ok. ser_step. inv_ok. simplify_eq.
  split; [done|]. eexists _, _. split; [done|]. split; [done|]. unfold serialize_BaseInput. ser_write.
Qed.

#[export] Instance KeyInput_roundtrip : RoundTrip any wf_KeyInput serialize_KeyInput.
Proof.
  intros [a l k] (Ha & Hl & Hs & Hk). simpl in *.
  ser_field (op_uint 64) a Ha. ser_field serializeVarintVector l (conj Hl Hs). ser_field (binary 32) k Hk.
  exists (x ++ x0 ++ x1). split; [ser_bytes|]. unfold serialize_KeyInput. simpl.
  split; [ser_write|intros d rest _; ser_read].
Qed.
#[export] Instance KeyInput_canonical : Canonical any wf_KeyInput serialize_KeyInput.
Proof.
  intros d inp x s _ Hb H. unfold serialize_KeyInput in H. ser_inv.
  destruct Hv0 as [? ?]. split; [done|]. ser_consumed (o ++ o0 ++ o1).
  unfold serialize_KeyInput. simpl. ser_write.
Qed.

(** A one-byte tag. *)
Lemma tag_pod t : is_u8 t -> pod 1 [t].
Proof. split; [by constructor|done]. Qed.
Lemma pod1_inv l : pod 1 l -> exists t, l = [t] /\ is_u8 t.
Proof. intros [Hb Hl]. destruct l as [|t [|]]; try discriminate. exists t. by apply Forall_cons in Hb as [? _]. Qed.
Lemma tag_le t : le_val [t] = t.
Proof. simpl. lia. Qed.

#[export] Instance TransactionInput_roundtrip : RoundTrip any wf_input serialize_TransactionInput.
Proof.
  intros i Hi. ser_field (binary 1) [input_tag i] (tag_pod (input_tag i) ltac:(by destruct i)).
  destruct i as [i|i]; simpl in Hi.
  - ser_field serialize_BaseInput i Hi. exists (x ++ x0). split; [ser_bytes|].
    unfold serialize_TransactionInput. split; [ser_write|]. intros d rest _. cbn [is_input].
    rewrite <- app_assoc, H1 by done. okbind. rewrite tag_le. unfold getVariantValue_input. cbn [input_tag Z.eqb].
    ser_read.
  - ser_field serialize_KeyInput i Hi. exists (x ++ x0). split; [ser_bytes|].
    unfold serialize_TransactionInput. split; [ser_write|]. intros d rest _. cbn [is_input].
    rewrite <- app_assoc, H1 by done. okbind. rewrite tag_le. unfold getVariantValue_input. cbn [input_tag Z.eqb].
    ser_read.
Qed.

#[export] Instance TransactionInput_canonical : Canonical any wf_input serialize_TransactionInput.
Proof.
  intros d inp x s _ Hb H. unfold serialize_TransactionInput in H. cbn [is_input] in H. inv_ok. ser_step.
  apply pod1_inv in Hv as (t & -> & Ht). rewrite tag_le in H. unfold getVariantValue_input in H.
  destruct (Z.eqb_spec t 0xff) as [E|]; [|destruct (Z.eqb_spec t 0x2) as [E|]; [|done]]; rewrite E in Hw;
    ser_inv; (split; [done|]); ser_consumed (o ++ o0);
    unfold serialize_TransactionInput; cbn [is_input input_tag]; ser_write.
Qed.

#[export] Instance KeyOutput_roundtrip : RoundTrip any (fun k => pod 32 (ko_key k)) serialize_KeyOutput.
Proof.
  intros [k] Hk. simpl in Hk. ser_field (binary 32) k Hk. exists x. split; [done|].
  unfold serialize_KeyOutput. split; [ser_write|intros d rest _; ser_read].
Qed.
#[export] Instance KeyOutput_canonical : Canonical any (fun k => pod 32 (ko_key k)) serialize_KeyOutput.
Proof.
  intros d inp x s _ Hb H. unfold serialize_KeyOutput in H. ser_inv. split; [done|].
  ser_consumed o. unfold serialize_KeyOutput. simpl. ser_write.
Qed.

#[export] Instance Target_roundtrip : RoundTrip any wf_target serialize_TransactionOutputTarget.
Proof.
  intros [k] Hk. ser_field (binary 1) [2] (tag_pod 2 ltac:(done)). ser_field serialize_KeyOutput k Hk.
  exists (x ++ x0). split; [ser_bytes|]. unfold serialize_TransactionOutputTarget.
  split; [ser_write|]. intros d rest _. cbn [is_input]. rewrite <- app_assoc, H1 by done. okbind.
  rewrite tag_le. unfold getVariantValue_target. cbn [Z.eqb Pos.eqb]. ser_read.
Qed.
#[export] Instance Target_canonical : Canonical any wf_target serialize_TransactionOutputTarget.
Proof.
  intros d inp x s _ Hb H. unfold serialize_TransactionOutputTarget in H. cbn [is_input] in H. inv_ok. ser_step.
  apply pod1_inv in Hv as (t & -> & Ht). rewrite tag_le in H. unfold getVariantValue_target in H.
  destruct (Z.eqb_spec t 0x2) as [E|]; [|done]. rewrite E in Hw. ser_inv. split; [done|]. ser_consumed (o ++ o0).
  unfold serialize_TransactionOutputTarget. cbn [is_input target_tag]. ser_write.
Qed.

#[export] Instance TransactionOutput_roundtrip : RoundTrip any wf_output serialize_TransactionOutput.
Proof.
  intros [a t] [Ha Ht]. simpl in *. ser_field (op_uint 64) a Ha.
  ser_field serialize_TransactionOutputTarget t Ht. exists (x ++ x0). split; [ser_bytes|].
  unfold serialize_TransactionOutput. simpl. split; [ser_write|intros d rest _; ser_read].
Qed.
#[export] Instance TransactionOutput_canonical : Canonical any wf_output serialize_TransactionOutput.
Proof.
  intros d inp x s _ Hb H. unfold serialize_TransactionOutput in H. ser_inv. split; [done|].
  ser_consumed (o ++ o0). unfold serialize_TransactionOutput. simpl. ser_write.
Qed.

(** ** Transactions *)

Definition valid_prefix (t : TransactionPrefix) : Prop :=
  wf_prefix t /\ version t <= CURRENT_TRANSACTION_VERSION.

#[export] Instance inputs_roundtrip : RoundTrip any (fun l => Forall wf_input l /\ small_list l)
  (serializeContainer (InBase new_BaseInput) serialize_TransactionInput) := serializeContainer_roundtrip _ _ _.
#[export] Instance inputs_canonical : Canonical any (fun l => Forall wf_input l /\ small_list l)
  (serializeContainer (InBase new_BaseInput) serialize_TransactionInput) := serializeContainer_canonical _ _ _.
#[export] Instance outputs_roundtrip : RoundTrip any (fun l => Forall wf_output l /\ small_list l)
  (serializeContainer new_TransactionOutput serialize_TransactionOutput) := serializeContainer_roundtrip _ _ _.
#[export] Instance outputs_canonical : Canonical any (fun l => Forall wf_output l /\ small_list l)
  (serializeContainer new_TransactionOutput serialize_TransactionOutput) := serializeContainer_canonical _ _ _.
#[export] Instance extra_roundtrip : RoundTrip any valid_string (serializeAsBinary "extra").
Proof. by apply serializeAsBinary_roundtrip. Qed.
#[export] Instance extra_canonical : Canonical any valid_string (serializeAsBinary "extra").
Proof. by apply serializeAsBinary_canonical. Qed.

#[export] Instance TransactionPrefix_roundtrip : RoundTrip any valid_prefix serialize_TransactionPrefix.
Proof.
  intros [v u i o e] [(Hv & Hu & Hi & Ho & He) Hver]. simpl in *.
  ser_field (op_uint 8) v Hv. ser_field (op_uint 64) u Hu.
  ser_field (serializeContainer (InBase new_BaseInput) serialize_TransactionInput) i Hi.
  ser_field (serializeContainer new_TransactionOutput serialize_TransactionOutput) o Ho.
  ser_field (serializeAsBinary "extra") e He.
  exists (x ++ x0 ++ x1 ++ x2 ++ x3). split; [ser_bytes|].
  assert (E : (CURRENT_TRANSACTION_VERSION <? v) = false) by (apply Z.ltb_ge; lia).
  unfold serialize_TransactionPrefix. split.
  - intros pre. cbn [version unlockTime inputs outputs extra]. rewrite (H0 pre). okbind. rewrite E. okbind. revert pre. ser_write.
  - intros d rest _. rewrite <- app_assoc, H1 by done. okbind. rewrite E. okbind. ser_read.
Qed.

#[export] Instance TransactionPrefix_canonical : Canonical any valid_prefix serialize_TransactionPrefix.
Proof.
  intros d inp x s _ Hb H. unfold serialize_TransactionPrefix in H. ser_inv.
  cbn [is_input] in Hok. rewrite andb_true_r in Hok. apply negb_true_iff in Hok.
  split; [by split; [|apply Z.ltb_ge]|]. ser_consumed (o ++ o0 ++ o1 ++ o2 ++ o3).
  unfold serialize_TransactionPrefix.
  intros pre. cbn [version unlockTime inputs outputs extra]. rewrite (Hw pre). okbind. rewrite Hok. okbind. revert pre. ser_write.
Qed.

(** The signatures a parsed transaction has: none for a base transaction,
    otherwise one per ring member of each input. *)
Definition sigs_of_input (i : TransactionInput) (sg : list Signature) : Prop :=
  length sg = getSignaturesCount i /\ Forall (pod 64) sg.
Definition valid_tx (t : Transaction) : Prop :=
  valid_prefix (tx_prefix t) /\
  if is_base_inputs (inputs (tx_prefix t)) then signatures t = []
  else Forall2 sigs_of_input (inputs (tx_prefix t)) (signatures t).

Lemma signatures_roundtrip ins sigs : Forall2 sigs_of_input ins sigs -> exists out, is_bytes out /\
  (forall pre, serialize_signatures false ins sigs (OUTPUT pre) = Ok (sigs, OUTPUT (pre ++ out))) /\
  (forall ds rest, length ds = length ins ->
    serialize_signatures false ins ds (INPUT (out ++ rest)) = Ok (sigs, INPUT rest)).
Proof.
  induction 1 as [|i sg ins sigs [Hl Hp] _ IH].
  - exists []. split; [constructor|]. split; [intros pre; by rewrite app_nil_r|].
    intros [|] rest Hd; [done|discriminate].
  - destruct (items_roundtrip _ (binary 64) sg Hp) as (o1 & Hb1 & Hw1 & Hr1).
    destruct IH as (o2 & Hb2 & Hw2 & Hr2). exists (o1 ++ o2). split; [ser_bytes|]. split.
    + intros pre. cbn [serialize_signatures is_input]. rewrite (proj2 (Nat.eqb_eq _ _)) by done. okbind.
      rewrite Hw1. okbind. rewrite Hw2. okbind. by rewrite <- app_assoc.
    + intros [|d ds] rest Hd; [discriminate|]. cbn [serialize_signatures is_input]. okbind.
      rewrite <- app_assoc, Hr1 by (rewrite length_replicate; lia). okbind.
      rewrite Hr2 by (simpl in Hd; lia). done.
Qed.

Lemma signatures_canonical ins ds inp sigs s : is_bytes inp -> length ds = length ins ->
  serialize_signatures false ins ds (INPUT inp) = Ok (sigs, s) ->
  Forall2 sigs_of_input ins sigs /\ exists out rest, s = INPUT rest /\ inp = out ++ rest /\
  (forall pre, serialize_signatures false ins sigs (OUTPUT pre) = Ok (sigs, OUTPUT (pre ++ out))).
Proof.
  revert ds inp sigs s. induction ins as [|i ins IH]; intros ds inp sigs s Hb Hd H; cbn [serialize_signatures] in H.
  - destruct ds; [|discriminate]. inv_ok. simplify_eq. split; [constructor|]. exists [], inp.
    split; [done|]. split; [done|]. intros pre. by rewrite app_nil_r.
  - destruct ds as [|d ds]; [done|]. cbn [is_input] in H. inv_ok. destruct v0 as [sg s1].
    inv_ok. destruct v as [sigs' s2]. inv_ok. simplify_eq.
    destruct (items_canonical _ (binary 64) _ _ _ _ Hb Hok0) as (Hp & Hl & o1 & r1 & -> & -> & Hw1).
    rewrite length_replicate in Hl.
    pose proof Hb as Hb1. apply Forall_app in Hb1 as [_ Hb1]. simpl in Hd.
    destruct (IH ds r1 _ _ Hb1 ltac:(lia) Hok1) as (HF & o2 & r2 & -> & -> & Hw2).
    split; [by constructor|]. exists (o1 ++ o2), r2. rewrite <- app_assoc. split; [done|]. split; [done|].
    intros pre. cbn [serialize_signatures is_input]. rewrite (proj2 (Nat.eqb_eq _ _)) by done. okbind.
    rewrite Hw1. okbind. rewrite Hw2. okbind. by rewrite <- app_assoc.
Qed.

(** An object whose signature vector is still empty, as a new [Transaction] is:
    reading a base transaction leaves the vector as it was. *)
Definition unsigned (t : Transaction) : Prop := signatures t = [].

Lemma is_base_inv l : is_base_inputs l = true -> exists i, l = [InBase i].
Proof. destruct l as [|[i|i] [|]]; try done. by exists i. Qed.

Lemma nonbase_sigs (ins : list TransactionInput) (sigs : list (list Signature)) : length ins = length sigs ->
  bool_decide (sigs = []) = bool_decide (ins = []) /\
  (bool_decide (sigs = []) || (length ins =? length sigs)%nat) = true.
Proof.
  intros H. split; [destruct ins, sigs; done|]. apply orb_true_iff. right. by apply Nat.eqb_eq.
Qed.

Lemma signatures_nil_loop b ins (sigs : list (list Signature)) s : ins = [] ->
  serialize_signatures b ins sigs s = Ok (sigs, s).
Proof. by intros ->. Qed.

Lemma signatures_writes p sigs out :
  (forall pre, serialize_signatures false (inputs p) sigs (OUTPUT pre) = Ok (sigs, OUTPUT (pre ++ out))) ->
  length (inputs p) = length sigs ->
  forall pre, serialize_signatures (bool_decide (sigs = [])) (inputs p) sigs (OUTPUT pre)
              = Ok (sigs, OUTPUT (pre ++ out)).
Proof.
  intros Hw Hl pre. rewrite <- Hw. destruct (nonbase_sigs _ _ Hl) as [-> _].
  destruct (decide (inputs p = [])) as [E|E]; [by rewrite E|by rewrite bool_decide_eq_false_2].
Qed.

Lemma Transaction_writes p sigs o1 o2 :
  writes serialize_TransactionPrefix p o1 -> length (inputs p) = length sigs ->
  (forall pre, serialize_signatures false (inputs p) sigs (OUTPUT pre) = Ok (sigs, OUTPUT (pre ++ o2))) ->
  writes serialize_Transaction {| tx_prefix := p; signatures := sigs |} (o1 ++ o2).
Proof.
  intros H1 Hl H2 pre. unfold serialize_Transaction. cbn [tx_prefix signatures]. rewrite (H1 pre). okbind.
  cbn [is_input]. okbind. destruct (nonbase_sigs _ _ Hl) as [_ ->]. okbind.
  rewrite signatures_writes with (out := o2) by done. okbind. by rewrite app_assoc.
Qed.

Lemma base_writes p i o1 : writes serialize_TransactionPrefix p o1 -> inputs p = [InBase i] ->
  writes serialize_Transaction {| tx_prefix := p; signatures := [] |} o1.
Proof.
  intros H1 E pre. unfold serialize_Transaction. cbn [tx_prefix signatures]. rewrite (H1 pre). okbind.
  by rewrite E.
Qed.

#[export] Instance Transaction_roundtrip : RoundTrip unsigned valid_tx serialize_Transaction.
Proof.
  intros [p sigs] [Hp Hs]. simpl in *. ser_field serialize_TransactionPrefix p Hp.
  destruct (is_base_inputs (inputs p)) eqn:Eb.
  - subst sigs. pose proof (is_base_inv _ Eb) as [i Ei]. exists x. split; [done|].
    split; [by eapply base_writes|]. intros d rest Hd. unfold serialize_Transaction.
    rewrite H1 by done. okbind. rewrite Eb, Hd, andb_false_r, Ei. done.
  - pose proof (Forall2_length _ _ _ Hs) as Hl.
    destruct (signatures_roundtrip _ _ Hs) as (o2 & Hb2 & Hw2 & Hr2).
    exists (x ++ o2). split; [ser_bytes|]. split; [by apply Transaction_writes|].
    intros d rest Hd. unfold serialize_Transaction. rewrite <- app_assoc, H1 by done. okbind.
    rewrite Eb, Hd. cbn [is_input andb negb]. cbn zeta.
    assert (Hlr : length (inputs p) = length (resize (length (inputs p)) [] ([] : list (list Signature))))
      by by rewrite length_resize.
    destruct (nonbase_sigs _ _ Hlr) as [-> ->]. okbind.
    destruct (decide (inputs p = [])) as [E|E].
    + rewrite E in *. cbn [serialize_signatures]. okbind. destruct sigs; [|discriminate].
      specialize (Hr2 [] rest eq_refl). injection Hr2 as Hr2. by rewrite Hr2.
    + rewrite bool_decide_eq_false_2 by done. rewrite Hr2 by done. done.
Qed.

#[export] Instance Transaction_canonical : Canonical unsigned valid_tx serialize_Transaction.
Proof.
  intros d inp x s Hd Hb H. unfold serialize_Transaction in H. inv_ok. ser_step. rewrite Hd in H.
  cbn [is_input andb] in H. cbn zeta in H. inv_ok. destruct v0 as [sigs s']. inv_ok. simplify_eq.
  destruct (is_base_inputs (inputs x0)) eqn:Eb; cbn [negb] in *.
  - pose proof (is_base_inv _ Eb) as [i Ei]. rewrite Ei in Hok0. cbn in Hok0. simplify_eq.
    split; [split; [done|]; cbn [tx_prefix signatures]; by rewrite Eb|]. ser_consumed o. by eapply base_writes.
  - assert (Hlr : length (inputs x0) = length (resize (length (inputs x0)) [] ([] : list (list Signature))))
      by by rewrite length_resize.
    destruct (nonbase_sigs _ _ Hlr) as [Eq _]. rewrite Eq in Hok0.
    destruct (decide (inputs x0 = [])) as [E|E].
    + rewrite E in Hok0. cbn in Hok0. simplify_eq.
      split; [split; [done|]; cbn [tx_prefix signatures]; rewrite E; constructor|].
      ser_consumed (o ++ []). apply Transaction_writes; [done|by rewrite E|].
      intros pre. by rewrite E, app_nil_r.
    + rewrite bool_decide_eq_false_2 in Hok0 by done.
      apply signatures_canonical in Hok0 as (HF & o2 & r2 & -> & -> & Hw2); [|done|by rewrite <- Hlr].
      split; [split; [done|]; cbn [tx_prefix signatures]; by rewrite Eb|].
      ser_consumed (o ++ o2). apply Transaction_writes; [done| |done]. by eapply Forall2_length.
Qed.

(** ** Other records *)

#[export] Instance Address_roundtrip :
  RoundTrip any (fun a => pod 32 (spendPublicKey a) /\ pod 32 (viewPublicKey a)) serialize_AccountPublicAddress.
Proof.
  intros [a b] [Ha Hb]. simpl in *. ser_field (binary 32) a Ha. ser_field (binary 32) b Hb.
  exists (x ++ x0). split; [ser_bytes|]. unfold serialize_AccountPublicAddress. simpl.
  split; [ser_write|intros d rest _; ser_read].
Qed.
#[export] Instance Address_canonical :
  Canonical any (fun a => pod 32 (spendPublicKey a) /\ pod 32 (viewPublicKey a)) serialize_AccountPublicAddress.
Proof.
  intros d inp x s _ Hb H. unfold serialize_AccountPublicAddress in H. ser_inv. split; [done|].
  ser_consumed (o ++ o0). unfold serialize_AccountPublicAddress. simpl. ser_write.
Qed.

#[export] Instance blob_roundtrip : RoundTrip any valid_string serialize_blob.
Proof.
  intros x [Hb Hs]. assert (Hn : is_u64 (Z.of_nat (length x))) by (split; [lia|exact Hs]).
  ser_field (op_uint 64) (Z.of_nat (length x)) Hn. exists (x0 ++ x). split; [ser_bytes|].
  unfold serialize_blob. split.
  - intros pre. rewrite (H0 pre). okbind. cbn [is_input]. simpl. unfold out_binary. by rewrite app_assoc.
  - intros d rest _. rewrite <- app_assoc, H1 by done. okbind. cbn [is_input]. rewrite length_resize, Nat2Z.id.
    simpl. unfold in_binary. by rewrite read_app.
Qed.

#[export] Instance RawBlock_roundtrip : RoundTrip any (fun r => valid_string (block r) /\
  Forall valid_string (transactions r) /\ small_list (transactions r)) serialize_RawBlock.
Proof.
  intros [b t] (Hb & Ht & Hs). simpl in *.
  assert (Hn : is_u64 (Z.of_nat (length t))) by (split; [lia|exact Hs]).
  ser_field serialize_blob b Hb. ser_field (op_uint 64) (Z.of_nat (length t)) Hn.
  ser_field beginArray (Z.of_nat (length t)) Hn.
  destruct (items_roundtrip _ serialize_blob t Ht) as (o & Hbo & Hwo & Hro).
  exists (x ++ x0 ++ x1 ++ o). split; [ser_bytes|]. unfold serialize_RawBlock. split.
  - intros pre. cbn [block transactions]. rewrite (H0 pre). okbind. rewrite (H3 _). okbind. cbn [is_input].
    rewrite (H6 _). okbind. rewrite Hwo. okbind. by rewrite <- !app_assoc.
  - intros d rest _. rewrite <- !app_assoc, H1 by done. okbind. rewrite H4 by done. okbind. cbn [is_input].
    rewrite H7 by done. okbind. rewrite Hro by (rewrite length_resize; lia). done.
Qed.

(** ** Properties *)

(** a transaction that the C++ types can hold, of a known version and with
    one signature per ring member, is serialized without an error, and parsing
    the bytes gives the same transaction back. *)
Theorem transaction_roundtrip tx : valid_tx tx ->
  exists b, is_bytes b /\ toBinaryArray serialize_Transaction tx = Ok b /\
            fromBinaryArray serialize_Transaction new_Transaction b = Ok tx.
Proof. intros H. by apply (whole_roundtrip unsigned valid_tx serialize_Transaction). Qed.

(** C32: a byte string that parses as a transaction is the serialization of the
    parsed transaction: no two byte strings parse to the same transaction, so
    the hash of a received transaction, computed by serializing it again, is the
    hash of the received bytes; and only known versions with matching signature
    counts parse. *)
Theorem transaction_canonical b tx : is_bytes b ->
  fromBinaryArray serialize_Transaction new_Transaction b = Ok tx ->
  valid_tx tx /\ toBinaryArray serialize_Transaction tx = Ok b.
Proof. intros Hb H. by apply (whole_canonical unsigned valid_tx serialize_Transaction new_Transaction). Qed.

(** raw blocks as sent between nodes survive the trip. *)
Theorem rawblock_roundtrip r :
  valid_string (block r) -> Forall valid_string (transactions r) -> small_list (transactions r) ->
  exists b, is_bytes b /\ toBinaryArray serialize_RawBlock r = Ok b /\
            fromBinaryArray serialize_RawBlock {| block := []; transactions := [] |} b = Ok r.
Proof. intros H1 H2 H3. apply (whole_roundtrip any _ serialize_RawBlock); done. Qed.

Definition sample_input (k : Z) : TransactionInput :=
  InKey {| ki_amount := 500; outputIndexes := [3; 300]; keyImage := replicate 32 k |}.
Definition sample_tx : Transaction :=
  {| tx_prefix := {| version := 1; unlockTime := 70000; inputs := [sample_input 1; sample_input 2];
                     outputs := [{| out_amount := 900; target := TargetKey {| ko_key := replicate 32 7 |} |}];
                     extra := [1; 2; 3] |};
     signatures := [[replicate 64 8; replicate 64 9]; [replicate 64 10; replicate 64 11]] |}.

#[global] Instance valid_tx_dec t : Decision (valid_tx t).
Proof. unfold valid_tx, valid_prefix, sigs_of_input. destruct (is_base_inputs _); apply _. Defined.

Lemma sample_tx_valid : valid_tx sample_tx.
Proof. by_compute. Qed.

Definition sample_blob : bytes :=
  match toBinaryArray serialize_Transaction sample_tx with Ok b => b | _ => [] end.

Lemma transaction_roundtrip_witness :
  exists b, is_bytes b /\ toBinaryArray serialize_Transaction sample_tx = Ok b /\
            fromBinaryArray serialize_Transaction new_Transaction b = Ok sample_tx.
Proof. apply transaction_roundtrip. exact sample_tx_valid. Defined.

Lemma transaction_canonical_witness :
  valid_tx sample_tx /\ toBinaryArray serialize_Transaction sample_tx = Ok sample_blob.
Proof.
  apply transaction_canonical.
  - by_compute.
  - by vm_compute.
Defined.

Lemma rawblock_roundtrip_witness :
  exists b, is_bytes b /\ toBinaryArray serialize_RawBlock {| block := [1; 2]; transactions := [[3]; [4; 5]] |} = Ok b /\
            fromBinaryArray serialize_RawBlock {| block := []; transactions := [] |} b
            = Ok {| block := [1; 2]; transactions := [[3]; [4; 5]] |}.
Proof. apply rawblock_roundtrip; by repeat constructor. Defined.
