(* ===== verification/TransactionExtra.v ===== *)
(** * TransactionExtra: [common/TransactionExtra.cpp] and the merge-mining tag
      of [serialization/CryptoNoteSerialization.cpp]

    The extra field of a transaction is a byte string of tagged fields.  The
    parser fills a list of fields and returns a flag; its callers use the list
    also when the flag is [false], so the model returns both. *)

From Stdlib Require Import ZArith Lia.
From stdpp Require Import base tactics list numbers strings.
From S2P Require Import Prelude Config Stream StringTools Types Serializer TxSerialization.

Local Open Scope Z_scope.

Definition TX_EXTRA_PADDING_MAX_COUNT : Z := 255.
Definition TX_EXTRA_NONCE_MAX_COUNT : Z := 255.
Definition TX_EXTRA_TAG_PADDING : Z := 0x00.
Definition TX_EXTRA_TAG_PUBKEY : Z := 0x01.
Definition TX_EXTRA_NONCE : Z := 0x02.
Definition TX_EXTRA_MERGE_MINING_TAG : Z := 0x03.
Definition TX_EXTRA_NONCE_PAYMENT_ID : Z := 0x00.

Record TransactionExtraMergeMiningTag := { depth : Z; merkleRoot : Hash }.

Inductive TransactionExtraField :=
| ExtraPadding (size : Z)
| ExtraPublicKey (publicKey : PublicKey)
| ExtraNonce (nonce : bytes)
| ExtraMergeMiningTag (tag : TransactionExtraMergeMiningTag).

(** [doSerialize] and [serialize(TransactionExtraMergeMiningTag &)]: the tag is
    a string that contains the serialized depth and root. *)
Definition doSerialize : ser TransactionExtraMergeMiningTag := fun tag s =>
  '(d, s) ← op_uint 64 (depth tag) s;
  '(root, s) ← binary 32 (merkleRoot tag) s;
  Ok ({| depth := d; merkleRoot := root |}, s).

Definition new_MergeMiningTag : TransactionExtraMergeMiningTag :=
  {| depth := 0; merkleRoot := NULL_HASH |}.

Definition serialize_MergeMiningTag : ser TransactionExtraMergeMiningTag := fun tag s =>
  if is_input s then
    '(field, s) ← op_string "mm_tag" [] s;
    '(tag, _) ← doSerialize tag (INPUT field);
    Ok (tag, s)
  else
    '(tag, os) ← doSerialize tag (OUTPUT []);
    '(_, s) ← op_string "" (match os with OUTPUT field => field | INPUT _ => [] end) s;
    Ok (tag, s).

(** Which kinds of field the parser has seen. *)
Record seen := { seen_padding : bool; seen_pubkey : bool; seen_nonce : bool; seen_mm_tag : bool }.
Definition nothing_seen : seen :=
  {| seen_padding := false; seen_pubkey := false; seen_nonce := false; seen_mm_tag := false |}.

(** The loop over the zeros of a padding field; [None] is [return false]. *)
Fixpoint read_padding (size : Z) (iss : bytes) : option (Z * bytes) :=
  match iss with
  | [] => Some (size, [])
  | b :: rest =>
      if size <=? TX_EXTRA_PADDING_MAX_COUNT then
        if negb (b =? 0) then None else read_padding (size + 1) rest
      else Some (size, iss)
  end.

(** The body of the [try] block continues with [k]; an exception ends the parse
    with [false] and the fields collected so far. *)
Definition or_false {A} (fields : list TransactionExtraField) (o : outcome A)
    (k : A -> outcome (bool * list TransactionExtraField)) : outcome (bool * list TransactionExtraField) :=
  match o with
  | Ok a => k a
  | Throw _ => Ok (false, fields)
  | Undefined w => Undefined w
  end.

Definition read_nonce (iss : bytes) : outcome (bytes * bytes) :=
  '(size, iss) ← read_uint8 iss;
  if 0 <? size then read iss size else Ok ([], iss).

Fixpoint parse_extra_loop (fuel : nat) (sn : seen) (fields : list TransactionExtraField) (iss : bytes)
    : outcome (bool * list TransactionExtraField) :=
  match fuel with
  | O => Undefined "out of fuel"
  | S fuel =>
      if endOfStream iss then Ok (true, fields)
      else or_false fields (read_uint8 iss) (fun '(c, iss) =>
        if c =? TX_EXTRA_TAG_PADDING then
          if seen_padding sn then Ok (true, fields)
          else
            match read_padding 1 iss with
            | None => Ok (false, fields)
            | Some (size, iss) =>
                if TX_EXTRA_PADDING_MAX_COUNT <? size then Ok (false, fields)
                else parse_extra_loop fuel
                       {| seen_padding := true; seen_pubkey := seen_pubkey sn;
                          seen_nonce := seen_nonce sn; seen_mm_tag := seen_mm_tag sn |}
                       (fields ++ [ExtraPadding size]) iss
            end
        else if c =? TX_EXTRA_TAG_PUBKEY then
          if seen_pubkey sn then Ok (true, fields)
          else or_false fields (binary 32 NULL_HASH (INPUT iss)) (fun '(pk, s) =>
            match s with
            | INPUT iss => parse_extra_loop fuel
                {| seen_padding := seen_padding sn; seen_pubkey := true;
                   seen_nonce := seen_nonce sn; seen_mm_tag := seen_mm_tag sn |}
                (fields ++ [ExtraPublicKey pk]) iss
            | OUTPUT _ => Undefined "a reader stays a reader"
            end)
        else if c =? TX_EXTRA_NONCE then
          if seen_nonce sn then Ok (true, fields)
          else or_false fields (read_nonce iss) (fun '(nonce, iss) =>
            parse_extra_loop fuel
              {| seen_padding := seen_padding sn; seen_pubkey := seen_pubkey sn;
                 seen_nonce := true; seen_mm_tag := seen_mm_tag sn |}
              (fields ++ [ExtraNonce nonce]) iss)
        else if c =? TX_EXTRA_MERGE_MINING_TAG then
          if seen_mm_tag sn then parse_extra_loop fuel sn fields iss
          else or_false fields (serialize_MergeMiningTag new_MergeMiningTag (INPUT iss)) (fun '(tag, s) =>
            match s with
            | INPUT iss => parse_extra_loop fuel
                {| seen_padding := seen_padding sn; seen_pubkey := seen_pubkey sn;
                   seen_nonce := seen_nonce sn; seen_mm_tag := true |}
                (fields ++ [ExtraMergeMiningTag tag]) iss
            | OUTPUT _ => Undefined "a reader stays a reader"
            end)
        else parse_extra_loop fuel sn fields iss)
  end.

(** Every round reads a byte, so one round per byte and a last one suffice
    ([parse_extra_loop_total]). *)
Definition parseTransactionExtra (transactionExtra : bytes) : outcome (bool * list TransactionExtraField) :=
  if bool_decide (transactionExtra = []) then Ok (true, [])
  else parse_extra_loop (S (length transactionExtra)) nothing_seen [] transactionExtra.

(** ** Writing *)

Definition addTransactionPublicKeyToExtra (tx_extra : bytes) (tx_pub_key : PublicKey) : bytes :=
  tx_extra ++ [TX_EXTRA_TAG_PUBKEY] ++ tx_pub_key.

Definition addExtraNonceToTransactionExtra (tx_extra extra_nonce : bytes) : option bytes :=
  if TX_EXTRA_NONCE_MAX_COUNT <? Z.of_nat (length extra_nonce) then None
  else Some (tx_extra ++ [TX_EXTRA_NONCE; u8 (Z.of_nat (length extra_nonce))] ++ extra_nonce).

Definition appendMergeMiningTagToExtra (tx_extra : bytes) (mm_tag : TransactionExtraMergeMiningTag)
    : outcome (option bytes) :=
  blob ← toBinaryArray_opt serialize_MergeMiningTag mm_tag;
  Ok (match blob with
      | None => None
      | Some blob => Some (tx_extra ++ [TX_EXTRA_MERGE_MINING_TAG] ++ blob)
      end).

(** [ExtraSerializerVisitor]; [None] is [false]. *)
Definition write_field (extra : bytes) (f : TransactionExtraField) : outcome (option bytes) :=
  match f with
  | ExtraPadding size =>
      Ok (if TX_EXTRA_PADDING_MAX_COUNT <? size then None else Some (extra ++ replicate (Z.to_nat size) 0))
  | ExtraPublicKey k => Ok (Some (addTransactionPublicKeyToExtra extra k))
  | ExtraNonce n => Ok (addExtraNonceToTransactionExtra extra n)
  | ExtraMergeMiningTag t => appendMergeMiningTagToExtra extra t
  end.

Fixpoint writeTransactionExtra (tx_extra : bytes) (fields : list TransactionExtraField) : outcome (option bytes) :=
  match fields with
  | [] => Ok (Some tx_extra)
  | f :: fields =>
      r ← write_field tx_extra f;
      match r with None => Ok None | Some e => writeTransactionExtra e fields end
  end.

(** ** Looking fields up: the first of its type *)

Definition find_pubkey (l : list TransactionExtraField) : option PublicKey :=
  head (omap (fun f => match f with ExtraPublicKey k => Some k | _ => None end) l).
Definition find_nonce (l : list TransactionExtraField) : option bytes :=
  head (omap (fun f => match f with ExtraNonce n => Some n | _ => None end) l).
Definition find_mm_tag (l : list TransactionExtraField) : option TransactionExtraMergeMiningTag :=
  head (omap (fun f => match f with ExtraMergeMiningTag t => Some t | _ => None end) l).

Definition getTransactionPublicKeyFromExtra (tx_extra : bytes) : outcome PublicKey :=
  '(_, fields) ← parseTransactionExtra tx_extra;
  Ok (match find_pubkey fields with Some k => k | None => NULL_HASH end).

Definition getMergeMiningTagFromExtra (tx_extra : bytes) : outcome (option TransactionExtraMergeMiningTag) :=
  '(_, fields) ← parseTransactionExtra tx_extra; Ok (find_mm_tag fields).

(** ** Payment ids *)

Definition setPaymentIdToTransactionExtraNonce (payment_id : Hash) : bytes :=
  TX_EXTRA_NONCE_PAYMENT_ID :: payment_id.

Definition getPaymentIdFromTransactionExtraNonce (extra_nonce : bytes) : option Hash :=
  if negb (32 + 1 =? length extra_nonce)%nat then None
  else match extra_nonce with
       | t :: payment_id => if negb (TX_EXTRA_NONCE_PAYMENT_ID =? t) then None else Some payment_id
       | [] => None
       end.

Definition parsePaymentId (paymentIdString : bytes) : option Hash := podFromHex 32 paymentIdString.

Definition createTxExtraWithPaymentId (paymentIdString extra : bytes) : option bytes :=
  match parsePaymentId paymentIdString with
  | None => None
  | Some paymentIdBin =>
      addExtraNonceToTransactionExtra extra (setPaymentIdToTransactionExtraNonce paymentIdBin)
  end.

Definition getPaymentIdFromTxExtra (extra : bytes) : outcome (option Hash) :=
  '(ok, fields) ← parseTransactionExtra extra;
  Ok (if negb ok then None
      else match find_nonce fields with
           | Some n => getPaymentIdFromTransactionExtraNonce n
           | None => None
           end).

(** ** The merge-mining tag *)

Definition wf_mm_tag (t : TransactionExtraMergeMiningTag) : Prop := is_u64 (depth t) /\ pod 32 (merkleRoot t).

#[export] Instance doSerialize_roundtrip : RoundTrip any wf_mm_tag doSerialize.
Proof.
  intros [d r] [Hd Hr]. simpl in *. ser_field (op_uint 64) d Hd. ser_field (binary 32) r Hr.
  exists (x ++ x0). split; [ser_bytes|]. unfold doSerialize. simpl.
  split; [ser_write|intros e rest _; ser_read].
Qed.

(** The bytes of a tag: its length, which is at most 42, and its fields. *)
Definition mm_field (t : TransactionExtraMergeMiningTag) : bytes := writeVarint (depth t) ++ merkleRoot t.
Definition mm_blob (t : TransactionExtraMergeMiningTag) : bytes :=
  writeVarint (Z.of_nat (length (mm_field t))) ++ mm_field t.

Lemma length_mm_field t : wf_mm_tag t -> (33 <= length (mm_field t) <= 42)%nat.
Proof.
  intros [Hd [_ Hl]]. unfold mm_field. rewrite length_app, Hl. pose proof (length_writeVarint _ Hd). lia.
Qed.

Lemma in_string_mm_tag l rest : Z.of_nat (length l) <= MAX_EXTRA_SIZE ->
  in_string "mm_tag" (writeVarint (Z.of_nat (length l)) ++ l ++ rest) = Ok (l, rest).
Proof.
  intros Hl. unfold MAX_EXTRA_SIZE in Hl. unfold in_string.
  rewrite (readVarint_writeVarint 64 _ _ vw64) by (unfold in_width; eval_pow2; lia). okbind.
  rewrite (proj2 (Z.ltb_ge MAX_EXTRA_SIZE _)) by done. okbind.
  destruct (Z.ltb_spec 0 (Z.of_nat (length l))); [apply read_app|]. destruct l; [done|simpl in *; lia].
Qed.

#[export] Instance MergeMiningTag_roundtrip : RoundTrip any wf_mm_tag serialize_MergeMiningTag.
Proof.
  intros t Ht. destruct (roundtrip (f := doSerialize) t Ht) as (out & Hb & Hw & Hr).
  assert (E : out = mm_field t).
  { specialize (Hw []). unfold doSerialize in Hw. cbn -[writeVarint app] in Hw. inv_ok. simplify_eq. done. }
  subst out. exists (mm_blob t). pose proof (length_mm_field t Ht) as Hl. split; [|split].
  - apply Forall_app. split; [apply writeVarint_bytes; lia|done].
  - intros pre. unfold serialize_MergeMiningTag. cbn [is_input]. rewrite (Hw []). okbind.
    cbn -[writeVarint mm_field app]. unfold out_string, mm_blob. rewrite app_nil_l. by rewrite app_assoc.
  - intros d rest _. unfold serialize_MergeMiningTag. cbn [is_input]. unfold op_string, mm_blob, reading.
    rewrite <- app_assoc, in_string_mm_tag by (unfold MAX_EXTRA_SIZE; lia). okbind.
    specialize (Hr d [] I). rewrite app_nil_r in Hr. by rewrite Hr.
Qed.

Lemma mm_tag_writes t pre : wf_mm_tag t ->
  serialize_MergeMiningTag t (OUTPUT pre) = Ok (t, OUTPUT (pre ++ mm_blob t)).
Proof.
  intros Ht. destruct t as [d r]. unfold serialize_MergeMiningTag, doSerialize. cbn -[writeVarint app].
  unfold out_string, mm_blob, mm_field, out_binary, out_uint. cbn [depth merkleRoot].
  by rewrite app_nil_l, <- !app_assoc.
Qed.

Lemma mm_tag_reads t rest : wf_mm_tag t ->
  serialize_MergeMiningTag new_MergeMiningTag (INPUT (mm_blob t ++ rest)) = Ok (t, INPUT rest).
Proof.
  intros Ht. destruct (roundtrip (f := serialize_MergeMiningTag) t Ht) as (out & _ & Hw & Hr).
  specialize (Hw []). rewrite mm_tag_writes in Hw by done. simplify_eq. by apply Hr.
Qed.

(** ** What the parser does with one field *)

Lemma parse_pubkey fuel sn fields k rest : pod 32 k -> seen_pubkey sn = false ->
  parse_extra_loop (S fuel) sn fields ((TX_EXTRA_TAG_PUBKEY :: k) ++ rest)
  = parse_extra_loop fuel {| seen_padding := seen_padding sn; seen_pubkey := true;
                             seen_nonce := seen_nonce sn; seen_mm_tag := seen_mm_tag sn |}
      (fields ++ [ExtraPublicKey k]) rest.
Proof.
  intros [_ Hk] Hs. rewrite <- app_comm_cons. cbn [parse_extra_loop]. unfold endOfStream.
  rewrite bool_decide_eq_false_2, read_uint8_cons, Hs by done. cbn [or_false Z.eqb TX_EXTRA_TAG_PUBKEY TX_EXTRA_TAG_PADDING].
  cbn [Pos.eqb]. unfold binary, in_binary, reading. rewrite <- Hk, read_app. done.
Qed.

Lemma parse_nonce fuel sn fields n rest : Z.of_nat (length n) <= 255 -> seen_nonce sn = false ->
  parse_extra_loop (S fuel) sn fields ((TX_EXTRA_NONCE :: Z.of_nat (length n) :: n) ++ rest)
  = parse_extra_loop fuel {| seen_padding := seen_padding sn; seen_pubkey := seen_pubkey sn;
                             seen_nonce := true; seen_mm_tag := seen_mm_tag sn |}
      (fields ++ [ExtraNonce n]) rest.
Proof.
  intros Hn Hs. rewrite <- !app_comm_cons. cbn [parse_extra_loop]. unfold endOfStream.
  rewrite bool_decide_eq_false_2, read_uint8_cons, Hs by done.
  cbn [or_false Z.eqb Pos.eqb TX_EXTRA_NONCE TX_EXTRA_TAG_PADDING TX_EXTRA_TAG_PUBKEY].
  unfold read_nonce. rewrite read_uint8_cons. okbind.
  destruct (Z.ltb_spec 0 (Z.of_nat (length n))); [by rewrite read_app|]. destruct n; [done|simpl in *; lia].
Qed.

Lemma parse_mm_tag fuel sn fields t rest : wf_mm_tag t -> seen_mm_tag sn = false ->
  parse_extra_loop (S fuel) sn fields ((TX_EXTRA_MERGE_MINING_TAG :: mm_blob t) ++ rest)
  = parse_extra_loop fuel {| seen_padding := seen_padding sn; seen_pubkey := seen_pubkey sn;
                             seen_nonce := seen_nonce sn; seen_mm_tag := true |}
      (fields ++ [ExtraMergeMiningTag t]) rest.
Proof.
  intros Ht Hs. rewrite <- app_comm_cons. cbn [parse_extra_loop]. unfold endOfStream.
  rewrite bool_decide_eq_false_2, read_uint8_cons, Hs by done.
  cbn [or_false Z.eqb Pos.eqb TX_EXTRA_MERGE_MINING_TAG TX_EXTRA_NONCE TX_EXTRA_TAG_PADDING TX_EXTRA_TAG_PUBKEY].
  rewrite mm_tag_reads by done. done.
Qed.

Lemma read_padding_zeros n size : size + Z.of_nat n <= TX_EXTRA_PADDING_MAX_COUNT + 1 ->
  read_padding size (replicate n 0) = Some (size + Z.of_nat n, []).
Proof.
  revert size. induction n as [|n IH]; intros size Hs; [simpl; by rewrite Z.add_0_r|].
  cbn [replicate read_padding]. rewrite (proj2 (Z.leb_le _ _)) by lia. cbn [negb Z.eqb].
  rewrite IH by lia. do 2 f_equal. lia.
Qed.

Lemma parse_padding fuel sn fields n : 1 <= n <= TX_EXTRA_PADDING_MAX_COUNT -> seen_padding sn = false ->
  parse_extra_loop (S (S fuel)) sn fields (replicate (Z.to_nat n) 0) = Ok (true, fields ++ [ExtraPadding n]).
Proof.
  intros Hn Hs. replace (Z.to_nat n) with (S (Z.to_nat (n - 1))) by lia.
  cbn [replicate]. remember (S fuel) as f1. cbn [parse_extra_loop]. unfold endOfStream.
  rewrite bool_decide_eq_false_2, read_uint8_cons, Hs by done.
  cbn [or_false Z.eqb TX_EXTRA_TAG_PADDING].
  rewrite read_padding_zeros by lia. replace (1 + Z.of_nat (Z.to_nat (n - 1))) with n by lia.
  rewrite (proj2 (Z.ltb_ge _ _)) by lia. by subst f1.
Qed.

(** ** Lists of fields *)

Definition is_seen (sn : seen) (f : TransactionExtraField) : bool :=
  match f with
  | ExtraPadding _ => seen_padding sn
  | ExtraPublicKey _ => seen_pubkey sn
  | ExtraNonce _ => seen_nonce sn
  | ExtraMergeMiningTag _ => seen_mm_tag sn
  end.
Definition mark (sn : seen) (f : TransactionExtraField) : seen :=
  match f with
  | ExtraPadding _ => {| seen_padding := true; seen_pubkey := seen_pubkey sn;
                         seen_nonce := seen_nonce sn; seen_mm_tag := seen_mm_tag sn |}
  | ExtraPublicKey _ => {| seen_padding := seen_padding sn; seen_pubkey := true;
                           seen_nonce := seen_nonce sn; seen_mm_tag := seen_mm_tag sn |}
  | ExtraNonce _ => {| seen_padding := seen_padding sn; seen_pubkey := seen_pubkey sn;
                       seen_nonce := true; seen_mm_tag := seen_mm_tag sn |}
  | ExtraMergeMiningTag _ => {| seen_padding := seen_padding sn; seen_pubkey := seen_pubkey sn;
                                seen_nonce := seen_nonce sn; seen_mm_tag := true |}
  end.
Definition wf_field (f : TransactionExtraField) : Prop :=
  match f with
  | ExtraPadding n => 1 <= n <= TX_EXTRA_PADDING_MAX_COUNT
  | ExtraPublicKey k => pod 32 k
  | ExtraNonce n => Z.of_nat (length n) <= TX_EXTRA_NONCE_MAX_COUNT
  | ExtraMergeMiningTag t => wf_mm_tag t
  end.
Definition is_padding (f : TransactionExtraField) : bool :=
  match f with ExtraPadding _ => true | _ => false end.
Definition field_bytes (f : TransactionExtraField) : bytes :=
  match f with
  | ExtraPadding n => replicate (Z.to_nat n) 0
  | ExtraPublicKey k => TX_EXTRA_TAG_PUBKEY :: k
  | ExtraNonce n => TX_EXTRA_NONCE :: Z.of_nat (length n) :: n
  | ExtraMergeMiningTag t => TX_EXTRA_MERGE_MINING_TAG :: mm_blob t
  end.

(** The lists the format can express: at most one field of each kind, and
    padding only at the end. *)
Fixpoint good_fields (sn : seen) (l : list TransactionExtraField) : Prop :=
  match l with
  | [] => True
  | f :: l => is_seen sn f = false /\ wf_field f /\ (is_padding f = true -> l = []) /\ good_fields (mark sn f) l
  end.

Lemma write_field_ok extra f : wf_field f -> write_field extra f = Ok (Some (extra ++ field_bytes f)).
Proof.
  intros Hf. destruct f as [n|k|n|t]; simpl in Hf |- *.
  - by rewrite (proj2 (Z.ltb_ge _ _)) by lia.
  - done.
  - unfold addExtraNonceToTransactionExtra. rewrite (proj2 (Z.ltb_ge _ _)) by done.
    rewrite wrap_small by (unfold TX_EXTRA_NONCE_MAX_COUNT in Hf; width_solve). done.
  - unfold appendMergeMiningTagToExtra, toBinaryArray_opt, toBinaryArray. by rewrite mm_tag_writes.
Qed.

Lemma writeTransactionExtra_ok l : Forall wf_field l -> forall extra,
  writeTransactionExtra extra l = Ok (Some (extra ++ concat (field_bytes <$> l))).
Proof.
  induction 1 as [|f l Hf Hl IH]; intros extra; [simpl; by rewrite app_nil_r|].
  cbn [writeTransactionExtra]. rewrite write_field_ok by done. okbind. rewrite IH. simpl. by rewrite app_assoc.
Qed.

Lemma good_fields_wf sn l : good_fields sn l -> Forall wf_field l.
Proof. revert sn. induction l as [|f l IH]; intros sn H; [done|]. destruct H as (_ & ? & _ & ?). eauto. Qed.

Lemma length_field_bytes f : wf_field f -> (1 <= length (field_bytes f))%nat.
Proof.
  destruct f; simpl; try lia. intros. rewrite length_replicate. unfold TX_EXTRA_PADDING_MAX_COUNT in *. lia.
Qed.

Lemma parse_good_fields l : forall fuel sn fields, good_fields sn l -> (length l < fuel)%nat ->
  parse_extra_loop fuel sn fields (concat (field_bytes <$> l)) = Ok (true, fields ++ l).
Proof.
  induction l as [|f l IH]; intros fuel sn fields Hg Hf.
  - destruct fuel; [lia|]. simpl. by rewrite app_nil_r.
  - destruct Hg as (Hs & Hw & Hp & Hg). destruct fuel as [|fuel]; [lia|]. simpl in Hf.
    rewrite fmap_cons. cbn [concat]. specialize (IH fuel (mark sn f) (fields ++ [f]) Hg ltac:(lia)).
    rewrite <- app_assoc in IH. destruct f as [n|k|n|t]; cbn [field_bytes wf_field] in *.
    + rewrite (Hp eq_refl). simpl concat. rewrite app_nil_r. destruct fuel; [lia|]. by apply parse_padding.
    + by rewrite parse_pubkey.
    + by rewrite parse_nonce.
    + by rewrite parse_mm_tag.
Qed.

Lemma length_concat_fields l : Forall wf_field l -> (length l <= length (concat (field_bytes <$> l)))%nat.
Proof.
  induction 1 as [|f l Hf _ IH]; [simpl; lia|]. rewrite fmap_cons. cbn [concat length]. rewrite length_app.
  pose proof (length_field_bytes f Hf). lia.
Qed.

Lemma parse_written l : good_fields nothing_seen l ->
  parseTransactionExtra (concat (field_bytes <$> l)) = Ok (true, l).
Proof.
  intros Hg. unfold parseTransactionExtra.
  pose proof (length_concat_fields l (good_fields_wf _ _ Hg)).
  destruct (bool_decide_reflect (concat (field_bytes <$> l) = [])) as [E|E].
  - rewrite E in H. simpl in H. destruct l; [done|simpl in H; lia].
  - rewrite parse_good_fields by (done || lia). done.
Qed.

(** ** The parser always returns *)

Lemma read_padding_shorter iss : forall size size' rest, read_padding size iss = Some (size', rest) ->
  (length rest <= length iss)%nat /\ (is_bytes iss -> is_bytes rest).
Proof.
  induction iss as [|b iss IH]; intros size size' rest H; simpl in H.
  - by simplify_eq.
  - destruct (size <=? _); [destruct (negb _); [done|]|].
    + apply IH in H as [??]. simpl. split; [lia|]. intros Hb. apply Forall_cons in Hb as [_ Hb]. auto.
    + by simplify_eq.
Qed.

(** A reading call consumes a prefix and stays a reader. *)
Lemma read_shorter iss size l rest : 0 <= size -> is_bytes iss -> read iss size = Ok (l, rest) ->
  (length rest <= length iss)%nat /\ is_bytes rest.
Proof.
  intros Hs Hb H. apply read_inv in H as [-> _]; [|done]. apply Forall_app in Hb as [_ Hb].
  rewrite length_app. split; [lia|done].
Qed.

Lemma in_discard_spec n iss : is_bytes iss -> defined (in_discard n iss) /\
  forall rest, in_discard n iss = Ok rest -> (length rest <= length iss)%nat /\ is_bytes rest.
Proof.
  revert iss. induction n as [|n IH]; intros iss Hb; [split; [done|]; intros rest H; by simplify_eq/=|].
  cbn [in_discard]. split.
  - apply defined_bind; [by apply read_defined|]. intros [l rest] H. apply read_shorter in H as [_ Hr]; try done.
    by apply IH.
  - intros rest H. inv_ok. destruct v as [l r]. apply read_shorter in Hok as [Hl Hr]; try done.
    apply (IH r Hr) in H as [??]. split; [lia|done].
Qed.

Lemma in_string_spec name iss : is_bytes iss -> defined (in_string name iss) /\
  forall l rest, in_string name iss = Ok (l, rest) -> (length rest <= length iss)%nat /\ is_bytes l /\ is_bytes rest.
Proof.
  intros Hb. unfold in_string. split.
  - apply defined_bind; [apply readVarint_defined; [apply vw64|done]|]. intros [size r] H.
    apply readVarint_inv in H as [[Hs _] ->]; [|apply vw64|done]. apply Forall_app in Hb as [_ Hb].
    destruct (_ && _); [|destruct (0 <? size); [by apply read_defined|done]].
    apply defined_bind; [by apply in_discard_spec|done].
  - intros l rest H. inv_ok. destruct v as [size r].
    apply readVarint_inv in Hok as [[Hs _] ->]; [|apply vw64|done]. apply Forall_app in Hb as [_ Hb].
    rewrite length_app. destruct (_ && _); [|destruct (0 <? size)].
    + inv_ok. simplify_eq. apply in_discard_spec in Hok as [??]; [|done]. split; [lia|]. split; [constructor|done].
    + apply read_inv in H as [-> _]; [|done]. apply Forall_app in Hb as [??]. rewrite length_app. split; [lia|done].
    + inv_ok. simplify_eq. split; [lia|]. split; [constructor|done].
Qed.

Lemma mm_tag_spec iss : is_bytes iss -> defined (serialize_MergeMiningTag new_MergeMiningTag (INPUT iss)) /\
  forall t s, serialize_MergeMiningTag new_MergeMiningTag (INPUT iss) = Ok (t, s) ->
    exists rest, s = INPUT rest /\ (length rest <= length iss)%nat /\ is_bytes rest.
Proof.
  intros Hb. destruct (in_string_spec "mm_tag" iss Hb) as [Hd Hs].
  unfold serialize_MergeMiningTag. cbn [is_input]. unfold op_string, reading. split.
  - apply defined_bind; [apply defined_bind; [done|]; by intros []|]. intros [field s] H.
    inv_ok. destruct v as [l r]. inv_ok. simplify_eq. destruct (Hs _ _ Hok) as (_ & Hbf & _).
    apply defined_bind; [|by intros []]. unfold doSerialize. apply defined_bind.
    + unfold op_uint, reading, in_uint. apply defined_bind; [apply readVarint_defined; [apply vw64|done]|by intros []].
    + intros [d s] H. destruct (canonical (f := op_uint 64) _ _ _ _ I Hbf H) as (_ & o & r' & -> & _).
      apply defined_bind; [|by intros []]. unfold binary, reading, in_binary.
      apply defined_bind; [apply read_defined; lia|by intros []].
  - intros t s H. inv_ok. destruct v as [field s1], v0 as [l r]. inv_ok. destruct v as [tag s2]. inv_ok. simplify_eq.
    destruct (Hs _ _ Hok0) as (? & _ & ?). eauto.
Qed.

(** A continuation that always returns makes the guarded call return. *)
Lemma or_false_total {A} fields (o : outcome A) k :
  defined o -> (forall a, o = Ok a -> exists r, k a = Ok r) -> exists r, or_false fields o k = Ok r.
Proof. destruct o; simpl; intros Hd Hk; [by apply Hk|eauto|done]. Qed.

Lemma parse_extra_loop_total fuel : forall sn fields iss, is_bytes iss -> (length iss < fuel)%nat ->
  exists r, parse_extra_loop fuel sn fields iss = Ok r.
Proof.
  induction fuel as [|fuel IH]; intros sn fields iss Hb Hf; [lia|]. cbn [parse_extra_loop].
  destruct iss as [|c iss]; [eauto|]. unfold endOfStream. rewrite bool_decide_eq_false_2, read_uint8_cons by done.
  apply Forall_cons in Hb as [_ Hb]. cbn [or_false length] in *.
  destruct (c =? _); [|destruct (c =? _); [|destruct (c =? _); [|destruct (c =? _)]]].
  - destruct (seen_padding sn); [eauto|]. destruct (read_padding 1 iss) as [[size rest]|] eqn:E; [|eauto].
    destruct (_ <? size); [eauto|]. apply read_padding_shorter in E as [? Hr]. apply IH; [by apply Hr|lia].
  - destruct (seen_pubkey sn); [eauto|]. unfold binary, reading, in_binary. apply or_false_total.
    + apply defined_bind; [apply read_defined; lia|by intros []].
    + intros [pk s] H. inv_ok. destruct v as [l r]. inv_ok. simplify_eq.
      apply read_shorter in Hok as [??]; [|lia|done]. apply IH; [done|lia].
  - destruct (seen_nonce sn); [eauto|]. unfold read_nonce. destruct iss as [|n iss]; [simpl; eauto|].
    rewrite read_uint8_cons. okbind. apply Forall_cons in Hb as [[Hn _] Hb]. simpl in Hf. apply or_false_total.
    + destruct (0 <? n); [by apply read_defined|done].
    + intros [l r] H. destruct (0 <? n).
      * apply read_shorter in H as [??]; try done. apply IH; [done|lia].
      * inv_ok. simplify_eq. apply IH; [done|lia].
  - destruct (seen_mm_tag sn); [apply IH; [done|lia]|]. destruct (mm_tag_spec iss Hb) as [Hd Hs].
    apply or_false_total; [done|]. intros [t s] H. destruct (Hs _ _ H) as (rest & -> & ? & ?). apply IH; [done|lia].
  - apply IH; [done|lia].
Qed.

Lemma parseTransactionExtra_ok e : is_bytes e -> exists r, parseTransactionExtra e = Ok r.
Proof.
  intros Hb. unfold parseTransactionExtra. destruct (bool_decide _); [eauto|].
  apply parse_extra_loop_total; [done|lia].
Qed.

(** Fields already found are kept. *)
Lemma or_false_ok {A} fields (o : outcome A) k b l :
  or_false fields o k = Ok (b, l) -> (exists a, o = Ok a /\ k a = Ok (b, l)) \/ l = fields.
Proof. destruct o; simpl; intros H; [eauto|right; by simplify_eq|done]. Qed.

Lemma parse_extra_loop_prefix fuel : forall sn fields iss b l,
  parse_extra_loop fuel sn fields iss = Ok (b, l) -> fields `prefix_of` l.
Proof.
  induction fuel as [|fuel IH]; intros sn fields iss b l H; [done|]. cbn [parse_extra_loop] in H.
  assert (IH' : forall sn f iss, parse_extra_loop fuel sn (fields ++ [f]) iss = Ok (b, l) -> fields `prefix_of` l).
  { intros. etrans; [|by eapply IH]. by eexists. }
  destruct (endOfStream iss); [by simplify_eq|].
  apply or_false_ok in H as [([c r] & _ & H)| ->]; [|done].
  destruct (c =? _); [|destruct (c =? _); [|destruct (c =? _); [|destruct (c =? _)]]].
  - repeat case_match; simplify_eq; eauto.
  - case_match; [by simplify_eq|]. apply or_false_ok in H as [([? s] & _ & H)| ->]; [|done].
    destruct s; [eauto|done].
  - case_match; [by simplify_eq|]. apply or_false_ok in H as [([? s] & _ & H)| ->]; [eauto|done].
  - case_match; [eauto|]. apply or_false_ok in H as [([? s] & _ & H)| ->]; [|done]. destruct s; [eauto|done].
  - eauto.
Qed.

(** ** Properties *)

(** a list with at most one field of each kind, padding last, is written and
    parsed back exactly. *)
Theorem extra_roundtrip l : good_fields nothing_seen l ->
  exists e, writeTransactionExtra [] l = Ok (Some e) /\ parseTransactionExtra e = Ok (true, l).
Proof.
  intros Hg. eexists. split; [by apply writeTransactionExtra_ok, (good_fields_wf nothing_seen)|].
  by apply parse_written.
Qed.

Definition sample_fields : list TransactionExtraField :=
  [ExtraNonce [1; 2; 3]; ExtraPublicKey (replicate 32 9);
   ExtraMergeMiningTag {| depth := 300; merkleRoot := replicate 32 5 |}; ExtraPadding 17].

Lemma extra_roundtrip_witness :
  exists e, writeTransactionExtra [] sample_fields = Ok (Some e) /\ parseTransactionExtra e = Ok (true, sample_fields).
Proof.
  apply extra_roundtrip. unfold sample_fields, TX_EXTRA_PADDING_MAX_COUNT. cbn [good_fields is_seen wf_field is_padding].
  repeat split; try done; try (intros; discriminate); by_compute.
Defined.

(** parsing the extra field of any transaction, however malformed, returns:
    no access past the end and no endless loop. *)
Theorem parseTransactionExtra_total e : is_bytes e ->
  exists ok fields, parseTransactionExtra e = Ok (ok, fields).
Proof. intros Hb. destruct (parseTransactionExtra_ok e Hb) as [[ok fields] H]. eauto. Qed.

Lemma parseTransactionExtra_total_witness :
  exists ok fields, parseTransactionExtra [3; 255; 255; 2; 9; 0; 7] = Ok (ok, fields).
Proof. apply parseTransactionExtra_total. by_compute. Defined.

(** the public key written first is found, whatever follows it. *)
Theorem pubkey_found k rest : pod 32 k -> is_bytes rest ->
  getTransactionPublicKeyFromExtra (addTransactionPublicKeyToExtra [] k ++ rest) = Ok k.
Proof.
  intros Hk Hr. unfold getTransactionPublicKeyFromExtra, parseTransactionExtra, addTransactionPublicKeyToExtra.
  rewrite bool_decide_eq_false_2 by done. rewrite app_nil_l.
  change ([TX_EXTRA_TAG_PUBKEY] ++ k) with (TX_EXTRA_TAG_PUBKEY :: k).
  rewrite parse_pubkey by done. edestruct parse_extra_loop_total as [[b l] H]; [exact Hr| |rewrite H].
  - rewrite length_app. simpl. lia.
  - okbind. apply parse_extra_loop_prefix in H as [l' ->]. done.
Qed.

Lemma pubkey_found_witness :
  getTransactionPublicKeyFromExtra (addTransactionPublicKeyToExtra [] (replicate 32 4) ++ [2; 200; 1]) = Ok (replicate 32 4).
Proof. apply pubkey_found; by_compute. Defined.

(** a payment id given as text ends up in the extra field and is read back
    from it; texts that are not 64 hexadecimal digits are rejected. *)
Theorem payment_id_roundtrip id : pod 32 id ->
  exists e, createTxExtraWithPaymentId (toHex id) [] = Some e /\ getPaymentIdFromTxExtra e = Ok (Some id).
Proof.
  intros [Hb Hl]. unfold createTxExtraWithPaymentId, parsePaymentId.
  replace 32 with (Z.of_nat (length id)) by lia. rewrite podFromHex_toHex by done.
  assert (Hw : wf_field (ExtraNonce (setPaymentIdToTransactionExtraNonce id))).
  { simpl. rewrite Hl. by vm_compute. }
  pose proof (write_field_ok [] _ Hw) as E. cbn [write_field] in E. injection E as E. rewrite E.
  exists (field_bytes (ExtraNonce (setPaymentIdToTransactionExtraNonce id))). split; [done|].
  unfold getPaymentIdFromTxExtra.
  pose proof (parse_written [ExtraNonce (setPaymentIdToTransactionExtraNonce id)]) as HP.
  rewrite fmap_cons in HP. cbn [concat fmap list_fmap] in HP. rewrite app_nil_r in HP.
  rewrite HP by (split; [done|]; split; [done|]; by split). okbind.
  unfold getPaymentIdFromTransactionExtraNonce, find_nonce, setPaymentIdToTransactionExtraNonce. simpl.
  by rewrite Hl.
Qed.

Lemma payment_id_roundtrip_witness :
  exists e, createTxExtraWithPaymentId (toHex (replicate 32 171)) [] = Some e /\
            getPaymentIdFromTxExtra e = Ok (Some (replicate 32 171)).
Proof. apply payment_id_roundtrip. by_compute. Defined.
