(* ===== verification/TreeHash.v ===== *)
(** * TreeHash: [crypto/tree-hash.c]

    The Merkle tree of a block's transaction hashes, the branch of its first
    leaf and the root recomputed from a branch.  The arrays are lists of hashes
    updated in place; an index past the end is [Undefined].  [cn_fast_hash] is a
    parameter, and no theorem here needs a hypothesis about it. *)

From Stdlib Require Import ZArith Lia.
From stdpp Require Import base tactics list numbers strings.
From S2P Require Import Prelude Types.

Local Open Scope Z_scope.

Section tree.
Context (cn_fast_hash : bytes -> Hash).

Definition elem (a : list Hash) (i : nat) : outcome Hash := from_option "array index out of range" (a !! i).
Definition store (a : list Hash) (i : nat) (h : Hash) : outcome (list Hash) :=
  _ ← assert (i <? length a)%nat "array index out of range"; Ok (<[i := h]> a).

(** [cn_fast_hash(src[i], 2 * HASH_SIZE, dst[j])], [n] times, with [i += 2] and [++j]. *)
Fixpoint hash_loop (n i j : nat) (src dst : list Hash) : outcome (list Hash) :=
  match n with
  | O => Ok dst
  | S n =>
      a ← elem src i; b ← elem src (i + 1);
      dst ← store dst j (cn_fast_hash (a ++ b));
      hash_loop n (i + 2) (j + 1) src dst
  end.

(** The same loop when source and destination are one array. *)
Fixpoint hash_in_place (n i j : nat) (ints : list Hash) : outcome (list Hash) :=
  match n with
  | O => Ok ints
  | S n =>
      a ← elem ints i; b ← elem ints (i + 1);
      ints ← store ints j (cn_fast_hash (a ++ b));
      hash_in_place n (i + 2) (j + 1) ints
  end.

(** [cnt |= cnt >> i] for [i = 1, 2, 4, ..., 32], then [cnt &= ~(cnt >> 1)]. *)
Definition smear (cnt : Z) : Z :=
  foldl (fun cnt i => Z.lor cnt (Z.shiftr cnt i)) cnt [1; 2; 4; 8; 16; 32].
Definition top_bit (cnt : Z) : Z :=
  let cnt := smear cnt in Z.land cnt (u64 (Z.lnot (Z.shiftr cnt 1))).

(** [while (cnt > 2) { cnt >>= 1; ... }]; a 64-bit [cnt] halves at most 64 times. *)
Fixpoint tree_hash_loop (fuel : nat) (cnt : Z) (ints : list Hash) : outcome (list Hash) :=
  match fuel with
  | O => Undefined "out of fuel"
  | S fuel =>
      if 2 <? cnt then
        let cnt := Z.shiftr cnt 1 in
        ints ← hash_in_place (Z.to_nat cnt) 0 0 ints;
        tree_hash_loop fuel cnt ints
      else Ok ints
  end.

Definition tree_hash (hashes : list Hash) (count : Z) : outcome Hash :=
  _ ← assert (0 <? count) "assert(count > 0)";
  if count =? 1 then elem hashes 0
  else if count =? 2 then
    a ← elem hashes 0; b ← elem hashes 1; Ok (cn_fast_hash (a ++ b))
  else
    let cnt := top_bit (count - 1) in
    let k := u64 (2 * cnt - count) in
    let ints := take (Z.to_nat k) hashes ++ replicate (Z.to_nat (cnt - k)) NULL_HASH in
    let n := Z.to_nat (cnt - k) in
    ints ← hash_loop n (Z.to_nat k) (Z.to_nat k) hashes ints;
    _ ← assert (k + 2 * Z.of_nat n =? count) "assert(i == count)";
    ints ← tree_hash_loop 64 cnt ints;
    a ← elem ints 0; b ← elem ints 1; Ok (cn_fast_hash (a ++ b)).

(** [for (i = sizeof(size_t) << 2; i > 0; i >>= 1)] *)
Definition halvings : list Z := [32; 16; 8; 4; 2; 1].

Definition tree_depth (count : Z) : outcome Z :=
  _ ← assert (0 <? count) "assert(count > 0)";
  Ok (snd (foldl (fun '(count, depth) i =>
     if 0 <? Z.shiftr count i then (Z.shiftr count i, depth + i) else (count, depth)) (count, 0) halvings)).

(** [(cnt, depth)] of [tree_branch]. *)
Definition branch_size (count : Z) : Z * Z :=
  foldl (fun '(cnt, depth) i =>
     if u64 (Z.shiftl cnt i) <=? count then (u64 (Z.shiftl cnt i), depth + i) else (cnt, depth)) (1, 0) halvings.

Fixpoint tree_branch_loop (depth : nat) (cnt : Z) (ints branch : list Hash) : outcome (list Hash) :=
  match depth with
  | O => Ok branch
  | S depth' =>
      _ ← assert (cnt =? Z.shiftl 1 (Z.of_nat depth)) "assert(cnt == 1ULL << depth)";
      let cnt := Z.shiftr cnt 1 in
      h ← elem ints 0;
      branch ← store branch depth' h;
      ints ← hash_in_place (Z.to_nat (cnt - 1)) 1 0 ints;
      tree_branch_loop depth' cnt ints branch
  end.

(** [branch] is the caller's array, which is filled in. *)
Definition tree_branch (hashes : list Hash) (count : Z) (branch : list Hash) : outcome (list Hash) :=
  _ ← assert (0 <? count) "assert(count > 0)";
  let '(cnt, depth) := branch_size count in
  _ ← assert (cnt =? Z.shiftl 1 depth) "assert(cnt == 1ULL << depth)";
  d ← tree_depth count;
  _ ← assert (depth =? d) "assert(depth == tree_depth(count))";
  let k := u64 (2 * cnt - count) in
  let n := Z.to_nat (cnt - k) in
  let ints := take (Z.to_nat (k - 1)) (drop 1 hashes) ++ replicate n NULL_HASH in
  ints ← hash_loop n (Z.to_nat k) (Z.to_nat (k - 1)) hashes ints;
  _ ← assert (k + 2 * Z.of_nat n =? count) "assert(i == count)";
  tree_branch_loop (Z.to_nat depth) cnt ints branch.

(** Is bit [depth] of the path set? *)
Definition path_bit (path : option bytes) (depth : nat) : outcome bool :=
  match path with
  | None => Ok false
  | Some p =>
      b ← from_option "path index out of range" (p !! (depth / 8)%nat);
      Ok (negb (Z.land b (Z.shiftl 1 (Z.of_nat depth mod 8)) =? 0))
  end.

(** The loop of [tree_hash_from_branch]: [depth] counts down, [buffer] is the
    pair to hash next; the first round puts the leaf in it. *)
Fixpoint from_branch_loop (depth : nat) (branch : list Hash) (path : option bytes) (buffer : Hash * Hash)
    (leaf : option Hash) : outcome (Hash * Hash) :=
  match depth with
  | O => Ok buffer
  | S depth =>
      right ← path_bit path depth;
      let own := match leaf with Some l => l | None => cn_fast_hash (fst buffer ++ snd buffer) end in
      b ← elem branch depth;
      from_branch_loop depth branch path (if (right : bool) then (b, own) else (own, b)) None
  end.

Definition tree_hash_from_branch (branch : list Hash) (depth : nat) (leaf : Hash) (path : option bytes) : outcome Hash :=
  if (depth =? 0)%nat then Ok leaf
  else
    buffer ← from_branch_loop depth branch path (NULL_HASH, NULL_HASH) (Some leaf);
    Ok (cn_fast_hash (fst buffer ++ snd buffer)).

(** ** Levels *)

(** One level up: hash neighbours. *)
Fixpoint pairs (l : list Hash) : list Hash :=
  match l with
  | a :: b :: l => cn_fast_hash (a ++ b) :: pairs l
  | _ => []
  end.

Lemma length_pairs n : forall l, length l = (2 * n)%nat -> length (pairs l) = n.
Proof.
  induction n as [|n IH]; intros l Hl; [by destruct l|].
  destruct l as [|a [|b l]]; simpl in Hl; try lia. simpl. f_equal. apply IH. lia.
Qed.

Lemma elem_ok a i h : a !! i = Some h -> elem a i = Ok h.
Proof. unfold elem. by intros ->. Qed.

Lemma pairs_step n i (l : list Hash) a b : l !! i = Some a -> l !! S i = Some b ->
  pairs (take (2 * S n) (drop i l)) = cn_fast_hash (a ++ b) :: pairs (take (2 * n) (drop (S (S i)) l)).
Proof.
  intros Ha Hb. rewrite (drop_S l a i Ha), (drop_S l b (S i) Hb).
  replace (2 * S n)%nat with (S (S (2 * n))) by lia. done.
Qed.

Lemma hash_loop_ok n : forall i j src dst, (i + 2 * n <= length src)%nat -> (j + n <= length dst)%nat ->
  hash_loop n i j src dst = Ok (take j dst ++ pairs (take (2 * n) (drop i src)) ++ drop (j + n) dst).
Proof.
  induction n as [|n IH]; intros i j src dst Hi Hj.
  - cbn [hash_loop Nat.mul]. rewrite take_0, Nat.add_0_r. cbn [pairs app]. by rewrite take_drop.
  - destruct (lookup_lt_is_Some_2 src i) as [a Ha]; [lia|].
    destruct (lookup_lt_is_Some_2 src (S i)) as [b Hb]; [lia|].
    cbn [hash_loop]. replace (i + 1)%nat with (S i) by lia. rewrite (elem_ok _ _ _ Ha), (elem_ok _ _ _ Hb). okbind.
    unfold store. rewrite (proj2 (Nat.ltb_lt _ _)) by lia. okbind.
    rewrite IH by (rewrite ?length_insert; lia). rewrite (pairs_step n i src a b Ha Hb).
    replace (i + 2)%nat with (S (S i)) by lia. f_equal.
    rewrite drop_insert_lt by lia. replace (j + 1)%nat with (S j) by lia.
    rewrite (take_S_r _ _ (cn_fast_hash (a ++ b))) by (apply list_lookup_insert_eq; lia).
    rewrite take_insert_ge by lia. rewrite <- app_assoc. simpl. do 4 f_equal. lia.
Qed.

Lemma hash_in_place_ok n : forall i j l, (j <= i)%nat -> (i + 2 * n <= length l)%nat ->
  hash_in_place n i j l = Ok (take j l ++ pairs (take (2 * n) (drop i l)) ++ drop (j + n) l).
Proof.
  induction n as [|n IH]; intros i j l Hj Hi.
  - cbn [hash_in_place Nat.mul]. rewrite take_0, Nat.add_0_r. cbn [pairs app]. by rewrite take_drop.
  - destruct (lookup_lt_is_Some_2 l i) as [a Ha]; [lia|].
    destruct (lookup_lt_is_Some_2 l (S i)) as [b Hb]; [lia|].
    cbn [hash_in_place]. replace (i + 1)%nat with (S i) by lia. rewrite (elem_ok _ _ _ Ha), (elem_ok _ _ _ Hb). okbind.
    unfold store. rewrite (proj2 (Nat.ltb_lt _ _)) by lia. okbind.
    rewrite IH by (rewrite ?length_insert; lia). rewrite (pairs_step n i l a b Ha Hb).
    replace (i + 2)%nat with (S (S i)) by lia. f_equal.
    rewrite !drop_insert_lt by lia. replace (j + 1)%nat with (S j) by lia.
    rewrite (take_S_r _ _ (cn_fast_hash (a ++ b))) by (apply list_lookup_insert_eq; lia).
    rewrite take_insert_ge by lia. rewrite <- app_assoc. simpl. do 4 f_equal. lia.
Qed.

(** ** Sizes *)

(** The top [n] bits below and including bit [L] are set, and none above. *)
Definition top_ones (L n y : Z) : Prop :=
  0 <= y /\ (forall b, L < b -> Z.testbit y b = false) /\
  (forall b, 0 <= b -> L - n < b <= L -> Z.testbit y b = true).

Lemma smear_step L n y : 0 < n -> top_ones L n y -> top_ones L (2 * n) (Z.lor y (Z.shiftr y n)).
Proof.
  intros Hn (H0 & Hhi & Hlo). split; [|split].
  - apply Z.lor_nonneg. split; [done|]. by apply Z.shiftr_nonneg.
  - intros b Hb. rewrite Z.lor_spec, Hhi by done. destruct (Z.lt_ge_cases b 0); [by rewrite Z.testbit_neg_r|].
    rewrite Z.shiftr_spec by done. apply Hhi. lia.
  - intros b Hb Hr. rewrite Z.lor_spec, Z.shiftr_spec by done.
    destruct (Z.lt_ge_cases (L - n) b); [by rewrite Hlo by lia|].
    rewrite (Hlo (b + n)) by lia. apply orb_true_r.
Qed.

Lemma smear_ones x : 0 < x < 2 ^ 64 -> smear x = 2 ^ (Z.log2 x + 1) - 1.
Proof.
  intros Hx. set (L := Z.log2 x). assert (HL : 0 <= L < 64).
  { split; [apply Z.log2_nonneg|apply Z.log2_lt_pow2; lia]. }
  assert (H1 : top_ones L 1 x).
  { split; [lia|]. split; [intros b Hb; apply Z.bits_above_log2; lia|].
    intros b _ Hb. replace b with L by lia. apply Z.bit_log2. lia. }
  assert (H64 : top_ones L 64 (smear x)).
  { unfold smear. cbn [foldl]. do 6 (apply (smear_step L) in H1; [|lia]; cbn [Z.mul Pos.mul] in H1). exact H1. }
  destruct H64 as (H0 & Hhi & Hlo).
  replace (2 ^ (L + 1) - 1) with (Z.ones (L + 1)) by (rewrite Z.ones_equiv; lia).
  apply Z.bits_inj'. intros b Hb. destruct (Z.lt_ge_cases L b).
  - by rewrite Hhi, Z.ones_spec_high by lia.
  - by rewrite Hlo, Z.ones_spec_low by lia.
Qed.

Lemma top_bit_ok x : 0 < x < 2 ^ 64 -> top_bit x = 2 ^ Z.log2 x.
Proof.
  intros Hx. unfold top_bit. rewrite smear_ones by done. set (L := Z.log2 x).
  assert (HL : 0 <= L < 64) by (split; [apply Z.log2_nonneg|apply Z.log2_lt_pow2; lia]).
  replace (2 ^ (L + 1) - 1) with (Z.ones (L + 1)) by (rewrite Z.ones_equiv; lia).
  apply Z.bits_inj'. intros b Hb. rewrite Z.land_spec. unfold wrap.
  rewrite Z.pow2_bits_eqb by lia. destruct (Z.lt_trichotomy L b) as [?|[->|?]].
  - rewrite Z.ones_spec_high by lia. symmetry. apply Z.eqb_neq. lia.
  - rewrite Z.ones_spec_low, Z.mod_pow2_bits_low, Z.lnot_spec, Z.shiftr_spec, Z.ones_spec_high by lia.
    by rewrite Z.eqb_refl.
  - rewrite Z.ones_spec_low, Z.mod_pow2_bits_low, Z.lnot_spec, Z.shiftr_spec, Z.ones_spec_low by lia.
    symmetry. apply Z.eqb_neq. lia.
Qed.

Lemma tree_depth_ok count : 0 < count < 2 ^ 64 -> tree_depth count = Ok (Z.log2 count).
Proof.
  intros Hc. unfold tree_depth. rewrite (proj2 (Z.ltb_lt _ _)) by lia. okbind. f_equal.
  set (f := fun '(count, depth) i => _).
  assert (Step : forall c d i, 0 < i -> 0 < c < 2 ^ (2 * i) ->
    exists c' d', f (c, d) i = (c', d') /\ 0 < c' < 2 ^ i /\ d + Z.log2 c = d' + Z.log2 c').
  { intros c d i Hi Hr. unfold f. pose proof (Z.log2_shiftr c i ltac:(lia)) as Hl.
    rewrite Z.shiftr_div_pow2 in * by lia. replace (2 * i) with (i + i) in Hr by lia.
    rewrite Z.pow_add_r in Hr by lia. destruct (Z.ltb_spec 0 (c / 2 ^ i)).
    - eexists _, _. split; [done|]. split; [split; [done|]; apply Z.div_lt_upper_bound; lia|].
      rewrite Hl. assert (Hle : 2 ^ i <= c).
      { destruct (Z.le_gt_cases (2 ^ i) c); [done|]. rewrite Z.div_small in * by lia. lia. }
      apply Z.log2_le_pow2 in Hle; lia.
    - eexists _, _. split; [done|]. assert (c / 2 ^ i = 0) as E by (pose proof (Z.div_pos c (2 ^ i)); lia).
      apply Z.div_small_iff in E; lia. }
  unfold halvings. cbn [foldl].
  edestruct (Step count 0 32) as (c1 & d1 & -> & H1 & E1); [lia|exact Hc|].
  edestruct (Step c1 d1 16) as (c2 & d2 & -> & H2 & E2); [lia|exact H1|].
  edestruct (Step c2 d2 8) as (c3 & d3 & -> & H3 & E3); [lia|exact H2|].
  edestruct (Step c3 d3 4) as (c4 & d4 & -> & H4 & E4); [lia|exact H3|].
  edestruct (Step c4 d4 2) as (c5 & d5 & -> & H5 & E5); [lia|exact H4|].
  edestruct (Step c5 d5 1) as (c6 & d6 & -> & H6 & E6); [lia|exact H5|].
  cbn [snd]. change (2 ^ 1) with 2 in H6. assert (c6 = 1) as -> by lia. change (Z.log2 1) with 0 in E6. lia.
Qed.

Lemma branch_size_ok count : 0 < count < 2 ^ 64 ->
  branch_size count = (2 ^ Z.log2 count, Z.log2 count).
Proof.
  intros Hc. unfold branch_size. set (f := fun '(cnt, depth) i => _).
  assert (Step : forall d i, 0 < i -> 0 <= d -> d + i < 64 -> 2 ^ d <= count < 2 ^ (d + 2 * i) ->
    exists d', f (2 ^ d, d) i = (2 ^ d', d') /\ 0 <= d' /\ d' <= d + i /\ 2 ^ d' <= count < 2 ^ (d' + i)).
  { intros d i Hi Hd Hdi Hr. unfold f. rewrite Z.shiftl_mul_pow2, <- Z.pow_add_r by lia.
    assert (2 ^ (d + i) < 2 ^ 64) by (apply Z.pow_lt_mono_r; lia).
    rewrite wrap_small by (split; [apply Z.pow_nonneg; lia|done]).
    destruct (Z.leb_spec (2 ^ (d + i)) count).
    - exists (d + i). split; [done|]. split; [lia|]. split; [lia|]. split; [done|].
      replace (d + i + i) with (d + 2 * i) by lia. lia.
    - exists d. split; [done|]. split; [done|]. lia. }
  unfold halvings. cbn [foldl]. change 1 with (2 ^ 0) at 1.
  edestruct (Step 0 32) as (d1 & -> & P1 & Q1 & H1); [lia..|simpl; lia|].
  edestruct (Step d1 16) as (d2 & -> & P2 & Q2 & H2); [lia..|exact H1|].
  edestruct (Step d2 8) as (d3 & -> & P3 & Q3 & H3); [lia..|exact H2|].
  edestruct (Step d3 4) as (d4 & -> & P4 & Q4 & H4); [lia..|exact H3|].
  edestruct (Step d4 2) as (d5 & -> & P5 & Q5 & H5); [lia..|exact H4|].
  edestruct (Step d5 1) as (d6 & -> & P6 & Q6 & H6); [lia..|exact H5|].
  assert (E : Z.log2 count = d6) by (apply Z.log2_unique; [lia|]; replace (Z.succ d6) with (d6 + 1) by lia; done).
  by rewrite E.
Qed.

(** ** The tree

    With [2^d] the largest power of two not above the count, the lowest full
    level of the tree has [2^d] nodes: the first leaves as they are, and the
    remaining leaves in pairs.  [reduce d] collapses a full level. *)
Fixpoint reduce (d : nat) (l : list Hash) : list Hash :=
  match d with O => l | S d => reduce d (pairs l) end.
Definition level (d : nat) (hashes : list Hash) : list Hash :=
  let k := (2 * 2 ^ d - length hashes)%nat in take k hashes ++ pairs (drop k hashes).

Lemma reduce_S d l : reduce (S d) l = pairs (reduce d l).
Proof. revert l. induction d as [|d IH]; intros l; [done|]. cbn [reduce] in *. by rewrite IH. Qed.

Lemma length_reduce d m : forall l, length l = (2 ^ d * m)%nat -> length (reduce d l) = m.
Proof.
  induction d as [|d IH]; intros l Hl; [simpl in *; lia|]. cbn [reduce]. apply IH.
  apply length_pairs. rewrite Hl, Nat.pow_succ_r'. lia.
Qed.

Lemma length_level d hashes : (2 ^ d <= length hashes <= 2 * 2 ^ d)%nat -> length (level d hashes) = (2 ^ d)%nat.
Proof.
  intros H. unfold level. rewrite length_app, length_take, (length_pairs (length hashes - 2 ^ d)); [lia|].
  rewrite length_drop. lia.
Qed.

Lemma pow2_nat d : Z.of_nat (2 ^ d) = 2 ^ Z.of_nat d.
Proof. apply Nat2Z.inj_pow. Qed.

Lemma tree_hash_loop_ok d : forall fuel ints, (S d <= fuel)%nat -> (2 ^ S d <= length ints)%nat ->
  exists ints', tree_hash_loop fuel (2 ^ Z.of_nat (S d)) ints = Ok ints' /\
    take 2 ints' = reduce d (take (2 ^ S d) ints).
Proof.
  induction d as [|d IH]; intros fuel ints Hf Hl; (destruct fuel as [|fuel]; [lia|]); cbn [tree_hash_loop].
  - exists ints. done.
  - assert (E : 2 ^ Z.of_nat (S (S d)) = 2 * 2 ^ Z.of_nat (S d)) by (rewrite <- Z.pow_succ_r by lia; f_equal; lia).
    assert (1 <= 2 ^ Z.of_nat d) by (pose proof (Z.pow_pos_nonneg 2 (Z.of_nat d)); lia).
    assert (E' : 2 ^ Z.of_nat (S d) = 2 * 2 ^ Z.of_nat d) by (rewrite <- Z.pow_succ_r by lia; f_equal; lia).
    rewrite (proj2 (Z.ltb_lt 2 _)) by lia.
    replace (Z.shiftr (2 ^ Z.of_nat (S (S d))) 1) with (2 ^ Z.of_nat (S d))
      by (rewrite Z.shiftr_div_pow2 by lia; rewrite E; change (2 ^ 1) with 2; rewrite Z.mul_comm, Z.div_mul by lia; done).
    cbn zeta. rewrite <- pow2_nat, Nat2Z.id.
    assert (Hp : (2 ^ S (S d) = 2 * 2 ^ S d)%nat) by apply Nat.pow_succ_r'.
    rewrite hash_in_place_ok by lia. okbind. rewrite take_0, drop_0, app_nil_l, Nat.add_0_l, pow2_nat.
    assert (Hlen : length (pairs (take (2 * 2 ^ S d) ints)) = (2 ^ S d)%nat)
      by (apply length_pairs; rewrite length_take; lia).
    edestruct (IH fuel) as (ints' & H1 & H2); [lia| |exists ints'; split; [exact H1|]].
    + rewrite length_app, Hlen. lia.
    + rewrite H2, take_app_le, take_ge by lia. by rewrite <- Hp.
Qed.

(** *** The root *)

Lemma list_two (l : list Hash) : length l = 2%nat -> exists a b, l = [a; b].
Proof. destruct l as [|a [|b [|]]]; try discriminate. eauto. Qed.
Lemma list_one (l : list Hash) : length l = 1%nat -> exists a, l = [a].
Proof. destruct l as [|a [|]]; try discriminate. eauto. Qed.

Lemma lookup_take_2 (l : list Hash) a b : take 2 l = [a; b] -> elem l 0 = Ok a /\ elem l 1 = Ok b.
Proof. destruct l as [|x [|y l]]; intros H; simplify_eq/=. done. Qed.

Lemma log2_pred c : 3 <= c ->
  Z.log2 (c - 1) = Z.log2 c \/ (c = 2 ^ Z.log2 c /\ Z.log2 (c - 1) = Z.log2 c - 1).
Proof.
  intros Hc. pose proof (Z.log2_spec c ltac:(lia)) as [H1 H2].
  destruct (Z.eq_dec c (2 ^ Z.log2 c)) as [E|E].
  - right. split; [done|]. assert (0 < Z.log2 c) by (apply Z.log2_pos; lia).
    apply Z.log2_unique; [lia|].
    replace (Z.succ (Z.log2 c - 1)) with (Z.log2 c) by lia.
    assert (2 ^ Z.log2 c = 2 * 2 ^ (Z.log2 c - 1)) by (rewrite <- Z.pow_succ_r by lia; f_equal; lia).
    assert (0 < 2 ^ (Z.log2 c - 1)) by (apply Z.pow_pos_nonneg; lia). lia.
  - left. apply Z.log2_unique; [apply Z.log2_nonneg|]. lia.
Qed.

(** A full power of two may be looked at as one level further down. *)
Lemma reduce_level_pow2 d hashes : length hashes = (2 ^ S d)%nat ->
  reduce d (level d hashes) = reduce (S d) (level (S d) hashes).
Proof.
  intros Hl. cbn [reduce]. unfold level. rewrite Hl, !Nat.pow_succ_r'.
  replace (2 * 2 ^ d - 2 * 2 ^ d)%nat with 0%nat by lia.
  rewrite Nat.pow_succ_r' in Hl. rewrite take_0, drop_0, (take_ge hashes), (drop_ge hashes) by lia.
  by rewrite app_nil_r.
Qed.

(** [tree_hash] computes the root of the tree. *)
Lemma tree_hash_ok hashes : (1 <= length hashes)%nat -> Z.of_nat (length hashes) < 2 ^ 63 ->
  exists r, tree_hash hashes (Z.of_nat (length hashes)) = Ok r /\
    reduce (Z.to_nat (Z.log2 (Z.of_nat (length hashes)))) (level (Z.to_nat (Z.log2 (Z.of_nat (length hashes)))) hashes) = [r].
Proof.
  intros H1 H63. set (c := Z.of_nat (length hashes)) in *. unfold tree_hash.
  rewrite (proj2 (Z.ltb_lt 0 c)) by lia. okbind.
  destruct (Z.eqb_spec c 1) as [E1|N1].
  { destruct (list_one hashes) as [h ->]; [lia|]. exists h. done. }
  destruct (Z.eqb_spec c 2) as [E2|N2].
  { destruct (list_two hashes) as (a & b & ->); [lia|]. eexists. done. }
  rewrite top_bit_ok by lia. set (e := Z.log2 (c - 1)).
  assert (He : 1 <= e < 63) by (split; [change 1 with (Z.log2 2); apply Z.log2_le_mono; lia|apply Z.log2_lt_pow2; lia]).
  assert (Hp : 2 ^ e <= c - 1 < 2 * 2 ^ e) by (rewrite <- Z.pow_succ_r by lia; apply Z.log2_spec; lia).
  set (d := Z.to_nat (Z.pred e)).
  assert (Ed : Z.of_nat (S d) = e) by lia. pose proof (pow2_nat (S d)) as Hn. rewrite Ed in Hn.
  pose proof (log2_pred c ltac:(lia)) as HL. fold e in HL. clearbody e d.
  rewrite wrap_small by (unfold in_width; eval_pow2; lia).
  rewrite hash_loop_ok; cycle 1. { lia. } { rewrite length_app, length_take, length_replicate. lia. } okbind.
  rewrite (proj2 (Z.eqb_eq _ _)) by lia. okbind.
  set (k := Z.to_nat (2 * 2 ^ e - c)). set (n := Z.to_nat (2 ^ e - (2 * 2 ^ e - c))).
  assert (EL : take k (take k hashes ++ replicate n NULL_HASH) ++ pairs (take (2 * n) (drop k hashes)) ++
               drop (k + n) (take k hashes ++ replicate n NULL_HASH) = level (S d) hashes).
  { unfold level. replace (2 * 2 ^ S d - length hashes)%nat with k by lia.
    rewrite take_app_le, take_take, Nat.min_id by (rewrite length_take; lia).
    rewrite (take_ge (drop k hashes)) by (rewrite length_drop; lia).
    rewrite (drop_ge (take k hashes ++ _)) by (rewrite length_app, length_take, length_replicate; lia).
    by rewrite app_nil_r. }
  rewrite EL. assert (Hlev : length (level (S d) hashes) = (2 ^ S d)%nat) by (apply length_level; lia).
  destruct (tree_hash_loop_ok d 64 (level (S d) hashes)) as (ints & Hi & Ht); [lia|lia|].
  rewrite Ed in Hi. rewrite Hi. okbind. rewrite (take_ge (level _ _)) in Ht by lia.
  destruct (list_two (reduce d (level (S d) hashes))) as (a & b & Eab).
  { apply length_reduce. rewrite Hlev, Nat.pow_succ_r'. lia. }
  rewrite Eab in Ht. apply lookup_take_2 in Ht as [-> ->]. okbind. eexists. split; [done|].
  assert (ER : reduce (S d) (level (S d) hashes) = [cn_fast_hash (a ++ b)]) by (rewrite reduce_S, Eab; done).
  rewrite <- ER. destruct HL as [El|[Ec El]].
  - rewrite <- El. by replace (Z.to_nat e) with (S d) by lia.
  - replace (Z.to_nat (Z.log2 c)) with (S (S d)) by lia. symmetry. apply reduce_level_pow2.
    rewrite <- (Nat2Z.id (2 ^ S (S d))), pow2_nat. replace (Z.of_nat (S (S d))) with (Z.log2 c) by lia. lia.
Qed.

(** *** The branch of the first leaf *)

(** Fold the branch into the leaf, from the bottom up. *)
Fixpoint climb (d : nat) (branch : list Hash) (leaf : Hash) : Hash :=
  match d with
  | O => leaf
  | S d => climb d branch (cn_fast_hash (leaf ++ nth d branch NULL_HASH))
  end.

Lemma from_branch_ok branch leaf d : (d <= length branch)%nat ->
  tree_hash_from_branch branch d leaf None = Ok (climb d branch leaf).
Proof.
  assert (G : forall d buf, (d <= length branch)%nat ->
    (b ← from_branch_loop d branch None buf None; Ok (cn_fast_hash (fst b ++ snd b)))
    = Ok (climb d branch (cn_fast_hash (fst buf ++ snd buf)))).
  { clear d. induction d as [|d IH]; intros buf Hd; [done|]. cbn [from_branch_loop path_bit climb]. okbind.
    destruct (lookup_lt_is_Some_2 branch d) as [h Hh]; [lia|]. rewrite (elem_ok _ _ _ Hh). okbind.
    rewrite IH by lia. simpl. by rewrite (nth_lookup_Some _ _ _ _ Hh). }
  intros Hd. unfold tree_hash_from_branch. destruct d as [|d]; [done|].
  cbn [Nat.eqb from_branch_loop path_bit climb]. okbind.
  destruct (lookup_lt_is_Some_2 branch d) as [h Hh]; [lia|]. rewrite (elem_ok _ _ _ Hh). okbind.
  rewrite G by lia. simpl. by rewrite (nth_lookup_Some _ _ _ _ Hh).
Qed.

Lemma tree_branch_loop_ok d : forall ints branch, (2 ^ d - 1 <= length ints)%nat -> (d <= length branch)%nat ->
  exists branch', tree_branch_loop d (2 ^ Z.of_nat d) ints branch = Ok branch' /\
    length branch' = length branch /\ (forall i, (d <= i)%nat -> branch' !! i = branch !! i) /\
    forall h, reduce d (h :: take (2 ^ d - 1) ints) = [climb d branch' h].
Proof.
  induction d as [|d IH]; intros ints branch Hi Hb; cbn [tree_branch_loop].
  { exists branch. done. }
  rewrite Z.shiftl_mul_pow2, Z.mul_1_l, Z.eqb_refl by lia. okbind.
  assert (E : 2 ^ Z.of_nat (S d) = 2 ^ Z.of_nat d * 2)
    by (rewrite Z.mul_comm, <- Z.pow_succ_r by lia; f_equal; lia).
  replace (Z.shiftr (2 ^ Z.of_nat (S d)) 1) with (2 ^ Z.of_nat d)
    by (rewrite Z.shiftr_div_pow2 by lia; change (2 ^ 1) with 2; rewrite E, Z.div_mul by lia; done).
  pose proof (Nat.pow_succ_r' 2 d) as Hp. assert (H0 : (1 <= 2 ^ d)%nat) by (pose proof (Nat.pow_nonzero 2 d); lia).
  destruct ints as [|h0 ints]; [simpl in *; lia|]. unfold elem at 1. cbn [lookup list_lookup from_option]. okbind.
  unfold store at 1. rewrite (proj2 (Nat.ltb_lt _ _)) by lia. okbind. cbn zeta.
  replace (Z.to_nat (2 ^ Z.of_nat d - 1)) with (2 ^ d - 1)%nat by (rewrite <- pow2_nat; lia).
  cbn [length] in Hi. rewrite hash_in_place_ok by (cbn [length]; lia). okbind.
  rewrite take_0, app_nil_l, Nat.add_0_l. cbn [drop]. rewrite drop_0.
  set (P := pairs (take (2 * (2 ^ d - 1)) ints)).
  assert (HP : length P = (2 ^ d - 1)%nat) by (apply length_pairs; rewrite length_take; lia).
  destruct (IH (P ++ drop (2 ^ d - 1) (h0 :: ints)) (<[d:=h0]> branch)) as (branch' & H1 & H2 & H3 & H4).
  { rewrite length_app. lia. } { rewrite length_insert. lia. }
  exists branch'. split; [done|]. rewrite length_insert in H2. split; [done|]. split.
  { intros i Hi'. rewrite H3 by lia. apply list_lookup_insert_ne. lia. }
  intros h. replace (2 ^ S d - 1)%nat with (S (2 * (2 ^ d - 1))) by lia. cbn [take reduce pairs climb].
  assert (Hd : branch' !! d = Some h0) by (rewrite H3 by lia; apply list_lookup_insert_eq; lia).
  rewrite (nth_lookup_Some _ _ _ _ Hd). specialize (H4 (cn_fast_hash (h ++ h0))).
  rewrite take_app_le, take_ge in H4 by lia. exact H4.
Qed.

Lemma level_cons d h hashes : (length (h :: hashes) < 2 * 2 ^ d)%nat ->
  let k := (2 * 2 ^ d - length (h :: hashes))%nat in
  level d (h :: hashes) = h :: take (k - 1) hashes ++ pairs (drop k (h :: hashes)).
Proof.
  intros Hl k. unfold level. fold k. assert (Hk : k = S (k - 1)) by lia. by rewrite Hk at 1.
Qed.

Lemma tree_branch_ok h hashes branch : Z.of_nat (length (h :: hashes)) < 2 ^ 63 ->
  let d := Z.to_nat (Z.log2 (Z.of_nat (length (h :: hashes)))) in (d <= length branch)%nat ->
  exists branch', tree_branch (h :: hashes) (Z.of_nat (length (h :: hashes))) branch = Ok branch' /\
    length branch' = length branch /\ reduce d (level d (h :: hashes)) = [climb d branch' h].
Proof.
  intros H63 d Hb. set (l := h :: hashes) in *. set (c := Z.of_nat (length l)) in *. unfold tree_branch.
  assert (Hc : 1 <= c) by (subst c l; cbn [length]; lia).
  rewrite (proj2 (Z.ltb_lt 0 c)) by lia. okbind. rewrite branch_size_ok by (eval_pow2; lia).
  rewrite Z.shiftl_mul_pow2, Z.mul_1_l, Z.eqb_refl by apply Z.log2_nonneg. okbind.
  rewrite tree_depth_ok by (eval_pow2; lia). okbind. rewrite Z.eqb_refl. okbind.
  assert (Hs : 2 ^ Z.log2 c <= c < 2 * 2 ^ Z.log2 c)
    by (rewrite <- Z.pow_succ_r by apply Z.log2_nonneg; apply Z.log2_spec; lia).
  assert (Ed : Z.of_nat d = Z.log2 c) by (subst d; rewrite Z2Nat.id by apply Z.log2_nonneg; done).
  pose proof (pow2_nat d) as Hn. rewrite <- Ed in Hs |- *. rewrite <- Hn in *. clearbody d.
  rewrite (wrap_small 64) by (unfold in_width; eval_pow2; lia).
  rewrite hash_loop_ok; cycle 1. { lia. }
  { rewrite length_app, length_take, length_replicate, length_drop. lia. } okbind.
  rewrite (proj2 (Z.eqb_eq _ _)) by lia. okbind.
  set (k := (2 * 2 ^ d - length l)%nat).
  replace (Z.to_nat (2 * Z.of_nat (2 ^ d) - c)) with k by lia.
  replace (Z.to_nat (2 * Z.of_nat (2 ^ d) - c - 1)) with (k - 1)%nat by lia.
  replace (Z.to_nat (Z.of_nat (2 ^ d) - (2 * Z.of_nat (2 ^ d) - c))) with (2 ^ d - k)%nat by lia.
  rewrite take_app_le, take_take, Nat.min_id by (rewrite length_take, length_drop; lia).
  rewrite (take_ge (drop k l)) by (rewrite length_drop; lia).
  rewrite (drop_ge (take (k - 1) (drop 1 l) ++ _)) by (rewrite length_app, length_take, length_replicate, length_drop; lia).
  rewrite app_nil_r. change (drop 1 l) with hashes.
  pose proof (level_cons d h hashes ltac:(fold l; lia)) as HL. cbn zeta in HL. fold l k in HL.
  assert (Hlen : length (level d l) = (2 ^ d)%nat) by (apply length_level; lia).
  rewrite Nat2Z.id, Hn. rewrite HL in Hlen. cbn [length] in Hlen.
  edestruct (tree_branch_loop_ok d (take (k - 1) hashes ++ pairs (drop k l)) branch) as (b' & H1 & H2 & _ & H4); [lia|done|].
  exists b'. split; [done|]. split; [done|]. by rewrite HL, <- H4, (take_ge (_ ++ _)) by lia.
Qed.

(** ** Properties *)

(** C34: for every non-empty list of hashes, [tree_branch] fills a branch of
    [tree_depth] hashes, and [tree_hash_from_branch] applied to the first leaf
    and that branch gives the root [tree_hash] computes: a parent block's
    branch proves that the base transaction is in the block.  None of the three
    reads or writes outside its arrays, and none of their assertions fails. *)
Theorem branch_proves_root h hashes branch depth :
  let count := Z.of_nat (length (h :: hashes)) in
  count < 2 ^ 63 -> tree_depth count = Ok depth -> length branch = Z.to_nat depth ->
  exists branch' root,
    tree_branch (h :: hashes) count branch = Ok branch' /\ length branch' = length branch /\
    tree_hash (h :: hashes) count = Ok root /\
    tree_hash_from_branch branch' (length branch') h None = Ok root.
Proof.
  intros count H63 Hd Hb. assert (Hc : 0 < count) by (subst count; cbn [length]; lia).
  rewrite tree_depth_ok in Hd by (eval_pow2; lia). injection Hd as <-.
  destruct (tree_branch_ok h hashes branch H63) as (b' & H1 & H2 & H3); [by rewrite Hb|].
  destruct (tree_hash_ok (h :: hashes)) as (r & H4 & H5); [cbn [length]; lia|done|].
  exists b', r. split; [done|]. split; [done|]. split; [done|].
  rewrite from_branch_ok by lia. fold count in H3, H5. rewrite H3 in H5. injection H5 as <-.
  rewrite H2, Hb. done.
Qed.

(** [tree_depth] is the binary logarithm of the count, rounded down. *)
Theorem tree_depth_log2 count : 0 < count < 2 ^ 64 -> tree_depth count = Ok (Z.log2 count).
Proof. apply tree_depth_ok. Qed.
End tree.

Lemma branch_proves_root_witness :
  let H := fun b : bytes => take 32 (b ++ replicate 32 0) in
  let l := [[2]; [3]; [4]; [5]; [6]; [7]] : list Hash in
  exists branch' root,
    tree_branch H ([1] :: l) 7 [[]; []] = Ok branch' /\ length branch' = 2%nat /\
    tree_hash H ([1] :: l) 7 = Ok root /\ tree_hash_from_branch H branch' (length branch') [1] None = Ok root.
Proof.
  intros H l. apply (branch_proves_root H [1] l [[]; []] 2); by vm_compute.
Defined.

Lemma tree_depth_log2_witness : tree_depth 1000 = Ok 9.
Proof. exact (tree_depth_log2 1000 (conj eq_refl eq_refl)). Defined.
