(* ===== verification/BlockSerialization.v ===== *)
(** * BlockSerialization: blocks in [serialization/CryptoNoteSerialization.cpp],
      the hashes of [common/CryptoNoteTools] and [cryptonotecore/CachedBlock.cpp]

    [cn_fast_hash] is a parameter.  The memo fields of [CachedBlock] are left
    out: each getter is the function whose result it stores. *)

From Stdlib Require Import ZArith Lia.
From stdpp Require Import base tactics list numbers strings.
From S2P Require Import Prelude Config Stream Types Serializer TxSerialization TransactionExtra TreeHash.

Local Open Scope Z_scope.

Section blocks.
Context (cn_fast_hash : bytes -> Hash).

(** ** [CryptoNoteTools] *)

Definition getBinaryArrayHash (binaryArray : bytes) : Hash := cn_fast_hash binaryArray.

(** [getObjectHash(object, hash)]: the flag and the hash. *)
Definition getObjectHash {A} (f : ser A) (object : A) : outcome (bool * Hash) :=
  ba ← toBinaryArray_opt f object;
  Ok (match ba with None => (false, NULL_HASH) | Some ba => (true, getBinaryArrayHash ba) end).

(** [toBinaryArray] of a byte vector writes it as a string. *)
Definition getObjectHash_bytes (object : bytes) : Hash := getBinaryArrayHash (out_string object []).

(** The constant that stands for the missing parts of a version 2 transaction. *)
Definition base_tx_v2_middle : bytes :=
  [0xbc; 0x36; 0x78; 0x9e; 0x7a; 0x1e; 0x28; 0x14; 0x36; 0x46;
   0x42; 0x29; 0x82; 0x8f; 0x81; 0x7d; 0x66; 0x12; 0xf7; 0xb4; 0x77; 0xd6; 0x65; 0x91;
   0xff; 0x96; 0xa9; 0xe0; 0x64; 0xbc; 0xc9; 0x8a].

Definition getBaseTransactionHash (tx : BaseTransaction) : outcome (option Hash) :=
  if version tx <? TRANSACTION_VERSION_2 then
    '(ok, h) ← getObjectHash serialize_BaseTransaction tx; Ok (if (ok : bool) then Some h else None)
  else
    '(ok, h) ← getObjectHash serialize_TransactionPrefix tx;
    Ok (if (ok : bool) then Some (getBinaryArrayHash (h ++ base_tx_v2_middle ++ replicate 32 0)) else None).

(** ** [serialize(ParentBlockSerializer &)]: the parent block and the
    timestamp and nonce that belong to the block's header. *)

Record pbs := { m_parentBlock : ParentBlock; m_timestamp : Z; m_nonce : Z }.

(** An array whose size is known before it is read. *)
Definition sized_hashes (size : nat) (error : string) : ser (list Hash) := fun l s =>
  _ ← require (is_input s || (length l =? size)%nat) error;
  serialize_items (binary 32) (if is_input s then resize size NULL_HASH l else l) s.

Definition serialize_ParentBlock (hashingSerialization headerOnly : bool) : ser pbs := fun p s =>
  let pb := m_parentBlock p in
  '(major, s) ← op_uint 8 (pb_majorVersion pb) s;
  '(minor, s) ← op_uint 8 (pb_minorVersion pb) s;
  '(ts, s) ← op_uint 64 (m_timestamp p) s;
  '(prev, s) ← binary 32 (pb_previousBlockHash pb) s;
  '(nonce, s) ← binary 4 (le_bytes 4 (m_nonce p)) s;
  s ← (if hashingSerialization then
         h ← getBaseTransactionHash (pb_baseTransaction pb);
         match h with
         | None => Throw "Get transaction hash error"
         | Some minerTxHash =>
             root ← tree_hash_from_branch cn_fast_hash (baseTransactionBranch pb)
                      (length (baseTransactionBranch pb)) minerTxHash None;
             '(_, s) ← binary 32 root s; Ok s
         end
       else Ok s);
  '(txNum, s) ← op_uint 64 (transactionCount pb) s;
  let count := u16 txNum in
  _ ← require (1 <=? count) "Wrong transactions number";
  if headerOnly then
    Ok ({| m_parentBlock := {| pb_majorVersion := major; pb_minorVersion := minor; pb_previousBlockHash := prev;
             transactionCount := count; baseTransactionBranch := baseTransactionBranch pb;
             pb_baseTransaction := pb_baseTransaction pb; blockchainBranch := blockchainBranch pb |};
           m_timestamp := ts; m_nonce := le_val nonce |}, s)
  else
    branchSize ← tree_depth count;
    '(branch, s) ← sized_hashes (Z.to_nat branchSize) "Wrong miner transaction branch size"
                     (baseTransactionBranch pb) s;
    '(base, s) ← serialize_BaseTransaction (pb_baseTransaction pb) s;
    mm ← getMergeMiningTagFromExtra (extra base);
    match mm with
    | None => Throw "Can't get extra merge mining tag"
    | Some mmTag =>
        _ ← require (depth mmTag <=? 8 * 32) "Wrong merge mining tag depth";
        '(chain, s) ← sized_hashes (Z.to_nat (depth mmTag))
            "Blockchain branch size must be equal to merge mining tag depth" (blockchainBranch pb) s;
        Ok ({| m_parentBlock := {| pb_majorVersion := major; pb_minorVersion := minor; pb_previousBlockHash := prev;
                 transactionCount := count; baseTransactionBranch := branch;
                 pb_baseTransaction := base; blockchainBranch := chain |};
               m_timestamp := ts; m_nonce := le_val nonce |}, s)
    end.

(** ** Headers and blocks *)

Definition serializeBlockHeader : ser BlockHeader := fun h s =>
  '(major, s) ← op_uint 8 (majorVersion h) s;
  _ ← require (major <=? BLOCK_MAJOR_VERSION_7) "Wrong major version";
  '(minor, s) ← op_uint 8 (minorVersion h) s;
  if major =? BLOCK_MAJOR_VERSION_1 then
    '(ts, s) ← op_uint 64 (timestamp h) s;
    '(prev, s) ← binary 32 (previousBlockHash h) s;
    '(n, s) ← binary 4 (le_bytes 4 (nonce h)) s;
    Ok ({| majorVersion := major; minorVersion := minor; nonce := le_val n; timestamp := ts;
           previousBlockHash := prev |}, s)
  else if BLOCK_MAJOR_VERSION_2 <=? major then
    '(prev, s) ← binary 32 (previousBlockHash h) s;
    Ok ({| majorVersion := major; minorVersion := minor; nonce := nonce h; timestamp := timestamp h;
           previousBlockHash := prev |}, s)
  else Throw "Wrong major version".

(** The parent block serializer refers to the block's own timestamp and nonce. *)
Definition makeParentBlockSerializer (b : BlockTemplate) : pbs :=
  {| m_parentBlock := parentBlock b; m_timestamp := timestamp (header b); m_nonce := nonce (header b) |}.

Definition serialize_BlockTemplate : ser BlockTemplate := fun b s =>
  '(h, s) ← serializeBlockHeader (header b) s;
  '(h, pb, s) ← (if BLOCK_MAJOR_VERSION_2 <=? majorVersion h then
        '(p, s) ← serialize_ParentBlock false false
            {| m_parentBlock := parentBlock b; m_timestamp := timestamp h; m_nonce := nonce h |} s;
        Ok ({| majorVersion := majorVersion h; minorVersion := minorVersion h; nonce := m_nonce p;
               timestamp := m_timestamp p; previousBlockHash := previousBlockHash h |}, m_parentBlock p, s)
      else Ok (h, parentBlock b, s));
  '(tx, s) ← serialize_Transaction (baseTransaction b) s;
  '(hashes, s) ← serializeContainer NULL_HASH (binary 32) (transactionHashes b) s;
  Ok ({| header := h; parentBlock := pb; baseTransaction := tx; transactionHashes := hashes |}, s).

(** ** [CachedBlock] *)

Definition getTransactionTreeHash (b : BlockTemplate) : outcome Hash :=
  '(_, h) ← getObjectHash serialize_Transaction (baseTransaction b);
  let hashes := h :: transactionHashes b in
  tree_hash cn_fast_hash hashes (Z.of_nat (length hashes)).

Definition getBlockHashingBinaryArray (b : BlockTemplate) : outcome bytes :=
  r ← toBinaryArray_opt serializeBlockHeader (header b);
  match r with
  | None => Throw "Can't serialize BlockHeader"
  | Some result =>
      treeHash ← getTransactionTreeHash b;
      Ok (result ++ treeHash ++ get_varint_data (Z.of_nat (length (transactionHashes b)) + 1))
  end.

Definition getParentBlockBinaryArray (b : BlockTemplate) (headerOnly : bool) : outcome bytes :=
  r ← toBinaryArray_opt (serialize_ParentBlock false headerOnly) (makeParentBlockSerializer b);
  match r with
  | None => Throw (if headerOnly then "Can't serialize parent block header." else "Can't serialize parent block.")
  | Some a => Ok a
  end.

Definition getParentBlockHashingBinaryArray (b : BlockTemplate) (headerOnly : bool) : outcome bytes :=
  r ← toBinaryArray_opt (serialize_ParentBlock true headerOnly) (makeParentBlockSerializer b);
  match r with
  | None => Throw (if headerOnly then "Can't serialize parent block header for hashing."
                   else "Can't serialize parent block for hashing.")
  | Some a => Ok a
  end.

Definition getBlockHash (b : BlockTemplate) : outcome Hash :=
  a ← getBlockHashingBinaryArray b;
  a ← (if BLOCK_MAJOR_VERSION_2 <=? majorVersion (header b) then
         p ← getParentBlockHashingBinaryArray b false; Ok (a ++ p)
       else Ok a);
  Ok (getObjectHash_bytes a).

(** The slow hashes are chosen by block version from
    [HASHING_ALGORITHMS_BY_BLOCK_VERSION], a parameter. *)
Definition getBlockLongHash (algorithm : Z -> option (bytes -> Hash)) (b : BlockTemplate) : outcome Hash :=
  raw ← (if majorVersion (header b) =? BLOCK_MAJOR_VERSION_1 then getBlockHashingBinaryArray b
         else getParentBlockHashingBinaryArray b true);
  match algorithm (majorVersion (header b)) with
  | None => Throw "Unknown block major version."
  | Some hash => Ok (hash raw)
  end.

Definition getAuxiliaryBlockHeaderHash (b : BlockTemplate) : outcome Hash :=
  a ← getBlockHashingBinaryArray b; Ok (getObjectHash_bytes a).

Definition getBlockIndex (b : BlockTemplate) : Z :=
  match inputs (tx_prefix (baseTransaction b)) with
  | [InBase i] => blockIndex i
  | _ => 0
  end.

(** ** Round trips *)

#[local] Instance BaseTransaction_roundtrip : RoundTrip any wf_prefix serialize_BaseTransaction.
Proof.
  intros [v u i o e] (Hv & Hu & Hi & Ho & He). cbn [version unlockTime inputs outputs extra] in *.
  ser_field (op_uint 8) v Hv. ser_field (op_uint 64) u Hu.
  ser_field (serializeContainer (InBase new_BaseInput) serialize_TransactionInput) i Hi.
  ser_field (serializeContainer new_TransactionOutput serialize_TransactionOutput) o Ho.
  ser_field (serializeAsBinary "extra") e He.
  unfold serialize_BaseTransaction. destruct (TRANSACTION_VERSION_2 <=? v) eqn:E.
  - ser_field (op_uint 64) 0 (conj (Z.le_refl 0) eq_refl : is_u64 0).
    exists (x ++ x0 ++ x1 ++ x2 ++ x3 ++ x4). split; [ser_bytes|]. split.
    + intros pre. cbn [version unlockTime inputs outputs extra]. ser_run_write. rewrite E.
      ser_run_write. by rewrite <- !app_assoc.
    + intros d rest _. ser_run_read. rewrite E. ser_read.
  - exists (x ++ x0 ++ x1 ++ x2 ++ x3). split; [ser_bytes|]. split.
    + intros pre. cbn [version unlockTime inputs outputs extra]. ser_run_write. rewrite E.
      okbind. by rewrite <- !app_assoc.
    + intros d rest _. ser_run_read. by rewrite E.
Qed.

#[local] Instance sized_hashes_roundtrip n error :
  RoundTrip any (fun l => Forall (pod 32) l /\ length l = n) (sized_hashes n error).
Proof.
  intros l [Hl Hn]. destruct (items_roundtrip _ (binary 32) l Hl) as (o & Hb & Hw & Hr).
  exists o. split; [done|]. unfold sized_hashes. split.
  - intros pre. cbn [is_input]. rewrite (proj2 (Nat.eqb_eq _ _) Hn). okbind. apply Hw.
  - intros d rest _. cbn [is_input]. okbind. apply Hr. rewrite length_resize. lia.
Qed.

(** Nonces are stored as their four bytes. *)
Lemma nonce_pod n : pod 4 (le_bytes 4 n).
Proof. split; [apply le_bytes_is_bytes|apply length_le_bytes]. Qed.
Lemma nonce_le n : is_u32 n -> le_val (le_bytes 4 n) = n.
Proof. intros Hn. rewrite le_val_le_bytes. apply Z.mod_small. exact Hn. Qed.

(** Parent blocks that can be sent: between 1 and 65535 transactions, a branch
    of the depth of their tree, and a merge-mining tag in the base transaction
    whose depth is the length of the blockchain branch. *)
Record valid_parent (p : pbs) : Prop := {
  vp_major : is_u8 (pb_majorVersion (m_parentBlock p));
  vp_minor : is_u8 (pb_minorVersion (m_parentBlock p));
  vp_prev : pod 32 (pb_previousBlockHash (m_parentBlock p));
  vp_time : is_u64 (m_timestamp p);
  vp_nonce : is_u32 (m_nonce p);
  vp_count : 1 <= transactionCount (m_parentBlock p) < 2 ^ 16;
  vp_branch : Forall (pod 32) (baseTransactionBranch (m_parentBlock p));
  vp_depth : Z.of_nat (length (baseTransactionBranch (m_parentBlock p)))
             = Z.log2 (transactionCount (m_parentBlock p));
  vp_base : wf_prefix (pb_baseTransaction (m_parentBlock p));
  vp_chain : Forall (pod 32) (blockchainBranch (m_parentBlock p));
  vp_tag : exists tag, getMergeMiningTagFromExtra (extra (pb_baseTransaction (m_parentBlock p))) = Ok (Some tag) /\
             depth tag = Z.of_nat (length (blockchainBranch (m_parentBlock p))) /\ depth tag <= 256 }.

(** A parent block, with [txNum] as the number written for the transaction count. *)
Definition parent_bytes (txNum : Z) (p : pbs) (out : bytes) : Prop := exists o1 o2,
  out = o1 ++ writeVarint txNum ++ o2 /\ is_bytes o1 /\ is_bytes o2 /\
  writes (serialize_ParentBlock false false) p (o1 ++ writeVarint (transactionCount (m_parentBlock p)) ++ o2).

Lemma parent_reads p txNum : valid_parent p -> is_u64 txNum -> u16 txNum = transactionCount (m_parentBlock p) ->
  exists out, parent_bytes txNum p out /\ reads any (serialize_ParentBlock false false) p out.
Proof.
  intros V Hn Hcount. destruct p as [[maj min prev cnt br base ch] ts nn].
  destruct V as [V1 V2 V3 V4 V5 V6 V7 V8 V9 V10 (tag & V11 & V12 & V13)].
  cbn [m_parentBlock m_timestamp m_nonce pb_majorVersion pb_minorVersion pb_previousBlockHash
       transactionCount baseTransactionBranch pb_baseTransaction blockchainBranch] in *.
  ser_field (op_uint 8) maj V1. ser_field (op_uint 8) min V2. ser_field (op_uint 64) ts V4.
  ser_field (binary 32) prev V3. ser_field (binary 4) (le_bytes 4 nn) (nonce_pod nn).
  assert (Hd : tree_depth cnt = Ok (Z.log2 cnt)) by (apply tree_depth_ok; eval_pow2; lia).
  assert (L1 : length br = Z.to_nat (Z.log2 cnt)) by lia.
  assert (L2 : length ch = Z.to_nat (depth tag)) by lia.
  ser_field (sized_hashes (Z.to_nat (Z.log2 cnt)) "Wrong miner transaction branch size") br (conj V7 L1).
  ser_field serialize_BaseTransaction base V9.
  ser_field (sized_hashes (Z.to_nat (depth tag)) "Blockchain branch size must be equal to merge mining tag depth") ch
    (conj V10 L2).
  assert (H1c : (1 <=? cnt) = true) by (apply Z.leb_le; lia).
  assert (H256 : (depth tag <=? 8 * 32) = true) by (apply Z.leb_le; lia).
  exists ((x ++ x0 ++ x1 ++ x2 ++ x3) ++ writeVarint txNum ++ (x4 ++ x5 ++ x6)). split.
  - eexists _, _. split; [done|]. split; [ser_bytes|]. split; [ser_bytes|].
    intros pre. unfold serialize_ParentBlock.
    cbn [m_parentBlock m_timestamp m_nonce pb_majorVersion pb_minorVersion pb_previousBlockHash
       transactionCount baseTransactionBranch pb_baseTransaction blockchainBranch].
    rewrite (H0 _). okbind. rewrite (H3 _). okbind. rewrite (H6 _). okbind. rewrite (H9 _). okbind.
    rewrite (H12 _). okbind. unfold op_uint at 1, out_uint. okbind. cbn zeta.
    rewrite wrap_small by (unfold in_width; lia). rewrite H1c. okbind. rewrite Hd. okbind.
    rewrite (H15 _). okbind. rewrite (H18 _). okbind. rewrite V11. okbind. rewrite H256. okbind.
    rewrite (H21 _). okbind. rewrite nonce_le by done. by rewrite <- !app_assoc.
  - intros d rest _. unfold serialize_ParentBlock. rewrite <- !app_assoc.
    rewrite H1 by done. okbind. rewrite H4 by done. okbind. rewrite H7 by done. okbind. rewrite H10 by done. okbind.
    rewrite H13 by done. okbind. unfold op_uint at 1, in_uint, reading.
    rewrite readVarint_writeVarint by (apply vw64 || done). okbind. cbn zeta. rewrite Hcount, H1c. okbind.
    rewrite Hd. okbind. rewrite H16 by done. okbind. rewrite H19 by done. okbind. rewrite V11. okbind.
    rewrite H256. okbind. rewrite H22 by done. okbind. by rewrite nonce_le.
Qed.

(** Blocks of the known versions.  A version 1 block has no parent block: its
    field stays as it was constructed. *)
Record valid_block (b : BlockTemplate) : Prop := {
  vb_major : 1 <= majorVersion (header b) <= 7;
  vb_minor : is_u8 (minorVersion (header b));
  vb_nonce : is_u32 (nonce (header b));
  vb_time : is_u64 (timestamp (header b));
  vb_prev : pod 32 (previousBlockHash (header b));
  vb_parent : if majorVersion (header b) =? 1 then parentBlock b = new_ParentBlock
              else valid_parent (makeParentBlockSerializer b);
  vb_base : valid_tx (baseTransaction b);
  vb_hashes : Forall (pod 32) (transactionHashes b) /\ small_list (transactionHashes b) }.

Definition fresh_block (b : BlockTemplate) : Prop :=
  parentBlock b = new_ParentBlock /\ unsigned (baseTransaction b).

#[local] Instance hashes_roundtrip : RoundTrip any (fun l => Forall (pod 32) l /\ small_list l)
  (serializeContainer NULL_HASH (binary 32)) := serializeContainer_roundtrip _ _ _.

Lemma parent_roundtrip p : valid_parent p -> exists out, is_bytes out /\
  writes (serialize_ParentBlock false false) p out /\ reads any (serialize_ParentBlock false false) p out.
Proof.
  intros V. pose proof (vp_count p V) as Hc.
  destruct (parent_reads p (transactionCount (m_parentBlock p)) V) as (out & (o1 & o2 & -> & B1 & B2 & Hw) & Hr).
  { unfold in_width. eval_pow2. lia. } { apply wrap_small. unfold in_width. lia. }
  eexists. split; [|split; [exact Hw|exact Hr]]. repeat (apply Forall_app; split); try done.
  apply writeVarint_bytes. lia.
Qed.

#[local] Instance block_rt : RoundTrip fresh_block valid_block serialize_BlockTemplate.
Proof.
  intros [[maj min nn ts prev] pb tx hs] [V1 V2 V3 V4 V5 V6 V7 V8].
  cbn [header parentBlock baseTransaction transactionHashes majorVersion minorVersion nonce timestamp previousBlockHash] in *.
  assert (Hmaj : is_u8 maj) by (unfold in_width; eval_pow2; lia).
  ser_field (op_uint 8) maj Hmaj. ser_field (op_uint 8) min V2. ser_field (binary 32) prev V5.
  ser_field serialize_Transaction tx V7. ser_field (serializeContainer NULL_HASH (binary 32)) hs V8.
  assert (E7 : (maj <=? BLOCK_MAJOR_VERSION_7) = true) by (apply Z.leb_le; unfold BLOCK_MAJOR_VERSION_7; lia).
  destruct (Z.eqb_spec maj 1) as [->|Hne].
  - subst pb. ser_field (op_uint 64) ts V4. ser_field (binary 4) (le_bytes 4 nn) (nonce_pod nn).
    exists (x ++ x0 ++ x4 ++ x1 ++ x5 ++ x2 ++ x3). split; [ser_bytes|].
    unfold serialize_BlockTemplate, serializeBlockHeader. split.
    + intros pre. cbn [header parentBlock baseTransaction transactionHashes majorVersion minorVersion nonce timestamp previousBlockHash].
      rewrite (H0 _). okbind. rewrite E7. okbind. cbn [Z.eqb BLOCK_MAJOR_VERSION_1 Pos.eqb]. ser_run_write.
      rewrite nonce_le by done. cbn [majorVersion].
      change (BLOCK_MAJOR_VERSION_2 <=? 1) with false. okbind. ser_run_write. by rewrite <- !app_assoc.
    + intros d rest [Hd1 Hd2]. rewrite <- !app_assoc, H1 by done. okbind. rewrite E7. okbind.
      cbn [Z.eqb BLOCK_MAJOR_VERSION_1 Pos.eqb]. ser_run_read. rewrite nonce_le by done. cbn [majorVersion].
      change (BLOCK_MAJOR_VERSION_2 <=? 1) with false. okbind. rewrite Hd1. ser_read.
  - assert (E1 : (maj =? BLOCK_MAJOR_VERSION_1) = false) by (apply Z.eqb_neq; done).
    assert (E2 : (BLOCK_MAJOR_VERSION_2 <=? maj) = true) by (apply Z.leb_le; unfold BLOCK_MAJOR_VERSION_2; lia).
    destruct (parent_roundtrip _ V6) as (op & Hbp & Hwp & Hrp).
    unfold makeParentBlockSerializer in Hwp, Hrp. cbn [header parentBlock timestamp nonce] in Hwp, Hrp.
    exists (x ++ x0 ++ x1 ++ op ++ x2 ++ x3). split; [ser_bytes|].
    unfold serialize_BlockTemplate, serializeBlockHeader. split.
    + intros pre. cbn [header parentBlock baseTransaction transactionHashes majorVersion minorVersion nonce timestamp previousBlockHash].
      rewrite (H0 _). okbind. rewrite E7. okbind. rewrite E1, E2. ser_run_write.
      cbn [header parentBlock baseTransaction transactionHashes majorVersion minorVersion nonce timestamp previousBlockHash].
      rewrite E2. ser_run_write. cbn [m_parentBlock m_nonce m_timestamp]. okbind.
      ser_run_write. by rewrite <- !app_assoc.
    + intros d rest [Hd1 Hd2]. rewrite <- !app_assoc, H1 by done. okbind. rewrite E7. okbind. rewrite E1, E2. ser_run_read.
      cbn [majorVersion minorVersion nonce timestamp previousBlockHash]. rewrite E2. ser_run_read.
      cbn [m_parentBlock m_nonce m_timestamp]. okbind. ser_read.
Qed.

(** Whatever is read from bytes leaves bytes, and the base transaction of a block read
    from bytes is one that was serialized. *)
Definition leaves_bytes {A} (f : ser A) : Prop := forall d inp x s, is_bytes inp -> f d (INPUT inp) = Ok (x, s) ->
  exists rest, s = INPUT rest /\ is_bytes rest.

(** The next call of a chain leaves bytes. *)
Ltac leave_step lem :=
  match goal with
  | Hb : is_bytes ?inp, H : ?f ?d (INPUT ?inp) = Ok ?p |- _ =>
      let Hr := fresh "Hr" in
      first [is_var p; destruct p | idtac]; first [destruct (lem _ _ _ _ Hb H) as (? & -> & Hr)|destruct (lem _ _ _ _ _ _ Hb H) as (? & -> & Hr)]; clear Hb H
  end.

Lemma sized_hashes_leaves n e : leaves_bytes (sized_hashes n e).
Proof.
  intros d inp x s Hb H. unfold sized_hashes in H. inv_ok. cbn [is_input] in H.
  destruct (items_canonical _ (binary 32) _ _ _ _ Hb H) as (_ & _ & out & rest & -> & -> & _). apply Forall_app in Hb as [_ Hb]. eauto.
Qed.

Lemma base_leaves : leaves_bytes serialize_BaseTransaction.
Proof.
  intros d inp x s Hb H. unfold serialize_BaseTransaction in H. ser_inv. case_match; ser_inv; case_match; ser_inv; eauto.
Qed.

Lemma header_leaves : leaves_bytes serializeBlockHeader.
Proof.
  intros d inp x s Hb H. unfold serializeBlockHeader in H. ser_inv. case_match; [|case_match; [|done]]; ser_inv; eauto.
Qed.

Lemma parent_leaves : leaves_bytes (serialize_ParentBlock false false).
Proof.
  intros d inp x s Hb H. unfold serialize_ParentBlock in H. ser_inv. ser_inv. leave_step sized_hashes_leaves. inv_ok. leave_step base_leaves. inv_ok.
  case_match; [|done]. inv_ok. leave_step sized_hashes_leaves. inv_ok. simplify_eq. eauto.
Qed.

Lemma block_base_valid inp b : is_bytes inp -> fromBinaryArray serialize_BlockTemplate new_BlockTemplate inp = Ok b -> valid_tx (baseTransaction b).
Proof.
  intros Hb H. unfold fromBinaryArray in H. inv_ok. destruct v as [b' s']. assert (b' = b) as -> by (destruct s'; inv_ok; by simplify_eq). clear H.
  unfold serialize_BlockTemplate in Hok. inv_ok. leave_step header_leaves. inv_ok.
  destruct v as [[h pb] s1]. assert (exists r, s1 = INPUT r /\ is_bytes r) as (r & -> & Hrb).
  { destruct (BLOCK_MAJOR_VERSION_2 <=? _); [|inv_ok; simplify_eq; eauto]. inv_ok. leave_step parent_leaves. inv_ok. simplify_eq. eauto. }
  inv_ok. destruct v as [tx s2]. destruct (canonical (fresh := unsigned) (f := serialize_Transaction) (baseTransaction new_BlockTemplate) _ _ _ eq_refl Hrb Hok1) as (V & _).
  inv_ok. destruct v as [hs s3]. inv_ok. simplify_eq. exact V.
Qed.

Lemma writeVarint_inj a b l1 l2 : is_u64 a -> is_u64 b -> writeVarint a ++ l1 = writeVarint b ++ l2 -> a = b.
Proof.
  intros Ha Hb E. pose proof (readVarint_writeVarint 64 a l1 vw64 Ha) as H1.
  rewrite E, readVarint_writeVarint in H1 by (apply vw64 || done). congruence.
Qed.

(** ** Properties *)

(** C33: a block of version 1 to 7 with consistent branches and merge-mining tag
    is serialized without an error and parsed back exactly, parent block, base
    transaction and transaction hashes included. *)
Theorem block_roundtrip b : valid_block b -> exists ba, is_bytes ba /\
  toBinaryArray serialize_BlockTemplate b = Ok ba /\
  fromBinaryArray serialize_BlockTemplate new_BlockTemplate ba = Ok b.
Proof. intros V. by apply (whole_roundtrip fresh_block valid_block serialize_BlockTemplate). Qed.

(** the transaction count of a parent block is read as 64 bits and cut to 16
    without a check, so every parent block has a second encoding, with a count
    65536 higher, that parses to the same parent block. *)
Theorem parent_count_truncated p d : valid_parent p -> exists b1 b2, b1 <> b2 /\
  fromBinaryArray (serialize_ParentBlock false false) d b1 = Ok p /\
  fromBinaryArray (serialize_ParentBlock false false) d b2 = Ok p.
Proof.
  intros V. pose proof (vp_count p V) as Hc. set (c := transactionCount (m_parentBlock p)) in *.
  destruct (parent_reads p c V) as (b1 & (o1 & o2 & E1 & _ & _ & Hw1) & Hr1).
  { unfold in_width. eval_pow2. lia. } { apply wrap_small. unfold in_width. lia. }
  destruct (parent_reads p (c + 65536) V) as (b2 & (o3 & o4 & E2 & _ & _ & Hw2) & Hr2).
  { unfold in_width. eval_pow2. lia. }
  { unfold wrap. rewrite Z.add_mod by done. change (65536 mod 2 ^ 16) with 0.
    rewrite Z.add_0_r, Z.mod_mod by done. apply Z.mod_small. lia. }
  exists b1, b2. split; [|by split; apply (fromBinaryArray_reads any)].
  intros E. specialize (Hw1 []). rewrite (Hw2 []) in Hw1. rewrite !app_nil_l in Hw1. injection Hw1 as Hw.
  fold c in Hw. rewrite E1, E2, <- Hw in E. apply app_inv_head in E.
  apply writeVarint_inj in E; unfold in_width; eval_pow2; lia.
Qed.
End blocks.

Definition sample_parent : ParentBlock :=
  {| pb_majorVersion := 1; pb_minorVersion := 0; pb_previousBlockHash := replicate 32 3;
     transactionCount := 3; baseTransactionBranch := [replicate 32 4];
     pb_baseTransaction := {| version := 1; unlockTime := 60; inputs := [InBase {| blockIndex := 50 |}];
                              outputs := []; extra := [3; 33; 1] ++ replicate 32 9 |};
     blockchainBranch := [replicate 32 5] |}.
Definition sample_block : BlockTemplate :=
  {| header := {| majorVersion := 5; minorVersion := 0; nonce := 77; timestamp := 1600000000;
                  previousBlockHash := replicate 32 6 |};
     parentBlock := sample_parent;
     baseTransaction := {| tx_prefix := {| version := 1; unlockTime := 90; inputs := [InBase {| blockIndex := 50 |}];
         outputs := [{| out_amount := 7; target := TargetKey {| ko_key := replicate 32 8 |} |}]; extra := [] |};
         signatures := [] |};
     transactionHashes := [replicate 32 1; replicate 32 2] |}.

Lemma sample_parent_valid : valid_parent (makeParentBlockSerializer sample_block).
Proof.
  constructor; try by_compute. exists {| depth := 1; merkleRoot := replicate 32 9 |}. by vm_compute.
Qed.

Definition toy_hash (b : bytes) : Hash := take 32 (b ++ replicate 32 0).

Lemma block_roundtrip_witness : exists ba, is_bytes ba /\
  toBinaryArray (serialize_BlockTemplate toy_hash) sample_block = Ok ba /\
  fromBinaryArray (serialize_BlockTemplate toy_hash) new_BlockTemplate ba = Ok sample_block.
Proof.
  apply block_roundtrip. constructor; try by_compute. exact sample_parent_valid.
Defined.

Lemma parent_count_truncated_witness : exists b1 b2, b1 <> b2 /\
  fromBinaryArray (serialize_ParentBlock toy_hash false false) (makeParentBlockSerializer new_BlockTemplate) b1
  = Ok (makeParentBlockSerializer sample_block) /\
  fromBinaryArray (serialize_ParentBlock toy_hash false false) (makeParentBlockSerializer new_BlockTemplate) b2
  = Ok (makeParentBlockSerializer sample_block).
Proof. apply parent_count_truncated. exact sample_parent_valid. Defined.
