(* ===== verification/FormatUtils.v ===== *)
(** * FormatUtils: [cryptonotecore/CryptoNoteFormatUtils.{h,cpp}]

    Amounts of transactions, in 64-bit arithmetic that wraps around; ring
    member indexes as absolute or relative 32-bit numbers; the decomposition of
    an amount into single digits.  [check_key] is a parameter. *)

From Stdlib Require Import ZArith Lia Sorting.Sorted.
From stdpp Require Import base tactics list numbers strings.
From S2P Require Import Prelude Config Types TxSerialization.

Local Open Scope Z_scope.

(** ** Sums over inputs and outputs *)

Definition key_amount (i : TransactionInput) : option Z :=
  match i with InKey k => Some (ki_amount k) | InBase _ => None end.

Definition getInputAmount (tx : Transaction) : Z :=
  foldl (fun amount i => match i with InKey k => u64 (amount + ki_amount k) | InBase _ => amount end)
    0 (inputs (tx_prefix tx)).

Definition getInputsAmounts (tx : Transaction) : list Z := omap key_amount (inputs (tx_prefix tx)).

Definition getOutputAmount (tx : Transaction) : Z :=
  foldl (fun amount o => u64 (amount + out_amount o)) 0 (outputs (tx_prefix tx)).

(** [get_tx_fee(tx, fee)]; [None] is [false]. *)
Definition get_tx_fee_opt (tx : Transaction) : option Z :=
  let amount_in := foldl (fun a i => match i with InKey k => u64 (a + ki_amount k) | InBase _ => a end)
                     0 (inputs (tx_prefix tx)) in
  let amount_out := foldl (fun a o => u64 (a + out_amount o)) 0 (outputs (tx_prefix tx)) in
  if amount_in <? amount_out then None else Some (u64 (amount_in - amount_out)).
Definition get_tx_fee (tx : Transaction) : Z :=
  match get_tx_fee_opt tx with Some r => r | None => 0 end.

(** [CachedTransaction::getTransactionFee]: the first base input makes it 0. *)
Fixpoint fee_inputs (summaryInputAmount : Z) (l : list TransactionInput) : option Z :=
  match l with
  | [] => Some summaryInputAmount
  | InKey k :: l => fee_inputs (u64 (summaryInputAmount + ki_amount k)) l
  | InBase _ :: _ => None
  end.
Definition getTransactionFee (tx : Transaction) : Z :=
  let summaryOutputAmount := foldl (fun a o => u64 (a + out_amount o)) 0 (outputs (tx_prefix tx)) in
  match fee_inputs 0 (inputs (tx_prefix tx)) with
  | None => 0
  | Some summaryInputAmount => u64 (summaryInputAmount - summaryOutputAmount)
  end.
Definition getTransactionAmount (tx : Transaction) : Z :=
  foldl (fun a o => u64 (a + out_amount o)) 0 (outputs (tx_prefix tx)).

(** ** Checks *)

Definition checkInputTypesSupported (tx : TransactionPrefix) : bool :=
  forallb (fun i => match i with InKey _ => true | InBase _ => false end) (inputs tx).

Fixpoint overflow_loop (money : Z) (amounts : list Z) : bool :=
  match amounts with
  | [] => true
  | amount :: l => if u64 (amount + money) <? money then false else overflow_loop (u64 (money + amount)) l
  end.
Definition input_amount (i : TransactionInput) : Z :=
  match i with InKey k => ki_amount k | InBase _ => 0 end.
Definition checkInputsOverflow (tx : TransactionPrefix) : bool := overflow_loop 0 (input_amount <$> inputs tx).
Definition checkOutsOverflow (tx : TransactionPrefix) : bool := overflow_loop 0 (out_amount <$> outputs tx).

Section keys.
Context (check_key : PublicKey -> bool).

(** The error text, or [None] when every output is valid. *)
Fixpoint outs_error (l : list TransactionOutput) : option string :=
  match l with
  | [] => None
  | o :: l =>
      match target o with
      | TargetKey k =>
          if out_amount o =? 0 then Some "Zero amount ouput"%string
          else if negb (check_key (ko_key k)) then Some "Output with invalid key"%string
          else outs_error l
      end
  end.
Definition checkOutsValid (tx : TransactionPrefix) : bool :=
  match outs_error (outputs tx) with None => true | Some _ => false end.
End keys.

(** ** Ring member indexes *)

Fixpoint absolute_loop (prev : Z) (l : list Z) : list Z :=
  match l with
  | [] => []
  | x :: l => let y := u32 (x + prev) in y :: absolute_loop y l
  end.
Definition relativeOutputOffsetsToAbsolute (off : list Z) : list Z :=
  match off with [] => [] | x :: l => x :: absolute_loop x l end.

Fixpoint relative_loop (prev : Z) (l : list Z) : list Z :=
  match l with
  | [] => []
  | x :: l => u32 (x - prev) :: relative_loop x l
  end.
Definition absolute_output_offsets_to_relative (off : list Z) : list Z :=
  match off with [] => [] | x :: l => x :: relative_loop x l end.

(** ** Decomposition into digits *)

Inductive piece := Chunk (a : Z) | Dust (a : Z).
Definition piece_amount (p : piece) : Z := match p with Chunk a => a | Dust a => a end.

(** The calls of the two handlers, in order.  A 64-bit number has at most 20
    digits, so 21 rounds are enough ([decompose_sum]). *)
Fixpoint decompose_loop (fuel : nat) (dust_threshold amount order dust : Z) (is_dust_handled : bool) : list piece :=
  match fuel with
  | O => []
  | S fuel =>
      let last := if negb is_dust_handled && negb (dust =? 0) then [Dust dust] else [] in
      if amount =? 0 then last
      else
        let chunk := u64 (amount mod 10 * order) in
        let amount := amount / 10 in
        let order := u64 (order * 10) in
        if u64 (dust + chunk) <=? dust_threshold
        then decompose_loop fuel dust_threshold amount order (u64 (dust + chunk)) is_dust_handled
        else
          last ++ (if negb (chunk =? 0) then [Chunk chunk] else [])
          ++ decompose_loop fuel dust_threshold amount order dust (is_dust_handled || negb (dust =? 0))
  end.
Definition decompose_amount_into_digits (amount dust_threshold : Z) : list piece :=
  if amount =? 0 then [] else decompose_loop 21 dust_threshold amount 1 0 false.

Definition decomposeAmount (amount dustThreshold : Z) : list Z :=
  piece_amount <$> decompose_amount_into_digits amount dustThreshold.

(** ** Lemmas: sums *)

Lemma sum_wrap l : forall a, is_u64 a ->
  foldl (fun s x => u64 (s + x)) a l = u64 (a + sumZ l).
Proof.
  induction l as [|x l IH]; intros a Ha; simpl; [by rewrite Z.add_0_r, wrap_small|].
  rewrite IH by (apply wrap_range; lia). rewrite wrap_add_l. f_equal. unfold sumZ. lia.
Qed.

Lemma foldl_fmap {A B S} (f : S -> B -> S) (g : A -> B) l : forall s,
  foldl (fun s a => f s (g a)) s l = foldl f s (g <$> l).
Proof. induction l; simpl; auto. Qed.

Lemma getOutputAmount_sum tx : getOutputAmount tx = u64 (sumZ (out_amount <$> outputs (tx_prefix tx))).
Proof.
  unfold getOutputAmount. rewrite (foldl_fmap (fun s x => u64 (s + x)) out_amount).
  by rewrite sum_wrap.
Qed.

Lemma getInputAmount_sum tx : getInputAmount tx = u64 (sumZ (input_amount <$> inputs (tx_prefix tx))).
Proof.
  unfold getInputAmount.
  assert (G : forall l a, is_u64 a ->
    foldl (fun amount i => match i with InKey k => u64 (amount + ki_amount k) | InBase _ => amount end) a l
    = foldl (fun s i => u64 (s + input_amount i)) a l).
  { induction l as [|i l IH]; intros a Ha; [done|]. destruct i as [b|k]; simpl.
    - rewrite Z.add_0_r, wrap_small by done. by apply IH.
    - apply IH, wrap_range. lia. }
  rewrite G by done. rewrite (foldl_fmap (fun s x => u64 (s + x)) input_amount).
  by rewrite sum_wrap.
Qed.

Lemma overflow_loop_ok l : Forall (in_width 64) l -> forall money, is_u64 money ->
  overflow_loop money l = true <-> money + sumZ l < 2 ^ 64.
Proof.
  induction 1 as [|x l Hx Hl IH]; intros money Hm; simpl overflow_loop.
  - unfold sumZ. simpl. width_unfold. split; [lia|done].
  - assert (Hs : 0 <= sumZ l) by (apply sumZ_nonneg; eapply Forall_impl; [exact Hl|]; unfold in_width; lia).
    rewrite sumZ_cons. rewrite (Z.add_comm x money). width_unfold.
    destruct (Z.lt_ge_cases (money + x) (2 ^ 64)).
    + rewrite wrap_small by (split; lia). rewrite (proj2 (Z.ltb_ge _ _)) by lia.
      rewrite IH by (split; lia). lia.
    + assert (u64 (money + x) = money + x - 2 ^ 64) as ->.
      { unfold wrap. symmetry. apply (Z.mod_unique_pos _ _ 1); lia. }
      rewrite (proj2 (Z.ltb_lt _ _)) by lia. split; [done|lia].
Qed.

(** The amounts of a transaction the C++ types can hold. *)
Definition wf_amounts (t : TransactionPrefix) : Prop :=
  Forall (in_width 64) (input_amount <$> inputs t) /\ Forall (in_width 64) (out_amount <$> outputs t).

Lemma sum_u64_nonneg l : Forall (in_width 64) l -> 0 <= sumZ l.
Proof. intros H. apply sumZ_nonneg. eapply Forall_impl; [exact H|]. unfold in_width. lia. Qed.

Lemma amounts_exact t : wf_amounts t -> checkInputsOverflow t = true -> checkOutsOverflow t = true ->
  is_u64 (sumZ (input_amount <$> inputs t)) /\ is_u64 (sumZ (out_amount <$> outputs t)).
Proof.
  intros [Hi Ho] H1 H2. unfold checkInputsOverflow, checkOutsOverflow in *.
  rewrite overflow_loop_ok in H1, H2 by done. pose proof (sum_u64_nonneg _ Hi). pose proof (sum_u64_nonneg _ Ho).
  unfold in_width. lia.
Qed.

(** ** Lemmas: indexes *)

Lemma absolute_relative l : forall prev, Forall (in_width 32) l -> absolute_loop prev (relative_loop prev l) = l.
Proof.
  induction l as [|x l IH]; intros prev H; [done|]. apply Forall_cons in H as [Hx H]. simpl.
  rewrite wrap_add_l. replace (x - prev + prev) with x by lia. rewrite wrap_small by done.
  f_equal. by apply IH.
Qed.

Lemma relative_absolute l : forall prev, Forall (in_width 32) l -> relative_loop prev (absolute_loop prev l) = l.
Proof.
  induction l as [|x l IH]; intros prev H; [done|]. apply Forall_cons in H as [Hx H]. simpl.
  rewrite IH by done. f_equal. unfold wrap. rewrite Zminus_mod_idemp_l.
  replace (x + prev - prev) with x by lia. by apply wrap_small.
Qed.

(** ** Lemmas: decomposition *)

Definition is_chunk (p : piece) : bool := match p with Chunk _ => true | Dust _ => false end.

Lemma pretty_digit d k : 1 <= d <= 9 -> 0 <= k -> d * 10 ^ k < 2 ^ 64 -> d * 10 ^ k ∈ PRETTY_AMOUNTS.
Proof.
  intros Hd Hk Hb. assert (Hk20 : k < 20).
  { destruct (Z.lt_ge_cases k 20); [done|]. assert (10 ^ 20 <= 10 ^ k) by (apply Z.pow_le_mono_r; lia).
    change (10 ^ 20) with 100000000000000000000 in *. change (2 ^ 64) with 18446744073709551616 in Hb. lia. }
  assert (H : forallb (fun k => forallb (fun d => negb (d * 10 ^ k <? 2 ^ 64) || bool_decide (d * 10 ^ k ∈ PRETTY_AMOUNTS))
    (seqZ 1 9)) (seqZ 0 20) = true) by by vm_compute.
  rewrite forallb_forall in H. specialize (H k). rewrite forallb_forall in H.
  specialize (H ltac:(apply list_elem_of_In, elem_of_seqZ; lia) d ltac:(apply list_elem_of_In, elem_of_seqZ; lia)).
  rewrite (proj2 (Z.ltb_lt _ _)) in H by done. by apply bool_decide_eq_true in H.
Qed.

(** One round at digit [k]: the chunk is exact. *)
Lemma chunk_exact a k : 0 < a -> 0 <= k -> a * 10 ^ k < 2 ^ 64 ->
  u64 (a mod 10 * u64 (10 ^ k)) = a mod 10 * 10 ^ k /\
  u64 (u64 (10 ^ k) * 10) = u64 (10 ^ (k + 1)) /\
  a * 10 ^ k = a mod 10 * 10 ^ k + a / 10 * 10 ^ (k + 1) /\ 0 <= a mod 10 <= 9 /\ 0 < 10 ^ k /\ 0 <= a / 10.
Proof.
  intros Ha Hk Hb. assert (Hp : 0 < 10 ^ k) by (apply Z.pow_pos_nonneg; lia).
  pose proof (Z.mod_pos_bound a 10 ltac:(lia)). pose proof (Z.div_mod a 10 ltac:(lia)).
  assert (0 <= a / 10) by (apply Z.div_pos; lia).
  rewrite Z.pow_add_r, Z.pow_1_r by lia. split_and!; try lia.
  - unfold wrap at 1. unfold wrap. rewrite Zmult_mod_idemp_r. apply Z.mod_small. nia.
  - unfold wrap. by rewrite Zmult_mod_idemp_l.
Qed.

(** After the first chunk that did not fit in the dust, no later one does. *)
Lemma decompose_chunks fuel : forall thr a k dust handled,
  0 <= dust <= thr -> thr < dust + 10 ^ k -> handled = true \/ dust = 0 -> thr < 2 ^ 64 ->
  0 <= a < 10 ^ Z.of_nat fuel -> 0 <= k -> a * 10 ^ k < 2 ^ 64 - dust ->
  let l := decompose_loop (S fuel) thr a (u64 (10 ^ k)) dust handled in
  sumZ (piece_amount <$> l) = a * 10 ^ k /\
  Forall (fun p => is_chunk p = true /\ 10 ^ k <= piece_amount p /\ piece_amount p ∈ PRETTY_AMOUNTS) l /\
  StronglySorted Z.lt (piece_amount <$> l).
Proof.
  induction fuel as [|fuel IH]; intros thr a k dust handled Hd Hthr Hh Ht Ha Hk Hb l.
  - assert (a = 0) by (simpl in Ha; lia). subst a l. simpl.
    destruct Hh as [->| ->]; simpl; [|rewrite andb_false_r]; (split; [done|split; constructor]).
  - subst l. assert (Hlast : (if negb handled && negb (dust =? 0) then [Dust dust] else []) = [])
      by (destruct Hh as [->| ->]; [done|by rewrite andb_false_r]).
    set (f := S fuel) in *. cbn [decompose_loop]. rewrite Hlast.
    destruct (Z.eqb_spec a 0) as [->|Ha0]; [split; [done|split; constructor]|].
    destruct (chunk_exact a k) as (E1 & E2 & E3 & Hm & Hp & Hdiv); [lia|lia|lia|]. rewrite E1, E2. clear E1 E2.
    rewrite (wrap_small 64 (dust + _)) by (unfold in_width; nia).
    assert (Hnext : 0 <= a / 10 < 10 ^ Z.of_nat fuel).
    { split; [done|]. apply Z.div_lt_upper_bound; [lia|]. subst f. rewrite Nat2Z.inj_succ, Z.pow_succ_r in Ha by lia. lia. }
    assert (Hpk : 10 ^ (k + 1) = 10 * 10 ^ k) by (rewrite Z.pow_add_r, Z.pow_1_r by lia; lia).
    assert (Hmk : 0 <= a mod 10 * 10 ^ k <= 9 * 10 ^ k) by nia.
    destruct (Z.leb_spec (dust + a mod 10 * 10 ^ k) thr) as [Hle|Hgt].
    + assert (a mod 10 = 0) as Em by nia. rewrite Em, Z.mul_0_l, Z.add_0_r.
      destruct (IH thr (a / 10) (k + 1) dust handled) as (S1 & S2 & S3); try lia; try done.
      split; [rewrite S1; lia|]. split; [|done]. eapply Forall_impl; [exact S2|]. intros p (? & ? & ?). split; [done|]. split; [lia|done].
    + rewrite app_nil_l. assert (Hm0 : 1 <= a mod 10) by nia.
      rewrite (proj2 (Z.eqb_neq _ 0)) by nia. cbn [negb app].
      destruct (IH thr (a / 10) (k + 1) dust (handled || negb (dust =? 0))) as (S1 & S2 & S3); try lia; try done.
      rewrite !fmap_cons, sumZ_cons, S1. cbn [piece_amount]. split; [lia|]. split.
      * constructor; [split; [done|]; split; [simpl; nia|]; apply pretty_digit; [lia|lia|nia]|].
        eapply Forall_impl; [exact S2|]. intros p (? & ? & ?). split; [done|]. split; [lia|done].
      * constructor; [done|]. apply Forall_fmap. eapply Forall_impl; [exact S2|]. intros p (? & ? & ?). simpl. nia.
Qed.

Lemma decompose_dust fuel : forall thr a k dust,
  0 <= dust <= thr -> dust < 10 ^ k -> thr < 2 ^ 64 ->
  0 <= a < 10 ^ Z.of_nat fuel -> 0 <= k -> a * 10 ^ k < 2 ^ 64 - dust ->
  let l := decompose_loop (S fuel) thr a (u64 (10 ^ k)) dust false in
  sumZ (piece_amount <$> l) = dust + a * 10 ^ k /\ StronglySorted Z.lt (piece_amount <$> l) /\
  exists d chunks, l = d ++ chunks /\
    (d = [] \/ exists x, d = [Dust x] /\ 0 < x <= thr) /\
    Forall (fun p => is_chunk p = true /\ piece_amount p ∈ PRETTY_AMOUNTS) chunks.
Proof.
  assert (Hlast : forall thr dust, 0 <= dust <= thr ->
    let d := if negb false && negb (dust =? 0) then [Dust dust] else [] in
    sumZ (piece_amount <$> d) = dust /\ (d = [] \/ exists x, d = [Dust x] /\ 0 < x <= thr)).
  { intros thr dust Hd. simpl. destruct (Z.eqb_spec dust 0) as [->|]; simpl; [auto|].
    split; [lia|]. right. exists dust. split; [done|lia]. }
  induction fuel as [|fuel IH]; intros thr a k dust Hd Hk0 Ht Ha Hk Hb l.
  - assert (a = 0) by (simpl in Ha; lia). subst a l. destruct (Hlast thr dust Hd) as [H1 H2].
    cbn [decompose_loop Z.eqb]. split; [rewrite H1; lia|]. split.
    + destruct H2 as [->|(x & -> & _)]; repeat constructor.
    + eexists _, []. split; [by rewrite app_nil_r|]. split; [done|constructor].
  - subst l. destruct (Hlast thr dust Hd) as [H1 H2]. set (f := S fuel) in *. cbn [decompose_loop].
    destruct (Z.eqb_spec a 0) as [->|Ha0].
    { split; [rewrite H1; lia|]. split; [destruct H2 as [->|(x & -> & _)]; repeat constructor|].
      eexists _, []. split; [by rewrite app_nil_r|]. split; [done|constructor]. }
    destruct (chunk_exact a k) as (E1 & E2 & E3 & Hm & Hp & Hdiv); [lia|lia|lia|]. rewrite E1, E2. clear E1 E2.
    rewrite (wrap_small 64 (dust + _)) by (unfold in_width; nia).
    assert (Hnext : 0 <= a / 10 < 10 ^ Z.of_nat fuel).
    { split; [done|]. apply Z.div_lt_upper_bound; [lia|]. subst f. rewrite Nat2Z.inj_succ, Z.pow_succ_r in Ha by lia. lia. }
    assert (Hpk : 10 ^ (k + 1) = 10 * 10 ^ k) by (rewrite Z.pow_add_r, Z.pow_1_r by lia; lia).
    assert (Hmk : 0 <= a mod 10 * 10 ^ k <= 9 * 10 ^ k) by nia.
    destruct (Z.leb_spec (dust + a mod 10 * 10 ^ k) thr) as [Hle|Hgt].
    + destruct (IH thr (a / 10) (k + 1) (dust + a mod 10 * 10 ^ k)) as (S1 & S2 & S3); try lia.
      split; [rewrite S1; lia|]. done.
    + assert (Hm0 : 1 <= a mod 10) by nia. rewrite (proj2 (Z.eqb_neq (a mod 10 * _) 0)) by nia.
      cbn [negb andb orb] in H1, H2 |- *. assert (Hck : 10 ^ k <= a mod 10 * 10 ^ k) by nia.
      destruct (decompose_chunks fuel thr (a / 10) (k + 1) dust (negb (dust =? 0))) as (S1 & S2 & S3); try lia.
      fold f in S1, S2, S3. set (rest := decompose_loop f _ _ _ _ _) in *.
      rewrite !fmap_app, !sumZ_app, S1, H1. change (sumZ (piece_amount <$> [Chunk (a mod 10 * 10 ^ k)])) with (a mod 10 * 10 ^ k + 0).
      split; [lia|]. split.
      * assert (SS : StronglySorted Z.lt ((a mod 10 * 10 ^ k) :: (piece_amount <$> rest))).
        { constructor; [done|]. apply Forall_fmap. eapply Forall_impl; [exact S2|]. intros p (? & ? & ?). simpl. lia. }
        destruct H2 as [->|(x & E & Hx)]; [exact SS|]. rewrite E in H1 |- *. change (x + 0 = dust) in H1.
        constructor; [exact SS|]. constructor; [cbn [piece_amount]; lia|]. apply Forall_fmap. eapply Forall_impl; [exact S2|].
        intros p (? & ? & ?). simpl. lia.
      * eexists _, (Chunk (a mod 10 * 10 ^ k) :: rest). split; [done|]. split; [done|].
        constructor; [split; [done|]; apply pretty_digit; [lia|lia|nia]|].
        eapply Forall_impl; [exact S2|]. intros p (? & ? & ?). done.
Qed.

Lemma decompose_ok amount thr : is_u64 amount -> is_u64 thr ->
  let l := decompose_amount_into_digits amount thr in
  sumZ (piece_amount <$> l) = amount /\ StronglySorted Z.lt (piece_amount <$> l) /\
  exists d chunks, l = d ++ chunks /\
    (d = [] \/ exists x, d = [Dust x] /\ 0 < x <= thr) /\
    Forall (fun p => is_chunk p = true /\ piece_amount p ∈ PRETTY_AMOUNTS) chunks.
Proof.
  intros Ha Ht l. subst l. unfold decompose_amount_into_digits.
  destruct (Z.eqb_spec amount 0) as [->|Hn].
  - split; [done|]. split; [constructor|]. exists [], []. split; [done|]. split; [by left|constructor].
  - width_unfold. assert (E : 10 ^ 0 = 1) by done.
    destruct (decompose_dust 20 thr amount 0 0) as (S1 & S2 & S3); try (rewrite ?E; lia).
    change (u64 (10 ^ 0)) with 1 in *. rewrite E in S1. split; [rewrite S1; lia|]. done.
Qed.

(** ** Properties *)

(** [checkInputsOverflow] and [checkOutsOverflow] accept exactly the
    transactions whose input, respectively output, amounts sum below [2^64]; then
    the fee computed by wrapping additions is the true difference, and it is
    refused exactly when the outputs exceed the inputs. *)
Theorem overflow_checks_exact tx : wf_amounts (tx_prefix tx) ->
  let total_in := sumZ (input_amount <$> inputs (tx_prefix tx)) in
  let total_out := sumZ (out_amount <$> outputs (tx_prefix tx)) in
  (checkInputsOverflow (tx_prefix tx) = true <-> total_in < 2 ^ 64) /\
  (checkOutsOverflow (tx_prefix tx) = true <-> total_out < 2 ^ 64) /\
  (checkInputsOverflow (tx_prefix tx) = true -> checkOutsOverflow (tx_prefix tx) = true ->
   get_tx_fee_opt tx = if total_in <? total_out then None else Some (total_in - total_out)).
Proof.
  intros Hw total_in total_out. unfold checkInputsOverflow, checkOutsOverflow. pose proof Hw as [Hi Ho].
  split; [by rewrite overflow_loop_ok|]. split; [by rewrite overflow_loop_ok|].
  intros H1 H2. destruct (amounts_exact _ Hw H1 H2) as [U1 U2].
  unfold get_tx_fee_opt. fold (getInputAmount tx) (getOutputAmount tx).
  rewrite getInputAmount_sum, getOutputAmount_sum, !wrap_small by done. fold total_in total_out in U1, U2 |- *.
  destruct (Z.ltb_spec total_in total_out); [done|]. rewrite wrap_small; [done|]. width_unfold. lia.
Qed.

Lemma overflow_checks_exact_witness :
  (checkInputsOverflow (tx_prefix sample_tx) = true <-> 1000 < 2 ^ 64) /\
  (checkOutsOverflow (tx_prefix sample_tx) = true <-> 900 < 2 ^ 64) /\
  (checkInputsOverflow (tx_prefix sample_tx) = true -> checkOutsOverflow (tx_prefix sample_tx) = true ->
   get_tx_fee_opt sample_tx = if 1000 <? 900 then None else Some (1000 - 900)).
Proof. apply (overflow_checks_exact sample_tx). split; by_compute. Defined.

(** converting ring member indexes to differences and back, in either order,
    changes nothing, also where the 32-bit sums wrap around. *)
Theorem offsets_roundtrip l : Forall (in_width 32) l ->
  relativeOutputOffsetsToAbsolute (absolute_output_offsets_to_relative l) = l /\
  absolute_output_offsets_to_relative (relativeOutputOffsetsToAbsolute l) = l.
Proof.
  intros H. destruct H as [|x l Hx Hl]; [done|]. simpl.
  rewrite absolute_relative, relative_absolute by done. done.
Qed.

Lemma offsets_roundtrip_witness :
  relativeOutputOffsetsToAbsolute (absolute_output_offsets_to_relative [7; 4294967295; 3]) = [7; 4294967295; 3] /\
  absolute_output_offsets_to_relative (relativeOutputOffsetsToAbsolute [7; 4294967295; 3]) = [7; 4294967295; 3].
Proof. apply offsets_roundtrip. by_compute. Defined.

(** an amount is decomposed into parts that sum to it, in strictly
    increasing order: at most one part of dust, not above the threshold, and
    otherwise only the standard denominations. *)
Theorem decompose_correct amount thr : is_u64 amount -> is_u64 thr ->
  sumZ (decomposeAmount amount thr) = amount /\
  StronglySorted Z.lt (decomposeAmount amount thr) /\
  exists dust chunks, decomposeAmount amount thr = dust ++ chunks /\
    (dust = [] \/ exists x, dust = [x] /\ 0 < x <= thr) /\ Forall (fun c => c ∈ PRETTY_AMOUNTS) chunks.
Proof.
  intros Ha Ht. destruct (decompose_ok amount thr Ha Ht) as (S1 & S2 & d & c & E & Hd & Hc).
  unfold decomposeAmount. split; [done|]. split; [done|].
  exists (piece_amount <$> d), (piece_amount <$> c). rewrite E, fmap_app. split; [done|]. split.
  - destruct Hd as [->|(x & -> & Hx)]; [by left|right; by exists x].
  - apply Forall_fmap. eapply Forall_impl; [exact Hc|]. by intros p [_ ?].
Qed.

Lemma decompose_correct_witness :
  sumZ (decomposeAmount 62387455827 1000000) = 62387455827 /\
  StronglySorted Z.lt (decomposeAmount 62387455827 1000000) /\
  exists dust chunks, decomposeAmount 62387455827 1000000 = dust ++ chunks /\
    (dust = [] \/ exists x, dust = [x] /\ 0 < x <= 1000000) /\ Forall (fun c => c ∈ PRETTY_AMOUNTS) chunks.
Proof. apply decompose_correct; by_compute. Defined.

(** The example in the comment of [decompose_amount_into_digits]. *)
Example decompose_example :
  decomposeAmount 62387455827 1000000 = [455827; 7000000; 80000000; 300000000; 2000000000; 60000000000].
Proof. by vm_compute. Qed.
