(* ===== verification/Currency.v ===== *)
(** * Currency: [cryptonotecore/Currency.{h,cpp}] and [CryptoNoteBasicImpl.cpp]

    The coin's parameters and rules: emission and its penalty for large blocks,
    the base transaction, fusion transactions, amounts as text, proof of work. *)

From Stdlib Require Import ZArith Lia Sorting.Sorted.
From stdpp Require Import base tactics list numbers strings sorting.
From S2P Require Import Prelude Config IntUtil Stream StringTools Types Serializer TxSerialization.
From S2P Require Import TransactionExtra TreeHash BlockSerialization FormatUtils Difficulty.

Local Open Scope Z_scope.

(** ** The object and its builder *)

(** [None]: a member no constructor initialises. *)
Record Currency := {
  m_maxBlockHeight : Z; m_maxBlockBlobSize : Z; m_maxTxSize : Z; m_publicAddressBase58Prefix : Z;
  m_minedMoneyUnlockWindow : option Z; m_timestampCheckWindow : Z; m_moneySupply : Z;
  m_genesisBlockReward : option Z; m_rewardBlocksWindow : Z; m_blockGrantedFullRewardZone : Z;
  m_minerTxBlobReservedSize : Z; m_numberOfDecimalPlaces : nat; m_coin : Z; m_mininumFee : Z;
  m_defaultDustThreshold : Z; m_difficultyTarget : Z; m_difficultyWindow : Z; m_difficultyLag : Z;
  m_difficultyCut : Z; m_maxBlockSizeInitial : Z; m_maxBlockSizeGrowthSpeedNumerator : Z;
  m_maxBlockSizeGrowthSpeedDenominator : Z; m_lockedTxAllowedDeltaSeconds : Z;
  m_lockedTxAllowedDeltaBlocks : Z; m_mempoolTxLiveTime : Z; m_mempoolTxFromAltBlockLiveTime : option Z;
  m_numberOfPeriodsToForgetTxDeletedFromPool : Z; m_fusionTxMaxSize : Z; m_fusionTxMinInputCount : Z;
  m_fusionTxMinInOutCountRatio : Z; m_upgradeHeightV2 : Z; m_upgradeHeightV3 : Z; m_upgradeHeightV4 : Z;
  m_upgradeHeightV5 : Z; m_upgradeHeightV6 : Z; m_upgradeHeightV7 : Z; m_upgradeVotingThreshold : Z;
  m_upgradeVotingWindow : Z; m_upgradeWindow : Z; m_isBlockexplorer : bool }.

(** [numberOfDecimalPlaces(val)] also computes the unit: 10 multiplied [val] times. *)
Definition coin_of (places : nat) : Z := Nat.iter places (fun c => u64 (c * 10)) 1.

(** [CurrencyBuilder::CurrencyBuilder]; its range checks on the difficulty
    window, the voting threshold and the upgrade window pass. *)
Definition builder : outcome Currency :=
  _ ← require (negb (DIFFICULTY_WINDOW <? 2)) "val at difficultyWindow()";
  _ ← require (negb ((UPGRADE_VOTING_THRESHOLD <=? 0) || (100 <? UPGRADE_VOTING_THRESHOLD)))
        "val at upgradeVotingThreshold()";
  _ ← require (negb (UPGRADE_WINDOW <=? 0)) "val at upgradeWindow()";
  Ok {| m_maxBlockHeight := CRYPTONOTE_MAX_BLOCK_NUMBER; m_maxBlockBlobSize := CRYPTONOTE_MAX_BLOCK_BLOB_SIZE;
     m_maxTxSize := CRYPTONOTE_MAX_TX_SIZE; m_publicAddressBase58Prefix := CRYPTONOTE_PUBLIC_ADDRESS_BASE58_PREFIX;
     m_minedMoneyUnlockWindow := None; m_timestampCheckWindow := BLOCKCHAIN_TIMESTAMP_CHECK_WINDOW;
     m_moneySupply := MONEY_SUPPLY; m_genesisBlockReward := None;
     m_rewardBlocksWindow := CRYPTONOTE_REWARD_BLOCKS_WINDOW;
     m_blockGrantedFullRewardZone := CRYPTONOTE_BLOCK_GRANTED_FULL_REWARD_ZONE;
     m_minerTxBlobReservedSize := CRYPTONOTE_COINBASE_BLOB_RESERVED_SIZE;
     m_numberOfDecimalPlaces := Z.to_nat CRYPTONOTE_DISPLAY_DECIMAL_POINT;
     m_coin := coin_of (Z.to_nat CRYPTONOTE_DISPLAY_DECIMAL_POINT); m_mininumFee := MINIMUM_FEE;
     m_defaultDustThreshold := DEFAULT_DUST_THRESHOLD; m_difficultyTarget := DIFFICULTY_TARGET;
     m_difficultyWindow := DIFFICULTY_WINDOW; m_difficultyLag := DIFFICULTY_LAG; m_difficultyCut := DIFFICULTY_CUT;
     m_maxBlockSizeInitial := MAX_BLOCK_SIZE_INITIAL;
     m_maxBlockSizeGrowthSpeedNumerator := MAX_BLOCK_SIZE_GROWTH_SPEED_NUMERATOR;
     m_maxBlockSizeGrowthSpeedDenominator := MAX_BLOCK_SIZE_GROWTH_SPEED_DENOMINATOR;
     m_lockedTxAllowedDeltaSeconds := CRYPTONOTE_LOCKED_TX_ALLOWED_DELTA_SECONDS;
     m_lockedTxAllowedDeltaBlocks := CRYPTONOTE_LOCKED_TX_ALLOWED_DELTA_BLOCKS;
     m_mempoolTxLiveTime := CRYPTONOTE_MEMPOOL_TX_LIVETIME;
     m_mempoolTxFromAltBlockLiveTime := Some CRYPTONOTE_MEMPOOL_TX_FROM_ALT_BLOCK_LIVETIME;
     m_numberOfPeriodsToForgetTxDeletedFromPool := CRYPTONOTE_NUMBER_OF_PERIODS_TO_FORGET_TX_DELETED_FROM_POOL;
     m_fusionTxMaxSize := FUSION_TX_MAX_SIZE; m_fusionTxMinInputCount := FUSION_TX_MIN_INPUT_COUNT;
     m_fusionTxMinInOutCountRatio := FUSION_TX_MIN_IN_OUT_COUNT_RATIO;
     m_upgradeHeightV2 := UPGRADE_HEIGHT_V2; m_upgradeHeightV3 := UPGRADE_HEIGHT_V3;
     m_upgradeHeightV4 := UPGRADE_HEIGHT_V4; m_upgradeHeightV5 := UPGRADE_HEIGHT_V5;
     m_upgradeHeightV6 := UPGRADE_HEIGHT_V6; m_upgradeHeightV7 := UPGRADE_HEIGHT_V7;
     m_upgradeVotingThreshold := UPGRADE_VOTING_THRESHOLD; m_upgradeVotingWindow := UPGRADE_VOTING_WINDOW;
     m_upgradeWindow := UPGRADE_WINDOW; m_isBlockexplorer := false |}.

(** [Currency(Currency &&)], which the object goes through on its way out of the
    builder.  It lists the members one by one. *)
Definition moved (c : Currency) : Currency :=
  {| m_maxBlockHeight := m_maxBlockHeight c; m_maxBlockBlobSize := m_maxBlockBlobSize c;
     m_maxTxSize := m_maxTxSize c; m_publicAddressBase58Prefix := m_publicAddressBase58Prefix c;
     m_minedMoneyUnlockWindow := None; m_timestampCheckWindow := m_timestampCheckWindow c;
     m_moneySupply := m_moneySupply c; m_genesisBlockReward := None;
     m_rewardBlocksWindow := m_rewardBlocksWindow c; m_blockGrantedFullRewardZone := m_blockGrantedFullRewardZone c;
     m_minerTxBlobReservedSize := m_minerTxBlobReservedSize c; m_numberOfDecimalPlaces := m_numberOfDecimalPlaces c;
     m_coin := m_coin c; m_mininumFee := m_mininumFee c; m_defaultDustThreshold := m_defaultDustThreshold c;
     m_difficultyTarget := m_difficultyTarget c; m_difficultyWindow := m_difficultyWindow c;
     m_difficultyLag := m_difficultyLag c; m_difficultyCut := m_difficultyCut c;
     m_maxBlockSizeInitial := m_maxBlockSizeInitial c;
     m_maxBlockSizeGrowthSpeedNumerator := m_maxBlockSizeGrowthSpeedNumerator c;
     m_maxBlockSizeGrowthSpeedDenominator := m_maxBlockSizeGrowthSpeedDenominator c;
     m_lockedTxAllowedDeltaSeconds := m_lockedTxAllowedDeltaSeconds c;
     m_lockedTxAllowedDeltaBlocks := m_lockedTxAllowedDeltaBlocks c;
     m_mempoolTxLiveTime := m_mempoolTxLiveTime c; m_mempoolTxFromAltBlockLiveTime := None;
     m_numberOfPeriodsToForgetTxDeletedFromPool := m_numberOfPeriodsToForgetTxDeletedFromPool c;
     m_fusionTxMaxSize := m_fusionTxMaxSize c; m_fusionTxMinInputCount := m_fusionTxMinInputCount c;
     m_fusionTxMinInOutCountRatio := m_fusionTxMinInOutCountRatio c;
     m_upgradeHeightV2 := m_upgradeHeightV2 c; m_upgradeHeightV3 := m_upgradeHeightV3 c;
     m_upgradeHeightV4 := m_upgradeHeightV4 c; m_upgradeHeightV5 := m_upgradeHeightV5 c;
     m_upgradeHeightV6 := m_upgradeHeightV6 c; m_upgradeHeightV7 := m_upgradeHeightV7 c;
     m_upgradeVotingThreshold := m_upgradeVotingThreshold c; m_upgradeVotingWindow := m_upgradeVotingWindow c;
     m_upgradeWindow := m_upgradeWindow c; m_isBlockexplorer := m_isBlockexplorer c |}.

Definition minNumberVotingBlocks (c : Currency) : Z :=
  u32 (m_upgradeVotingWindow c * m_upgradeVotingThreshold c + 99) / 100.
Definition maxUpgradeDistance (c : Currency) : Z := u32 (7 * m_upgradeWindow c).
Definition calculateUpgradeHeight (c : Currency) (voteCompleteHeight : Z) : Z :=
  u32 (voteCompleteHeight + m_upgradeWindow c).

Definition difficultyWindowByBlockVersion (blockMajorVersion : Z) : Z := DIFFICULTY_WINDOW.
Definition difficultyLagByBlockVersion (c : Currency) (blockMajorVersion : Z) : Z :=
  if BLOCK_MAJOR_VERSION_3 <=? blockMajorVersion then m_difficultyLag c
  else if blockMajorVersion =? BLOCK_MAJOR_VERSION_2 then DIFFICULTY_LAG_V2
  else DIFFICULTY_LAG_V1.
Definition difficultyCutByBlockVersion (c : Currency) (blockMajorVersion : Z) : Z :=
  if BLOCK_MAJOR_VERSION_3 <=? blockMajorVersion then m_difficultyCut c
  else if blockMajorVersion =? BLOCK_MAJOR_VERSION_2 then DIFFICULTY_CUT_V2
  else DIFFICULTY_CUT_V1.
Definition difficultyBlocksCountByBlockVersion (c : Currency) (blockMajorVersion height : Z) : Z :=
  u64 (difficultyWindowByBlockVersion blockMajorVersion + difficultyLagByBlockVersion c blockMajorVersion).
Definition blockGrantedFullRewardZoneByBlockVersion (c : Currency) (blockMajorVersion : Z) : Z :=
  if BLOCK_MAJOR_VERSION_3 <=? blockMajorVersion then m_blockGrantedFullRewardZone c
  else if blockMajorVersion =? BLOCK_MAJOR_VERSION_2 then CRYPTONOTE_BLOCK_GRANTED_FULL_REWARD_ZONE_V2
  else CRYPTONOTE_BLOCK_GRANTED_FULL_REWARD_ZONE_V1.

Definition upgradeHeight (c : Currency) (majorVersion : Z) : Z :=
  if majorVersion =? BLOCK_MAJOR_VERSION_2 then m_upgradeHeightV2 c
  else if majorVersion =? BLOCK_MAJOR_VERSION_3 then m_upgradeHeightV3 c
  else if majorVersion =? BLOCK_MAJOR_VERSION_4 then m_upgradeHeightV4 c
  else if majorVersion =? BLOCK_MAJOR_VERSION_5 then m_upgradeHeightV5 c
  else if majorVersion =? BLOCK_MAJOR_VERSION_6 then m_upgradeHeightV6 c
  else if majorVersion =? BLOCK_MAJOR_VERSION_7 then m_upgradeHeightV7 c
  else 2 ^ 32 - 1.

(** ** Rewards *)

Definition getPenalizedAmount (amount medianSize currentBlockSize : Z) : outcome Z :=
  _ ← assert (currentBlockSize <=? u64 (2 * medianSize)) "assert(currentBlockSize <= 2 * medianSize)";
  _ ← assert (medianSize <=? 2 ^ 32 - 1) "assert(medianSize <= max)";
  _ ← assert (currentBlockSize <=? 2 ^ 32 - 1) "assert(currentBlockSize <= max)";
  if amount =? 0 then Ok 0
  else if currentBlockSize <=? medianSize then Ok amount
  else
    '(productLo, productHi) ←
      mul128 amount (u64 (currentBlockSize * u64 (u64 (2 * medianSize) - currentBlockSize)));
    '(hi, lo, _) ← div128_32 productHi productLo (u32 medianSize);
    '(hi, lo, _) ← div128_32 hi lo (u32 medianSize);
    _ ← assert (0 =? hi) "assert(0 == penalizedAmountHi)";
    _ ← assert (lo <? amount) "assert(penalizedAmountLo < amount)";
    Ok lo.

(** [None]: the block is too big ([false]); otherwise the reward and the change
    of the emission. *)
Definition getBlockReward (c : Currency)
    (blockMajorVersion medianSize currentBlockSize alreadyGeneratedCoins fee blockHeight : Z)
    : outcome (option (Z * Z)) :=
  _ ← assert (alreadyGeneratedCoins <=? m_moneySupply c) "assert(alreadyGeneratedCoins <= m_moneySupply)";
  let emission := if EMISSION_SPEED_FACTOR_V2_HEIGHT <=? blockHeight
                  then EMISSION_SPEED_FACTOR_V2 else EMISSION_SPEED_FACTOR in
  _ ← assert ((0 <? emission) && (emission <=? 8 * 8)) "assert(emission > 0 && emission <= 64)";
  let baseReward := Z.shiftr (u64 (m_moneySupply c - alreadyGeneratedCoins)) emission in
  let medianSize := Z.max medianSize (blockGrantedFullRewardZoneByBlockVersion c blockMajorVersion) in
  if u64 (2 * medianSize) <? currentBlockSize then Ok None
  else
    penalizedBaseReward ← getPenalizedAmount baseReward medianSize currentBlockSize;
    penalizedFee ← (if BLOCK_MAJOR_VERSION_2 <=? blockMajorVersion
                    then getPenalizedAmount fee medianSize currentBlockSize else Ok fee);
    Ok (Some (u64 (penalizedBaseReward + penalizedFee),
              i64 (u64 (penalizedBaseReward - u64 (fee - penalizedFee))))).

Definition maxBlockCumulativeSize (c : Currency) (height : Z) : outcome Z :=
  _ ← assert (height <=? MAX_U64 / m_maxBlockSizeGrowthSpeedNumerator c) "assert(height <= max / numerator)";
  let maxSize := u64 (m_maxBlockSizeInitial c +
      u64 (height * m_maxBlockSizeGrowthSpeedNumerator c) / m_maxBlockSizeGrowthSpeedDenominator c) in
  _ ← assert (m_maxBlockSizeInitial c <=? maxSize) "assert(maxSize >= m_maxBlockSizeInitial)";
  Ok (if MAX_BLOCK_SIZE_V1_HEIGHT <=? height then MAX_BLOCK_SIZE_V1 else maxSize).

(** ** Lemmas: rewards *)

(** The penalty: the parabola that is the full amount at the median and zero at
    twice the median. *)
Definition penalized (amount median current : Z) : Z :=
  if current <=? median then amount else amount * (current * (2 * median - current)) / (median * median).

Lemma penalized_factor median current : 0 < median < current -> current <= 2 * median ->
  0 <= current * (2 * median - current) < median * median.
Proof. intros. split; [apply Z.mul_nonneg_nonneg; lia|nia]. Qed.

Lemma penalized_bounds amount median current : 0 <= amount -> 0 < median -> 0 <= current <= 2 * median ->
  0 <= penalized amount median current <= amount.
Proof.
  intros Ha Hm Hc. unfold penalized. destruct (Z.leb_spec current median); [lia|].
  destruct (penalized_factor median current) as [F1 F2]; [lia|lia|].
  split; [apply Z.div_pos; nia|]. apply Z.div_le_upper_bound; nia.
Qed.

Lemma getPenalizedAmount_ok amount median current :
  is_u64 amount -> 0 < median < 2 ^ 32 -> 0 <= current < 2 ^ 32 -> current <= 2 * median ->
  getPenalizedAmount amount median current = Ok (penalized amount median current).
Proof.
  intros Ha Hm Hc H2. unfold getPenalizedAmount.
  assert (M64 : u64 (2 * median) = 2 * median) by (apply wrap_small; width_solve). rewrite M64.
  rewrite (proj2 (Z.leb_le current (2 * median))), (proj2 (Z.leb_le median (2 ^ 32 - 1))),
    (proj2 (Z.leb_le current (2 ^ 32 - 1))) by lia. okbind.
  unfold penalized. destruct (Z.eqb_spec amount 0) as [->|Hn].
  { destruct (_ <=? _); by rewrite ?Z.mul_0_l, ?Zdiv_0_l. }
  destruct (Z.leb_spec current median) as [|Hgt]; [done|].
  destruct (penalized_factor median current) as [F1 F2]; [lia|lia|].
  rewrite (wrap_small 64 (2 * median - current)) by width_solve.
  set (k := current * (2 * median - current)) in *.
  assert (Hmm : median * median < 2 ^ 32 * 2 ^ 32) by (apply Z.mul_lt_mono_nonneg; lia).
  change (2 ^ 32 * 2 ^ 32) with (2 ^ 64) in Hmm.
  rewrite (wrap_small 64 k) by (unfold in_width; lia).
  rewrite (mul128_ok amount k Ha) by (unfold in_width; lia). okbind.
  rewrite (wrap_small 32 median) by (unfold in_width; lia).
  assert (Hprod : 0 <= amount * k < amount * (median * median)) by (width_unfold; nia).
  assert (U1 : is_u64 (amount * k / 2 ^ 64)).
  { split; [apply Z.div_pos; lia|]. apply Z.div_lt_upper_bound; [lia|]. width_unfold. nia. }
  assert (U2 : is_u64 ((amount * k) mod 2 ^ 64)) by (apply Z.mod_pos_bound; lia).
  destruct (div128_32_ok _ _ median U1 U2) as (q1 & q0 & r & -> & Q1 & Q0 & E & _); [lia|]. okbind.
  assert (Ep : amount * k / 2 ^ 64 * 2 ^ 64 + (amount * k) mod 2 ^ 64 = amount * k)
    by (pose proof (Z.div_mod (amount * k) (2 ^ 64)); lia).
  rewrite Ep in E. destruct (div128_32_ok q1 q0 median Q1 Q0) as (p1 & p0 & r' & -> & P1 & P0 & E' & _); [lia|]. okbind.
  rewrite E, Z.div_div in E' by lia.
  assert (Hlt : amount * k / (median * median) < amount) by (apply Z.div_lt_upper_bound; [lia|]; nia).
  assert (Hnn : 0 <= amount * k / (median * median)) by (apply Z.div_pos; nia).
  assert (p1 = 0) as -> by (width_unfold; eval_pow2; lia). cbn [Z.eqb]. okbind.
  assert (E0 : p0 = amount * k / (median * median)) by lia.
  rewrite (proj2 (Z.ltb_lt _ _)) by lia. okbind. by rewrite E0.
Qed.

(** The zone in which blocks are not penalised keeps the median positive. *)
Definition effective_median (c : Currency) (blockMajorVersion medianSize : Z) : Z :=
  Z.max medianSize (blockGrantedFullRewardZoneByBlockVersion c blockMajorVersion).
Definition emission_factor (blockHeight : Z) : Z :=
  if EMISSION_SPEED_FACTOR_V2_HEIGHT <=? blockHeight then EMISSION_SPEED_FACTOR_V2 else EMISSION_SPEED_FACTOR.

Lemma emission_cases h : emission_factor h = 23 \/ emission_factor h = 24.
Proof. unfold emission_factor. case_match; auto. Qed.

Lemma getBlockReward_ok c v median current already fee h :
  is_u64 (m_moneySupply c) -> 0 <= already <= m_moneySupply c -> 0 <= fee < 2 ^ 63 ->
  let m := effective_median c v median in
  0 < m < 2 ^ 32 -> 0 <= current < 2 ^ 32 ->
  getBlockReward c v median current already fee h =
  Ok (if 2 * m <? current then None
      else
        let base := penalized ((m_moneySupply c - already) / 2 ^ emission_factor h) m current in
        let pfee := if BLOCK_MAJOR_VERSION_2 <=? v then penalized fee m current else fee in
        Some (base + pfee, base - (fee - pfee))).
Proof.
  intros Hs Hal Hfee m Hm Hc. unfold getBlockReward. fold (effective_median c v median). fold m.
  fold (emission_factor h). rewrite (proj2 (Z.leb_le already _)) by lia. okbind.
  assert (E : (0 <? emission_factor h) && (emission_factor h <=? 8 * 8) = true)
    by (destruct (emission_cases h) as [-> | ->]; done). rewrite E. okbind.
  rewrite (wrap_small 64 (m_moneySupply c - already)) by (width_unfold; lia).
  rewrite Z.shiftr_div_pow2 by (destruct (emission_cases h) as [-> | ->]; lia).
  rewrite (wrap_small 64 (2 * m)) by width_solve.
  destruct (Z.ltb_spec (2 * m) current); [done|].
  set (b := (m_moneySupply c - already) / 2 ^ emission_factor h).
  assert (Hb : 0 <= b < 2 ^ 41).
  { subst b. width_unfold. destruct (emission_cases h) as [-> | ->]; (split; [apply Z.div_pos; lia|]);
      apply Z.div_lt_upper_bound; eval_pow2; lia. }
  rewrite (getPenalizedAmount_ok b) by (width_unfold; eval_pow2; lia). okbind.
  pose proof (penalized_bounds b m current ltac:(lia) ltac:(lia) ltac:(lia)) as Hpb.
  pose proof (penalized_bounds fee m current ltac:(lia) ltac:(lia) ltac:(lia)) as Hpf.
  assert (G : forall pf, 0 <= pf <= fee ->
    Ok (Some (u64 (penalized b m current + pf), i64 (u64 (penalized b m current - u64 (fee - pf)))))
    = Ok (Some (penalized b m current + pf, penalized b m current - (fee - pf)))).
  { intros pf Hpf'. rewrite (wrap_small 64 (fee - pf)), (wrap_small 64 (_ + _)) by (width_unfold; eval_pow2; lia).
    do 4 f_equal. set (x := penalized b m current - (fee - pf)).
    assert (is_i64 x) by (unfold in_swidth; simpl Z.sub; subst x; eval_pow2; lia).
    unfold swrap, wrap. rewrite Zplus_mod_idemp_l. apply (swrap_small 64 x); [done|lia]. }
  destruct (BLOCK_MAJOR_VERSION_2 <=? v); [rewrite (getPenalizedAmount_ok fee) by (width_unfold; eval_pow2; lia)|]; okbind.
  - by rewrite G.
  - rewrite (G fee) by lia. done.
Qed.

Lemma reward_ok c v median current already fee h reward change :
  is_u64 (m_moneySupply c) -> 0 <= already <= m_moneySupply c -> 0 <= fee < 2 ^ 63 ->
  0 < effective_median c v median < 2 ^ 32 -> 0 <= current < 2 ^ 32 ->
  getBlockReward c v median current already fee h = Ok (Some (reward, change)) ->
  reward = change + fee /\ 0 <= reward /\ already + change <= m_moneySupply c /\
  change <= (m_moneySupply c - already) / 2 ^ emission_factor h /\ - fee <= change.
Proof.
  intros Hs Hal Hfee Hm Hc H. rewrite getBlockReward_ok in H by done.
  destruct (Z.ltb_spec (2 * effective_median c v median) current); [done|].
  set (m := effective_median c v median) in *. set (b := (m_moneySupply c - already) / 2 ^ emission_factor h) in *.
  assert (Hb : 0 <= b <= m_moneySupply c - already).
  { subst b. destruct (emission_cases h) as [-> | ->];
      (split; [apply Z.div_pos; lia|apply Z.div_le_upper_bound; eval_pow2; lia]). }
  pose proof (penalized_bounds b m current ltac:(lia) ltac:(lia) ltac:(lia)) as Hpb.
  pose proof (penalized_bounds fee m current ltac:(lia) ltac:(lia) ltac:(lia)) as Hpf.
  cbn zeta in H. destruct (BLOCK_MAJOR_VERSION_2 <=? v); simplify_eq; lia.
Qed.

(** ** Properties: rewards *)

(** with sizes below [2^32], a block of at most twice the median keeps of its
    reward exactly the fraction [current * (2 * median - current) / median^2],
    rounded down once; the two chained 128-bit divisions lose nothing and no
    assertion fails. *)
Theorem getPenalizedAmount_exact amount median current :
  is_u64 amount -> 0 < median < 2 ^ 32 -> median < current < 2 ^ 32 -> current <= 2 * median ->
  getPenalizedAmount amount median current
  = Ok (amount * (current * (2 * median - current)) / (median * median)).
Proof.
  intros Ha Hm Hc H2. rewrite getPenalizedAmount_ok by (done || lia). unfold penalized.
  by rewrite (proj2 (Z.leb_gt _ _)) by lia.
Qed.

Lemma getPenalizedAmount_exact_witness :
  getPenalizedAmount 1000000 100000 150000 = Ok (1000000 * (150000 * (2 * 100000 - 150000)) / (100000 * 100000)).
Proof. apply getPenalizedAmount_exact; [done|lia|lia|lia]. Defined.

(** the emission never exceeds the supply: when [getBlockReward] accepts a
    block, the reward is the emission change plus the fees, the coins generated
    so far plus the emission change stay within the money supply, and the change
    is at most the base reward. *)
Theorem supply_never_exceeded c v median current already fee h reward change :
  is_u64 (m_moneySupply c) -> 0 <= already <= m_moneySupply c -> 0 <= fee < 2 ^ 63 ->
  0 < effective_median c v median < 2 ^ 32 -> 0 <= current < 2 ^ 32 ->
  getBlockReward c v median current already fee h = Ok (Some (reward, change)) ->
  reward = change + fee /\ 0 <= reward /\ already + change <= m_moneySupply c /\
  change <= (m_moneySupply c - already) / 2 ^ emission_factor h /\ - fee <= change.
Proof. apply reward_ok. Qed.

Definition test_currency : Currency :=
  match builder with Ok c => moved c | _ => moved (Build_Currency 0 0 0 0 None 0 0 None 0 0 0 0 0 0 0 0 0 0 0 0 0 0 0 0 0 None 0 0 0 0 0 0 0 0 0 0 0 0 0 false) end.

Lemma supply_never_exceeded_witness :
  exists reward change,
    getBlockReward test_currency 5 0 150000 5000000000000000 77 900000 = Ok (Some (reward, change)) /\
    reward = change + 77 /\ 0 <= reward /\ 5000000000000000 + change <= m_moneySupply test_currency /\
    change <= (m_moneySupply test_currency - 5000000000000000) / 2 ^ emission_factor 900000 /\ - 77 <= change.
Proof.
  eexists _, _. split; [by vm_compute|].
  apply (supply_never_exceeded test_currency 5 0 150000 5000000000000000 77 900000); by vm_compute.
Defined.

(** ** The base transaction *)

Section crypto.
Context (generate_key_derivation : PublicKey -> SecretKey -> option bytes).
Context (derive_public_key : bytes -> Z -> PublicKey -> option PublicKey).

(** [while (maxOuts < outAmounts.size())]: add the last amount to the one before. *)
Fixpoint merge_outs (fuel : nat) (maxOuts : Z) (outAmounts : list Z) : outcome (list Z) :=
  let n := length outAmounts in
  if maxOuts <? Z.of_nat n then
    match fuel with
    | O => Undefined "out of fuel"
    | S fuel =>
        a ← from_option "vector index out of range" (outAmounts !! (n - 2)%nat);
        b ← from_option "back of an empty vector" (last outAmounts);
        merge_outs fuel maxOuts (take (n - 1) (<[(n - 2)%nat := u64 (a + b)]> outAmounts))
    end
  else Ok outAmounts.

Fixpoint miner_outputs (publicViewKey publicSpendKey : PublicKey) (txSecretKey : SecretKey) (no : Z)
    (amounts : list Z) : option (list TransactionOutput) :=
  match amounts with
  | [] => Some []
  | a :: l =>
      derivation ← generate_key_derivation publicViewKey txSecretKey;
      key ← derive_public_key derivation no publicSpendKey;
      rest ← miner_outputs publicViewKey publicSpendKey txSecretKey (no + 1) l;
      Some ({| out_amount := a; target := TargetKey {| ko_key := key |} |} :: rest)
  end.

(** [None] is [false].  [txkey] is the pair [generateKeyPair] draws. *)
Definition constructMinerTx (c : Currency)
    (blockMajorVersion height medianSize alreadyGeneratedCoins currentBlockSize fee : Z)
    (publicViewKey publicSpendKey : PublicKey) (txkey : KeyPair) (extraNonce : bytes) (maxOuts : Z)
    : outcome (option Transaction) :=
  let extra := addTransactionPublicKeyToExtra [] (publicKey txkey) in
  match (if bool_decide (extraNonce = []) then Some extra else addExtraNonceToTransactionExtra extra extraNonce) with
  | None => Ok None
  | Some extra =>
      r ← getBlockReward c blockMajorVersion medianSize currentBlockSize alreadyGeneratedCoins fee height;
      match r with
      | None => Ok None
      | Some (blockReward, _) =>
          let outAmounts := decomposeAmount blockReward (m_defaultDustThreshold c) in
          if negb (1 <=? maxOuts) then Ok None
          else
            outAmounts ← merge_outs (length outAmounts) maxOuts outAmounts;
            match miner_outputs publicViewKey publicSpendKey (secretKey txkey) 0 outAmounts with
            | None => Ok None
            | Some outs =>
                let summaryAmounts := foldl (fun s a => u64 (s + a)) 0 outAmounts in
                if negb (summaryAmounts =? blockReward) then Ok None
                else
                  let unlock := if CRYPTONOTE_MINED_MONEY_UNLOCK_WINDOW_V2_HEIGHT <=? height
                    then u32 (height + CRYPTONOTE_MINED_MONEY_UNLOCK_WINDOW_V2)
                    else u32 (height + CRYPTONOTE_MINED_MONEY_UNLOCK_WINDOW) in
                  Ok (Some {| tx_prefix := {| version := CURRENT_TRANSACTION_VERSION; unlockTime := unlock;
                                inputs := [InBase {| blockIndex := height |}]; outputs := outs; extra := extra |};
                              signatures := [] |})
            end
      end
  end.

Lemma split_last_two (l : list Z) : (2 <= length l)%nat -> exists l0 a b, l = l0 ++ [a; b].
Proof.
  intros H. destruct (@exists_last _ l) as (l1 & b & ->); [destruct l; [simpl in H; lia|done]|].
  rewrite length_app in H. simpl in H. destruct (@exists_last _ l1) as (l0 & a & ->); [destruct l1; [simpl in H; lia|done]|].
  exists l0, a, b. by rewrite <- app_assoc.
Qed.

Lemma merge_outs_ok fuel : forall maxOuts l, (length l <= fuel)%nat -> 1 <= maxOuts ->
  Forall (fun a => 0 <= a) l -> sumZ l < 2 ^ 64 ->
  exists l', merge_outs fuel maxOuts l = Ok l' /\ sumZ l' = sumZ l /\ Z.of_nat (length l') <= maxOuts /\
    Forall (fun a => 0 <= a) l'.
Proof.
  induction fuel as [|fuel IH]; intros maxOuts l Hf Hm Hnn Hs; cbn [merge_outs];
    (destruct (Z.ltb_spec maxOuts (Z.of_nat (length l))); [|by exists l]); [lia|].
  destruct (split_last_two l) as (l0 & a & b & ->); [lia|].
  apply Forall_app in Hnn as [H0 Hab]. apply Forall_cons in Hab as [Ha Hb]. apply Forall_cons in Hb as [Hb _].
  rewrite sumZ_app in Hs. change (sumZ [a; b]) with (a + (b + 0)) in Hs.
  pose proof (sumZ_nonneg _ H0). rewrite length_app. cbn [length].
  replace (length l0 + 2 - 2)%nat with (length l0 + 0)%nat by lia.
  rewrite (list_lookup_middle l0 [b] a) by lia. cbn [from_option]. okbind.
  rewrite (last_app_cons l0 [b]). cbn [last from_option]. okbind.
  rewrite insert_app_r. cbn [insert list_insert list_alter].
  rewrite wrap_small by (unfold in_width; lia). replace (length l0 + 2 - 1)%nat with (length l0 + 1)%nat by lia.
  rewrite take_app_add. cbn [take].
  destruct (IH maxOuts (l0 ++ [a + b])) as (l' & E1 & E2 & E3 & E4).
  - rewrite length_app in *. simpl in *. lia.
  - done.
  - apply Forall_app. split; [done|]. constructor; [lia|constructor].
  - rewrite sumZ_app. change (sumZ [a + b]) with (a + b + 0). lia.
  - exists l'. split; [done|]. split; [|done]. rewrite E2, !sumZ_app.
    change (sumZ [a + b]) with (a + b + 0). change (sumZ [a; b]) with (a + (b + 0)). lia.
Qed.

Lemma miner_outputs_amounts pv ps sk l : forall no outs,
  miner_outputs pv ps sk no l = Some outs -> out_amount <$> outs = l.
Proof.
  induction l as [|a l IH]; intros no outs H; simpl in H; [by simplify_eq|].
  apply bind_Some in H as (d & _ & H). apply bind_Some in H as (k & _ & H).
  apply bind_Some in H as (rest & Hr & H). simplify_eq. rewrite fmap_cons. f_equal. by eapply IH.
Qed.

Lemma miner_outputs_some pv ps sk l : (forall no, exists d k, generate_key_derivation pv sk = Some d /\
  derive_public_key d no ps = Some k) -> forall no, is_Some (miner_outputs pv ps sk no l).
Proof.
  intros Hk. induction l as [|a l IH]; intros no; [by eexists|]. destruct (Hk no) as (d & k & E1 & E2).
  destruct (IH (no + 1)) as [rest E3]. simpl. rewrite E1. simpl. rewrite E2. simpl. rewrite E3. by eexists.
Qed.

(** C38: with keys that derive, a block that is not too big, a short enough extra
    nonce and at least one output allowed, [constructMinerTx] succeeds: the base
    transaction has one base input at the height, at most [maxOuts] outputs, and
    pays exactly the block reward. *)
Theorem miner_tx_pays_reward c v height median already current fee pv ps txkey extraNonce maxOuts reward change :
  is_u64 (m_defaultDustThreshold c) -> is_u64 (m_moneySupply c) -> 0 <= already <= m_moneySupply c ->
  0 <= fee < 2 ^ 63 -> 0 < effective_median c v median < 2 ^ 32 -> 0 <= current < 2 ^ 32 ->
  Z.of_nat (length extraNonce) <= 255 -> 1 <= maxOuts ->
  (forall no, exists d k, generate_key_derivation pv (secretKey txkey) = Some d /\ derive_public_key d no ps = Some k) ->
  getBlockReward c v median current already fee height = Ok (Some (reward, change)) ->
  exists tx, constructMinerTx c v height median already current fee pv ps txkey extraNonce maxOuts = Ok (Some tx) /\
    inputs (tx_prefix tx) = [InBase {| blockIndex := height |}] /\ signatures tx = [] /\
    sumZ (out_amount <$> outputs (tx_prefix tx)) = reward /\
    Z.of_nat (length (outputs (tx_prefix tx))) <= maxOuts.
Proof.
  intros Hd Hs Hal Hfee Hm Hc Hn Hmax Hk Hr. unfold constructMinerTx. set (e := addTransactionPublicKeyToExtra _ _).
  assert (exists e', (if bool_decide (extraNonce = []) then Some e else addExtraNonceToTransactionExtra e extraNonce) = Some e')
    as [e' ->].
  { destruct (bool_decide _); [by eexists|]. unfold addExtraNonceToTransactionExtra, TX_EXTRA_NONCE_MAX_COUNT.
    rewrite (proj2 (Z.ltb_ge _ _)) by lia. by eexists. }
  assert (Hru : is_u64 reward).
  { rewrite getBlockReward_ok in Hr by done. destruct (_ <? current) eqn:E; [done|]. apply Z.ltb_ge in E.
    set (m := effective_median c v median) in *. set (b := (m_moneySupply c - already) / 2 ^ emission_factor height) in *.
    assert (Hb : 0 <= b < 2 ^ 41).
    { subst b. width_unfold. destruct (emission_cases height) as [-> | ->]; (split; [apply Z.div_pos; lia|]);
      apply Z.div_lt_upper_bound; eval_pow2; lia. }
    pose proof (penalized_bounds b m current ltac:(lia) ltac:(lia) ltac:(lia)) as Hpb.
    pose proof (penalized_bounds fee m current ltac:(lia) ltac:(lia) ltac:(lia)) as Hpf.
    cbn zeta in Hr. width_unfold. eval_pow2. destruct (BLOCK_MAJOR_VERSION_2 <=? v); simplify_eq; lia. }
  rewrite Hr. okbind. rewrite (proj2 (Z.leb_le _ _)) by done. cbn [negb].
  destruct (decompose_ok reward (m_defaultDustThreshold c) Hru Hd) as (S1 & S2 & d & ch & E & Hd' & Hch).
  assert (Hnn : Forall (fun a => 0 <= a) (decomposeAmount reward (m_defaultDustThreshold c))).
  { unfold decomposeAmount. rewrite E, fmap_app. apply Forall_app. split.
    - destruct Hd' as [-> | (x & -> & Hx)]; repeat constructor. simpl. lia.
    - apply Forall_fmap. eapply Forall_impl; [exact Hch|]. intros p [_ Hp]. simpl.
      assert (HP : Forall (fun a => 0 <= a) PRETTY_AMOUNTS) by by_compute.
      rewrite Forall_forall in HP. by apply HP. }
  destruct (merge_outs_ok (length (decomposeAmount reward (m_defaultDustThreshold c))) maxOuts _ (le_n _) Hmax Hnn)
    as (l & -> & M2 & M3 & M4). { unfold decomposeAmount. rewrite S1. apply Hru. } okbind.
  destruct (miner_outputs_some pv ps (secretKey txkey) l Hk 0) as [outs Ho]. rewrite Ho.
  unfold decomposeAmount in M2. rewrite S1 in M2.
  rewrite sum_wrap, Z.add_0_l, M2, wrap_small, Z.eqb_refl by done. cbn [negb].
  eexists. split; [done|]. cbn [tx_prefix inputs outputs signatures]. rewrite (miner_outputs_amounts _ _ _ _ _ _ Ho).
  split; [done|]. split; [done|]. split; [done|]. rewrite <- (miner_outputs_amounts _ _ _ _ _ _ Ho), length_fmap in M3. done.
Qed.
End crypto.

Lemma miner_tx_pays_reward_witness :
  let gen := fun (p : PublicKey) (s : SecretKey) => Some (p ++ s) in
  let der := fun (d : bytes) (n : Z) (p : PublicKey) => Some p in
  exists tx, constructMinerTx gen der test_currency 5 800000 0 1000 500 77 (replicate 32 1) (replicate 32 2)
      {| publicKey := replicate 32 3; secretKey := replicate 32 4 |} [5; 6] 11 = Ok (Some tx) /\
    inputs (tx_prefix tx) = [InBase {| blockIndex := 800000 |}] /\ signatures tx = [] /\
    sumZ (out_amount <$> outputs (tx_prefix tx)) = 596046524 /\
    Z.of_nat (length (outputs (tx_prefix tx))) <= 11.
Proof.
  intros gen der. apply (miner_tx_pays_reward gen der) with (change := 596046447);
    try (intros no; do 2 eexists; by split); by vm_compute.
Defined.

(** ** Fusion transactions *)

(** [std::lower_bound] on an increasing list: the first position whose element
    is not below the value, or the end. *)
Definition lower_bound (l : list Z) (x : Z) : nat :=
  match list_find (fun y => x <= y) l with Some (i, _) => i | None => length l end.

(** [None] is [false]. *)
Definition isAmountApplicableInFusionTransactionInput (c : Currency) (amount threshold height : Z) : option Z :=
  if threshold <=? amount then None
  else if amount <? m_defaultDustThreshold c then None
  else
    let it := lower_bound PRETTY_AMOUNTS amount in
    match PRETTY_AMOUNTS !! it with
    | None => None
    | Some p => if negb (amount =? p) then None else Some (u8 (Z.of_nat it / 9))
    end.

Definition isFusionTransaction_amounts (c : Currency) (inputsAmounts outputsAmounts : list Z) (size height : Z) : bool :=
  if m_fusionTxMaxSize c <? size then false
  else if Z.of_nat (length inputsAmounts) <? m_fusionTxMinInputCount c then false
  else if Z.of_nat (length inputsAmounts) <? u64 (Z.of_nat (length outputsAmounts) * m_fusionTxMinInOutCountRatio c) then false
  else if existsb (fun amount => amount <? m_defaultDustThreshold c) inputsAmounts then false
  else
    let inputAmount := foldl (fun s a => u64 (s + a)) 0 inputsAmounts in
    let inputAmount := if (FUSION_FEE_V1_HEIGHT <=? height) && (height <? FUSION_FEE_V1_EXIT_HEIGHT)
                       then u64 (inputAmount - FUSION_FEE_V1) else inputAmount in
    let expectedOutputsAmounts := merge_sort Z.le (decomposeAmount inputAmount (m_defaultDustThreshold c)) in
    bool_decide (expectedOutputsAmounts = outputsAmounts).

(** The overload that also takes the transaction asserts that [size] is its size. *)
Definition isFusionTransaction (c : Currency) (tx : Transaction) (size height : Z) : outcome bool :=
  s ← getObjectBinarySize serialize_Transaction tx;
  _ ← assert (s =? size) "assert(getObjectBinarySize(transaction) == size)";
  Ok (isFusionTransaction_amounts c (getInputsAmounts tx) (out_amount <$> outputs (tx_prefix tx)) size height).
Definition isFusionTransaction_tx (c : Currency) (tx : Transaction) (height : Z) : outcome bool :=
  s ← getObjectBinarySize serialize_Transaction tx; isFusionTransaction c tx s height.

(** ** Amounts as text *)

Definition char_0 : Z := 48.
Definition char_point : Z := 46.
Definition whitespace : list Z := [32; 9; 10; 13; 12; 11].
Definition is_space (ch : Z) : bool := bool_decide (ch ∈ whitespace).
Definition isdigit (ch : Z) : bool := (48 <=? ch) && (ch <=? 57).

(** [std::to_string] of a [uint64_t], at most 20 digits. *)
Fixpoint to_string_loop (fuel : nat) (n : Z) : bytes :=
  match fuel with
  | O => []
  | S fuel => if n <? 10 then [char_0 + n] else to_string_loop fuel (n / 10) ++ [char_0 + n mod 10]
  end.
Definition to_string (n : Z) : bytes := to_string_loop 20 n.

(** [stream >> value] on a text of digits: the number, or failure above 64 bits. *)
Definition digits_value (s : bytes) : Z := foldl (fun v ch => v * 10 + (ch - char_0)) 0 s.
Definition fromString_u64 (s : bytes) : option Z :=
  if digits_value s <? 2 ^ 64 then Some (digits_value s) else None.

Fixpoint leftTrim (s : bytes) : bytes :=
  match s with [] => [] | ch :: r => if is_space ch then leftTrim r else s end.
Definition rightTrim (s : bytes) : bytes := reverse (leftTrim (reverse s)).
Definition trim (s : bytes) : bytes := leftTrim (rightTrim s).

Definition formatAmount (c : Currency) (amount : Z) : bytes :=
  let s := to_string amount in
  let s := if (length s <? m_numberOfDecimalPlaces c + 1)%nat
           then replicate (m_numberOfDecimalPlaces c + 1 - length s) char_0 ++ s else s in
  let i := (length s - m_numberOfDecimalPlaces c)%nat in
  take i s ++ [char_point] ++ drop i s.

(** [std::abs] has no result for the least [int64_t]. *)
Definition formatAmount_signed (c : Currency) (amount : Z) : outcome bytes :=
  _ ← assert (- 2 ^ 63 <? amount) "std::abs of INT64_MIN";
  let s := formatAmount c (Z.abs amount) in
  Ok (if amount <? 0 then 45 :: s else s).

(** The [while] loop that drops zeros beyond the last decimal place: it runs at
    most [excess] times. *)
Fixpoint strip_zeros (excess : nat) (s : bytes) : nat * bytes :=
  match excess with
  | O => (O, s)
  | S k => if bool_decide (last s = Some char_0) then strip_zeros k (take (length s - 1) s) else (excess, s)
  end.

Definition parseAmount (c : Currency) (str : bytes) : option Z :=
  let strAmount := trim str in
  let places := m_numberOfDecimalPlaces c in
  '(fractionSize, strAmount) ←
    (match list_find (fun ch => ch = char_point) strAmount with
     | Some (pointIndex, _) =>
         let fractionSize := (length strAmount - pointIndex - 1)%nat in
         let '(excess, strAmount) := strip_zeros (fractionSize - places) strAmount in
         if (0 <? excess)%nat then None
         else Some (Nat.min fractionSize places, take pointIndex strAmount ++ drop (S pointIndex) strAmount)
     | None => Some (0%nat, strAmount)
     end);
  if bool_decide (strAmount = []) then None
  else if negb (forallb isdigit strAmount) then None
  else
    let strAmount := if (fractionSize <? places)%nat
                     then strAmount ++ replicate (places - fractionSize) char_0 else strAmount in
    fromString_u64 strAmount.

(** ** Lemmas: text *)

Lemma digits_value_app s1 s2 :
  digits_value (s1 ++ s2) = digits_value s1 * 10 ^ Z.of_nat (length s2) + digits_value s2.
Proof.
  unfold digits_value. rewrite foldl_app.
  assert (G : forall s a, foldl (fun v ch => v * 10 + (ch - char_0)) a s
    = a * 10 ^ Z.of_nat (length s) + foldl (fun v ch => v * 10 + (ch - char_0)) 0 s).
  { induction s as [|ch s IH]; intros a; [simpl; lia|]. cbn [foldl length].
    rewrite IH, (IH (0 * 10 + _)), Nat2Z.inj_succ, Z.pow_succ_r by lia. ring. }
  apply G.
Qed.

Lemma digits_value_zeros k s : digits_value (replicate k char_0 ++ s) = digits_value s.
Proof.
  rewrite digits_value_app. assert (E : digits_value (replicate k char_0) = 0).
  { induction k as [|k IH]; [done|]. change (replicate (S k) char_0) with ([char_0] ++ replicate k char_0).
    rewrite digits_value_app, IH. change (digits_value [char_0]) with 0. lia. }
  rewrite E. lia.
Qed.

Lemma digit_char d : 0 <= d <= 9 -> isdigit (char_0 + d) = true.
Proof. intros. unfold isdigit, char_0. apply andb_true_intro. split; apply Z.leb_le; lia. Qed.

Lemma to_string_spec fuel : forall n, 0 <= n < 10 ^ Z.of_nat fuel -> (0 < fuel)%nat ->
  digits_value (to_string_loop fuel n) = n /\ Forall (fun ch => isdigit ch = true) (to_string_loop fuel n) /\
  to_string_loop fuel n <> [].
Proof.
  induction fuel as [|fuel IH]; intros n Hn Hf; [lia|]. cbn [to_string_loop]. destruct (Z.ltb_spec n 10).
  - split; [unfold digits_value, char_0; simpl; lia|]. split; [|done]. constructor; [apply digit_char; lia|constructor].
  - rewrite Nat2Z.inj_succ, Z.pow_succ_r in Hn by lia. pose proof (Z.mod_pos_bound n 10 ltac:(lia)).
    destruct (IH (n / 10)) as (E1 & E2 & E3).
    + split; [apply Z.div_pos; lia|apply Z.div_lt_upper_bound; lia].
    + destruct fuel; [simpl in Hn; lia|lia].
    + split; [|split; [|by destruct (to_string_loop fuel (n / 10))]].
      * rewrite digits_value_app, E1. change (digits_value [char_0 + n mod 10]) with (0 * 10 + (char_0 + n mod 10 - char_0)).
        cbn [length]. pose proof (Z.div_mod n 10). lia.
      * apply Forall_app. split; [done|]. constructor; [apply digit_char; lia|constructor].
Qed.

Lemma leftTrim_id s ch : is_space ch = false -> leftTrim (ch :: s) = ch :: s.
Proof. intros H. simpl. by rewrite H. Qed.
Lemma rightTrim_id s ch : is_space ch = false -> rightTrim (s ++ [ch]) = s ++ [ch].
Proof. intros H. unfold rightTrim. rewrite reverse_snoc, leftTrim_id by done. by rewrite <- reverse_snoc, reverse_involutive. Qed.

Lemma digit_not_space ch : isdigit ch = true -> is_space ch = false.
Proof.
  unfold isdigit. intros H. apply andb_true_iff in H as [H1 H2]. apply Z.leb_le in H1, H2.
  unfold is_space. apply bool_decide_eq_false_2. unfold whitespace. rewrite !elem_of_cons, elem_of_nil. lia.
Qed.

Lemma trim_id a s ch : is_space a = false -> is_space ch = false -> trim (a :: s ++ [ch]) = a :: s ++ [ch].
Proof.
  intros Ha Hc. unfold trim. rewrite app_comm_cons, rightTrim_id by done. by apply leftTrim_id.
Qed.

(** The text with the point in it is not changed by trimming. *)
Lemma trim_amount p1 p2 : Forall (fun ch => isdigit ch = true) p1 -> Forall (fun ch => isdigit ch = true) p2 ->
  p1 <> [] -> trim (p1 ++ [char_point] ++ p2) = p1 ++ [char_point] ++ p2.
Proof.
  intros H1 H2 Hne. destruct p1 as [|a p1]; [done|]. apply Forall_cons in H1 as [Ha H1].
  destruct (decide (p2 = [])) as [->|Hp2].
  - rewrite app_nil_r, <- app_comm_cons. apply trim_id; [by apply digit_not_space|done].
  - destruct (@exists_last _ p2 Hp2) as (p & b & ->). apply Forall_app in H2 as [_ H2]. apply Forall_cons in H2 as [Hb _].
    rewrite <- app_comm_cons, !app_assoc. apply trim_id; by apply digit_not_space.
Qed.

Lemma find_point p1 p2 : Forall (fun ch => isdigit ch = true) p1 ->
  list_find (fun ch => ch = char_point) (p1 ++ [char_point] ++ p2) = Some (length p1, char_point).
Proof.
  intros H. apply list_find_Some. split; [by apply list_lookup_middle|]. split; [done|].
  intros j y Hj Hlt. rewrite lookup_app_l in Hj by done. eapply Forall_lookup_1 in H; [|exact Hj].
  simpl in H. intros ->. discriminate.
Qed.

(** an amount printed by [formatAmount] is read back by [parseAmount], for
    any number of decimal places. *)
Theorem amount_text_roundtrip c amount : is_u64 amount -> parseAmount c (formatAmount c amount) = Some amount.
Proof.
  intros Ha. unfold formatAmount. set (d := m_numberOfDecimalPlaces c).
  destruct (to_string_spec 20 amount) as (V & D & Ne); [width_unfold; eval_pow2; simpl; lia|lia|].
  fold (to_string amount) in V, D, Ne. set (s0 := to_string amount) in *.
  set (s := if (length s0 <? d + 1)%nat then replicate (d + 1 - length s0) char_0 ++ s0 else s0).
  assert (Vs : digits_value s = amount) by (subst s; case_match; [by rewrite digits_value_zeros|done]).
  assert (Ds : Forall (fun ch => isdigit ch = true) s)
    by (subst s; case_match; [apply Forall_app; split; [by apply Forall_replicate|done]|done]).
  assert (Ls : (d + 1 <= length s)%nat).
  { subst s. destruct (Nat.ltb_spec (length s0) (d + 1)); [|lia]. rewrite length_app, length_replicate. lia. }
  clearbody s. set (i := (length s - d)%nat).
  assert (Hi : length (take i s) = i) by (rewrite length_take; lia).
  assert (Hj : length (drop i s) = d) by (rewrite length_drop; lia).
  assert (D1 : Forall (fun ch => isdigit ch = true) (take i s)) by by apply Forall_take.
  assert (D2 : Forall (fun ch => isdigit ch = true) (drop i s)) by by apply Forall_drop.
  unfold parseAmount. rewrite trim_amount; [|done|done|intros E; rewrite E in Hi; simpl in Hi; lia].
  rewrite find_point by done. fold d.
  replace (length (take i s ++ [char_point] ++ drop i s) - length (take i s) - 1)%nat with d
    by (rewrite !length_app; cbn [length]; lia).
  rewrite Nat.sub_diag. cbn [strip_zeros]. change (0 <? 0)%nat with false. rewrite Nat.min_id.
  rewrite take_app_length, drop_app_ge by lia. replace (S (length (take i s)) - length (take i s))%nat with 1%nat by lia.
  cbn [app drop mbind option_bind]. rewrite drop_0, take_drop.
  rewrite bool_decide_eq_false_2 by (intros ->; simpl in Ls; lia).
  assert (Hall : forallb isdigit s = true).
  { apply forallb_forall. intros ch Hch. rewrite Forall_forall in Ds. by apply Ds, list_elem_of_In. }
  rewrite Hall. cbn [negb].
  rewrite (proj2 (Nat.ltb_ge d d)) by lia. unfold fromString_u64. rewrite Vs, (proj2 (Z.ltb_lt _ _)) by apply Ha. done.
Qed.

Lemma amount_text_roundtrip_witness : parseAmount test_currency (formatAmount test_currency 5) = Some 5.
Proof. apply amount_text_roundtrip. by_compute. Defined.

(** ** The genesis block *)

Definition GENESIS_COINBASE_TX_HEX : bytes := str
  "010a01ff000188f3b501029b2e4c0281c0b02e7c53291a94d1d0cbff8883f8024f5142ee494ffbbd088071210142694232c5b04151d9e4c27d31ec7a68ea568b19488cfcb422659a07a0e44dd5".

(** [None]: the blob does not parse. *)
Definition generateGenesisBlock : outcome (option BlockTemplate) :=
  match fromHex_append GENESIS_COINBASE_TX_HEX [] with
  | (false, _) => Ok None
  | (true, minerTxBlob) =>
      r ← fromBinaryArray_opt serialize_Transaction new_Transaction minerTxBlob;
      Ok (match r with
          | None => None
          | Some tx => Some {| header := {| majorVersion := BLOCK_MAJOR_VERSION_1; minorVersion := BLOCK_MINOR_VERSION_0;
                                 nonce := 70; timestamp := 0; previousBlockHash := NULL_HASH |};
                               parentBlock := new_ParentBlock; baseTransaction := tx; transactionHashes := [] |}
          end)
  end.

(** ** Proof of work *)

Section pow.
Context (cn_fast_hash : bytes -> Hash) (algorithm : Z -> option (bytes -> Hash)) (genesisBlockHash : Hash).

Definition getNextDifficulty (version blockIndex : Z) (timestamps cumulativeDifficulties : list Z) : outcome Z :=
  nextDifficulty timestamps cumulativeDifficulties blockIndex.

Definition checkProofOfWorkV1 (b : BlockTemplate) (currentDifficulty : Z) : outcome bool :=
  if negb (BLOCK_MAJOR_VERSION_1 =? majorVersion (header b)) then Ok false
  else h ← getBlockLongHash cn_fast_hash algorithm b; Ok (check_hash h currentDifficulty).

Definition checkProofOfWorkV2 (b : BlockTemplate) (currentDifficulty : Z) : outcome bool :=
  if majorVersion (header b) <? BLOCK_MAJOR_VERSION_2 then Ok false
  else
    h ← getBlockLongHash cn_fast_hash algorithm b;
    if negb (check_hash h currentDifficulty) then Ok false
    else
      mm ← getMergeMiningTagFromExtra (extra (pb_baseTransaction (parentBlock b)));
      match mm with
      | None => Ok false
      | Some mmTag =>
          if 8 * 32 <? Z.of_nat (length (blockchainBranch (parentBlock b))) then Ok false
          else
            aux ← getAuxiliaryBlockHeaderHash cn_fast_hash b;
            root ← tree_hash_from_branch cn_fast_hash (blockchainBranch (parentBlock b))
                     (length (blockchainBranch (parentBlock b))) aux (Some genesisBlockHash);
            Ok (bool_decide (root = merkleRoot mmTag))
      end.

Definition checkProofOfWork (b : BlockTemplate) (currentDiffic : Z) : outcome bool :=
  if majorVersion (header b) =? BLOCK_MAJOR_VERSION_1 then checkProofOfWorkV1 b currentDiffic
  else checkProofOfWorkV2 b currentDiffic.

(** a block passes [checkProofOfWork] only if its slow hash, as a 256-bit
    number, times the difficulty is below [2^256]; and, from version 2 on, only
    if the block's own header hash, carried up the blockchain branch along the
    bits of the genesis hash, is the root named by the merge-mining tag of the
    parent block, whose branch has at most 256 steps. *)
Theorem checkProofOfWork_sound b d : is_u64 d ->
  (forall v hash x, algorithm v = Some hash -> pod 32 (hash x)) ->
  checkProofOfWork b d = Ok true ->
  exists h, getBlockLongHash cn_fast_hash algorithm b = Ok h /\ le_val h * d < 2 ^ 256 /\
    (majorVersion (header b) <> 1 -> exists tag aux,
       getMergeMiningTagFromExtra (extra (pb_baseTransaction (parentBlock b))) = Ok (Some tag) /\
       getAuxiliaryBlockHeaderHash cn_fast_hash b = Ok aux /\
       (length (blockchainBranch (parentBlock b)) <= 256)%nat /\
       tree_hash_from_branch cn_fast_hash (blockchainBranch (parentBlock b))
         (length (blockchainBranch (parentBlock b))) aux (Some genesisBlockHash) = Ok (merkleRoot tag)).
Proof.
  intros Hd Halg H.
  assert (Hlong : forall h, getBlockLongHash cn_fast_hash algorithm b = Ok h -> check_hash h d = true -> le_val h * d < 2 ^ 256).
  { intros h Hh Hc. unfold getBlockLongHash in Hh. inv_ok. destruct (algorithm _) as [hash|] eqn:E; [|done]. inv_ok. subst h.
    destruct (Halg _ _ v E) as [Hb Hl]. rewrite check_hash_ok in Hc by done. by apply Z.ltb_lt. }
  unfold checkProofOfWork in H. destruct (Z.eqb_spec (majorVersion (header b)) BLOCK_MAJOR_VERSION_1) as [E|E].
  - unfold checkProofOfWorkV1 in H. rewrite E in H. cbn [Z.eqb BLOCK_MAJOR_VERSION_1 Pos.eqb negb] in H. inv_ok.
    exists v. split; [done|]. split; [by apply Hlong|]. by rewrite E.
  - unfold checkProofOfWorkV2 in H. destruct (_ <? BLOCK_MAJOR_VERSION_2); [by inv_ok|]. inv_ok.
    destruct (check_hash v d) eqn:Ec; [|by inv_ok]. cbn [negb] in H. inv_ok.
    destruct v0 as [tag|]; [|by inv_ok].
    destruct (Z.ltb_spec (8 * 32) (Z.of_nat (length (blockchainBranch (parentBlock b))))); [by inv_ok|]. inv_ok.
    apply bool_decide_eq_true in H as ->. exists v. split; [done|]. split; [by apply Hlong|].
    intros _. exists tag, v0. split; [done|]. split; [done|]. split; [lia|done].
Qed.
End pow.

(** the hard-coded genesis transaction parses, and the block it gives is a
    valid version 1 block at height 0. *)
Theorem genesis_valid : exists b, generateGenesisBlock = Ok (Some b) /\ valid_block b /\ getBlockIndex b = 0.
Proof.
  eexists. split; [vm_compute; reflexivity|]. split; [|by vm_compute]. constructor; first [by_compute|by vm_compute].
Qed.

Lemma checkProofOfWork_sound_witness :
  let H := fun _ : bytes => replicate 32 9 in
  let A := fun _ : Z => Some H in
  checkProofOfWork H A NULL_HASH sample_block 20 = Ok true /\
  exists h, getBlockLongHash H A sample_block = Ok h /\ le_val h * 20 < 2 ^ 256 /\
    (5 <> 1 -> exists tag aux,
       getMergeMiningTagFromExtra (extra (pb_baseTransaction (parentBlock sample_block))) = Ok (Some tag) /\
       getAuxiliaryBlockHeaderHash H sample_block = Ok aux /\
       (length (blockchainBranch (parentBlock sample_block)) <= 256)%nat /\
       tree_hash_from_branch H (blockchainBranch (parentBlock sample_block)) 1 aux (Some NULL_HASH)
       = Ok (merkleRoot tag)).
Proof.
  intros H A. split; [by vm_compute|]. apply (checkProofOfWork_sound H A NULL_HASH sample_block 20).
  - by_compute.
  - intros v hash x E. injection E as <-. by_compute.
  - by vm_compute.
Defined.

(** ** Properties: fusion *)

(** a transaction accepted as a fusion transaction, outside the heights that
    charge a fusion fee, has at least 12 inputs, at least four times as many
    inputs as outputs, pays no fee, and pays out in standard denominations in
    increasing order. *)
Theorem fusion_conserves c ins outs size height :
  m_defaultDustThreshold c = 0 -> m_fusionTxMinInputCount c = 12 -> m_fusionTxMinInOutCountRatio c = 4 ->
  Forall (in_width 64) ins -> sumZ ins < 2 ^ 64 -> Z.of_nat (length outs) < 2 ^ 32 ->
  (height < FUSION_FEE_V1_HEIGHT \/ FUSION_FEE_V1_EXIT_HEIGHT <= height) ->
  isFusionTransaction_amounts c ins outs size height = true ->
  12 <= Z.of_nat (length ins) /\ 4 * Z.of_nat (length outs) <= Z.of_nat (length ins) /\
  sumZ outs = sumZ ins /\ Forall (fun a => a ∈ PRETTY_AMOUNTS) outs.
Proof.
  intros Hdust Hmin Hratio Hins Hsum Hl Hh H. unfold isFusionTransaction_amounts in H. rewrite Hdust, Hmin, Hratio in H.
  rewrite (wrap_small 64 (_ * 4)) in H by (unfold in_width; eval_pow2; lia).
  destruct (_ <? size); [done|]. destruct (Z.ltb_spec (Z.of_nat (length ins)) 12); [done|].
  destruct (Z.ltb_spec (Z.of_nat (length ins)) (Z.of_nat (length outs) * 4)); [done|].
  destruct (existsb _ ins); [done|].
  assert (E : (FUSION_FEE_V1_HEIGHT <=? height) && (height <? FUSION_FEE_V1_EXIT_HEIGHT) = false).
  { apply andb_false_iff. rewrite Z.leb_gt, Z.ltb_ge. lia. }
  pose proof (sum_u64_nonneg _ Hins) as Hnn.
  rewrite E, sum_wrap, Z.add_0_l, wrap_small in H by (done || (unfold in_width; lia)).
  apply bool_decide_eq_true in H. pose proof (merge_sort_Permutation Z.le (decomposeAmount (sumZ ins) 0)) as HP.
  rewrite H in HP. destruct (decompose_ok (sumZ ins) 0) as (S1 & _ & d & ch & Ed & Hd & Hc);
    [unfold in_width; lia|done|]. fold (decomposeAmount (sumZ ins) 0) in S1.
  split; [lia|]. split; [lia|]. split; [by rewrite HP|].
  rewrite HP. unfold decomposeAmount. rewrite Ed. destruct Hd as [-> | (x & _ & ?)]; [|lia].
  apply Forall_fmap. eapply Forall_impl; [exact Hc|]. by intros p [_ ?].
Qed.

Lemma fusion_conserves_witness :
  12 <= Z.of_nat (length (replicate 12 50)) /\ 4 * Z.of_nat (length [600]) <= Z.of_nat (length (replicate 12 50)) /\
  sumZ [600] = sumZ (replicate 12 50) /\ Forall (fun a => a ∈ PRETTY_AMOUNTS) [600].
Proof.
  apply (fusion_conserves test_currency _ _ 1000 900000); first [by_compute|by vm_compute].
Defined.

(** an amount that may be an input of a fusion transaction is a standard
    denomination below the threshold, and the power of ten reported for it is
    that of its only nonzero digit. *)
Theorem fusion_input_power c amount threshold height p :
  isAmountApplicableInFusionTransactionInput c amount threshold height = Some p ->
  amount < threshold /\ m_defaultDustThreshold c <= amount /\ amount ∈ PRETTY_AMOUNTS /\
  exists d, 1 <= d <= 9 /\ amount = d * 10 ^ p.
Proof.
  unfold isAmountApplicableInFusionTransactionInput.
  destruct (Z.leb_spec threshold amount); [done|]. destruct (Z.ltb_spec amount (m_defaultDustThreshold c)); [done|].
  set (i := lower_bound PRETTY_AMOUNTS amount). destruct (PRETTY_AMOUNTS !! i) as [q|] eqn:E; [|done].
  destruct (Z.eqb_spec amount q) as [->|]; [|done]. cbn [negb]. intros Hp. injection Hp as <-.
  split; [done|]. split; [done|]. split; [by eapply list_elem_of_lookup_2|].
  assert (T : forallb (fun j => match PRETTY_AMOUNTS !! j with
      | Some q => existsb (fun d => q =? d * 10 ^ u8 (Z.of_nat j / 9)) (seqZ 1 9) | None => true end)
      (seq 0 (length PRETTY_AMOUNTS)) = true) by by vm_compute.
  rewrite forallb_forall in T. specialize (T i). rewrite E in T.
  assert (Hi : (i < length PRETTY_AMOUNTS)%nat) by by eapply lookup_lt_Some.
  specialize (T ltac:(apply in_seq; lia)). apply existsb_exists in T as (d & Hd & Eq).
  apply Z.eqb_eq in Eq. apply list_elem_of_In, elem_of_seqZ in Hd.
  exists d. split; [lia|done].
Qed.

Lemma fusion_input_power_witness :
  7000 < 100000 /\ m_defaultDustThreshold test_currency <= 7000 /\ 7000 ∈ PRETTY_AMOUNTS /\
  exists d, 1 <= d <= 9 /\ 7000 = d * 10 ^ 3.
Proof. apply (fusion_input_power test_currency 7000 100000 900000 3). by vm_compute. Defined.
