(* ===== verification/Checkpoints.v ===== *)
(** * Checkpoints: [cryptonotecore/Checkpoints.cpp]

    The map from block index to hash, and the file it is loaded from.  The file
    is its bytes; [std::getline] and [std::stoull] are modelled on them. *)

From Stdlib Require Import ZArith Lia.
From stdpp Require Import base tactics list numbers strings gmap fin_maps.
From S2P Require Import Prelude Types StringTools FormatUtils Currency.

Local Open Scope Z_scope.

Abbreviation points := (gmap Z Hash).

Definition addCheckpoint (pts : points) (index : Z) (hash_str : bytes) : bool * points :=
  let index := u32 index in
  match podFromHex 32 hash_str with
  | None => (false, pts)
  | Some h =>
      match pts !! index with
      | Some _ => (false, pts)
      | None => (true, <[index := h]> pts)
      end
  end.

(** The key of the last element of the ordered map. *)
Definition last_index (pts : points) : option Z :=
  map_fold (fun k _ m => Some (match m with None => k | Some m => Z.max k m end)) None pts.

Definition isInCheckpointZone (pts : points) (index : Z) : bool :=
  match last_index pts with None => false | Some m => u32 index <=? m end.

(** The flag and [isCheckpoint]. *)
Definition checkBlock (pts : points) (index : Z) (h : Hash) : bool * bool :=
  match pts !! u32 index with
  | None => (true, false)
  | Some h' => (bool_decide (h' = h), true)
  end.

(** ** The file *)

(** [std::getline(file, str, delim)] on a good stream: [None] when it sets the
    fail bit; otherwise the text, and the rest of the file unless the end was
    reached. *)
Fixpoint split_at (delim : Z) (s : bytes) : bytes * option bytes :=
  match s with
  | [] => ([], None)
  | ch :: s =>
      if ch =? delim then ([], Some s)
      else let '(l, r) := split_at delim s in (ch :: l, r)
  end.
Definition getline (delim : Z) (file : bytes) : option (bytes * option bytes) :=
  if bool_decide (file = []) then None else Some (split_at delim file).

Definition char_comma : Z := 44.
Definition char_newline : Z := 10.

(** [std::stoull]: white space, an optional sign, then as many digits as there are. *)
Fixpoint digit_prefix (s : bytes) : bytes :=
  match s with
  | ch :: s => if isdigit ch then ch :: digit_prefix s else []
  | [] => []
  end.
Definition stoull (s : bytes) : outcome Z :=
  let s := leftTrim s in
  let '(neg, s) := match s with
                   | 43 :: r => (false, r)
                   | 45 :: r => (true, r)
                   | _ => (false, s)
                   end in
  let d := digit_prefix s in
  _ ← require (negb (bool_decide (d = []))) "invalid_argument";
  _ ← require (digits_value d <? 2 ^ 64) "out_of_range";
  Ok (if (neg : bool) then u64 (- digits_value d) else digits_value d).

(** The loop over the lines; each round consumes at least a byte. *)
Fixpoint load_loop (fuel : nat) (pts : points) (file : bytes) : outcome (bool * points) :=
  match fuel with
  | O => Undefined "out of fuel"
  | S fuel =>
      match getline char_comma file with
      | Some (indexString, Some rest) =>
          match getline char_newline rest with
          | None => Ok (true, pts)
          | Some (hash, rest) =>
              match stoull indexString with
              | Undefined w => Undefined w
              | Throw _ => Ok (false, pts)
              | Ok index =>
                  let '(added, pts) := addCheckpoint pts index hash in
                  if negb added then Ok (false, pts)
                  else match rest with
                       | None => Ok (true, pts)
                       | Some rest => load_loop fuel pts rest
                       end
              end
          end
      | _ => Ok (true, pts)
      end
  end.

(** [None]: the file cannot be opened. *)
Definition loadCheckpointsFromFile (pts : points) (file : option bytes) : outcome (bool * points) :=
  match file with
  | None => Ok (false, pts)
  | Some file => load_loop (S (length file)) pts file
  end.

(** ** Lemmas *)

Lemma last_index_spec pts :
  match last_index pts with
  | None => pts = ∅
  | Some m => is_Some (pts !! m) /\ forall k, is_Some (pts !! k) -> k <= m
  end.
Proof.
  unfold last_index. apply (map_fold_weak_ind (fun r (pts : points) => match r with
    | None => pts = ∅ | Some m => is_Some (pts !! m) /\ forall k, is_Some (pts !! k) -> k <= m end)); [done|].
  intros i h m r Hi IH. destruct r as [n|].
  - destruct IH as [Hn Hmax]. split.
    + destruct (Z.max_spec i n) as [[_ ->]|[_ ->]]; [|rewrite lookup_insert_eq; by eexists].
      destruct (decide (i = n)) as [->|]; [rewrite lookup_insert_eq; by eexists|by rewrite lookup_insert_ne].
    + intros k Hk. destruct (decide (i = k)) as [->|]; [lia|].
      rewrite lookup_insert_ne in Hk by done. specialize (Hmax k Hk). lia.
  - subst m. split; [rewrite lookup_insert_eq; by eexists|]. intros k Hk.
    destruct (decide (i = k)) as [->|]; [lia|]. rewrite lookup_insert_ne in Hk by done.
    destruct Hk as [x Hx]. by rewrite lookup_empty in Hx.
Qed.

Lemma split_at_app delim l rest : Forall (fun ch => ch <> delim) l ->
  split_at delim (l ++ delim :: rest) = (l, Some rest).
Proof.
  induction 1 as [|ch l Hc _ IH]; simpl; [by rewrite Z.eqb_refl|].
  rewrite (proj2 (Z.eqb_neq ch delim)) by done. by rewrite IH.
Qed.

Lemma digit_prefix_all s : Forall (fun ch => isdigit ch = true) s -> digit_prefix s = s.
Proof. induction 1 as [|ch s Hc _ IH]; simpl; [done|]. by rewrite Hc, IH. Qed.

Lemma stoull_to_string n : is_u64 n -> stoull (to_string n) = Ok n.
Proof.
  intros Hn. destruct (to_string_spec 20 n) as (V & D & Ne); [width_unfold; eval_pow2; simpl; lia|lia|].
  fold (to_string n) in V, D, Ne. unfold stoull. destruct (to_string n) as [|ch s] eqn:E; [done|].
  pose proof D as D'. apply Forall_cons in D' as [Hc _]. rewrite leftTrim_id by by apply digit_not_space.
  assert (Hsign : forall (X : Type) (a b c : X), match ch with 43 => a | 45 => b | _ => c end = c).
  { intros X a b c. unfold isdigit in Hc. apply andb_true_iff in Hc as [H1%Z.leb_le H2%Z.leb_le].
    assert (ch <> 43 /\ ch <> 45) as [??] by lia. repeat case_match; congruence. }
  replace (match ch with 43 => (false, s) | 45 => (true, s) | _ => (false, ch :: s) end) with (false, ch :: s)
    by (symmetry; apply (Hsign (bool * bytes)%type)).
  rewrite digit_prefix_all by done. rewrite bool_decide_eq_false_2 by done. okbind.
  rewrite V, (proj2 (Z.ltb_lt _ _)) by apply Hn. done.
Qed.

(** One line of a checkpoint file. *)
Definition line (p : Z * Hash) : bytes := to_string p.1 ++ char_comma :: toHex p.2 ++ [char_newline].

Lemma zone_ok pts i :
  isInCheckpointZone pts i = true <-> exists k, is_Some (pts !! k) /\ u32 i <= k.
Proof.
  unfold isInCheckpointZone. pose proof (last_index_spec pts) as H. destruct (last_index pts) as [m|].
  - destruct H as [Hm Hmax]. rewrite Z.leb_le. split; [by exists m|].
    intros (k & Hk & Hle). specialize (Hmax k Hk). lia.
  - subst pts. split; [done|]. intros (k & [x Hk] & _). by rewrite lookup_empty in Hk.
Qed.

(** What [addCheckpoint] does with the index it is given. *)
Lemma addCheckpoint_fresh pts i h : is_u32 i -> length h = 32%nat -> is_bytes h -> pts !! i = None ->
  addCheckpoint pts i (toHex h) = (true, <[i := h]> pts).
Proof.
  intros Hi L B Hn. unfold addCheckpoint. rewrite wrap_small by done. change 32 with (Z.of_nat 32). by rewrite <- L, podFromHex_toHex, Hn.
Qed.

Lemma toHex_chars d : is_bytes d -> Forall (fun ch => ch <> char_newline) (toHex d).
Proof.
  induction 1 as [|b d Hb _ IH]; simpl; [done|].
  assert (H := byte_forall (fun b => negb (hex_digit (Z.shiftr b 4) =? char_newline)
    && negb (hex_digit (Z.land b 15) =? char_newline)) eq_refl b Hb).
  apply andb_true_iff in H as [H1%negb_true_iff%Z.eqb_neq H2%negb_true_iff%Z.eqb_neq].
  by repeat constructor.
Qed.

Lemma to_string_chars n : is_u64 n -> to_string n <> [] /\ Forall (fun ch => ch <> char_comma) (to_string n).
Proof.
  intros Hn. destruct (to_string_spec 20 n) as (_ & D & Ne); [width_unfold; eval_pow2; simpl; lia|lia|].
  split; [done|]. eapply Forall_impl; [exact D|]. intros ch. unfold isdigit, char_comma.
  intros [H1%Z.leb_le _]%andb_true_iff. lia.
Qed.

Definition wf_point (p : Z * Hash) : Prop := is_u32 p.1 /\ length p.2 = 32%nat /\ is_bytes p.2.
#[global] Instance wf_point_dec p : Decision (wf_point p).
Proof. unfold wf_point. apply _. Defined.

(** One line of a well-formed file is one [addCheckpoint]. *)
Lemma load_line fuel pts p rest : wf_point p -> pts !! p.1 = None ->
  load_loop (S fuel) pts (line p ++ rest) = load_loop fuel (<[p.1 := p.2]> pts) rest.
Proof.
  destruct p as [i h]. intros (Hi & L & B) Hn. simpl in *. unfold line. simpl fst. simpl snd.
  assert (Hi64 : is_u64 i) by width_solve. destruct (to_string_chars i Hi64) as [Ne Hc].
  rewrite <- app_assoc. cbn [app]. rewrite <- app_assoc. cbn [app]. cbn [load_loop]. unfold getline.
  rewrite bool_decide_eq_false_2 by by intros [??]%app_eq_nil. rewrite split_at_app by done.
  rewrite bool_decide_eq_false_2 by by intros [??]%app_eq_nil. rewrite split_at_app by by apply toHex_chars.
  by rewrite stoull_to_string, addCheckpoint_fresh by done.
Qed.

Lemma load_lines l : forall fuel pts, (length l < fuel)%nat -> Forall wf_point l -> NoDup l.*1 ->
  (forall p, p ∈ l -> pts !! p.1 = None) ->
  load_loop fuel pts (concat (line <$> l)) = Ok (true, list_to_map l ∪ pts).
Proof.
  induction l as [|p l IH]; intros fuel pts F W N D; (destruct fuel as [|fuel]; [simpl in F; lia|]).
  - simpl. by rewrite map_empty_union.
  - apply Forall_cons in W as [Wp W]. apply NoDup_cons in N as [Np N]. cbn [fmap list_fmap concat].
    rewrite load_line by (done || by apply D, list_elem_of_here). rewrite IH; [|simpl in F; lia|done..|].
    + destruct p as [i h]. simpl. do 2 f_equal. rewrite <- insert_union_r.
      * by rewrite insert_union_l.
      * by apply not_elem_of_list_to_map_1.
    + intros q Hq. rewrite lookup_insert_ne; [by apply D, list_elem_of_further|].
      intros E. apply Np. rewrite E. by apply list_elem_of_fmap_2.
Qed.

Lemma length_lines l : (length l <= length (concat (line <$> l)))%nat.
Proof.
  induction l as [|p l IH]; [simpl; lia|]. cbn [fmap list_fmap concat]. rewrite length_app. unfold line at 1.
  rewrite length_app. simpl. rewrite length_app. simpl. unfold fmap in *. lia.
Qed.

(** ** Properties *)

(** a block index is in the checkpoint zone exactly when some checkpoint is at
    or after it, and inside the zone [checkBlock] rejects a block exactly when its
    index has a checkpoint with another hash. *)
Theorem checkpoint_zone pts i h : is_u32 i ->
  (isInCheckpointZone pts i = true <-> exists k, is_Some (pts !! k) /\ i <= k)
  /\ ((checkBlock pts i h).1 = false <-> exists h', pts !! i = Some h' /\ h' <> h)
  /\ ((checkBlock pts i h).2 = true -> isInCheckpointZone pts i = true).
Proof.
  intros Hi. unfold checkBlock. rewrite zone_ok, wrap_small by done. destruct (pts !! i) as [h'|] eqn:E; simpl.
  - split_and!; [done| |by exists i]. rewrite bool_decide_eq_false. naive_solver.
  - split_and!; [done|naive_solver|done].
Qed.

Lemma checkpoint_zone_witness :
  isInCheckpointZone (<[7 := NULL_HASH]> ∅) 5 = true /\ (checkBlock (<[7 := NULL_HASH]> ∅) 5 [1]).1 = true.
Proof.
  assert (H5 : is_u32 5) by by_compute. split; [|reflexivity].
  apply (proj1 (checkpoint_zone (<[7 := NULL_HASH]> ∅) 5 NULL_HASH H5)).
  exists 7. split; [by_compute|lia].
Defined.

(** a file of well-formed lines with distinct indexes, none of which has a
    checkpoint yet, is loaded completely: the call succeeds, and the map gains
    exactly the points of the file. *)
Theorem checkpoints_file_roundtrip pts l :
  Forall wf_point l -> NoDup l.*1 -> (forall p, p ∈ l -> pts !! p.1 = None) ->
  loadCheckpointsFromFile pts (Some (concat (line <$> l))) = Ok (true, list_to_map l ∪ pts).
Proof.
  intros W N D. apply load_lines; try done. pose proof (length_lines l). lia.
Qed.

Lemma checkpoints_file_roundtrip_witness :
  loadCheckpointsFromFile ∅ (Some (concat (line <$> [(0, replicate 32 0xab); (5000, NULL_HASH)])))
  = Ok (true, list_to_map [(0, replicate 32 0xab); (5000, NULL_HASH)] ∪ ∅).
Proof.
  apply (checkpoints_file_roundtrip ∅); [by_compute|by_compute|]. intros p _. apply lookup_empty.
Defined.

(** an index that does not fit 32 bits is accepted and reduced: a line for index
    [i] with [i >= 2^32] adds a checkpoint at [i mod 2^32]. *)
Theorem checkpoint_index_truncated i h : is_u64 i -> 2 ^ 32 <= i -> length h = 32%nat -> is_bytes h ->
  loadCheckpointsFromFile ∅ (Some (line (i, h))) = Ok (true, <[i mod 2 ^ 32 := h]> ∅).
Proof.
  intros Hi _ L B. unfold loadCheckpointsFromFile. destruct (to_string_chars i Hi) as [Ne Hc].
  unfold line. simpl fst. simpl snd. set (fuel := length _). cbn [load_loop]. unfold getline.
  rewrite bool_decide_eq_false_2 by by intros [??]%app_eq_nil. rewrite split_at_app by done.
  rewrite bool_decide_eq_false_2 by by intros [??]%app_eq_nil. rewrite split_at_app by by apply toHex_chars.
  rewrite stoull_to_string by done. unfold addCheckpoint. change 32 with (Z.of_nat 32) at 1.
  rewrite <- L, podFromHex_toHex by done. rewrite lookup_empty. cbn [negb].
  assert (Hf : (0 < fuel)%nat) by (unfold fuel; rewrite length_app; simpl; lia).
  clearbody fuel. destruct fuel as [|fuel]; [lia|]. done.
Qed.

Lemma checkpoint_index_truncated_witness :
  loadCheckpointsFromFile ∅ (Some (line (2 ^ 32 + 7, NULL_HASH))) = Ok (true, <[(2 ^ 32 + 7) mod 2 ^ 32 := NULL_HASH]> ∅).
Proof. apply checkpoint_index_truncated; [by_compute|lia|done|by_compute]. Defined.
