(* ===== verification/ThreadPool.v ===== *)
(** * ThreadPool: [utilities/ThreadPool.h] and the fan-out of input validation

    [ThreadPool] runs queued jobs on [threadCount] workers, first in first out.
    [ValidateTransaction::validateTransactionInputsExpensive] pushes a job per
    input, then collects the futures in order; a failed future raises a shared
    cancel flag, and a job that sees the flag returns [false] without looking at
    its input.  The atomic actions of the main thread and of the workers are the
    constructors of [step]; a schedule is any interleaving of them. *)

From Stdlib Require Import ZArith Lia.
From stdpp Require Import base tactics list numbers relations.
From S2P Require Import Prelude.

(** What becomes of a job: not yet added, in [m_queue], taken by a worker that has
    not read the flag yet, past the flag, or its promise is set. *)
Inductive jobstate := NotAdded | Queued | Taken | Running | Done (result : bool).

#[global] Instance jobstate_eq_dec : EqDecision jobstate.
Proof. solve_decision. Defined.

Definition is_active (j : jobstate) : bool := match j with Taken | Running => true | _ => false end.

Section pool.
Context {E : Type} (threadCount : nat).
(** The verdict of the [i]-th job when it is not cancelled: [None] to accept, or
    the error it reports. *)
Context (verdict : nat -> option E).

Record pool := {
  jobs : list jobstate;
  cancelValidation : bool;
  errorCode : option E;
  collected : nat;
  valid : bool }.

Definition set_job (i : nat) (j : jobstate) (p : pool) : pool :=
  {| jobs := <[i := j]> (jobs p); cancelValidation := cancelValidation p; errorCode := errorCode p;
     collected := collected p; valid := valid p |}.

Definition set_error (e : E) (p : pool) : pool :=
  {| jobs := jobs p; cancelValidation := cancelValidation p; errorCode := Some e;
     collected := collected p; valid := valid p |}.

(** [if (!result.get()) { valid = false; cancelValidation = true; }] *)
Definition collect (b : bool) (p : pool) : pool :=
  {| jobs := jobs p; cancelValidation := if b then cancelValidation p else true; errorCode := errorCode p;
     collected := S (collected p); valid := if b then valid p else false |}.

(** A worker that has evaluated its job: the error, under the mutex, then the promise. *)
Definition finish (i : nat) (p : pool) : pool :=
  match verdict i with
  | None => set_job i (Done true) p
  | Some e => set_job i (Done false) (set_error e p)
  end.

Definition idle_worker (p : pool) : Prop := (length (filter is_active (jobs p)) < threadCount)%nat.
(** The main thread collects only after it has added every job. *)
Definition all_added (p : pool) : Prop := NotAdded ∉ jobs p.

Inductive step : pool -> pool -> Prop :=
| step_add p i : list_find (eq NotAdded) (jobs p) = Some (i, NotAdded) -> step p (set_job i Queued p)
| step_take p i : idle_worker p -> list_find (eq Queued) (jobs p) = Some (i, Queued) -> step p (set_job i Taken p)
| step_cancelled p i : jobs p !! i = Some Taken -> cancelValidation p = true -> step p (set_job i (Done false) p)
| step_run p i : jobs p !! i = Some Taken -> cancelValidation p = false -> step p (set_job i Running p)
| step_finish p i : jobs p !! i = Some Running -> step p (finish i p)
| step_collect p b : all_added p -> jobs p !! collected p = Some (Done b) -> step p (collect b p).

Definition init (n : nat) (e : option E) : pool :=
  {| jobs := replicate n NotAdded; cancelValidation := false; errorCode := e; collected := 0; valid := true |}.

Definition final (p : pool) : Prop := collected p = length (jobs p).

(** ** The executable counterpart: a schedule is a list of actions; an action
    that is not enabled does nothing. *)

Inductive action := ActAdd | ActTake | ActCheck (i : nat) | ActFinish (i : nat) | ActCollect.

#[global] Instance idle_worker_dec p : Decision (idle_worker p).
Proof. unfold idle_worker. apply _. Defined.
#[global] Instance all_added_dec p : Decision (all_added p).
Proof. unfold all_added. apply _. Defined.

Definition act (p : pool) (a : action) : pool :=
  match a with
  | ActAdd => match list_find (eq NotAdded) (jobs p) with Some (i, _) => set_job i Queued p | None => p end
  | ActTake =>
      if decide (idle_worker p) then
        match list_find (eq Queued) (jobs p) with Some (i, _) => set_job i Taken p | None => p end
      else p
  | ActCheck i =>
      if decide (jobs p !! i = Some Taken) then
        if cancelValidation p then set_job i (Done false) p else set_job i Running p
      else p
  | ActFinish i => if decide (jobs p !! i = Some Running) then finish i p else p
  | ActCollect =>
      if decide (all_added p) then
        match jobs p !! collected p with Some (Done b) => collect b p | _ => p end
      else p
  end.

Definition run (sched : list action) (p : pool) : pool := foldl act p sched.

Lemma act_step p a : act p a = p \/ step p (act p a).
Proof.
  destruct a as [| |i|i|]; simpl.
  - destruct (list_find _ _) as [[i x]|] eqn:E1; [|by left]. right. apply step_add.
    pose proof E1 as (_ & <- & _)%list_find_Some. done.
  - case_decide; [|by left]. destruct (list_find _ _) as [[i x]|] eqn:E1; [|by left]. right.
    apply step_take; [done|]. pose proof E1 as (_ & <- & _)%list_find_Some. done.
  - case_decide; [|by left]. right. destruct (cancelValidation p) eqn:?; by constructor.
  - case_decide; [|by left]. right. by constructor.
  - case_decide; [|by left]. destruct (_ !! _) as [[| | | |b]|] eqn:?; try by left. right. by constructor.
Qed.

Lemma run_reachable sched : forall p, rtc step p (run sched p).
Proof.
  induction sched as [|a sched IH]; intros p; [apply rtc_refl|]. simpl.
  destruct (act_step p a) as [E1 | Hs]; [rewrite E1; apply IH|eapply rtc_l; [exact Hs|apply IH]].
Qed.

(** ** The invariant *)

Definition rejects (e : E) (n : nat) : Prop := exists i, (i < n)%nat /\ verdict i = Some e.

(** Once a job has failed, the recorded error is a verdict on one of the inputs. *)
Definition failed (p : pool) : Prop :=
  exists e, errorCode p = Some e /\ rejects e (length (jobs p)).

Record pool_inv (p : pool) : Prop := {
  inv_true : forall i, jobs p !! i = Some (Done true) -> verdict i = None;
  inv_false : forall i, jobs p !! i = Some (Done false) -> failed p;
  inv_cancel : cancelValidation p = negb (valid p);
  inv_invalid : valid p = false -> failed p;
  inv_valid : valid p = true -> forall i, (i < collected p)%nat -> jobs p !! i = Some (Done true);
  inv_collected : (collected p <= length (jobs p))%nat }.

Lemma init_inv n e : pool_inv (init n e).
Proof.
  split; simpl; try done; try lia.
  - intros i H. by apply lookup_replicate in H as [? _].
  - intros i H. by apply lookup_replicate in H as [? _].
Qed.

(** A job that was not [Done] changes state; nothing else does. *)
Lemma set_job_inv p i j x : jobs p !! i = Some x -> (forall b, x <> Done b) ->
  match j with Done true => verdict i = None | Done false => failed p | _ => True end ->
  pool_inv p -> pool_inv (set_job i j p).
Proof.
  intros Hi Hx Hj [I1 I2 I3 I4 I5 I6]. split; simpl; rewrite ?length_insert; try done.
  - intros k. rewrite list_lookup_insert_Some. intros [(-> & -> & _)|[_ H]]; [done|auto].
  - intros k H. assert (failed p) as (e & He & Hr).
    { revert H. rewrite list_lookup_insert_Some. intros [(-> & -> & _)|[_ H]]; [done|eauto]. }
    exists e. simpl. by rewrite length_insert.
  - intros Hv. destruct (I4 Hv) as (e & He & Hr). exists e. simpl. by rewrite length_insert.
  - intros Hv k Hk. rewrite list_lookup_insert_ne; [auto|]. intros ->.
    rewrite (I5 Hv k Hk) in Hi. injection Hi as <-. by apply (Hx true).
Qed.

Lemma set_error_inv p e : rejects e (length (jobs p)) -> pool_inv p -> pool_inv (set_error e p).
Proof.
  intros Hr [I1 I2 I3 I4 I5 I6]. assert (failed (set_error e p)) by by exists e.
  by split.
Qed.

Lemma step_inv p p' : step p p' -> pool_inv p -> pool_inv p'.
Proof.
  intros Hs Hp. destruct Hs as [p i (H & _ & _)%list_find_Some|p i _ (H & _ & _)%list_find_Some|p i H Hc|p i H _|p i H|p b _ H].
  - by eapply set_job_inv.
  - by eapply set_job_inv.
  - eapply set_job_inv; try done. apply (inv_invalid p Hp). rewrite (inv_cancel p Hp) in Hc. by destruct (valid p).
  - by eapply set_job_inv.
  - unfold finish. pose proof (lookup_lt_Some _ _ _ H) as Hl. destruct (verdict i) as [e|] eqn:V.
    + assert (rejects e (length (jobs p))) by by exists i.
      eapply set_job_inv; [exact H|done|by exists e|by apply set_error_inv].
    + by eapply set_job_inv.
  - pose proof (lookup_lt_Some _ _ _ H) as Hl. destruct Hp as [I1 I2 I3 I4 I5 I6].
    destruct b; split; simpl; try done.
    + intros Hv k Hk. destruct (decide (k = collected p)) as [->|]; [done|]. apply I5; [done|lia].
    + intros _. by apply (I2 (collected p)).
Qed.

Lemma rtc_inv p p' : rtc step p p' -> pool_inv p -> pool_inv p'.
Proof. induction 1; eauto using step_inv. Qed.

Lemma step_length p p' : step p p' -> length (jobs p') = length (jobs p).
Proof. destruct 1; simpl; rewrite ?length_insert; try done. unfold finish. destruct (verdict i); simpl; by rewrite length_insert. Qed.

Lemma rtc_length p p' : rtc step p p' -> length (jobs p') = length (jobs p).
Proof. induction 1 as [|p1 p2 p3 Hs _ IH]; [done|]. rewrite IH. by apply step_length. Qed.

(** The flag the main thread returns, and the error left behind when it is [false]. *)
Lemma final_verdict n e p : rtc step (init n e) p -> final p ->
  (valid p = true <-> forall i, (i < n)%nat -> verdict i = None)
  /\ (valid p = false -> exists e, errorCode p = Some e /\ rejects e n).
Proof.
  intros Hr Hf. pose proof (rtc_inv _ _ Hr (init_inv n e)) as Hp.
  assert (L : length (jobs p) = n) by (rewrite (rtc_length _ _ Hr); simpl; apply length_replicate).
  assert (Hfail : valid p = false -> exists e, errorCode p = Some e /\ rejects e n).
  { intros Hv. rewrite <- L. by apply (inv_invalid p Hp). }
  split; [|done]. split.
  - intros Hv i Hi. apply (inv_true p Hp), (inv_valid p Hp); [done|]. rewrite Hf. lia.
  - intros Hall. destruct (valid p) eqn:Hv; [done|]. destruct (Hfail eq_refl) as (e' & _ & i & Hi & V).
    by rewrite Hall in V.
Qed.

(** When every job accepts, no error is recorded. *)
Lemma step_error p p' : step p p' -> errorCode p' = errorCode p \/ exists i, (i < length (jobs p))%nat /\ verdict i <> None.
Proof.
  destruct 1; try by left. unfold finish. destruct (verdict i) eqn:V; [|by left]. right. exists i.
  split; [by eapply lookup_lt_Some|by rewrite V].
Qed.

Lemma final_no_error n e p : rtc step (init n e) p -> (forall i, (i < n)%nat -> verdict i = None) -> errorCode p = e.
Proof.
  intros Hr Hall. cut (forall p0 p', rtc step p0 p' -> length (jobs p0) = n -> errorCode p' = errorCode p0).
  { intros H. by rewrite (H _ _ Hr (length_replicate _ _)). }
  induction 1 as [|p1 p2 p3 Hs Hr' IH]; [done|]. intros L.
  rewrite IH by (rewrite (step_length _ _ Hs); done).
  destruct (step_error _ _ Hs) as [?|(i & Hi & V)]; [done|]. by rewrite Hall in V by lia.
Qed.

(** ** Progress and termination *)

Definition weight (j : jobstate) : nat :=
  match j with NotAdded => 4 | Queued => 3 | Taken => 2 | Running => 1 | Done _ => 0 end.
(** How many steps are left at most. *)
Definition steps_left (p : pool) : nat := sum_list_with weight (jobs p) + (length (jobs p) - collected p).

Lemma weight_insert l i x j : l !! i = Some x -> (weight j < weight x)%nat ->
  (sum_list_with weight (<[i := j]> l) < sum_list_with weight l)%nat.
Proof.
  revert i. induction l as [|y l IH]; intros [|i] H Hw; simplify_eq/=; [lia|].
  specialize (IH i H Hw). lia.
Qed.

Lemma sum_weight_replicate n : sum_list_with weight (replicate n NotAdded) = (4 * n)%nat.
Proof. induction n as [|n IH]; [done|]. cbn [replicate sum_list_with]. rewrite IH. cbn [weight]. lia. Qed.

Lemma set_job_steps p i x j : jobs p !! i = Some x -> (weight j < weight x)%nat ->
  (steps_left (set_job i j p) < steps_left p)%nat.
Proof.
  intros H Hw. unfold steps_left, set_job. simpl. rewrite length_insert.
  pose proof (weight_insert (jobs p) i x j H Hw). lia.
Qed.

Lemma step_steps p p' : step p p' -> (steps_left p' < steps_left p)%nat.
Proof.
  destruct 1 as [p i (H & _ & _)%list_find_Some|p i _ (H & _ & _)%list_find_Some|p i H _|p i H _|p i H|p b _ H].
  1-4: eapply set_job_steps; [exact H|simpl; lia].
  - unfold finish. destruct (verdict i); [|eapply set_job_steps; [exact H|simpl; lia]].
    change (steps_left p) with (steps_left (set_error e p)). eapply set_job_steps; [exact H|simpl; lia].
  - apply lookup_lt_Some in H. unfold steps_left. simpl. lia.
Qed.

Lemma active_step p i j : jobs p !! i = Some j -> is_active j = true -> exists p', step p p'.
Proof.
  intros Hi Ha. destruct j; try done.
  - destruct (cancelValidation p) eqn:Hc; eexists; [by eapply step_cancelled|by eapply step_run].
  - eexists. by eapply step_finish.
Qed.

Lemma find_step (x : jobstate) l : x ∈ l -> exists i, list_find (eq x) l = Some (i, x).
Proof.
  intros Hx. destruct (list_find_elem_of (eq x) l x Hx eq_refl) as [[i y] E1]. exists i.
  pose proof E1 as (_ & <- & _)%list_find_Some. done.
Qed.

Lemma progress p : (0 < threadCount)%nat -> (collected p <= length (jobs p))%nat -> ~ final p -> exists p', step p p'.
Proof.
  intros Ht Hc Hf. destruct (decide (NotAdded ∈ jobs p)) as [Ha|Ha].
  { destruct (find_step _ _ Ha) as [i Hi]. eexists. by eapply step_add. }
  destruct (lookup_lt_is_Some_2 (jobs p) (collected p)) as [j Hj]; [unfold final in Hf; lia|].
  destruct j as [| | | |b]; [|destruct (decide (idle_worker p)) as [Hi|Hi]|..].
  - exfalso. apply Ha. by eapply list_elem_of_lookup_2.
  - destruct (find_step Queued (jobs p)) as [i Hq]; [by eapply list_elem_of_lookup_2|]. eexists. by eapply step_take.
  - unfold idle_worker in Hi. destruct (filter is_active (jobs p)) as [|j l] eqn:F; [simpl in Hi; lia|].
    assert (j ∈ filter is_active (jobs p)) as [Hj1 Hj2]%list_elem_of_filter by (rewrite F; constructor).
    apply list_elem_of_lookup_1 in Hj2 as [i Hj2]. eapply active_step; [exact Hj2|by apply Is_true_true].
  - by eapply active_step.
  - by eapply active_step.
  - eexists. by eapply step_collect.
Qed.

(** Every step is an action, so a schedule that finishes can be given. *)
Lemma step_act p p' : step p p' -> exists a, act p a = p'.
Proof.
  destruct 1 as [p i H|p i Hi H|p i H Hc|p i H Hc|p i H|p b Ha H].
  - exists ActAdd. simpl. by rewrite H.
  - exists ActTake. simpl. rewrite decide_True by done. by rewrite H.
  - exists (ActCheck i). simpl. rewrite decide_True by done. by rewrite Hc.
  - exists (ActCheck i). simpl. rewrite decide_True by done. by rewrite Hc.
  - exists (ActFinish i). simpl. by rewrite decide_True.
  - exists ActCollect. simpl. rewrite decide_True by done. by rewrite H.
Qed.

Lemma schedule_exists p : (0 < threadCount)%nat -> pool_inv p -> exists sched, final (run sched p).
Proof.
  intros Ht. induction p as [p IH] using (induction_ltof1 _ steps_left). intros Hp.
  destruct (decide (collected p = length (jobs p))) as [Hf|Hf]; [by exists []|].
  destruct (progress p Ht (inv_collected p Hp) Hf) as [p' Hs].
  destruct (IH p') as [sched Hsc]; [by apply step_steps|by eapply step_inv|].
  destruct (step_act p p' Hs) as [a Ha]. exists (a :: sched). simpl. by rewrite Ha.
Qed.

(** Any schedule can be continued to one that finishes. *)
Lemma schedule_extends sched p : (0 < threadCount)%nat -> pool_inv p -> exists sched', final (run (sched ++ sched') p).
Proof.
  intros Ht Hp. destruct (schedule_exists (run sched p) Ht) as [sched' H]; [by eapply rtc_inv; [apply run_reachable|]|].
  exists sched'. unfold run. by rewrite foldl_app.
Qed.

End pool.

(** ** Properties *)

(** C36: however the main thread and the workers interleave, when the main thread
    has collected every future the flag it returns is [true] exactly when every
    job accepts its input, and if it is [false] the error left behind is the
    verdict on an input that is really rejected. *)
Theorem pool_verdict {E} (threadCount : nat) (verdict : nat -> option E) n e p :
  rtc (step threadCount verdict) (init n e) p -> final p ->
  (valid p = true <-> forall i, (i < n)%nat -> verdict i = None)
  /\ (valid p = false -> exists e, errorCode p = Some e /\ rejects verdict e n).
Proof. apply final_verdict. Qed.

(** with at least one worker the validation finishes: a reachable state that is
    not final has a step, every step lowers the bound [steps_left], so no execution
    is longer than five steps a job and none gets stuck. *)
Theorem pool_finishes {E} (threadCount : nat) (verdict : nat -> option E) n e p :
  (0 < threadCount)%nat -> rtc (step threadCount verdict) (init n e) p ->
  (final p \/ exists p', step threadCount verdict p p')
  /\ (forall p', step threadCount verdict p p' -> (steps_left p' < steps_left p)%nat)
  /\ steps_left (init (E := E) n e) = (5 * n)%nat.
Proof.
  intros Ht Hr. pose proof (rtc_inv _ _ _ _ Hr (init_inv _ n e)) as Hp. split_and!.
  - destruct (decide (collected p = length (jobs p))); [by left|right].
    apply progress; [done|apply (inv_collected _ _ Hp)|done].
  - apply step_steps.
  - unfold steps_left, init. cbn [jobs collected]. rewrite length_replicate, sum_weight_replicate. lia.
Qed.

(** Two inputs, the second rejected with error 7, on one worker. *)
Definition sample_verdict (i : nat) : option nat := if decide (i = 1%nat) then Some 7%nat else None.
Definition sample_schedule : list action :=
  [ActAdd; ActTake; ActAdd; ActCheck 0; ActFinish 0; ActTake; ActCollect; ActCheck 1; ActFinish 1; ActCollect].

Lemma pool_verdict_witness :
  valid (run 1 sample_verdict sample_schedule (init 2 None)) = false
  /\ exists e, errorCode (run 1 sample_verdict sample_schedule (init 2 None)) = Some e /\ rejects sample_verdict e 2.
Proof.
  split; [reflexivity|].
  apply (pool_verdict 1 sample_verdict 2 None); [apply run_reachable|reflexivity|reflexivity].
Defined.

Lemma pool_finishes_witness :
  final (run 1 sample_verdict sample_schedule (init 2 None))
  \/ exists p', step 1 sample_verdict (run 1 sample_verdict sample_schedule (init 2 None)) p'.
Proof. apply (pool_finishes 1 sample_verdict 2 None); [lia|apply run_reachable]. Defined.
