(* ===== verification/Validate.v ===== *)
(** * Validate: [cryptonotecore/ValidateTransaction.cpp]

    Also [CachedTransaction], [TransactionValidatiorState] and [Mixins].  A
    [ValidateTransaction] object is the record of its constant members; what its
    member functions change (the result, the two sums, the set of spent key images
    it shares with its caller) is the state they pass along.  The text of an error
    message is not kept. *)

From Stdlib Require Import ZArith Lia.
From stdpp Require Import base tactics list numbers strings sorting gmap fin_sets relations.
From S2P Require Import Prelude Config Difficulty Types Serializer TxSerialization BlockSerialization FormatUtils Currency Checkpoints ThreadPool.

Local Open Scope Z_scope.

(** ** [CachedTransaction]: the other mutable members memoise functions of these two. *)

Record CachedTransaction := {
  getTransaction : Transaction;
  transactionBinaryArray : option bytes }.
#[global] Instance CachedTransaction_eq_dec : EqDecision CachedTransaction.
Proof. solve_decision. Defined.

Definition CachedTransaction_of (tx : Transaction) : CachedTransaction :=
  {| getTransaction := tx; transactionBinaryArray := None |}.

Definition CachedTransaction_of_blob (blob : bytes) : outcome CachedTransaction :=
  r ← fromBinaryArray_opt serialize_Transaction new_Transaction blob;
  match r with
  | None => Throw "CachedTransaction::CachedTransaction(BinaryArray&&), deserealization error."
  | Some tx => Ok {| getTransaction := tx; transactionBinaryArray := Some blob |}
  end.

Definition getTransactionBinaryArray (c : CachedTransaction) : outcome bytes :=
  match transactionBinaryArray c with
  | Some b => Ok b
  | None => toBinaryArray serialize_Transaction (getTransaction c)
  end.

Definition getTransactionHash (cn_fast_hash : bytes -> Hash) (c : CachedTransaction) : outcome Hash :=
  b ← getTransactionBinaryArray c; Ok (getBinaryArrayHash cn_fast_hash b).

Definition getTransactionPrefixHash (cn_fast_hash : bytes -> Hash) (c : CachedTransaction) : outcome Hash :=
  '(_, h) ← getObjectHash cn_fast_hash serialize_TransactionPrefix (tx_prefix (getTransaction c)); Ok h.

(** ** [TransactionValidatorState] *)

Abbreviation TransactionValidatorState := (gset KeyImage).

Definition mergeStates (destination source : TransactionValidatorState) : TransactionValidatorState :=
  destination ∪ source.

Definition hasIntersections (destination source : TransactionValidatorState) : bool :=
  existsb (fun ki => bool_decide (ki ∈ destination)) (elements source).

Fixpoint exclude_loop (state : TransactionValidatorState) (l : list TransactionInput) : outcome TransactionValidatorState :=
  match l with
  | [] => Ok state
  | InKey i :: l =>
      _ ← assert (bool_decide (keyImage i ∈ state)) "assert(state.spentKeyImages.count(in.keyImage) > 0)";
      exclude_loop (state ∖ {[keyImage i]}) l
  | InBase _ :: _ => Undefined "assert(false)"
  end.
Definition excludeFromState (state : TransactionValidatorState) (c : CachedTransaction) : outcome TransactionValidatorState :=
  exclude_loop state (inputs (tx_prefix (getTransaction c))).

(** ** [Mixins] *)

(** The largest ring, at least 1: one less does not wrap. *)
Definition ring_size (tx : Transaction) : Z :=
  foldl (fun ringSize i =>
    match i with
    | InKey k => let currentRingSize := Z.of_nat (length (outputIndexes k)) in
                 if ringSize <? currentRingSize then currentRingSize else ringSize
    | InBase _ => ringSize
    end) 1 (inputs (tx_prefix tx)).

Definition Mixins_validate_tx (tx : Transaction) (minMixin maxMixin : Z) : bool :=
  let mixin := ring_size tx - 1 in
  if maxMixin <? mixin then false else if mixin <? minMixin then false else true.

Definition Mixins_validate (transactions : list Transaction) (height : Z) : bool :=
  let '(minMixin, maxMixin, _) := getMixinAllowableRange height in
  forallb (fun tx => Mixins_validate_tx tx minMixin maxMixin) transactions.

(** ** The result *)

Inductive TransactionValidationError :=
| VALIDATION_SUCCESS | EMPTY_INPUTS | INPUT_UNKNOWN_TYPE | INPUT_EMPTY_OUTPUT_USAGE
| INPUT_INVALID_DOMAIN_KEYIMAGES | INPUT_IDENTICAL_KEYIMAGES | INPUT_IDENTICAL_OUTPUT_INDEXES
| INPUT_KEYIMAGE_ALREADY_SPENT | INPUT_INVALID_GLOBAL_INDEX | INPUT_SPEND_LOCKED_OUT
| INPUT_INVALID_SIGNATURES | INPUT_WRONG_SIGNATURES_COUNT | INPUTS_AMOUNT_OVERFLOW | INPUT_WRONG_COUNT
| INPUT_UNEXPECTED_TYPE | BASE_INPUT_WRONG_BLOCK_INDEX | OUTPUT_ZERO_AMOUNT | OUTPUT_INVALID_KEY
| OUTPUT_INVALID_REQUIRED_SIGNATURES_COUNT | OUTPUT_UNKNOWN_TYPE | OUTPUTS_AMOUNT_OVERFLOW | WRONG_AMOUNT
| WRONG_TRANSACTION_UNLOCK_TIME | INVALID_MIXIN | EXTRA_TOO_LARGE | BASE_INVALID_SIGNATURES_COUNT
| INPUT_INVALID_SIGNATURES_COUNT | OUTPUT_AMOUNT_TOO_LARGE | EXCESSIVE_OUTPUTS | WRONG_FEE | SIZE_TOO_LARGE
| POW_INVALID.

(** [r_errorCode] is [None] until it is first assigned. *)
Record TransactionValidationResult := {
  r_errorCode : option TransactionValidationError;
  r_valid : bool;
  r_fee : Z;
  r_isFusionTransaction : bool }.

#[global] Instance TransactionValidationError_eq_dec : EqDecision TransactionValidationError.
Proof. solve_decision. Defined.
#[global] Instance TransactionValidationResult_eq_dec : EqDecision TransactionValidationResult.
Proof. solve_decision. Defined.

Record vstate := {
  m_validationResult : TransactionValidationResult;
  m_sumOfInputs : Z;
  m_sumOfOutputs : Z;
  spentKeyImages : TransactionValidatorState }.

(** A newly constructed object, on its caller's state. *)
Definition new_vstate (state : TransactionValidatorState) : vstate :=
  {| m_validationResult := {| r_errorCode := None; r_valid := false; r_fee := 0; r_isFusionTransaction := false |};
     m_sumOfInputs := 0; m_sumOfOutputs := 0; spentKeyImages := state |}.

Definition upd_result (f : TransactionValidationResult -> TransactionValidationResult) (s : vstate) : vstate :=
  {| m_validationResult := f (m_validationResult s); m_sumOfInputs := m_sumOfInputs s;
     m_sumOfOutputs := m_sumOfOutputs s; spentKeyImages := spentKeyImages s |}.
Definition setTransactionValidationResult (e : TransactionValidationError) : vstate -> vstate :=
  upd_result (fun r => {| r_errorCode := Some e; r_valid := r_valid r; r_fee := r_fee r;
                          r_isFusionTransaction := r_isFusionTransaction r |}).
Definition set_valid : vstate -> vstate :=
  upd_result (fun r => {| r_errorCode := r_errorCode r; r_valid := true; r_fee := r_fee r;
                          r_isFusionTransaction := r_isFusionTransaction r |}).
Definition set_fee (fee : Z) : vstate -> vstate :=
  upd_result (fun r => {| r_errorCode := r_errorCode r; r_valid := r_valid r; r_fee := fee;
                          r_isFusionTransaction := r_isFusionTransaction r |}).
Definition set_sumOfInputs (x : Z) (s : vstate) : vstate :=
  {| m_validationResult := m_validationResult s; m_sumOfInputs := x; m_sumOfOutputs := m_sumOfOutputs s;
     spentKeyImages := spentKeyImages s |}.
Definition set_sumOfOutputs (x : Z) (s : vstate) : vstate :=
  {| m_validationResult := m_validationResult s; m_sumOfInputs := m_sumOfInputs s; m_sumOfOutputs := x;
     spentKeyImages := spentKeyImages s |}.
Definition spend (ki : KeyImage) (s : vstate) : vstate :=
  {| m_validationResult := m_validationResult s; m_sumOfInputs := m_sumOfInputs s;
     m_sumOfOutputs := m_sumOfOutputs s; spentKeyImages := {[ki]} ∪ spentKeyImages s |}.

Abbreviation check := (vstate -> outcome (bool * vstate)).
Definition fail_with (e : TransactionValidationError) (s : vstate) : bool * vstate :=
  (false, setTransactionValidationResult e s).

(** The calls of [IBlockchainCache] the validator makes. *)
Inductive ExtractOutputKeysResult := SUCCESS | INVALID_GLOBAL_INDEX | OUTPUT_LOCKED.
Class IBlockchainCache := {
  checkIfSpent : KeyImage -> Z -> outcome bool;
  extractKeyOutputKeys : Z -> Z -> list Z -> outcome (ExtractOutputKeysResult * list PublicKey) }.

(** What the validator relies on: a query at [blockIndex] is answered when the
    indexes are some, strictly ascending 32-bit numbers. *)
Definition ring_indexes (l : list Z) : Prop := l <> [] /\ StronglySorted Z.lt l /\ Forall (in_width 32) l.
Class CacheAnswers `{!IBlockchainCache} (blockIndex : Z) : Prop := {
  spent_answers : forall keyImage, exists b, checkIfSpent keyImage blockIndex = Ok b;
  extract_answers : forall amount l, ring_indexes l -> exists r, extractKeyOutputKeys amount blockIndex l = Ok r }.

(** Nobody catches what a job throws: the process terminates. *)
Definition in_worker {A} (o : outcome A) : outcome A :=
  match o with Throw e => Undefined ("std::terminate: " ++ e)%string | o => o end.

(** The constant members. *)
Record ValidateTransaction := {
  m_cachedTransaction : CachedTransaction;
  m_currency : Currency;
  m_checkpoints : points;
  m_blockHeight : Z;
  m_blockSizeMedian : Z;
  m_isPoolTransaction : bool }.
Definition m_transaction (v : ValidateTransaction) : Transaction := getTransaction (m_cachedTransaction v).

Section validator.
Context (scalarmultKey : KeyImage -> KeyImage -> KeyImage) (check_key : PublicKey -> bool).
Context (cn_fast_hash cn_turtle_lite_slow_hash_v2 : bytes -> Hash).
Context (checkRingSignature : Hash -> KeyImage -> list PublicKey -> list Signature -> bool).
Context `{cache : !IBlockchainCache} (threadCount : nat).
Context (v : ValidateTransaction).

(** ** The checks *)

Definition key_I : KeyImage := 1 :: replicate 31 0.
Definition key_L : KeyImage :=
  [0xed; 0xd3; 0xf5; 0x5c; 0x1a; 0x63; 0x12; 0x58; 0xd6; 0x9c; 0xf7;
   0xa2; 0xde; 0xf9; 0xde; 0x14; 0x00; 0x00; 0x00; 0x00; 0x00; 0x00;
   0x00; 0x00; 0x00; 0x00; 0x00; 0x00; 0x00; 0x00; 0x00; 0x10].

Definition validateTransactionSize : check := fun s =>
  let maxTransactionSize := u64 (m_blockSizeMedian v * 2 - m_minerTxBlobReservedSize (m_currency v)) in
  b ← getTransactionBinaryArray (m_cachedTransaction v);
  Ok (if maxTransactionSize <? Z.of_nat (length b) then fail_with SIZE_TOO_LARGE s else (true, s)).

Fixpoint inputs_loop (l : list TransactionInput) (ki : gset KeyImage) (sumOfInputs : Z) (s : vstate) : bool * vstate :=
  match l with
  | [] => (true, set_sumOfInputs sumOfInputs s)
  | InBase _ :: _ => fail_with INPUT_UNKNOWN_TYPE s
  | InKey i :: l =>
      if bool_decide (keyImage i ∈ ki) then fail_with INPUT_IDENTICAL_KEYIMAGES s
      else
        let ki := {[keyImage i]} ∪ ki in
        if bool_decide (outputIndexes i = []) then fail_with INPUT_EMPTY_OUTPUT_USAGE s
        else if negb (bool_decide (scalarmultKey (keyImage i) key_L = key_I))
        then fail_with INPUT_INVALID_DOMAIN_KEYIMAGES s
        else if bool_decide (0 ∈ tail (outputIndexes i)) then fail_with INPUT_IDENTICAL_OUTPUT_INDEXES s
        else if bool_decide (keyImage i ∈ spentKeyImages s) then fail_with INPUT_KEYIMAGE_ALREADY_SPENT s
        else
          let s := spend (keyImage i) s in
          if u64 (MAX_U64 - ki_amount i) <? sumOfInputs then fail_with INPUTS_AMOUNT_OVERFLOW s
          else inputs_loop l ki (u64 (sumOfInputs + ki_amount i)) s
  end.
Definition validateTransactionInputs : check := fun s =>
  let ins := inputs (tx_prefix (m_transaction v)) in
  Ok (if bool_decide (length ins = 0%nat) then fail_with EMPTY_INPUTS s else inputs_loop ins ∅ 0 s).

Fixpoint outputs_loop (l : list TransactionOutput) (sumOfOutputs : Z) (s : vstate) : bool * vstate :=
  match l with
  | [] => (true, set_sumOfOutputs sumOfOutputs s)
  | o :: l =>
      if out_amount o =? 0 then fail_with OUTPUT_ZERO_AMOUNT s
      else
        match target o with
        | TargetKey k =>
            if negb (check_key (ko_key k)) then fail_with OUTPUT_INVALID_KEY s
            else if u64 (MAX_U64 - out_amount o) <? sumOfOutputs then fail_with OUTPUTS_AMOUNT_OVERFLOW s
            else outputs_loop l (u64 (sumOfOutputs + out_amount o)) s
        end
  end.
Definition validateTransactionOutputs : check := fun s =>
  Ok (outputs_loop (outputs (tx_prefix (m_transaction v))) 0 s).

Definition validateTransactionFee : check := fun s =>
  if m_sumOfInputs s =? 0 then Throw "Error! You must call validateTransactionInputs() and validateTransactionOutputs() before calling validateTransactionFee()!"
  else if m_sumOfInputs s <? m_sumOfOutputs s then Ok (fail_with WRONG_AMOUNT s)
  else
    let fee := u64 (m_sumOfInputs s - m_sumOfOutputs s) in
    b ← getTransactionBinaryArray (m_cachedTransaction v);
    isFusion ← isFusionTransaction (m_currency v) (m_transaction v) (Z.of_nat (length b)) (m_blockHeight v);
    Ok (if (isFusion : bool) then
          let validFee := if (FUSION_FEE_V1_HEIGHT <=? m_blockHeight v) && (m_blockHeight v <? FUSION_FEE_V1_EXIT_HEIGHT)
                          then FUSION_FEE_V1 <=? fee else true in
          if negb validFee then fail_with WRONG_FEE s else (true, set_fee fee s)
        else if (fee =? 0) || (fee <? getMinimumFee (m_blockHeight v)) then fail_with WRONG_FEE s
        else (true, set_fee fee s)).

Definition validateTransactionExtra : check := fun s =>
  let heightToEnforceV2 := MAX_EXTRA_SIZE_V2_HEIGHT + CRYPTONOTE_MINED_MONEY_UNLOCK_WINDOW in
  let heightToEnforceV3 := MAX_EXTRA_SIZE_V3_HEIGHT + CRYPTONOTE_MINED_MONEY_UNLOCK_WINDOW in
  let size := Z.of_nat (length (extra (tx_prefix (m_transaction v)))) in
  let tooBigExtra :=
    if m_isPoolTransaction v || (heightToEnforceV3 <=? m_blockHeight v) then MAX_EXTRA_SIZE_V3 <=? size
    else (heightToEnforceV2 <=? m_blockHeight v) && (MAX_EXTRA_SIZE_V2 <=? size) in
  Ok (if tooBigExtra then fail_with EXTRA_TOO_LARGE s else (true, s)).

(** The second, shadowing call has the arguments of the first. *)
Definition validateTransactionMixin : check := fun s =>
  Ok (if negb (Mixins_validate [m_transaction v] (m_blockHeight v)) then
        if m_isPoolTransaction v then fail_with INVALID_MIXIN s
        else if negb (Mixins_validate [m_transaction v] (m_blockHeight v)) then fail_with INVALID_MIXIN s
        else (true, s)
      else (true, s)).

Definition validateTransactionPoW : check := fun s =>
  if m_blockHeight v <? TRANSACTION_POW_HEIGHT then Ok (true, s)
  else
    data ← toBinaryArray serialize_TransactionPrefix (tx_prefix (m_transaction v));
    Ok (if check_hash (cn_turtle_lite_slow_hash_v2 data) TRANSACTION_POW_DIFFICULTY then (true, s)
        else fail_with POW_INVALID s).

(** The body of the job of the input with index [inputIndex], once past the cancel
    flag: [None] when it returns [true], or the error it records before it returns
    [false].  A worker does not catch what a job throws. *)
Definition input_job (prefixHash : Hash) (inputIndex : nat) (input : TransactionInput) : outcome (option TransactionValidationError) :=
  match input with
  | InBase _ => Undefined "boost::bad_get in a worker: std::terminate"
  | InKey i =>
      spent ← in_worker (checkIfSpent (keyImage i) (u32 (m_blockHeight v)));
      if spent : bool then Ok (Some INPUT_KEYIMAGE_ALREADY_SPENT)
      else
        _ ← assert (negb (bool_decide (outputIndexes i = []))) "globalIndexes[0] of an empty vector";
        let globalIndexes := relativeOutputOffsetsToAbsolute (outputIndexes i) in
        '(result, outputKeys) ← in_worker (extractKeyOutputKeys (ki_amount i) (u32 (m_blockHeight v)) globalIndexes);
        match result with
        | INVALID_GLOBAL_INDEX => Ok (Some INPUT_INVALID_GLOBAL_INDEX)
        | OUTPUT_LOCKED => Ok (Some INPUT_SPEND_LOCKED_OUT)
        | SUCCESS =>
            sigs ← from_option "signatures[inputIndex]" (signatures (m_transaction v) !! inputIndex);
            if (m_isPoolTransaction v || (TRANSACTION_SIGNATURE_COUNT_VALIDATION_HEIGHT <=? m_blockHeight v))
               && negb (Nat.eqb (length outputKeys) (length sigs))
            then Ok (Some INPUT_INVALID_SIGNATURES_COUNT)
            else if negb (checkRingSignature prefixHash (keyImage i) outputKeys sigs)
            then Ok (Some INPUT_INVALID_SIGNATURES)
            else Ok None
        end
  end.

(** The verdicts, in the order of the inputs. *)
Fixpoint job_verdicts (prefixHash : Hash) (inputIndex : nat) (l : list TransactionInput) : outcome (list (option TransactionValidationError)) :=
  match l with
  | [] => Ok []
  | i :: l =>
      r ← input_job prefixHash inputIndex i;
      rs ← job_verdicts prefixHash (S inputIndex) l;
      Ok (r :: rs)
  end.

Definition verdict_at (rs : list (option TransactionValidationError)) (i : nat) : option TransactionValidationError :=
  match rs !! i with Some r => r | None => None end.

Definition set_error_code (e : option TransactionValidationError) : vstate -> vstate :=
  upd_result (fun r => {| r_errorCode := e; r_valid := r_valid r; r_fee := r_fee r;
                          r_isFusionTransaction := r_isFusionTransaction r |}).

(** The pool runs by a schedule given from outside; one that stops before every
    future is collected stands for no execution of the call. *)
Definition validateTransactionInputsExpensive (sched : list action) : check := fun s =>
  if isInCheckpointZone (m_checkpoints v) (u64 (m_blockHeight v + 1)) then Ok (true, s)
  else
    prefixHash ← getTransactionPrefixHash cn_fast_hash (m_cachedTransaction v);
    rs ← job_verdicts prefixHash 0 (inputs (tx_prefix (m_transaction v)));
    let p := run threadCount (verdict_at rs) sched (init (length rs) (r_errorCode (m_validationResult s))) in
    if decide (collected p = length (jobs p)) then Ok (valid p, set_error_code (errorCode p) s)
    else Undefined "the schedule does not finish".

(** ** The two entry points *)

(** [if (!check()) return m_validationResult;] for each check in turn. *)
Fixpoint checks (l : list check) : check := fun s =>
  match l with
  | [] => Ok (true, s)
  | c :: l => '(b, s) ← c s; if (b : bool) then checks l s else Ok (false, s)
  end.

Definition conclude (r : bool * vstate) : TransactionValidationResult * TransactionValidatorState :=
  let s := if r.1 then setTransactionValidationResult VALIDATION_SUCCESS (set_valid r.2) else r.2 in
  (m_validationResult s, spentKeyImages s).

Definition cheap_checks : list check :=
  [validateTransactionSize; validateTransactionInputs; validateTransactionOutputs; validateTransactionFee;
   validateTransactionExtra; validateTransactionMixin; validateTransactionPoW].

(** The result, and the caller's state afterwards. *)
Definition validate (sched : list action) (state : TransactionValidatorState)
    : outcome (TransactionValidationResult * TransactionValidatorState) :=
  r ← checks (cheap_checks ++ [validateTransactionInputsExpensive sched]) (new_vstate state);
  Ok (conclude r).

Definition pow_window : check := fun s =>
  if (TRANSACTION_POW_HEIGHT <=? m_blockHeight v) && (m_blockHeight v <=? TRANSACTION_POW_HEIGHT + 100)
  then validateTransactionPoW s else Ok (true, s).

Definition revalidateAfterHeightChange (state : TransactionValidatorState)
    : outcome (TransactionValidationResult * TransactionValidatorState) :=
  r ← checks [validateTransactionSize; validateTransactionExtra; validateTransactionMixin; validateTransactionInputs;
              validateTransactionOutputs; validateTransactionFee; pow_window] (new_vstate state);
  Ok (conclude r).

(** ** What is accepted, stated without the code *)

Abbreviation tx := (tx_prefix (m_transaction v)).
Definition in_total : Z := sumZ (input_amount <$> inputs tx).
Definition out_total : Z := sumZ (out_amount <$> outputs tx).
Definition image (i : TransactionInput) : option KeyImage := match i with InKey i => Some (keyImage i) | InBase _ => None end.
Definition images : list KeyImage := omap image (inputs tx).

Definition size_ok : Prop := exists blob, getTransactionBinaryArray (m_cachedTransaction v) = Ok blob /\
  Z.of_nat (length blob) <= u64 (m_blockSizeMedian v * 2 - m_minerTxBlobReservedSize (m_currency v)).

Definition input_sane (spent : gset KeyImage) (i : KeyInput) : Prop :=
  outputIndexes i <> [] /\ (0 ∉ tail (outputIndexes i)) /\ scalarmultKey (keyImage i) key_L = key_I /\ keyImage i ∉ spent.
Definition inputs_ok (spent : gset KeyImage) : Prop := exists ins, inputs tx = InKey <$> ins /\ ins <> [] /\
  NoDup (keyImage <$> ins) /\ Forall (input_sane spent) ins /\ in_total < 2 ^ 64.

Definition output_key (o : TransactionOutput) : PublicKey := match target o with TargetKey k => ko_key k end.
Definition outputs_ok : Prop :=
  Forall (fun o => out_amount o <> 0 /\ check_key (output_key o) = true) (outputs tx) /\ out_total < 2 ^ 64.

Definition is_fusion (blob : bytes) : bool :=
  isFusionTransaction_amounts (m_currency v) (getInputsAmounts (m_transaction v)) (out_amount <$> outputs tx)
    (Z.of_nat (length blob)) (m_blockHeight v).
Definition fee_ok (fee : Z) : Prop := 0 <= fee /\
  exists blob, getTransactionBinaryArray (m_cachedTransaction v) = Ok blob /\
  if is_fusion blob
  then FUSION_FEE_V1_HEIGHT <= m_blockHeight v < FUSION_FEE_V1_EXIT_HEIGHT -> FUSION_FEE_V1 <= fee
  else getMinimumFee (m_blockHeight v) <= fee.

Definition extra_ok : Prop :=
  let size := Z.of_nat (length (extra tx)) in
  (m_isPoolTransaction v = true \/ MAX_EXTRA_SIZE_V3_HEIGHT + 120 <= m_blockHeight v -> size < MAX_EXTRA_SIZE_V3)
  /\ (MAX_EXTRA_SIZE_V2_HEIGHT + 120 <= m_blockHeight v -> size < MAX_EXTRA_SIZE_V2).

Definition mixin_ok : Prop :=
  let '(minMixin, maxMixin, _) := getMixinAllowableRange (m_blockHeight v) in
  minMixin <= ring_size (m_transaction v) - 1 <= maxMixin.

Definition pow_ok : Prop := TRANSACTION_POW_HEIGHT <= m_blockHeight v ->
  exists data, toBinaryArray serialize_TransactionPrefix tx = Ok data /\
  check_hash (cn_turtle_lite_slow_hash_v2 data) TRANSACTION_POW_DIFFICULTY = true.

(** Outside the checkpoint zone the job of every input accepts. *)
Definition rings_ok : Prop :=
  isInCheckpointZone (m_checkpoints v) (u64 (m_blockHeight v + 1)) = false ->
  exists prefixHash, getTransactionPrefixHash cn_fast_hash (m_cachedTransaction v) = Ok prefixHash /\
  forall k i, inputs tx !! k = Some i -> input_job prefixHash k i = Ok None.

Record cheap_ok (state : TransactionValidatorState) : Prop := {
  acc_size : size_ok;
  acc_inputs : inputs_ok state;
  acc_outputs : outputs_ok;
  acc_fee : fee_ok (in_total - out_total);
  acc_extra : extra_ok;
  acc_mixin : mixin_ok }.

Definition accepts (state : TransactionValidatorState) : Prop := cheap_ok state /\ pow_ok /\ rings_ok.

(** ** Each check decides its condition *)

Definition r_valid_of (s : vstate) : bool := r_valid (m_validationResult s).

Definition sums_fit (s : vstate) : Prop := is_u64 (m_sumOfInputs s) /\ is_u64 (m_sumOfOutputs s).

(** An error other than success is recorded. *)
Definition is_error (s : vstate) : Prop :=
  exists e, r_errorCode (m_validationResult s) = Some e /\ e <> VALIDATION_SUCCESS.

(** When the check returns, it returns [true] exactly if [P] holds, and then its
    effect is [post]; otherwise it has recorded an error.  It does not touch the
    verdict. *)
Definition decided (b : bool) (Q : Prop) (s s' t : vstate) : Prop :=
  r_valid_of s' = r_valid_of s /\ ((b = true /\ Q /\ s' = t /\ sums_fit t) \/ (b = false /\ ~ Q /\ is_error s')).
Definition meets (c : check) (P : vstate -> Prop) (post : vstate -> vstate) : Prop :=
  forall s b s', sums_fit s -> c s = Ok (b, s') -> decided b (P s) s s' (post s).

#[local] Instance decided_Proper b : Proper (iff ==> eq ==> eq ==> eq ==> iff) (decided b).
Proof. intros P Q H s _ <- s' _ <- t _ <-. unfold decided. by rewrite H. Qed.

Lemma meets_nil : meets (checks []) (fun _ => True) id.
Proof. intros s b s' F [= <- <-]. split; [done|by left]. Qed.

Lemma meets_cons c l P Q f g : meets c P f -> meets (checks l) Q g ->
  meets (checks (c :: l)) (fun s => P s /\ Q (f s)) (fun s => g (f s)).
Proof.
  intros Hc Hl s b s' F H. simpl in H. inv_ok. destruct v0 as [b1 s1].
  destruct (Hc s b1 s1 F Hok) as [E [(-> & HP & -> & F')|(-> & HP & He)]].
  - destruct (Hl _ _ _ F' H) as [E' [(-> & HQ & -> & F'')|(-> & HQ)]]; (split; [by rewrite E'|]); [by left|right].
    naive_solver.
  - injection H as <- <-. split; [done|right]. naive_solver.
Qed.

Lemma decided_fail Q e s0 s s' b t : e <> VALIDATION_SUCCESS -> r_valid_of s0 = r_valid_of s -> ~ Q ->
  fail_with e s0 = (b, s') -> decided b Q s s' t.
Proof. intros He V HQ [= <- <-]. split; [done|]. right. split_and!; [done|done|by exists e]. Qed.

(** A check that is one test. *)
Lemma decided_guard (g : bool) (Q : Prop) e s t b s' : e <> VALIDATION_SUCCESS ->
  (g = false <-> Q) -> r_valid_of t = r_valid_of s -> sums_fit t ->
  (if g then fail_with e s else (true, t)) = (b, s') -> decided b Q s s' t.
Proof.
  intros He Hg V F H. destruct g.
  - apply (decided_fail Q e s); [done|done| |done]. intros HQ%Hg. done.
  - injection H as <- <-. split; [done|left]. split_and!; [done|by apply Hg|done|done].
Qed.

(** Close the branch of a check that fails for the reason [tac] proves. *)
Ltac check_fails H tac := eapply decided_fail in H; [exact H|done|done|tac].
Ltac check_guards H := eapply decided_guard in H; [exact H|done| |done|done].

Lemma size_meets : meets validateTransactionSize (fun _ => size_ok) id.
Proof.
  intros s b s' F H. unfold validateTransactionSize in H. inv_ok.
  check_guards H. rewrite Z.ltb_ge. unfold size_ok.
  split; [by eauto|]. intros (blob & E & ?). congruence.
Qed.

Lemma extra_meets : meets validateTransactionExtra (fun _ => extra_ok) id.
Proof.
  intros s b s' F H. unfold validateTransactionExtra in H. injection H as H.
  check_guards H. unfold extra_ok.
  change (MAX_EXTRA_SIZE_V3_HEIGHT + CRYPTONOTE_MINED_MONEY_UNLOCK_WINDOW) with (MAX_EXTRA_SIZE_V3_HEIGHT + 120).
  change (MAX_EXTRA_SIZE_V2_HEIGHT + CRYPTONOTE_MINED_MONEY_UNLOCK_WINDOW) with (MAX_EXTRA_SIZE_V2_HEIGHT + 120).
  set (size := Z.of_nat _). unfold MAX_EXTRA_SIZE_V3, MAX_EXTRA_SIZE_V2, MAX_EXTRA_SIZE_V3_HEIGHT, MAX_EXTRA_SIZE_V2_HEIGHT.
  destruct (m_isPoolTransaction v), (Z.leb_spec (1470000 + 120) (m_blockHeight v)),
    (Z.leb_spec (700000 + 120) (m_blockHeight v)), (Z.leb_spec 512 size), (Z.leb_spec 1024 size); cbn [orb andb];
    split; intros; try done; try lia; (split; intros; try lia; naive_solver lia) || (exfalso; naive_solver lia).
Qed.

Lemma mixin_meets : meets validateTransactionMixin (fun _ => mixin_ok) id.
Proof.
  intros s b s' F H. unfold validateTransactionMixin in H. injection H as H.
  assert (H' : (if negb (Mixins_validate [m_transaction v] (m_blockHeight v)) then fail_with INVALID_MIXIN s
    else (true, s)) = (b, s')) by (rewrite <- H; by destruct (negb _), (m_isPoolTransaction v)).
  clear H. rename H' into H.
  check_guards H. unfold Mixins_validate, mixin_ok.
  destruct (getMixinAllowableRange (m_blockHeight v)) as [[mn mx] d]. simpl. unfold Mixins_validate_tx.
  rewrite andb_true_r, negb_false_iff. destruct (Z.ltb_spec mx (ring_size (m_transaction v) - 1)); [split; [done|lia]|].
  destruct (Z.ltb_spec (ring_size (m_transaction v) - 1) mn); split; try done; lia.
Qed.

Lemma pow_meets : meets validateTransactionPoW (fun _ => pow_ok) id.
Proof.
  intros s b s' F H. unfold validateTransactionPoW in H. unfold pow_ok.
  destruct (Z.ltb_spec (m_blockHeight v) TRANSACTION_POW_HEIGHT).
  - injection H as <- <-. split; [done|left]. split_and!; [done|lia|done|done].
  - apply bind_ok in H as (data & Hd & H). remember (check_hash (cn_turtle_lite_slow_hash_v2 data) TRANSACTION_POW_DIFFICULTY) as c eqn:C.
    destruct c; injection H as <- <-; (split; [done|]).
    + left. split_and!; [done|by eauto|done|done].
    + right. split_and!; [done| |by exists POW_INVALID]. intros P. destruct (P ltac:(lia)) as (data' & E & C').
      rewrite Hd in E. injection E as <-. rewrite <- C in C'. done.
Qed.

(** *** The inputs *)

(** What the loop still requires, from a set of images seen so far, the spent
    images and the running sum. *)
Definition loop_ok (l : list TransactionInput) (ki spent : gset KeyImage) (sum : Z) : Prop :=
  exists ins, l = InKey <$> ins /\ NoDup (keyImage <$> ins) /\ Forall (fun i => keyImage i ∉ ki) ins
  /\ Forall (input_sane spent) ins /\ sum + sumZ (input_amount <$> l) < 2 ^ 64.

Lemma loop_ok_cons i l ki spent sum : Forall (in_width 64) (input_amount <$> l) ->
  loop_ok (InKey i :: l) ki spent sum <->
  (keyImage i ∉ ki) /\ input_sane spent i /\ sum + ki_amount i < 2 ^ 64
  /\ loop_ok l ({[keyImage i]} ∪ ki) ({[keyImage i]} ∪ spent) (sum + ki_amount i).
Proof.
  intros W%sum_u64_nonneg. unfold loop_ok. split.
  - intros ([|i' ins] & E & N & K & S & B); [done|]. injection E as <- E. rewrite fmap_cons in N.
    apply NoDup_cons in N as [Ni N]. apply Forall_cons in K as [Ki K]. apply Forall_cons in S as [Si S].
    rewrite fmap_cons, sumZ_cons in B. simpl input_amount in B.
    assert (D : Forall (fun j => keyImage j <> keyImage i) ins).
    { apply Forall_forall. intros j Hj Eq. apply Ni. rewrite <- Eq. by apply list_elem_of_fmap_2. }
    split_and!; [done|done|lia|]. exists ins. split_and!; [done|done| | |lia].
    + apply Forall_forall. rewrite Forall_forall in K, D. intros j Hj. specialize (K j Hj). specialize (D j Hj). set_solver.
    + apply Forall_forall. rewrite Forall_forall in S, D. intros j Hj. specialize (D j Hj).
      destruct (S j Hj) as (?&?&?&?). unfold input_sane. set_solver.
  - intros (Ki & Si & B0 & ins & -> & N & K & S & B). exists (i :: ins). rewrite !fmap_cons, sumZ_cons. simpl input_amount.
    split_and!; [done| | | |lia].
    + apply NoDup_cons. split; [|done]. intros (j & E & Hj)%list_elem_of_fmap.
      rewrite Forall_forall in K. specialize (K j Hj). set_solver.
    + apply Forall_cons. split; [done|]. eapply Forall_impl; [exact K|]. set_solver.
    + apply Forall_cons. split; [done|]. eapply Forall_impl; [exact S|]. intros j (?&?&?&?). unfold input_sane. set_solver.
Qed.

Definition spend_all (l : list KeyImage) (s : vstate) : vstate :=
  {| m_validationResult := m_validationResult s; m_sumOfInputs := m_sumOfInputs s;
     m_sumOfOutputs := m_sumOfOutputs s; spentKeyImages := list_to_set l ∪ spentKeyImages s |}.

Lemma spend_all_cons k l s : spend_all (k :: l) s = spend_all l (spend k s).
Proof. unfold spend_all, spend. simpl. f_equal. set_solver. Qed.
Lemma spend_all_nil s : spend_all [] s = s.
Proof. destruct s. unfold spend_all. simpl. f_equal. set_solver. Qed.

Lemma inputs_loop_ok l : forall ki sum s b s', Forall (in_width 64) (input_amount <$> l) -> is_u64 sum -> sums_fit s ->
  inputs_loop l ki sum s = (b, s') ->
  decided b (loop_ok l ki (spentKeyImages s) sum) s s'
    (set_sumOfInputs (sum + sumZ (input_amount <$> l)) (spend_all (omap image l) s)).
Proof.
  induction l as [|[i|i] l IH]; intros ki sum s b s' W Hs F H; simpl in H.
  - injection H as <- <-. split; [done|left]. rewrite spend_all_nil, Z.add_0_r.
    split_and!; [done| |done|by split; [|apply F]]. exists []. rewrite Z.add_0_r. split_and!; try constructor; apply Hs.
  - check_fails H ltac:(intros ([|] & E & _); done).
  - rewrite fmap_cons in W. apply Forall_cons in W as [Wi W]. simpl in Wi.
    pose proof (loop_ok_cons i l ki (spentKeyImages s) sum W) as HQ. unfold input_sane in HQ.
    rewrite wrap_small in H by width_solve.
    repeat case_bool_decide; cbn [negb] in H; try (check_fails H ltac:(rewrite HQ; naive_solver)).
    destruct (Z.ltb_spec (MAX_U64 - ki_amount i) sum).
    { check_fails H ltac:(rewrite HQ; unfold MAX_U64 in *; lia). }
    rewrite wrap_small in H by width_solve. apply IH in H; [|done|width_solve|done].
    destruct H as [V D]. split; [done|]. rewrite fmap_cons, sumZ_cons, Z.add_assoc. cbn [omap list_omap image input_amount].
    rewrite spend_all_cons. destruct D as [(-> & D & -> & D')|(-> & D & De)]; [left|right].
    + split_and!; [done| |done|done]. apply HQ. split_and!; try done. width_solve.
    + split_and!; [done| |done]. rewrite HQ. naive_solver.
Qed.

Lemma inputs_meets : wf_amounts tx ->
  meets validateTransactionInputs (fun s => inputs_ok (spentKeyImages s))
    (fun s => set_sumOfInputs in_total (spend_all images s)).
Proof.
  intros [W _] s b s' F H. unfold validateTransactionInputs in H. injection H as H. unfold inputs_ok.
  case_bool_decide as E.
  - apply nil_length_inv in E. check_fails H ltac:(rewrite E; intros ([|] & Hn & Hne & _); done).
  - apply inputs_loop_ok in H; [|done|width_solve|done]. destruct H as [V D]. split; [done|].
    destruct D as [(-> & (ins & D1 & D2 & D3 & D4 & D5) & -> & D)|(-> & D & De)]; [left|right].
    + split_and!; [done| |done|done]. exists ins. split_and!; try done. intros ->. by rewrite D1 in E.
    + split_and!; [done| |done]. intros (ins & E1 & E2 & E3 & E4 & E5). apply D. exists ins. split_and!; try done.
      apply Forall_forall. set_solver.
Qed.

(** *** The outputs, the fee and the rings *)

Lemma outputs_loop_ok l : forall sum s b s', Forall (in_width 64) (out_amount <$> l) -> is_u64 sum -> sums_fit s ->
  outputs_loop l sum s = (b, s') ->
  decided b (Forall (fun o => out_amount o <> 0 /\ check_key (output_key o) = true) l /\ sum + sumZ (out_amount <$> l) < 2 ^ 64)
    s s' (set_sumOfOutputs (sum + sumZ (out_amount <$> l)) s).
Proof.
  induction l as [|o l IH]; intros sum s b s' W Hs F H; simpl in H.
  - injection H as <- <-. split; [done|left]. rewrite Z.add_0_r.
    split_and!; [done|constructor|apply Hs|done|by split; [apply F|]].
  - rewrite fmap_cons in W. apply Forall_cons in W as [Wo W]. pose proof (sum_u64_nonneg _ W) as Hn.
    rewrite fmap_cons, sumZ_cons, Forall_cons. unfold output_key in *. destruct (target o) as [k].
    rewrite wrap_small in H by width_solve.
    destruct (Z.eqb_spec (out_amount o) 0); [check_fails H ltac:(naive_solver)|].
    destruct (check_key (ko_key k)) eqn:K; cbn [negb] in H; [|check_fails H ltac:(naive_solver)].
    destruct (Z.ltb_spec (MAX_U64 - out_amount o) sum).
    { check_fails H ltac:(unfold MAX_U64 in *; intros [_ ?]; lia). }
    rewrite wrap_small in H by width_solve. apply IH in H; [|done|width_solve|done].
    rewrite Z.add_assoc. destruct H as [V D]. split; [done|]. naive_solver.
Qed.

Lemma outputs_meets : wf_amounts tx ->
  meets validateTransactionOutputs (fun _ => outputs_ok) (set_sumOfOutputs out_total).
Proof.
  intros [_ W] s b s' F H. injection H as H. apply outputs_loop_ok in H; [done|done|width_solve|done].
Qed.

Lemma isFusion_inv c t size height b : isFusionTransaction c t size height = Ok b ->
  b = isFusionTransaction_amounts c (getInputsAmounts t) (out_amount <$> outputs (tx_prefix t)) size height.
Proof. unfold isFusionTransaction. intros H. by inv_ok. Qed.

Lemma minimum_fee_pos h : 0 < getMinimumFee h.
Proof. unfold getMinimumFee. by repeat case_match. Qed.

Lemma fee_meets : meets validateTransactionFee (fun s => fee_ok (m_sumOfInputs s - m_sumOfOutputs s))
    (fun s => set_fee (m_sumOfInputs s - m_sumOfOutputs s) s).
Proof.
  intros s b s' F H. unfold validateTransactionFee in H. destruct (m_sumOfInputs s =? 0); [done|].
  destruct (Z.ltb_spec (m_sumOfInputs s) (m_sumOfOutputs s)).
  { apply Ok_inj in H. check_fails H ltac:(intros [? _]; lia). }
  destruct F as [F1 F2]. rewrite wrap_small in H by width_solve. set (fee := _ - _) in *.
  apply bind_ok in H as (blob & Hb & H). apply bind_ok in H as (f & Hf & H). apply Ok_inj in H.
  apply isFusion_inv in Hf. fold (is_fusion blob) in Hf.
  assert (Q : fee_ok fee <-> if f then FUSION_FEE_V1_HEIGHT <= m_blockHeight v < FUSION_FEE_V1_EXIT_HEIGHT -> FUSION_FEE_V1 <= fee
    else getMinimumFee (m_blockHeight v) <= fee).
  { unfold fee_ok. split.
    - intros (_ & blob' & Hb' & Q). rewrite Hb in Hb'. injection Hb' as <-. by rewrite Hf.
    - intros Q. split; [unfold fee; lia|]. exists blob. by rewrite <- Hf. }
  pose proof (minimum_fee_pos (m_blockHeight v)). destruct f.
  - eapply (decided_guard _ _ _ _ (set_fee fee s)) in H; [exact H|done| |done|done]. rewrite Q, negb_false_iff.
    destruct (Z.leb_spec FUSION_FEE_V1_HEIGHT (m_blockHeight v)), (Z.ltb_spec (m_blockHeight v) FUSION_FEE_V1_EXIT_HEIGHT);
      cbn [andb]; rewrite ?Z.leb_le; split; intros; try done; lia.
  - eapply (decided_guard _ _ _ _ (set_fee fee s)) in H; [exact H|done| |done|done]. rewrite Q.
    rewrite orb_false_iff, Z.eqb_neq, Z.ltb_ge. lia.
Qed.

Lemma job_verdicts_inv h l : forall k rs, job_verdicts h k l = Ok rs ->
  length rs = length l /\ forall j i, l !! j = Some i -> exists r, rs !! j = Some r /\ input_job h (k + j) i = Ok r.
Proof.
  induction l as [|i l IH]; intros k rs H; simpl in H; inv_ok; subst; [done|].
  destruct (IH _ _ Hok0) as [L IH']. split; [simpl; by rewrite L|]. intros [|j] i' Hi; simpl in Hi.
  - injection Hi as <-. exists v0. by rewrite Nat.add_0_r.
  - destruct (IH' j i' Hi) as (r & Hr & Hj). exists r. by rewrite <- Nat.add_succ_comm.
Qed.

Lemma input_job_error h k i e : input_job h k i = Ok (Some e) -> e <> VALIDATION_SUCCESS.
Proof. unfold input_job. intros H. repeat (case_match || inv_ok); try done; congruence. Qed.

Lemma set_error_code_id s : set_error_code (r_errorCode (m_validationResult s)) s = s.
Proof. by destruct s as [[] ? ? ?]. Qed.

Lemma rings_meets sched : meets (validateTransactionInputsExpensive sched) (fun _ => rings_ok) id.
Proof.
  intros s b s' F H. unfold validateTransactionInputsExpensive in H. unfold rings_ok.
  destruct (isInCheckpointZone _ _) eqn:Zone.
  { injection H as <- <-. split; [done|by left]. }
  apply bind_ok in H as (h & Hh & H). apply bind_ok in H as (rs & Hrs & H).
  destruct (job_verdicts_inv _ _ _ _ Hrs) as [L J]. case_decide as Fin; [|done]. injection H as <- <-.
  set (e := r_errorCode (m_validationResult s)) in *. set (p := run _ _ _ _) in *.
  pose proof (run_reachable threadCount (verdict_at rs) sched (init (length rs) e)) as R. fold p in R.
  destruct (final_verdict _ _ _ _ _ R Fin) as [Hv He].
  assert (Q : (forall i, (i < length rs)%nat -> verdict_at rs i = None) <->
    forall k i, inputs tx !! k = Some i -> input_job h k i = Ok None).
  { split.
    - intros A k i Hi. destruct (J k i Hi) as (r & Hr & Hj). simpl in Hj. rewrite Hj. f_equal.
      specialize (A k (lookup_lt_Some _ _ _ Hr)). unfold verdict_at in A. by rewrite Hr in A.
    - intros A k Hk. rewrite L in Hk. destruct (lookup_lt_is_Some_2 _ _ Hk) as [i Hi].
      destruct (J k i Hi) as (r & Hr & Hj). simpl in Hj. rewrite (A k i Hi) in Hj. injection Hj as <-.
      unfold verdict_at. by rewrite Hr. }
  split; [done|]. destruct (ThreadPool.valid p) eqn:V.
  - left. apply proj1 in Hv. specialize (Hv eq_refl). split_and!; [done| | |done].
    + intros _. exists h. split; [done|]. by apply Q.
    + rewrite (final_no_error _ _ _ _ _ R Hv). apply set_error_code_id.
  - right. split_and!; [done| |].
    2:{ destruct (He eq_refl) as (e' & E1 & k & Hk & E2). exists e'. split; [done|].
        rewrite L in Hk. destruct (lookup_lt_is_Some_2 _ _ Hk) as [i Hi]. destruct (J k i Hi) as (r & Hr & Hj).
        unfold verdict_at in E2. rewrite Hr in E2. subst r. by eapply input_job_error. }
    intros A. destruct (A eq_refl) as (h' & Hh' & A'). rewrite Hh in Hh'. injection Hh' as <-.
    by specialize (proj2 Hv (proj2 Q A')).
Qed.

(** *** The entry points *)

Lemma new_fit state : sums_fit (new_vstate state).
Proof. split; simpl; width_solve. Qed.

Definition result_of (state : TransactionValidatorState) (Q : Prop) (r : TransactionValidationResult)
    (state' : TransactionValidatorState) : Prop :=
  (r_valid r = true /\ r_errorCode r = Some VALIDATION_SUCCESS /\ r_fee r = in_total - out_total
   /\ state' = list_to_set images ∪ state /\ Q)
  \/ (r_valid r = false /\ (exists e, r_errorCode r = Some e /\ e <> VALIDATION_SUCCESS) /\ ~ Q).

(** The whole run: the flag stays unset, and the result is that of the specification. *)
Lemma checks_run sched state b s : wf_amounts tx -> checks (cheap_checks ++ [validateTransactionInputsExpensive sched]) (new_vstate state) = Ok (b, s) ->
  r_valid_of s = false /\ ((b = true /\ accepts state /\ r_fee (m_validationResult s) = in_total - out_total /\ spentKeyImages s = list_to_set images ∪ state)
    \/ (b = false /\ ~ accepts state /\ is_error s)).
Proof.
  intros W H. assert (M := meets_cons _ _ _ _ _ _ size_meets (meets_cons _ _ _ _ _ _ (inputs_meets W)
    (meets_cons _ _ _ _ _ _ (outputs_meets W) (meets_cons _ _ _ _ _ _ fee_meets (meets_cons _ _ _ _ _ _ extra_meets
    (meets_cons _ _ _ _ _ _ mixin_meets (meets_cons _ _ _ _ _ _ pow_meets (meets_cons _ _ _ _ _ _ (rings_meets sched) meets_nil)))))))).
  destruct (M _ _ _ (new_fit state) H) as [V [(-> & (Q1 & Q2 & Q3 & Q4 & Q5 & Q6 & Q7 & Q8 & _) & -> & _)|(-> & Q & E)]]; (split; [exact V|]).
  - left. by split_and!.
  - right. split_and!; [done| |done]. intros ([] & ? & ?). by apply Q.
Qed.

Lemma validate_ok sched state r state' : wf_amounts tx -> validate sched state = Ok (r, state') ->
  result_of state (accepts state) r state'.
Proof.
  intros W H. unfold validate in H. apply bind_ok in H as ((b & s) & H & E). apply Ok_inj in E.
  destruct (checks_run sched state b s W H) as [V [(-> & A & F & S)|(-> & A & e & He & Hne)]]; injection E as <- <-.
  - left. by split_and!.
  - right. split_and!; [done|by exists e|done].
Qed.

Lemma revalidate_ok state r state' : wf_amounts tx -> revalidateAfterHeightChange state = Ok (r, state') ->
  result_of state (cheap_ok state /\
    (TRANSACTION_POW_HEIGHT <= m_blockHeight v <= TRANSACTION_POW_HEIGHT + 100 -> pow_ok)) r state'.
Proof.
  intros W H. unfold revalidateAfterHeightChange in H. apply bind_ok in H as ((b & s) & H & E). apply Ok_inj in E.
  assert (Hp : meets pow_window (fun _ => TRANSACTION_POW_HEIGHT <= m_blockHeight v <= TRANSACTION_POW_HEIGHT + 100 -> pow_ok) id).
  { intros s1 b1 s2 F1 H1. unfold pow_window in H1.
    destruct (Z.leb_spec TRANSACTION_POW_HEIGHT (m_blockHeight v)), (Z.leb_spec (m_blockHeight v) (TRANSACTION_POW_HEIGHT + 100));
      cbn [andb] in H1.
    2-4: (injection H1 as <- <-; split; [done|left]; split_and!; [done|lia|done|done]).
    destruct (pow_meets _ _ _ F1 H1) as [V D]. split; [done|]. naive_solver. }
  assert (M := meets_cons _ _ _ _ _ _ size_meets (meets_cons _ _ _ _ _ _ extra_meets (meets_cons _ _ _ _ _ _ mixin_meets
    (meets_cons _ _ _ _ _ _ (inputs_meets W) (meets_cons _ _ _ _ _ _ (outputs_meets W)
    (meets_cons _ _ _ _ _ _ fee_meets (meets_cons _ _ _ _ _ _ Hp meets_nil))))))).
  destruct (M _ _ _ (new_fit state) H) as [V [(-> & (Q1 & Q2 & Q3 & Q4 & Q5 & Q6 & Q7 & _) & -> & _)|(-> & Q & e & He & Hne)]]; injection E as <- <-.
  - left. by split_and!.
  - right. split_and!; [done|by exists e|]. intros ([] & ?). by apply Q.
Qed.

(** ** Every call returns *)

Definition leads (c : check) (P Q : vstate -> Prop) : Prop :=
  forall s, P s -> exists b s', c s = Ok (b, s') /\ (b = true -> Q s').

Lemma leads_nil P : leads (checks []) P P.
Proof. intros s Hs. by exists true, s. Qed.

Lemma leads_cons c l P Q R : leads c P Q -> leads (checks l) Q R -> leads (checks (c :: l)) P R.
Proof.
  intros Hc Hl s Hs. destruct (Hc s Hs) as (b & s' & E & HQ). destruct b; simpl; rewrite E; simpl.
  - by apply Hl, HQ.
  - by exists false, s'.
Qed.

Lemma checks_app l1 l2 s : checks (l1 ++ l2) s =
  ('(b, s) ← checks l1 s; if (b : bool) then checks l2 s else Ok (false, s)).
Proof.
  revert s. induction l1 as [|c l1 IH]; intros s; [done|]. simpl. destruct (c s) as [[[] s']| |]; simpl; [apply IH|done..].
Qed.

Lemma leads_total (f : vstate -> bool * vstate) P Q R g : (forall s, P s -> sums_fit s) ->
  meets (fun s => Ok (f s)) Q g -> (forall s, P s -> Q s -> R (g s)) -> leads (fun s => Ok (f s)) P R.
Proof.
  intros HF HM HR s Hs. destruct (f s) as [b s'] eqn:E. exists b, s'. split; [by f_equal|]. intros ->.
  specialize (HM s true s' (HF s Hs)). cbv beta in HM. rewrite E in HM.
  destruct (HM eq_refl) as [_ [(_ & HQ & -> & _)|[? _]]]; [by apply HR|done].
Qed.

(** A transaction whose bytes, if they are known, are its serialization. *)
Definition well_cached : Prop := valid_tx (m_transaction v) /\
  exists blob, getTransactionBinaryArray (m_cachedTransaction v) = Ok blob
            /\ toBinaryArray serialize_Transaction (m_transaction v) = Ok blob.

Definition after_inputs (s : vstate) : Prop := sums_fit s /\ m_sumOfInputs s = in_total
  /\ exists ins, inputs tx = InKey <$> ins /\ Forall (fun i => outputIndexes i <> [] /\ 0 ∉ tail (outputIndexes i)) ins.

Lemma valid_input : valid_tx (m_transaction v) -> forall j i, inputs tx !! j = Some i -> wf_input i.
Proof. intros [[(_ & _ & [Hi _] & _) _] _] j i. by apply Forall_lookup_1. Qed.

Lemma input_wf_amount i : wf_input i -> is_u64 (input_amount i).
Proof. destruct i as [i|i]; simpl; [|intros []; done]. intros _. width_solve. Qed.

Lemma valid_amounts : valid_tx (m_transaction v) -> wf_amounts tx.
Proof.
  intros [[(_ & _ & [Hi _] & [Ho _] & _) _] _]. split; apply Forall_fmap.
  - eapply Forall_impl; [exact Hi|]. apply input_wf_amount.
  - eapply Forall_impl; [exact Ho|]. intros o []. done.
Qed.

Lemma prefix_serializes : valid_tx (m_transaction v) -> exists data, toBinaryArray serialize_TransactionPrefix tx = Ok data.
Proof.
  intros [Hp _]. destruct (roundtrip (f := serialize_TransactionPrefix) _ Hp) as (out & _ & Hw & _). exists out.
  by apply toBinaryArray_writes.
Qed.

Lemma inputs_leads : wf_amounts tx -> leads validateTransactionInputs sums_fit after_inputs.
Proof.
  intros W. eapply leads_total; [done|by apply inputs_meets|]. intros s F (ins & E & _ & _ & H & B).
  pose proof (sum_u64_nonneg _ (proj1 W)). split_and!; [split; [|apply F]; split; [done|exact B]|done|]. exists ins. split; [done|].
  eapply Forall_impl; [exact H|]. by intros i (? & ? & _).
Qed.

Lemma outputs_leads : wf_amounts tx -> leads validateTransactionOutputs after_inputs after_inputs.
Proof.
  intros W. eapply leads_total; [by intros s []|by apply outputs_meets|]. intros s (F & E & H) (_ & B).
  pose proof (sum_u64_nonneg _ (proj2 W)). split_and!; [split; [apply F|]; split; [done|exact B]|done|done].
Qed.

Lemma size_leads P : well_cached -> leads validateTransactionSize P P.
Proof.
  intros (_ & blob & E & _) s Hs. unfold validateTransactionSize. rewrite E. okbind. case_match; simpl; eauto.
  eexists _, _. by split.
Qed.

Lemma fee_leads : well_cached -> 0 < in_total -> leads validateTransactionFee after_inputs after_inputs.
Proof.
  intros (_ & blob & E & E') Hpos s (F & Es & H). unfold validateTransactionFee. rewrite E, Es.
  rewrite (proj2 (Z.eqb_neq _ _)) by lia. unfold isFusionTransaction, getObjectBinarySize, toBinaryArray_opt. rewrite E'. okbind.
  unfold try_catch. okbind. rewrite Z.eqb_refl. okbind. repeat case_match; eexists _, _; (split; [reflexivity|]); try done; by rewrite <- Es.
Qed.

Lemma extra_leads P : leads validateTransactionExtra P P.
Proof. intros s Hs. unfold validateTransactionExtra. case_match; eexists _, _; (split; [reflexivity|done]). Qed.
Lemma mixin_leads P : leads validateTransactionMixin P P.
Proof. intros s Hs. unfold validateTransactionMixin. repeat case_match; eexists _, _; (split; [reflexivity|done]). Qed.
Lemma pow_leads P : valid_tx (m_transaction v) -> leads validateTransactionPoW P P.
Proof.
  intros [data E]%prefix_serializes s Hs. unfold validateTransactionPoW. rewrite E. okbind.
  destruct (m_blockHeight v <? _); [by eexists _, _|]. destruct (check_hash _ _); eexists _, _; (split; [reflexivity|done]).
Qed.

Lemma job_verdicts_return h l : forall k, (forall j i, l !! j = Some i -> exists r, input_job h (k + j) i = Ok r) ->
  exists rs, job_verdicts h k l = Ok rs.
Proof.
  induction l as [|i l IH]; intros k H; [by exists []|]. destruct (H 0%nat i eq_refl) as [r Hr]. rewrite Nat.add_0_r in Hr.
  destruct (IH (S k)) as [rs Hrs]; [|exists (r :: rs); simpl; by rewrite Hr, Hrs].
  intros j i' Hi. destruct (H (S j) i' Hi) as [r' Hr']. exists r'. by rewrite Nat.add_succ_comm.
Qed.

(** Offsets that do not wrap around give ring indexes. *)
Definition ring_fits (i : TransactionInput) : Prop :=
  match i with InKey i => sumZ (outputIndexes i) < 2 ^ 32 | InBase _ => True end.

Lemma absolute_loop_ascending l : forall prev, 0 <= prev -> Forall (fun x => 0 < x) l -> prev + sumZ l < 2 ^ 32 ->
  StronglySorted Z.lt (absolute_loop prev l) /\ Forall (fun y => prev < y < 2 ^ 32) (absolute_loop prev l).
Proof.
  induction l as [|x l IH]; intros prev Hp H B; [by split; constructor|]. inv H. rewrite sumZ_cons in B.
  assert (0 <= sumZ l) by (apply sumZ_nonneg; eapply Forall_impl; [eassumption|]; simpl; lia).
  cbn [absolute_loop]. rewrite wrap_small by width_solve. destruct (IH (x + prev)) as [S A]; [lia|done|lia|].
  split; constructor; try done; [|lia|]; (eapply Forall_impl; [exact A|]; simpl; lia).
Qed.

Lemma absolute_ring i : wf_KeyInput i -> outputIndexes i <> [] -> 0 ∉ tail (outputIndexes i) -> ring_fits (InKey i) ->
  ring_indexes (relativeOutputOffsetsToAbsolute (outputIndexes i)).
Proof.
  intros (_ & W & _) N Z F. simpl in F. destruct (outputIndexes i) as [|x l]; [done|]. inv W. rewrite sumZ_cons in F.
  assert (P : Forall (fun y => 0 < y) l).
  { apply Forall_forall. intros y Hy. assert (y <> 0) by (intros ->; done).
    eapply Forall_forall in Hy; [|eassumption]. simpl in Hy. width_solve. }
  destruct (absolute_loop_ascending l x) as [S A]; [width_solve|done|done|].
  split_and!; [done| |]; constructor; try done; (eapply Forall_impl; [exact A|]); simpl; width_solve.
Qed.

Lemma input_job_return h k i sigs : CacheAnswers (u32 (m_blockHeight v)) ->
  ring_indexes (relativeOutputOffsetsToAbsolute (outputIndexes i)) -> signatures (m_transaction v) !! k = Some sigs ->
  exists r, input_job h k (InKey i) = Ok r.
Proof.
  intros A R Hs. unfold input_job. destruct (spent_answers (keyImage i)) as [b ->]. unfold in_worker. okbind.
  destruct (extract_answers (ki_amount i) _ R) as [[r keys] ->]. okbind.
  assert (outputIndexes i <> []) by (destruct R as (R & _); by destruct (outputIndexes i)).
  rewrite Hs, bool_decide_eq_false_2 by done. okbind. unfold from_option. okbind. repeat case_match; eauto.
Qed.

Lemma rings_return sched s : CacheAnswers (u32 (m_blockHeight v)) -> Forall ring_fits (inputs tx) ->
  well_cached -> (0 < threadCount)%nat -> after_inputs s ->
  exists sched' r, validateTransactionInputsExpensive (sched ++ sched') s = Ok r.
Proof.
  intros CA RF (Hv & _) Ht (_ & _ & ins & Ei & Hne). unfold validateTransactionInputsExpensive.
  destruct (isInCheckpointZone _ _); [by eexists [], (true, s)|].
  destruct (prefix_serializes Hv) as [data Ed].
  unfold getTransactionPrefixHash, getObjectHash, toBinaryArray_opt. fold (m_transaction v). rewrite Ed. unfold try_catch. okbind.
  set (h := getBinaryArrayHash _ _). destruct (job_verdicts_return h (inputs tx) 0) as [rs Hrs].
  { intros j i Hi. pose proof Hv as [_ Hs]. rewrite Ei in Hi. rewrite list_lookup_fmap in Hi.
    destruct (ins !! j) as [k|] eqn:Ek; [|done]. injection Hi as <-.
    assert (Hb : is_base_inputs (inputs tx) = false) by (rewrite Ei; by destruct ins).
    rewrite Hb in Hs. assert (Hj : inputs tx !! j = Some (InKey k)) by by rewrite Ei, list_lookup_fmap, Ek.
    destruct (Forall2_lookup_l _ _ _ _ _ Hs Hj) as (sigs & Hsig & _). eapply input_job_return; [done| |exact Hsig].
    destruct (Forall_lookup_1 _ _ _ _ Hne Ek). apply absolute_ring; [|done|done|by eapply Forall_lookup_1].
    exact (valid_input Hv j _ Hj). }
  rewrite Hrs. okbind. set (p0 := init (length rs) _).
  destruct (schedule_extends threadCount (verdict_at rs) sched p0 Ht (init_inv _ _ _)) as [sched' Hf]. exists sched'.
  eexists. by rewrite decide_True.
Qed.

Lemma validate_returns_ok sched state : CacheAnswers (u32 (m_blockHeight v)) -> Forall ring_fits (inputs tx) -> well_cached -> (0 < threadCount)%nat -> 0 < in_total ->
  exists sched' r, validate (sched ++ sched') state = Ok r.
Proof.
  intros CA RF Hc Ht Hpos. pose proof (valid_amounts (proj1 Hc)) as W.
  assert (L : leads (checks cheap_checks) sums_fit after_inputs).
  { apply (leads_cons _ _ _ _ _ (size_leads _ Hc)). apply (leads_cons _ _ _ _ _ (inputs_leads W)).
    apply (leads_cons _ _ _ _ _ (outputs_leads W)). apply (leads_cons _ _ _ _ _ (fee_leads Hc Hpos)).
    apply (leads_cons _ _ _ _ _ (extra_leads _)). apply (leads_cons _ _ _ _ _ (mixin_leads _)).
    apply (leads_cons _ _ _ _ _ (pow_leads _ (proj1 Hc))). apply leads_nil. }
  destruct (L _ (new_fit state)) as (b & s & E & H). unfold validate. destruct b.
  - destruct (rings_return sched s CA RF Hc Ht (H eq_refl)) as (sched' & [b s'] & Hr). exists sched'. eexists.
    rewrite checks_app, E. okbind. cbn [checks]. rewrite Hr. okbind. by destruct b.
  - exists []. eexists. by rewrite checks_app, E.
Qed.

Lemma zero_sum_throws_ok sched state : well_cached -> size_ok -> inputs_ok state -> outputs_ok -> in_total = 0 ->
  exists msg, validate sched state = Throw msg.
Proof.
  intros Hc HS HI HO Z0. pose proof (valid_amounts (proj1 Hc)) as W.
  destruct (size_leads (fun _ => True) Hc (new_vstate state) I) as (b1 & s1 & E1 & _).
  destruct (size_meets _ _ _ (new_fit state) E1) as [_ [(-> & _ & -> & F1)|(_ & N & _)]]; [|done].
  destruct (inputs_leads W _ F1) as (b2 & s2 & E2 & _).
  destruct (inputs_meets W _ _ _ F1 E2) as [_ [(-> & _ & -> & F2)|(_ & N & _)]]; [|done].
  assert (A2 : after_inputs (set_sumOfInputs in_total (spend_all images (id (new_vstate state))))).
  { split_and!; [done|done|]. destruct HI as (ins & Ei & _ & _ & Hs & _). exists ins. split; [done|].
    eapply Forall_impl; [exact Hs|]. by intros i (? & ? & _). }
  destruct (outputs_leads W _ A2) as (b3 & s3 & E3 & _).
  destruct (outputs_meets W _ _ _ F2 E3) as [_ [(-> & _ & -> & F3)|(_ & N & _)]]; [|done].
  unfold validate. cbn [checks cheap_checks app]. rewrite E1. okbind. rewrite E2. okbind. rewrite E3. okbind.
  unfold validateTransactionFee. cbn [m_sumOfInputs set_sumOfOutputs set_sumOfInputs]. rewrite Z0. simpl. by eexists.
Qed.

(** *** A larger state

    A transaction that passes on one state passes on it with more key images, if none of them is its own. *)

Definition widen (X : gset KeyImage) (s : vstate) : vstate :=
  {| m_validationResult := m_validationResult s; m_sumOfInputs := m_sumOfInputs s; m_sumOfOutputs := m_sumOfOutputs s;
     spentKeyImages := spentKeyImages s ∪ X |}.
Definition framed (X : gset KeyImage) (c : check) : Prop := forall s s', c s = Ok (true, s') -> c (widen X s) = Ok (true, widen X s').

Lemma framed_checks X l : Forall (framed X) l -> framed X (checks l).
Proof.
  induction 1 as [|c l Fc _ IH]; intros s s' H; simpl in *; [by simplify_eq|]. apply bind_ok in H as ([[] s1] & H1 & H); [|done].
  rewrite (Fc _ _ H1). okbind. by apply IH.
Qed.

Ltac frame_simple := intros s s' H; revert H; okbind; intros H; repeat case_match; simplify_eq; done.

Lemma size_framed X : framed X validateTransactionSize.
Proof. unfold validateTransactionSize. destruct (getTransactionBinaryArray _); frame_simple. Qed.
Lemma outputs_loop_framed X l : forall a s s', outputs_loop l a s = (true, s') -> outputs_loop l a (widen X s) = (true, widen X s').
Proof. induction l as [|o l IH]; intros a s s' H; simpl in *; [by simplify_eq|]. repeat case_match; try done. by apply IH. Qed.
Lemma outputs_framed X : framed X validateTransactionOutputs.
Proof. intros s s' H. unfold validateTransactionOutputs in *. apply Ok_inj in H. by rewrite (outputs_loop_framed X _ _ _ _ H). Qed.
Lemma fee_framed X : framed X validateTransactionFee.
Proof.
  intros s s' H. unfold validateTransactionFee in *. cbn [widen m_sumOfInputs m_sumOfOutputs]. destruct (_ =? 0); [done|]. destruct (_ <? _); [done|].
  apply bind_ok in H as (b & -> & H). okbind. apply bind_ok in H as (f & -> & H). okbind. repeat case_match; simplify_eq; done.
Qed.
Lemma extra_framed X : framed X validateTransactionExtra.
Proof. unfold validateTransactionExtra. frame_simple. Qed.
Lemma mixin_framed X : framed X validateTransactionMixin.
Proof. unfold validateTransactionMixin. frame_simple. Qed.
Lemma pow_framed X : framed X validateTransactionPoW.
Proof. unfold validateTransactionPoW. destruct (_ <? _); [frame_simple|]. destruct (toBinaryArray _ _); frame_simple. Qed.
Lemma rings_framed X sched : framed X (validateTransactionInputsExpensive sched).
Proof.
  intros s s' H. unfold validateTransactionInputsExpensive in *. destruct (isInCheckpointZone _ _); [by simplify_eq|].
  apply bind_ok in H as (h & -> & H). okbind. apply bind_ok in H as (rs & -> & H). okbind. cbn [widen m_validationResult]. case_decide; simplify_eq. by do 2 f_equal.
Qed.
Lemma inputs_loop_framed X l : forall ki a s s', (forall k, k ∈ omap image l -> k ∉ X) ->
  inputs_loop l ki a s = (true, s') -> inputs_loop l ki a (widen X s) = (true, widen X s').
Proof.
  induction l as [|[i|i] l IH]; intros ki a s s' D H; simpl in *; [by simplify_eq|done|].
  do 4 (case_match; [done|]). case_bool_decide as Hs; [done|]. rewrite bool_decide_eq_false_2 by (pose proof (D (keyImage i) (list_elem_of_here _ _)); set_solver).
  case_match; [done|]. replace (spend (keyImage i) (widen X s)) with (widen X (spend (keyImage i) s)).
  - apply IH; [|done]. intros k Hk. apply D. by right.
  - unfold widen, spend. simpl. f_equal. symmetry. apply (assoc_L _).
Qed.
Lemma inputs_framed X : (forall k, k ∈ images -> k ∉ X) -> framed X validateTransactionInputs.
Proof.
  intros D s s' H. unfold validateTransactionInputs in *. case_bool_decide; [done|]. apply Ok_inj in H. by rewrite (inputs_loop_framed X _ _ _ _ _ D H).
Qed.

Lemma validate_framed X sched r st : wf_amounts tx -> (forall k, k ∈ images -> k ∉ X) -> validate sched ∅ = Ok (r, st) -> r_valid r = true ->
  exists st', validate sched X = Ok (r, st').
Proof.
  intros W D H V. unfold validate in *. apply bind_ok in H as ([b s] & H & E). apply Ok_inj in E. injection E as Er Es.
  assert (F : framed X (checks (cheap_checks ++ [validateTransactionInputsExpensive sched]))).
  { apply framed_checks. repeat constructor; [apply size_framed|by apply inputs_framed|apply outputs_framed|apply fee_framed|apply extra_framed|apply mixin_framed|apply pow_framed|apply rings_framed]. }
  destruct b.
  - apply F in H. assert (Ew : widen X (new_vstate ∅) = new_vstate X) by (unfold widen, new_vstate; simpl; f_equal; apply (left_id_L ∅ (∪))).
    rewrite Ew in H. rewrite H. okbind. rewrite <- Er. by eexists.
  - exfalso. destruct (checks_run _ _ _ _ W H) as [N _]. unfold r_valid_of in N. simpl in Er. congruence.
Qed.

End validator.

Lemma exclude_loop_ok ins : forall state : gset KeyImage, NoDup (keyImage <$> ins) -> (forall k, k ∈ keyImage <$> ins -> k ∉ state) ->
  exclude_loop (list_to_set (keyImage <$> ins) ∪ state) (InKey <$> ins) = Ok state.
Proof.
  induction ins as [|i ins IH]; intros state N D.
  - simpl. f_equal. set_solver.
  - rewrite fmap_cons in *. apply NoDup_cons in N as [Ni N]. simpl. rewrite bool_decide_eq_true_2 by set_solver. okbind.
    etransitivity; [|apply (IH state N); set_solver]. f_equal. apply (leibniz_equiv (A := gset KeyImage)). apply set_equiv. intros x.
    pose proof (D (keyImage i) (list_elem_of_here _ _)). assert (keyImage i ∉@{gset KeyImage} list_to_set (keyImage <$> ins)) by set_solver.
    set_solver.
Qed.

(** ** The callers in [Core] *)

Section core.
Context (scalarmultKey : KeyImage -> KeyImage -> KeyImage) (check_key : PublicKey -> bool).
Context (cn_fast_hash cn_turtle_lite_slow_hash_v2 : bytes -> Hash).
Context (checkRingSignature : Hash -> KeyImage -> list PublicKey -> list Signature -> bool).
Context `{cache : !IBlockchainCache} (threadCount : nat).

Abbreviation run_validate v := (validate scalarmultKey check_key cn_fast_hash cn_turtle_lite_slow_hash_v2 checkRingSignature threadCount v).
Abbreviation tx_accepted v := (accepts scalarmultKey check_key cn_fast_hash cn_turtle_lite_slow_hash_v2 checkRingSignature v).

(** [Core::validateTransaction]: the fee, the error code, and the caller's state. *)
Definition Core_validateTransaction (currency : Currency) (checkpoints : points) (blockMedianSize : Z)
    (c : CachedTransaction) (blockIndex : Z) (isPoolTransaction : bool) (sched : list action) (state : TransactionValidatorState)
    : outcome (Z * option TransactionValidationError * TransactionValidatorState) :=
  '(result, state) ← run_validate {| m_cachedTransaction := c; m_currency := currency; m_checkpoints := checkpoints;
      m_blockHeight := blockIndex; m_blockSizeMedian := blockMedianSize; m_isPoolTransaction := isPoolTransaction |} sched state;
  Ok (r_fee result, r_errorCode result, state).

(** [operator bool] of an error code. *)
Definition is_set (e : option TransactionValidationError) : bool :=
  match e with None | Some VALIDATION_SUCCESS => false | Some _ => true end.

Context (currency : Currency) (checkpoints : points) (blockMedianSize previousBlockIndex : Z).

(** The loop of [Core::addBlock] over the block's transactions, each with the
    schedule of its validation: the transaction it stops at and the error, or the
    total fee and the validator state. *)
Fixpoint block_transactions (l : list (CachedTransaction * list action)) (validatorState : TransactionValidatorState)
    (cumulativeFee : Z) : outcome (CachedTransaction * option TransactionValidationError + Z * TransactionValidatorState) :=
  match l with
  | [] => Ok (inr (cumulativeFee, validatorState))
  | (c, sched) :: l =>
      '(fee, e, validatorState) ← Core_validateTransaction currency checkpoints blockMedianSize c previousBlockIndex
                                    false sched validatorState;
      if is_set e then Ok (inl (c, e))
      else block_transactions l validatorState (u64 (cumulativeFee + fee))
  end.

Definition block_validator (c : CachedTransaction) : ValidateTransaction :=
  {| m_cachedTransaction := c; m_currency := currency; m_checkpoints := checkpoints; m_blockHeight := previousBlockIndex;
     m_blockSizeMedian := blockMedianSize; m_isPoolTransaction := false |}.
Definition tx_fee (c : CachedTransaction) : Z := in_total (block_validator c) - out_total (block_validator c).
Definition tx_images (c : CachedTransaction) : list KeyImage := images (block_validator c).

Lemma images_keys v ins : inputs (tx_prefix (m_transaction v)) = InKey <$> ins -> images v = keyImage <$> ins.
Proof. unfold images. intros ->. induction ins as [|i ins IH]; [done|]. simpl. f_equal. apply IH. Qed.

(** The key images of an accepted transaction are new and distinct. *)
Lemma accepted_images v state : inputs_ok scalarmultKey v state -> NoDup (images v) /\ forall k, k ∈ images v -> k ∉ state.
Proof.
  intros (ins & E & _ & N & S & _). rewrite (images_keys v ins E). split; [done|].
  intros k (i & -> & Hi)%list_elem_of_fmap. rewrite Forall_forall in S. by destruct (S i Hi) as (_ & _ & _ & ?).
Qed.

Lemma block_transactions_ok l : forall state cum fee state',
  Forall (fun p => wf_amounts (tx_prefix (getTransaction p.1))) l ->
  block_transactions l state cum = Ok (inr (fee, state')) -> is_u64 cum ->
  let imgs := concat (tx_images <$> l.*1) in
  NoDup imgs /\ (forall k, k ∈ imgs -> k ∉ state) /\ state' = list_to_set imgs ∪ state
  /\ fee = u64 (cum + sumZ (tx_fee <$> l.*1))
  /\ Forall (fun c => exists st, tx_accepted (block_validator c) st) l.*1.
Proof.
  induction l as [|[c sched] l IH]; intros state cum fee state' W H Hc; simpl in H.
  - injection H as <- <-. simpl. split_and!; [constructor|set_solver|set_solver|by rewrite Z.add_0_r, wrap_small|constructor].
  - apply Forall_cons in W as [Wc W]. simpl in Wc. apply bind_ok in H as ([[f e] st] & Hv & H).
    unfold Core_validateTransaction in Hv. apply bind_ok in Hv as ([r st'] & Hv & E). injection E as <- <- <-.
    fold (block_validator c) in Hv. apply validate_ok in Hv; [|done].
    destruct Hv as [(_ & E & Ef & -> & Hacc)|(_ & (e & E & Hne) & _)]; rewrite E in H; [|by destruct e].
    cbn [is_set] in H. apply IH in H; [|done|by apply wrap_range]. cbn zeta in *. destruct H as (N & D & -> & -> & A).
    destruct (accepted_images _ _ (acc_inputs _ _ _ _ (proj1 Hacc))) as [Nc Dc].
    change (images (block_validator c)) with (tx_images c) in *. rewrite Ef. fold (tx_fee c).
    rewrite !fmap_cons. cbn [concat fst]. rewrite sumZ_cons, wrap_add_l, Z.add_assoc. split_and!.
    + apply NoDup_app. split_and!; [done| |done]. intros k Hk Hk'. specialize (D k Hk'). set_solver.
    + intros k [Hk|Hk]%elem_of_app; [by apply Dc|]. specialize (D k Hk). set_solver.
    + rewrite list_to_set_app_L. set_solver.
    + done.
    + constructor; [by eexists|done].
Qed.

(** Transactions that pass alone, with the schedules they are given, pass one after the other when no two spend the same key image. *)
Lemma block_transactions_pass l : forall state cum,
  Forall (fun p => wf_amounts (tx_prefix (getTransaction p.1))) l ->
  Forall (fun p => exists r st, run_validate (block_validator p.1) p.2 ∅ = Ok (r, st) /\ r_valid r = true) l ->
  NoDup (concat (tx_images <$> l.*1)) -> (forall k, k ∈ concat (tx_images <$> l.*1) -> k ∉ state) ->
  exists fee state', block_transactions l state cum = Ok (inr (fee, state')).
Proof.
  induction l as [|[c sched] l IH]; intros state cum W F N D; [by eexists _, _|]. apply Forall_cons in W as [Wc W], F as [(r & st & E & V) F].
  rewrite !fmap_cons in N, D. cbn [concat fst] in N, D. apply NoDup_app in N as (_ & Dj & N). cbn [fst snd] in *.
  destruct (validate_framed _ _ _ _ _ _ (block_validator c) state _ _ _ Wc (fun k Hk => D k (proj2 (elem_of_app _ _ _) (or_introl Hk))) E V) as [st' E'].
  cbn [block_transactions]. unfold Core_validateTransaction. fold (block_validator c). rewrite E'. okbind.
  apply validate_ok in E'; [|done]. destruct E' as [(_ & -> & _ & -> & _)|(V' & _)]; [|congruence]. cbn [is_set].
  apply IH; [done|done|done|]. intros k Hk [Hi%elem_of_list_to_set|Hs]%elem_of_union; [by eapply Dj|].
  apply (D k); [|done]. apply elem_of_app. by right.
Qed.

(** A transaction that came in as bytes. *)
Lemma blob_well_cached v blob : is_bytes blob -> CachedTransaction_of_blob blob = Ok (m_cachedTransaction v) -> well_cached v.
Proof.
  intros Hb H. unfold CachedTransaction_of_blob, fromBinaryArray_opt, try_catch in H.
  destruct (fromBinaryArray _ _ _) as [t| |] eqn:E; simpl in H; try done. apply Ok_inj in H.
  unfold well_cached, m_transaction. rewrite <- H. simpl.
  destruct (whole_canonical unsigned valid_tx serialize_Transaction new_Transaction blob t eq_refl Hb E) as [V Ser].
  split; [done|]. by exists blob.
Qed.

(** ** Properties *)

(** C14: for a transaction received as bytes, whatever the thread schedule, the
    validator accepts exactly the transactions that satisfy [accepts]: within the
    size limit; at least one input, all of them key inputs with distinct, unspent
    key images of the right order and no repeated ring member; no zero output, valid
    output keys; sums that fit 64 bits, outputs not above inputs, a sufficient fee;
    an admissible extra size and mixin; enough proof of work; and, outside the
    checkpoint zone, unspent images and valid ring signatures against existing
    unlocked outputs.  The error code, which is all that [Core] looks at, is success
    exactly for them, and then the fee is the exact difference and the caller's state
    gains exactly the transaction's key images. *)
Theorem validate_decides v blob sched state r state' :
  is_bytes blob -> CachedTransaction_of_blob blob = Ok (m_cachedTransaction v) ->
  run_validate v sched state = Ok (r, state') ->
  (r_valid r = true <-> tx_accepted v state)
  /\ (is_set (r_errorCode r) = negb (r_valid r))
  /\ (r_valid r = true -> out_total v + r_fee r = in_total v /\ state' = list_to_set (images v) ∪ state).
Proof.
  intros Hb Hc H. apply blob_well_cached in Hc as [Hv _]; [|done]. apply validate_ok in H; [|by apply valid_amounts].
  destruct H as [(V & E & F & S & A)|(V & (e & E & N) & A)]; rewrite V, E.
  - split_and!; [done|done|]. intros _. split; [lia|done].
  - split_and!; [done|by destruct e|done].
Qed.

(** C37: a transaction received as bytes is judged, under four conditions: its
    inputs have a positive sum, the offsets of each ring sum to less than 2^32 (so
    that none wraps around), the cache answers queries for ascending indexes at the
    height of the validation, and the pool has a worker.  Then there is no exception
    and no undefined behaviour on any path, and however the threads began to run, the
    run can be continued until the call returns, with the verdict of the
    specification. *)
Theorem validate_returns v blob sched state : CacheAnswers (u32 (m_blockHeight v)) ->
  Forall ring_fits (inputs (tx_prefix (m_transaction v))) -> is_bytes blob -> CachedTransaction_of_blob blob = Ok (m_cachedTransaction v) ->
  (0 < threadCount)%nat -> 0 < in_total v ->
  exists sched' r state', run_validate v (sched ++ sched') state = Ok (r, state') /\ (r_valid r = true <-> tx_accepted v state).
Proof.
  intros CA RF Hb Hc Ht Hp. apply blob_well_cached in Hc; [|done].
  destruct (validate_returns_ok scalarmultKey check_key cn_fast_hash cn_turtle_lite_slow_hash_v2 checkRingSignature
    threadCount v sched state CA RF Hc Ht Hp) as (sched' & [r state'] & E). exists sched', r, state'. split; [done|].
  apply validate_ok in E; [|by apply valid_amounts, Hc]. destruct E as [(V & _ & _ & _ & A)|(V & _ & A)]; by rewrite V.
Qed.

(** a transaction whose key inputs all have amount 0 passes the input and output
    checks but is not rejected: the fee check takes the zero sum for a missing call
    and throws. *)
Theorem zero_sum_throws v blob sched state :
  is_bytes blob -> CachedTransaction_of_blob blob = Ok (m_cachedTransaction v) ->
  size_ok v -> inputs_ok scalarmultKey v state -> outputs_ok check_key v -> in_total v = 0 ->
  exists msg, run_validate v sched state = Throw msg.
Proof. intros Hb Hc. apply zero_sum_throws_ok. by eapply blob_well_cached. Qed.

(** the check repeated for pool transactions after a height change accepts
    exactly the transactions that pass all conditions but the signatures, and the
    proof of work only in the hundred blocks after it was introduced. *)
Theorem revalidate_decides v blob state r state' :
  is_bytes blob -> CachedTransaction_of_blob blob = Ok (m_cachedTransaction v) ->
  revalidateAfterHeightChange scalarmultKey check_key cn_turtle_lite_slow_hash_v2 v state = Ok (r, state') ->
  (r_valid r = true <-> cheap_ok scalarmultKey check_key v state /\
    (TRANSACTION_POW_HEIGHT <= m_blockHeight v <= TRANSACTION_POW_HEIGHT + 100 -> pow_ok cn_turtle_lite_slow_hash_v2 v))
  /\ is_set (r_errorCode r) = negb (r_valid r).
Proof.
  intros Hb Hc H. apply blob_well_cached in Hc as [Hv _]; [|done].
  apply (revalidate_ok _ _ cn_fast_hash _ checkRingSignature) in H; [|by apply valid_amounts].
  destruct H as [(V & E & F & S & A)|(V & (e & E & N) & A)]; rewrite V, E; (split; [done|]); [done|by destruct e].
Qed.

(** no double spend inside a block: when the transactions of a block pass one
    after the other, all their key images are different from each other and from
    those spent before, the validator state is extended by exactly them, and the
    fee is the sum of the exact fees modulo 2^64. *)
Theorem block_no_double_spend l state fee state' :
  Forall (fun p => wf_amounts (tx_prefix (getTransaction p.1))) l ->
  block_transactions l state 0 = Ok (inr (fee, state')) ->
  NoDup (concat (tx_images <$> l.*1)) /\ (forall k, k ∈ concat (tx_images <$> l.*1) -> k ∉ state)
  /\ state' = list_to_set (concat (tx_images <$> l.*1)) ∪ state /\ fee = u64 (sumZ (tx_fee <$> l.*1)).
Proof.
  intros W H. apply block_transactions_ok in H; [|done|width_solve]. naive_solver.
Qed.

(** taking an accepted transaction out of the validator state gives the state
    before it was validated, with no assertion failing. *)
Theorem exclude_undoes_validate v blob sched state r state' :
  is_bytes blob -> CachedTransaction_of_blob blob = Ok (m_cachedTransaction v) ->
  run_validate v sched state = Ok (r, state') -> r_valid r = true ->
  excludeFromState state' (m_cachedTransaction v) = Ok state.
Proof.
  intros Hb Hc H V. apply blob_well_cached in Hc as [Hv _]; [|done]. apply validate_ok in H; [|by apply valid_amounts].
  destruct H as [(_ & _ & _ & -> & A)|(V' & _)]; [|congruence].
  pose proof (acc_inputs _ _ _ _ (proj1 A)) as I. destruct (accepted_images v state I) as [N D].
  destruct I as (ins & E & _). unfold excludeFromState. fold (m_transaction v). rewrite E.
  rewrite (images_keys v ins E) in *. by apply exclude_loop_ok.
Qed.

End core.

(** ** Witnesses: a toy cryptography that accepts everything, and a cache with
    enough unspent outputs *)

Definition toy_scalarmult (P a : KeyImage) : KeyImage := key_I.
Definition toy_check_key (k : PublicKey) : bool := true.
Definition toy_ring (h : Hash) (ki : KeyImage) (keys : list PublicKey) (sigs : list Signature) : bool := true.
#[export] Instance toy_cache : IBlockchainCache :=
  {| checkIfSpent := fun _ _ => Ok false;
     extractKeyOutputKeys := fun _ _ idx => Ok (SUCCESS, (fun i => replicate 32 (i mod 256)) <$> idx) |}.

#[export] Instance toy_answers h : CacheAnswers h.
Proof. split; intros; by eexists. Qed.

Definition sample_cached : CachedTransaction :=
  {| getTransaction := sample_tx; transactionBinaryArray := Some sample_blob |}.
Definition sample_validator : ValidateTransaction :=
  {| m_cachedTransaction := sample_cached; m_currency := test_currency; m_checkpoints := ∅;
     m_blockHeight := 100; m_blockSizeMedian := 100000; m_isPoolTransaction := true |}.
Definition full_schedule : list action :=
  [ActAdd; ActTake; ActAdd; ActCheck 0; ActTake; ActCheck 1; ActFinish 1; ActFinish 0; ActCollect; ActCollect].

Definition sample_images : TransactionValidatorState := list_to_set [replicate 32 1; replicate 32 2].
Definition sample_result : TransactionValidationResult :=
  {| r_errorCode := Some VALIDATION_SUCCESS; r_valid := true; r_fee := 100; r_isFusionTransaction := false |}.

Lemma sample_cached_ok : is_bytes sample_blob /\ CachedTransaction_of_blob sample_blob = Ok sample_cached.
Proof. split; [by_compute|vm_compute; reflexivity]. Qed.

Definition sample_run : outcome (TransactionValidationResult * TransactionValidatorState) :=
  validate toy_scalarmult toy_check_key toy_hash toy_hash toy_ring 2 sample_validator full_schedule ∅.

Lemma sample_run_ok : sample_run = Ok (sample_result, sample_images).
Proof. by_compute. Qed.

Lemma validate_decides_witness :
  accepts toy_scalarmult toy_check_key toy_hash toy_hash toy_ring sample_validator ∅.
Proof.
  apply (validate_decides toy_scalarmult toy_check_key toy_hash toy_hash toy_ring 2 sample_validator sample_blob full_schedule ∅
    sample_result sample_images); [apply sample_cached_ok|apply sample_cached_ok|exact sample_run_ok|reflexivity].
Defined.

Lemma validate_returns_witness : exists sched r state',
  validate toy_scalarmult toy_check_key toy_hash toy_hash toy_ring 2 sample_validator ([ActAdd; ActTake] ++ sched) ∅ = Ok (r, state')
  /\ (r_valid r = true <-> accepts toy_scalarmult toy_check_key toy_hash toy_hash toy_ring sample_validator ∅).
Proof.
  apply (validate_returns toy_scalarmult toy_check_key toy_hash toy_hash toy_ring 2 sample_validator sample_blob);
    [apply _|repeat constructor; by_compute|apply sample_cached_ok|apply sample_cached_ok|lia|by_compute].
Defined.

Lemma exclude_undoes_validate_witness : excludeFromState sample_images sample_cached = Ok ∅.
Proof.
  apply (exclude_undoes_validate toy_scalarmult toy_check_key toy_hash toy_hash toy_ring 2 sample_validator sample_blob
    full_schedule ∅ sample_result sample_images); [apply sample_cached_ok|apply sample_cached_ok|exact sample_run_ok|reflexivity].
Defined.

Definition sample_rerun : outcome (TransactionValidationResult * TransactionValidatorState) :=
  revalidateAfterHeightChange toy_scalarmult toy_check_key toy_hash sample_validator ∅.
Lemma revalidate_decides_witness : sample_rerun = Ok (sample_result, sample_images)
  /\ cheap_ok toy_scalarmult toy_check_key sample_validator ∅.
Proof.
  assert (H : sample_rerun = Ok (sample_result, sample_images)) by by_compute. split; [exact H|].
  apply (revalidate_decides toy_scalarmult toy_check_key toy_hash toy_hash toy_ring sample_validator sample_blob ∅
    sample_result sample_images); [apply sample_cached_ok|apply sample_cached_ok|exact H|reflexivity].
Defined.

(** The same transaction, worth nothing. *)
Definition zero_input (k : Z) : TransactionInput := InKey {| ki_amount := 0; outputIndexes := [3; 300]; keyImage := replicate 32 k |}.
Definition zero_tx : Transaction :=
  {| tx_prefix := {| version := 1; unlockTime := 0; inputs := [zero_input 1]; outputs := []; extra := [] |};
     signatures := [[replicate 64 8; replicate 64 9]] |}.
Definition zero_blob : bytes := match toBinaryArray serialize_Transaction zero_tx with Ok b => b | _ => [] end.
Definition zero_validator : ValidateTransaction :=
  {| m_cachedTransaction := {| getTransaction := zero_tx; transactionBinaryArray := Some zero_blob |};
     m_currency := test_currency; m_checkpoints := ∅; m_blockHeight := 100; m_blockSizeMedian := 100000; m_isPoolTransaction := true |}.

Lemma zero_sum_throws_witness : exists msg,
  validate toy_scalarmult toy_check_key toy_hash toy_hash toy_ring 2 zero_validator full_schedule ∅ = Throw msg.
Proof.
  apply (zero_sum_throws toy_scalarmult toy_check_key toy_hash toy_hash toy_ring 2 zero_validator zero_blob full_schedule ∅).
  - by_compute.
  - vm_compute. reflexivity.
  - exists zero_blob. split; [reflexivity|by_compute].
  - exists [{| ki_amount := 0; outputIndexes := [3; 300]; keyImage := replicate 32 1 |}].
    split_and!; [reflexivity|discriminate|by_compute| |by_compute]. repeat constructor; by_compute.
  - split; [constructor|by_compute].
  - reflexivity.
Defined.

Definition sample_block_run : outcome (CachedTransaction * option TransactionValidationError + Z * TransactionValidatorState) :=
  block_transactions toy_scalarmult toy_check_key toy_hash toy_hash toy_ring 2 test_currency ∅ 100000 100
    [(sample_cached, full_schedule)] ∅ 0.
Lemma block_no_double_spend_witness : sample_block_run = Ok (inr (100, sample_images))
  /\ NoDup (concat (tx_images test_currency ∅ 100000 100 <$> [(sample_cached, full_schedule)].*1)).
Proof.
  assert (H : sample_block_run = Ok (inr (100, sample_images))) by by_compute. split; [exact H|].
  apply (block_no_double_spend toy_scalarmult toy_check_key toy_hash toy_hash toy_ring 2 test_currency ∅ 100000 100
    [(sample_cached, full_schedule)] ∅ 100 sample_images); [|exact H].
  repeat constructor; by_compute.
Defined.
