(* ===== verification/Pool.v ===== *)
(** * Pool: [cryptonotecore/TransactionPool.cpp] and [TransactionPoolCleaner.cpp]

    The pool is a [boost::multi_index_container] with three indexes over the same
    elements.  Here it is the sequence of its ordered index; the hashed unique index
    looks an element up by hash, the payment id index filters.  The hash and the size
    of a transaction, which [CachedTransaction] memoises, are kept in the element. *)

From Stdlib Require Import ZArith Lia.
From stdpp Require Import base tactics list numbers strings gmap fin_sets sorting relations.
From S2P Require Import Prelude IntUtil Config Types Serializer TxSerialization TransactionExtra BlockSerialization FormatUtils Currency Checkpoints ThreadPool Validate.

Local Open Scope Z_scope.

Record PendingTransactionInfo := {
  receiveTime : Z;
  cachedTransaction : CachedTransaction;
  paymentId : option Hash;
  memo_hash : Hash;
  memo_size : Z }.

#[global] Instance PendingTransactionInfo_eq_dec : EqDecision PendingTransactionInfo.
Proof. solve_decision. Defined.

Definition pending_tx (t : PendingTransactionInfo) : Transaction := getTransaction (cachedTransaction t).
Definition pending_fee (t : PendingTransactionInfo) : Z := getTransactionFee (pending_tx t).

(** The quotient of the sizes as a [double]: [None] is the largest one.  The division
    is one of integers. *)
Definition input_output_ratio (tx : Transaction) : option Z :=
  if bool_decide (outputs (tx_prefix tx) = []) then None
  else Some (Z.of_nat (length (inputs (tx_prefix tx))) / Z.of_nat (length (outputs (tx_prefix tx)))).
Definition ratio_gt (a b : option Z) : bool :=
  match a, b with
  | None, None => false
  | None, Some _ => true
  | Some _, None => false
  | Some x, Some y => y <? x
  end.

(** [TransactionPriorityComparator] *)
Definition prefers (lhs rhs : PendingTransactionInfo) : outcome bool :=
  '(lhs_lo, lhs_hi) ← mul128 (pending_fee lhs) (memo_size rhs);
  '(rhs_lo, rhs_hi) ← mul128 (pending_fee rhs) (memo_size lhs);
  let left := pending_tx lhs in
  let right := pending_tx rhs in
  Ok (if (rhs_hi <? lhs_hi) || ((lhs_hi =? rhs_hi) && (rhs_lo <? lhs_lo)) then true
      else if (lhs_hi <? rhs_hi) || ((lhs_hi =? rhs_hi) && (lhs_lo <? rhs_lo)) then false
      else if getTransactionAmount right <? getTransactionAmount left then true
      else if getTransactionAmount left <? getTransactionAmount right then false
      else if ratio_gt (input_output_ratio left) (input_output_ratio right) then true
      else if ratio_gt (input_output_ratio right) (input_output_ratio left) then false
      else if memo_size lhs <? memo_size rhs then true
      else if memo_size rhs <? memo_size lhs then false
      else if receiveTime lhs <? receiveTime rhs then true
      else if receiveTime rhs <? receiveTime lhs then false
      else true).

Record TransactionPool := {
  poolState : TransactionValidatorState;
  pending : list PendingTransactionInfo }.
#[global] Instance TransactionPool_eq_dec : EqDecision TransactionPool.
Proof. solve_decision. Defined.
Definition new_pool : TransactionPool := {| poolState := ∅; pending := [] |}.

(** An ordered non-unique index puts an element before the first one it is
    preferred to. *)
Fixpoint insert_cost (t : PendingTransactionInfo) (l : list PendingTransactionInfo) : outcome (list PendingTransactionInfo) :=
  match l with
  | [] => Ok [t]
  | x :: l =>
      b ← prefers t x;
      if (b : bool) then Ok (t :: x :: l) else l ← insert_cost t l; Ok (x :: l)
  end.

(** [transactionHashIndex.find(hash)] *)
Definition find_hash (p : TransactionPool) (hash : Hash) : option (nat * PendingTransactionInfo) :=
  list_find (fun t => memo_hash t = hash) (pending p).

Section pool.
Context (cn_fast_hash : bytes -> Hash).

(** [now] is what [time(nullptr)] returns. *)
Definition pushTransaction (now : Z) (transaction : CachedTransaction) (transactionState : TransactionValidatorState)
    (p : TransactionPool) : outcome (bool * TransactionPool) :=
  pid ← getPaymentIdFromTxExtra (extra (tx_prefix (getTransaction transaction)));
  blob ← getTransactionBinaryArray transaction;
  let pendingTx := {| receiveTime := now; cachedTransaction := transaction; paymentId := pid;
                      memo_hash := getBinaryArrayHash cn_fast_hash blob; memo_size := Z.of_nat (length blob) |} in
  if bool_decide (is_Some (find_hash p (memo_hash pendingTx))) then Ok (false, p)
  else if hasIntersections (poolState p) transactionState then Ok (false, p)
  else
    l ← insert_cost pendingTx (pending p);
    Ok (true, {| poolState := mergeStates (poolState p) transactionState; pending := l |}).

Definition tryGetTransaction (p : TransactionPool) (hash : Hash) : option CachedTransaction :=
  match find_hash p hash with Some (_, t) => Some (cachedTransaction t) | None => None end.

Definition pool_getTransaction (p : TransactionPool) (hash : Hash) : outcome CachedTransaction :=
  match find_hash p hash with
  | Some (_, t) => Ok (cachedTransaction t)
  | None => Undefined "assert(it != transactionHashIndex.end())"
  end.

Definition removeTransaction (hash : Hash) (p : TransactionPool) : outcome (bool * TransactionPool) :=
  match find_hash p hash with
  | None => Ok (false, p)
  | Some (i, t) =>
      st ← excludeFromState (poolState p) (cachedTransaction t);
      Ok (true, {| poolState := st; pending := delete i (pending p) |})
  end.

Definition getFusionTransactionCount (p : TransactionPool) : nat :=
  length (filter (fun t => pending_fee t = 0) (pending p)).
Definition getTransactionCount (p : TransactionPool) : nat := length (pending p).
Definition getTransactionHashes (p : TransactionPool) : list Hash := memo_hash <$> pending p.
Definition checkIfTransactionPresent (p : TransactionPool) (hash : Hash) : bool := bool_decide (is_Some (find_hash p hash)).
Definition getPoolTransactions (p : TransactionPool) : list CachedTransaction := cachedTransaction <$> pending p.

Definition getPoolTransactionsForBlockTemplate (p : TransactionPool) : list CachedTransaction * list CachedTransaction :=
  (cachedTransaction <$> filter (fun t => pending_fee t <> 0) (pending p),
   cachedTransaction <$> filter (fun t => pending_fee t = 0) (pending p)).

Definition getTransactionReceiveTime (p : TransactionPool) (hash : Hash) : outcome Z :=
  match find_hash p hash with
  | Some (_, t) => Ok (receiveTime t)
  | None => Undefined "assert(it != transactionHashIndex.end())"
  end.

Definition getTransactionHashesByPaymentId (p : TransactionPool) (id : Hash) : list Hash :=
  memo_hash <$> filter (fun t => paymentId t = Some id) (pending p).

Definition flush (p : TransactionPool) : outcome TransactionPool :=
  foldM (fun p hash => '(_, p) ← removeTransaction hash p; Ok p) p (getTransactionHashes p).

(** ** [TransactionPoolCleanWrapper] *)

Record CleanWrapper := {
  transactionPool : TransactionPool;
  recentlyDeletedTransactions : gmap Hash Z;
  timeout : Z }.

Definition isTransactionRecentlyDeleted (w : CleanWrapper) (hash : Hash) : bool :=
  match recentlyDeletedTransactions w !! hash with Some t => timeout w <=? t | None => false end.

Definition with_pool (w : CleanWrapper) (p : TransactionPool) : CleanWrapper :=
  {| transactionPool := p; recentlyDeletedTransactions := recentlyDeletedTransactions w; timeout := timeout w |}.

Definition wrapper_pushTransaction (now : Z) (tx : CachedTransaction) (transactionState : TransactionValidatorState)
    (w : CleanWrapper) : outcome (bool * CleanWrapper) :=
  h ← Validate.getTransactionHash cn_fast_hash tx;
  if isTransactionRecentlyDeleted w h then Ok (false, w)
  else '(b, p) ← pushTransaction now tx transactionState (transactionPool w); Ok (b, with_pool w p).

(** Deleting a transaction inside [clean]: [emplace] keeps an earlier time. *)
Definition clean_delete (currentTime : Z) (hash : Hash) (w : CleanWrapper) : outcome CleanWrapper :=
  let recent := match recentlyDeletedTransactions w !! hash with
                | Some _ => recentlyDeletedTransactions w
                | None => <[hash := currentTime]> (recentlyDeletedTransactions w)
                end in
  '(_, p) ← removeTransaction hash (transactionPool w);
  Ok {| transactionPool := p; recentlyDeletedTransactions := recent; timeout := timeout w |}.

Definition clean_one (currentTime height : Z) (r : list Hash * CleanWrapper) (hash : Hash) : outcome (list Hash * CleanWrapper) :=
  let '(deleted, w) := r in
  t ← getTransactionReceiveTime (transactionPool w) hash;
  let transactionAge := u64 (currentTime - t) in
  '(deleted, w) ← (if timeout w <=? transactionAge
                   then w ← clean_delete currentTime hash w; Ok (deleted ++ [hash], w)
                   else Ok (deleted, w));
  c ← pool_getTransaction (transactionPool w) hash;
  if negb (Mixins_validate [getTransaction c] height)
  then w ← clean_delete currentTime hash w; Ok (deleted ++ [hash], w)
  else Ok (deleted, w).

Definition cleanRecentlyDeletedTransactions (currentTime : Z) (w : CleanWrapper) : CleanWrapper :=
  {| transactionPool := transactionPool w;
     recentlyDeletedTransactions := filter (fun kt => ~ timeout w <= u64 (currentTime - kt.2)) (recentlyDeletedTransactions w);
     timeout := timeout w |}.

Definition clean (currentTime height : Z) (w : CleanWrapper) : outcome (list Hash * CleanWrapper) :=
  '(deleted, w) ← foldM (clean_one currentTime height) ([], w) (getTransactionHashes (transactionPool w));
  Ok (deleted, cleanRecentlyDeletedTransactions currentTime w).

End pool.

(** ** The order of the cost index *)

(** At least as high a fee per byte. *)
Definition fee_rate_ge (a b : PendingTransactionInfo) : Prop :=
  pending_fee b * memo_size a <= pending_fee a * memo_size b.
Definition sized (t : PendingTransactionInfo) : Prop := 0 < memo_size t < 2 ^ 64.

Lemma pending_fee_u64 t : is_u64 (pending_fee t).
Proof.
  unfold pending_fee, getTransactionFee. destruct (fee_inputs _ _); [|width_solve]. apply wrap_range. lia.
Qed.

(** Two words compared high word first. *)
Lemma words_ltb x y : 0 <= x -> 0 <= y ->
  (y / 2 ^ 64 <? x / 2 ^ 64) || ((x / 2 ^ 64 =? y / 2 ^ 64) && (y mod 2 ^ 64 <? x mod 2 ^ 64)) = (y <? x).
Proof.
  intros Hx Hy. pose proof (Z.div_mod x (2 ^ 64) ltac:(lia)) as Ex. pose proof (Z.div_mod y (2 ^ 64) ltac:(lia)) as Ey.
  pose proof (Z.mod_pos_bound x (2 ^ 64) ltac:(lia)). pose proof (Z.mod_pos_bound y (2 ^ 64) ltac:(lia)).
  destruct (Z.ltb_spec (y / 2 ^ 64) (x / 2 ^ 64)), (Z.eqb_spec (x / 2 ^ 64) (y / 2 ^ 64)),
    (Z.ltb_spec (y mod 2 ^ 64) (x mod 2 ^ 64)), (Z.ltb_spec y x); simpl; try done; lia.
Qed.

(** The comparator returns, and it goes by the fee per byte first. *)
Lemma prefers_ok a b : sized a -> sized b -> exists r, prefers a b = Ok r /\
  (r = true -> fee_rate_ge a b) /\ (r = false -> fee_rate_ge b a).
Proof.
  unfold sized, prefers, fee_rate_ge. intros Ha Hb. pose proof (pending_fee_u64 a) as Fa. pose proof (pending_fee_u64 b) as Fb.
  rewrite !mul128_ok by (done || width_solve). okbind. cbv beta iota.
  assert (0 <= pending_fee a * memo_size b) by (apply Z.mul_nonneg_nonneg; width_solve).
  assert (0 <= pending_fee b * memo_size a) by (apply Z.mul_nonneg_nonneg; width_solve).
  rewrite (words_ltb (pending_fee a * memo_size b)) by done.
  rewrite (Z.eqb_sym (_ / _) (_ / _)), words_ltb by done. eexists. split; [reflexivity|].
  destruct (Z.ltb_spec (pending_fee b * memo_size a) (pending_fee a * memo_size b)); [split; [lia|done]|].
  destruct (Z.ltb_spec (pending_fee a * memo_size b) (pending_fee b * memo_size a)); split; intros; try lia; done.
Qed.

Lemma fee_rate_trans a b c : sized a -> sized b -> sized c -> fee_rate_ge a b -> fee_rate_ge b c -> fee_rate_ge a c.
Proof.
  unfold sized, fee_rate_ge. intros Ha Hb Hc H1 H2. apply (Z.mul_le_mono_pos_l _ _ (memo_size b)); [lia|].
  assert (pending_fee b * memo_size a * memo_size c <= pending_fee a * memo_size b * memo_size c) by (apply Z.mul_le_mono_nonneg_r; lia).
  assert (pending_fee c * memo_size b * memo_size a <= pending_fee b * memo_size c * memo_size a) by (apply Z.mul_le_mono_nonneg_r; lia).
  lia.
Qed.

(** The element goes in somewhere, and the order stays. *)
Lemma insert_cost_ok t l : sized t -> Forall sized l -> StronglySorted fee_rate_ge l ->
  exists l1 l2, l = l1 ++ l2 /\ insert_cost t l = Ok (l1 ++ t :: l2) /\ StronglySorted fee_rate_ge (l1 ++ t :: l2).
Proof.
  intros Ht. induction l as [|x l IH]; intros Hl Hs; cbn [insert_cost].
  { exists [], []. split; [reflexivity|]. split; [reflexivity|]. apply SSorted_cons; [apply SSorted_nil|apply Forall_nil_2]. }
  pose proof Hs as Hs'. apply Forall_cons in Hl as [Hx Hl]. apply StronglySorted_inv in Hs as [Hs Hall].
  destruct (prefers_ok t x Ht Hx) as (r & -> & Hr1 & Hr2). okbind. destruct r.
  - exists [], (x :: l). split_and!; [done|done|]. constructor; [done|]. constructor; [by apply Hr1|].
    rewrite Forall_forall in Hall, Hl. apply Forall_forall. intros y Hy. eapply fee_rate_trans; [done|exact Hx|auto|by apply Hr1|auto].
  - destruct (IH Hl Hs) as (l1 & l2 & -> & -> & Hs''). okbind. exists (x :: l1), l2. split_and!; [done|done|].
    simpl. constructor; [done|]. rewrite <- Permutation_middle. constructor; [by apply Hr2|done].
Qed.

Lemma sorted_delete {A} (R : A -> A -> Prop) l i : StronglySorted R l -> StronglySorted R (delete i l).
Proof.
  intros Hs. revert i. induction Hs as [|x l Hs IH Hall]; intros [|i]; simpl; [constructor|constructor|done|].
  constructor; [apply IH|]. apply Forall_forall. intros y Hy. rewrite Forall_forall in Hall. apply Hall.
  apply list_elem_of_lookup in Hy as [k Hk]. destruct (decide (k < i)%nat).
  - rewrite list_lookup_delete_lt in Hk by done. by eapply list_elem_of_lookup_2.
  - rewrite list_lookup_delete_ge in Hk by lia. by eapply list_elem_of_lookup_2.
Qed.

(** ** The invariant *)

Definition pending_images (t : PendingTransactionInfo) : list KeyImage := omap image (inputs (tx_prefix (pending_tx t))).
Definition all_images (l : list PendingTransactionInfo) : list KeyImage := concat (pending_images <$> l).
Definition key_inputs (tx : Transaction) : Prop := exists ins, inputs (tx_prefix tx) = InKey <$> ins.

(** Distinct hashes; no key image twice, and [poolState] is exactly the set of key
    images; the cost index is sorted; transactions serialize to bytes. *)
Definition of_bytes (cn_fast_hash : bytes -> Hash) (t : PendingTransactionInfo) : Prop :=
  exists blob, getTransactionBinaryArray (cachedTransaction t) = Ok blob /\ is_bytes blob /\ memo_hash t = getBinaryArrayHash cn_fast_hash blob.
Record pool_inv (cn_fast_hash : bytes -> Hash) (p : TransactionPool) : Prop := {
  pi_hashes : NoDup (memo_hash <$> pending p);
  pi_images : NoDup (all_images (pending p));
  pi_state : poolState p = list_to_set (all_images (pending p));
  pi_keys : Forall (fun t => key_inputs (pending_tx t)) (pending p);
  pi_sized : Forall sized (pending p);
  pi_bytes : Forall (of_bytes cn_fast_hash) (pending p);
  pi_sorted : StronglySorted fee_rate_ge (pending p) }.

Lemma new_pool_inv cn_fast_hash : pool_inv cn_fast_hash new_pool.
Proof. split; simpl; try constructor. Qed.

#[global] Instance all_images_Proper : Proper ((≡ₚ) ==> (≡ₚ)) all_images.
Proof.
  intros l1 l2. unfold all_images. induction 1 as [|x l1 l2 _ IH|x y l|l1 l2 l3 _ IH1 _ IH2]; simpl; [done| | |by etrans].
  - by rewrite IH.
  - rewrite !app_assoc. f_equiv. apply Permutation_app_comm.
Qed.

Lemma hasIntersections_false d s : hasIntersections d s = false <-> forall k, k ∈ s -> k ∉ d.
Proof.
  unfold hasIntersections. split.
  - intros H k Hk Hd. assert (existsb (fun ki => bool_decide (ki ∈ d)) (elements s) = true); [|congruence].
    apply existsb_exists. exists k. split; [by apply list_elem_of_In, elem_of_elements|by apply bool_decide_eq_true].
  - intros H. apply not_true_is_false. intros (k & Hk & Hd)%existsb_exists. apply bool_decide_eq_true in Hd.
    apply list_elem_of_In, elem_of_elements in Hk. by apply (H k).
Qed.

Lemma find_hash_None p h : find_hash p h = None <-> h ∉ memo_hash <$> pending p.
Proof.
  unfold find_hash. rewrite list_find_None, Forall_forall, list_elem_of_fmap. naive_solver.
Qed.

Lemma find_hash_split p h i t : find_hash p h = Some (i, t) ->
  exists l1 l2, pending p = l1 ++ t :: l2 /\ memo_hash t = h /\ delete i (pending p) = l1 ++ l2.
Proof.
  intros (Hi & Ht & _)%list_find_Some. exists (take i (pending p)), (drop (S i) (pending p)).
  split_and!; [by rewrite take_drop_middle|done|apply delete_take_drop].
Qed.

(** With distinct hashes the element found is the one there. *)
Lemma find_hash_mid p l1 t l2 : NoDup (memo_hash <$> pending p) -> pending p = l1 ++ t :: l2 ->
  find_hash p (memo_hash t) = Some (length l1, t).
Proof.
  unfold find_hash. intros N E0. rewrite E0 in *. rewrite fmap_app, fmap_cons, NoDup_app in N. destruct N as (_ & D & _).
  apply list_find_Some. split_and!; [by rewrite list_lookup_middle|done|].
  intros j y Hj Hlt E. rewrite lookup_app_l in Hj by done. apply (D (memo_hash y)).
  - apply list_elem_of_fmap_2. by eapply list_elem_of_lookup_2.
  - rewrite E. apply list_elem_of_here.
Qed.

Lemma getPaymentIdFromTxExtra_returns e : is_bytes e -> exists r, getPaymentIdFromTxExtra e = Ok r.
Proof.
  intros He. unfold getPaymentIdFromTxExtra. destruct (parseTransactionExtra_ok e He) as [[ok fields] ->]. by eexists.
Qed.

Lemma delete_middle {A} (l1 l2 : list A) x : delete (length l1) (l1 ++ x :: l2) = l1 ++ l2.
Proof. induction l1 as [|y l1 IH]; [done|]. simpl. by rewrite IH. Qed.

(** What a caller hands over with a transaction. *)
Record good_push (c : CachedTransaction) (st : TransactionValidatorState) : Prop := {
  gp_blob : exists blob, getTransactionBinaryArray c = Ok blob /\ 0 < Z.of_nat (length blob) < 2 ^ 64 /\ is_bytes blob;
  gp_extra : is_bytes (extra (tx_prefix (getTransaction c)));
  gp_keys : key_inputs (getTransaction c);
  gp_images : NoDup (omap image (inputs (tx_prefix (getTransaction c))));
  gp_state : st = list_to_set (omap image (inputs (tx_prefix (getTransaction c)))) }.

Section laws.
Context (cn_fast_hash : bytes -> Hash).

(** Adding an element the checks let through. *)
Lemma insert_inv p t l : pool_inv cn_fast_hash p -> sized t -> of_bytes cn_fast_hash t -> key_inputs (pending_tx t) -> NoDup (pending_images t) ->
  (memo_hash t ∉ memo_hash <$> pending p) -> (forall k, k ∈ pending_images t -> k ∉ all_images (pending p)) ->
  l ≡ₚ t :: pending p -> StronglySorted fee_rate_ge l ->
  pool_inv cn_fast_hash {| poolState := poolState p ∪ list_to_set (pending_images t); pending := l |}.
Proof.
  intros [I1 I2 I3 I4 I5 Ib I6] Hs Hb Hk N Hh D Hp Hsort. split; cbn [poolState pending]; rewrite ?Hp; try done.
  - rewrite fmap_cons. by apply NoDup_cons.
  - change (all_images (t :: pending p)) with (pending_images t ++ all_images (pending p)).
    apply NoDup_app. by split_and!.
  - change (all_images (t :: pending p)) with (pending_images t ++ all_images (pending p)).
    rewrite list_to_set_app_L, I3. set_solver.
  - by constructor.
  - by constructor.
  - by constructor.
Qed.

Lemma pool_push_ok now c st p : pool_inv cn_fast_hash p -> good_push c st ->
  exists b p', pushTransaction cn_fast_hash now c st p = Ok (b, p') /\ pool_inv cn_fast_hash p'
  /\ (b = false -> p' = p) /\ (b = true -> exists l1 t l2, cachedTransaction t = c /\ receiveTime t = now
        /\ pending p = l1 ++ l2 /\ pending p' = l1 ++ t :: l2
        /\ getTransactionHash cn_fast_hash c = Ok (memo_hash t)).
Proof.
  intros Hp [(blob & Hb & Hl & Hy) He Hk N ->]. unfold pushTransaction, getTransactionHash.
  destruct (getPaymentIdFromTxExtra_returns _ He) as [pid ->]. okbind. rewrite Hb. okbind.
  set (t := Build_PendingTransactionInfo _ _ _ _ _). case_bool_decide as Hf; [by exists false, p|].
  destruct (hasIntersections _ _) eqn:HI; [by exists false, p|].
  pose proof (proj1 (hasIntersections_false _ _) HI) as HI'.
  destruct (insert_cost_ok t (pending p)) as (l1 & l2 & El & -> & Hsort); [done|apply Hp|apply Hp|]. okbind.
  exists true. eexists. split; [reflexivity|].
  split_and!; [|done|intros _; by exists l1, t, l2]. apply (insert_inv p t); try done.
  - by exists blob.
  - apply find_hash_None. by apply eq_None_not_Some.
  - intros k Hkt Hka. apply (HI' k); [by apply elem_of_list_to_set|]. rewrite (pi_state _ p Hp). by apply elem_of_list_to_set.
  - by rewrite El, Permutation_middle.
Qed.

Lemma remove_mid p l1 t l2 : pool_inv cn_fast_hash p -> pending p = l1 ++ t :: l2 ->
  let p' := {| poolState := list_to_set (all_images (l1 ++ l2)); pending := l1 ++ l2 |} in
  removeTransaction (memo_hash t) p = Ok (true, p') /\ pool_inv cn_fast_hash p'.
Proof.
  intros Hp E. unfold removeTransaction. rewrite (find_hash_mid p l1 t l2 (pi_hashes _ p Hp) E).
  destruct Hp as [I1 I2 I3 I4 I5 Ib I6].
  assert (P : all_images (pending p) ≡ₚ pending_images t ++ all_images (l1 ++ l2)).
  { rewrite E. rewrite <- (Permutation_middle l1 l2 t). done. }
  assert (S' : poolState p = list_to_set (pending_images t) ∪ list_to_set (all_images (l1 ++ l2))) by (rewrite I3, P; apply list_to_set_app_L).
  rewrite P, NoDup_app in I2. destruct I2 as (N1 & D & N2). rewrite E, Forall_app, Forall_cons in I4, I5, Ib.
  destruct I4 as (K1 & [ins Ek] & K2), I5 as (S1 & _ & S2), Ib as (B1 & _ & B2).
  assert (Ei : pending_images t = keyImage <$> ins) by (unfold pending_images; rewrite Ek; clear; induction ins as [|i ins IH]; [done|]; simpl; f_equal; apply IH).
  unfold excludeFromState. fold (pending_tx t). rewrite Ek, S', Ei.
  rewrite (exclude_loop_ok ins); [|by rewrite <- Ei|intros k Hk; rewrite <- Ei in Hk; rewrite elem_of_list_to_set; by apply D]. okbind.
  rewrite E, delete_middle. split; [done|]. split; cbn [poolState pending]; try done.
  - rewrite E, fmap_app, fmap_cons in I1. rewrite fmap_app. rewrite <- Permutation_middle in I1. by apply NoDup_cons in I1 as [_ ?].
  - by apply Forall_app.
  - by apply Forall_app.
  - by apply Forall_app.
  - rewrite E in I6. rewrite <- (delete_middle l1 l2 t). by apply sorted_delete.
Qed.

Lemma remove_ok h p : pool_inv cn_fast_hash p -> exists b p', removeTransaction h p = Ok (b, p') /\ pool_inv cn_fast_hash p'
  /\ (b = false -> p' = p /\ (h ∉ memo_hash <$> pending p))
  /\ (b = true -> exists l1 t l2, pending p = l1 ++ t :: l2 /\ memo_hash t = h /\ pending p' = l1 ++ l2).
Proof.
  intros Hp. destruct (find_hash p h) as [[i t]|] eqn:E.
  - destruct (find_hash_split p h i t E) as (l1 & l2 & El & <- & Ed).
    destruct (remove_mid p l1 t l2 Hp El) as [Hr Hi]. eexists true, _. split; [exact Hr|].
    split_and!; [done|done|]. intros _. by exists l1, t, l2.
  - exists false, p. unfold removeTransaction. rewrite E. split_and!; [done|done| |done]. intros _. split; [done|by apply find_hash_None].
Qed.

(** *** Emptying *)

Lemma flush_loop l : forall p, pool_inv cn_fast_hash p -> pending p = l ->
  foldM (fun p hash => '(_, p) ← removeTransaction hash p; Ok p) p (memo_hash <$> l) = Ok new_pool.
Proof.
  induction l as [|t l IH]; intros p Hp E.
  - destruct Hp as [_ _ I3 _ _ _]. destruct p as [st l]. simpl in *. subst l. by rewrite I3.
  - rewrite fmap_cons. cbn [foldM]. destruct (remove_mid p [] t l Hp E) as [-> Hi]. okbind. by apply IH.
Qed.

Lemma flush_ok p : pool_inv cn_fast_hash p -> flush p = Ok new_pool.
Proof. intros Hp. by apply flush_loop. Qed.

(** *** Cleaning *)

Definition expired (now : Z) (timeout : Z) (t : PendingTransactionInfo) : Prop := timeout <= u64 (now - receiveTime t).
Definition bad_mixin (height : Z) (t : PendingTransactionInfo) : Prop := Mixins_validate [pending_tx t] height = false.
#[global] Instance expired_dec now to t : Decision (expired now to t).
Proof. unfold expired. apply _. Defined.
#[global] Instance bad_mixin_dec h t : Decision (bad_mixin h t).
Proof. unfold bad_mixin. apply _. Defined.

Lemma clean_one_at now height deleted w l1 t l2 : pool_inv cn_fast_hash (transactionPool w) -> pending (transactionPool w) = l1 ++ t :: l2 ->
  clean_one now height (deleted, w) (memo_hash t) =
    if decide (expired now (timeout w) t) then Undefined "assert(it != transactionHashIndex.end())"
    else if decide (bad_mixin height t) then
      w ← clean_delete now (memo_hash t) w; Ok (deleted ++ [memo_hash t], w)
    else Ok (deleted, w).
Proof.
  intros Hp E. unfold clean_one, getTransactionReceiveTime, pool_getTransaction.
  rewrite (find_hash_mid _ l1 t l2 (pi_hashes _ _ Hp) E). okbind.
  destruct (Z.leb_spec (timeout w) (u64 (now - receiveTime t))); [rewrite (decide_True (P := expired now (timeout w) t)) by done|rewrite (decide_False (P := expired now (timeout w) t)) by (unfold expired; lia)].
  - unfold clean_delete. destruct (remove_mid _ l1 t l2 Hp E) as [-> Hi]. okbind. cbn [transactionPool].
    assert (find_hash {| poolState := list_to_set (all_images (l1 ++ l2)); pending := l1 ++ l2 |} (memo_hash t) = None) as ->; [|done].
    apply find_hash_None. cbn [pending]. pose proof (pi_hashes _ _ Hp) as N. rewrite E, fmap_app, fmap_cons, <- Permutation_middle in N.
    apply NoDup_cons in N as [N _]. by rewrite fmap_app.
  - okbind. rewrite (find_hash_mid _ l1 t l2 (pi_hashes _ _ Hp) E). okbind. fold (pending_tx t).
    case_decide as B; unfold bad_mixin in B; [by rewrite B|]. apply not_false_is_true in B. by rewrite B.
Qed.

Lemma clean_loop now height l : forall kept deleted w, pool_inv cn_fast_hash (transactionPool w) ->
  pending (transactionPool w) = kept ++ l -> Forall (fun t => ~ expired now (timeout w) t) l ->
  exists w', foldM (clean_one now height) (deleted, w) (memo_hash <$> l)
      = Ok (deleted ++ (memo_hash <$> filter (bad_mixin height) l), w')
    /\ pool_inv cn_fast_hash (transactionPool w') /\ pending (transactionPool w') = kept ++ filter (fun t => ~ bad_mixin height t) l.
Proof.
  induction l as [|t l IH]; intros kept deleted w Hp E F.
  - exists w. simpl. rewrite !app_nil_r. rewrite app_nil_r in E. done.
  - apply Forall_cons in F as [Ft F]. rewrite fmap_cons. cbn [foldM]. rewrite (clean_one_at _ _ _ _ _ _ _ Hp E).
    rewrite decide_False by done. rewrite !filter_cons. case_decide as B.
    + unfold clean_delete. destruct (remove_mid _ kept t l Hp E) as [-> Hi]. okbind.
      rewrite decide_False by (intros N; by apply N). set (w1 := Build_CleanWrapper _ _ _).
      destruct (IH kept (deleted ++ [memo_hash t]) w1) as (w' & E' & H'); [done|done|done|]. exists w'. split; [|done].
      rewrite E'. by rewrite <- app_assoc.
    + okbind. rewrite decide_True by done. destruct (IH (kept ++ [t]) deleted w) as (w' & E' & Hi' & P'); [done|by rewrite <- app_assoc|done|].
      exists w'. split_and!; [done|done|]. by rewrite P', <- app_assoc.
Qed.

Lemma clean_loop_expired now height l : forall kept deleted w, pool_inv cn_fast_hash (transactionPool w) ->
  pending (transactionPool w) = kept ++ l -> Exists (expired now (timeout w)) l ->
  foldM (clean_one now height) (deleted, w) (memo_hash <$> l) = Undefined "assert(it != transactionHashIndex.end())".
Proof.
  induction l as [|t l IH]; intros kept deleted w Hp E F; [by apply Exists_nil in F|].
  rewrite fmap_cons. cbn [foldM]. rewrite (clean_one_at _ _ _ _ _ _ _ Hp E). case_decide as Ht; [done|].
  apply Exists_cons in F as [F|F]; [done|]. case_decide as B.
  - unfold clean_delete. destruct (remove_mid _ kept t l Hp E) as [-> Hi]. okbind. by apply (IH kept).
  - okbind. apply (IH (kept ++ [t])); [done|by rewrite <- app_assoc|done].
Qed.

End laws.

(** ** Properties *)

Section properties.
Context (cn_fast_hash : bytes -> Hash).

(** What the owner of the pool may do. *)
Inductive pool_step : TransactionPool -> TransactionPool -> Prop :=
| ps_push now c st p b p' : good_push c st -> pushTransaction cn_fast_hash now c st p = Ok (b, p') -> pool_step p p'
| ps_remove h p b p' : removeTransaction h p = Ok (b, p') -> pool_step p p'
| ps_flush p p' : flush p = Ok p' -> pool_step p p'.

Lemma pool_step_inv p p' : pool_step p p' -> pool_inv cn_fast_hash p -> pool_inv cn_fast_hash p'.
Proof.
  destruct 1 as [now c st p b p' Hg H|h p b p' H|p p' H]; intros Hp.
  - destruct (pool_push_ok cn_fast_hash now c st p Hp Hg) as (b1 & p1 & E & Hi & _). rewrite E in H. by simplify_eq.
  - destruct (remove_ok _ h p Hp) as (b1 & p1 & E & Hi & _). rewrite E in H. by simplify_eq.
  - rewrite (flush_ok _ p Hp) in H. simplify_eq. apply new_pool_inv.
Qed.

Lemma pool_reachable_inv p : rtc pool_step new_pool p -> pool_inv cn_fast_hash p.
Proof.
  intros H. assert (G : forall q, rtc pool_step q p -> pool_inv cn_fast_hash q -> pool_inv cn_fast_hash p).
  { induction 1; eauto using pool_step_inv. }
  by apply (G new_pool), new_pool_inv.
Qed.

(** C26: in every pool reached by pushing transactions with their key images, removing
    and flushing, hashes are distinct, no key image is spent by two transactions, the
    pool state is exactly the set of spent images, transactions come in order of
    falling fee per byte, and every further operation returns: no assertion of
    [removeTransaction] fails. *)
Theorem pool_consistent p : rtc pool_step new_pool p ->
  NoDup (getTransactionHashes p) /\ NoDup (all_images (pending p))
  /\ poolState p = list_to_set (all_images (pending p))
  /\ StronglySorted fee_rate_ge (pending p)
  /\ (forall h, is_ok (removeTransaction h p) = true) /\ flush p = Ok new_pool
  /\ (forall now c st, good_push c st -> is_ok (pushTransaction cn_fast_hash now c st p) = true).
Proof.
  intros Hp%pool_reachable_inv. split_and!; [apply Hp..| |by eapply flush_ok|].
  - intros h. by destruct (remove_ok _ h p Hp) as (b & p' & -> & _).
  - intros now c st Hg. by destruct (pool_push_ok cn_fast_hash now c st p Hp Hg) as (b & p' & -> & _).
Qed.

(** removing a transaction that was just pushed gives the pool back as it was;
    a push that is refused changes nothing. *)
Theorem push_remove_roundtrip now c st p b p' h : rtc pool_step new_pool p -> good_push c st ->
  pushTransaction cn_fast_hash now c st p = Ok (b, p') -> getTransactionHash cn_fast_hash c = Ok h ->
  if b then removeTransaction h p' = Ok (true, p) else p' = p.
Proof.
  intros Hp%pool_reachable_inv Hg H Hh.
  destruct (pool_push_ok cn_fast_hash now c st p Hp Hg) as (b1 & p1 & E & Hi & F & T). rewrite E in H. simplify_eq.
  destruct b; [|by apply F]. destruct (T eq_refl) as (l1 & t & l2 & _ & _ & El & El' & Et). rewrite Et in Hh. simplify_eq.
  destruct (remove_mid _ p' l1 t l2 Hi El') as [-> _]. pose proof (pi_state _ _ Hp) as S0. destruct p as [st0 l]. simpl in *.
  by rewrite S0, El.
Qed.

(** when no transaction is older than the timeout, cleaning removes exactly the
    transactions whose mixin is not valid at the height, reports them, and keeps the
    others in their order. *)
Theorem clean_removes_bad_mixin now height w : rtc pool_step new_pool (transactionPool w) ->
  Forall (fun t => ~ expired now (timeout w) t) (pending (transactionPool w)) ->
  exists deleted w', clean now height w = Ok (deleted, w')
  /\ deleted = memo_hash <$> filter (bad_mixin height) (pending (transactionPool w))
  /\ pending (transactionPool w') = filter (fun t => ~ bad_mixin height t) (pending (transactionPool w)).
Proof.
  intros Hp%pool_reachable_inv F. destruct (clean_loop _ now height (pending (transactionPool w)) [] [] w Hp eq_refl F) as (w' & E & _ & P).
  unfold clean, getTransactionHashes. rewrite E. okbind. eexists _, _. split_and!; [reflexivity|done|done].
Qed.

(** one transaction older than the timeout is enough for the cleaning to look up
    the transaction it has just removed: the assertion fails, and without assertions
    the end iterator is dereferenced. *)
Theorem clean_expired_undefined now height w : rtc pool_step new_pool (transactionPool w) ->
  Exists (expired now (timeout w)) (pending (transactionPool w)) ->
  clean now height w = Undefined "assert(it != transactionHashIndex.end())".
Proof.
  intros Hp%pool_reachable_inv F. unfold clean, getTransactionHashes.
  by rewrite (clean_loop_expired _ now height (pending (transactionPool w)) [] [] w Hp eq_refl F).
Qed.

End properties.

(** the priority comparator of the cost index is not a strict order: every
    transaction is preferred to itself, so equal elements compare as less both ways. *)
Theorem comparator_not_strict a : sized a -> prefers a a = Ok true.
Proof.
  intros Ha. unfold prefers. pose proof (pending_fee_u64 a). unfold sized in Ha. rewrite !mul128_ok by (done || width_solve). okbind.
  cbv beta iota. rewrite !Z.ltb_irrefl. rewrite !andb_false_r. cbn [orb].
  assert (ratio_gt (input_output_ratio (pending_tx a)) (input_output_ratio (pending_tx a)) = false) as ->; [|done].
  unfold ratio_gt. destruct (input_output_ratio _); [apply Z.ltb_irrefl|done].
Qed.

(** ** Witnesses *)

Lemma sample_good_push : good_push sample_cached sample_images.
Proof.
  split.
  - exists sample_blob. split_and!; by_compute.
  - by_compute.
  - by exists [{| ki_amount := 500; outputIndexes := [3; 300]; keyImage := replicate 32 1 |};
               {| ki_amount := 500; outputIndexes := [3; 300]; keyImage := replicate 32 2 |}].
  - by_compute.
  - by_compute.
Qed.

Definition sample_pending : PendingTransactionInfo :=
  {| receiveTime := 1000; cachedTransaction := sample_cached; paymentId := None; memo_hash := toy_hash sample_blob;
     memo_size := Z.of_nat (length sample_blob) |}.
Definition sample_pool : TransactionPool := {| poolState := sample_images; pending := [sample_pending] |}.

Lemma sample_pushed : pushTransaction toy_hash 1000 sample_cached sample_images new_pool = Ok (true, sample_pool).
Proof. by_compute. Qed.

Lemma sample_reachable : rtc (pool_step toy_hash) new_pool sample_pool.
Proof. eapply rtc_once, ps_push; [exact sample_good_push|exact sample_pushed]. Qed.

Lemma pool_consistent_witness : flush sample_pool = Ok new_pool /\ NoDup (all_images (pending sample_pool)).
Proof. split; apply (pool_consistent toy_hash sample_pool sample_reachable). Defined.

Lemma push_remove_roundtrip_witness : removeTransaction (toy_hash sample_blob) sample_pool = Ok (true, new_pool).
Proof.
  apply (push_remove_roundtrip toy_hash 1000 sample_cached sample_images new_pool true sample_pool);
    [apply rtc_refl|exact sample_good_push|exact sample_pushed|reflexivity].
Defined.

Definition sample_wrapper : CleanWrapper :=
  {| transactionPool := sample_pool; recentlyDeletedTransactions := ∅; timeout := 86400 |}.

Lemma clean_removes_bad_mixin_witness : exists deleted w', clean 2000 100 sample_wrapper = Ok (deleted, w')
  /\ deleted = memo_hash <$> filter (bad_mixin 100) (pending sample_pool)
  /\ pending (transactionPool w') = filter (fun t => ~ bad_mixin 100 t) (pending sample_pool).
Proof.
  apply (clean_removes_bad_mixin toy_hash 2000 100 sample_wrapper); [exact sample_reachable|].
  apply Forall_singleton. by_compute.
Defined.

Lemma clean_expired_undefined_witness :
  clean 100000 100 sample_wrapper = Undefined "assert(it != transactionHashIndex.end())".
Proof.
  apply (clean_expired_undefined toy_hash 100000 100 sample_wrapper); [exact sample_reachable|].
  apply Exists_cons_hd. by_compute.
Defined.

Lemma comparator_not_strict_witness : prefers sample_pending sample_pending = Ok true.
Proof. apply comparator_not_strict. by_compute. Defined.
