(* ===== verification/BlockchainCache.v ===== *)
(** * BlockchainCache: [cryptonotecore/BlockchainCache.cpp]

    A blockchain cache is a segment of consecutive blocks with a pointer to the
    segment below it.  Here a cache is the list of segments from itself down to the
    root; [this] is the head and [parent] the tail.  Only the head is written.  The
    multi-index containers are lists or maps with the lookups the code makes.  Also
    [MemoryBlockchainStorage.cpp], [UpgradeManager.cpp] and [common/Math.h]. *)

From Stdlib Require Import ZArith Lia.
From stdpp Require Import base tactics list numbers strings gmap fin_maps sorting.
From S2P Require Import Prelude Config Difficulty Types Serializer TxSerialization TransactionExtra BlockSerialization FormatUtils Currency Validate Pool.

Local Open Scope Z_scope.

(** ** Data *)

Record CachedBlockInfo := {
  bi_blockHash : Hash;
  bi_timestamp : Z;
  bi_cumulativeDifficulty : Z;
  bi_alreadyGeneratedCoins : Z;
  bi_alreadyGeneratedTransactions : Z;
  bi_blockSize : Z }.

Record PackedOutIndex := { po_blockIndex : Z; po_transactionIndex : Z; po_outputIndex : Z }.

Record CachedTransactionInfo := {
  ct_blockIndex : Z;
  ct_transactionIndex : Z;
  ct_transactionHash : Hash;
  ct_unlockTime : Z;
  ct_outputs : list TransactionOutputTarget;
  ct_globalIndexes : list Z }.

Record OutputGlobalIndexesForAmount := {
  oi_startIndex : Z;
  oi_outputs : list PackedOutIndex }.

Record Segment := {
  seg_startIndex : Z;
  seg_blockInfos : list CachedBlockInfo;
  seg_spentKeyImages : gmap KeyImage Z;
  seg_transactions : list CachedTransactionInfo;
  seg_keyOutputsGlobalIndexes : gmap Z OutputGlobalIndexesForAmount;
  seg_paymentIds : list (Hash * Hash);
  seg_storage : list RawBlock }.

Abbreviation Cache := (list Segment).

Definition new_segment (startIndex : Z) : Segment :=
  {| seg_startIndex := startIndex; seg_blockInfos := []; seg_spentKeyImages := ∅; seg_transactions := [];
     seg_keyOutputsGlobalIndexes := ∅; seg_paymentIds := []; seg_storage := [] |}.

Definition set_blockInfos (l : list CachedBlockInfo) (s : Segment) : Segment :=
  {| seg_startIndex := seg_startIndex s; seg_blockInfos := l; seg_spentKeyImages := seg_spentKeyImages s;
     seg_transactions := seg_transactions s; seg_keyOutputsGlobalIndexes := seg_keyOutputsGlobalIndexes s;
     seg_paymentIds := seg_paymentIds s; seg_storage := seg_storage s |}.
Definition set_spentKeyImages (m : gmap KeyImage Z) (s : Segment) : Segment :=
  {| seg_startIndex := seg_startIndex s; seg_blockInfos := seg_blockInfos s; seg_spentKeyImages := m;
     seg_transactions := seg_transactions s; seg_keyOutputsGlobalIndexes := seg_keyOutputsGlobalIndexes s;
     seg_paymentIds := seg_paymentIds s; seg_storage := seg_storage s |}.
Definition set_transactions (l : list CachedTransactionInfo) (s : Segment) : Segment :=
  {| seg_startIndex := seg_startIndex s; seg_blockInfos := seg_blockInfos s; seg_spentKeyImages := seg_spentKeyImages s;
     seg_transactions := l; seg_keyOutputsGlobalIndexes := seg_keyOutputsGlobalIndexes s;
     seg_paymentIds := seg_paymentIds s; seg_storage := seg_storage s |}.
Definition set_keyOutputs (m : gmap Z OutputGlobalIndexesForAmount) (s : Segment) : Segment :=
  {| seg_startIndex := seg_startIndex s; seg_blockInfos := seg_blockInfos s; seg_spentKeyImages := seg_spentKeyImages s;
     seg_transactions := seg_transactions s; seg_keyOutputsGlobalIndexes := m;
     seg_paymentIds := seg_paymentIds s; seg_storage := seg_storage s |}.
Definition set_paymentIds (l : list (Hash * Hash)) (s : Segment) : Segment :=
  {| seg_startIndex := seg_startIndex s; seg_blockInfos := seg_blockInfos s; seg_spentKeyImages := seg_spentKeyImages s;
     seg_transactions := seg_transactions s; seg_keyOutputsGlobalIndexes := seg_keyOutputsGlobalIndexes s;
     seg_paymentIds := l; seg_storage := seg_storage s |}.
Definition set_storage (l : list RawBlock) (s : Segment) : Segment :=
  {| seg_startIndex := seg_startIndex s; seg_blockInfos := seg_blockInfos s; seg_spentKeyImages := seg_spentKeyImages s;
     seg_transactions := seg_transactions s; seg_keyOutputsGlobalIndexes := seg_keyOutputsGlobalIndexes s;
     seg_paymentIds := seg_paymentIds s; seg_storage := l |}.

(** [std::lower_bound] on a range that the predicate [less] partitions: the first
    position where it fails. *)
Definition lower_bound_by {A} (less : A -> bool) (l : list A) : nat :=
  match list_find (fun x => less x = false) l with Some (i, _) => i | None => length l end.

(** ** [common/Math.h] *)

Definition medianValue (v : list Z) : Z :=
  match v with
  | [] => 0
  | [x] => x
  | _ =>
      let n := (length v / 2)%nat in
      let v := merge_sort Z.le v in
      if Nat.odd (length v) then nth n v 0
      else u64 (nth (n - 1) v 0 + nth n v 0) / 2
  end.

(** ** [UpgradeManager] with its simple detectors, newest last *)

Definition UpgradeManager_getBlockMajorVersion (detectors : list (Z * Z)) (blockIndex : Z) : Z :=
  match list_find (fun d : Z * Z => d.2 < blockIndex) (reverse detectors) with
  | Some (_, (targetVersion, _)) => targetVersion
  | None => BLOCK_MAJOR_VERSION_1
  end.

Definition upgrade_detectors (c : Currency) : list (Z * Z) :=
  (fun v => (v, upgradeHeight c v)) <$> [BLOCK_MAJOR_VERSION_2; BLOCK_MAJOR_VERSION_3; BLOCK_MAJOR_VERSION_4;
                                         BLOCK_MAJOR_VERSION_5; BLOCK_MAJOR_VERSION_6; BLOCK_MAJOR_VERSION_7].
Definition getBlockMajorVersionForHeight (c : Currency) (height : Z) : Z :=
  UpgradeManager_getBlockMajorVersion (upgrade_detectors c) (u32 height).

(** ** Queries *)

Definition null_parent {A} : outcome A := Undefined "assert(parent != nullptr)".

Definition getBlockCount (s : Segment) : Z := u32 (Z.of_nat (length (seg_blockInfos s))).
Definition storage_getBlockCount (s : Segment) : Z := u32 (Z.of_nat (length (seg_storage s))).

Definition getTopBlockIndex (s : Segment) : outcome Z :=
  _ ← assert (negb (bool_decide (length (seg_blockInfos s) = 0%nat))) "assert(!blockInfos.empty())";
  Ok (u32 (seg_startIndex s + storage_getBlockCount s - 1)).

Definition cache_hasBlock (s : Segment) (blockHash : Hash) : bool :=
  existsb (fun b => bool_decide (bi_blockHash b = blockHash)) (seg_blockInfos s).

Definition cache_getBlockIndex (s : Segment) (blockHash : Hash) : outcome Z :=
  match list_find (fun b => bi_blockHash b = blockHash) (seg_blockInfos s) with
  | None => Throw "no such block"
  | Some (i, _) => Ok (u32 (Z.of_nat i + seg_startIndex s))
  end.

(** [blockInfos.get<BlockIndexTag>().at(blockIndex - startIndex)] *)
Definition block_at (s : Segment) (blockIndex : Z) : outcome CachedBlockInfo :=
  match seg_blockInfos s !! Z.to_nat (u32 (blockIndex - seg_startIndex s)) with
  | Some b => Ok b
  | None => Throw "out_of_range"
  end.

(** Find the segment by index, the way every per-block query does. *)
Fixpoint info_at (c : Cache) (blockIndex : Z) : outcome CachedBlockInfo :=
  match c with
  | [] => null_parent
  | s :: ps => if blockIndex <? seg_startIndex s then info_at ps blockIndex else block_at s blockIndex
  end.

Fixpoint cache_getBlockHash (c : Cache) (blockIndex : Z) : outcome Hash :=
  match c with
  | [] => null_parent
  | s :: ps =>
      if blockIndex <? seg_startIndex s then cache_getBlockHash ps blockIndex
      else
        _ ← assert (u32 (blockIndex - seg_startIndex s) <? Z.of_nat (length (seg_blockInfos s)))
              "assert(blockIndex - startIndex < blockInfos.size())";
        b ← block_at s blockIndex; Ok (bi_blockHash b)
  end.
Definition getAlreadyGeneratedCoins (c : Cache) (blockIndex : Z) : outcome Z :=
  b ← info_at c blockIndex; Ok (bi_alreadyGeneratedCoins b).
Definition getAlreadyGeneratedTransactions (c : Cache) (blockIndex : Z) : outcome Z :=
  b ← info_at c blockIndex; Ok (bi_alreadyGeneratedTransactions b).

(** This one does not ask the parent. *)
Definition getCurrentCumulativeDifficulty (s : Segment) (blockIndex : Z) : outcome Z :=
  top ← getTopBlockIndex s;
  _ ← assert (blockIndex <=? top) "assert(blockIndex <= getTopBlockIndex())";
  b ← block_at s blockIndex; Ok (bi_cumulativeDifficulty b).

Fixpoint checkIfSpent_at (c : Cache) (keyImage : KeyImage) (blockIndex : Z) : outcome bool :=
  match c with
  | [] => null_parent
  | s :: ps =>
      if blockIndex <? seg_startIndex s then checkIfSpent_at ps keyImage blockIndex
      else
        match seg_spentKeyImages s !! keyImage with
        | None => match ps with [] => Ok false | _ => checkIfSpent_at ps keyImage blockIndex end
        | Some b => Ok (b <=? blockIndex)
        end
  end.

Fixpoint checkIfSpent_any (c : Cache) (keyImage : KeyImage) : bool :=
  match c with
  | [] => false
  | s :: ps => bool_decide (is_Some (seg_spentKeyImages s !! keyImage)) || checkIfSpent_any ps keyImage
  end.

(** The last [count] blocks up to [blockIndex], oldest first. *)
Fixpoint getLastUnits (c : Cache) (count : nat) (blockIndex : Z) (useGenesis : bool) (pred : CachedBlockInfo -> Z) : outcome (list Z) :=
  match c with
  | [] => null_parent
  | s :: ps =>
      top ← getTopBlockIndex s;
      _ ← assert (blockIndex <=? top) "assert(blockIndex <= getTopBlockIndex())";
      let to := if blockIndex <? seg_startIndex s then 0%nat else Z.to_nat (u32 (blockIndex - seg_startIndex s + 1)) in
      let realCount := Nat.min count to in
      let from := (to - realCount)%nat in
      let skip := negb useGenesis && bool_decide (from = 0%nat) && negb (bool_decide (realCount = 0%nat))
                  && bool_decide (length ps = 0%nat) in
      let from' := if skip then (from + 1)%nat else from in
      let realCount' := if skip then (realCount - 1)%nat else realCount in
      result ← (match ps with
                | p :: _ =>
                    if (realCount' <? count)%nat then
                      ptop ← getTopBlockIndex p;
                      getLastUnits ps (count - realCount') (Z.min blockIndex ptop) useGenesis pred
                    else Ok []
                | [] => Ok []
                end);
      Ok (result ++ (pred <$> take (to - from') (drop from' (seg_blockInfos s))))
  end.

Definition getLastTimestamps (c : Cache) (count : nat) (blockIndex : Z) (useGenesis : bool) : outcome (list Z) :=
  getLastUnits c count blockIndex useGenesis bi_timestamp.
Definition getLastBlocksSizes (c : Cache) (count : nat) (blockIndex : Z) (useGenesis : bool) : outcome (list Z) :=
  getLastUnits c count blockIndex useGenesis bi_blockSize.
Definition getLastCumulativeDifficulties (c : Cache) (count : nat) (blockIndex : Z) (useGenesis : bool) : outcome (list Z) :=
  getLastUnits c count blockIndex useGenesis bi_cumulativeDifficulty.

Definition DIFFICULTY_BLOCKS_COUNT : Z := DIFFICULTY_WINDOW + 1.

Definition cache_top (c : Cache) : outcome Z :=
  match c with [] => null_parent | s :: _ => getTopBlockIndex s end.

Definition getDifficultyForNextBlock (currency : Currency) (c : Cache) (blockIndex : Z) : outcome Z :=
  top ← cache_top c;
  _ ← assert (blockIndex <=? top) "assert(blockIndex <= getTopBlockIndex())";
  let nextBlockMajorVersion := getBlockMajorVersionForHeight currency (blockIndex + 1) in
  timestamps ← getLastTimestamps c (Z.to_nat DIFFICULTY_BLOCKS_COUNT) blockIndex false;
  commulativeDifficulties ← getLastCumulativeDifficulties c (Z.to_nat DIFFICULTY_BLOCKS_COUNT) blockIndex false;
  getNextDifficulty nextBlockMajorVersion blockIndex timestamps commulativeDifficulties.

Fixpoint getKeyOutputsCountForAmount (c : Cache) (amount blockIndex : Z) : Z :=
  match c with
  | [] => 0
  | s :: ps =>
      match seg_keyOutputsGlobalIndexes s !! amount with
      | None => getKeyOutputsCountForAmount ps amount blockIndex
      | Some e => oi_startIndex e + Z.of_nat (lower_bound_by (fun o => po_blockIndex o <? blockIndex) (oi_outputs e))
      end
  end.

(** The flag and the height. *)
Fixpoint getBlockHeightForTimestamp (c : Cache) (timestamp : Z) : outcome (bool * Z) :=
  match c with
  | [] => null_parent
  | s :: ps =>
      back ← from_option "back() of an empty index" (last (seg_blockInfos s));
      if bi_timestamp back <? timestamp then Ok (false, 0)
      else
        front ← from_option "front() of an empty index" (head (seg_blockInfos s));
        if timestamp <=? bi_timestamp front
        then Ok (true, seg_startIndex s + Z.of_nat (lower_bound_by (fun b => bi_timestamp b <? timestamp) (seg_blockInfos s)))
        else match ps with [] => Ok (false, 0) | _ => getBlockHeightForTimestamp ps timestamp end
  end.

Definition INVALID_BLOCK_INDEX : Z := 2 ^ 32 - 1.

Fixpoint getTimestampLowerBoundBlockIndex (c : Cache) (timestamp : Z) : outcome Z :=
  match c with
  | [] => null_parent
  | s :: ps =>
      back ← from_option "assert(!blockInfos.empty())" (last (seg_blockInfos s));
      if bi_timestamp back <? timestamp then Throw "no blocks for this timestamp, too large"
      else
        front ← from_option "assert(!blockInfos.empty())" (head (seg_blockInfos s));
        if bi_timestamp front <? timestamp
        then Ok (u32 (seg_startIndex s + Z.of_nat (lower_bound_by (fun b => bi_timestamp b <? timestamp) (seg_blockInfos s))))
        else
          match ps with
          | [] => Ok 0
          | _ =>
              r ← try_catch (getTimestampLowerBoundBlockIndex ps timestamp);
              Ok (match r with
                  | None => seg_startIndex s
                  | Some blockIndex => if negb (blockIndex =? INVALID_BLOCK_INDEX) then blockIndex else seg_startIndex s
                  end)
          end
  end.

(** ** Spending outputs *)

Section chain.
Context (currency : Currency) (cn_fast_hash : bytes -> Hash).
(** [time(nullptr)] *)
Context (now : Z).

Definition isTransactionSpendTimeUnlocked (c : Cache) (unlockTime blockIndex : Z) : outcome bool :=
  if unlockTime <? m_maxBlockHeight currency then
    Ok (unlockTime <=? u64 (blockIndex + m_lockedTxAllowedDeltaBlocks currency))
  else if TRANSACTION_INPUT_BLOCKTIME_VALIDATION_HEIGHT <=? blockIndex then
    top ← cache_top c;
    lastBlockTimestamps ← getLastTimestamps c 1 top false;
    match lastBlockTimestamps with
    | [] => Throw "out_of_range"
    | t :: _ => Ok (unlockTime <=? u64 (t + m_lockedTxAllowedDeltaSeconds currency))
    end
  else Ok (unlockTime <=? u64 (now + m_lockedTxAllowedDeltaSeconds currency)).

Definition is_sorted (l : list Z) : bool := bool_decide (Sorted Z.le l).
(** [std::adjacent_find(l) == end] *)
Fixpoint no_adjacent (l : list Z) : bool :=
  match l with
  | x :: (y :: _) as l' => negb (x =? y) && no_adjacent l'
  | _ => true
  end.

(** [transactions.get<TransactionInBlockTag>().find(...)] *)
Definition find_tx (s : Segment) (o : PackedOutIndex) : option CachedTransactionInfo :=
  snd <$> list_find (fun t => ct_blockIndex t = po_blockIndex o /\ ct_transactionIndex t = po_transactionIndex o) (seg_transactions s).

(** The loop over the indexes of this segment; [pred] may change a state. *)
Fixpoint extract_loop {S} (s : Segment) (e : OutputGlobalIndexesForAmount) (blockIndex : Z)
    (pred : S -> CachedTransactionInfo -> PackedOutIndex -> outcome (ExtractOutputKeysResult * S)) (st : S) (l : list Z)
    : outcome (ExtractOutputKeysResult * S) :=
  match l with
  | [] => Ok (SUCCESS, st)
  | globalIndex :: l =>
      let k := u32 (globalIndex - oi_startIndex e) in
      match oi_outputs e !! Z.to_nat k with
      | None => Ok (INVALID_GLOBAL_INDEX, st)
      | Some outputIndex =>
          _ ← assert (seg_startIndex s <=? po_blockIndex outputIndex) "assert(outputIndex.blockIndex >= startIndex)";
          _ ← assert (po_blockIndex outputIndex <=? blockIndex) "assert(outputIndex.blockIndex <= blockIndex)";
          match find_tx s outputIndex with
          | None => Ok (INVALID_GLOBAL_INDEX, st)
          | Some info =>
              '(ret, st) ← pred st info outputIndex;
              match ret with SUCCESS => extract_loop s e blockIndex pred st l | _ => Ok (ret, st) end
          end
      end
  end.

Definition check_indexes (globalIndexes : list Z) : outcome unit :=
  _ ← assert (negb (bool_decide (globalIndexes = []))) "assert(!globalIndexes.isEmpty())";
  _ ← assert (is_sorted globalIndexes) "assert(std::is_sorted(globalIndexes))";
  assert (no_adjacent globalIndexes) "assert(std::adjacent_find(globalIndexes) == end)".

Fixpoint extractKeyOutputs {S} (c : Cache) (amount blockIndex : Z) (globalIndexes : list Z)
    (pred : S -> CachedTransactionInfo -> PackedOutIndex -> outcome (ExtractOutputKeysResult * S)) (st : S)
    : outcome (ExtractOutputKeysResult * S) :=
  match c with
  | [] => null_parent
  | s :: ps =>
      _ ← check_indexes globalIndexes;
      let ask_parent (l : list Z) := match ps with [] => Ok (INVALID_GLOBAL_INDEX, st)
                                             | _ => extractKeyOutputs ps amount blockIndex l pred st end in
      match seg_keyOutputsGlobalIndexes s !! amount with
      | None => ask_parent globalIndexes
      | Some e =>
          if blockIndex <? seg_startIndex s then ask_parent globalIndexes
          else
            let offset := lower_bound_by (fun i => i <? oi_startIndex e) globalIndexes in
            '(result, st) ← (if bool_decide (offset = 0%nat) then Ok (SUCCESS, st)
                             else match ps with
                                  | [] => null_parent
                                  | _ => extractKeyOutputs ps amount blockIndex (take offset globalIndexes) pred st
                                  end);
            match result with
            | SUCCESS =>
                _ ← assert (negb (bool_decide (length (oi_outputs e) = 0%nat))) "assert(!outputs.empty())";
                extract_loop s e blockIndex pred st (drop offset globalIndexes)
            | _ => Ok (result, st)
            end
      end
  end.

(** The callback runs on the object that was called, so it looks at the whole cache. *)
Definition take_key (c : Cache) (blockIndex : Z) (publicKeys : list PublicKey) (info : CachedTransactionInfo) (index : PackedOutIndex)
    : outcome (ExtractOutputKeysResult * list PublicKey) :=
  unlocked ← isTransactionSpendTimeUnlocked c (ct_unlockTime info) blockIndex;
  if negb unlocked then Ok (OUTPUT_LOCKED, publicKeys)
  else
    t ← from_option "info.outputs[index.outputIndex]" (ct_outputs info !! Z.to_nat (po_outputIndex index));
    match t with TargetKey k => Ok (SUCCESS, publicKeys ++ [ko_key k]) end.

Definition cache_extractKeyOutputKeys (c : Cache) (amount blockIndex : Z) (globalIndexes : list Z)
    : outcome (ExtractOutputKeysResult * list PublicKey) :=
  _ ← check_indexes globalIndexes;
  extractKeyOutputs c amount blockIndex globalIndexes (take_key c blockIndex) [].

(** ** Adding a block *)

Definition upd_head (f : Segment -> Segment) (c : Cache) : Cache :=
  match c with [] => [] | s :: ps => f s :: ps end.

(** [insert] does nothing when the image is there already. *)
Definition addSpentKeyImage (c : Cache) (keyImage : KeyImage) (blockIndex : Z) : outcome Cache :=
  spent ← checkIfSpent_at c keyImage (u32 (blockIndex - 1));
  _ ← assert (negb spent) "assert(!checkIfSpent(keyImage, blockIndex - 1))";
  Ok (upd_head (fun s => match seg_spentKeyImages s !! keyImage with
                         | Some _ => s
                         | None => set_spentKeyImages (<[keyImage := blockIndex]> (seg_spentKeyImages s)) s
                         end) c).

(** The new cache and the global index. *)
Definition insertKeyOutputToGlobalIndex (c : Cache) (amount : Z) (output : PackedOutIndex) (blockIndex : Z) : outcome (Cache * Z) :=
  match c with
  | [] => null_parent
  | s :: ps =>
      let e := match seg_keyOutputsGlobalIndexes s !! amount with
               | Some e => {| oi_startIndex := oi_startIndex e; oi_outputs := oi_outputs e ++ [output] |}
               | None =>
                   {| oi_startIndex := match ps with [] => 0 | _ => u32 (getKeyOutputsCountForAmount ps amount blockIndex) end;
                      oi_outputs := [output] |}
               end in
      Ok (set_keyOutputs (<[amount := e]> (seg_keyOutputsGlobalIndexes s)) s :: ps,
          u32 (oi_startIndex e + u32 (Z.of_nat (length (oi_outputs e))) - 1))
  end.

(** The outputs of one transaction, numbered from [outputCount]. *)
Fixpoint push_outputs (c : Cache) (blockIndex txIndex outputCount : Z) (l : list TransactionOutput) : outcome (Cache * list Z) :=
  match l with
  | [] => Ok (c, [])
  | o :: l =>
      let poi := {| po_blockIndex := blockIndex; po_transactionIndex := txIndex; po_outputIndex := u16 outputCount |} in
      '(c, g) ← insertKeyOutputToGlobalIndex c (out_amount o) poi blockIndex;
      '(c, gs) ← push_outputs c blockIndex txIndex (outputCount + 1) l;
      Ok (c, g :: gs)
  end.

Definition cache_hasTransaction (s : Segment) (transactionHash : Hash) : bool :=
  existsb (fun t => bool_decide (ct_transactionHash t = transactionHash)) (seg_transactions s).

(** [transactions.get<TransactionHashTag>().find(transactionHash)] *)
Definition find_by_hash (s : Segment) (h : Hash) : option CachedTransactionInfo :=
  snd <$> list_find (fun t => ct_transactionHash t = h) (seg_transactions s).
Definition cache_getTransactionGlobalIndexes (s : Segment) (transactionHash : Hash) : option (list Z) :=
  ct_globalIndexes <$> find_by_hash s transactionHash.

Definition cache_pushTransaction (c : Cache) (tx : CachedTransaction) (blockIndex transactionInBlockIndex : Z) : outcome Cache :=
  h ← getTransactionHash cn_fast_hash tx;
  let t := tx_prefix (getTransaction tx) in
  _ ← assert (Z.of_nat (length (outputs t)) <=? 65535) "assert(tx.outputs.size() <= uint16_t max)";
  '(c, gs) ← push_outputs c blockIndex transactionInBlockIndex 0 (outputs t);
  match c with
  | [] => null_parent
  | s :: ps =>
      _ ← assert (negb (cache_hasTransaction s h)) "assert(transactions.count(transactionHash) == 0)";
      let info := {| ct_blockIndex := blockIndex; ct_transactionIndex := transactionInBlockIndex; ct_transactionHash := h;
                     ct_unlockTime := unlockTime t; ct_outputs := target <$> outputs t; ct_globalIndexes := gs |} in
      let s := if bool_decide (is_Some (find_tx s {| po_blockIndex := blockIndex; po_transactionIndex := transactionInBlockIndex; po_outputIndex := 0 |}))
               then s else set_transactions (seg_transactions s ++ [info]) s in
      pid ← getPaymentIdFromTxExtra (extra t);
      Ok (match pid with
          | None => s
          | Some id => if bool_decide (h ∈ (seg_paymentIds s).*2) then s else set_paymentIds (seg_paymentIds s ++ [(id, h)]) s
          end :: ps)
  end.

Fixpoint push_transactions (c : Cache) (blockIndex txIndex : Z) (l : list CachedTransaction) : outcome Cache :=
  match l with
  | [] => Ok c
  | tx :: l => c ← cache_pushTransaction c tx blockIndex (u16 txIndex); push_transactions c blockIndex (txIndex + 1) l
  end.

(** The totals before the block that is pushed. *)
Definition previous_totals (c : Cache) (index : Z) : outcome (Z * Z * Z) :=
  match c with
  | [] => null_parent
  | s :: ps =>
      match last (seg_blockInfos s), ps with
      | Some b, _ => Ok (bi_cumulativeDifficulty b, bi_alreadyGeneratedCoins b, bi_alreadyGeneratedTransactions b)
      | None, [] => Ok (0, 0, 0)
      | None, p :: _ =>
          d ← getCurrentCumulativeDifficulty p (u32 (index - 1));
          g ← getAlreadyGeneratedCoins ps (u32 (index - 1));
          t ← getAlreadyGeneratedTransactions ps (u32 (index - 1));
          Ok (d, g, t)
      end
  end.

Definition doPushBlock (c : Cache) (b : BlockTemplate) (cachedTransactions : list CachedTransaction)
    (validatorState : TransactionValidatorState) (blockSize generatedCoins blockDifficulty : Z) (rawBlock : RawBlock) : outcome Cache :=
  _ ← assert (0 <? blockSize) "assert(blockSize > 0)";
  _ ← assert (0 <? blockDifficulty) "assert(blockDifficulty > 0)";
  let blockIndex := getBlockIndex b in
  '(d, g, t) ← previous_totals c blockIndex;
  h ← getBlockHash cn_fast_hash b;
  let blockInfo := {| bi_blockHash := h; bi_timestamp := timestamp (header b); bi_cumulativeDifficulty := u64 (d + blockDifficulty);
                      bi_alreadyGeneratedCoins := u64 (g + generatedCoins);
                      bi_alreadyGeneratedTransactions := u64 (t + (Z.of_nat (length cachedTransactions) + 1));
                      bi_blockSize := u32 blockSize |} in
  match c with
  | [] => null_parent
  | s :: ps =>
      _ ← assert (negb (cache_hasBlock s h)) "assert(!hasBlock(blockInfo.blockHash))";
      let c := set_blockInfos (seg_blockInfos s ++ [blockInfo]) s :: ps in
      c ← foldM (fun c ki => addSpentKeyImage c ki blockIndex) c (elements validatorState);
      _ ← assert (Z.of_nat (length cachedTransactions) <=? 65535) "assert(cachedTransactions.size() <= uint16_t max)";
      c ← cache_pushTransaction c (CachedTransaction_of (baseTransaction b)) blockIndex 0;
      c ← push_transactions c blockIndex 1 cachedTransactions;
      Ok (upd_head (fun s => set_storage (seg_storage s ++ [rawBlock]) s) c)
  end.

(** The root cache, made of the genesis block. *)
Definition genesis_cache (genesis : BlockTemplate) : outcome Cache :=
  let minerReward := foldl (fun r o => u64 (r + out_amount o)) 0 (outputs (tx_prefix (baseTransaction genesis))) in
  _ ← assert (0 <? minerReward) "assert(minerReward > 0)";
  coinbaseTransactionSize ← getObjectBinarySize serialize_Transaction (baseTransaction genesis);
  _ ← assert (coinbaseTransactionSize <? MAX_U64) "assert(coinbaseTransactionSize < max)";
  raw ← toBinaryArray (serialize_BlockTemplate cn_fast_hash) genesis;
  doPushBlock [new_segment 0] genesis [] ∅ coinbaseTransactionSize minerReward 1 {| block := raw; transactions := [] |}.

(** ** Splitting a segment *)

Definition split_amount (splitBlockIndex : Z) (e : OutputGlobalIndexesForAmount)
    : OutputGlobalIndexesForAmount * OutputGlobalIndexesForAmount :=
  let n := lower_bound_by (fun o => po_blockIndex o <? splitBlockIndex) (oi_outputs e) in
  let upper := drop n (oi_outputs e) in
  ({| oi_startIndex := oi_startIndex e; oi_outputs := take n (oi_outputs e) |},
   {| oi_startIndex := u32 (oi_startIndex e + u32 (Z.of_nat (length (oi_outputs e))) - u32 (Z.of_nat (length upper)));
      oi_outputs := upper |}).
Definition nonempty_outputs (e : OutputGlobalIndexesForAmount) : option OutputGlobalIndexesForAmount :=
  if bool_decide (length (oi_outputs e) = 0%nat) then None else Some e.

(** The upper segment, then [this], which remains the lower part. *)
Definition split (s : Segment) (splitBlockIndex : Z) : outcome (Segment * Segment) :=
  top ← getTopBlockIndex s;
  _ ← assert (seg_startIndex s <? splitBlockIndex) "assert(splitBlockIndex > startIndex)";
  _ ← assert (splitBlockIndex <=? top) "assert(splitBlockIndex <= getTopBlockIndex())";
  let n := Z.to_nat (u32 (splitBlockIndex - seg_startIndex s)) in
  _ ← assert (0 <? Z.of_nat n) "assert(splitIndex > 0)";
  _ ← assert (Z.of_nat n <? Z.of_nat (length (seg_storage s))) "assert(splitIndex < blocks.size())";
  let moved := filter (fun t => splitBlockIndex <= ct_blockIndex t) (seg_transactions s) in
  Ok ({| seg_startIndex := splitBlockIndex;
         seg_blockInfos := drop n (seg_blockInfos s);
         seg_spentKeyImages := filter (fun kb => splitBlockIndex <= kb.2) (seg_spentKeyImages s);
         seg_transactions := moved;
         seg_keyOutputsGlobalIndexes := omap (fun e => nonempty_outputs (split_amount splitBlockIndex e).2) (seg_keyOutputsGlobalIndexes s);
         seg_paymentIds := filter (fun ph => ph.2 ∈ ct_transactionHash <$> moved) (seg_paymentIds s);
         seg_storage := drop n (seg_storage s) |},
      {| seg_startIndex := seg_startIndex s;
         seg_blockInfos := take n (seg_blockInfos s);
         seg_spentKeyImages := filter (fun kb => ~ splitBlockIndex <= kb.2) (seg_spentKeyImages s);
         seg_transactions := filter (fun t => ~ splitBlockIndex <= ct_blockIndex t) (seg_transactions s);
         seg_keyOutputsGlobalIndexes := omap (fun e => nonempty_outputs (split_amount splitBlockIndex e).1) (seg_keyOutputsGlobalIndexes s);
         seg_paymentIds := filter (fun ph => ~ ph.2 ∈ ct_transactionHash <$> moved) (seg_paymentIds s);
         seg_storage := take n (seg_storage s) |}).

Definition fillOutputsSpentByBlock (s : Segment) (blockIndex : Z) : TransactionValidatorState :=
  dom (filter (fun kb : KeyImage * Z => kb.2 = blockIndex) (seg_spentKeyImages s)).

(** [storage->getBlockByIndex(index)] *)
Definition storage_getBlockByIndex (s : Segment) (index : Z) : outcome RawBlock :=
  if storage_getBlockCount s <=? index then Throw "out_of_range"
  else from_option "blocks[index]" (seg_storage s !! Z.to_nat index).

Record PushedBlockInfo := {
  pb_rawBlock : RawBlock;
  pb_validatorState : TransactionValidatorState;
  pb_blockSize : Z;
  pb_generatedCoins : Z;
  pb_blockDifficulty : Z }.

(** The totals before the block at [blockIndex] of the head segment. *)
Definition totals_before (s : Segment) (ps : Cache) (blockIndex : Z) : outcome (Z * Z) :=
  if seg_startIndex s <? blockIndex then
    previousBlock ← from_option "blockInfos[localIndex - 1]" (seg_blockInfos s !! Z.to_nat (u32 (blockIndex - seg_startIndex s - 1)));
    Ok (bi_cumulativeDifficulty previousBlock, bi_alreadyGeneratedCoins previousBlock)
  else
    match ps with
    | [] => Ok (0, 0)
    | _ =>
        l ← getLastCumulativeDifficulties ps 1 (u32 (seg_startIndex s - 1)) true;
        d ← from_option "getLastCumulativeDifficulties(...)[0]" (head l);
        g ← getAlreadyGeneratedCoins ps (u32 (seg_startIndex s - 1));
        Ok (d, g)
    end.

Definition getPushedBlockInfo (c : Cache) (blockIndex : Z) : outcome PushedBlockInfo :=
  match c with
  | [] => null_parent
  | s :: ps =>
      _ ← assert (seg_startIndex s <=? blockIndex) "assert(blockIndex >= startIndex)";
      _ ← assert (blockIndex <? u32 (seg_startIndex s + getBlockCount s)) "assert(blockIndex < startIndex + getBlockCount())";
      let localIndex := u32 (blockIndex - seg_startIndex s) in
      cachedBlock ← from_option "blockInfos[localIndex]" (seg_blockInfos s !! Z.to_nat localIndex);
      rawBlock ← storage_getBlockByIndex s localIndex;
      '(d, g) ← totals_before s ps blockIndex;
      Ok {| pb_rawBlock := rawBlock; pb_validatorState := fillOutputsSpentByBlock s blockIndex;
            pb_blockSize := bi_blockSize cachedBlock;
            pb_generatedCoins := u64 (bi_alreadyGeneratedCoins cachedBlock - g);
            pb_blockDifficulty := u64 (bi_cumulativeDifficulty cachedBlock - d) |}
  end.

End chain.
