(* ===== verification/CacheChain.v ===== *)
(** * CacheChain: what a chain of segments stands for

    The invariant [chain_ok] of a [BlockchainCache] on its parents, and the flat chain
    it refines: the list of all blocks, the block every key image was spent in, the
    outputs of an amount in the order of their global indexes.  Queries, splitting,
    pushing and reading outputs are proved against it, and the cache is shown to answer
    what [Validate.v] asks of an [IBlockchainCache]. *)

From Stdlib Require Import ZArith Lia.
From stdpp Require Import base tactics list numbers strings gmap fin_maps sorting.
From S2P Require Import Prelude Config Difficulty Types Serializer TxSerialization TransactionExtra BlockSerialization FormatUtils Currency Validate Pool BlockchainCache.

Local Open Scope Z_scope.

(** ** The chain a cache stands for

    The blocks from the genesis block on, the block every key image was spent in,
    and the outputs of an amount in the order of their global indexes. *)

Fixpoint all_blocks (c : Cache) : list CachedBlockInfo :=
  match c with [] => [] | s :: ps => all_blocks ps ++ seg_blockInfos s end.
Fixpoint all_spent (c : Cache) : gmap KeyImage Z :=
  match c with [] => ∅ | s :: ps => seg_spentKeyImages s ∪ all_spent ps end.
Definition seg_outputs (s : Segment) (amount : Z) : list PackedOutIndex :=
  match seg_keyOutputsGlobalIndexes s !! amount with Some e => oi_outputs e | None => [] end.
Fixpoint all_outputs (c : Cache) (amount : Z) : list PackedOutIndex :=
  match c with [] => [] | s :: ps => all_outputs ps amount ++ seg_outputs s amount end.

Definition height (c : Cache) : Z := Z.of_nat (length (all_blocks c)).

(** The outputs of an amount in a segment: numbered after those below, in the order
    of the blocks, each with its transaction. *)
Record outputs_ok_at (ps : Cache) (s : Segment) (amount : Z) (e : OutputGlobalIndexesForAmount) : Prop := {
  oo_start : oi_startIndex e = Z.of_nat (length (all_outputs ps amount));
  oo_some : oi_outputs e <> [];
  oo_sorted : StronglySorted (fun o o' => po_blockIndex o <= po_blockIndex o') (oi_outputs e);
  oo_range : Forall (fun o => seg_startIndex s <= po_blockIndex o < seg_startIndex s + Z.of_nat (length (seg_blockInfos s))) (oi_outputs e);
  oo_found : Forall (fun o => exists info t, find_tx s o = Some info /\ ct_outputs info !! Z.to_nat (po_outputIndex o) = Some t) (oi_outputs e);
  oo_bound : Z.of_nat (length (all_outputs ps amount)) + Z.of_nat (length (oi_outputs e)) < 2 ^ 32 }.

(** A segment fits on top of the segments [ps]. *)
Record seg_ok (ps : Cache) (s : Segment) : Prop := {
  so_start : seg_startIndex s = height ps;
  so_storage : length (seg_storage s) = length (seg_blockInfos s);
  so_bound : height ps + Z.of_nat (length (seg_blockInfos s)) < 2 ^ 32;
  so_spent : forall ki b, seg_spentKeyImages s !! ki = Some b ->
    seg_startIndex s <= b < seg_startIndex s + Z.of_nat (length (seg_blockInfos s));
  so_fresh : seg_spentKeyImages s ##ₘ all_spent ps;
  so_txs : Forall (fun t => seg_startIndex s <= ct_blockIndex t < seg_startIndex s + Z.of_nat (length (seg_blockInfos s))) (seg_transactions s);
  so_outputs : forall amount e, seg_keyOutputsGlobalIndexes s !! amount = Some e -> outputs_ok_at ps s amount e }.

(** A parent is never empty. *)
Fixpoint chain_ok (c : Cache) : Prop :=
  match c with
  | [] => True
  | s :: ps => seg_ok ps s /\ chain_ok ps /\ Forall (fun p => seg_blockInfos p <> []) ps
  end.

Lemma height_cons s ps : height (s :: ps) = height ps + Z.of_nat (length (seg_blockInfos s)).
Proof. unfold height. simpl. rewrite length_app. lia. Qed.

Lemma height_nonneg c : 0 <= height c.
Proof. unfold height. lia. Qed.

Lemma chain_bound c : chain_ok c -> height c < 2 ^ 32.
Proof. destruct c as [|s ps]; [done|]. intros [[] _]. by rewrite height_cons. Qed.

Lemma storage_count c s ps : c = s :: ps -> chain_ok c -> storage_getBlockCount s = Z.of_nat (length (seg_blockInfos s)).
Proof.
  intros -> [[] _]. unfold storage_getBlockCount. rewrite so_storage0. apply wrap_small.
  pose proof (height_nonneg ps). width_solve.
Qed.

Lemma top_index s ps : chain_ok (s :: ps) -> seg_blockInfos s <> [] -> getTopBlockIndex s = Ok (height (s :: ps) - 1).
Proof.
  intros H Hn. unfold getTopBlockIndex. rewrite bool_decide_eq_false_2 by by (intros ?%nil_length_inv).
  okbind. rewrite (storage_count _ s ps eq_refl H). pose proof (chain_bound _ H) as B. destruct H as [[] _].
  rewrite so_start0, <- height_cons, wrap_small; [done|]. rewrite height_cons in *. pose proof (height_nonneg ps).
  assert (0 < length (seg_blockInfos s))%nat by (destruct (seg_blockInfos s); simpl in *; [done|lia]). width_solve.
Qed.

(** *** Blocks by index *)

Lemma info_at_ok c : chain_ok c -> forall i, 0 <= i < height c -> exists b,
  all_blocks c !! Z.to_nat i = Some b /\ info_at c i = Ok b.
Proof.
  induction c as [|s ps IH]; intros H i Hi; [unfold height in Hi; simpl in Hi; lia|].
  pose proof (chain_bound _ H) as B. destruct H as ([] & Hps & _). rewrite height_cons in *. simpl.
  destruct (Z.ltb_spec i (seg_startIndex s)) as [Hlt|Hge].
  - destruct (IH Hps i) as (b & Hb & ->); [lia|]. exists b. split; [|done].
    rewrite lookup_app_l; [done|]. unfold height in *. lia.
  - unfold block_at. rewrite wrap_small by (pose proof (height_nonneg ps); width_solve).
    destruct (lookup_lt_is_Some_2 (seg_blockInfos s) (Z.to_nat (i - seg_startIndex s))) as [b Hb]; [lia|].
    exists b. rewrite Hb. split; [|done]. rewrite lookup_app_r by (unfold height in *; lia).
    rewrite <- Hb. f_equal. unfold height in *. lia.
Qed.

(** *** Spent key images *)

Lemma spent_ok c ki bi : chain_ok c -> c <> [] -> 0 <= bi ->
  checkIfSpent_at c ki bi = Ok (match all_spent c !! ki with Some b => b <=? bi | None => false end).
Proof.
  induction c as [|s ps IH]; intros H N Hb; [done|]. destruct H as ([] & Hps & _). simpl.
  destruct (Z.ltb_spec bi (seg_startIndex s)) as [Hlt|Hge].
  - rewrite IH; [|done|intros ->; unfold height in *; simpl in *; lia|done].
    rewrite lookup_union. destruct (seg_spentKeyImages s !! ki) as [b|] eqn:E; [|by rewrite (left_id None _)].
    rewrite (map_disjoint_Some_l _ _ _ _ so_fresh0 E). simpl. f_equal. symmetry. apply Z.leb_gt.
    apply so_spent0 in E. lia.
  - rewrite lookup_union. destruct (seg_spentKeyImages s !! ki) as [b|] eqn:E.
    + by destruct (all_spent ps !! ki).
    + rewrite (left_id None _). destruct ps as [|p ps]; [done|]. by apply IH.
Qed.

Lemma spent_any_ok c ki : checkIfSpent_any c ki = bool_decide (ki ∈ dom (all_spent c)).
Proof.
  induction c as [|s ps IH]; [simpl; by rewrite dom_empty_L|]. simpl. rewrite IH, dom_union_L.
  rewrite (bool_decide_ext (ki ∈ dom _ ∪ _) (is_Some (seg_spentKeyImages s !! ki) \/ ki ∈ dom (all_spent ps)))
    by by rewrite elem_of_union, elem_of_dom.
  by rewrite bool_decide_or.
Qed.

(** *** Windows of blocks *)

(** The last [count] blocks up to [blockIndex], without the genesis block if asked. *)
Definition window (c : Cache) (count : nat) (blockIndex : Z) (useGenesis : bool) : list CachedBlockInfo :=
  let n := S (Z.to_nat blockIndex) in
  drop (Nat.max (n - count) (if useGenesis then 0 else 1)) (take n (all_blocks c)).

Abbreviation nonempty := (Forall (fun p => seg_blockInfos p <> [])).

Lemma nonempty_length (s : Segment) : seg_blockInfos s <> [] -> (0 < length (seg_blockInfos s))%nat.
Proof. destruct (seg_blockInfos s); simpl; [done|lia]. Qed.

Lemma all_blocks_nonempty c : nonempty c -> c <> [] -> (0 < length (all_blocks c))%nat.
Proof. intros [|s ps Hs _] N; [done|]. simpl. rewrite length_app. pose proof (nonempty_length _ Hs). lia. Qed.

(** Taking the blocks up to an index, below and above the start of the head. *)
Lemma window_below s ps count bi ug : 0 <= bi < height ps -> window (s :: ps) count bi ug = window ps count bi ug.
Proof. intros Hb. unfold window, height in *. simpl. by rewrite take_app_le by lia. Qed.

Lemma window_above s ps count bi ug : height ps <= bi ->
  let to := (S (Z.to_nat bi) - length (all_blocks ps))%nat in
  window (s :: ps) count bi ug =
    drop (Nat.max (S (Z.to_nat bi) - count) (if ug then 0 else 1)) (all_blocks ps ++ take to (seg_blockInfos s)).
Proof. intros Hb to. unfold window, height in *. simpl all_blocks. rewrite take_app. by rewrite (take_ge (all_blocks ps)) by lia. Qed.

Lemma units_ok c count bi ug (f : CachedBlockInfo -> Z) : chain_ok c -> nonempty c -> 0 <= bi < height c ->
  getLastUnits c count bi ug f = Ok (f <$> window c count bi ug).
Proof.
  revert count bi. induction c as [|s ps IH]; intros count bi H N Hb; [unfold height in Hb; simpl in Hb; lia|].
  cbn [getLastUnits]. apply Forall_cons in N as [Ns N]. rewrite (top_index s ps H Ns). okbind.
  rewrite (proj2 (Z.leb_le _ _)) by lia. okbind. pose proof (chain_bound _ H). destruct H as ([] & Hps & _).
  rewrite so_start0. rewrite height_cons in *. clear so_fresh0 so_txs0 so_outputs0 so_spent0 so_storage0.
  destruct (Z.ltb_spec bi (height ps)) as [Hlt|Hge].
  - rewrite window_below by lia. destruct ps as [|p qs]; [unfold height in Hlt; simpl in Hlt; lia|].
    rewrite Nat.min_0_r, andb_false_r. cbn [length andb]. destruct (Nat.ltb_spec 0 count) as [Hc|Hc].
    + rewrite (top_index p qs Hps) by by inv N. okbind. rewrite Z.min_l by lia. rewrite Nat.sub_0_r.
      rewrite IH by (done || lia). okbind. simpl. by rewrite Nat.sub_0_r, app_nil_r.
    + okbind. unfold window. rewrite (drop_ge (take _ _)); [done|]. rewrite length_take. lia.
  - rewrite window_above by done. unfold height in *. rewrite wrap_small by width_solve.
    set (to := (S (Z.to_nat bi) - length (all_blocks ps))%nat). replace (Z.to_nat (bi - Z.of_nat (length (all_blocks ps)) + 1)) with to by (unfold to; lia).
    destruct ps as [|p qs].
    + simpl in to, Hge |- *. rewrite take_drop_commute.
      set (skip := negb ug && _ && _ && _). set (from' := if skip then (to - Nat.min count to + 1)%nat else (to - Nat.min count to)%nat).
      assert (E : from' = Nat.max (to - count) (if ug then 0 else 1)).
      { unfold from', skip. destruct ug; simpl; repeat case_bool_decide; simpl; lia. }
      do 2 f_equal. replace (from' + (to - from'))%nat with (Nat.max from' to) by lia.
      destruct (Nat.max_spec from' to) as [[? ->]|[? ->]]; [by rewrite E|].
      rewrite !drop_ge; [done| |]; rewrite length_take; lia.
    + pose proof (all_blocks_nonempty (p :: qs) N ltac:(done)) as P.
      rewrite andb_false_r. destruct (Nat.ltb_spec (Nat.min count to) count) as [Hc|Hc].
      * rewrite (top_index p qs Hps) by by inv N. okbind. rewrite IH by (done || unfold height in *; lia). okbind.
        unfold window. unfold height in *. rewrite drop_app_le by (destruct ug; lia). rewrite fmap_app. do 2 f_equal.
        -- f_equal. rewrite take_ge by lia. f_equal. lia.
        -- f_equal. replace (to - Nat.min count to)%nat with 0%nat by lia. by rewrite Nat.sub_0_r, drop_0.
      * okbind. cbn [app]. rewrite drop_app_ge by (unfold to in *; destruct ug; lia). rewrite take_drop_commute. do 2 f_equal.
        unfold to in *. f_equal; [destruct ug; lia|f_equal; lia].
Qed.

(** *** Lower bounds *)

Section bounds.
Context {A : Type} (less : A -> bool).

Lemma lower_bound_cons x l : lower_bound_by less (x :: l) = if less x then S (lower_bound_by less l) else 0%nat.
Proof.
  unfold lower_bound_by. simpl. case_decide as E; [by rewrite E|]. apply not_false_is_true in E. rewrite E.
  by destruct (list_find _ l) as [[]|].
Qed.

Lemma lower_bound_le l : (lower_bound_by less l <= length l)%nat.
Proof. induction l as [|x l IH]; [done|]. rewrite lower_bound_cons. destruct (less x); simpl; lia. Qed.

Lemma lower_bound_below l : Forall (fun x => less x = true) (take (lower_bound_by less l) l).
Proof. induction l as [|x l IH]; [done|]. rewrite lower_bound_cons. destruct (less x) eqn:E; simpl; [by constructor|done]. Qed.

Lemma lower_bound_above (R : A -> A -> Prop) l : (forall x y, R x y -> less x = false -> less y = false) ->
  StronglySorted R l -> Forall (fun x => less x = false) (drop (lower_bound_by less l) l).
Proof.
  intros HR. induction 1 as [|x l Hl IH Hx]; [done|]. rewrite lower_bound_cons. destruct (less x) eqn:E; simpl; [done|].
  constructor; [done|]. eapply Forall_impl; [exact Hx|]. simpl. eauto.
Qed.
End bounds.

Lemma find_filter {A} (P Q : A -> Prop) `{!forall x, Decision (P x), !forall x, Decision (Q x)} (l : list A) :
  (forall x, Q x -> P x) -> snd <$> list_find Q (filter P l) = snd <$> list_find Q l.
Proof.
  intros HQ. assert (E : forall (o : option (nat * A)), snd <$> (prod_map S id <$> o) = snd <$> o) by by intros [[]|].
  induction l as [|x l IH]; [done|]. rewrite filter_cons. simpl. case_decide as EP; simpl.
  - case_decide; [done|]. by rewrite !E.
  - rewrite decide_False by naive_solver. by rewrite E.
Qed.

Lemma StronglySorted_take {A} (R : A -> A -> Prop) n l : StronglySorted R l -> StronglySorted R (take n l).
Proof. rewrite <- (take_drop n l) at 1. apply StronglySorted_app_1_l. Qed.
Lemma StronglySorted_drop {A} (R : A -> A -> Prop) n l : StronglySorted R l -> StronglySorted R (drop n l).
Proof. rewrite <- (take_drop n l) at 1. apply StronglySorted_app_1_r. Qed.

(** *** Splitting *)

Section splitting.
Context (ps : Cache) (s u l : Segment) (k : Z).
Context (Hs : seg_ok ps s) (Hk : seg_startIndex s < k < seg_startIndex s + Z.of_nat (length (seg_blockInfos s))).
Context (E : split s k = Ok (u, l)).

Abbreviation cut := (Z.to_nat (k - seg_startIndex s)).

Lemma split_parts :
  seg_startIndex u = k /\ seg_startIndex l = seg_startIndex s
  /\ seg_blockInfos u = drop cut (seg_blockInfos s) /\ seg_blockInfos l = take cut (seg_blockInfos s)
  /\ seg_storage u = drop cut (seg_storage s) /\ seg_storage l = take cut (seg_storage s)
  /\ seg_spentKeyImages u = filter (fun kb => k <= kb.2) (seg_spentKeyImages s)
  /\ seg_spentKeyImages l = filter (fun kb => ~ k <= kb.2) (seg_spentKeyImages s)
  /\ seg_transactions u = filter (fun t => k <= ct_blockIndex t) (seg_transactions s)
  /\ seg_transactions l = filter (fun t => ~ k <= ct_blockIndex t) (seg_transactions s)
  /\ seg_keyOutputsGlobalIndexes u = omap (fun e => nonempty_outputs (split_amount k e).2) (seg_keyOutputsGlobalIndexes s)
  /\ seg_keyOutputsGlobalIndexes l = omap (fun e => nonempty_outputs (split_amount k e).1) (seg_keyOutputsGlobalIndexes s).
Proof using E Hk Hs.
  pose proof E as H. unfold split in H. repeat (apply bind_ok in H as (? & _ & H)). apply Ok_inj in H as [= <- <-]. simpl.
  rewrite wrap_small by (destruct Hs; pose proof (height_nonneg ps); width_solve). by split_and!.
Qed.

Lemma split_heights : height (l :: ps) = k /\ height (u :: l :: ps) = height (s :: ps).
Proof using E Hk Hs.
  destruct split_parts as (_ & _ & Bu & Bl & _). rewrite !height_cons, Bu, Bl, length_take, length_drop.
  destruct Hs. lia.
Qed.

Lemma split_outputs amount e : seg_keyOutputsGlobalIndexes s !! amount = Some e ->
  let n := lower_bound_by (fun o => po_blockIndex o <? k) (oi_outputs e) in
  seg_outputs l amount = take n (oi_outputs e) /\ seg_outputs u amount = drop n (oi_outputs e)
  /\ Forall (fun o => po_blockIndex o < k) (take n (oi_outputs e)) /\ Forall (fun o => k <= po_blockIndex o) (drop n (oi_outputs e)).
Proof using E Hk Hs.
  intros He n. destruct split_parts as (_ & _ & _ & _ & _ & _ & _ & _ & _ & _ & Ou & Ol). unfold seg_outputs.
  rewrite Ou, Ol, !lookup_omap, He. simpl. unfold nonempty_outputs, split_amount. simpl. fold n.
  destruct (so_outputs _ _ Hs _ _ He). split_and!.
  - case_bool_decide as B; [|done]. by apply nil_length_inv in B.
  - case_bool_decide as B; [|done]. by apply nil_length_inv in B.
  - eapply Forall_impl; [apply lower_bound_below|]. intros o. apply Z.ltb_lt.
  - eapply Forall_impl; [eapply lower_bound_above; [|exact oo_sorted0]|].
    + simpl. intros x y. rewrite !Z.ltb_ge. lia.
    + intros o. apply Z.ltb_ge.
Qed.

Lemma split_outputs_none amount : seg_keyOutputsGlobalIndexes s !! amount = None ->
  seg_outputs l amount = [] /\ seg_outputs u amount = [].
Proof using E Hk Hs.
  intros He. destruct split_parts as (_ & _ & _ & _ & _ & _ & _ & _ & _ & _ & Ou & Ol). unfold seg_outputs.
  by rewrite Ou, Ol, !lookup_omap, He.
Qed.

Lemma split_found o : (find_tx s o) = if bool_decide (k <= po_blockIndex o) then find_tx u o else find_tx l o.
Proof using E Hk Hs.
  destruct split_parts as (_ & _ & _ & _ & _ & _ & _ & _ & Tu & Tl & _). unfold find_tx. rewrite Tu, Tl.
  case_bool_decide; rewrite find_filter; try done; intros t [-> _]; done.
Qed.

Lemma split_same : all_blocks (u :: l :: ps) = all_blocks (s :: ps) /\ all_spent (u :: l :: ps) = all_spent (s :: ps)
  /\ forall amount, all_outputs (u :: l :: ps) amount = all_outputs (s :: ps) amount.
Proof using E Hk Hs.
  destruct split_parts as (_ & _ & Bu & Bl & _ & _ & Su & Sl & _). split_and!.
  - simpl. by rewrite Bu, Bl, <- (assoc_L (++)), take_drop.
  - simpl. by rewrite Su, Sl, (assoc_L (∪)), map_filter_union_complement.
  - intros amount. simpl. rewrite <- (assoc_L (++)). f_equal. unfold seg_outputs at 3.
    destruct (seg_keyOutputsGlobalIndexes s !! amount) as [e|] eqn:He.
    + destruct (split_outputs _ _ He) as (-> & -> & _). apply take_drop.
    + by destruct (split_outputs_none _ He) as [-> ->].
Qed.

(** Part of the outputs, in a segment that has their blocks and transactions. *)
Lemma part_ok qs (s' : Segment) amount e e' : seg_keyOutputsGlobalIndexes s !! amount = Some e ->
  oi_startIndex e' = Z.of_nat (length (all_outputs qs amount)) -> oi_outputs e' <> [] ->
  StronglySorted (fun o o' => po_blockIndex o <= po_blockIndex o') (oi_outputs e') ->
  (forall o, o ∈ oi_outputs e' -> o ∈ oi_outputs e /\ find_tx s' o = find_tx s o
    /\ (seg_startIndex s <= po_blockIndex o < seg_startIndex s + Z.of_nat (length (seg_blockInfos s)) ->
        seg_startIndex s' <= po_blockIndex o < seg_startIndex s' + Z.of_nat (length (seg_blockInfos s')))) ->
  Z.of_nat (length (all_outputs qs amount)) + Z.of_nat (length (oi_outputs e')) < 2 ^ 32 ->
  outputs_ok_at qs s' amount e'.
Proof using Hs.
  intros He Hst Hn Hso H B. destruct (so_outputs _ _ Hs _ _ He). rewrite Forall_forall in oo_range0, oo_found0.
  split; try done; apply Forall_forall; intros o Ho; destruct (H o Ho) as (Hin & F & R).
  - by apply R, oo_range0.
  - rewrite F. by apply oo_found0.
Qed.

Lemma split_lower : seg_ok ps l.
Proof using E Hk Hs.
  pose proof split_parts as (Iu & Il & Bu & Bl & Gu & Gl & Su & Sl & Tu & Tl & Ou & Ol). pose proof Hs as [].
  assert (L : Z.of_nat (length (seg_blockInfos l)) = k - seg_startIndex s) by (rewrite Bl, length_take; lia).
  split; rewrite ?Il, ?L.
  - done.
  - rewrite Gl, Bl, !length_take. lia.
  - lia.
  - intros ki b. rewrite Sl, map_lookup_filter_Some. simpl. intros [Hb N]. apply so_spent0 in Hb. lia.
  - rewrite Sl. eapply map_disjoint_weaken_l; [exact so_fresh0|]. apply map_filter_subseteq.
  - rewrite Tl. apply Forall_forall. intros t. rewrite list_elem_of_filter. intros [N Ht].
    eapply Forall_forall in Ht; [|exact so_txs0]. simpl in Ht. lia.
  - intros amount e'. rewrite Ol, lookup_omap. intros (e & He & H)%bind_Some.
    pose proof (so_outputs0 _ _ He) as []. destruct (split_outputs _ _ He) as (_ & _ & Lo & _).
    unfold nonempty_outputs, split_amount in H. simpl in H. case_bool_decide as N; [done|]. injection H as <-.
    apply (part_ok _ _ _ e); simpl; [done|done|by intros Z; rewrite Z in N|by apply StronglySorted_take| |rewrite length_take; lia].
    intros o Ho. eapply Forall_forall in Lo; [|exact Ho]. simpl in Lo. rewrite split_found, bool_decide_eq_false_2, Il, L by lia.
    split; [by eapply subseteq_take|]. split; [done|lia].
Qed.

Lemma split_upper : seg_ok (l :: ps) u.
Proof using E Hk Hs.
  pose proof split_parts as (Iu & Il & Bu & Bl & Gu & Gl & Su & Sl & Tu & Tl & Ou & Ol). pose proof Hs as [].
  assert (L : Z.of_nat (length (seg_blockInfos u)) = seg_startIndex s + Z.of_nat (length (seg_blockInfos s)) - k)
    by (rewrite Bu, length_drop; lia).
  split; rewrite ?Iu, ?L, ?(proj1 split_heights).
  - done.
  - rewrite Gu, Bu, !length_drop. lia.
  - lia.
  - intros ki b. rewrite Su, map_lookup_filter_Some. simpl. intros [Hb N]. apply so_spent0 in Hb. lia.
  - simpl. apply map_disjoint_union_r. rewrite Su, Sl. split; [apply map_disjoint_filter_complement|].
    eapply map_disjoint_weaken_l; [exact so_fresh0|]. apply map_filter_subseteq.
  - rewrite Tu. apply Forall_forall. intros t. rewrite list_elem_of_filter. intros [N Ht].
    eapply Forall_forall in Ht; [|exact so_txs0]. simpl in Ht. lia.
  - intros amount e'. rewrite Ou, lookup_omap. intros (e & He & H)%bind_Some.
    pose proof (so_outputs0 _ _ He) as []. destruct (split_outputs _ _ He) as (Sol & _ & _ & Hi).
    unfold nonempty_outputs, split_amount in H. simpl in H. case_bool_decide as N; [done|]. injection H as <-.
    pose proof (lower_bound_le (fun o => po_blockIndex o <? k) (oi_outputs e)).
    apply (part_ok _ _ _ e); simpl; rewrite ?length_app, ?Sol, ?length_take.
    + done.
    + rewrite oo_start0, length_drop. rewrite !(wrap_small _ (Z.of_nat _)) by width_solve. unwrap. lia.
    + by intros Z; rewrite Z in N.
    + by apply StronglySorted_drop.
    + intros o Ho. eapply Forall_forall in Hi; [|exact Ho]. simpl in Hi. rewrite split_found, bool_decide_eq_true_2, Iu, L by lia.
      split; [by eapply subseteq_drop|]. split; [done|lia].
    + rewrite length_drop. lia.
Qed.

End splitting.

Lemma split_ok ps s k : chain_ok (s :: ps) -> seg_startIndex s < k < seg_startIndex s + Z.of_nat (length (seg_blockInfos s)) ->
  exists u l, split s k = Ok (u, l) /\ chain_ok (u :: l :: ps) /\ height (l :: ps) = k
    /\ all_blocks (u :: l :: ps) = all_blocks (s :: ps) /\ all_spent (u :: l :: ps) = all_spent (s :: ps)
    /\ (forall amount, all_outputs (u :: l :: ps) amount = all_outputs (s :: ps) amount)
    /\ (forall o, find_tx s o = if bool_decide (k <= po_blockIndex o) then find_tx u o else find_tx l o).
Proof.
  intros H Hk. assert (exists u l, split s k = Ok (u, l)) as (u & l & E).
  { unfold split. rewrite (top_index s ps H); [|intros Z; rewrite Z in Hk; simpl in Hk; lia]. okbind.
    rewrite height_cons. destruct H as ([] & _). pose proof (height_nonneg ps).
    rewrite (proj2 (Z.ltb_lt (seg_startIndex s) k)) by lia. rewrite (proj2 (Z.leb_le k _)) by lia. okbind.
    rewrite wrap_small by width_solve. rewrite (proj2 (Z.ltb_lt 0 _)) by lia. okbind.
    rewrite (proj2 (Z.ltb_lt _ _)) by lia. okbind. by do 2 eexists. }
  exists u, l. destruct H as (Hs & Hps & N). destruct (split_same ps s u l k Hs Hk E) as (EB & ES & EO).
  split_and!; [done| |by eapply split_heights|done|done|done|by eapply split_found].
  split_and!; [by eapply split_upper|split_and!; [by eapply split_lower|done|done]|]. constructor; [|done].
  destruct (split_parts ps s u l k Hs Hk E) as (_ & _ & _ & Bl & _). rewrite Bl. intros Z%(f_equal length).
  rewrite length_take in Z. simpl in Z. lia.
Qed.

(** *** Numbering outputs *)

Lemma lower_bound_all {A} (less : A -> bool) l : Forall (fun x => less x = true) l -> lower_bound_by less l = length l.
Proof. induction 1 as [|x l E _ IH]; [done|]. rewrite lower_bound_cons, E. simpl. by f_equal. Qed.

Lemma count_ok c amount bi : chain_ok c -> height c <= bi ->
  getKeyOutputsCountForAmount c amount bi = Z.of_nat (length (all_outputs c amount)).
Proof.
  induction c as [|s ps IH]; intros H Hb; [done|]. destruct H as ([] & Hps & _). rewrite height_cons in Hb. simpl.
  unfold seg_outputs. destruct (_ !! amount) as [e|] eqn:He.
  - destruct (so_outputs0 _ _ He). rewrite oo_start0, lower_bound_all, length_app; [lia|].
    eapply Forall_impl; [exact oo_range0|]. intros o Ho. apply Z.ltb_lt. simpl in Ho. lia.
  - rewrite IH, app_nil_r by (done || lia). done.
Qed.

(** The outputs of one amount among those of a transaction, and in a list of transactions. *)
Fixpoint packed (idx txIndex k amount : Z) (l : list TransactionOutput) : list PackedOutIndex :=
  match l with
  | [] => []
  | o :: l =>
      (if out_amount o =? amount then [{| po_blockIndex := idx; po_transactionIndex := txIndex; po_outputIndex := u16 k |}] else [])
      ++ packed idx txIndex (k + 1) amount l
  end.

Lemma packed_spec idx ti amount l : forall k o, o ∈ packed idx ti k amount l ->
  exists j, (j < length l)%nat /\ o = {| po_blockIndex := idx; po_transactionIndex := ti; po_outputIndex := u16 (k + Z.of_nat j) |}.
Proof.
  induction l as [|x l IH]; intros k o; simpl; [by intros ?%not_elem_of_nil|]. rewrite elem_of_app. intros [H|H].
  - case_match; [|by apply not_elem_of_nil in H]. apply list_elem_of_singleton in H as ->. exists 0%nat. rewrite Z.add_0_r. split; [lia|done].
  - apply IH in H as (j & Hj & ->). exists (S j). split; [lia|]. do 2 f_equal. lia.
Qed.

Definition after_outputs (ps : Cache) (s : Segment) (new : Z -> list PackedOutIndex) (M : gmap Z OutputGlobalIndexesForAmount) : Prop :=
  forall amount, M !! amount = match new amount with
    | [] => seg_keyOutputsGlobalIndexes s !! amount
    | l => Some {| oi_startIndex := Z.of_nat (length (all_outputs ps amount)); oi_outputs := seg_outputs s amount ++ l |}
    end.

Lemma insert_output_ok ps s amount o idx : chain_ok ps -> height ps <= idx ->
  (forall e, seg_keyOutputsGlobalIndexes s !! amount = Some e -> oi_startIndex e = Z.of_nat (length (all_outputs ps amount))) ->
  Z.of_nat (length (all_outputs ps amount)) + Z.of_nat (length (seg_outputs s amount)) + 1 < 2 ^ 32 ->
  insertKeyOutputToGlobalIndex (s :: ps) amount o idx =
    Ok (set_keyOutputs (<[amount := {| oi_startIndex := Z.of_nat (length (all_outputs ps amount));
                                       oi_outputs := seg_outputs s amount ++ [o] |}]> (seg_keyOutputsGlobalIndexes s)) s :: ps,
        Z.of_nat (length (all_outputs ps amount ++ seg_outputs s amount))).
Proof.
  intros Hps Hi He B. unfold insertKeyOutputToGlobalIndex.
  assert (S : match ps with [] => 0 | _ => u32 (getKeyOutputsCountForAmount ps amount idx) end = Z.of_nat (length (all_outputs ps amount))).
  { destruct ps as [|p qs]; [done|]. rewrite count_ok by done. apply wrap_small. width_solve. }
  rewrite S. clear S. unfold seg_outputs in *. destruct (_ !! amount) as [e|] eqn:E; [rewrite (He _ eq_refl)|].
  all: simpl oi_outputs; simpl oi_startIndex; do 2 f_equal; rewrite !length_app in *; simpl;
    rewrite (wrap_small _ (Z.of_nat _)) by width_solve; unwrap; lia.
Qed.

(** [gs] are the global indexes of the outputs [l] in the list [all amount]. *)
Definition numbered (all : Z -> list PackedOutIndex) (idx ti k : Z) (l : list TransactionOutput) (gs : list Z) : Prop :=
  length gs = length l /\ forall j o g, l !! j = Some o -> gs !! j = Some g ->
    0 <= g /\ all (out_amount o) !! Z.to_nat g = Some {| po_blockIndex := idx; po_transactionIndex := ti; po_outputIndex := u16 (k + Z.of_nat j) |}.

Lemma push_outputs_ok ps idx ti l : chain_ok ps -> height ps <= idx -> forall s k,
  (forall amount e, seg_keyOutputsGlobalIndexes s !! amount = Some e -> oi_startIndex e = Z.of_nat (length (all_outputs ps amount))) ->
  (forall amount, Z.of_nat (length (all_outputs ps amount)) + Z.of_nat (length (seg_outputs s amount))
                  + Z.of_nat (length (packed idx ti k amount l)) < 2 ^ 32) ->
  exists M gs, push_outputs (s :: ps) idx ti k l = Ok (set_keyOutputs M s :: ps, gs)
    /\ after_outputs ps s (fun amount => packed idx ti k amount l) M
    /\ numbered (fun amount => all_outputs ps amount ++ seg_outputs s amount ++ packed idx ti k amount l) idx ti k l gs.
Proof.
  intros Hps Hi. induction l as [|o l IH]; intros s k Hst B.
  { exists (seg_keyOutputsGlobalIndexes s), []. split_and!; [by destruct s|done|done]. }
  cbn [push_outputs]. rewrite insert_output_ok; try done.
  2: by apply Hst. 2:{ specialize (B (out_amount o)). simpl in B. rewrite Z.eqb_refl, length_app in B. simpl in B. lia. }
  okbind. set (a0 := out_amount o). set (poi := Build_PackedOutIndex _ _ _). set (s1 := set_keyOutputs _ s).
  assert (Eo : forall a, seg_outputs s1 a = seg_outputs s a ++ (if a0 =? a then [poi] else [])).
  { intros a. unfold s1, seg_outputs at 1. simpl. destruct (Z.eqb_spec a0 a) as [<-|N]; [by rewrite lookup_insert_eq|].
    by rewrite lookup_insert_ne, app_nil_r by done. }
  destruct (IH s1 (k + 1)) as (M & gs & -> & HM & Hg & HN).
  { intros a e. unfold s1. simpl. destruct (decide (a0 = a)) as [<-|N]; [rewrite lookup_insert_eq; by intros [= <-]|].
    rewrite lookup_insert_ne by done. apply Hst. }
  { intros a. specialize (B a). simpl in B. fold a0 in B. rewrite Eo. rewrite length_app in *. destruct (a0 =? a); simpl in *; lia. }
  okbind. exists M. eexists. split; [reflexivity|]. split.
  - intros a. rewrite HM, Eo. simpl. fold a0. unfold s1. simpl. destruct (Z.eqb_spec a0 a) as [<-|N]; simpl.
    + rewrite lookup_insert_eq. destruct (packed idx ti (k + 1) a0 l); [done|]. by rewrite <- (assoc_L (++)).
    + rewrite lookup_insert_ne, app_nil_r by done. done.
  - split; [simpl; by f_equal|]. intros [|j] o' g; simpl.
    + intros [= <-] [= <-]. split; [lia|]. rewrite Nat2Z.id, Z.eqb_refl, Z.add_0_r, (assoc_L (++)), lookup_app_r by done.
      by rewrite Nat.sub_diag.
    + intros Ho Hgj. destruct (HN j o' g Ho Hgj) as [G L]. split; [done|]. rewrite Eo, <- (assoc_L (++)) in L.
      etransitivity; [exact L|]. do 3 f_equal. lia.
Qed.

(** *** Pushing a transaction *)

Lemma find_tx_old s s' l o info : seg_transactions s' = seg_transactions s ++ l ->
  find_tx s o = Some info -> find_tx s' o = Some info.
Proof.
  unfold find_tx. intros -> ([i t] & E & H)%fmap_Some. apply fmap_Some. exists (i, t). split; [|done]. by apply list_find_app_l.
Qed.

Lemma find_tx_new s s' o info : seg_transactions s' = seg_transactions s ++ [info] ->
  find_tx s o = None -> ct_blockIndex info = po_blockIndex o -> ct_transactionIndex info = po_transactionIndex o ->
  find_tx s' o = Some info.
Proof.
  unfold find_tx. intros -> H%fmap_None Hb Ht. rewrite list_find_app_r by done. simpl. by rewrite decide_True by done.
Qed.

Lemma find_by_hash_old s s' l h info : seg_transactions s' = seg_transactions s ++ l ->
  find_by_hash s h = Some info -> find_by_hash s' h = Some info.
Proof.
  unfold find_by_hash. intros -> ([i t] & E & H)%fmap_Some. apply fmap_Some. exists (i, t). split; [|done]. by apply list_find_app_l.
Qed.

Lemma find_by_hash_new s s' info : seg_transactions s' = seg_transactions s ++ [info] ->
  ct_transactionHash info ∉ ct_transactionHash <$> seg_transactions s -> find_by_hash s' (ct_transactionHash info) = Some info.
Proof.
  unfold find_by_hash. intros -> H. rewrite list_find_app_r; [simpl; by rewrite decide_True by done|].
  apply list_find_None, Forall_forall. intros t Ht E. apply H. rewrite <- E. by apply list_elem_of_fmap_2.
Qed.

Lemma find_tx_fresh s idx ti o : Forall (fun t => ct_blockIndex t = idx -> ct_transactionIndex t < ti) (seg_transactions s) ->
  po_blockIndex o = idx -> po_transactionIndex o = ti -> find_tx s o = None.
Proof.
  intros H Hb Ht. unfold find_tx. apply fmap_None, list_find_None. eapply Forall_impl; [exact H|]. simpl.
  intros t L [E1 E2]. specialize (L ltac:(congruence)). lia.
Qed.

Definition tx_info (idx ti : Z) (h : Hash) (t : TransactionPrefix) (gs : list Z) : CachedTransactionInfo :=
  {| ct_blockIndex := idx; ct_transactionIndex := ti; ct_transactionHash := h; ct_unlockTime := unlockTime t;
     ct_outputs := target <$> outputs t; ct_globalIndexes := gs |}.

(** The segment [s'] is [s] with one more transaction. *)
Record tx_pushed (ps : Cache) (s s' : Segment) (idx ti : Z) (h : Hash) (t : TransactionPrefix) : Prop := {
  tp_start : seg_startIndex s' = seg_startIndex s;
  tp_blocks : seg_blockInfos s' = seg_blockInfos s;
  tp_storage : seg_storage s' = seg_storage s;
  tp_spent : seg_spentKeyImages s' = seg_spentKeyImages s;
  tp_txs : exists gs, seg_transactions s' = seg_transactions s ++ [tx_info idx ti h t gs]
    /\ numbered (all_outputs (s' :: ps)) idx ti 0 (outputs t) gs;
  tp_index : after_outputs ps s (fun a => packed idx ti 0 a (outputs t)) (seg_keyOutputsGlobalIndexes s') }.

Lemma after_outputs_seg ps s new s' : after_outputs ps s new (seg_keyOutputsGlobalIndexes s') ->
  forall amount, seg_outputs s' amount = seg_outputs s amount ++ new amount.
Proof.
  intros H amount. unfold seg_outputs at 1. rewrite H. destruct (new amount) eqn:E; [by rewrite app_nil_r|done].
Qed.

Lemma tx_pushed_ok ps s s' idx ti h t raws : tx_pushed ps s s' idx ti h t -> seg_ok ps (set_storage raws s) ->
  idx + 1 = seg_startIndex s + Z.of_nat (length (seg_blockInfos s)) -> seg_startIndex s <= idx ->
  Z.of_nat (length (outputs t)) <= 65535 ->
  Forall (fun t => ct_blockIndex t = idx -> ct_transactionIndex t < ti) (seg_transactions s) ->
  (forall amount, Z.of_nat (length (all_outputs ps amount)) + Z.of_nat (length (seg_outputs s' amount)) < 2 ^ 32) ->
  seg_ok ps (set_storage raws s').
Proof.
  intros [Es Eb Eg Ek (gs & Et & _) Ei] [S1 S2 S3 S4 S5 S6 S7] Hi Hge Hl Hti B. simpl in *.
  pose proof (after_outputs_seg _ _ _ _ Ei) as Eo.
  split; simpl; rewrite ?Es, ?Eb, ?Ek; try done.
  { rewrite Et. apply Forall_app. split; [done|]. constructor; [simpl; lia|done]. }
  intros amount e He. specialize (B amount). assert (Hout : seg_outputs s' amount = oi_outputs e) by (unfold seg_outputs; by rewrite He).
  rewrite Hout in B. rewrite Ei in He. rewrite Eo in Hout. set (new := packed idx ti 0 amount (outputs t)) in *.
  assert (Old : Forall (fun o => exists info t, find_tx s o = Some info /\ ct_outputs info !! Z.to_nat (po_outputIndex o) = Some t) (seg_outputs s amount)
    /\ Forall (fun o => seg_startIndex s <= po_blockIndex o <= idx) (seg_outputs s amount)
    /\ StronglySorted (fun o o' => po_blockIndex o <= po_blockIndex o') (seg_outputs s amount)).
  { unfold seg_outputs. destruct (_ !! amount) as [e0|] eqn:E0; [|by repeat constructor].
    destruct (S7 _ _ E0). split_and!; [done| |done]. eapply Forall_impl; [exact oo_range0|]. simpl. lia. }
  destruct Old as (Of & Or & Os).
  assert (New : Forall (fun o => po_blockIndex o = idx /\ exists info t, find_tx (set_storage raws s') o = Some info
      /\ ct_outputs info !! Z.to_nat (po_outputIndex o) = Some t) new).
  { apply Forall_forall. intros o (j & Hj & ->)%packed_spec. split; [done|]. simpl. rewrite wrap_small by width_solve.
    destruct (lookup_lt_is_Some_2 (outputs t) j Hj) as [out Hout']. exists (tx_info idx ti h t gs), (target out).
    split; [|simpl; rewrite list_lookup_fmap; replace (Z.to_nat _) with j by lia; by rewrite Hout'].
    apply (find_tx_new s); [done| |done|done]. by eapply find_tx_fresh. }
  split; simpl.
  - destruct new; [|by injection He as <-]. apply (oo_start _ _ _ _ (S7 _ _ He)).
  - destruct new; [|injection He as <-; simpl; by destruct (seg_outputs s amount)]. apply (oo_some _ _ _ _ (S7 _ _ He)).
  - rewrite <- Hout. apply StronglySorted_app_2; [|done|].
    + intros x y Hx Hy. rewrite Forall_forall in Or, New. specialize (Or x Hx). specialize (New y Hy). simpl in *. lia.
    + clear -New. induction New as [|x l [Hx _] H IH]; [constructor|]. constructor; [done|].
      eapply Forall_impl; [exact H|]. intros y [Hy _]. lia.
  - rewrite <- Hout. apply Forall_app. rewrite Es, Eb. split; (eapply Forall_impl; [eassumption|]); simpl; intros o; [lia|]. intros [-> _]. lia.
  - rewrite <- Hout. apply Forall_app. split; [|eapply Forall_impl; [exact New|]; by intros o [_ ?]].
    eapply Forall_impl; [exact Of|]. intros o (info & x & Hf & Hx). exists info, x. split; [|done].
    by eapply find_tx_old.
  - done.
Qed.

Section pushing.
Context (cn_fast_hash : bytes -> Hash) (ps : Cache) (idx : Z).
Context (Hps : chain_ok ps) (Hidx : height ps <= idx).

(** Transactions that can be pushed: their hashes, and the sizes the code asserts. *)
Definition tx_fits (tx : CachedTransaction) (h : Hash) : Prop :=
  getTransactionHash cn_fast_hash tx = Ok h /\ is_ok (getPaymentIdFromTxExtra (extra (tx_prefix (getTransaction tx)))) = true
  /\ Z.of_nat (length (outputs (tx_prefix (getTransaction tx)))) <= 65535.
Definition tx_packed (ti amount : Z) (tx : CachedTransaction) : list PackedOutIndex :=
  packed idx ti 0 amount (outputs (tx_prefix (getTransaction tx))).

Definition starts_ok (s : Segment) : Prop := forall amount e,
  seg_keyOutputsGlobalIndexes s !! amount = Some e -> oi_startIndex e = Z.of_nat (length (all_outputs ps amount)).
Definition ti_fresh (s : Segment) (ti : Z) : Prop := Forall (fun t => ct_blockIndex t = idx -> ct_transactionIndex t < ti) (seg_transactions s).
Definition hashes (s : Segment) : list Hash := ct_transactionHash <$> seg_transactions s.

Lemma push_tx_returns s tx ti h : starts_ok s -> ti_fresh s ti -> tx_fits tx h -> h ∉ hashes s ->
  (forall amount, Z.of_nat (length (all_outputs ps amount)) + Z.of_nat (length (seg_outputs s amount))
                  + Z.of_nat (length (tx_packed ti amount tx)) < 2 ^ 32) ->
  exists s', cache_pushTransaction cn_fast_hash (s :: ps) tx idx ti = Ok (s' :: ps)
    /\ tx_pushed ps s s' idx ti h (tx_prefix (getTransaction tx)).
Proof using Hps Hidx.
  intros Hst Hti (Hh & He & Hl) Hf B. unfold cache_pushTransaction. rewrite Hh. okbind.
  rewrite (proj2 (Z.leb_le _ _)) by done. okbind.
  destruct (push_outputs_ok ps idx ti (outputs (tx_prefix (getTransaction tx))) Hps Hidx s 0) as (M & gs & -> & HM & HN); [done|done|].
  okbind. set (s1 := set_keyOutputs M s). assert (cache_hasTransaction s1 h = false) as ->.
  { apply not_true_iff_false. unfold cache_hasTransaction. rewrite existsb_exists. intros (t & Ht & E).
    apply bool_decide_eq_true in E. apply Hf. unfold hashes. rewrite <- E. by apply list_elem_of_fmap_2, list_elem_of_In. }
  okbind. rewrite (find_tx_fresh s1 idx ti) by done. rewrite (bool_decide_eq_false_2 (is_Some None)) by by intros [? [=]].
  destruct (getPaymentIdFromTxExtra _) as [pid| |]; [|done|done]. okbind.
  eexists. split; [reflexivity|]. set (s2 := set_transactions _ s1).
  assert (P : tx_pushed ps s s2 idx ti h (tx_prefix (getTransaction tx))).
  { split; try done. exists gs. split; [done|]. destruct HN as [HL HN]. split; [done|]. intros j o g Ho Hg.
    destruct (HN j o g Ho Hg) as [G E]. split; [done|]. simpl. rewrite (after_outputs_seg ps s _ s2 HM). done. }
  destruct pid as [id|]; [|done]. case_bool_decide; [done|]. by destruct P.
Qed.

(** The transactions of a block, from position [ti] on. *)
Fixpoint txs_packed (ti amount : Z) (l : list CachedTransaction) : list PackedOutIndex :=
  match l with [] => [] | tx :: l => tx_packed ti amount tx ++ txs_packed (ti + 1) amount l end.

(** The segment [s'] is [s] with the transactions [l]. *)
Record txs_pushed (s s' : Segment) (ti : Z) (l : list CachedTransaction) (hs : list Hash) : Prop := {
  tsp_start : seg_startIndex s' = seg_startIndex s;
  tsp_blocks : seg_blockInfos s' = seg_blockInfos s;
  tsp_storage : seg_storage s' = seg_storage s;
  tsp_spent : seg_spentKeyImages s' = seg_spentKeyImages s;
  tsp_hashes : hashes s' = hashes s ++ hs;
  tsp_outputs : forall amount, seg_outputs s' amount = seg_outputs s amount ++ txs_packed ti amount l;
  tsp_numbered : forall j tx h, l !! j = Some tx -> hs !! j = Some h -> exists gs,
    let info := tx_info idx (ti + Z.of_nat j) h (tx_prefix (getTransaction tx)) gs in
    find_by_hash s' h = Some info
    /\ (forall k, find_tx s' {| po_blockIndex := idx; po_transactionIndex := ti + Z.of_nat j; po_outputIndex := k |} = Some info)
    /\ numbered (all_outputs (s' :: ps)) idx (ti + Z.of_nat j) 0 (outputs (tx_prefix (getTransaction tx))) gs;
  tsp_fresh : ti_fresh s' (ti + Z.of_nat (length l));
  tsp_kept : seg_transactions s `prefix_of` seg_transactions s' }.

Lemma numbered_app all more ti k l gs : numbered all idx ti k l gs -> numbered (fun a => all a ++ more a) idx ti k l gs.
Proof.
  intros [HL H]. split; [done|]. intros j o g Ho Hg. destruct (H j o g Ho Hg) as [G E]. split; [done|]. by apply lookup_app_l_Some.
Qed.

Lemma numbered_ext all all' ti k l gs : (forall a, all a = all' a) -> numbered all idx ti k l gs -> numbered all' idx ti k l gs.
Proof. intros E [HL H]. split; [done|]. intros j o g Ho Hg. rewrite <- E. by apply H. Qed.

Lemma txs_pushed_nil s ti : ti_fresh s ti -> txs_pushed s s ti [] [].
Proof.
  intros H. split; try done; [by rewrite app_nil_r|intros; simpl; by rewrite app_nil_r|]. simpl. by rewrite Z.add_0_r.
Qed.

Lemma txs_pushed_cons s s1 s' ti tx l h hs : ti_fresh s ti -> h ∉ hashes s -> tx_pushed ps s s1 idx ti h (tx_prefix (getTransaction tx)) ->
  txs_pushed s1 s' (ti + 1) l hs -> txs_pushed s s' ti (tx :: l) (h :: hs).
Proof.
  intros Hti Hh0 [P1 P2 P3 P4 (gs & P5 & P6) P7] [Q1 Q2 Q3 Q4 Q5 Q6 Q7 Q8 Q9].
  split; try congruence.
  - rewrite Q5. unfold hashes. rewrite P5, fmap_app, <- (assoc_L (++)). done.
  - intros a. rewrite Q6, (after_outputs_seg _ _ _ _ P7), <- (assoc_L (++)). done.
  - intros [|j] tx' h' Htx Hh.
    + injection Htx as <-. injection Hh as <-. exists gs. rewrite Z.add_0_r. destruct Q9 as [l' Q9]. split_and!.
      * eapply find_by_hash_old; [exact Q9|]. exact (find_by_hash_new s s1 _ P5 Hh0).
      * intros k. eapply find_tx_old; [exact Q9|]. apply (find_tx_new s); [done| |done|done]. by eapply find_tx_fresh.
      * eapply numbered_ext; [|exact (numbered_app _ (fun a => txs_packed (ti + 1) a l) _ _ _ _ P6)].
        intros a. simpl. by rewrite Q6, (assoc_L (++)).
    + replace (ti + Z.of_nat (S j)) with (ti + 1 + Z.of_nat j) by lia. by apply Q7.
  - replace (ti + Z.of_nat (length (tx :: l))) with (ti + 1 + Z.of_nat (length l)); [done|simpl; lia].
  - etransitivity; [|exact Q9]. rewrite P5. by eexists.
Qed.

Lemma seg_starts raws s : seg_ok ps (set_storage raws s) -> starts_ok s.
Proof. intros H a e He. apply (oo_start _ _ _ _ (so_outputs _ _ H a e He)). Qed.

Lemma push_txs_ok raws l : forall s ti hs, seg_ok ps (set_storage raws s) ->
  idx + 1 = seg_startIndex s + Z.of_nat (length (seg_blockInfos s)) -> seg_startIndex s <= idx ->
  ti_fresh s ti -> 0 <= ti -> ti + Z.of_nat (length l) <= 65536 -> Forall2 tx_fits l hs -> NoDup hs ->
  Forall (fun h => h ∉ hashes s) hs ->
  (forall amount, Z.of_nat (length (all_outputs ps amount)) + Z.of_nat (length (seg_outputs s amount))
                  + Z.of_nat (length (txs_packed ti amount l)) < 2 ^ 32) ->
  exists s', push_transactions cn_fast_hash (s :: ps) idx ti l = Ok (s' :: ps)
    /\ txs_pushed s s' ti l hs /\ seg_ok ps (set_storage raws s').
Proof using Hps Hidx.
  induction l as [|tx l IH]; intros s ti hs Hs Hi Hge Hti H0 Hl Hf N D B.
  { inv Hf. exists s. split_and!; [done|by apply txs_pushed_nil|done]. }
  inv Hf. rename select (tx_fits _ _) into Hf. rename select (Forall2 _ _ _) into Hfs. apply NoDup_cons in N as [Nh N]. inv D.
  assert (Bl : forall amount, length (txs_packed ti amount (tx :: l))
    = (length (tx_packed ti amount tx) + length (txs_packed (ti + 1) amount l))%nat) by (intros; simpl; by rewrite length_app).
  simpl in Hl. cbn [push_transactions]. rewrite wrap_small by width_solve.
  destruct (push_tx_returns s tx ti y) as (s1 & -> & P); [by eapply seg_starts|done|done|done| |].
  { intros a. specialize (B a). rewrite Bl in B. lia. }
  okbind. pose proof P as [P1 P2 P3 P4 (gs & P5 & P6) P7].
  assert (Eo : forall a, seg_outputs s1 a = seg_outputs s a ++ tx_packed ti a tx) by exact (after_outputs_seg _ _ _ _ P7).
  destruct (IH s1 (ti + 1) l') as (s' & E & Q & Hs'); try done; try (rewrite ?P1, ?P2; lia).
  - eapply tx_pushed_ok; try done; [apply Hf|]. intros a. specialize (B a). rewrite Bl in B. rewrite Eo, length_app. lia.
  - unfold ti_fresh. rewrite P5. apply Forall_app. split; [|constructor; [simpl; lia|done]].
    eapply Forall_impl; [exact Hti|]. simpl. intros t Ht E. specialize (Ht E). lia.
  - apply Forall_forall. intros h Hh. unfold hashes. rewrite P5, fmap_app. simpl. rewrite elem_of_app, list_elem_of_singleton.
    intros [Hin| ->]; [|done]. rename select (Forall _ l') into D'. rewrite Forall_forall in D'. by apply (D' h Hh).
  - intros a. specialize (B a). rewrite Bl in B. rewrite Eo, length_app. lia.
  - exists s'. split_and!; [done|by eapply txs_pushed_cons|done].
Qed.

Lemma hasTransaction_spec s h : cache_hasTransaction s h = false <-> h ∉ hashes s.
Proof.
  unfold cache_hasTransaction, hashes. rewrite <- not_true_iff_false, existsb_exists, list_elem_of_fmap. split; intros N H; apply N.
  - destruct H as (t & -> & Ht). exists t. split; [by apply list_elem_of_In|by apply bool_decide_eq_true_2].
  - destruct H as (t & Ht & E). apply bool_decide_eq_true in E. exists t. split; [done|by apply list_elem_of_In].
Qed.

(** What a push that returned has checked. *)
Lemma push_tx_inv s tx ti c' : starts_ok s ->
  (forall amount, Z.of_nat (length (all_outputs ps amount)) + Z.of_nat (length (seg_outputs s amount))
                  + Z.of_nat (length (tx_packed ti amount tx)) < 2 ^ 32) ->
  cache_pushTransaction cn_fast_hash (s :: ps) tx idx ti = Ok c' -> exists h, tx_fits tx h /\ h ∉ hashes s.
Proof using Hps Hidx.
  intros Hst B H. unfold cache_pushTransaction in H. apply bind_ok in H as (h & Hh & H). apply bind_ok in H as (u & Hl & H).
  apply assert_ok, Z.leb_le in Hl.
  destruct (push_outputs_ok ps idx ti (outputs (tx_prefix (getTransaction tx))) Hps Hidx s 0) as (M & gs & E & _); [done|done|].
  rewrite E in H. clear E. cbn [mbind outcome_bind] in H. apply bind_ok in H as (u' & Hn & H). apply assert_ok, negb_true_iff in Hn.
  apply bind_ok in H as (pid & Hp & H). exists h. split; [split_and!; [done|by rewrite Hp|done]|].
  apply (hasTransaction_spec (set_keyOutputs M s)). exact Hn.
Qed.

Lemma push_txs_inv raws l : forall s ti c', seg_ok ps (set_storage raws s) ->
  idx + 1 = seg_startIndex s + Z.of_nat (length (seg_blockInfos s)) -> seg_startIndex s <= idx ->
  ti_fresh s ti -> 0 <= ti -> ti + Z.of_nat (length l) <= 65536 ->
  (forall amount, Z.of_nat (length (all_outputs ps amount)) + Z.of_nat (length (seg_outputs s amount))
                  + Z.of_nat (length (txs_packed ti amount l)) < 2 ^ 32) ->
  push_transactions cn_fast_hash (s :: ps) idx ti l = Ok c' ->
  exists hs, Forall2 tx_fits l hs /\ NoDup hs /\ Forall (fun h => h ∉ hashes s) hs.
Proof using Hps Hidx.
  induction l as [|tx l IH]; intros s ti c' Hs Hi Hge Hti H0 Hl B H; [exists []; split_and!; constructor|].
  assert (Bl : forall amount, length (txs_packed ti amount (tx :: l))
    = (length (tx_packed ti amount tx) + length (txs_packed (ti + 1) amount l))%nat) by (intros; simpl; by rewrite length_app).
  simpl in Hl. cbn [push_transactions] in H. rewrite wrap_small in H by width_solve. apply bind_ok in H as (c1 & H1 & H).
  assert (Bt : forall amount, Z.of_nat (length (all_outputs ps amount)) + Z.of_nat (length (seg_outputs s amount))
                  + Z.of_nat (length (tx_packed ti amount tx)) < 2 ^ 32) by (intros a; specialize (B a); rewrite Bl in B; lia).
  destruct (push_tx_inv s tx ti c1) as (h & Hf & Hh); [by eapply seg_starts|done|done|].
  destruct (push_tx_returns s tx ti h) as (s1 & E & P); [by eapply seg_starts|done|done|done|done|].
  rewrite E in H1. apply Ok_inj in H1 as <-. pose proof P as [P1 P2 P3 P4 (gs & P5 & P6) P7].
  assert (Eo : forall a, seg_outputs s1 a = seg_outputs s a ++ tx_packed ti a tx) by exact (after_outputs_seg _ _ _ _ P7).
  destruct (IH s1 (ti + 1) c') as (hs & Q1 & Q2 & Q3); try done; try (rewrite ?P1, ?P2; lia).
  - eapply tx_pushed_ok; try done; [apply Hf|]. intros a. specialize (B a). rewrite Bl in B. rewrite Eo, length_app. lia.
  - unfold ti_fresh. rewrite P5. apply Forall_app. split; [|constructor; [simpl; lia|done]].
    eapply Forall_impl; [exact Hti|]. simpl. intros t Ht E'. specialize (Ht E'). lia.
  - intros a. specialize (B a). rewrite Bl in B. rewrite Eo, length_app. lia.
  - assert (Hs1 : hashes s1 = hashes s ++ [h]) by (unfold hashes; by rewrite P5, fmap_app). rewrite Forall_forall in Q3.
    exists (h :: hs). split_and!; [by constructor| |].
    + apply NoDup_cons. split; [|done]. intros Hin. apply (Q3 h Hin). rewrite Hs1. set_solver.
    + constructor; [done|]. apply Forall_forall. intros x Hx Hin. apply (Q3 x Hx). rewrite Hs1. set_solver.
Qed.

End pushing.

(** *** Pushing a block *)

Lemma add_image_ok ps s raws ki idx : chain_ok (set_storage raws s :: ps) -> 0 <= idx ->
  seg_startIndex s <= idx < seg_startIndex s + Z.of_nat (length (seg_blockInfos s)) -> all_spent (s :: ps) !! ki = None ->
  let s' := set_spentKeyImages (<[ki := idx]> (seg_spentKeyImages s)) s in
  addSpentKeyImage (s :: ps) ki idx = Ok (s' :: ps) /\ chain_ok (set_storage raws s' :: ps).
Proof.
  intros H H0 Hi F s'. pose proof F as [F1 F2]%lookup_union_None. unfold addSpentKeyImage.
  change (checkIfSpent_at (s :: ps)) with (checkIfSpent_at (set_storage raws s :: ps)).
  rewrite (spent_ok _ ki); [|done|done|apply wrap_range; lia]. change (all_spent (set_storage raws s :: ps)) with (all_spent (s :: ps)).
  rewrite F. okbind. simpl. rewrite F1. split; [done|]. destruct H as ([] & Hps & N). simpl in *. split_and!; [|done|done].
  split; simpl; try done.
  - intros ki' b. destruct (decide (ki = ki')) as [<-|Ne]; [rewrite lookup_insert_eq; by intros [= <-]|].
    rewrite lookup_insert_ne by done. apply so_spent0.
  - by apply map_disjoint_insert_l_2.
  - intros a e He. by destruct (so_outputs0 _ _ He).
Qed.

Lemma add_images_ok ps raws idx l : 0 <= idx -> NoDup l -> forall s, chain_ok (set_storage raws s :: ps) ->
  seg_startIndex s <= idx < seg_startIndex s + Z.of_nat (length (seg_blockInfos s)) ->
  Forall (fun ki => all_spent (s :: ps) !! ki = None) l ->
  exists m, foldM (fun c ki => addSpentKeyImage c ki idx) (s :: ps) l = Ok (set_spentKeyImages m s :: ps)
    /\ chain_ok (set_storage raws (set_spentKeyImages m s) :: ps)
    /\ forall ki, m !! ki = if decide (ki ∈ l) then Some idx else seg_spentKeyImages s !! ki.
Proof.
  intros H0. induction 1 as [|ki l Hki _ IH]; intros s H Hi F.
  { exists (seg_spentKeyImages s). split_and!; [by destruct s|by destruct s|]. intros. by rewrite decide_False by apply not_elem_of_nil. }
  apply Forall_cons in F as [Fk F]. destruct (add_image_ok ps s raws ki idx H H0 Hi Fk) as [E H']. cbn [foldM]. rewrite E. okbind.
  destruct (IH _ H') as (m & E' & H'' & Hm); [done| |].
  - apply Forall_forall. intros k Hk. simpl. rewrite lookup_union, lookup_insert_ne by by intros ->.
    rewrite Forall_forall in F. specialize (F k Hk). simpl in F. by rewrite lookup_union in F.
  - exists m. split_and!; [done|done|]. intros k. rewrite Hm. simpl. destruct (decide (k = ki)) as [->|Nk].
    + rewrite decide_False, decide_True by (done || apply list_elem_of_here). apply lookup_insert_eq.
    + rewrite lookup_insert_ne by done. apply decide_ext. rewrite elem_of_cons. naive_solver.
Qed.

Definition totals (o : option CachedBlockInfo) : Z * Z * Z :=
  match o with
  | Some b => (bi_cumulativeDifficulty b, bi_alreadyGeneratedCoins b, bi_alreadyGeneratedTransactions b)
  | None => (0, 0, 0)
  end.

Lemma previous_totals_ok s ps : chain_ok (s :: ps) -> previous_totals (s :: ps) (height (s :: ps)) = Ok (totals (last (all_blocks (s :: ps)))).
Proof.
  intros H. unfold previous_totals. simpl all_blocks. rewrite last_app. destruct (last (seg_blockInfos s)) as [b|] eqn:E; [done|].
  apply last_None in E. rewrite height_cons, E. change (Z.of_nat (length [])) with 0. rewrite Z.add_0_r. destruct H as (_ & Hps & N).
  destruct ps as [|p qs]; [done|]. pose proof (all_blocks_nonempty _ N ltac:(done)) as P. pose proof (chain_bound _ Hps) as B.
  rewrite wrap_small by (unfold in_width, height in *; lia).
  destruct (info_at_ok _ Hps (height (p :: qs) - 1)) as (b & Hb & Hi); [unfold height; lia|].
  rewrite last_lookup. replace (pred (length _)) with (Z.to_nat (height (p :: qs) - 1)) by (unfold height; lia). rewrite Hb.
  unfold getAlreadyGeneratedCoins, getAlreadyGeneratedTransactions, getCurrentCumulativeDifficulty. rewrite Hi. okbind.
  rewrite (top_index p qs Hps) by by inv N. okbind. rewrite Z.leb_refl. okbind.
  cbn [info_at] in Hi. rewrite (proj2 (Z.ltb_ge _ _)) in Hi; [by rewrite Hi|].
  destruct Hps as ([] & _). rewrite height_cons, so_start0. inv N. pose proof (nonempty_length p ltac:(done)). lia.
Qed.

(** What [Core] guarantees when it pushes a block on the cache [s :: ps]. *)
Record push_ready (cn_fast_hash : bytes -> Hash) (s : Segment) (ps : Cache) (b : BlockTemplate) (txs : list CachedTransaction)
    (spent : TransactionValidatorState) (blockSize difficulty : Z) (h : Hash) (hs : list Hash) : Prop := {
  pr_index : getBlockIndex b = height (s :: ps);
  pr_bound : height (s :: ps) + 1 < 2 ^ 32;
  pr_size : 0 < blockSize;
  pr_difficulty : 0 < difficulty;
  pr_hash : getBlockHash cn_fast_hash b = Ok h;
  pr_new : h ∉ bi_blockHash <$> seg_blockInfos s;
  pr_count : Z.of_nat (length txs) <= 65535;
  pr_txs : Forall2 (tx_fits cn_fast_hash) (CachedTransaction_of (baseTransaction b) :: txs) hs;
  pr_hashes : NoDup hs /\ Forall (fun h => h ∉ hashes s) hs;
  pr_spent : spent ## dom (all_spent (s :: ps));
  pr_outputs : forall amount, Z.of_nat (length (all_outputs (s :: ps) amount))
    + Z.of_nat (length (txs_packed (height (s :: ps)) 0 amount (CachedTransaction_of (baseTransaction b) :: txs))) < 2 ^ 32 }.

Definition pushed_info (c : Cache) (b : BlockTemplate) (h : Hash) (ntxs : nat) (blockSize generatedCoins difficulty : Z) : CachedBlockInfo :=
  let '(d, g, t) := totals (last (all_blocks c)) in
  {| bi_blockHash := h; bi_timestamp := timestamp (header b); bi_cumulativeDifficulty := u64 (d + difficulty);
     bi_alreadyGeneratedCoins := u64 (g + generatedCoins);
     bi_alreadyGeneratedTransactions := u64 (t + (Z.of_nat ntxs + 1)); bi_blockSize := u32 blockSize |}.

(** Room for one more block. *)
Lemma add_block_ok ps s info raw : chain_ok (s :: ps) -> height (s :: ps) + 1 < 2 ^ 32 ->
  chain_ok (set_storage (seg_storage s ++ [raw]) (set_blockInfos (seg_blockInfos s ++ [info]) s) :: ps).
Proof.
  intros ([] & Hps & N) B. rewrite height_cons in B. split_and!; [|done|done]. split; simpl; rewrite ?length_app; simpl; try done; try lia.
  - intros ki b Hb. apply so_spent0 in Hb. lia.
  - eapply Forall_impl; [exact so_txs0|]. simpl. lia.
  - intros a e He. destruct (so_outputs0 _ _ He). split; try done. simpl. rewrite length_app. simpl.
    eapply Forall_impl; [exact oo_range0|]. simpl. lia.
Qed.

Lemma hasBlock_false s h : h ∉ bi_blockHash <$> seg_blockInfos s -> cache_hasBlock s h = false.
Proof.
  intros N. apply not_true_iff_false. unfold cache_hasBlock. rewrite existsb_exists. intros (b & Hb & E).
  apply bool_decide_eq_true in E. apply N. rewrite <- E. by apply list_elem_of_fmap_2, list_elem_of_In.
Qed.

Lemma push_ok cn_fast_hash s ps b txs spent blockSize coins difficulty h hs raw :
  chain_ok (s :: ps) -> push_ready cn_fast_hash s ps b txs spent blockSize difficulty h hs ->
  exists s', doPushBlock cn_fast_hash (s :: ps) b txs spent blockSize coins difficulty raw = Ok (s' :: ps)
    /\ chain_ok (s' :: ps)
    /\ seg_blockInfos s' = seg_blockInfos s ++ [pushed_info (s :: ps) b h (length txs) blockSize coins difficulty]
    /\ seg_storage s' = seg_storage s ++ [raw] /\ seg_startIndex s' = seg_startIndex s
    /\ (forall ki, seg_spentKeyImages s' !! ki = if decide (ki ∈ spent) then Some (height (s :: ps)) else seg_spentKeyImages s !! ki)
    /\ (forall amount, seg_outputs s' amount = seg_outputs s amount
          ++ txs_packed (height (s :: ps)) 0 amount (CachedTransaction_of (baseTransaction b) :: txs))
    /\ (forall j tx h, (CachedTransaction_of (baseTransaction b) :: txs) !! j = Some tx -> hs !! j = Some h -> exists gs,
          let info := tx_info (height (s :: ps)) (Z.of_nat j) h (tx_prefix (getTransaction tx)) gs in
          find_by_hash s' h = Some info
          /\ (forall k, find_tx s' {| po_blockIndex := height (s :: ps); po_transactionIndex := Z.of_nat j; po_outputIndex := k |} = Some info)
          /\ numbered (all_outputs (s' :: ps)) (height (s :: ps)) (Z.of_nat j) 0 (outputs (tx_prefix (getTransaction tx))) gs).
Proof.
  intros H []. unfold doPushBlock. rewrite (proj2 (Z.ltb_lt _ _)), (proj2 (Z.ltb_lt _ _)) by done. okbind.
  rewrite pr_index0, previous_totals_ok, pr_hash0 by done. unfold pushed_info.
  destruct (totals (last (all_blocks (s :: ps)))) as [[d g] t] eqn:Et. okbind.
  rewrite hasBlock_false by done. okbind. set (info := Build_CachedBlockInfo _ _ _ _ _ _).
  set (idx := height (s :: ps)) in *. set (s1 := set_blockInfos _ s). set (raws := seg_storage s ++ [raw]).
  pose proof (height_nonneg (s :: ps)) as Hnn. fold idx in Hnn. assert (Ei : idx = height (s :: ps)) by done.
  pose proof (add_block_ok ps s info raw H pr_bound0) as H1. rewrite height_cons in Ei. pose proof (proj1 H) as [So _ _ _ _ _ _].
  assert (L1 : Z.of_nat (length (seg_blockInfos s1)) = Z.of_nat (length (seg_blockInfos s)) + 1) by (simpl; rewrite length_app; simpl; lia).
  destruct (add_images_ok ps raws idx (elements spent) Hnn (NoDup_elements spent) s1 H1) as (m & -> & H2 & Hm).
  { simpl seg_startIndex. rewrite L1. lia. }
  { apply Forall_forall. intros ki Hki. apply not_elem_of_dom. apply elem_of_elements in Hki. set_solver. }
  okbind. rewrite (proj2 (Z.leb_le _ _)) by done. okbind. set (s2 := set_spentKeyImages m s1) in *.
  destruct (push_txs_ok cn_fast_hash ps idx (proj1 (proj2 H2)) ltac:(lia) raws (CachedTransaction_of (baseTransaction b) :: txs) s2 0 hs)
    as (s3 & E3 & Q & H3); try done; try (simpl; lia).
  { exact (proj1 H2). }
  { simpl seg_startIndex. change (seg_blockInfos s2) with (seg_blockInfos s1). rewrite L1. lia. }
  { unfold ti_fresh. simpl. eapply Forall_impl; [exact (so_txs _ _ (proj1 H))|]. simpl. lia. }
  { apply pr_hashes0. }
  { apply pr_hashes0. }
  { intros a. specialize (pr_outputs0 a). simpl all_outputs in pr_outputs0. rewrite length_app in pr_outputs0.
    change (seg_outputs s2 a) with (seg_outputs s a). lia. }
  cbn [push_transactions] in E3. change (u16 0) with 0 in E3. apply bind_ok in E3 as (c3 & -> & E3). okbind.
  change (0 + 1) with 1 in E3. rewrite E3. okbind. exists (set_storage raws s3). destruct Q.
  change (seg_storage s2) with (seg_storage s) in tsp_storage0. cbn [upd_head]. rewrite tsp_storage0.
  split_and!; [done|split_and!; [done|apply H|apply H]|done|done|done| |done|exact tsp_numbered0].
  intros ki. simpl. rewrite tsp_spent0. change (seg_spentKeyImages s2) with m. rewrite Hm. apply decide_ext, elem_of_elements.
Qed.

Lemma spent_pushed s s' ps spent (idx : Z) ki : spent ## dom (all_spent (s :: ps)) ->
  (forall ki, seg_spentKeyImages s' !! ki = if decide (ki ∈ spent) then Some idx else seg_spentKeyImages s !! ki) ->
  all_spent (s' :: ps) !! ki = if decide (ki ∈ spent) then Some idx else all_spent (s :: ps) !! ki.
Proof.
  intros D Ek. simpl. rewrite !lookup_union, Ek. case_decide as Hk; [|done]. assert (Hn : ki ∉ dom (all_spent (s :: ps))) by set_solver.
  apply not_elem_of_dom in Hn. simpl in Hn. apply lookup_union_None in Hn as [_ ->]. done.
Qed.

(** A push that returned was of a block that fits. *)
Lemma all_spent_range c ki b : chain_ok c -> all_spent c !! ki = Some b -> 0 <= b < height c.
Proof.
  induction c as [|s ps IH]; simpl; [by rewrite lookup_empty|]. intros ([] & Hps & _). rewrite height_cons, lookup_union_Some by done.
  pose proof (height_nonneg ps). intros [E|E]; [apply so_spent0 in E; lia|specialize (IH Hps E); lia].
Qed.

Lemma add_images_inv ps raws idx l c' : is_u32 idx -> NoDup l -> forall s, chain_ok (set_storage raws s :: ps) ->
  seg_startIndex s <= idx < seg_startIndex s + Z.of_nat (length (seg_blockInfos s)) ->
  Forall (fun ki => forall b, all_spent (s :: ps) !! ki = Some b -> b < idx) l ->
  foldM (fun c ki => addSpentKeyImage c ki idx) (s :: ps) l = Ok c' -> Forall (fun ki => all_spent (s :: ps) !! ki = None) l.
Proof.
  intros H0. induction 1 as [|ki l Hki _ IH]; intros s H Hi F E; [constructor|].
  apply Forall_cons in F as [Fk F]. cbn [foldM] in E. apply bind_ok in E as (c1 & E1 & E).
  assert (Hn : all_spent (s :: ps) !! ki = None).
  { unfold addSpentKeyImage in E1. change (checkIfSpent_at (s :: ps)) with (checkIfSpent_at (set_storage raws s :: ps)) in E1.
    rewrite (spent_ok _ ki) in E1; [|done|done|apply wrap_range; lia].
    change (all_spent (set_storage raws s :: ps)) with (all_spent (s :: ps)) in E1.
    destruct (all_spent (s :: ps) !! ki) as [b|] eqn:Eb; [|done]. exfalso. specialize (Fk b eq_refl).
    pose proof (all_spent_range (set_storage raws s :: ps) ki b H Eb) as R. apply bind_ok in E1 as (? & E0 & E1). apply Ok_inj in E0 as <-.
    rewrite wrap_small, (proj2 (Z.leb_le _ _)) in E1 by width_solve. done. }
  constructor; [done|]. destruct (add_image_ok ps s raws ki idx H ltac:(width_solve) Hi Hn) as [Ea H']. rewrite Ea in E1. apply Ok_inj in E1 as <-.
  assert (Same : forall k, k ∈ l -> all_spent (set_spentKeyImages (<[ki := idx]> (seg_spentKeyImages s)) s :: ps) !! k = all_spent (s :: ps) !! k).
  { intros k Hk. simpl. rewrite !lookup_union, lookup_insert_ne by by intros ->. done. }
  apply IH in E; [|done|done|].
  - apply Forall_forall. intros k Hk. rewrite Forall_forall in E. rewrite <- Same by done. by apply E.
  - apply Forall_forall. intros k Hk b. rewrite Forall_forall in F. rewrite Same by done. by apply F.
Qed.

Lemma push_inv cn_fast_hash s ps b txs spent blockSize coins difficulty raw c' :
  chain_ok (s :: ps) -> getBlockIndex b = height (s :: ps) -> height (s :: ps) + 1 < 2 ^ 32 ->
  (forall amount, Z.of_nat (length (all_outputs (s :: ps) amount))
    + Z.of_nat (length (txs_packed (height (s :: ps)) 0 amount (CachedTransaction_of (baseTransaction b) :: txs))) < 2 ^ 32) ->
  doPushBlock cn_fast_hash (s :: ps) b txs spent blockSize coins difficulty raw = Ok c' ->
  exists h hs, push_ready cn_fast_hash s ps b txs spent blockSize difficulty h hs.
Proof.
  intros H Ix Bd Bo E. unfold doPushBlock in E. apply bind_ok in E as (? & A1 & E). apply bind_ok in E as (? & A2 & E).
  apply assert_ok, Z.ltb_lt in A1, A2. rewrite Ix, previous_totals_ok in E by done.
  destruct (totals (last (all_blocks (s :: ps)))) as [[d g] t] eqn:Et. cbn [mbind outcome_bind] in E.
  apply bind_ok in E as (h & Hh & E). apply bind_ok in E as (? & A3 & E). apply assert_ok, negb_true_iff in A3.
  apply bind_ok in E as (c1 & E1 & E). apply bind_ok in E as (? & A4 & E). apply assert_ok, Z.leb_le in A4.
  set (info := Build_CachedBlockInfo _ _ _ _ _ _) in *. set (s1 := set_blockInfos _ s) in *. set (raws := seg_storage s ++ [raw]).
  set (idx := height (s :: ps)) in *. pose proof (height_nonneg (s :: ps)) as Hnn. fold idx in Hnn.
  assert (Ei : idx = height (s :: ps)) by done. rewrite height_cons in Ei.
  pose proof (add_block_ok ps s info raw H Bd) as H1. pose proof (proj1 H) as [So _ _ _ _ _ _].
  assert (L1 : Z.of_nat (length (seg_blockInfos s1)) = Z.of_nat (length (seg_blockInfos s)) + 1) by (simpl; rewrite length_app; simpl; lia).
  assert (R1 : seg_startIndex s1 <= idx < seg_startIndex s1 + Z.of_nat (length (seg_blockInfos s1))) by (rewrite L1; simpl seg_startIndex; lia).
  pose proof (add_images_inv ps raws idx (elements spent) c1 ltac:(width_solve) (NoDup_elements spent) s1 H1 R1) as Fi.
  assert (Fr : Forall (fun ki => all_spent (s1 :: ps) !! ki = None) (elements spent)).
  { apply Fi; [|exact E1]. apply Forall_forall. intros ki _ b' Hb'. apply (all_spent_range (s :: ps) ki b' H) in Hb'. fold idx in Hb'. lia. }
  destruct (add_images_ok ps raws idx (elements spent) Hnn (NoDup_elements spent) s1 H1 R1 Fr) as (m & E1' & H2 & Hm).
  rewrite E1' in E1. apply Ok_inj in E1 as <-. set (s2 := set_spentKeyImages m s1) in *.
  assert (E3 : exists c3, push_transactions cn_fast_hash (s2 :: ps) idx 0 (CachedTransaction_of (baseTransaction b) :: txs) = Ok c3).
  { apply bind_ok in E as (ca & Ea & E). apply bind_ok in E as (cb & Eb & E). exists cb. cbn [push_transactions].
    change (u16 0) with 0. rewrite Ea. exact Eb. }
  destruct E3 as [c3 E3]. destruct (push_txs_inv cn_fast_hash ps idx (proj1 (proj2 H2)) ltac:(lia) raws (CachedTransaction_of (baseTransaction b) :: txs) s2 0 c3 (proj1 H2)) as (hs & Q1 & Q2 & Q3);
    [| | |lia|simpl; lia| |exact E3|].
  - change (seg_blockInfos s2) with (seg_blockInfos s1). simpl seg_startIndex. lia.
  - simpl. lia.
  - unfold ti_fresh. simpl. eapply Forall_impl; [exact (so_txs _ _ (proj1 H))|]. simpl. lia.
  - intros a. specialize (Bo a). simpl all_outputs in Bo. rewrite length_app in Bo. change (seg_outputs s2 a) with (seg_outputs s a). lia.
  - exists h, hs. split; try done.
    + intros Hin. apply list_elem_of_fmap in Hin as (bx & Hx & Hin). apply not_true_iff_false in A3. apply A3.
      unfold cache_hasBlock. apply existsb_exists. exists bx. split; [by apply list_elem_of_In|by apply bool_decide_eq_true_2].
    + intros ki Hk Hd. apply elem_of_elements in Hk. rewrite Forall_forall in Fr. specialize (Fr ki Hk).
      apply elem_of_dom in Hd as [y Hy]. change (all_spent (s1 :: ps)) with (all_spent (s :: ps)) in Fr. congruence.
Qed.

(** *** Reading outputs by global index *)

Fixpoint find_any (c : Cache) (o : PackedOutIndex) : option CachedTransactionInfo :=
  match c with
  | [] => None
  | s :: ps => match find_tx s o with Some info => Some info | None => find_any ps o end
  end.

Section reading.
Context {S : Type} (pred : S -> CachedTransactionInfo -> PackedOutIndex -> outcome (ExtractOutputKeysResult * S)).

(** The reference: look every index up in the list of all outputs of the amount. *)
Fixpoint extract_flat (c : Cache) (amount : Z) (st : S) (l : list Z) : outcome (ExtractOutputKeysResult * S) :=
  match l with
  | [] => Ok (SUCCESS, st)
  | i :: l =>
      match (o ← all_outputs c amount !! Z.to_nat i; info ← find_any c o; Some (o, info)) with
      | None => Ok (INVALID_GLOBAL_INDEX, st)
      | Some (o, info) =>
          '(ret, st) ← pred st info o;
          match ret with SUCCESS => extract_flat c amount st l | _ => Ok (ret, st) end
      end
  end.

Lemma extract_flat_app c amount l1 l2 : forall st, extract_flat c amount st (l1 ++ l2) =
  ('(ret, st) ← extract_flat c amount st l1; match ret with SUCCESS => extract_flat c amount st l2 | _ => Ok (ret, st) end).
Proof.
  induction l1 as [|i l1 IH]; intros st; [done|]. simpl. destruct (_ ≫= _) as [[o info]|]; [|done].
  destruct (pred st info o) as [[ret st']| |]; [|done|done]. simpl. by destruct ret.
Qed.

Lemma output_below c amount o : chain_ok c -> o ∈ all_outputs c amount -> po_blockIndex o < height c.
Proof using.
  clear pred. induction c as [|s ps IH]; simpl; [by intros _ ?%not_elem_of_nil|]. intros ([] & Hps & _). rewrite elem_of_app, height_cons.
  intros [Ho|Ho]; [specialize (IH Hps Ho); lia|]. unfold seg_outputs in Ho. destruct (_ !! amount) as [e|] eqn:He; [|by apply not_elem_of_nil in Ho].
  destruct (so_outputs0 _ _ He). rewrite Forall_forall in oo_range0. specialize (oo_range0 _ Ho). lia.
Qed.

Lemma find_tx_below ps s o : seg_ok ps s -> po_blockIndex o < height ps -> find_tx s o = None.
Proof using.
  clear pred. intros [] Ho. unfold find_tx. apply fmap_None, list_find_None. eapply Forall_impl; [exact so_txs0|].
  simpl. intros t Ht [E _]. lia.
Qed.

Lemma extract_flat_below s ps amount l : chain_ok (s :: ps) ->
  Forall (fun i => all_outputs (s :: ps) amount !! Z.to_nat i = all_outputs ps amount !! Z.to_nat i) l ->
  forall st, extract_flat ps amount st l = extract_flat (s :: ps) amount st l.
Proof.
  intros (Hs & Hps & _). induction 1 as [|i l Hi _ IH]; intros st; [done|]. cbn [extract_flat]. rewrite Hi.
  destruct (all_outputs ps amount !! Z.to_nat i) as [o|] eqn:Ho; [|done]. cbn [mbind option_bind find_any].
  rewrite (find_tx_below ps s) by (done || by eapply output_below, list_elem_of_lookup_2).
  destruct (find_any ps o) as [info|]; [|done]. cbn [mbind option_bind].
  destruct (pred st info o) as [[ret st']| |]; [|done|done]. simpl. destruct ret; [apply IH|done|done].
Qed.

Lemma extract_loop_ok s ps amount e bi l : chain_ok (s :: ps) -> seg_keyOutputsGlobalIndexes s !! amount = Some e ->
  Forall (fun i => oi_startIndex e <= i < 2 ^ 32) l ->
  Forall (fun i => forall o, all_outputs (s :: ps) amount !! Z.to_nat i = Some o -> po_blockIndex o <= bi) l ->
  forall st, extract_loop s e bi pred st l = extract_flat (s :: ps) amount st l.
Proof.
  intros (Hs & Hps & _) He Hl Hb. pose proof (so_outputs _ _ Hs _ _ He) as []. induction Hl as [|i l Hi _ IH]; intros st; [done|].
  apply Forall_cons in Hb as [Hbi Hb]. cbn [extract_loop extract_flat]. rewrite wrap_small by width_solve.
  assert (E : all_outputs (s :: ps) amount !! Z.to_nat i = oi_outputs e !! Z.to_nat (i - oi_startIndex e)).
  { simpl. unfold seg_outputs. rewrite He, lookup_app_r by lia. f_equal. lia. }
  rewrite E in *. destruct (oi_outputs e !! _) as [o|] eqn:Ho; [|done]. specialize (Hbi o eq_refl).
  destruct (Forall_lookup_1 _ _ _ _ oo_found0 Ho) as (info & t & Hf & Ht).
  pose proof (Forall_lookup_1 _ _ _ _ oo_range0 Ho) as Hr. simpl in Hr.
  rewrite (proj2 (Z.leb_le (seg_startIndex s) _)), (proj2 (Z.leb_le _ bi)) by lia. okbind.
  cbn [mbind option_bind find_any]. rewrite Hf. cbn [mbind option_bind].
  destruct (pred st info o) as [[ret st']| |]; [|done|done]. simpl. destruct ret; [by apply IH|done|done].
Qed.

End reading.

Lemma no_adjacent_ok l : StronglySorted Z.lt l -> no_adjacent l = true.
Proof.
  induction 1 as [|x l Hl IH Hx]; [done|]. destruct l as [|y l]; [done|]. inv Hx. cbn [no_adjacent].
  rewrite (proj2 (Z.eqb_neq _ _)) by lia. done.
Qed.

Lemma check_indexes_ok l : ring_indexes l -> check_indexes l = Ok ().
Proof.
  intros (N & S & _). unfold check_indexes. rewrite bool_decide_eq_false_2 by done. okbind.
  unfold is_sorted. rewrite bool_decide_eq_true_2, (no_adjacent_ok l S); [done|].
  apply StronglySorted_Sorted. clear N. induction S as [|x l ? IH Hx]; constructor; [done|].
  eapply Forall_impl; [exact Hx|]. simpl. lia.
Qed.

Lemma ring_indexes_take n l : ring_indexes l -> (n <> 0)%nat -> ring_indexes (take n l).
Proof.
  intros (N & S & W) Hn. split_and!; [destruct l, n; naive_solver|by apply StronglySorted_take|by apply Forall_take].
Qed.

(** The indexes name no output after the block [bi]. *)
Definition visible (c : Cache) (amount bi : Z) : list Z -> Prop :=
  Forall (fun i => forall o, all_outputs c amount !! Z.to_nat i = Some o -> po_blockIndex o <= bi).
(** The indexes name the same outputs without the head segment. *)
Definition same_below (s : Segment) (ps : Cache) (amount : Z) : list Z -> Prop :=
  Forall (fun i => all_outputs (s :: ps) amount !! Z.to_nat i = all_outputs ps amount !! Z.to_nat i).

Lemma visible_below s ps amount bi l : visible (s :: ps) amount bi l -> same_below s ps amount l -> visible ps amount bi l.
Proof.
  unfold visible, same_below. rewrite !Forall_forall. intros H D i Hi o Ho. apply (H i Hi). by rewrite D.
Qed.

Lemma same_below_early s ps amount bi l : seg_ok ps s -> bi < seg_startIndex s -> visible (s :: ps) amount bi l -> same_below s ps amount l.
Proof.
  intros Hs Hlt Hb. apply Forall_forall. intros i Hi. unfold visible in Hb. rewrite Forall_forall in Hb. specialize (Hb i Hi).
  simpl in *. rewrite lookup_app in *. destruct (all_outputs ps amount !! Z.to_nat i) as [o|]; [done|].
  unfold seg_outputs in *. destruct (_ !! amount) as [e|] eqn:He; [|done].
  destruct (oi_outputs e !! _) as [o|] eqn:Ho; [|done]. specialize (Hb o eq_refl).
  pose proof (Forall_lookup_1 _ _ _ _ (oo_range _ _ _ _ (so_outputs _ _ Hs _ _ He)) Ho) as Hr. simpl in Hr. lia.
Qed.

Lemma same_below_start s ps amount e l : seg_ok ps s -> seg_keyOutputsGlobalIndexes s !! amount = Some e ->
  Forall (fun i => 0 <= i < oi_startIndex e) l -> same_below s ps amount l.
Proof.
  intros Hs He. destruct (so_outputs _ _ Hs _ _ He). intros H. eapply Forall_impl; [exact H|]. simpl.
  intros i Hi. apply lookup_app_l. lia.
Qed.

(** The indexes below and from the first output of a segment. *)
Lemma split_indexes l start : ring_indexes l -> let n := lower_bound_by (fun i => i <? start) l in
  Forall (fun i => 0 <= i < start) (take n l) /\ Forall (fun i => start <= i < 2 ^ 32) (drop n l).
Proof.
  intros (_ & Rs & Rw) n. pose proof (lower_bound_below (fun i => i <? start) l) as Lo. fold n in Lo.
  assert (Up : Forall (fun i => (i <? start) = false) (drop n l)).
  { apply (lower_bound_above _ Z.lt); [|done]. intros x y. rewrite !Z.ltb_ge. lia. }
  split; apply Forall_forall; intros i Hi.
  - rewrite Forall_forall in Lo. specialize (Lo i Hi). apply (Forall_take _ n) in Rw. rewrite Forall_forall in Rw. specialize (Rw i Hi). width_solve.
  - rewrite Forall_forall in Up. specialize (Up i Hi). apply (Forall_drop _ n) in Rw. rewrite Forall_forall in Rw. specialize (Rw i Hi). width_solve.
Qed.

Lemma extract_ok {S} pred c amount bi : chain_ok c -> c <> [] -> 0 <= bi -> forall l (st : S), ring_indexes l ->
  visible c amount bi l -> extractKeyOutputs c amount bi l pred st = extract_flat pred c amount st l.
Proof.
  induction c as [|s ps IH]; intros H Hc Hbi l st R Hb; [done|]. cbn [extractKeyOutputs]. rewrite check_indexes_ok by done. okbind.
  pose proof H as (Hs & Hps & _).
  assert (Down : forall l st, ring_indexes l -> ps <> [] -> visible (s :: ps) amount bi l -> same_below s ps amount l ->
    extractKeyOutputs ps amount bi l pred st = extract_flat pred (s :: ps) amount st l).
  { intros l' st' R' N' Hb' D. rewrite IH by (done || by eapply visible_below). by apply extract_flat_below. }
  destruct (seg_keyOutputsGlobalIndexes s !! amount) as [e|] eqn:He.
  - pose proof (so_outputs _ _ Hs _ _ He) as []. destruct (Z.ltb_spec bi (seg_startIndex s)) as [Hlt|Hge].
    + assert (N : ps <> []) by (intros ->; destruct Hs; unfold height in *; simpl in *; lia).
      destruct ps as [|p qs]; [done|]. apply Down; try done. by eapply same_below_early.
    + destruct (split_indexes l (oi_startIndex e) R) as [Lo Up]. set (n := lower_bound_by _ l) in *.
      replace (extract_flat pred (s :: ps) amount st l) with (extract_flat pred (s :: ps) amount st (take n l ++ drop n l))
        by by rewrite take_drop.
      rewrite extract_flat_app.
      assert (First : (if bool_decide (n = 0%nat) then Ok (SUCCESS, st)
        else match ps with [] => null_parent | _ => extractKeyOutputs ps amount bi (take n l) pred st end)
        = extract_flat pred (s :: ps) amount st (take n l)).
      { case_bool_decide as Hn; [by rewrite Hn|]. pose proof (ring_indexes_take n l R Hn) as R'. destruct ps as [|p qs].
        - exfalso. destruct R' as (R' & _). destruct Lo; [done|]. simpl in *. lia.
        - apply Down; [done|done|by apply Forall_take|by eapply same_below_start]. }
      rewrite First. destruct (extract_flat _ _ _ _ (take n l)) as [[ret st']| |]; [|done|done]. okbind.
      destruct ret; [|done|done]. rewrite bool_decide_eq_false_2 by by (intros ?%nil_length_inv). okbind.
      apply (extract_loop_ok pred s ps amount e); [done|done|done|by apply Forall_drop].
  - assert (Eo : all_outputs (s :: ps) amount = all_outputs ps amount) by (simpl; unfold seg_outputs; by rewrite He, app_nil_r).
    destruct ps as [|p qs].
    + destruct R as (Rn & _). destruct l as [|i l]; [done|]. cbn [extract_flat]. by rewrite Eo.
    + apply Down; try done. apply Forall_forall. intros. by rewrite Eo.
Qed.

(** *** Reading a pushed block back *)

Definition prev_totals (c : Cache) (i : Z) : Z * Z :=
  match all_blocks c !! (Z.to_nat i - 1)%nat with
  | Some b => if i =? 0 then (0, 0) else (bi_cumulativeDifficulty b, bi_alreadyGeneratedCoins b)
  | None => (0, 0)
  end.

Lemma totals_before_ok s ps i : chain_ok (s :: ps) -> seg_startIndex s <= i < height (s :: ps) ->
  totals_before s ps i = Ok (prev_totals (s :: ps) i).
Proof.
  intros H Hi. pose proof (chain_bound _ H) as B. pose proof (height_nonneg ps). rewrite height_cons in *. destruct H as ([] & Hps & N).
  unfold totals_before, prev_totals. simpl all_blocks. destruct (Z.ltb_spec (seg_startIndex s) i) as [Hlt|Hge].
  - rewrite wrap_small by width_solve. destruct (lookup_lt_is_Some_2 (seg_blockInfos s) (Z.to_nat (i - seg_startIndex s - 1))) as [b Hb]; [lia|].
    rewrite Hb. rewrite lookup_app_r by (unfold height in *; lia).
    replace (Z.to_nat i - 1 - length (all_blocks ps))%nat with (Z.to_nat (i - seg_startIndex s - 1)) by (unfold height in *; lia).
    rewrite Hb, (proj2 (Z.eqb_neq _ _)) by lia. done.
  - assert (i = height ps) as -> by lia. rewrite so_start0. destruct ps as [|p qs].
    { simpl. by destruct (seg_blockInfos s !! _). }
    pose proof (all_blocks_nonempty _ N ltac:(done)) as P.
    rewrite wrap_small by (unfold in_width, height in *; lia).
    destruct (info_at_ok _ Hps (height (p :: qs) - 1)) as (b & Hb & Hi'); [unfold height; lia|].
    unfold getLastCumulativeDifficulties. rewrite units_ok; [|done|done|unfold height in *; lia]. okbind.
    unfold window. replace (S (Z.to_nat (height (p :: qs) - 1))) with (length (all_blocks (p :: qs))) by (unfold height; lia).
    rewrite take_ge by done. rewrite Nat.max_l by lia.
    replace (length (all_blocks (p :: qs)) - 1)%nat with (Z.to_nat (height (p :: qs) - 1)) by (unfold height; lia).
    rewrite (drop_S _ b) by done. simpl from_option. okbind. unfold getAlreadyGeneratedCoins. rewrite Hi'. okbind.
    rewrite lookup_app_l by (unfold height; lia).
    replace (Z.to_nat (height (p :: qs)) - 1)%nat with (Z.to_nat (height (p :: qs) - 1)) by (unfold height; lia).
    rewrite Hb, (proj2 (Z.eqb_neq _ _)) by (unfold height; lia). done.
Qed.

Lemma wrap_sub_l w a b : wrap w (wrap w a - b) = wrap w (a - b).
Proof. unfold wrap. apply Zminus_mod_idemp_l. Qed.

Lemma prev_totals_last s s' ps info : seg_blockInfos s' = seg_blockInfos s ++ [info] ->
  prev_totals (s' :: ps) (height (s :: ps)) = (totals (last (all_blocks (s :: ps)))).1.
Proof.
  intros E. unfold prev_totals. assert (E' : all_blocks (s' :: ps) = all_blocks (s :: ps) ++ [info]) by (simpl; by rewrite E, (assoc_L (++))).
  rewrite E'. rewrite last_lookup. unfold height. destruct (all_blocks (s :: ps)) as [|b l] eqn:El; [done|].
  rewrite lookup_app_l by (simpl; lia). replace (Z.to_nat (Z.of_nat (length (b :: l))) - 1)%nat with (pred (length (b :: l))) by lia.
  destruct (lookup_lt_is_Some_2 (b :: l) (pred (length (b :: l)))) as [x ->]; [simpl; lia|].
  rewrite (proj2 (Z.eqb_neq _ _)) by (simpl; lia). done.
Qed.

Lemma pushed_read_back s s' ps spent (info : CachedBlockInfo) raw : chain_ok (s :: ps) -> chain_ok (s' :: ps) ->
  seg_blockInfos s' = seg_blockInfos s ++ [info] -> seg_storage s' = seg_storage s ++ [raw] -> seg_startIndex s' = seg_startIndex s ->
  (forall ki, seg_spentKeyImages s' !! ki = if decide (ki ∈ spent) then Some (height (s :: ps)) else seg_spentKeyImages s !! ki) ->
  let '(d, g, _) := totals (last (all_blocks (s :: ps))) in
  getPushedBlockInfo (s' :: ps) (height (s :: ps)) =
    Ok {| pb_rawBlock := raw; pb_validatorState := spent; pb_blockSize := bi_blockSize info;
          pb_generatedCoins := u64 (bi_alreadyGeneratedCoins info - g); pb_blockDifficulty := u64 (bi_cumulativeDifficulty info - d) |}.
Proof.
  intros H H' Eb Eg Es Ek. pose proof (prev_totals_last s s' ps info Eb) as Et. pose proof (chain_bound _ H') as B.
  pose proof (height_nonneg ps). pose proof (proj1 H) as [S1 S2 S3 S4 _ _ _]. rewrite !height_cons in *.
  assert (L : Z.of_nat (length (seg_blockInfos s')) = Z.of_nat (length (seg_blockInfos s)) + 1) by (rewrite Eb, length_app; simpl; lia).
  assert (L' : Z.of_nat (length (seg_storage s')) = Z.of_nat (length (seg_blockInfos s)) + 1) by (rewrite Eg, length_app, S2; simpl; lia).
  rewrite L in B. destruct (totals (last (all_blocks (s :: ps)))) as [[d g] n]. unfold getPushedBlockInfo, getBlockCount, storage_getBlockByIndex, storage_getBlockCount.
  rewrite Es, L, L', S1. rewrite !(wrap_small _ (Z.of_nat _ + 1)), !(wrap_small _ (height ps + _)), !(wrap_small _ (height ps + _ - _)) by width_solve.
  rewrite (proj2 (Z.leb_le (height ps) _)), (proj2 (Z.ltb_lt _ _)) by lia. okbind.
  replace (height ps + _ - height ps) with (Z.of_nat (length (seg_blockInfos s))) by lia. rewrite Nat2Z.id, Eb, list_lookup_middle by done.
  simpl from_option. okbind. rewrite (proj2 (Z.leb_gt _ _)) by lia. rewrite Eg, <- S2, list_lookup_middle by done. simpl from_option. okbind.
  rewrite S2, totals_before_ok; [|done|rewrite height_cons; lia]. rewrite Et. okbind. do 2 f_equal.
  apply set_eq. intros ki. unfold fillOutputsSpentByBlock. rewrite elem_of_dom. unfold is_Some.
  setoid_rewrite map_lookup_filter_Some. rewrite Ek. split.
  - intros (b & Hb & E). simpl in E. case_decide; [done|]. apply S4 in Hb. lia.
  - intros Hk. rewrite decide_True by done. eauto.
Qed.

(** *** The cache answers the validator *)

Definition cache_interface (currency : Currency) (now : Z) (c : Cache) : IBlockchainCache :=
  {| checkIfSpent := checkIfSpent_at c; extractKeyOutputKeys := cache_extractKeyOutputKeys currency now c |}.

Lemma found_any c amount o : chain_ok c -> o ∈ all_outputs c amount ->
  exists info t, find_any c o = Some info /\ ct_outputs info !! Z.to_nat (po_outputIndex o) = Some t.
Proof.
  induction c as [|s ps IH]; simpl; [by intros _ ?%not_elem_of_nil|]. intros (Hs & Hps & _). rewrite elem_of_app. intros [Ho|Ho].
  - rewrite (find_tx_below ps s) by (done || by eapply output_below). by apply IH.
  - unfold seg_outputs in Ho. destruct (_ !! amount) as [e|] eqn:He; [|by apply not_elem_of_nil in Ho].
    destruct (so_outputs _ _ Hs _ _ He). rewrite Forall_forall in oo_found0. destruct (oo_found0 _ Ho) as (info & t & Hf & Ht).
    exists info, t. by rewrite Hf.
Qed.

Lemma unlocked_returns currency now c t bi : chain_ok c -> nonempty c -> 2 <= height c ->
  exists b, isTransactionSpendTimeUnlocked currency now c t bi = Ok b.
Proof.
  intros H N H2. unfold isTransactionSpendTimeUnlocked. case_match; [by eexists|]. case_match; [|by eexists].
  destruct c as [|s ps]; [unfold height in H2; simpl in H2; lia|]. cbn [cache_top]. rewrite (top_index s ps H) by by inv N. okbind.
  unfold getLastTimestamps. rewrite units_ok by (done || lia). okbind. unfold window.
  set (l := drop _ _). assert (length l = 1%nat) as L; [|destruct l; [done|by eexists]].
  unfold l. rewrite length_drop, length_take. unfold height in *. lia.
Qed.

Lemma extract_flat_returns {S} (pred : S -> CachedTransactionInfo -> PackedOutIndex -> outcome (ExtractOutputKeysResult * S)) c amount l :
  (forall st info o t, ct_outputs info !! Z.to_nat (po_outputIndex o) = Some t -> exists r, pred st info o = Ok r) -> chain_ok c ->
  forall st, exists r, extract_flat pred c amount st l = Ok r.
Proof.
  intros Hp H. induction l as [|i l IH]; intros st; [by eexists|]. cbn [extract_flat].
  destruct (all_outputs c amount !! Z.to_nat i) as [o|] eqn:Ho; [|by eexists]. cbn [mbind option_bind].
  destruct (found_any c amount o H ltac:(by eapply list_elem_of_lookup_2)) as (info & t & -> & Ht). cbn [mbind option_bind].
  destruct (Hp st info o t Ht) as [[ret st'] ->]. okbind. destruct ret; [apply IH|by eexists|by eexists].
Qed.

Lemma visible_top c amount bi l : chain_ok c -> height c <= bi + 1 -> visible c amount bi l.
Proof.
  intros H Hb. apply Forall_forall. intros i _ o Ho%list_elem_of_lookup_2. apply output_below in Ho; [lia|done].
Qed.

Lemma cache_answers currency now c bi : chain_ok c -> nonempty c -> 2 <= height c -> height c <= bi + 1 ->
  @CacheAnswers (cache_interface currency now c) bi.
Proof.
  intros H N H2 Hb. assert (c <> []) by (intros ->; unfold height in H2; simpl in H2; lia). split.
  - intros ki. simpl. rewrite spent_ok by (done || lia). by eexists.
  - intros amount l R. simpl. unfold cache_extractKeyOutputKeys. rewrite check_indexes_ok by done. okbind.
    rewrite extract_ok by (done || lia || by apply visible_top). apply extract_flat_returns; [|done].
    intros st info o t Ht. unfold take_key. destruct (unlocked_returns currency now c (ct_unlockTime info) bi H N H2) as [b ->].
    okbind. destruct b; [|by eexists]. simpl. rewrite Ht. simpl. destruct t. by eexists.
Qed.

(** Ring offsets may sum to 2^32 or more; then an index wraps around, the indexes
    are not ascending, and the read stops at its assertion. *)
Lemma wrapped_ring_asserts currency now c amount bi i : 0 < i < 2 ^ 32 ->
  cache_extractKeyOutputKeys currency now c amount bi (relativeOutputOffsetsToAbsolute [i; 2 ^ 32 - 1])
  = Undefined "assert(std::is_sorted(globalIndexes))".
Proof.
  intros Hi. unfold cache_extractKeyOutputKeys, check_indexes. cbn [relativeOutputOffsetsToAbsolute absolute_loop].
  replace (wrap 32 (2 ^ 32 - 1 + i)) with (i - 1).
  2: { unfold wrap. apply (Zmod_unique _ _ 1); lia. }
  unfold is_sorted. rewrite bool_decide_eq_false_2; [done|]. intros H. inv H. inv H3. lia.
Qed.

Lemma outputs_bound c amount : chain_ok c -> Z.of_nat (length (all_outputs c amount)) < 2 ^ 32.
Proof.
  induction c as [|s ps IH]; simpl; [done|]. intros (Hs & Hps & _). rewrite length_app. unfold seg_outputs.
  destruct (_ !! amount) as [e|] eqn:He; [|specialize (IH Hps); simpl; lia]. destruct (so_outputs _ _ Hs _ _ He). lia.
Qed.

(** One output, read through its global index. *)
Lemma read_one currency now c amount bi g poi info o : chain_ok c -> c <> [] -> 0 <= bi -> 0 <= g ->
  all_outputs c amount !! Z.to_nat g = Some poi -> po_blockIndex poi <= bi -> find_any c poi = Some info ->
  ct_outputs info !! Z.to_nat (po_outputIndex poi) = Some (target o) ->
  cache_extractKeyOutputKeys currency now c amount bi [g] =
    (unlocked ← isTransactionSpendTimeUnlocked currency now c (ct_unlockTime info) bi;
     Ok (if unlocked : bool then (SUCCESS, [output_key o]) else (OUTPUT_LOCKED, []))).
Proof.
  intros H N Hbi Hg Hp Hb Hf Ho. pose proof (outputs_bound c amount H) as B. pose proof (lookup_lt_Some _ _ _ Hp) as L.
  assert (R : ring_indexes [g]) by (split_and!; [done|repeat constructor|repeat constructor; width_solve]).
  unfold cache_extractKeyOutputKeys. rewrite check_indexes_ok by done. okbind. rewrite extract_ok; [|done|done|done|done|].
  2: { constructor; [|done]. intros o'. rewrite Hp. by intros [= <-]. }
  cbn [extract_flat]. rewrite Hp. cbn [mbind option_bind]. rewrite Hf. cbn [mbind option_bind]. unfold take_key.
  destruct (isTransactionSpendTimeUnlocked _ _ _ _ _) as [[]| |]; [|done|done|done]. okbind. rewrite Ho. unfold from_option. okbind.
  unfold output_key. by destruct (target o).
Qed.

(** ** Theorems *)

(** C21: the queries a block validator makes on a chain of segments give what the flat
    chain of blocks has: the block at an index, the last blocks up to an index, the
    block a key image was spent in, and the number of outputs of an amount. *)
Theorem cache_refines_chain c : chain_ok c -> nonempty c -> c <> [] ->
  (forall i, 0 <= i < height c -> exists b, all_blocks c !! Z.to_nat i = Some b /\ info_at c i = Ok b)
  /\ (forall count i useGenesis pred, 0 <= i < height c ->
        getLastUnits c count i useGenesis pred = Ok (pred <$> window c count i useGenesis))
  /\ (forall ki i, 0 <= i -> checkIfSpent_at c ki i = Ok (match all_spent c !! ki with Some b => b <=? i | None => false end))
  /\ (forall amount i, height c <= i -> getKeyOutputsCountForAmount c amount i = Z.of_nat (length (all_outputs c amount))).
Proof.
  intros H N Hc. split_and!.
  - intros i. by apply info_at_ok.
  - intros. by apply units_ok.
  - intros. by apply spent_ok.
  - intros. by apply count_ok.
Qed.

(** C23: splitting a segment inside it succeeds, keeps the invariant of the chain, and
    changes neither the blocks, nor the spent key images, nor the order and
    transactions of the outputs. *)
Theorem split_preserves ps s k : chain_ok (s :: ps) ->
  seg_startIndex s < k < seg_startIndex s + Z.of_nat (length (seg_blockInfos s)) ->
  exists u l, split s k = Ok (u, l) /\ chain_ok (u :: l :: ps) /\ height (l :: ps) = k
    /\ all_blocks (u :: l :: ps) = all_blocks (s :: ps) /\ all_spent (u :: l :: ps) = all_spent (s :: ps)
    /\ (forall amount, all_outputs (u :: l :: ps) amount = all_outputs (s :: ps) amount)
    /\ (forall o, find_tx s o = if bool_decide (k <= po_blockIndex o) then find_tx u o else find_tx l o).
Proof. apply split_ok. Qed.

(** C22: pushing a block that [Core] has validated returns, keeps the invariant, and adds
    exactly one block with the totals increased by its difficulty, coins and
    transactions, its key images as spent in it, and its outputs after those of the
    same amount. *)
Theorem push_extends cn_fast_hash s ps b txs spent blockSize coins difficulty h hs raw :
  chain_ok (s :: ps) -> push_ready cn_fast_hash s ps b txs spent blockSize difficulty h hs ->
  exists c', doPushBlock cn_fast_hash (s :: ps) b txs spent blockSize coins difficulty raw = Ok c' /\ chain_ok c'
    /\ all_blocks c' = all_blocks (s :: ps) ++ [pushed_info (s :: ps) b h (length txs) blockSize coins difficulty]
    /\ (forall ki, all_spent c' !! ki = if decide (ki ∈ spent) then Some (height (s :: ps)) else all_spent (s :: ps) !! ki)
    /\ (forall amount, all_outputs c' amount = all_outputs (s :: ps) amount
          ++ txs_packed (height (s :: ps)) 0 amount (CachedTransaction_of (baseTransaction b) :: txs)).
Proof.
  intros H R. destruct (push_ok _ _ _ _ _ _ _ coins _ _ _ raw H R) as (s' & E & H' & Eb & _ & _ & Ek & Eo & _).
  exists (s' :: ps). split_and!; [done|done| | |].
  - simpl. by rewrite Eb, (assoc_L (++)).
  - intros ki. apply spent_pushed; [by destruct R|done].
  - intros amount. simpl. by rewrite Eo, (assoc_L (++)).
Qed.

Lemma extract_keys_flat currency now c amount bi l : chain_ok c -> c <> [] -> 0 <= bi -> ring_indexes l ->
  visible c amount bi l ->
  cache_extractKeyOutputKeys currency now c amount bi l = extract_flat (take_key currency now c bi) c amount [] l.
Proof.
  intros H N Hb R V. unfold cache_extractKeyOutputKeys. rewrite check_indexes_ok by done. okbind. by apply extract_ok.
Qed.

(** C24: reading ring members by global index through the segments gives exactly the
    outputs the flat list of the amount has at these indexes, in order, stopping at
    the first that does not exist or is locked. *)
Theorem extract_equivalent currency now c amount bi l : chain_ok c -> c <> [] -> 0 <= bi -> ring_indexes l ->
  visible c amount bi l ->
  cache_extractKeyOutputKeys currency now c amount bi l = extract_flat (take_key currency now c bi) c amount [] l.
Proof. apply extract_keys_flat. Qed.

(** C25: every output of a pushed block is found again: the global indexes recorded for
    its transaction lead the ring reader to exactly its key, or report it locked. *)
Theorem output_roundtrip currency now cn_fast_hash s ps b txs spent blockSize coins difficulty h hs raw :
  chain_ok (s :: ps) -> push_ready cn_fast_hash s ps b txs spent blockSize difficulty h hs ->
  exists s', doPushBlock cn_fast_hash (s :: ps) b txs spent blockSize coins difficulty raw = Ok (s' :: ps)
    /\ forall j tx htx k o bi, (CachedTransaction_of (baseTransaction b) :: txs) !! j = Some tx -> hs !! j = Some htx ->
       outputs (tx_prefix (getTransaction tx)) !! k = Some o -> height (s :: ps) <= bi ->
       exists gs g, cache_getTransactionGlobalIndexes s' htx = Some gs /\ gs !! k = Some g
         /\ cache_extractKeyOutputKeys currency now (s' :: ps) (out_amount o) bi [g] =
            (unlocked ← isTransactionSpendTimeUnlocked currency now (s' :: ps) (unlockTime (tx_prefix (getTransaction tx))) bi;
             Ok (if unlocked : bool then (SUCCESS, [output_key o]) else (OUTPUT_LOCKED, []))).
Proof.
  intros H R. destruct (push_ok _ _ _ _ _ _ _ coins _ _ _ raw H R) as (s' & E & H' & _ & _ & _ & _ & _ & Hn).
  exists s'. split; [done|]. intros j tx htx k o bi Hj Hh Ho Hbi. destruct (Hn j tx htx Hj Hh) as (gs & F1 & F2 & HL & HN).
  destruct (lookup_lt_is_Some_2 gs k) as [g Hg]; [rewrite HL; by eapply lookup_lt_Some|]. exists gs, g.
  destruct (HN k o g Ho Hg) as [Hg0 Hp]. split_and!; [unfold cache_getTransactionGlobalIndexes; by rewrite F1|done|].
  assert (Hk : u16 (0 + Z.of_nat k) = Z.of_nat k).
  { destruct R. apply lookup_lt_Some in Ho. destruct (Forall2_lookup_l _ _ _ _ _ pr_txs0 Hj) as (h' & _ & _ & _ & Hl). unwrap. lia. }
  rewrite Hk in Hp. pose proof (height_nonneg (s :: ps)).
  change (unlockTime (tx_prefix (getTransaction tx))) with
    (ct_unlockTime (tx_info (height (s :: ps)) (Z.of_nat j) htx (tx_prefix (getTransaction tx)) gs)).
  eapply read_one; [done|done|lia|done|exact Hp|done|cbn [find_any]; by rewrite F2|]. simpl.
  rewrite list_lookup_fmap, Nat2Z.id, Ho. done.
Qed.

(** a pushed block is read back as it was pushed, so that moving blocks from one
    segment to another moves them unchanged. *)
Theorem pushed_roundtrip cn_fast_hash s ps b txs spent blockSize coins difficulty h hs raw :
  chain_ok (s :: ps) -> push_ready cn_fast_hash s ps b txs spent blockSize difficulty h hs ->
  is_u32 blockSize -> is_u64 coins -> is_u64 difficulty ->
  exists c', doPushBlock cn_fast_hash (s :: ps) b txs spent blockSize coins difficulty raw = Ok c' /\
    getPushedBlockInfo c' (height (s :: ps)) =
      Ok {| pb_rawBlock := raw; pb_validatorState := spent; pb_blockSize := blockSize;
            pb_generatedCoins := coins; pb_blockDifficulty := difficulty |}.
Proof.
  intros H R Ws Wc Wd. destruct (push_ok _ _ _ _ _ _ _ coins _ _ _ raw H R) as (s' & E & H' & Eb & Eg & Es & Ek & _ & _).
  exists (s' :: ps). split; [done|]. pose proof (pushed_read_back _ _ _ spent _ _ H H' Eb Eg Es Ek) as P. unfold pushed_info in P.
  destruct (totals _) as [[d g] n]. rewrite P. cbn [bi_blockSize bi_alreadyGeneratedCoins bi_cumulativeDifficulty].
  rewrite !wrap_sub_l. replace (g + coins - g) with coins by lia. replace (d + difficulty - d) with difficulty by lia. by unwrap.
Qed.

(** [getBlockHeightForTimestamp] tests its segment the wrong way round: on a single
    segment it answers no timestamp between the first and the last block. *)
Theorem timestamp_inside_missed s first last_ : head (seg_blockInfos s) = Some first -> last (seg_blockInfos s) = Some last_ ->
  forall t, bi_timestamp first < t <= bi_timestamp last_ -> getBlockHeightForTimestamp [s] t = Ok (false, 0).
Proof.
  intros F L t Ht. cbn [getBlockHeightForTimestamp]. rewrite L, F. simpl from_option. okbind.
  rewrite (proj2 (Z.ltb_ge _ _)) by lia. rewrite (proj2 (Z.leb_gt _ _)) by lia. done.
Qed.

(** ** Witnesses: two blocks on an empty root *)

Definition block_on (index time : Z) (hashes : list Hash) : BlockTemplate :=
  {| header := {| majorVersion := 1; minorVersion := 0; nonce := 0; timestamp := time; previousBlockHash := replicate 32 0 |};
     parentBlock := parentBlock new_BlockTemplate;
     baseTransaction := {| tx_prefix := {| version := 1; unlockTime := index + 10; inputs := [InBase {| blockIndex := index |}];
         outputs := [{| out_amount := 7; target := TargetKey {| ko_key := replicate 32 (8 + index) |} |}]; extra := [] |}; signatures := [] |};
     transactionHashes := hashes |}.
Definition raw_of (b : BlockTemplate) (txs : list bytes) : RawBlock :=
  {| block := match toBinaryArray (serialize_BlockTemplate toy_hash) b with Ok l => l | _ => [] end; transactions := txs |}.
Definition hash_of (o : outcome Hash) : Hash := match o with Ok h => h | _ => [] end.
Definition tx_hash_of (tx : CachedTransaction) : Hash := hash_of (getTransactionHash toy_hash tx).
Definition head_of (o : outcome Cache) : Segment := match o with Ok (s :: _) => s | _ => new_segment 0 end.

Definition block0 : BlockTemplate := block_on 0 1000 [].
Definition seg1 : Segment := head_of (doPushBlock toy_hash [new_segment 0] block0 [] ∅ 80 7 1 (raw_of block0 [])).
Definition block1 : BlockTemplate := block_on 1 2000 [tx_hash_of sample_cached].
Definition push1 : outcome Cache := doPushBlock toy_hash [seg1] block1 [sample_cached] sample_images 400 9 5 (raw_of block1 [sample_blob]).
Definition seg2 : Segment := head_of push1.

Lemma chain_empty : chain_ok [new_segment 0].
Proof. split_and!; [|done|done]. split; simpl; done. Qed.

Lemma length_packed idx ti amount l : forall k, (length (packed idx ti k amount l) <= length l)%nat.
Proof. induction l as [|o l IH]; intros k; [done|]. simpl. rewrite length_app. specialize (IH (k + 1)). case_match; simpl; lia. Qed.
Lemma length_txs_packed idx amount l : forall ti,
  (length (txs_packed idx ti amount l) <= length (concat ((fun tx => outputs (tx_prefix (getTransaction tx))) <$> l)))%nat.
Proof.
  induction l as [|tx l IH]; intros ti; [done|]. cbn [txs_packed fmap list_fmap concat]. rewrite !length_app. specialize (IH (ti + 1)).
  pose proof (length_packed idx ti amount (outputs (tx_prefix (getTransaction tx))) 0). unfold tx_packed. lia.
Qed.

Lemma block0_ready : push_ready toy_hash (new_segment 0) [] block0 [] ∅ 80 1 (hash_of (getBlockHash toy_hash block0))
  (tx_hash_of <$> [CachedTransaction_of (baseTransaction block0)]).
Proof.
  split; try by_compute.
  intros amount. pose proof (length_txs_packed 0 amount [CachedTransaction_of (baseTransaction block0)] 0) as L.
    change (height _) with 0. change (length (concat _)) with 1%nat in L. change (length (all_outputs _ _)) with 0%nat. lia.
Qed.

Lemma seg1_ok : doPushBlock toy_hash [new_segment 0] block0 [] ∅ 80 7 1 (raw_of block0 []) = Ok [seg1] /\ chain_ok [seg1]
  /\ forall amount, (length (all_outputs [seg1] amount) <= 1)%nat.
Proof.
  destruct (push_ok _ _ _ _ _ _ _ 7 _ _ _ (raw_of block0 []) chain_empty block0_ready) as (s' & E & H & _ & _ & _ & _ & Eo & _).
  unfold seg1. rewrite E. split_and!; [done|done|]. intros amount. cbn [head_of all_outputs app]. rewrite Eo.
  exact (length_txs_packed 0 amount [CachedTransaction_of (baseTransaction block0)] 0).
Qed.

Lemma block1_ready : push_ready toy_hash seg1 [] block1 [sample_cached] sample_images 400 5 (hash_of (getBlockHash toy_hash block1))
  (tx_hash_of <$> [CachedTransaction_of (baseTransaction block1); sample_cached]).
Proof.
  split; try by_compute.
  intros amount. pose proof (proj2 (proj2 seg1_ok) amount).
    pose proof (length_txs_packed 1 amount [CachedTransaction_of (baseTransaction block1); sample_cached] 0) as L.
    change (height _) with 1. change (length (concat _)) with 2%nat in L. lia.
Qed.

Lemma seg2_ok : push1 = Ok [seg2] /\ chain_ok [seg2].
Proof.
  destruct (push_ok _ _ _ _ _ _ _ 9 _ _ _ (raw_of block1 [sample_blob]) (proj1 (proj2 seg1_ok)) block1_ready) as (s' & E & H & _).
  change (push1 = Ok [s']) in E. unfold seg2. rewrite E. by split.
Qed.

Lemma cache_refines_chain_witness : info_at [seg2] 1 = Ok (pushed_info [seg1] block1 (hash_of (getBlockHash toy_hash block1)) 1 400 9 5)
  /\ exists b, all_blocks [seg2] !! 1%nat = Some b /\ info_at [seg2] 1 = Ok b.
Proof.
  split; [vm_compute; reflexivity|].
  destruct (cache_refines_chain [seg2] (proj2 seg2_ok)) as [H _]; [repeat constructor; by_compute|discriminate|].
  apply (H 1). by_compute.
Defined.

Lemma split_preserves_witness : exists u l, split seg2 1 = Ok (u, l) /\ chain_ok [u; l] /\ height [l] = 1.
Proof.
  destruct (split_preserves [] seg2 1 (proj2 seg2_ok)) as (u & l & E & H & Hh & _); [by_compute|]. exists u, l. by split_and!.
Defined.

Lemma push_extends_witness : exists c', push1 = Ok c' /\ chain_ok c' /\ length (all_blocks c') = 2%nat.
Proof.
  destruct (push_extends toy_hash seg1 [] block1 [sample_cached] sample_images 400 9 5 _ _ (raw_of block1 [sample_blob])
    (proj1 (proj2 seg1_ok)) block1_ready) as (c' & E & H & Eb & _).
  exists c'. split_and!; [exact E|exact H|]. rewrite Eb, length_app. reflexivity.
Defined.

Lemma extract_equivalent_witness : cache_extractKeyOutputKeys test_currency 0 [seg2] 7 20 [0; 1]
  = extract_flat (take_key test_currency 0 [seg2] 20) [seg2] 7 [] [0; 1]
  /\ cache_extractKeyOutputKeys test_currency 0 [seg2] 7 20 [0; 1] = Ok (SUCCESS, [replicate 32 8; replicate 32 9]).
Proof.
  split; [|vm_compute; reflexivity].
  apply extract_equivalent; [apply seg2_ok|discriminate|lia| |apply visible_top; [apply seg2_ok|by_compute]].
  split_and!; [discriminate|repeat constructor|by_compute].
Defined.

Lemma output_roundtrip_witness : exists gs g, cache_getTransactionGlobalIndexes seg2 (tx_hash_of sample_cached) = Some gs
  /\ gs !! 0%nat = Some g /\ cache_extractKeyOutputKeys test_currency 0 [seg2] 900 2 [g] = Ok (OUTPUT_LOCKED, []).
Proof.
  destruct (output_roundtrip test_currency 0 toy_hash seg1 [] block1 [sample_cached] sample_images 400 9 5 _ _ (raw_of block1 [sample_blob])
    (proj1 (proj2 seg1_ok)) block1_ready) as (s' & E & H). change (push1 = Ok [s']) in E.
  assert (Hs : [s'] = [seg2]) by exact (Ok_inj _ _ (eq_trans (eq_sym E) (proj1 seg2_ok))).
  rewrite (f_equal (List.hd s') Hs : s' = seg2) in H.
  destruct (H 1%nat sample_cached (tx_hash_of sample_cached) 0%nat _ 2 eq_refl eq_refl eq_refl) as (gs & g & F & G & R); [by_compute|].
  exists gs, g. split_and!; [exact F|exact G|]. etransitivity; [exact R|]. vm_compute. reflexivity.
Defined.

Lemma pushed_roundtrip_witness : exists c', push1 = Ok c' /\ getPushedBlockInfo c' 1 =
  Ok {| pb_rawBlock := raw_of block1 [sample_blob]; pb_validatorState := sample_images; pb_blockSize := 400;
        pb_generatedCoins := 9; pb_blockDifficulty := 5 |}.
Proof.
  exact (pushed_roundtrip toy_hash seg1 [] block1 [sample_cached] sample_images 400 9 5 _ _ (raw_of block1 [sample_blob])
    (proj1 (proj2 seg1_ok)) block1_ready ltac:(by_compute) ltac:(by_compute) ltac:(by_compute)).
Defined.

Lemma timestamp_inside_missed_witness : getBlockHeightForTimestamp [seg2] 1500 = Ok (false, 0)
  /\ getTimestampLowerBoundBlockIndex [seg2] 1500 = Ok 1.
Proof.
  split; [|vm_compute; reflexivity]. eapply timestamp_inside_missed; [vm_compute; reflexivity|vm_compute; reflexivity|vm_compute; split; congruence].
Defined.
