(* ===== verification/ShuffleGenerator.v ===== *)
(** * ShuffleGenerator: [common/ShuffleGenerator.h]

    Draws the numbers below [n] in random order without storing them all: [selected]
    holds only the places of a virtual array that were overwritten.  The random values
    are given from outside; the theorem holds for all of them. *)

From Stdlib Require Import ZArith Lia.
From stdpp Require Import base tactics list numbers strings gmap fin_maps.
From S2P Require Import Prelude.

Local Open Scope Z_scope.

Record ShuffleGenerator := {
  selected : gmap Z Z;
  sg_count : Z;
  sg_N : Z }.

Definition new_ShuffleGenerator (n : Z) : ShuffleGenerator := {| selected := ∅; sg_count := n; sg_N := n |}.

(** [operator()]; [value] is what [Random::randomValue(0, --count)] returns. *)
Definition draw (value : Z) (g : ShuffleGenerator) : outcome (Z * ShuffleGenerator) :=
  if sg_count g =? 0 then Throw "SequenceEnded"
  else
    let count := sg_count g - 1 in
    let rval := match selected g !! count with Some v => v | None => count end in
    let '(v, m) := match selected g !! value with
                   | Some v => (v, <[value := rval]> (selected g))
                   | None => (value, <[value := rval]> (selected g))
                   end in
    Ok (v, {| selected := m; sg_count := count; sg_N := sg_N g |}).

Definition sg_empty (g : ShuffleGenerator) : bool := sg_count g =? 0.
Definition sg_reset (g : ShuffleGenerator) : ShuffleGenerator := {| selected := ∅; sg_count := sg_N g; sg_N := sg_N g |}.

(** Draw once for each random value of the list. *)
Fixpoint draws (values : list Z) (g : ShuffleGenerator) : outcome (list Z * ShuffleGenerator) :=
  match values with
  | [] => Ok ([], g)
  | value :: values =>
      '(v, g) ← draw value g;
      '(l, g) ← draws values g;
      Ok (v :: l, g)
  end.

(** ** The virtual array *)

Definition place (g : ShuffleGenerator) (i : Z) : Z := match selected g !! i with Some v => v | None => i end.
Definition remaining (g : ShuffleGenerator) : list Z := place g <$> seqZ 0 (sg_count g).

(** The random values are in the range that was asked for. *)
Fixpoint in_ranges (count : Z) (values : list Z) : Prop :=
  match values with [] => True | v :: values => 0 <= v < count /\ in_ranges (count - 1) values end.

Lemma draw_ok value g : 0 <= value < sg_count g -> exists g', draw value g = Ok (place g value, g')
  /\ sg_count g' = sg_count g - 1 /\ remaining g ≡ₚ place g value :: remaining g'.
Proof.
  intros Hv. unfold draw. rewrite (proj2 (Z.eqb_neq _ _)) by lia.
  set (g' := {| selected := <[value := place g (sg_count g - 1)]> (selected g); sg_count := sg_count g - 1; sg_N := sg_N g |}).
  exists g'. split; [unfold place; by destruct (selected g !! value)|]. split; [done|]. unfold remaining. simpl.
  set (n := sg_count g) in *. assert (En : seqZ 0 n = seqZ 0 (n - 1) ++ [n - 1]).
  { replace n with ((n - 1) + 1) at 1 by lia. rewrite seqZ_app by lia. f_equal. }
  rewrite En, fmap_app. simpl. destruct (decide (value = n - 1)) as [->|Ne].
  - rewrite (Permutation_app_comm _ [_]). simpl. f_equiv. apply Permutation_refl'. apply list_fmap_ext. intros i x Hx.
    apply lookup_seqZ in Hx as [-> Hi]. unfold place. simpl. by rewrite lookup_insert_ne by lia.
  - assert (Es : seqZ 0 (n - 1) = seqZ 0 value ++ value :: seqZ (value + 1) (n - 2 - value)).
    { replace (n - 1) with (value + (n - 1 - value)) by lia. rewrite seqZ_app by lia. f_equal.
      rewrite (seqZ_cons (0 + value)) by lia. f_equal. f_equal; lia. }
    rewrite Es, !fmap_app, !fmap_cons.
    assert (Eq : forall a m, (value < a \/ a + m <= value) -> place g' <$> seqZ a m = place g <$> seqZ a m).
    { intros a m Ha. apply list_fmap_ext. intros i x Hx. apply lookup_seqZ in Hx as [-> Hi]. unfold place. simpl.
      by rewrite lookup_insert_ne by lia. }
    rewrite !Eq by lia. assert (place g' value = place g (n - 1)) as -> by (unfold place at 1; simpl; by rewrite lookup_insert_eq).
    rewrite <- (assoc_L (++)). cbn [app]. rewrite <- Permutation_middle. f_equiv. f_equiv.
    rewrite (Permutation_app_comm _ [_]). done.
Qed.

Lemma draws_ok values : forall g, in_ranges (sg_count g) values -> exists l g', draws values g = Ok (l, g')
  /\ sg_count g' = sg_count g - Z.of_nat (length values) /\ remaining g ≡ₚ l ++ remaining g'.
Proof.
  induction values as [|v values IH]; intros g H.
  { exists [], g. split_and!; [done|simpl; lia|done]. }
  destruct H as [Hv H]. destruct (draw_ok v g Hv) as (g1 & E1 & C1 & P1). cbn [draws]. rewrite E1. okbind.
  destruct (IH g1) as (l & g' & E & C & P); [by rewrite C1|]. rewrite E. okbind.
  exists (place g v :: l), g'. split_and!; [done|simpl; lia|]. rewrite P1, P. done.
Qed.

Lemma shuffle_ok n values : 0 <= n -> length values = Z.to_nat n -> in_ranges n values ->
  exists l g, draws values (new_ShuffleGenerator n) = Ok (l, g) /\ l ≡ₚ seqZ 0 n /\ sg_count g = 0.
Proof.
  intros Hn Hl H. destruct (draws_ok values (new_ShuffleGenerator n) H) as (l & g & E & C & P). exists l, g.
  assert (C0 : sg_count g = 0) by (rewrite C, Hl; simpl; lia). split_and!; [done| |done].
  unfold remaining in P. rewrite C0 in P. simpl in P. rewrite app_nil_r in P. rewrite <- P. apply Permutation_refl'.
  transitivity (id <$> seqZ 0 n); [|apply list_fmap_id]. apply list_fmap_ext. intros i x _. unfold place. simpl. by rewrite lookup_empty.
Qed.

(** [n] calls of a generator of [n] numbers return, and give each of the numbers below
    [n] exactly once, whatever random values are drawn; the next call throws. *)
Theorem shuffle_permutation n values : 0 <= n -> length values = Z.to_nat n -> in_ranges n values ->
  exists l g, draws values (new_ShuffleGenerator n) = Ok (l, g) /\ l ≡ₚ seqZ 0 n /\ forall v, draw v g = Throw "SequenceEnded".
Proof.
  intros Hn Hl H. destruct (shuffle_ok n values Hn Hl H) as (l & g & E & P & C). exists l, g. split_and!; [done|done|].
  intros v. unfold draw. by rewrite C.
Qed.

Lemma shuffle_permutation_witness : exists l g, draws [3; 0; 0; 1; 0] (new_ShuffleGenerator 5) = Ok (l, g) /\ l ≡ₚ seqZ 0 5.
Proof.
  destruct (shuffle_permutation 5 [3; 0; 0; 1; 0]) as (l & g & E & P & _); [lia|reflexivity|simpl; lia|]. exists l, g. by split.
Defined.
