(* ===== verification/CacheQueries.v ===== *)
(** * CacheQueries: the read operations of [cryptonotecore/BlockchainCache.cpp]

    The queries the daemon and the wallets make on a chain of segments: hashes and raw
    blocks by height, transactions by hash, global indexes, and decoy outputs. *)

From Stdlib Require Import ZArith Lia.
From stdpp Require Import base tactics list numbers strings gmap fin_maps sorting.
From S2P Require Import Prelude Config Difficulty Types Serializer TxSerialization TransactionExtra BlockSerialization FormatUtils Currency Validate Pool BlockchainCache CacheChain ShuffleGenerator.

Local Open Scope Z_scope.

(** [blockInfos[i]] for [start <= i < start + n] *)
Definition hash_range (s : Segment) (start n : Z) : outcome (list Hash) :=
  if n =? 0 then Ok []
  else
    _ ← assert (start + n <=? Z.of_nat (length (seg_blockInfos s))) "blockInfos[i] out of range";
    Ok (bi_blockHash <$> take (Z.to_nat n) (drop (Z.to_nat start) (seg_blockInfos s))).

Fixpoint cache_getBlockHashes (c : Cache) (startBlockIndex maxCount : Z) : outcome (list Hash) :=
  match c with
  | [] => null_parent
  | s :: ps =>
      let size := Z.of_nat (length (seg_blockInfos s)) in
      if startBlockIndex <? seg_startIndex s then
        hashes ← cache_getBlockHashes ps startBlockIndex maxCount;
        more ← hash_range s 0 (Z.min (u64 (maxCount - Z.of_nat (length hashes))) size);
        Ok (hashes ++ more)
      else
        let start := u32 (startBlockIndex - seg_startIndex s) in
        hash_range s start (Z.min (u64 (size - start)) maxCount)
  end.

Definition cache_getTopBlockHash (s : Segment) : outcome Hash :=
  b ← from_option "assert(!blockInfos.empty())" (last (seg_blockInfos s)); Ok (bi_blockHash b).

Fixpoint cache_getBlockByIndex (c : Cache) (index : Z) : outcome RawBlock :=
  match c with
  | [] => null_parent
  | s :: ps =>
      if index <? seg_startIndex s then cache_getBlockByIndex ps index
      else storage_getBlockByIndex s (u32 (index - seg_startIndex s))
  end.

(** The blocks of the storage from [from] up to [to]. *)
Definition storage_range (s : Segment) (from to : Z) : list RawBlock :=
  take (Z.to_nat (to - from)) (drop (Z.to_nat (from - seg_startIndex s)) (seg_storage s)).

Fixpoint getNonEmptyBlocks (c : Cache) (startHeight : Z) (blockCount : nat) : outcome (list RawBlock) :=
  match c with
  | [] => null_parent
  | s :: ps =>
      blocks ← (if startHeight <? seg_startIndex s then getNonEmptyBlocks ps startHeight blockCount else Ok []);
      if bool_decide (length blocks = blockCount) && (startHeight <? seg_startIndex s) then Ok blocks
      else
        let startOffset := Z.max startHeight (seg_startIndex s) in
        let here := filter (fun b => transactions b <> []) (storage_range s startOffset (seg_startIndex s + storage_getBlockCount s)) in
        Ok (blocks ++ take (blockCount - length blocks) here)
  end.

Fixpoint getBlocksByHeight (c : Cache) (startHeight endHeight : Z) : outcome (list RawBlock) :=
  match c with
  | [] => null_parent
  | s :: ps =>
      if endHeight <? seg_startIndex s then getBlocksByHeight ps startHeight endHeight
      else
        blocks ← (if startHeight <? seg_startIndex s then getBlocksByHeight ps startHeight (seg_startIndex s) else Ok []);
        let startOffset := Z.max startHeight (seg_startIndex s) in
        let endHeight := Z.min endHeight (seg_startIndex s + storage_getBlockCount s) in
        Ok (blocks ++ storage_range s startOffset endHeight)
  end.

(** Without the base transactions. *)
Definition cache_getTransactionHashes (s : Segment) : list Hash :=
  ct_transactionHash <$> filter (fun t => ct_transactionIndex t <> 0) (seg_transactions s).

Fixpoint cache_getTransactionCount (c : Cache) : Z :=
  match c with [] => 0 | s :: ps => u64 (cache_getTransactionCount ps + Z.of_nat (length (seg_transactions s))) end.

Definition getBlockIndexContainingTx (s : Segment) (transactionHash : Hash) : outcome Z :=
  t ← from_option "assert(it != index.end())" (find_by_hash s transactionHash); Ok (ct_blockIndex t).

(** The indexes found here, then those the parent has. *)
Fixpoint getGlobalIndexes (c : Cache) (transactionHashes : list Hash) : outcome (gmap Hash (list Z)) :=
  match c with
  | [] => null_parent
  | s :: ps =>
      let found := foldl (fun m h => match find_by_hash s h with Some t => <[h := ct_globalIndexes t]> m | None => m end) ∅ transactionHashes in
      let remainingTransactions := filter (fun h => find_by_hash s h = None) transactionHashes in
      if bool_decide (remainingTransactions = []) then Ok found
      else
        parentResult ← getGlobalIndexes ps remainingTransactions;
        Ok (found ∪ parentResult)
  end.

Fixpoint cache_getTransactionHashesByPaymentId (c : Cache) (paymentId : Hash) : list Hash :=
  match c with
  | [] => []
  | s :: ps => cache_getTransactionHashesByPaymentId ps paymentId ++ (filter (fun p => p.1 = paymentId) (seg_paymentIds s)).*2
  end.

Section decode.
Context (cn_fast_hash : bytes -> Hash).

Fixpoint cache_getRawTransaction (c : Cache) (index transactionIndex : Z) : outcome bytes :=
  match c with
  | [] => null_parent
  | s :: ps =>
      if index <? seg_startIndex s then cache_getRawTransaction ps index transactionIndex
      else
        rawBlock ← storage_getBlockByIndex s (u32 (index - seg_startIndex s));
        if transactionIndex =? 0 then
          b ← fromBinaryArray (serialize_BlockTemplate cn_fast_hash) new_BlockTemplate (block rawBlock);
          toBinaryArray serialize_Transaction (baseTransaction b)
        else
          _ ← assert (u32 (transactionIndex - 1) <=? Z.of_nat (length (transactions rawBlock)))
                "assert(rawBlock.transactions.size() >= transactionIndex - 1)";
          from_option "rawBlock.transactions[transactionIndex - 1]" (transactions rawBlock !! Z.to_nat (transactionIndex - 1))
  end.

(** The transactions found in this segment, and the hashes that are not. *)
Fixpoint cache_getRawTransactions (c : Cache) (requestedTransactions : list Hash) : outcome (list bytes * list Hash) :=
  match requestedTransactions with
  | [] => Ok ([], [])
  | h :: l =>
      match c with
      | [] => null_parent
      | s :: _ =>
          match find_by_hash s h with
          | None => '(found, missed) ← cache_getRawTransactions c l; Ok (found, h :: missed)
          | Some t =>
              raw ← cache_getRawTransaction c (ct_blockIndex t) (ct_transactionIndex t);
              '(found, missed) ← cache_getRawTransactions c l; Ok (raw :: found, missed)
          end
      end
  end.
End decode.

Definition extractKeyOtputReferences (c : Cache) (amount : Z) (globalIndexes : list Z)
    : outcome (ExtractOutputKeysResult * list (Hash * Z)) :=
  _ ← check_indexes globalIndexes;
  top ← cache_top c;
  extractKeyOutputs c amount top globalIndexes
    (fun refs info index => Ok (SUCCESS, refs ++ [(ct_transactionHash info, po_outputIndex index)])) [].

Definition extractKeyOtputIndexes (c : Cache) (amount : Z) (globalIndexes : list Z)
    : outcome (ExtractOutputKeysResult * list PackedOutIndex) :=
  _ ← assert (negb (bool_decide (globalIndexes = []))) "assert(!globalIndexes.isEmpty())";
  top ← cache_top c;
  extractKeyOutputs c amount top globalIndexes (fun l _ index => Ok (SUCCESS, l ++ [index])) [].

(** ** Decoys *)

(** Old enough to be spent by its height alone; the subtraction is one of 64 bits. *)
Definition mature (blockIndex : Z) (index : PackedOutIndex) : bool :=
  if CRYPTONOTE_MINED_MONEY_UNLOCK_WINDOW_V2_HEIGHT <=? po_blockIndex index
  then po_blockIndex index <=? u64 (blockIndex - CRYPTONOTE_MINED_MONEY_UNLOCK_WINDOW_V2)
  else po_blockIndex index <=? u64 (blockIndex - CRYPTONOTE_MINED_MONEY_UNLOCK_WINDOW).

(** [std::find_if(rbegin, rend, p).base()]: one past the last element [p] holds for. *)
Definition find_last {A} (p : A -> bool) (l : list A) : nat :=
  (length l - match list_find (fun x => p x = true) (reverse l) with Some (i, _) => i | None => length l end)%nat.

Section decoys.
Context (currency : Currency) (now : Z).

(** The offsets the generator gave, kept when their transaction is unlocked. *)
Fixpoint pick (c : Cache) (s : Segment) (e : OutputGlobalIndexesForAmount) (blockIndex : Z) (offsets : list Z) : outcome (list Z) :=
  match offsets with
  | [] => Ok []
  | offset :: l =>
      outIndex ← from_option "outputs[offset]" (oi_outputs e !! Z.to_nat offset);
      t ← from_option "transactionIterator == end()" (find_tx s outIndex);
      unlocked ← isTransactionSpendTimeUnlocked currency now c (ct_unlockTime t) blockIndex;
      rest ← pick c s e blockIndex l;
      Ok (if unlocked : bool then u32 (oi_startIndex e + offset) :: rest else rest)
  end.

(** [rnd] gives the random values of each segment's generator: of the segment with so many below it, for the size it draws from. *)
Fixpoint getRandomOutsByAmount (rnd : nat -> Z -> list Z) (c : Cache) (amount count blockIndex : Z) : outcome (list Z) :=
  match c with
  | [] => Ok []
  | s :: ps =>
      match seg_keyOutputsGlobalIndexes s !! amount with
      | None => getRandomOutsByAmount rnd ps amount count blockIndex
      | Some e =>
          let dist := u32 (Z.of_nat (find_last (mature blockIndex) (oi_outputs e))) in
          let dist := Z.min (u32 count) dist in
          '(offsets, _) ← draws (take (Z.to_nat dist) (rnd (length ps) dist)) (new_ShuffleGenerator dist);
          outs ← pick c s e blockIndex offsets;
          match ps with
          | [] => Ok outs
          | _ =>
              if Z.of_nat (length outs) <? count then
                prevs ← getRandomOutsByAmount rnd ps amount (u64 (count - Z.of_nat (length outs))) blockIndex;
                Ok (outs ++ prevs)
              else Ok outs
          end
      end
  end.
End decoys.

(** ** The flat chain of raw blocks *)

Fixpoint all_raw (c : Cache) : list RawBlock :=
  match c with [] => [] | s :: ps => all_raw ps ++ seg_storage s end.

Lemma length_all_raw c : chain_ok c -> length (all_raw c) = length (all_blocks c).
Proof. induction c as [|s ps IH]; [done|]. intros ([] & Hps & _). simpl. rewrite !length_app, IH by done. lia. Qed.

(** The elements of [a ++ b] from [i] up to [j]. *)
Lemma range_left {A} (a b : list A) i j : (j <= length a)%nat -> take (j - i) (drop i (a ++ b)) = take (j - i) (drop i a).
Proof.
  intros H. destruct (decide (i <= length a)%nat).
  - rewrite drop_app_le by done. apply take_app_le. rewrite length_drop. lia.
  - replace (j - i)%nat with 0%nat by lia. done.
Qed.
Lemma range_both {A} (a b : list A) i j : (i <= length a <= j)%nat ->
  take (j - i) (drop i (a ++ b)) = drop i a ++ take (j - length a) b.
Proof.
  intros H. rewrite drop_app_le by lia. rewrite take_app_ge by (rewrite length_drop; lia). rewrite length_drop. f_equal. f_equal. lia.
Qed.
Lemma range_right {A} (a b : list A) i j : (length a <= i)%nat -> take (j - i) (drop i (a ++ b)) = take (j - i) (drop (i - length a) b).
Proof. intros H. by rewrite drop_app_ge by lia. Qed.

Lemma head_nonneg s ps i : chain_ok (s :: ps) -> 0 <= i < seg_startIndex s -> ps <> [].
Proof. intros ([] & _) Hi ->. unfold height in *. simpl in *. lia. Qed.

Lemma blocks_by_height_ok c : chain_ok c -> c <> [] -> forall i j, 0 <= i -> 0 <= j ->
  getBlocksByHeight c i j = Ok (take (Z.to_nat j - Z.to_nat i) (drop (Z.to_nat i) (all_raw c))).
Proof.
  induction c as [|s ps IH]; intros H N i j Hi Hj; [done|]. cbn [getBlocksByHeight].
  rewrite (storage_count _ s ps eq_refl H). pose proof (head_nonneg s ps) as Hn.
  pose proof H as ([S1 S2 S3 _ _ _ _] & Hps & _). pose proof (length_all_raw ps Hps) as L. simpl all_raw.
  assert (Ls : seg_startIndex s = Z.of_nat (length (all_raw ps))) by (rewrite S1; unfold height; lia).
  destruct (Z.ltb_spec j (seg_startIndex s)) as [Hlt|Hge].
  - rewrite IH; [|done|by apply (Hn j H)|done|done]. rewrite range_left by lia. done.
  - destruct (Z.ltb_spec i (seg_startIndex s)) as [Hi'|Hi'].
    + rewrite IH; [|done|by apply (Hn i H)|done|lia]. okbind. rewrite range_both by lia. f_equal. f_equal.
      * rewrite take_ge; [done|]. rewrite length_drop. lia.
      * unfold storage_range. rewrite Z.max_r by lia. replace (Z.to_nat (seg_startIndex s - seg_startIndex s)) with 0%nat by lia. rewrite drop_0.
        destruct (Z.min_spec j (seg_startIndex s + Z.of_nat (length (seg_blockInfos s)))) as [[? ->]|[? ->]]; [f_equal; lia|].
        rewrite !take_ge; [done| |]; lia.
    + okbind. cbn [app]. rewrite range_right by lia. unfold storage_range. rewrite Z.max_l by lia. f_equal.
      replace (Z.to_nat (i - seg_startIndex s)) with (Z.to_nat i - length (all_raw ps))%nat by lia.
      destruct (Z.min_spec j (seg_startIndex s + Z.of_nat (length (seg_blockInfos s)))) as [[? ->]|[? ->]]; [f_equal; lia|].
      rewrite !take_ge; [done| |]; rewrite length_drop; lia.
Qed.

Lemma block_by_index_ok c : chain_ok c -> forall i, 0 <= i < height c -> exists r,
  all_raw c !! Z.to_nat i = Some r /\ cache_getBlockByIndex c i = Ok r.
Proof.
  induction c as [|s ps IH]; intros H i Hi; [unfold height in Hi; simpl in Hi; lia|].
  pose proof (chain_bound _ H) as B. pose proof (storage_count _ s ps eq_refl H) as C. destruct H as ([S1 S2 S3 _ _ _ _] & Hps & _).
  rewrite height_cons in *. pose proof (length_all_raw ps Hps) as L. simpl.
  destruct (Z.ltb_spec i (seg_startIndex s)) as [Hlt|Hge].
  - destruct (IH Hps i) as (b & Hb & ->); [lia|]. exists b. split; [|done]. rewrite lookup_app_l; [done|]. unfold height in *. lia.
  - pose proof (height_nonneg ps). rewrite wrap_small by width_solve. unfold storage_getBlockByIndex. rewrite C, (proj2 (Z.leb_gt _ _)) by lia.
    destruct (lookup_lt_is_Some_2 (seg_storage s) (Z.to_nat (i - seg_startIndex s))) as [b Hb]; [lia|].
    exists b. rewrite Hb. split; [|done]. rewrite lookup_app_r by (unfold height in *; lia).
    rewrite <- Hb. f_equal. unfold height in *. lia.
Qed.

Lemma nonempty_blocks_ok c : chain_ok c -> c <> [] -> forall i n, 0 <= i ->
  getNonEmptyBlocks c i n = Ok (take n (filter (fun b => transactions b <> []) (drop (Z.to_nat i) (all_raw c)))).
Proof.
  induction c as [|s ps IH]; intros H N i n Hi; [done|]. cbn [getNonEmptyBlocks]. rewrite (storage_count _ s ps eq_refl H).
  pose proof (head_nonneg s ps i H) as Hn. pose proof H as ([S1 S2 S3 _ _ _ _] & Hps & _). pose proof (length_all_raw ps Hps) as L. simpl all_raw.
  assert (Ls : seg_startIndex s = Z.of_nat (length (all_raw ps))) by (rewrite S1; unfold height; lia).
  destruct (Z.ltb_spec i (seg_startIndex s)) as [Hlt|Hge].
  - rewrite IH by (done || by apply Hn). okbind. rewrite drop_app_le by lia. rewrite filter_app.
    set (l := filter _ (drop (Z.to_nat i) (all_raw ps))). rewrite take_app, length_take.
    case_bool_decide as E; simpl andb.
    + replace (n - length l)%nat with 0%nat by lia. by rewrite app_nil_r.
    + do 2 f_equal. unfold storage_range. rewrite Z.max_r by lia.
      replace (Z.to_nat (seg_startIndex s - seg_startIndex s)) with 0%nat by lia. rewrite drop_0, (take_ge (seg_storage s)) by lia.
      f_equal. lia.
  - okbind. rewrite andb_false_r. cbn [app length]. rewrite Nat.sub_0_r. rewrite drop_app_ge by lia. do 2 f_equal. f_equal.
    unfold storage_range. rewrite Z.max_l by lia. rewrite take_ge by (rewrite length_drop; lia). f_equal. lia.
Qed.

Lemma hash_range_ok s i n : 0 <= i -> 0 <= n -> i + n <= Z.of_nat (length (seg_blockInfos s)) ->
  hash_range s i n = Ok (bi_blockHash <$> take (Z.to_nat n) (drop (Z.to_nat i) (seg_blockInfos s))).
Proof.
  intros Hi Hn B. unfold hash_range. destruct (Z.eqb_spec n 0) as [->|]; [done|]. by rewrite (proj2 (Z.leb_le _ _)).
Qed.

Lemma block_hashes_ok c : chain_ok c -> c <> [] -> forall i n, 0 <= i <= height c -> is_u64 n ->
  cache_getBlockHashes c i n = Ok (take (Z.to_nat n) (drop (Z.to_nat i) (bi_blockHash <$> all_blocks c))).
Proof.
  induction c as [|s ps IH]; intros H N i n Hi Wn; [done|]. cbn [cache_getBlockHashes].
  pose proof (head_nonneg s ps i H) as Hn. pose proof (chain_bound _ H) as B. pose proof H as ([S1 S2 S3 _ _ _ _] & Hps & _). simpl all_blocks.
  rewrite height_cons in *. assert (Ls : seg_startIndex s = Z.of_nat (length (all_blocks ps))) by done. rewrite fmap_app.
  destruct (Z.ltb_spec i (seg_startIndex s)) as [Hlt|Hge].
  - assert (0 <= n) by apply Wn. rewrite IH; [|done|apply Hn; lia|lia|done]. okbind. set (l := drop (Z.to_nat i) (bi_blockHash <$> all_blocks ps)).
    rewrite drop_app_le by (rewrite length_fmap; lia). fold l. rewrite take_app, !length_take.
    rewrite (wrap_small 64) by width_solve. rewrite hash_range_ok by lia. okbind. rewrite drop_0. do 2 f_equal. rewrite fmap_take.
    destruct (Z.min_spec (n - Z.of_nat (Z.to_nat n `min` length l)) (Z.of_nat (length (seg_blockInfos s)))) as [[? ->]|[? ->]]; [f_equal; lia|].
    rewrite !take_ge; [done| |]; rewrite length_fmap; lia.
  - rewrite drop_app_ge by (rewrite length_fmap; lia). rewrite length_fmap. rewrite (wrap_small 32) by width_solve.
    rewrite (wrap_small 64) by width_solve. rewrite hash_range_ok by (width_unfold; lia). rewrite fmap_take, fmap_drop. f_equal.
    replace (Z.to_nat i - length (all_blocks ps))%nat with (Z.to_nat (i - seg_startIndex s)) by lia.
    destruct (Z.min_spec (Z.of_nat (length (seg_blockInfos s)) - (i - seg_startIndex s)) n) as [[? ->]|[? ->]]; [|done].
    rewrite !take_ge; [done| |]; rewrite length_drop, length_fmap; lia.
Qed.

(** the block queries on a chain of segments give what the flat chain has: the raw block
    at a height, the raw blocks of a range of heights, the first non-empty blocks from a
    height on, and the hashes from a height on; none of them runs past a container. *)
Theorem block_queries_refine c i j n : chain_ok c -> c <> [] -> 0 <= i -> 0 <= j -> is_u64 n ->
  getBlocksByHeight c i j = Ok (take (Z.to_nat j - Z.to_nat i) (drop (Z.to_nat i) (all_raw c)))
  /\ getNonEmptyBlocks c i (Z.to_nat n) = Ok (take (Z.to_nat n) (filter (fun b => transactions b <> []) (drop (Z.to_nat i) (all_raw c))))
  /\ (i <= height c -> cache_getBlockHashes c i n = Ok (take (Z.to_nat n) (drop (Z.to_nat i) (bi_blockHash <$> all_blocks c))))
  /\ (i < height c -> exists r, all_raw c !! Z.to_nat i = Some r /\ cache_getBlockByIndex c i = Ok r).
Proof.
  intros H N Hi Hj Wn. split_and!; intros; [by apply blocks_by_height_ok|by apply nonempty_blocks_ok|by apply block_hashes_ok|by apply block_by_index_ok].
Qed.

Lemma block_queries_refine_witness : getBlocksByHeight [seg2] 1 5 = Ok [raw_of block1 [sample_blob]]
  /\ getBlocksByHeight [seg2] 1 5 = Ok (take 4 (drop 1 (all_raw [seg2]))).
Proof.
  split; [vm_compute; reflexivity|].
  apply (block_queries_refine [seg2] 1 5 0); [apply seg2_ok|discriminate|lia|lia|by_compute].
Defined.

(** ** Where decoys come from *)

Lemma find_last_le {A} (p : A -> bool) l : (find_last p l <= length l)%nat.
Proof. unfold find_last. lia. Qed.

Lemma pick_ok currency now c s e bi offsets : chain_ok (s :: c) -> nonempty (s :: c) -> 2 <= height (s :: c) ->
  (exists amount, seg_keyOutputsGlobalIndexes s !! amount = Some e) -> Forall (fun o => 0 <= o < Z.of_nat (length (oi_outputs e))) offsets ->
  exists outs, pick currency now (s :: c) s e bi offsets = Ok outs /\ outs `sublist_of` ((fun o => u32 (oi_startIndex e + o)) <$> offsets).
Proof.
  intros H N H2 [amount He] F. pose proof (so_outputs _ _ (proj1 H) _ _ He) as [O1 O2 O3 O4 O5 O6]. induction F as [|o l Ho _ IH]; [by exists []|].
  cbn [pick]. destruct (lookup_lt_is_Some_2 (oi_outputs e) (Z.to_nat o)) as [x Hx]; [lia|]. rewrite Hx. unfold from_option. okbind.
  destruct (Forall_lookup_1 _ _ _ _ O5 Hx) as (info & t & -> & _). okbind.
  destruct (unlocked_returns currency now (s :: c) (ct_unlockTime info) bi H N H2) as [b ->]. okbind.
  destruct IH as (outs & -> & S). okbind. eexists. split; [reflexivity|]. rewrite fmap_cons. destruct b; [by apply sublist_skip|by apply sublist_cons].
Qed.

(** asked for [count] decoys, a segment only ever offers its [count] oldest outputs of
    the amount, however many mature outputs it has and whatever the generator draws:
    the number of candidates is cut to [count] before the draw. *)
Theorem decoys_are_oldest currency now rnd s amount e count bi : chain_ok [s] -> seg_blockInfos s <> [] -> 2 <= height [s] ->
  seg_keyOutputsGlobalIndexes s !! amount = Some e -> is_u32 count ->
  (forall n, 0 <= n -> in_ranges n (take (Z.to_nat n) (rnd 0%nat n)) /\ (Z.to_nat n <= length (rnd 0%nat n))%nat) ->
  exists outs, getRandomOutsByAmount currency now rnd [s] amount count bi = Ok outs
    /\ NoDup outs /\ Forall (fun o => oi_startIndex e <= o < oi_startIndex e + count) outs.
Proof.
  intros H N H2 He Wc Hr. pose proof (so_outputs _ _ (proj1 H) _ _ He) as [O1 O2 O3 O4 O5 O6]. cbn [getRandomOutsByAmount]. rewrite He.
  pose proof (find_last_le (mature bi) (oi_outputs e)) as L. set (dist := Z.min (u32 count) _).
  assert (D : 0 <= dist <= count /\ dist <= Z.of_nat (length (oi_outputs e))).
  { unfold dist. rewrite (wrap_small 32 count), (wrap_small 32 (Z.of_nat _)) by width_solve. width_solve. }
  destruct (Hr dist ltac:(lia)) as [R RL].
  change (length (@nil Segment)) with 0%nat. destruct (shuffle_ok dist (take (Z.to_nat dist) (rnd 0%nat dist))) as (l & g & -> & P & _); [lia|rewrite length_take; lia|done|]. okbind.
  destruct (pick_ok currency now [] s e bi l) as (outs & -> & S); [done|by constructor|done|by exists amount| |].
  { rewrite P. apply Forall_forall. intros o Ho%elem_of_seqZ. lia. }
  exists outs. split; [done|]. simpl all_outputs in *.
  assert (W : forall o, o ∈ l -> 0 <= o < dist) by (intros o Ho; rewrite P in Ho; apply elem_of_seqZ in Ho; lia).
  assert (E : (fun o => u32 (oi_startIndex e + o)) <$> l = (fun o => oi_startIndex e + o) <$> l).
  { apply list_fmap_ext. intros k o Ho%list_elem_of_lookup_2. specialize (W o Ho). apply wrap_small. simpl in *. width_solve. }
  rewrite E in S. split.
  - eapply sublist_NoDup; [|exact S]. apply NoDup_fmap_2_strong; [intros x y _ _; lia|]. rewrite P. apply NoDup_seqZ.
  - apply Forall_forall. intros x Hx. eapply sublist_subseteq in Hx; [|exact S]. apply list_elem_of_fmap in Hx as (o & -> & Ho).
    specialize (W o Ho). lia.
Qed.

Lemma decoys_are_oldest_witness : exists outs, getRandomOutsByAmount test_currency 0 (fun _ n => replicate (Z.to_nat n) 0) [seg2] 7 1 200 = Ok outs
  /\ NoDup outs /\ Forall (fun o => 0 <= o < 0 + 1) outs.
Proof.
  apply (decoys_are_oldest test_currency 0 (fun _ n => replicate (Z.to_nat n) 0) seg2 7
    {| oi_startIndex := 0; oi_outputs := [Build_PackedOutIndex 0 0 0; Build_PackedOutIndex 1 0 0] |} 1 200);
    [apply seg2_ok|by_compute|by_compute|vm_compute; reflexivity|by_compute|].
  intros n Hn. rewrite length_replicate. split; [|lia]. rewrite take_replicate, Nat.min_id.
  revert n Hn. apply natlike_ind; [done|]. intros n Hn IH. rewrite Z2Nat.inj_succ by done. simpl. split; [lia|].
  by replace (Z.succ n - 1) with n by lia.
Defined.
