(* ===== verification/BlockValidation.v ===== *)
(** * BlockValidation: the checks of [Core::addBlock] in [cryptonotecore/Core.cpp]

    [validateBlock], [extractTransactions], and everything [addBlock] decides before it
    changes the chain, on the cache that holds the previous block (the segment and its
    parents).  Either an error code, or what is pushed: the transactions, the spent key
    images, the size, the coins and the difficulty. *)

From Stdlib Require Import ZArith Lia.
From stdpp Require Import base tactics list numbers strings gmap sorting.
From S2P Require Import Prelude Config Difficulty Types Serializer TxSerialization TransactionExtra BlockSerialization FormatUtils Currency Checkpoints ThreadPool Validate Pool BlockchainCache CacheChain.

Local Open Scope Z_scope.

(** ** Error codes: [AddBlockErrors.h], [BlockValidationErrors.h] *)

Inductive AddBlockErrorCode :=
| ADDED_TO_MAIN | ADDED_TO_ALTERNATIVE | ADDED_TO_ALTERNATIVE_AND_SWITCHED
| ALREADY_EXISTS | REJECTED_AS_ORPHANED | DESERIALIZATION_FAILED.

(** [VALIDATION_SUCCESS] is the absence of an error. *)
Inductive BlockValidationError :=
| WRONG_VERSION | PARENT_BLOCK_SIZE_TOO_BIG | PARENT_BLOCK_WRONG_VERSION
| TIMESTAMP_TOO_FAR_IN_FUTURE | TIMESTAMP_TOO_FAR_IN_PAST | CUMULATIVE_BLOCK_SIZE_TOO_BIG
| DIFFICULTY_OVERHEAD | BLOCK_REWARD_MISMATCH | CHECKPOINT_BLOCK_HASH_MISMATCH
| PROOF_OF_WORK_TOO_WEAK | TRANSACTION_ABSENT_IN_POOL | TRANSACTION_DUPLICATES
| TRANSACTION_INCONSISTENCY.

(** The [std::error_code] the functions return. *)
Inductive error_code :=
| AddBlock (e : AddBlockErrorCode)
| BlockError (e : BlockValidationError)
| TransactionError (e : TransactionValidationError).

#[global] Instance AddBlockErrorCode_eq_dec : EqDecision AddBlockErrorCode.
Proof. solve_decision. Defined.
#[global] Instance BlockValidationError_eq_dec : EqDecision BlockValidationError.
Proof. solve_decision. Defined.
#[global] Instance error_code_eq_dec : EqDecision error_code.
Proof. solve_decision. Defined.

(** An early [return]: an error code, or the value the code goes on with. *)
Definition result (A : Type) : Type := outcome (error_code + A).
Definition rret {A} (a : A) : result A := Ok (inr a).
Definition reject {A} (e : error_code) : result A := Ok (inl e).
Definition rbind {A B} (r : result A) (f : A -> result B) : result B :=
  match r with Ok (inr a) => f a | Ok (inl e) => Ok (inl e) | Throw m => Throw m | Undefined w => Undefined w end.
(** [if (bad) return e;] *)
Definition refuse_if (bad : bool) (e : error_code) : result unit := if bad then reject e else rret ().
Definition lift {A} (o : outcome A) : result A :=
  match o with Ok a => rret a | Throw m => Throw m | Undefined w => Undefined w end.

Declare Scope result_scope.
Delimit Scope result_scope with res.
Notation "x <- r ;; k" := (rbind r (fun x => k)) (at level 100, r at next level, k at level 200, right associativity) : result_scope.
Notation "r ;;; k" := (rbind r (fun _ => k)) (at level 100, k at level 200, right associativity) : result_scope.

Lemma rbind_ok {A B} (r : result A) (f : A -> result B) b : rbind r f = rret b <-> exists a, r = rret a /\ f a = rret b.
Proof.
  split; [|by intros (a & -> & H)]. destruct r as [[e|a]| |]; simpl; [done| |done|done]. eauto.
Qed.

Lemma refuse_ok bad e u : refuse_if bad e = rret u <-> bad = false.
Proof. destruct bad, u; split; done. Qed.

Lemma lift_ok {A} (o : outcome A) a : lift o = rret a <-> o = Ok a.
Proof. destruct o; unfold lift, rret; split; congruence. Qed.

Section validation.
Context (currency : Currency) (checkpoints : points).
Context (scalarmultKey : KeyImage -> KeyImage -> KeyImage) (check_key : PublicKey -> bool).
Context (cn_fast_hash cn_turtle_lite_slow_hash_v2 : bytes -> Hash).
Context (checkRingSignature : Hash -> KeyImage -> list PublicKey -> list Signature -> bool).
Context (algorithm : Z -> option (bytes -> Hash)) (genesisBlockHash : Hash) (threadCount : nat).
(** [time(NULL)], the same during one call. *)
Context (now : Z).

Local Open Scope result_scope.

(** ** [Core::validateBlock] *)

(** The loop over the outputs of the base transaction. *)
Fixpoint miner_outputs (minerReward : Z) (l : list TransactionOutput) : result Z :=
  match l with
  | [] => rret minerReward
  | o :: l =>
      refuse_if (out_amount o =? 0) (TransactionError OUTPUT_ZERO_AMOUNT);;;
      refuse_if (negb (check_key (output_key o))) (TransactionError OUTPUT_INVALID_KEY);;;
      refuse_if (u64 (MAX_U64 - out_amount o) <? minerReward) (TransactionError OUTPUTS_AMOUNT_OVERFLOW);;;
      miner_outputs (u64 (minerReward + out_amount o)) l
  end.

Definition futureTimeLimit (nextIndex : Z) : Z :=
  if DIFFICULTY_TARGET_V3_HEIGHT <=? nextIndex then DIFFICULTY_TARGET_V3 * 6
  else if DIFFICULTY_TARGET_V2_HEIGHT <=? nextIndex then DIFFICULTY_TARGET * 6
  else DIFFICULTY_TARGET_V2 * 6.

Definition expectedUnlockTime (nextIndex : Z) : Z :=
  if CRYPTONOTE_MINED_MONEY_UNLOCK_WINDOW_V2_HEIGHT <=? nextIndex
  then u32 (nextIndex + CRYPTONOTE_MINED_MONEY_UNLOCK_WINDOW_V2)
  else u32 (nextIndex + CRYPTONOTE_MINED_MONEY_UNLOCK_WINDOW).

(** The version and the parent block. *)
Definition check_version (b : BlockTemplate) : result unit :=
  let block := header b in
  refuse_if (negb (getBlockMajorVersionForHeight currency (getBlockIndex b) =? majorVersion block)) (BlockError WRONG_VERSION);;;
  if BLOCK_MAJOR_VERSION_2 <=? majorVersion block then
    refuse_if ((majorVersion block =? BLOCK_MAJOR_VERSION_2) && (BLOCK_MAJOR_VERSION_1 <? pb_majorVersion (parentBlock b)))
      (BlockError PARENT_BLOCK_WRONG_VERSION);;;
    p <- lift (getParentBlockBinaryArray cn_fast_hash b false);;
    refuse_if (2048 <? Z.of_nat (length p)) (BlockError PARENT_BLOCK_SIZE_TOO_BIG)
  else rret ().

Definition check_timestamp (b : BlockTemplate) (c : Cache) (previousBlockIndex : Z) : result unit :=
  let t := timestamp (header b) in
  refuse_if (u64 (now + futureTimeLimit (u32 (previousBlockIndex + 1))) <? t) (BlockError TIMESTAMP_TOO_FAR_IN_FUTURE);;;
  timestamps <- lift (getLastTimestamps c (Z.to_nat (m_timestampCheckWindow currency)) previousBlockIndex true);;
  refuse_if ((m_timestampCheckWindow currency <=? Z.of_nat (length timestamps)) && (t <? medianValue timestamps))
    (BlockError TIMESTAMP_TOO_FAR_IN_PAST).

Definition check_base (b : BlockTemplate) (previousBlockIndex : Z) : result unit :=
  let base := baseTransaction b in
  let nextIndex := u32 (previousBlockIndex + 1) in
  match inputs (tx_prefix base) with
  | [InBase i] =>
      refuse_if (negb (blockIndex i =? nextIndex)) (TransactionError BASE_INPUT_WRONG_BLOCK_INDEX);;;
      refuse_if (negb (unlockTime (tx_prefix base) =? expectedUnlockTime nextIndex)) (TransactionError WRONG_TRANSACTION_UNLOCK_TIME);;;
      refuse_if ((TRANSACTION_SIGNATURE_COUNT_VALIDATION_HEIGHT <=? getBlockIndex b) && negb (bool_decide (signatures base = [])))
        (TransactionError BASE_INVALID_SIGNATURES_COUNT)
  | [InKey _] => reject (TransactionError INPUT_UNEXPECTED_TYPE)
  | _ => reject (TransactionError INPUT_WRONG_COUNT)
  end.

(** The miner's reward. *)
Definition validateBlock (b : BlockTemplate) (c : Cache) : result Z :=
  match c with
  | [] => Undefined "cache is null"
  | s :: _ =>
      previousBlockIndex <- lift (cache_getBlockIndex s (previousBlockHash (header b)));;
      check_version b;;;
      check_timestamp b c previousBlockIndex;;;
      check_base b previousBlockIndex;;;
      miner_outputs 0 (outputs (tx_prefix (baseTransaction b)))
  end.

(** ** [Core::extractTransactions] *)

(** [None]: it returns [false].  It catches [std::runtime_error], which is all the constructor of [CachedTransaction] throws: the exceptions of the
    reader are caught in [fromBinaryArray]. *)
Fixpoint extractTransactions (rawTransactions : list bytes) (cumulativeSize : Z) : outcome (option (list CachedTransaction * Z)) :=
  match rawTransactions with
  | [] => Ok (Some ([], cumulativeSize))
  | raw :: l =>
      if m_maxTxSize currency <? Z.of_nat (length raw) then Ok None
      else
        r ← try_catch (CachedTransaction_of_blob raw);
        match r with
        | None => Ok None
        | Some tx =>
            rest ← extractTransactions l (u64 (cumulativeSize + Z.of_nat (length raw)));
            Ok (match rest with None => None | Some (txs, size) => Some (tx :: txs, size) end)
        end
  end.

(** ** [Core::addBlock] up to the change of the chain *)

Record Accepted := {
  a_transactions : list CachedTransaction;
  a_validatorState : TransactionValidatorState;
  a_cumulativeBlockSize : Z;
  a_emissionChange : Z;
  a_currentDifficulty : Z;
  a_previousBlockIndex : Z }.

Fixpoint hashes_of (l : list CachedTransaction) : outcome (list Hash) :=
  match l with
  | [] => Ok []
  | tx :: l => h ← getTransactionHash cn_fast_hash tx; hs ← hashes_of l; Ok (h :: hs)
  end.

(** The block names exactly the transactions that came with it. *)
Definition check_hashes (b : BlockTemplate) (transactions : list CachedTransaction) : result unit :=
  if BLOCK_BLOB_SHUFFLE_CHECK_HEIGHT <=? getBlockIndex b then
    refuse_if (negb (bool_decide (NoDup (transactionHashes b)))) (BlockError TRANSACTION_DUPLICATES);;;
    hs <- lift (hashes_of transactions);;
    refuse_if (negb (bool_decide (NoDup hs))) (BlockError TRANSACTION_DUPLICATES);;;
    refuse_if (negb (forallb (fun h => bool_decide (h ∈ transactionHashes b)) hs)) (BlockError TRANSACTION_INCONSISTENCY);;;
    refuse_if (negb (bool_decide (transactionHashes b = hs))) (BlockError TRANSACTION_INCONSISTENCY)
  else rret ().

(** The reward the miner takes is the one the currency allows; the change of the emission. *)
Definition check_reward (b : BlockTemplate) (c : Cache) (previousBlockIndex size fee minerReward : Z) : result Z :=
  alreadyGeneratedCoins <- lift (getAlreadyGeneratedCoins c previousBlockIndex);;
  lastBlocksSizes <- lift (getLastBlocksSizes c (Z.to_nat (m_rewardBlocksWindow currency)) previousBlockIndex true);;
  r <- lift (getBlockReward currency (majorVersion (header b)) (medianValue lastBlocksSizes) size alreadyGeneratedCoins fee (getBlockIndex b));;
  match r with
  | None => reject (BlockError CUMULATIVE_BLOCK_SIZE_TOO_BIG)
  | Some (reward, emissionChange) =>
      refuse_if (negb (minerReward =? reward)) (BlockError BLOCK_REWARD_MISMATCH);;;
      rret emissionChange
  end.

Definition check_work (b : BlockTemplate) (currentDifficulty : Z) : result unit :=
  if isInCheckpointZone checkpoints (getBlockIndex b) then
    h <- lift (getBlockHash cn_fast_hash b);;
    refuse_if (negb (checkBlock checkpoints (getBlockIndex b) h).1) (BlockError CHECKPOINT_BLOCK_HASH_MISMATCH)
  else
    ok <- lift (checkProofOfWork cn_fast_hash algorithm genesisBlockHash b currentDifficulty);;
    refuse_if (negb ok) (BlockError PROOF_OF_WORK_TOO_WEAK).

(** What the rejection of a transaction leaves for the caller: its hash, to be removed
    from the pool. *)
Definition Verdict : Type := outcome (error_code * option Hash + Accepted).

Definition of_result {A} (r : result A) (k : A -> Verdict) : Verdict :=
  match r with Ok (inr a) => k a | Ok (inl e) => Ok (inl (e, None)) | Throw m => Throw m | Undefined w => Undefined w end.

(** [c] is the segment of the previous block with its parents; [scheds i] is the thread
    schedule of the [i]-th transaction's validation. *)
Definition check_block (blockMedianSize : Z) (c : Cache) (b : BlockTemplate) (raw : RawBlock) (scheds : nat -> list action) : Verdict :=
  r ← extractTransactions (transactions raw) 0;
  match r with
  | None => Ok (inl (AddBlock DESERIALIZATION_FAILED, None))
  | Some (txs, cumulativeSize) =>
      coinbaseTransactionSize ← getObjectBinarySize serialize_Transaction (baseTransaction b);
      _ ← assert (coinbaseTransactionSize <? MAX_U64) "assert(coinbaseTransactionSize < max)";
      let cumulativeBlockSize := u64 (coinbaseTransactionSize + cumulativeSize) in
      match c with
      | [] => Undefined "cache is null"
      | s :: _ =>
          previousBlockIndex ← cache_getBlockIndex s (previousBlockHash (header b));
          maxSize ← maxBlockCumulativeSize currency (u32 (previousBlockIndex + 1));
          if maxSize <? cumulativeBlockSize then Ok (inl (BlockError CUMULATIVE_BLOCK_SIZE_TOO_BIG, None))
          else
            of_result (validateBlock b c) (fun minerReward =>
            currentDifficulty ← getDifficultyForNextBlock currency c previousBlockIndex;
            if currentDifficulty =? 0 then Ok (inl (BlockError DIFFICULTY_OVERHEAD, None))
            else
              of_result (check_hashes b txs) (fun _ =>
              t ← block_transactions (cache := cache_interface currency now c) scalarmultKey check_key cn_fast_hash
                    cn_turtle_lite_slow_hash_v2 checkRingSignature threadCount currency checkpoints blockMedianSize previousBlockIndex
                    (imap (fun i tx => (tx, scheds i)) txs) ∅ 0;
              match t with
              | inl (tx, e) =>
                  h ← getTransactionHash cn_fast_hash tx;
                  Ok (inl (TransactionError (match e with Some e => e | None => VALIDATION_SUCCESS end), Some h))
              | inr (cumulativeFee, validatorState) =>
                  of_result (check_reward b c previousBlockIndex cumulativeBlockSize cumulativeFee minerReward) (fun emissionChange =>
                  of_result (check_work b currentDifficulty) (fun _ =>
                  Ok (inr {| a_transactions := txs; a_validatorState := validatorState; a_cumulativeBlockSize := cumulativeBlockSize;
                             a_emissionChange := emissionChange; a_currentDifficulty := currentDifficulty;
                             a_previousBlockIndex := previousBlockIndex |})))
              end))
      end
  end.

End validation.

(** ** What the checks establish *)

(** Take apart a chain of early returns that went through. *)
Ltac inv_res :=
  repeat match goal with
  | H : rbind _ _ = rret _ |- _ =>
      let x := fresh "v" in let Hx := fresh "Hr" in apply rbind_ok in H as [x [Hx H]]
  | H : refuse_if _ _ = rret _ |- _ => apply (proj1 (refuse_ok _ _ _)) in H
  | H : lift _ = rret _ |- _ => apply (proj1 (lift_ok _ _)) in H
  | H : reject _ = rret _ |- _ => discriminate H
  | H : negb _ = false |- _ => apply negb_false_iff in H
  | x : unit |- _ => destruct x
  end.

Lemma of_result_ok {A} (r : result A) (k : A -> Verdict) v : of_result r k = Ok (inr v) -> exists a, r = rret a /\ k a = Ok (inr v).
Proof. destruct r as [[e|a]| |]; simpl; try done. eauto. Qed.

Lemma rret_inj {A} (a b : A) : rret a = rret b -> a = b.
Proof. by intros [= ->]. Qed.

Section facts.
Context (currency : Currency) (checkpoints : points).
Context (scalarmultKey : KeyImage -> KeyImage -> KeyImage) (check_key : PublicKey -> bool).
Context (cn_fast_hash cn_turtle_lite_slow_hash_v2 : bytes -> Hash).
Context (checkRingSignature : Hash -> KeyImage -> list PublicKey -> list Signature -> bool).
Context (algorithm : Z -> option (bytes -> Hash)) (genesisBlockHash : Hash) (threadCount : nat) (now : Z).

Abbreviation CHECK := (check_block currency checkpoints scalarmultKey check_key cn_fast_hash cn_turtle_lite_slow_hash_v2
  checkRingSignature algorithm genesisBlockHash threadCount now).

Lemma miner_outputs_ok l : forall acc r, is_u64 acc -> Forall (fun o => is_u64 (out_amount o)) l ->
  miner_outputs check_key acc l = rret r -> r = acc + sumZ (out_amount <$> l) /\ is_u64 r
  /\ Forall (fun o => out_amount o <> 0 /\ check_key (output_key o) = true) l.
Proof.
  induction l as [|o l IH]; intros acc r Ha W H; cbn [miner_outputs] in H.
  { apply rret_inj in H as <-. split_and!; [simpl; lia|done|done]. }
  inv W. inv_res. apply Z.eqb_neq in Hr. apply Z.ltb_ge in Hr1. rewrite wrap_small in Hr1 by width_solve.
  rewrite wrap_small in H by width_solve. destruct (IH (acc + out_amount o) r) as (E & U & F); [width_solve|done|done|].
  rewrite fmap_cons, sumZ_cons. split_and!; [lia|done|by constructor].
Qed.

Lemma extract_transactions_ok raws : forall size txs size', extractTransactions currency raws size = Ok (Some (txs, size')) ->
  Forall2 (fun raw tx => CachedTransaction_of_blob raw = Ok tx) raws txs.
Proof.
  induction raws as [|raw raws IH]; intros size txs size' H; cbn [extractTransactions] in H.
  { injection H as <- <-. constructor. }
  destruct (m_maxTxSize currency <? _); [done|]. apply bind_ok in H as (r & Hr & H). destruct r as [tx|]; [|done].
  apply bind_ok in H as (rest & Hrest & H). destruct rest as [[txs' s']|]; [|done]. injection H as <- <-.
  constructor; [|by eapply IH]. unfold try_catch in Hr. by destruct (CachedTransaction_of_blob raw); simplify_eq.
Qed.

Lemma imap_fst {A B} (f : nat -> A -> B) (l : list A) : (imap (fun i x => (x, f i x)) l).*1 = l.
Proof. revert f. induction l as [|x l IH]; intros f; [done|]. simpl. f_equal. apply (IH (fun i => f (S i))). Qed.

(** What is known of an accepted block. *)
Record block_checked (blockMedianSize : Z) (c : Cache) (b : BlockTemplate) (raw : RawBlock) (a : Accepted) : Prop := {
  bc_transactions : Forall2 (fun raw tx => CachedTransaction_of_blob raw = Ok tx) (transactions raw) (a_transactions a);
  bc_previous : exists s ps, c = s :: ps /\ cache_getBlockIndex s (previousBlockHash (header b)) = Ok (a_previousBlockIndex a);
  bc_index : getBlockIndex b = u32 (a_previousBlockIndex a + 1);
  bc_difficulty : getDifficultyForNextBlock currency c (a_previousBlockIndex a) = Ok (a_currentDifficulty a) /\ a_currentDifficulty a <> 0;
  bc_size : exists maxSize, maxBlockCumulativeSize currency (u32 (a_previousBlockIndex a + 1)) = Ok maxSize
    /\ 0 <= a_cumulativeBlockSize a <= maxSize;
  bc_images : let images := concat (tx_images currency checkpoints blockMedianSize (a_previousBlockIndex a) <$> a_transactions a) in
    NoDup images /\ a_validatorState a = list_to_set images;
  bc_accepted : Forall (fun tx => exists state,
    accepts (cache := cache_interface currency now c) scalarmultKey check_key cn_fast_hash cn_turtle_lite_slow_hash_v2 checkRingSignature
      (block_validator currency checkpoints blockMedianSize (a_previousBlockIndex a) tx) state) (a_transactions a);
  bc_reward : exists coins sizes,
    getAlreadyGeneratedCoins c (a_previousBlockIndex a) = Ok coins
    /\ getLastBlocksSizes c (Z.to_nat (m_rewardBlocksWindow currency)) (a_previousBlockIndex a) true = Ok sizes
    /\ getBlockReward currency (majorVersion (header b)) (medianValue sizes) (a_cumulativeBlockSize a) coins
         (u64 (sumZ (tx_fee currency checkpoints blockMedianSize (a_previousBlockIndex a) <$> a_transactions a))) (getBlockIndex b)
       = Ok (Some (sumZ (out_amount <$> outputs (tx_prefix (baseTransaction b))), a_emissionChange a));
  bc_work : if isInCheckpointZone checkpoints (getBlockIndex b)
    then exists h, getBlockHash cn_fast_hash b = Ok h /\ (checkBlock checkpoints (getBlockIndex b) h).1 = true
    else checkProofOfWork cn_fast_hash algorithm genesisBlockHash b (a_currentDifficulty a) = Ok true }.

Lemma check_base_ok b i : check_base b i = rret () -> getBlockIndex b = u32 (i + 1).
Proof.
  unfold check_base, getBlockIndex. destruct (inputs _) as [|[k|k] [|]]; try done. intros H. inv_res. by apply Z.eqb_eq in Hr.
Qed.

Lemma check_work_ok b d : check_work checkpoints cn_fast_hash algorithm genesisBlockHash b d = rret () ->
  if isInCheckpointZone checkpoints (getBlockIndex b)
  then exists h, getBlockHash cn_fast_hash b = Ok h /\ (checkBlock checkpoints (getBlockIndex b) h).1 = true
  else checkProofOfWork cn_fast_hash algorithm genesisBlockHash b d = Ok true.
Proof. unfold check_work. destruct (isInCheckpointZone _ _); intros H; inv_res; [exists v; split; [exact Hr|exact H]|subst v; exact Hr]. Qed.

Lemma check_reward_ok b c i size fee minerReward change : check_reward currency b c i size fee minerReward = rret change ->
  exists coins sizes, getAlreadyGeneratedCoins c i = Ok coins
    /\ getLastBlocksSizes c (Z.to_nat (m_rewardBlocksWindow currency)) i true = Ok sizes
    /\ getBlockReward currency (majorVersion (header b)) (medianValue sizes) size coins fee (getBlockIndex b) = Ok (Some (minerReward, change)).
Proof.
  unfold check_reward. intros H. inv_res. destruct v1 as [[reward ch]|]; [|done]. inv_res. apply Z.eqb_eq in Hr2 as ->.
  apply rret_inj in H as ->. by exists v, v0.
Qed.

Lemma blob_amounts raw tx : is_bytes raw -> CachedTransaction_of_blob raw = Ok tx -> wf_amounts (tx_prefix (getTransaction tx)).
Proof.
  intros Hb H. set (v := Build_ValidateTransaction tx currency ∅ 0 0 false). apply (valid_amounts v). by apply (blob_well_cached v raw).
Qed.

Lemma check_block_ok median c b raw scheds a : Forall is_bytes (transactions raw) ->
  Forall (fun o => is_u64 (out_amount o)) (outputs (tx_prefix (baseTransaction b))) ->
  CHECK median c b raw scheds = Ok (inr a) -> block_checked median c b raw a.
Proof.
  intros Wr Wo H. unfold check_block in H. apply bind_ok in H as (r & Hx & H). destruct r as [[txs size]|]; [|done].
  pose proof (extract_transactions_ok _ _ _ _ Hx) as Ht.
  apply bind_ok in H as (cs & Hcs & H). apply bind_ok in H as (? & Hmax & H). apply assert_ok, Z.ltb_lt in Hmax.
  destruct c as [|s ps]; [done|]. apply bind_ok in H as (prev & Hprev & H). apply bind_ok in H as (maxSize & Hm & H).
  destruct (Z.ltb_spec maxSize (u64 (cs + size))) as [|Hsize]; [done|]. apply of_result_ok in H as (minerReward & Hv & H). apply bind_ok in H as (d & Hd & H).
  destruct (Z.eqb_spec d 0) as [|Nd]; [done|]. apply of_result_ok in H as (? & Hh & H). apply bind_ok in H as (t & Hbt & H).
  destruct t as [[tx e]|[fee st]]; [by apply bind_ok in H as (? & _ & H)|].
  apply of_result_ok in H as (change & Hrew & H). apply of_result_ok in H as (? & Hw & H). apply Ok_inj in H as [= <-].
  unfold validateBlock in Hv. inv_res. rewrite Hprev in Hr. apply Ok_inj in Hr as <-.
  apply block_transactions_ok in Hbt; [| |width_solve].
  2: { apply Forall_forall. intros [tx sched] Hin. simpl.
       assert (Hin' : tx ∈ txs) by (rewrite <- (imap_fst (fun i _ => scheds i) txs); apply list_elem_of_fmap; by exists (tx, sched)).
       apply list_elem_of_lookup in Hin' as [k Hk]. destruct (Forall2_lookup_r _ _ _ _ _ Ht Hk) as (rw & Hrw & E).
       eapply blob_amounts; [|exact E]. exact (Forall_lookup_1 _ _ _ _ Wr Hrw). }
  rewrite (imap_fst (fun i _ => scheds i) txs) in Hbt. destruct Hbt as (N & _ & -> & -> & Acc).
  apply check_reward_ok in Hrew. apply miner_outputs_ok in Hv as (-> & _ & _); [|width_solve|done].
  split; cbn [a_transactions a_validatorState a_cumulativeBlockSize a_emissionChange a_currentDifficulty a_previousBlockIndex].
  - done.
  - by exists s, ps.
  - by apply check_base_ok.
  - done.
  - exists maxSize. split; [done|]. split; [apply wrap_range; lia|done].
  - split; [done|]. set_solver.
  - done.
  - exact Hrew.
  - by apply check_work_ok.
Qed.

(** *** Money *)

(** The fees of the transactions, and what the block's transactions take in and give out. *)
Definition block_fees (median i : Z) (txs : list CachedTransaction) : Z := sumZ (tx_fee currency checkpoints median i <$> txs).
Definition total_in (txs : list CachedTransaction) : Z := sumZ ((fun tx => sumZ (input_amount <$> inputs (tx_prefix (getTransaction tx)))) <$> txs).
Definition total_out (txs : list CachedTransaction) : Z := sumZ ((fun tx => sumZ (out_amount <$> outputs (tx_prefix (getTransaction tx)))) <$> txs).

Lemma block_fees_diff median i txs : block_fees median i txs = total_in txs - total_out txs.
Proof.
  unfold block_fees, total_in, total_out. induction txs as [|tx txs IH]; [done|]. rewrite !fmap_cons, !sumZ_cons, IH.
  unfold tx_fee, FormatUtils.getInputAmount, in_total, out_total, block_validator, m_transaction. simpl. lia.
Qed.

Lemma fees_nonneg median c b raw a : block_checked median c b raw a -> 0 <= block_fees median (a_previousBlockIndex a) (a_transactions a).
Proof.
  intros []. apply sumZ_nonneg, Forall_fmap. eapply Forall_impl; [exact bc_accepted0|]. simpl. intros tx (st & [] & _).
  destruct acc_fee as [H _]. exact H.
Qed.

Lemma medianValue_bound l B : 0 <= B < 2 ^ 63 -> Forall (fun x => 0 <= x <= B) l -> 0 <= medianValue l <= B.
Proof.
  intros HB H. assert (S : Forall (fun x => 0 <= x <= B) (merge_sort Z.le l)) by by rewrite merge_sort_Permutation.
  assert (N : forall k, 0 <= nth k (merge_sort Z.le l) 0 <= B).
  { intros k. destruct (nth_in_or_default k (merge_sort Z.le l) 0) as [Hin| ->]; [|lia].
    rewrite Forall_forall in S. by apply S, list_elem_of_In. }
  unfold medianValue. destruct l as [|x [|y l']]; [lia|by inv H|]. cbn zeta. case_match; [apply N|].
  pose proof (N (length (x :: y :: l') / 2 - 1)%nat). pose proof (N (length (x :: y :: l') / 2)%nat).
  rewrite wrap_small by (width_unfold; eval_pow2; lia). split; [apply Z.div_pos; lia|apply Z.div_le_upper_bound; lia].
Qed.

(** The coins a block records are within the supply, and its size fits 32 bits. *)
Definition ledger_ok (c : Cache) : Prop :=
  Forall (fun b => 0 <= bi_alreadyGeneratedCoins b <= m_moneySupply currency /\ is_u32 (bi_blockSize b)) (all_blocks c).

Lemma sizes_bound c i sizes : chain_ok c -> nonempty c -> ledger_ok c -> 0 <= i < height c ->
  getLastBlocksSizes c (Z.to_nat (m_rewardBlocksWindow currency)) i true = Ok sizes -> 0 <= medianValue sizes <= 2 ^ 32 - 1.
Proof.
  intros H N L Hi E. unfold getLastBlocksSizes in E. rewrite units_ok in E by done. apply Ok_inj in E as <-.
  apply medianValue_bound; [lia|]. apply Forall_fmap, Forall_drop, Forall_take. eapply Forall_impl; [exact L|].
  intros x [_ Hx]. simpl. width_solve.
Qed.

Lemma coins_of c i coins : chain_ok c -> ledger_ok c -> 0 <= i < height c -> getAlreadyGeneratedCoins c i = Ok coins ->
  0 <= coins <= m_moneySupply currency.
Proof.
  intros H L Hi E. unfold getAlreadyGeneratedCoins in E. destruct (info_at_ok c H i Hi) as (x & Hx & Hinfo).
  rewrite Hinfo in E. apply Ok_inj in E as <-. exact (proj1 (Forall_lookup_1 _ _ _ _ L Hx)).
Qed.

(** The network's parameters are in range. *)
Record sane_currency : Prop := {
  sane_supply : is_u64 (m_moneySupply currency);
  sane_zone : 0 < m_blockGrantedFullRewardZone currency < 2 ^ 32;
  sane_sizes : forall height maxSize, is_u32 height -> maxBlockCumulativeSize currency height = Ok maxSize -> maxSize < 2 ^ 32 }.

Lemma reward_bounds median c b raw a coins : sane_currency -> chain_ok c -> nonempty c -> ledger_ok c ->
  block_checked median c b raw a -> 0 <= a_previousBlockIndex a < height c ->
  getAlreadyGeneratedCoins c (a_previousBlockIndex a) = Ok coins ->
  block_fees median (a_previousBlockIndex a) (a_transactions a) < 2 ^ 63 ->
  sumZ (out_amount <$> outputs (tx_prefix (baseTransaction b)))
    = a_emissionChange a + block_fees median (a_previousBlockIndex a) (a_transactions a)
  /\ coins + a_emissionChange a <= m_moneySupply currency
  /\ - block_fees median (a_previousBlockIndex a) (a_transactions a) <= a_emissionChange a.
Proof.
  intros [Hs Hz Hm'] H N L B Hi Hc Hf. pose proof (fees_nonneg _ _ _ _ _ B) as Hf0.
  assert (Hsize : 0 <= a_cumulativeBlockSize a < 2 ^ 32).
  { destruct (bc_size _ _ _ _ _ B) as (m & Hm & Hr). apply Hm' in Hm; [lia|apply wrap_range; lia]. }
  destruct (bc_reward _ _ _ _ _ B) as (coins' & sizes & Ec & Es & E). rewrite Hc in Ec. apply Ok_inj in Ec as <-.
  fold (block_fees median (a_previousBlockIndex a) (a_transactions a)) in E. rewrite (wrap_small 64) in E by (width_unfold; eval_pow2; lia).
  pose proof (coins_of _ _ _ H L Hi Hc) as Hcoins. pose proof (sizes_bound _ _ _ H N L Hi Es) as Hm.
  assert (0 < effective_median currency (majorVersion (header b)) (medianValue sizes) < 2 ^ 32) as He.
  { unfold effective_median, blockGrantedFullRewardZoneByBlockVersion, CRYPTONOTE_BLOCK_GRANTED_FULL_REWARD_ZONE_V2, CRYPTONOTE_BLOCK_GRANTED_FULL_REWARD_ZONE_V1.
    repeat case_match; lia. }
  apply reward_ok in E as (E1 & _ & E2 & _ & E3); try done; lia.
Qed.

(** The coins recorded by the block that is pushed. *)
Lemma pushed_coins median c b raw a coins h n size : sane_currency -> chain_ok c -> nonempty c -> ledger_ok c ->
  block_checked median c b raw a -> a_previousBlockIndex a = height c - 1 -> 0 < height c ->
  getAlreadyGeneratedCoins c (a_previousBlockIndex a) = Ok coins ->
  block_fees median (a_previousBlockIndex a) (a_transactions a) < 2 ^ 63 ->
  block_fees median (a_previousBlockIndex a) (a_transactions a) <= coins ->
  let info := pushed_info c b h n size (u64 (a_emissionChange a)) (a_currentDifficulty a) in
  bi_alreadyGeneratedCoins info = coins + a_emissionChange a
  /\ 0 <= bi_alreadyGeneratedCoins info <= m_moneySupply currency /\ is_u32 (bi_blockSize info).
Proof.
  intros Sn H N L B Hi Hpos Hc Hf Hfc info.
  destruct (reward_bounds _ _ _ _ _ _ Sn H N L B ltac:(lia) Hc Hf) as (_ & R2 & R3).
  assert (E : bi_alreadyGeneratedCoins info = u64 (coins + u64 (a_emissionChange a)) /\ is_u32 (bi_blockSize info)).
  { unfold info, pushed_info. destruct (info_at_ok c H (height c - 1)) as (x & Hx & Hinfo); [lia|].
    unfold getAlreadyGeneratedCoins in Hc. rewrite Hi, Hinfo in Hc. apply Ok_inj in Hc as <-.
    rewrite last_lookup. replace (pred (length (all_blocks c))) with (Z.to_nat (height c - 1)) by (unfold height; lia). rewrite Hx.
    simpl. split; [done|apply wrap_range; lia]. }
  destruct E as [E Es]. pose proof (sane_supply Sn). rewrite wrap_add_r, wrap_small in E by (width_unfold; lia). rewrite E. split_and!; [done|lia|lia|done].
Qed.

(** C13: a block that passes the checks creates exactly the coins it records: what its
    transactions take in plus the change of the emission is what they and the miner's
    transaction give out; and with the fees within the coins in circulation, the coins
    recorded stay within the supply. *)
Theorem block_conserves_money median s ps b raw scheds a coins : sane_currency ->
  chain_ok (s :: ps) -> nonempty (s :: ps) -> ledger_ok (s :: ps) ->
  Forall is_bytes (transactions raw) -> Forall (fun o => is_u64 (out_amount o)) (outputs (tx_prefix (baseTransaction b))) ->
  CHECK median (s :: ps) b raw scheds = Ok (inr a) -> 0 <= a_previousBlockIndex a < height (s :: ps) ->
  getAlreadyGeneratedCoins (s :: ps) (a_previousBlockIndex a) = Ok coins ->
  block_fees median (a_previousBlockIndex a) (a_transactions a) < 2 ^ 63 ->
  total_in (a_transactions a) + a_emissionChange a
    = total_out (a_transactions a) + sumZ (out_amount <$> outputs (tx_prefix (baseTransaction b)))
  /\ coins + a_emissionChange a <= m_moneySupply currency.
Proof.
  intros Sn H N L Wr Wo C Hi Hc Hf. apply check_block_ok in C; [|done|done].
  destruct (reward_bounds _ _ _ _ _ _ Sn H N L C Hi Hc Hf) as (R1 & R2 & _). rewrite block_fees_diff in R1. split; lia.
Qed.

End facts.

(** ** Witness: a block mined on the root block *)

Lemma test_currency_sane : sane_currency test_currency.
Proof.
  split; [by_compute|by_compute|]. intros h m Hh. unfold maxBlockCumulativeSize. intros E.
  apply bind_ok in E as (_ & _ & E). apply bind_ok in E as (_ & _ & E). apply Ok_inj in E as <-.
  change (m_maxBlockSizeGrowthSpeedNumerator test_currency) with 102400. change (m_maxBlockSizeGrowthSpeedDenominator test_currency) with 105120.
  change (m_maxBlockSizeInitial test_currency) with 100000.
  destruct (Z.leb_spec MAX_BLOCK_SIZE_V1_HEIGHT h) as [_|Hl]; [reflexivity|]. unfold MAX_BLOCK_SIZE_V1_HEIGHT in Hl.
  rewrite (wrap_small 64 (h * _)) by width_solve. pose proof (Z.div_le_upper_bound (h * 102400) 105120 3000000).
  pose proof (Z.div_pos (h * 102400) 105120). rewrite wrap_small by width_solve. width_solve.
Qed.

Definition mined_block : BlockTemplate :=
  {| header := {| majorVersion := 1; minorVersion := 0; nonce := 0; timestamp := 2000; previousBlockHash := hash_of (getBlockHash toy_hash block0) |};
     parentBlock := parentBlock new_BlockTemplate;
     baseTransaction := {| tx_prefix := {| version := 1; unlockTime := expectedUnlockTime 1; inputs := [InBase {| blockIndex := 1 |}];
         outputs := [{| out_amount := 1192092895; target := TargetKey {| ko_key := replicate 32 3 |} |}]; extra := [] |}; signatures := [] |};
     transactionHashes := [] |}.
Definition toy_algorithm (majorVersion : Z) : option (bytes -> Hash) := Some (fun _ => replicate 32 0).

Lemma block_conserves_money_witness : exists a,
  check_block test_currency ∅ toy_scalarmult toy_check_key toy_hash toy_hash toy_ring toy_algorithm [] 2 2000 100000 [seg1] mined_block
    (raw_of mined_block []) (fun _ => []) = Ok (inr a)
  /\ total_in (a_transactions a) + a_emissionChange a = total_out (a_transactions a) + 1192092895
  /\ 7 + a_emissionChange a <= m_moneySupply test_currency.
Proof.
  eexists. split; [vm_compute; reflexivity|].
  apply (block_conserves_money test_currency ∅ toy_scalarmult toy_check_key toy_hash toy_hash toy_ring toy_algorithm [] 2 2000 100000 seg1 [] mined_block
    (raw_of mined_block []) (fun _ => [])).
  - exact test_currency_sane.
  - exact (proj1 (proj2 seg1_ok)).
  - by_compute.
  - by_compute.
  - by_compute.
  - by_compute.
  - vm_compute. reflexivity.
  - by_compute.
  - vm_compute. reflexivity.
  - by_compute.
Defined.
