(* ===== verification/SegmentTree.v ===== *)
(** * SegmentTree: the tree of blockchain segments [Core] keeps

    [Core] owns its segments in [chainsStorage]; they point to their parent and to their
    children, and [chainsLeaves] names the leaves, the main chain's first.  A segment
    object is a [Node] at an address; the [Cache] of [BlockchainCache.v] is what one sees
    from a node up to the root.  Here are the walks over the tree, the changes [Core]
    makes to it, and the invariant of its shape. *)

From Stdlib Require Import ZArith Lia.
From stdpp Require Import base tactics list numbers strings gmap fin_maps fin_sets sorting.
From S2P Require Import Prelude Config Types Serializer Validate Pool BlockchainCache CacheChain.

Local Open Scope Z_scope.

Abbreviation ptr := nat.

(** A [BlockchainCache] object: its containers, [parent] and [children]. *)
Record Node := { n_segment : Segment; n_parent : option ptr; n_children : list ptr }.
Abbreviation heap := (gmap ptr Node).

Definition set_segment (s : Segment) (n : Node) : Node := {| n_segment := s; n_parent := n_parent n; n_children := n_children n |}.
Definition set_parent (p : option ptr) (n : Node) : Node := {| n_segment := n_segment n; n_parent := p; n_children := n_children n |}.
Definition set_children (l : list ptr) (n : Node) : Node := {| n_segment := n_segment n; n_parent := n_parent n; n_children := l |}.

(** ** Walks *)

Definition node (h : heap) (p : ptr) : outcome Node := from_option "dangling pointer" (h !! p).

(** Every walk follows [getParent()] until null; a walk longer than the number of
    segments would be a cycle. *)
Definition endless {A} : outcome A := Undefined "the parents form a cycle".
Definition fuel_of (h : heap) : nat := S (size h).

(** The segment with its parents, as the methods of [BlockchainCache] see it. *)
Fixpoint cache_from (fuel : nat) (h : heap) (p : ptr) : outcome Cache :=
  match fuel with
  | O => endless
  | S fuel =>
      n ← node h p;
      match n_parent n with
      | None => Ok [n_segment n]
      | Some q => c ← cache_from fuel h q; Ok (n_segment n :: c)
      end
  end.
Definition cache_at (h : heap) (p : ptr) : outcome Cache := cache_from (fuel_of h) h p.

(** [findIndexInChain]: the first segment on the way up that [has] what is looked for. *)
Fixpoint find_up (fuel : nat) (h : heap) (p : ptr) (has : Segment -> bool) : outcome (option ptr) :=
  match fuel with
  | O => endless
  | S fuel =>
      n ← node h p;
      if has (n_segment n) then Ok (Some p)
      else match n_parent n with None => Ok None | Some q => find_up fuel h q has end
  end.
Definition findIndexInChain (h : heap) (p : ptr) (blockHash : Hash) : outcome (option ptr) :=
  find_up (fuel_of h) h p (fun s => cache_hasBlock s blockHash).
Definition findIndexInChain_at (h : heap) (p : ptr) (blockIndex : Z) : outcome (option ptr) :=
  find_up (fuel_of h) h p (fun s => (seg_startIndex s <=? blockIndex) && (blockIndex <? u32 (seg_startIndex s + getBlockCount s))).

(** [updateMainChainSet]: the segments from [p] up. *)
Fixpoint ids_from (fuel : nat) (h : heap) (p : ptr) : outcome (list ptr) :=
  match fuel with
  | O => endless
  | S fuel =>
      n ← node h p;
      match n_parent n with
      | None => Ok [p]
      | Some q => l ← ids_from fuel h q; Ok (p :: l)
      end
  end.
Definition ids_at (h : heap) (p : ptr) : outcome (list ptr) := ids_from (fuel_of h) h p.

(** ** Changes *)

(** The containers of [p] change. *)
Definition write_segment (s : Segment) (p : ptr) (h : heap) : outcome heap :=
  n ← node h p; Ok (<[p := set_segment s n]> h).

(** [BlockchainCache::addChild] *)
Definition addChild (p q : ptr) (h : heap) : outcome heap :=
  n ← node h p;
  _ ← assert (negb (bool_decide (q ∈ n_children n))) "assert(std::find(children, child) == children.end())";
  Ok (<[p := set_children (n_children n ++ [q]) n]> h).

(** [BlockchainCache::deleteChild] *)
Definition deleteChild (p q : ptr) (h : heap) : outcome (bool * heap) :=
  n ← node h p;
  match list_find (fun x => x = q) (n_children n) with
  | None => Ok (false, h)
  | Some (i, _) => Ok (true, <[p := set_children (delete i (n_children n)) n]> h)
  end.

(** [fixChildrenParent(p)] *)
Definition fixChildrenParent (p : ptr) (children : list ptr) (h : heap) : outcome heap :=
  foldM (fun h q => n ← node h q; Ok (<[q := set_parent (Some p) n]> h)) h children.

(** [BlockchainCache::split] with the links: the new upper segment at the address [u]. *)
Definition split_node (p u : ptr) (splitBlockIndex : Z) (h : heap) : outcome heap :=
  n ← node h p;
  '(upper, lower) ← split (n_segment n) splitBlockIndex;
  h ← fixChildrenParent u (n_children n) h;
  Ok (<[u := {| n_segment := upper; n_parent := Some p; n_children := n_children n |}]>
       (<[p := {| n_segment := lower; n_parent := n_parent n; n_children := [u] |}]> h)).

(** [createBlockchainCache(currency, p, startIndex)] then [p->addChild(q)]. *)
Definition new_child (p q : ptr) (startIndex : Z) (h : heap) : outcome heap :=
  addChild p q (<[q := {| n_segment := new_segment startIndex; n_parent := Some p; n_children := [] |}]> h).

(** ** What one sees from a node *)

Inductive chain_at (h : heap) : ptr -> list ptr -> Cache -> Prop :=
| at_root p n : h !! p = Some n -> n_parent n = None -> chain_at h p [p] [n_segment n]
| at_child p n q ids c : h !! p = Some n -> n_parent n = Some q -> chain_at h q ids c ->
    chain_at h p (p :: ids) (n_segment n :: c).

Lemma chain_at_det h p ids c ids' c' : chain_at h p ids c -> chain_at h p ids' c' -> ids = ids' /\ c = c'.
Proof.
  intros H. revert ids' c'. induction H as [p n E P|p n q ids c E P _ IH]; intros ids' c' H'; inv H'; simplify_eq/=; [done|].
  edestruct IH as [-> ->]; [done|done].
Qed.

Lemma chain_at_head h p ids c : chain_at h p ids c -> exists n ids' c', h !! p = Some n /\ ids = p :: ids' /\ c = n_segment n :: c'.
Proof. intros []; naive_solver. Qed.

Lemma chain_at_length h p ids c : chain_at h p ids c -> length ids = length c.
Proof. induction 1; simpl; lia. Qed.

(** The part of the path from any node on it. *)
Lemma chain_at_suffix h p ids c q : chain_at h p ids c -> q ∈ ids -> exists ids1 ids2 c1 c2,
  ids = ids1 ++ ids2 /\ c = c1 ++ c2 /\ length ids1 = length c1 /\ chain_at h q ids2 c2.
Proof.
  induction 1 as [p n E P|p n r ids c E P H IH]; intros Hq.
  - apply list_elem_of_singleton in Hq as ->. exists [], [p], [], [n_segment n]. split_and!; try done. by constructor.
  - apply elem_of_cons in Hq as [->|Hq].
    + exists [], (p :: ids), [], (n_segment n :: c). split_and!; try done. by econstructor.
    + destruct (IH Hq) as (i1 & i2 & c1 & c2 & -> & -> & L & H'). exists (p :: i1), i2, (n_segment n :: c1), c2. split_and!; simpl; try done. lia.
Qed.

Lemma chain_at_NoDup h p ids c : chain_at h p ids c -> NoDup ids.
Proof.
  induction 1 as [p n E P|p n q ids c E P H IH]; [apply NoDup_singleton|]. apply NoDup_cons. split; [|done]. intros Hp.
  destruct (chain_at_suffix _ _ _ _ _ H Hp) as (i1 & i2 & c1 & c2 & -> & -> & _ & H').
  destruct (chain_at_det _ _ _ _ _ _ H' (at_child h p n q _ _ E P H)) as [Ei _]. apply (f_equal length) in Ei. simpl in Ei.
  rewrite length_app in Ei. lia.
Qed.

Lemma chain_at_dom h p ids c q : chain_at h p ids c -> q ∈ ids -> q ∈ dom h.
Proof. induction 1 as [p n E _|p n r ids c E _ _ IH]; [intros ->%list_elem_of_singleton|intros [->|]%elem_of_cons; [|auto]]; by apply elem_of_dom. Qed.

Lemma chain_at_fuel h p ids c : chain_at h p ids c -> (length ids < fuel_of h)%nat.
Proof.
  intros H. unfold fuel_of. rewrite <- size_dom. apply Nat.lt_succ_r.
  rewrite <- (size_list_to_set (C := gset ptr) ids) by by eapply chain_at_NoDup.
  apply subseteq_size. intros q Hq%elem_of_list_to_set. by eapply chain_at_dom.
Qed.

(** The walks return what the path has. *)
Lemma node_ok h p n : h !! p = Some n -> node h p = Ok n.
Proof. unfold node. by intros ->. Qed.

Lemma cache_from_ok h p ids c : chain_at h p ids c -> forall fuel, (length ids < fuel)%nat -> cache_from fuel h p = Ok c.
Proof.
  induction 1 as [p n E P|p n q ids c E P H IH]; intros [|fuel] F; simpl in F; try lia; cbn [cache_from]; rewrite (node_ok _ _ _ E); okbind; rewrite P; [done|].
  rewrite IH by lia. done.
Qed.
Lemma cache_at_ok h p ids c : chain_at h p ids c -> cache_at h p = Ok c.
Proof. intros H. eapply cache_from_ok; [done|]. by eapply chain_at_fuel. Qed.

Lemma ids_at_ok h p ids c : chain_at h p ids c -> ids_at h p = Ok ids.
Proof.
  intros H. unfold ids_at. pose proof (chain_at_fuel _ _ _ _ H) as F. revert F. generalize (fuel_of h).
  induction H as [p n E P|p n q ids c E P H IH]; intros [|fuel] F; simpl in F; try lia; cbn [ids_from]; rewrite (node_ok _ _ _ E); okbind; rewrite P; [done|].
  rewrite IH by lia. done.
Qed.

Lemma find_up_ok h p ids c has : chain_at h p ids c -> forall fuel, (length ids < fuel)%nat ->
  find_up fuel h p has = Ok ('(i, _) ← list_find (fun s => has s = true) c; ids !! i).
Proof.
  induction 1 as [p n E P|p n q ids c E P H IH]; intros [|fuel] F; simpl in F; try lia; cbn [find_up]; rewrite (node_ok _ _ _ E); okbind; rewrite P.
  - destruct (has (n_segment n)) eqn:Eh; cbn [list_find]; [by rewrite decide_True|by rewrite decide_False by congruence].
  - destruct (has (n_segment n)) eqn:Eh; cbn [list_find]; [by rewrite decide_True|rewrite decide_False by congruence].
    rewrite IH by lia. by destruct (list_find _ c) as [[]|].
Qed.
Lemma find_ok h p ids c has : chain_at h p ids c ->
  exists r, find_up (fuel_of h) h p has = Ok r /\
    match r with
    | None => Forall (fun s => has s = false) c
    | Some q => exists s c1 c2 ids1 ids2, has s = true /\ c = c1 ++ s :: c2 /\ ids = ids1 ++ q :: ids2 /\ chain_at h q (q :: ids2) (s :: c2)
    end.
Proof.
  intros H. rewrite (find_up_ok h p ids c has H) by by eapply chain_at_fuel. eexists. split; [reflexivity|].
  destruct (list_find _ c) as [[i s]|] eqn:E; simpl.
  - apply list_find_Some in E as (Hi & Hs & _). pose proof (lookup_lt_Some _ _ _ Hi) as L. rewrite <- (chain_at_length _ _ _ _ H) in L.
    destruct (lookup_lt_is_Some_2 ids i L) as [q Hq]. rewrite Hq.
    assert (Hin : q ∈ ids) by by eapply list_elem_of_lookup_2.
    destruct (chain_at_suffix _ _ _ _ _ H Hin) as (i1 & i2 & c1 & c2 & -> & -> & Ll & H').
    pose proof (chain_at_NoDup _ _ _ _ H) as N. destruct (chain_at_head _ _ _ _ H') as (n & i2' & c2' & En & -> & ->).
    assert (i = length i1) as -> by (eapply NoDup_lookup; [exact N|exact Hq|by apply list_lookup_middle]).
    rewrite Ll, list_lookup_middle in Hi by done. injection Hi as <-. by exists (n_segment n), c1, c2', i1, i2'.
  - apply list_find_None in E. eapply Forall_impl; [exact E|]. intros x Hx. by apply not_true_is_false.
Qed.

(** ** The shape *)

Record tree_ok (h : heap) (root : ptr) : Prop := {
  t_path : forall p n, h !! p = Some n -> exists ids c, chain_at h p ids c /\ last ids = Some root;
  t_children : forall p n q, h !! p = Some n -> q ∈ n_children n <-> exists m, h !! q = Some m /\ n_parent m = Some p;
  t_distinct : forall p n, h !! p = Some n -> NoDup (n_children n) }.

(** What a path depends on. *)
Definition link (n : Node) : Segment * option ptr := (n_segment n, n_parent n).

Lemma chain_at_agree h h' p ids c : chain_at h p ids c -> (forall q, q ∈ ids -> link <$> h' !! q = link <$> h !! q) -> chain_at h' p ids c.
Proof.
  induction 1 as [p n E P|p n q ids c E P H IH]; intros A.
  - pose proof (A p ltac:(by left)) as Ap. rewrite E in Ap. apply fmap_Some in Ap as (n' & E' & [= -> Ep]). apply at_root; [done|congruence].
  - pose proof (A p ltac:(by left)) as Ap. rewrite E in Ap. apply fmap_Some in Ap as (n' & E' & [= -> Ep]).
    apply at_child with (q := q); [done|congruence|]. apply IH. intros r Hr. apply A. by right.
Qed.

(** Whoever is on another node's path has a child. *)
Lemma on_path_parent h q ids c p : chain_at h q ids c -> p ∈ ids -> p <> q -> exists r m, h !! r = Some m /\ n_parent m = Some p.
Proof.
  induction 1 as [q n E P|q n r ids c E P H IH]; intros Hp N; [by apply list_elem_of_singleton in Hp|].
  apply elem_of_cons in Hp as [Hp|Hp]; [done|]. destruct (decide (p = r)) as [->|]; [by exists q, n|by apply IH].
Qed.

Lemma leaf_off_path h root p n q ids c : tree_ok h root -> h !! p = Some n -> n_children n = [] ->
  chain_at h q ids c -> p <> q -> p ∉ ids.
Proof.
  intros T E L H N Hp. destruct (on_path_parent _ _ _ _ _ H Hp N) as (r & m & Er & Pr).
  assert (r ∈ n_children n) as Hr by (apply (t_children h root T p n r E); eauto). rewrite L in Hr. by apply not_elem_of_nil in Hr.
Qed.

Lemma not_own_parent h root p n : tree_ok h root -> h !! p = Some n -> n_parent n <> Some p.
Proof.
  intros T E P. destruct (t_path h root T p n E) as (ids & c & H & _). inv H; simplify_eq.
  match goal with H : chain_at _ _ _ _ |- _ => pose proof (chain_at_head _ _ _ _ H) as (? & ? & ? & ? & -> & _) end.
  match goal with H : chain_at _ p (p :: _) _ |- _ => pose proof (chain_at_NoDup _ _ _ _ (at_child _ _ _ _ _ _ E P H)) as ND end.
  apply NoDup_cons in ND as [ND _]. apply ND. by left.
Qed.

Lemma tree_ok_paths h root : tree_ok h root -> forall p ids c, chain_at h p ids c -> last ids = Some root.
Proof.
  intros T p ids c H. destruct (chain_at_head _ _ _ _ H) as (n & _ & _ & E & _ & _). destruct (t_path h root T p n E) as (ids' & c' & H' & L).
  destruct (chain_at_det _ _ _ _ _ _ H H') as [-> _]. done.
Qed.

(** *** Pushing into a leaf *)

Lemma write_leaf h root p n s : tree_ok h root -> h !! p = Some n -> n_children n = [] ->
  let h' := <[p := set_segment s n]> h in
  tree_ok h' root /\ (forall q ids c, q <> p -> chain_at h q ids c -> chain_at h' q ids c)
  /\ (forall ids c, chain_at h p ids (n_segment n :: c) -> chain_at h' p ids (s :: c)).
Proof.
  intros T E L h'.
  assert (A : forall q ids c, q <> p -> chain_at h q ids c -> chain_at h' q ids c).
  { intros q ids c N H. eapply chain_at_agree; [exact H|]. intros r Hr. unfold h'. rewrite lookup_insert_ne; [done|].
    intros <-. revert Hr. by eapply leaf_off_path. }
  assert (B : forall ids c, chain_at h p ids (n_segment n :: c) -> chain_at h' p ids (s :: c)).
  { intros ids c H. inv H; simplify_eq.
    - apply (at_root h' p (set_segment s n)); [by apply lookup_insert_eq|done].
    - apply (at_child h' p (set_segment s n) q); [by apply lookup_insert_eq|done|]. apply A; [|done]. intros ->. by eapply not_own_parent. }
  split_and!; [|done|done]. split.
  - intros q m Hq. destruct (decide (q = p)) as [->|Nq].
    + destruct (t_path h root T p n E) as (ids & c & H & La). destruct (chain_at_head _ _ _ _ H) as (n' & ids' & c' & E' & -> & ->). simplify_eq.
      eauto.
    + unfold h' in Hq. rewrite lookup_insert_ne in Hq by done. destruct (t_path h root T q m Hq) as (ids & c & H & La). eauto.
  - intros q m r Hq. assert (Hq' : exists m', h !! q = Some m' /\ n_children m' = n_children m).
    { destruct (decide (q = p)) as [->|]; unfold h' in Hq; [rewrite lookup_insert_eq in Hq; injection Hq as <-; eauto|].
      rewrite lookup_insert_ne in Hq by done. eauto. }
    destruct Hq' as (m' & Em & <-). rewrite (t_children h root T q m' r Em). unfold h'. destruct (decide (r = p)) as [->|].
    + rewrite lookup_insert_eq. split; [intros (x & Ex & Px); simplify_eq; eauto|intros (x & [= <-] & Px); eauto].
    + by rewrite lookup_insert_ne.
  - intros q m Hq. unfold h' in Hq. apply lookup_insert_Some in Hq as [[<- <-]|[_ Hq]]; [simpl; by eapply t_distinct|by eapply t_distinct].
Qed.

(** *** A new child *)

Lemma new_child_ok h root p q n startIndex : tree_ok h root -> h !! p = Some n -> h !! q = None ->
  exists h', new_child p q startIndex h = Ok h' /\ tree_ok h' root
    /\ (forall r ids c, chain_at h r ids c -> chain_at h' r ids c)
    /\ (forall ids c, chain_at h p ids c -> chain_at h' q (q :: ids) (new_segment startIndex :: c))
    /\ h' !! q = Some {| n_segment := new_segment startIndex; n_parent := Some p; n_children := [] |}
    /\ (forall r, r <> q -> r <> p -> h' !! r = h !! r)
    /\ h' !! p = Some (set_children (n_children n ++ [q]) n).
Proof.
  intros T E Q. assert (Npq : q <> p) by (intros ->; congruence). assert (Nq : q ∉ n_children n).
  { intros Hq. apply (t_children h root T p n q E) in Hq as (m & Em & _). congruence. }
  unfold new_child, addChild. rewrite (node_ok _ p n) by by rewrite lookup_insert_ne. okbind.
  rewrite bool_decide_eq_false_2 by done. okbind. eexists. split; [reflexivity|].
  set (x := {| n_segment := new_segment startIndex; n_parent := Some p; n_children := [] |}). set (h' := <[p := _]> (<[q := x]> h)).
  assert (Hq : h' !! q = Some x) by (unfold h'; rewrite lookup_insert_ne, lookup_insert_eq by done; done).
  assert (Hp : h' !! p = Some (set_children (n_children n ++ [q]) n)) by (unfold h'; by rewrite lookup_insert_eq).
  assert (Ho : forall r, r <> q -> r <> p -> h' !! r = h !! r) by (intros r R1 R2; unfold h'; by rewrite !lookup_insert_ne).
  assert (A : forall r ids c, chain_at h r ids c -> chain_at h' r ids c).
  { intros r ids c H. eapply chain_at_agree; [exact H|]. intros y Hy. destruct (decide (y = p)) as [->|]; [by rewrite Hp, E|].
    rewrite Ho; [done| |done]. intros ->. eapply chain_at_dom in Hy; [|exact H]. apply elem_of_dom in Hy as [? ?]. congruence. }
  assert (B : forall ids c, chain_at h p ids c -> chain_at h' q (q :: ids) (new_segment startIndex :: c)).
  { intros ids c H. apply (at_child h' q x p); [done|done|by apply A]. }
  split_and!; try done. split.
  - intros r m Hr. destruct (decide (r = q)) as [->|].
    + destruct (t_path h root T p n E) as (ids & c & H & L). exists (q :: ids), (new_segment startIndex :: c). split; [by apply B|].
      destruct (chain_at_head _ _ _ _ H) as (? & ? & ? & _ & -> & _). done.
    + assert (exists m', h !! r = Some m') as [m' Em] by (destruct (decide (r = p)) as [->|]; [eauto|rewrite Ho in Hr by done; eauto]).
      destruct (t_path h root T r m' Em) as (ids & c & H & L). eauto.
  - intros r m y Hr. assert (Par : forall z, z <> q -> n_parent <$> h' !! z = n_parent <$> h !! z).
    { intros z Nz. destruct (decide (z = p)) as [->|]; [by rewrite Hp, E|by rewrite Ho]. }
    assert (Py : (exists m0, h' !! y = Some m0 /\ n_parent m0 = Some r) <-> (y = q /\ r = p) \/ (y <> q /\ exists m0, h !! y = Some m0 /\ n_parent m0 = Some r)).
    { destruct (decide (y = q)) as [->|Ny].
      - rewrite Hq. split; [intros (m0 & [= <-] & [= ->]); by left|intros [[_ ->]|[? _]]; [by exists x|done]].
      - specialize (Par y Ny). split.
        + intros (m0 & Em & Pm). right. split; [done|]. rewrite Em in Par. symmetry in Par. apply fmap_Some in Par as (m1 & E1 & P1). exists m1. split; congruence.
        + intros [[? _]|[_ (m0 & Em & Pm)]]; [done|]. rewrite Em in Par. apply fmap_Some in Par as (m1 & E1 & P1). exists m1. split; congruence. }
    rewrite Py. destruct (decide (r = p)) as [->|Nrp].
    + rewrite Hp in Hr. injection Hr as <-. simpl. rewrite elem_of_app, list_elem_of_singleton, (t_children h root T p n y E).
      split; [intros [(m0 & Em & Pm)| ->]; [right; split; [intros ->; congruence|eauto]|by left]|intros [[-> _]|[_ ?]]; auto].
    + destruct (decide (r = q)) as [->|Nrq].
      * rewrite Hq in Hr. injection Hr as <-. simpl. split; [by intros ?%not_elem_of_nil|]. intros [[_ ?]|[_ (m0 & Em & Pm)]]; [done|]. exfalso.
        destruct (t_path h root T y m0 Em) as (ids & c & H & _). inv H; simplify_eq.
        match goal with H : chain_at h q _ _ |- _ => apply chain_at_head in H as (? & ? & ? & ? & _); congruence end.
      * rewrite Ho in Hr by done. rewrite (t_children h root T r m y Hr).
        split; [intros (m0 & Em & Pm); right; split; [intros ->; congruence|eauto]|intros [[_ ?]|[_ ?]]; [done|done]].
  - intros r m Hr. destruct (decide (r = p)) as [->|Nrp].
    + rewrite Hp in Hr. injection Hr as <-. simpl. apply NoDup_app. split_and!; [by eapply t_distinct| |apply NoDup_singleton].
      intros y Hy ->%list_elem_of_singleton. done.
    + destruct (decide (r = q)) as [->|]; [rewrite Hq in Hr; injection Hr as <-; apply NoDup_nil_2|rewrite Ho in Hr by done; by eapply t_distinct].
Qed.

(** *** Splitting *)

Lemma fix_children_ok u l : forall h, (forall q, q ∈ l -> is_Some (h !! q)) ->
  exists h', fixChildrenParent u l h = Ok h'
    /\ forall q, h' !! q = if decide (q ∈ l) then set_parent (Some u) <$> h !! q else h !! q.
Proof.
  induction l as [|x l IH]; intros h Hl.
  - exists h. split; [done|]. intros q. rewrite decide_False by apply not_elem_of_nil. done.
  - destruct (Hl x) as [n Hn]; [by left|]. unfold fixChildrenParent in *. cbn [foldM]. rewrite (node_ok _ _ _ Hn). okbind.
    destruct (IH (<[x := set_parent (Some u) n]> h)) as (h' & -> & Hh').
    { intros q Hq. destruct (decide (q = x)) as [->|]; [rewrite lookup_insert_eq; eauto|rewrite lookup_insert_ne by done; apply Hl; by right]. }
    exists h'. split; [done|]. intros q. rewrite Hh'. destruct (decide (q = x)) as [->|N].
    + rewrite lookup_insert_eq, Hn. rewrite (decide_True _ _ (list_elem_of_here x l)). by destruct (decide _).
    + rewrite lookup_insert_ne by done. destruct (decide (q ∈ l)) as [Hq|Hq].
      * rewrite decide_True by by right. done.
      * rewrite decide_False; [done|]. by intros [|]%elem_of_cons.
Qed.

Section split_tree.
Context (h : heap) (root p u : ptr) (n : Node) (upper lower : Segment) (k : Z).
Context (T : tree_ok h root) (E : h !! p = Some n) (U : h !! u = None) (Hs : split (n_segment n) k = Ok (upper, lower)).

Lemma split_node_ok : exists h', split_node p u k h = Ok h'
  /\ h' !! u = Some {| n_segment := upper; n_parent := Some p; n_children := n_children n |}
  /\ h' !! p = Some {| n_segment := lower; n_parent := n_parent n; n_children := [u] |}
  /\ forall q, q <> u -> q <> p -> h' !! q = if decide (q ∈ n_children n) then set_parent (Some u) <$> h !! q else h !! q.
Proof.
  unfold split_node. rewrite (node_ok _ _ _ E). okbind. rewrite Hs. okbind.
  destruct (fix_children_ok u (n_children n) h) as (h1 & -> & H1).
  { intros q Hq. apply (t_children h root T p n q E) in Hq as (m & Em & _). eauto. }
  okbind. eexists. split; [reflexivity|]. assert (u <> p) by (intros ->; congruence). split_and!.
  - by rewrite lookup_insert_eq.
  - rewrite lookup_insert_ne, lookup_insert_eq by done. done.
  - intros q N1 N2. rewrite !lookup_insert_ne by done. apply H1.
Qed.

Context (h' : heap).
Context (Hu : h' !! u = Some {| n_segment := upper; n_parent := Some p; n_children := n_children n |}).
Context (Hp : h' !! p = Some {| n_segment := lower; n_parent := n_parent n; n_children := [u] |}).
Context (Ho : forall q, q <> u -> q <> p -> h' !! q = if decide (q ∈ n_children n) then set_parent (Some u) <$> h !! q else h !! q).

Lemma u_new ids c q : chain_at h q ids c -> u ∉ ids.
Proof. intros H Hin. apply (chain_at_dom _ _ _ _ _ H), elem_of_dom in Hin as [? ?]. congruence. Qed.

Lemma child_iff q m : h !! q = Some m -> q ∈ n_children n <-> n_parent m = Some p.
Proof. intros Em. rewrite (t_children h root T p n q E). split; [intros (x & Ex & Px); congruence|eauto]. Qed.

(** Off the split segment nothing changes; below it stays, above it the path goes through
    the upper part. *)
Lemma split_off q ids c : chain_at h q ids c -> p ∉ ids -> chain_at h' q ids c.
Proof.
  intros H Np. induction H as [q m Em P|q m r ids c Em P H IH].
  - apply (at_root h' q m); [|done]. apply not_elem_of_cons in Np as [Np _]. rewrite Ho by (congruence || intros ->; congruence).
    rewrite decide_False; [done|]. rewrite (child_iff q m Em). congruence.
  - apply not_elem_of_cons in Np as [Np Np']. apply (at_child h' q m r); [|done|by apply IH].
    rewrite Ho by (congruence || intros ->; congruence). rewrite decide_False; [done|]. rewrite (child_iff q m Em), P. intros [= ->].
    destruct (chain_at_head _ _ _ _ H) as (? & ? & ? & _ & -> & _). apply Np'. by left.
Qed.

Lemma split_low ids c : chain_at h p ids (n_segment n :: c) -> chain_at h' p ids (lower :: c).
Proof.
  intros H. inv H; simplify_eq.
  - apply (at_root h' p {| n_segment := lower; n_parent := n_parent n; n_children := [u] |}); done.
  - match goal with H : chain_at h _ _ _ |- _ => rename H into Hc end.
    apply (at_child h' p {| n_segment := lower; n_parent := n_parent n; n_children := [u] |} q); [done|done|].
    apply split_off; [exact Hc|]. match goal with P : n_parent n = Some q |- _ => pose proof (chain_at_NoDup _ _ _ _ (at_child _ _ _ _ _ _ E P Hc)) as N end.
    by apply NoDup_cons in N as [N _].
Qed.

Lemma split_upp ids c : chain_at h p ids (n_segment n :: c) -> chain_at h' u (u :: ids) (upper :: lower :: c).
Proof. intros H. apply (at_child h' u {| n_segment := upper; n_parent := Some p; n_children := n_children n |} p); [done|done|by apply split_low]. Qed.

Lemma split_above q ids c : chain_at h q ids c -> q <> p -> p ∈ ids -> exists i1 i2 c1 c2,
  ids = i1 ++ p :: i2 /\ c = c1 ++ n_segment n :: c2 /\ chain_at h p (p :: i2) (n_segment n :: c2)
  /\ chain_at h' q (i1 ++ u :: p :: i2) (c1 ++ upper :: lower :: c2).
Proof.
  intros H. induction H as [q m Em P|q m r ids c Em P H IH]; intros N Hin; [by apply list_elem_of_singleton in Hin|].
  apply elem_of_cons in Hin as [?|Hin]; [done|]. assert (Nu : q <> u) by (intros ->; congruence). destruct (decide (r = p)) as [->|Nr].
  - destruct (chain_at_head _ _ _ _ H) as (n' & i2 & c2 & En & -> & ->). simplify_eq. exists [q], i2, [n_segment m], c2. split_and!; try done.
    apply (at_child h' q (set_parent (Some u) m) u); [|done|by apply split_upp]. rewrite Ho by done.
    rewrite decide_True by by apply (child_iff q m Em). by rewrite Em.
  - destruct (IH Nr Hin) as (i1 & i2 & c1 & c2 & -> & -> & H1 & H2). exists (q :: i1), i2, (n_segment m :: c1), c2. split_and!; try done.
    apply (at_child h' q m r); [|done|done]. rewrite Ho by done. rewrite decide_False; [done|]. rewrite (child_iff q m Em), P. congruence.
Qed.

Lemma parent_not_u q m : h !! q = Some m -> n_parent m <> Some u.
Proof.
  intros Em P. destruct (t_path h root T q m Em) as (ids & c & H & _). inv H; simplify_eq.
  match goal with H : chain_at h u _ _ |- _ => apply chain_at_head in H as (? & ? & ? & ? & _); congruence end.
Qed.

(** Who points to whom after the split. *)
Lemma split_parents y r : (exists m, h' !! y = Some m /\ n_parent m = Some r) <->
  (y = u /\ r = p) \/ (y ∈ n_children n /\ r = u) \/ (y <> u /\ (y ∉ n_children n) /\ exists m, h !! y = Some m /\ n_parent m = Some r).
Proof.
  assert (Np : p ∉ n_children n) by (rewrite (child_iff p n E); by eapply not_own_parent).
  assert (Nu : u ∉ n_children n) by (rewrite (t_children h root T p n u E); intros (m & Em & _); congruence).
  destruct (decide (y = u)) as [->|N1].
  { rewrite Hu. split; [intros (m & [= <-] & [= <-]); auto|]. intros [[_ ->]|[[? _]|[? _]]]; [eauto|done|done]. }
  destruct (decide (y = p)) as [->|N2].
  { rewrite Hp. split; [intros (m & [= <-] & Pm); right; right; eauto|]. intros [[? _]|[[? _]|(_ & _ & m & Em & Pm)]]; [done|done|]. simplify_eq. eauto. }
  rewrite Ho by done. destruct (decide (y ∈ n_children n)) as [Hy|Hy].
  - split; [intros (m & (m0 & Em & ->)%fmap_Some & [= <-]); auto|]. intros [[? _]|[[_ ->]|(_ & ? & _)]]; [done| |done].
    apply (t_children h root T p n y E) in Hy as (m & Em & _). rewrite Em. simpl. eauto.
  - split; [auto|]. intros [[? _]|[[? _]|(_ & _ & ?)]]; done.
Qed.

Lemma split_tree_ok : tree_ok h' root.
Proof.
  assert (Nup : u <> p) by (intros ->; congruence). split.
  - intros q m Em. destruct (t_path h root T p n E) as (ids & c & H & L). destruct (chain_at_head _ _ _ _ H) as (n' & i2 & c2 & En & -> & ->). simplify_eq.
    destruct (decide (q = u)) as [->|N1]; [exists (u :: p :: i2); eexists; split; [by apply split_upp|done]|].
    destruct (decide (q = p)) as [->|N2]; [exists (p :: i2); eexists; split; [by apply split_low|done]|].
    assert (exists m', h !! q = Some m') as [m' Em'].
    { rewrite Ho in Em by done. destruct (decide _) in Em; [apply fmap_Some in Em as (? & ? & _); eauto|eauto]. }
    destruct (t_path h root T q m' Em') as (ids & c & Hq & Lq). destruct (decide (p ∈ ids)) as [Hin|Hin].
    + destruct (split_above q ids c Hq N2 Hin) as (i1 & i2' & c1 & c2' & -> & -> & _ & H'). eexists _, _. split; [exact H'|].
      rewrite last_app in Lq |- *. done.
    + exists ids, c. split; [by apply split_off|done].
  - intros r m y Hr. rewrite split_parents. destruct (decide (r = u)) as [->|N1].
    { rewrite Hu in Hr. injection Hr as <-. cbn [n_children]. split; [auto|].
      intros [[_ ?]|[[? _]|(_ & _ & m & Em & Pm)]]; [done|done|by apply parent_not_u in Em]. }
    destruct (decide (r = p)) as [->|N2].
    { rewrite Hp in Hr. injection Hr as <-. cbn [n_children]. rewrite list_elem_of_singleton. split; [auto|].
      intros [[? _]|[[_ ?]|(_ & Ny & m & Em & Pm)]]; [done|done|]. by apply (child_iff y m Em) in Pm. }
    rewrite Ho in Hr by done. assert (exists m0, h !! r = Some m0 /\ n_children m0 = n_children m) as (m0 & Em0 & <-).
    { destruct (decide _) in Hr; [apply fmap_Some in Hr as (m0 & ? & ->); eauto|eauto]. }
    rewrite (t_children h root T r m0 y Em0). split.
    + intros (m1 & E1 & P1). right. right. split_and!; [intros ->; congruence| |eauto]. rewrite (child_iff y m1 E1). congruence.
    + intros [[_ ?]|[[_ ?]|(_ & _ & ?)]]; done.
  - intros r m Hr. destruct (decide (r = u)) as [->|N1]; [rewrite Hu in Hr; injection Hr as <-; exact (t_distinct h root T p n E)|].
    destruct (decide (r = p)) as [->|N2]; [rewrite Hp in Hr; injection Hr as <-; apply NoDup_singleton|].
    rewrite Ho in Hr by done. destruct (decide _) in Hr; [apply fmap_Some in Hr as (m0 & Em0 & ->); exact (t_distinct h root T r m0 Em0)|exact (t_distinct h root T r m Hr)].
Qed.

End split_tree.
