(* ===== verification/Ledger.v ===== *)
(** * Ledger: what holds of every chain [Core] keeps

    The invariant of the blocks and raw blocks of a chain, from the genesis block on:
    each block names the one before it by its hash, adds the difficulty its predecessors
    ask for, records exactly the coins all blocks so far have created, and no key image
    is spent twice.  It holds of every prefix, it is kept by a block that passes the
    checks of [BlockValidation.v], by splitting a segment and on top of a split one. *)

From Stdlib Require Import ZArith Lia.
From stdpp Require Import base tactics list numbers strings gmap fin_maps sorting.
From S2P Require Import Prelude Config Difficulty Types Serializer TxSerialization TransactionExtra BlockSerialization FormatUtils Currency Checkpoints ThreadPool Validate Pool BlockchainCache CacheChain ShuffleGenerator CacheQueries BlockValidation.

Local Open Scope Z_scope.

(** ** Raw blocks *)

Definition raw_txs (r : RawBlock) : list Transaction :=
  omap (fun blob => match CachedTransaction_of_blob blob with Ok c => Some (getTransaction c) | _ => None end) (transactions r).
Definition tx_key_images (t : Transaction) : list KeyImage := omap image (inputs (tx_prefix t)).
Definition raw_images (r : RawBlock) : list KeyImage := concat (tx_key_images <$> raw_txs r).
(** What a transaction gives out beyond what it takes in. *)
Definition tx_gain (t : Transaction) : Z :=
  sumZ (out_amount <$> outputs (tx_prefix t)) - sumZ (input_amount <$> inputs (tx_prefix t)).

Section ledger.
Context (currency : Currency) (cn_fast_hash : bytes -> Hash).

Definition raw_block (r : RawBlock) : outcome BlockTemplate :=
  fromBinaryArray (serialize_BlockTemplate cn_fast_hash) new_BlockTemplate (block r).
(** The coins a block creates: its outputs without an input. *)
Definition created (r : RawBlock) : Z :=
  match raw_block r with
  | Ok b => sumZ (out_amount <$> outputs (tx_prefix (baseTransaction b))) + sumZ (tx_gain <$> raw_txs r)
  | _ => 0
  end.

(** The difficulty of the block after [bs]. *)
Definition next_difficulty (bs : list CachedBlockInfo) : outcome Z :=
  let i := Z.of_nat (length bs) - 1 in
  let w := drop (Nat.max (length bs - Z.to_nat DIFFICULTY_BLOCKS_COUNT) 1) bs in
  getNextDifficulty (getBlockMajorVersionForHeight currency (i + 1)) i (bi_timestamp <$> w) (bi_cumulativeDifficulty <$> w).

Record flat_ok (bs : list CachedBlockInfo) (rs : list RawBlock) : Prop := {
  f_length : length rs = length bs;
  f_bytes : Forall (fun r => is_bytes (block r) /\ Forall is_bytes (transactions r)) rs;
  f_limits : Forall (fun b => 0 <= bi_alreadyGeneratedCoins b <= m_moneySupply currency /\ is_u32 (bi_blockSize b)) bs;
  f_work : Forall (fun b => is_u64 (bi_cumulativeDifficulty b)) bs;
  f_difficulty : forall k b b', bs !! k = Some b -> bs !! S k = Some b' -> exists d,
    next_difficulty (take (S k) bs) = Ok d /\ 0 < d /\ bi_cumulativeDifficulty b' = bi_cumulativeDifficulty b + d;
  f_linked : forall k r bi, rs !! k = Some r -> bs !! k = Some bi -> exists b,
    raw_block r = Ok b /\ getBlockHash cn_fast_hash b = Ok (bi_blockHash bi) /\ timestamp (header b) = bi_timestamp bi
    /\ getBlockIndex b = Z.of_nat k
    /\ forall j bj, k = S j -> bs !! j = Some bj -> previousBlockHash (header b) = bi_blockHash bj;
  f_coins : forall k b, bs !! k = Some b -> bi_alreadyGeneratedCoins b = sumZ (created <$> take (S k) rs);
  f_images : NoDup (concat (raw_images <$> rs)) }.

Lemma flat_prefix n bs rs : flat_ok bs rs -> flat_ok (take n bs) (take n rs).
Proof.
  intros [F1 Fb F2 Fw F3 F4 F5 F6]. split.
  - rewrite !length_take. by rewrite F1.
  - by apply Forall_take.
  - by apply Forall_take.
  - by apply Forall_take.
  - intros k b b' [E1 _]%lookup_take_Some [E2 L]%lookup_take_Some. rewrite take_take, Nat.min_l by lia. by apply (F3 k).
  - intros k r bi [E1 _]%lookup_take_Some [E2 _]%lookup_take_Some. destruct (F4 k r bi E1 E2) as (b & R & Hb & Ht & Hi & Hl).
    exists b. split_and!; try done. intros j bj -> [E3 _]%lookup_take_Some. by apply (Hl j).
  - intros k b [E1 L]%lookup_take_Some. rewrite take_take, Nat.min_l by lia. by apply F5.
  - rewrite <- (take_drop n rs), fmap_app, concat_app, NoDup_app in F6. apply F6.
Qed.

(** One more block. *)
Lemma flat_snoc bs rs bi r b d : flat_ok bs rs -> bs <> [] -> is_bytes (block r) /\ Forall is_bytes (transactions r) ->
  raw_block r = Ok b -> getBlockHash cn_fast_hash b = Ok (bi_blockHash bi) -> timestamp (header b) = bi_timestamp bi ->
  getBlockIndex b = Z.of_nat (length bs) ->
  (forall x, last bs = Some x -> previousBlockHash (header b) = bi_blockHash x) ->
  next_difficulty bs = Ok d -> 0 < d -> is_u64 (bi_cumulativeDifficulty bi) ->
  (forall x, last bs = Some x -> bi_cumulativeDifficulty bi = bi_cumulativeDifficulty x + d
     /\ bi_alreadyGeneratedCoins bi = bi_alreadyGeneratedCoins x + created r) ->
  0 <= bi_alreadyGeneratedCoins bi <= m_moneySupply currency -> is_u32 (bi_blockSize bi) ->
  NoDup (raw_images r) -> (forall ki, ki ∈ raw_images r -> ki ∉ concat (raw_images <$> rs)) ->
  flat_ok (bs ++ [bi]) (rs ++ [r]).
Proof.
  intros [F1 Fb F2 Fw F3 F4 F5 F6] N Rby Rb Rh Rt Ri Rl Rd Rp Ru Rs Rc Rz Rn Rf. destruct (last bs) as [x|] eqn:Ex; [|by apply last_None in Ex].
  destruct (Rs x eq_refl) as [Rw Rg]. rewrite last_lookup in Ex. pose proof (lookup_lt_Some _ _ _ Ex) as Lx.
  assert (Old : forall k y, (bs ++ [bi]) !! k = Some y -> (k < length bs)%nat -> bs !! k = Some y) by (intros k y E L; by rewrite lookup_app_l in E).
  assert (New : forall k y, (bs ++ [bi]) !! k = Some y -> (length bs <= k)%nat -> k = length bs /\ y = bi).
  { intros k y E L. rewrite lookup_app_r in E by done. apply list_lookup_singleton_Some in E as [E <-]. split; [lia|done]. }
  split.
  - rewrite !length_app. simpl. lia.
  - apply Forall_app. by split; [|constructor].
  - apply Forall_app. by split; [|constructor].
  - apply Forall_app. by split; [|constructor].
  - intros k b1 b2 E1 E2. destruct (decide (S k < length bs)%nat) as [L|L].
    + apply Old in E1, E2; [|done|lia]. rewrite take_app_le by lia. by apply (F3 k).
    + apply New in E2 as [E2 ->]; [|lia]. apply Old in E1; [|lia]. rewrite E2, take_app_length. exists d.
      replace (pred (length bs)) with k in Ex by lia. rewrite Ex in E1. injection E1 as <-. by split_and!.
  - intros k r' y E1 E2. destruct (decide (k < length bs)%nat) as [L|L].
    + apply Old in E2; [|done]. rewrite lookup_app_l in E1 by lia. destruct (F4 k r' y E1 E2) as (b' & ? & ? & ? & ? & Hl).
      exists b'. split_and!; try done. intros j bj -> E3. apply Old in E3; [|lia]. by apply (Hl j).
    + apply New in E2 as [-> ->]; [|lia]. rewrite <- F1, list_lookup_middle in E1 by done. injection E1 as <-. exists b. split_and!; try done.
      intros j bj Hj E3. apply Old in E3; [|lia]. apply Rl. rewrite <- Ex, <- E3. f_equal. lia.
  - intros k y E. destruct (decide (k < length bs)%nat) as [L|L].
    + apply Old in E; [|done]. rewrite take_app_le by lia. by apply F5.
    + apply New in E as [-> ->]; [|lia]. rewrite Rg, (F5 _ _ Ex). replace (S (pred (length bs))) with (length bs) by lia.
      rewrite take_ge, take_ge by (rewrite ?length_app; simpl; lia). rewrite fmap_app, sumZ_app. change (sumZ (created <$> [r])) with (created r + 0). lia.
  - rewrite fmap_app, concat_app. simpl. rewrite app_nil_r. apply NoDup_app. split_and!; [done| |done]. intros ki H1 H2. by apply (Rf ki).
Qed.

(** ** Chains of segments *)

Record ledger (c : Cache) : Prop := {
  l_chain : chain_ok c;
  l_flat : flat_ok (all_blocks c) (all_raw c);
  l_spent : forall ki i, all_spent c !! ki = Some i <->
    0 <= i /\ exists r, all_raw c !! Z.to_nat i = Some r /\ ki ∈ raw_images r }.

(** The block a hash leads to. *)
Lemma getBlockIndex_ok s ps h i : chain_ok (s :: ps) -> cache_getBlockIndex s h = Ok i ->
  height ps <= i < height (s :: ps) /\ exists bi, all_blocks (s :: ps) !! Z.to_nat i = Some bi /\ bi_blockHash bi = h.
Proof.
  intros H E. pose proof (chain_bound _ H) as B. unfold cache_getBlockIndex in E. destruct (list_find _ _) as [[k bi]|] eqn:F; [|done].
  apply list_find_Some in F as (Hk & Hh & _). pose proof (lookup_lt_Some _ _ _ Hk) as L. pose proof (so_start _ _ (proj1 H)) as St. apply Ok_inj in E as <-.
  rewrite height_cons in *. pose proof (height_nonneg ps). rewrite St, wrap_small by width_solve. split; [lia|]. exists bi. split; [|done].
  simpl. rewrite lookup_app_r by (unfold height in *; lia). rewrite <- Hk. f_equal. unfold height. lia.
Qed.

Lemma difficulty_at c i : chain_ok c -> nonempty c -> 0 <= i < height c ->
  getDifficultyForNextBlock currency c i = next_difficulty (take (S (Z.to_nat i)) (all_blocks c)).
Proof.
  intros H N Hi. destruct c as [|s ps]; [unfold height in Hi; simpl in Hi; lia|]. unfold getDifficultyForNextBlock, cache_top.
  rewrite (top_index s ps H) by by inv N. okbind. rewrite (proj2 (Z.leb_le _ _)) by lia. okbind.
  unfold getLastTimestamps, getLastCumulativeDifficulties. rewrite !units_ok by done. okbind. unfold next_difficulty, window.
  rewrite length_take, Nat.min_l by (unfold height in Hi; lia). by replace (Z.of_nat (S (Z.to_nat i)) - 1) with i by lia.
Qed.

(** A push through the eyes of the ledger. *)
Lemma last_take {A} (l : list A) i : (i < length l)%nat -> last (take (S i) l) = l !! i.
Proof. intros L. rewrite last_lookup, length_take, Nat.min_l by lia. simpl. by rewrite lookup_take_lt by lia. Qed.

Lemma raw_txs_of raws txs : Forall2 (fun raw tx => CachedTransaction_of_blob raw = Ok tx) raws txs ->
  forall blk, raw_txs {| block := blk; transactions := raws |} = getTransaction <$> txs.
Proof. intros H blk. unfold raw_txs. simpl. induction H as [|raw tx raws txs E _ IH]; [done|]. simpl. rewrite E. simpl. by f_equal. Qed.

Lemma tx_gains txs : sumZ (tx_gain <$> (getTransaction <$> txs)) = total_out txs - total_in txs.
Proof.
  unfold total_in, total_out. induction txs as [|tx txs IH]; [done|]. rewrite !fmap_cons, !sumZ_cons, IH. unfold tx_gain. lia.
Qed.

Lemma tx_images_of median i txs checkpoints : concat (tx_key_images <$> (getTransaction <$> txs)) = concat (tx_images currency checkpoints median i <$> txs).
Proof. rewrite <- list_fmap_compose. done. Qed.

(** *** Pushing *)

Lemma spent_somewhere c ki : ledger c -> ki ∈ concat (raw_images <$> all_raw c) -> is_Some (all_spent c !! ki).
Proof.
  intros L Hin. apply list_elem_of_In, in_concat in Hin as (l & Hr & Hl). apply list_elem_of_In in Hr, Hl. apply list_elem_of_fmap in Hr as (r & -> & Hr).
  apply list_elem_of_lookup in Hr as [k Hk]. exists (Z.of_nat k). apply (l_spent _ L). rewrite Nat2Z.id. eauto with lia.
Qed.

Lemma spent_snoc c spent raw ki i : ledger c -> (spent : gset KeyImage) ## dom (all_spent c) -> (ki ∈ spent <-> ki ∈ raw_images raw) ->
  (if decide (ki ∈ spent) then Some (height c) else all_spent c !! ki) = Some i <->
  0 <= i /\ exists r, (all_raw c ++ [raw]) !! Z.to_nat i = Some r /\ ki ∈ raw_images r.
Proof.
  intros L D I. pose proof (f_length _ _ (l_flat _ L)) as Hl. unfold height. case_decide as Hk.
  - split.
    + intros [= <-]. split; [lia|]. exists raw. split; [|by apply I]. rewrite Nat2Z.id. by apply list_lookup_middle.
    + intros (Hi & r & Hr & Hin). destruct (decide (Z.to_nat i < length (all_raw c))%nat) as [Lt|Ge].
      * rewrite lookup_app_l in Hr by done. exfalso. apply (D ki Hk), elem_of_dom. exists i. apply (l_spent _ L). eauto.
      * apply lookup_lt_Some in Hr. rewrite length_app in Hr. simpl in Hr. f_equal. lia.
  - rewrite (l_spent _ L). split; intros (Hi & r & Hr & Hin); (split; [done|]); exists r; (split; [|done]).
    + rewrite lookup_app_l; [done|by eapply lookup_lt_Some].
    + apply lookup_app_Some in Hr as [Hr|[_ Hr]]; [done|]. apply list_lookup_singleton_Some in Hr as [_ <-]. by apply I in Hin.
Qed.

Context (checkpoints : points) (scalarmultKey : KeyImage -> KeyImage -> KeyImage) (check_key : PublicKey -> bool).
Context (cn_turtle_lite_slow_hash_v2 : bytes -> Hash).
Context (checkRingSignature : Hash -> KeyImage -> list PublicKey -> list Signature -> bool).
Context (algorithm : Z -> option (bytes -> Hash)) (genesisBlockHash : Hash) (now : Z).

Abbreviation CHECKED := (block_checked currency checkpoints scalarmultKey check_key cn_fast_hash cn_turtle_lite_slow_hash_v2
  checkRingSignature algorithm genesisBlockHash now).

(** There is room for one more block after the previous one: the counters do not
    overflow, and the fees are coins that exist. *)
Record room (c : Cache) (b : BlockTemplate) (a : Accepted) : Prop := {
  rm_height : a_previousBlockIndex a + 2 < 2 ^ 32;
  rm_outputs : forall amount, Z.of_nat (length (all_outputs c amount))
    + Z.of_nat (length (concat ((fun tx => outputs (tx_prefix (getTransaction tx))) <$> (CachedTransaction_of (baseTransaction b) :: a_transactions a)))) < 2 ^ 32;
  rm_work : forall x, all_blocks c !! Z.to_nat (a_previousBlockIndex a) = Some x -> bi_cumulativeDifficulty x + a_currentDifficulty a < 2 ^ 64;
  rm_fees : forall x, all_blocks c !! Z.to_nat (a_previousBlockIndex a) = Some x ->
    total_in (a_transactions a) - total_out (a_transactions a) <= bi_alreadyGeneratedCoins x
    /\ total_in (a_transactions a) - total_out (a_transactions a) < 2 ^ 63 }.

Lemma previous_ok median c b raw a : chain_ok c -> CHECKED median c b raw a ->
  0 <= a_previousBlockIndex a < height c /\
  exists x, all_blocks c !! Z.to_nat (a_previousBlockIndex a) = Some x /\ bi_blockHash x = previousBlockHash (header b).
Proof.
  intros H B. destruct (bc_previous _ _ _ _ _ _ _ _ _ _ _ _ _ _ _ B) as (s & ps & -> & E).
  destruct (getBlockIndex_ok _ _ _ _ H E) as [Hi Hx]. pose proof (height_nonneg ps). split; [lia|done].
Qed.

(** The money of an accepted block. *)
Lemma accepted_money median c b raw a x : sane_currency currency -> ledger c -> nonempty c -> CHECKED median c b raw a -> raw_block raw = Ok b ->
  room c b a -> all_blocks c !! Z.to_nat (a_previousBlockIndex a) = Some x ->
  a_emissionChange a = created raw /\ 0 <= bi_alreadyGeneratedCoins x + a_emissionChange a <= m_moneySupply currency.
Proof.
  intros Sn L N B Rb Rm Hx. destruct (previous_ok _ _ _ _ _ (l_chain _ L) B) as [Hi _].
  destruct (rm_fees _ _ _ Rm x Hx) as [Rf1 Rf2].
  assert (Hc : getAlreadyGeneratedCoins c (a_previousBlockIndex a) = Ok (bi_alreadyGeneratedCoins x)).
  { unfold getAlreadyGeneratedCoins. destruct (info_at_ok c (l_chain _ L) _ Hi) as (y & Hy & ->). rewrite Hx in Hy. by injection Hy as <-. }
  destruct (reward_bounds _ _ _ _ _ _ _ _ _ _ _ _ _ _ _ _ Sn (l_chain _ L) N (f_limits _ _ (l_flat _ L)) B Hi Hc) as (E1 & E2 & E3).
  { rewrite block_fees_diff. lia. }
  rewrite block_fees_diff in E1, E3. split; [|lia]. unfold created. rewrite Rb.
  pose proof (raw_txs_of _ _ (bc_transactions _ _ _ _ _ _ _ _ _ _ _ _ _ _ _ B) (block raw)) as Et. destruct raw as [blk raws]. simpl in Et |- *.
  rewrite Et, tx_gains. lia.
Qed.

Lemma accepted_images_raw median c b raw a : CHECKED median c b raw a ->
  NoDup (raw_images raw) /\ (forall ki, ki ∈ a_validatorState a <-> ki ∈ raw_images raw).
Proof.
  intros B. destruct (bc_images _ _ _ _ _ _ _ _ _ _ _ _ _ _ _ B) as [Nd ->].
  pose proof (raw_txs_of _ _ (bc_transactions _ _ _ _ _ _ _ _ _ _ _ _ _ _ _ B) (block raw)) as Et. destruct raw as [blk raws].
  simpl in Et. unfold raw_images. rewrite Et, (tx_images_of median (a_previousBlockIndex a) _ checkpoints). split; [done|]. intros ki. by rewrite elem_of_list_to_set.
Qed.

Section push.
Context (median : Z) (c : Cache) (s : Segment) (ps : Cache) (b : BlockTemplate) (raw : RawBlock) (a : Accepted) (c' : Cache).
Context (Sn : sane_currency currency) (L : ledger c) (N : nonempty c) (B : CHECKED median c b raw a) (Rb : raw_block raw = Ok b).
Context (Ry : is_bytes (block raw) /\ Forall is_bytes (transactions raw)).
Context (Ls : ledger (s :: ps)).
Context (Eb : all_blocks (s :: ps) = take (S (Z.to_nat (a_previousBlockIndex a))) (all_blocks c)).
Context (Eo : forall amount, (length (all_outputs (s :: ps) amount) <= length (all_outputs c amount))%nat).
Context (Rm : room c b a).
Context (P : doPushBlock cn_fast_hash (s :: ps) b (a_transactions a) (a_validatorState a) (a_cumulativeBlockSize a)
               (u64 (a_emissionChange a)) (a_currentDifficulty a) raw = Ok c').

Lemma push_height : height (s :: ps) = a_previousBlockIndex a + 1 /\ getBlockIndex b = height (s :: ps) /\ height (s :: ps) + 1 < 2 ^ 32.
Proof using B Eb L Rm.
  destruct (previous_ok _ _ _ _ _ (l_chain _ L) B) as [Hi _]. pose proof (rm_height _ _ _ Rm) as R.
  assert (E : height (s :: ps) = a_previousBlockIndex a + 1) by (unfold height; rewrite Eb, length_take, Nat.min_l; unfold height in Hi; lia).
  rewrite (bc_index _ _ _ _ _ _ _ _ _ _ _ _ _ _ _ B), wrap_small by width_solve. lia.
Qed.

Lemma push_is_ready : exists h hs, push_ready cn_fast_hash s ps b (a_transactions a) (a_validatorState a) (a_cumulativeBlockSize a) (a_currentDifficulty a) h hs.
Proof using B Eb Eo L Ls P Rm.
  destruct push_height as (_ & Hi & Hb). eapply push_inv; [apply Ls|exact Hi|exact Hb| |exact P].
  intros amount. pose proof (length_txs_packed (height (s :: ps)) amount (CachedTransaction_of (baseTransaction b) :: a_transactions a) 0).
  pose proof (rm_outputs _ _ _ Rm amount). specialize (Eo amount). lia.
Qed.

Lemma ledger_push : exists s' info x, c' = s' :: ps /\ ledger c' /\ seg_blockInfos s' = seg_blockInfos s ++ [info]
  /\ getBlockHash cn_fast_hash b = Ok (bi_blockHash info)
  /\ all_blocks c !! Z.to_nat (a_previousBlockIndex a) = Some x /\ bi_cumulativeDifficulty info = bi_cumulativeDifficulty x + a_currentDifficulty a
  /\ (forall amount, all_outputs c' amount = all_outputs (s :: ps) amount ++ txs_packed (height (s :: ps)) 0 amount (CachedTransaction_of (baseTransaction b) :: a_transactions a))
  /\ next_difficulty (all_blocks (s :: ps)) = Ok (a_currentDifficulty a).
Proof using B Eb Eo L Ls N P Rb Rm Ry Sn.
  destruct push_height as (Hh & _ & _). destruct push_is_ready as (h & hs & R).
  destruct (push_ok _ _ _ _ _ _ _ (u64 (a_emissionChange a)) _ _ _ raw (l_chain _ Ls) R) as (s' & E & H' & Ei & Eg & _ & Ek & Eo' & _).
  rewrite P in E. apply Ok_inj in E as ->. destruct (previous_ok _ _ _ _ _ (l_chain _ L) B) as (Hi & x & Hx & Hp).
  destruct (accepted_money _ _ _ _ _ _ Sn L N B Rb Rm Hx) as [Mc Ms]. pose proof (rm_work _ _ _ Rm x Hx) as Hw.
  destruct (accepted_images_raw _ _ _ _ _ B) as [Nd Im].
  assert (Lx : last (all_blocks (s :: ps)) = Some x) by (rewrite Eb, last_take; [done|unfold height in Hi; lia]).
  unfold pushed_info in Ei. rewrite Lx in Ei. cbn [totals] in Ei. set (info := Build_CachedBlockInfo _ _ _ _ _ _) in Ei.
  pose proof (l_flat _ Ls) as F. assert (Nn : all_blocks (s :: ps) <> []) by (intros Z; rewrite Z in Lx; done).
  destruct (bc_difficulty _ _ _ _ _ _ _ _ _ _ _ _ _ _ _ B) as [Dd _]. rewrite difficulty_at in Dd by (done || apply L). rewrite <- Eb in Dd.
  pose proof (pr_difficulty _ _ _ _ _ _ _ _ _ _ R) as Dp.
  assert (Hcum : bi_cumulativeDifficulty info = bi_cumulativeDifficulty x + a_currentDifficulty a).
  { unfold info. simpl. apply wrap_small. pose proof (Forall_lookup_1 _ _ _ _ (f_work _ _ (l_flat _ L)) Hx) as W. simpl in W. width_solve. }
  exists s', info, x. assert (Hd : bi_alreadyGeneratedCoins info = bi_alreadyGeneratedCoins x + created raw).
  { unfold info. simpl. rewrite wrap_add_r, <- Mc. apply wrap_small. pose proof (sane_supply _ Sn). width_solve. }
  assert (Hs : forall ki i, all_spent (s' :: ps) !! ki = Some i <-> 0 <= i /\ exists r, (all_raw (s :: ps) ++ [raw]) !! Z.to_nat i = Some r /\ ki ∈ raw_images r).
  { intros ki i. rewrite (spent_pushed s s' ps (a_validatorState a) (height (s :: ps)) ki (pr_spent _ _ _ _ _ _ _ _ _ _ R) Ek).
    apply (spent_snoc (s :: ps)); [done|by apply R|exact (Im ki)]. }
  split_and!; try done.
  - split; [done| |].
    + simpl all_blocks. simpl all_raw. rewrite Ei, Eg, !(assoc_L (++)). change (all_blocks ps ++ seg_blockInfos s) with (all_blocks (s :: ps)).
      change (all_raw ps ++ seg_storage s) with (all_raw (s :: ps)).
      apply (flat_snoc _ _ _ _ b (a_currentDifficulty a)); try done.
      * by apply R.
      * by apply R.
      * intros y E. rewrite Lx in E. injection E as <-. done.
      * pose proof (Forall_lookup_1 _ _ _ _ (f_work _ _ (l_flat _ L)) Hx) as W. simpl in W. rewrite Hcum. width_solve.
      * intros y E. rewrite Lx in E. injection E as <-. done.
      * rewrite Hd, <- Mc. exact Ms.
      * apply wrap_range. lia.
      * intros ki Hk Hin. apply Im in Hk. apply (pr_spent _ _ _ _ _ _ _ _ _ _ R ki Hk), elem_of_dom. by apply spent_somewhere.
    + simpl all_raw. rewrite Eg, (assoc_L (++)). exact Hs.
  - by apply R.
  - intros amount. simpl all_outputs. by rewrite Eo', (assoc_L (++)).
Qed.

End push.

(** *** Splitting, below and above *)

(** Two ways to cut the same chain into segments. *)
Record same_view (c c' : Cache) : Prop := {
  sv_blocks : all_blocks c = all_blocks c';
  sv_storage : all_raw c = all_raw c';
  sv_spent : all_spent c = all_spent c';
  sv_outputs : forall amount, all_outputs c amount = all_outputs c' amount }.

#[global] Instance same_view_equivalence : Equivalence same_view.
Proof.
  split.
  - by intros c.
  - intros c c' [V1 V2 V3 V4]. by split.
  - intros c c' c'' [V1 V2 V3 V4] [W1 W2 W3 W4]. split; [congruence|congruence|congruence|]. intros a. by rewrite V4.
Qed.

#[global] Instance height_view : Proper (same_view ==> (=)) height.
Proof. intros c c' [V1 _ _ _]. unfold height. by rewrite V1. Qed.
#[global] Instance cons_view s : Proper (same_view ==> same_view) (cons s).
Proof. intros c c' [V1 V2 V3 V4]. split; simpl; [congruence|congruence|congruence|]. intros a. by rewrite V4. Qed.
#[global] Instance app_view us : Proper (same_view ==> same_view) (app us).
Proof. intros c c' V. induction us as [|s us IH]; [done|]. simpl. by rewrite IH. Qed.
#[global] Instance outputs_view : Proper (same_view ==> (=) ==> (=) ==> (=) ==> impl) outputs_ok_at.
Proof. intros c c' [V1 V2 V3 V4] s ? <- a ? <- e ? <- [O1 O2 O3 O4 O5 O6]. split; rewrite <- ?V4; done. Qed.
#[global] Instance seg_view : Proper (same_view ==> (=) ==> impl) seg_ok.
Proof.
  intros c c' V s ? <- [S1 S2 S3 S4 S5 S6 S7]. split; rewrite <- ?V; try done.
  - by rewrite <- (sv_spent _ _ V).
  - intros a e He. rewrite <- V. by apply S7.
Qed.

Lemma chain_above us c c' : same_view c c' -> chain_ok (us ++ c) -> chain_ok c' -> nonempty c' -> chain_ok (us ++ c').
Proof.
  intros V. induction us as [|s us IH]; simpl; [done|]. intros (Hs & Hc & N) H' N'. split_and!; [by rewrite <- V|by apply IH|].
  apply Forall_app in N as [N _]. by apply Forall_app.
Qed.

Lemma ledger_view c c' : same_view c c' -> chain_ok c' -> ledger c -> ledger c'.
Proof. intros [V1 V2 V3 V4] H [L1 L2 L3]. split; [done|by rewrite <- V1, <- V2|]. intros ki i. rewrite <- V2, <- V3. apply L3. Qed.

Lemma ledger_above us c c' : same_view c c' -> ledger (us ++ c) -> chain_ok c' -> nonempty c' -> ledger (us ++ c').
Proof.
  intros V L H N. eapply ledger_view; [|eapply chain_above; [exact V|apply L|done|done]|exact L]. by rewrite V.
Qed.

Lemma split_view ps s u l k : seg_ok ps s -> seg_startIndex s < k < seg_startIndex s + Z.of_nat (length (seg_blockInfos s)) ->
  split s k = Ok (u, l) -> same_view (s :: ps) (u :: l :: ps).
Proof.
  intros Hs Hk E. destruct (split_same ps s u l k Hs Hk E) as (E1 & E2 & E3). split; [done| |done|done].
  destruct (split_parts ps s u l k Hs Hk E) as (_ & _ & _ & _ & Gu & Gl & _). simpl. by rewrite Gu, Gl, <- (assoc_L (++)), take_drop.
Qed.

Lemma split_ledger ps s k : ledger (s :: ps) -> seg_startIndex s < k < seg_startIndex s + Z.of_nat (length (seg_blockInfos s)) ->
  exists u l, split s k = Ok (u, l) /\ same_view (s :: ps) (u :: l :: ps) /\ ledger (u :: l :: ps) /\ ledger (l :: ps)
    /\ seg_blockInfos u <> [] /\ seg_blockInfos l <> [] /\ height (l :: ps) = k
    /\ all_blocks (l :: ps) = take (Z.to_nat k) (all_blocks (s :: ps))
    /\ (forall amount, (length (all_outputs (l :: ps) amount) <= length (all_outputs (s :: ps) amount))%nat).
Proof.
  intros L Hk. pose proof (l_chain _ L) as H. destruct (split_ok ps s k H Hk) as (u & l & E & H' & Hh & _).
  pose proof (split_view ps s u l k (proj1 H) Hk E) as V. exists u, l.
  destruct (split_parts ps s u l k (proj1 H) Hk E) as (_ & _ & Bu & Bl & Gu & Gl & Su & Sl & _). pose proof (so_start _ _ (proj1 H)) as St.
  assert (Eb : all_blocks (l :: ps) = take (Z.to_nat k) (all_blocks (s :: ps))).
  { rewrite (sv_blocks _ _ V). change (all_blocks (u :: l :: ps)) with (all_blocks (l :: ps) ++ seg_blockInfos u).
    rewrite take_app_length' by (unfold height in Hh; lia). done. }
  split_and!; try done.
  - by eapply ledger_view.
  - split; [apply H'| |].
    + rewrite Eb. replace (all_raw (l :: ps)) with (take (Z.to_nat k) (all_raw (s :: ps))); [apply flat_prefix, L|].
      rewrite (sv_storage _ _ V). change (all_raw (u :: l :: ps)) with (all_raw (l :: ps) ++ seg_storage u). apply take_app_length'.
      rewrite length_all_raw by apply H'. unfold height in Hh. lia.
    + intros ki i. assert (Es : all_raw (s :: ps) = all_raw (l :: ps) ++ seg_storage u) by apply (sv_storage _ _ V).
      assert (Hl : length (all_raw (l :: ps)) = Z.to_nat k) by (rewrite length_all_raw by apply H'; unfold height in Hh; lia).
      assert (Eq : all_spent (l :: ps) !! ki = Some i <-> all_spent (s :: ps) !! ki = Some i /\ i < k).
      { rewrite (sv_spent _ _ V). change (all_spent (u :: l :: ps)) with (seg_spentKeyImages u ∪ all_spent (l :: ps)).
        rewrite lookup_union_Some by apply H'. split.
        - intros Hi. pose proof (all_spent_range (l :: ps) _ _ (proj1 (proj2 H')) Hi). split; [by right|lia].
        - intros [[Hi|Hi] Lt]; [|done]. apply (so_spent _ _ (proj1 H')) in Hi. rewrite (so_start _ _ (proj1 H')) in Hi. lia. }
      rewrite Eq, (l_spent _ L), Es. split.
      * intros ((Hi & r & Hr & Hin) & Lt). split; [done|]. exists r. by rewrite lookup_app_l in Hr by lia.
      * intros (Hi & r & Hr & Hin). pose proof (lookup_lt_Some _ _ _ Hr). split_and!; [done| |lia]. exists r. by rewrite lookup_app_l by lia.
  - rewrite Bu. intros Z%(f_equal length). rewrite length_drop in Z. simpl in Z. lia.
  - rewrite Bl. intros Z%(f_equal length). rewrite length_take in Z. simpl in Z. lia.
  - intros amount. rewrite (sv_outputs _ _ V). simpl. rewrite !length_app. lia.
Qed.

(** *** The root *)

(** The genesis block can be decoded again, and its coins are within the supply. *)
Record genesis_ok (g : BlockTemplate) : Prop := {
  g_index : getBlockIndex g = 0;
  g_decodes : forall blob, toBinaryArray (serialize_BlockTemplate cn_fast_hash) g = Ok blob ->
    is_bytes blob /\ fromBinaryArray (serialize_BlockTemplate cn_fast_hash) new_BlockTemplate blob = Ok g;
  g_few : Z.of_nat (length (outputs (tx_prefix (baseTransaction g)))) < 2 ^ 32;
  g_money : 0 <= sumZ (out_amount <$> outputs (tx_prefix (baseTransaction g))) <= m_moneySupply currency }.

Lemma foldl_wrap_sum l : forall r, foldl (fun r o => u64 (r + out_amount o)) (u64 r) l = u64 (r + sumZ (out_amount <$> l)).
Proof.
  induction l as [|o l IH]; intros r; [simpl; f_equal; unfold sumZ; simpl; lia|]. rewrite fmap_cons, sumZ_cons. simpl.
  rewrite wrap_add_l, IH. f_equal. lia.
Qed.

Lemma genesis_ledger g c : sane_currency currency -> genesis_ok g -> genesis_cache cn_fast_hash g = Ok c ->
  exists s info, c = [s] /\ ledger c /\ seg_blockInfos s = [info] /\ getBlockHash cn_fast_hash g = Ok (bi_blockHash info).
Proof.
  intros Sn [G1 G2 G3 G4] E. unfold genesis_cache in E. apply bind_ok in E as (_ & _ & E). apply bind_ok in E as (size & _ & E).
  apply bind_ok in E as (_ & _ & E). apply bind_ok in E as (blob & Hb & E). set (raw := {| block := blob; transactions := [] |}) in E.
  pose proof (foldl_wrap_sum (outputs (tx_prefix (baseTransaction g))) 0) as Hr. change (u64 0) with 0 in Hr. rewrite Hr, Z.add_0_l in E. pose proof (sane_supply _ Sn) as Sw.
  rewrite wrap_small in E by width_solve. set (reward := sumZ _) in *.
  assert (H0 : chain_ok [new_segment 0]) by exact chain_empty.
  destruct (push_inv cn_fast_hash (new_segment 0) [] g [] ∅ size reward 1 raw c H0) as (h & hs & R); [exact G1|done| |exact E|].
  { intros amount. pose proof (length_txs_packed 0 amount [CachedTransaction_of (baseTransaction g)] 0) as Lp.
    change (height [new_segment 0]) with 0. change (all_outputs [new_segment 0] amount) with (@nil PackedOutIndex). cbn [fmap list_fmap concat] in Lp. rewrite app_nil_r in Lp.
    change (length []) with 0%nat. cbn [getTransaction CachedTransaction_of] in Lp. lia. }
  destruct (push_ok _ _ _ _ _ _ _ reward _ _ _ raw H0 R) as (s & E' & H' & Ei & Eg & _ & Ek & _). rewrite E in E'. apply Ok_inj in E' as ->.
  simpl in Ei, Eg. exists s. eexists. split_and!; [done| |exact Ei|apply R].
  assert (Rb : raw_block raw = Ok g) by by apply G2. pose proof (proj1 (G2 _ Hb)) as Hbb. split; [done| |].
  - simpl. rewrite Ei, Eg. split; simpl.
    + done.
    + by repeat constructor.
    + repeat constructor; simpl; try lia; rewrite ?wrap_small by width_solve; try lia; try apply wrap_range; lia.
    + repeat constructor; simpl; try apply wrap_range; lia.
    + intros [|k] b b'; simpl; [done|done].
    + intros [|k] r bi; simpl; [|done]. intros [= <-] [= <-]. exists g. split_and!; try done. by apply R.
    + intros [|k] b; simpl; [|done]. intros [= <-]. simpl. rewrite wrap_small by width_solve. unfold created. rewrite Rb.
      change (raw_txs raw) with (@nil Transaction). change (sumZ (tx_gain <$> [])) with 0. unfold reward. lia.
    + constructor.
  - intros ki i. simpl. rewrite Eg. rewrite (right_id_L ∅ (∪)), Ek. rewrite decide_False by set_solver. simpl.
    rewrite lookup_empty. split; [done|]. intros (Hi & r & Hlr & Hin). apply list_lookup_singleton_Some in Hlr as [_ <-]. by apply not_elem_of_nil in Hin.
Qed.

End ledger.
