(* ===== verification/Core.v ===== *)
(** * Core: [cryptonotecore/Core.cpp]

    The daemon's core: the tree of segments of [SegmentTree.v], the main chain, the
    transaction pool of [Pool.v], and the handlers that add a block or a transaction.
    The messages the observers get are kept in a log.  A handler that throws leaves the
    object as it is at that point; only returns are modelled. *)

From Stdlib Require Import ZArith Lia.
From stdpp Require Import base tactics list numbers strings gmap fin_maps fin_sets sorting relations.
From S2P Require Import Prelude Config Difficulty Types Serializer TxSerialization TransactionExtra BlockSerialization FormatUtils Currency Checkpoints ThreadPool Validate Pool BlockchainCache CacheChain ShuffleGenerator CacheQueries BlockValidation SegmentTree Ledger.

Local Open Scope Z_scope.

(** ** Data *)

(** [BlockchainMessages.h] *)
Inductive Reason := InBlock | Outdated | NotActual.
Inductive BlockchainMessage :=
| NewBlock (blockIndex : Z) (blockHash : Hash)
| NewAlternativeBlock (blockIndex : Z) (blockHash : Hash)
| ChainSwitch (commonRootIndex : Z) (blocksFromCommonRoot : list Hash)
| AddTransaction (added : list Hash)
| DeleteTransaction (deleted : list Hash) (reason : Reason).

Record Core := {
  objects : heap;
  next_ptr : ptr;
  chainsStorage : list ptr;
  chainsLeaves : list ptr;
  mainChainSet : gset ptr;
  core_pool : CleanWrapper;
  blockMedianSize : Z;
  initialized : bool;
  messages : list BlockchainMessage }.

Definition set_objects (h : heap) (c : Core) : Core :=
  {| objects := h; next_ptr := next_ptr c; chainsStorage := chainsStorage c; chainsLeaves := chainsLeaves c; mainChainSet := mainChainSet c;
     core_pool := core_pool c; blockMedianSize := blockMedianSize c; initialized := initialized c; messages := messages c |}.
Definition set_leaves (l : list ptr) (c : Core) : Core :=
  {| objects := objects c; next_ptr := next_ptr c; chainsStorage := chainsStorage c; chainsLeaves := l; mainChainSet := mainChainSet c;
     core_pool := core_pool c; blockMedianSize := blockMedianSize c; initialized := initialized c; messages := messages c |}.
Definition set_main (s : gset ptr) (c : Core) : Core :=
  {| objects := objects c; next_ptr := next_ptr c; chainsStorage := chainsStorage c; chainsLeaves := chainsLeaves c; mainChainSet := s;
     core_pool := core_pool c; blockMedianSize := blockMedianSize c; initialized := initialized c; messages := messages c |}.
Definition set_pool (w : CleanWrapper) (c : Core) : Core :=
  {| objects := objects c; next_ptr := next_ptr c; chainsStorage := chainsStorage c; chainsLeaves := chainsLeaves c; mainChainSet := mainChainSet c;
     core_pool := w; blockMedianSize := blockMedianSize c; initialized := initialized c; messages := messages c |}.
Definition set_median (m : Z) (c : Core) : Core :=
  {| objects := objects c; next_ptr := next_ptr c; chainsStorage := chainsStorage c; chainsLeaves := chainsLeaves c; mainChainSet := mainChainSet c;
     core_pool := core_pool c; blockMedianSize := m; initialized := initialized c; messages := messages c |}.
Definition notifyObservers (m : BlockchainMessage) (c : Core) : Core :=
  {| objects := objects c; next_ptr := next_ptr c; chainsStorage := chainsStorage c; chainsLeaves := chainsLeaves c; mainChainSet := mainChainSet c;
     core_pool := core_pool c; blockMedianSize := blockMedianSize c; initialized := initialized c; messages := messages c ++ [m] |}.

(** [chainsStorage.emplace_back(segment)] of the object at the next address. *)
Definition own_next (h : heap) (c : Core) : Core :=
  {| objects := h; next_ptr := S (next_ptr c); chainsStorage := chainsStorage c ++ [next_ptr c]; chainsLeaves := chainsLeaves c;
     mainChainSet := mainChainSet c; core_pool := core_pool c; blockMedianSize := blockMedianSize c; initialized := initialized c; messages := messages c |}.

(** ** Finding segments *)

Definition throwIfNotInitialized (c : Core) : outcome unit := require (initialized c) "NOT_INITIALIZED".
Definition main_leaf (c : Core) : outcome ptr := from_option "chainsLeaves[0]" (head (chainsLeaves c)).
Definition main_cache (c : Core) : outcome Cache := p ← main_leaf c; cache_at (objects c) p.

Definition Core_getTopBlockIndex (c : Core) : outcome Z :=
  _ ← throwIfNotInitialized c; m ← main_cache c; cache_top m.

Definition findMainChainSegmentContainingBlock (c : Core) (blockHash : Hash) : outcome (option ptr) :=
  p ← main_leaf c; findIndexInChain (objects c) p blockHash.

Fixpoint find_leaf (h : heap) (leaves : list ptr) (blockHash : Hash) : outcome (option ptr) :=
  match leaves with
  | [] => Ok None
  | p :: l => r ← findIndexInChain h p blockHash; match r with Some q => Ok (Some q) | None => find_leaf h l blockHash end
  end.
Definition findAlternativeSegmentContainingBlock (c : Core) (blockHash : Hash) : outcome (option ptr) :=
  find_leaf (objects c) (tail (chainsLeaves c)) blockHash.
Definition findSegmentContainingBlock (c : Core) (blockHash : Hash) : outcome (option ptr) :=
  blockSegment ← findMainChainSegmentContainingBlock c blockHash;
  match blockSegment with Some p => Ok (Some p) | None => findAlternativeSegmentContainingBlock c blockHash end.

Definition Core_hasBlock (c : Core) (blockHash : Hash) : outcome bool :=
  _ ← throwIfNotInitialized c; r ← findSegmentContainingBlock c blockHash; Ok (bool_decide (is_Some r)).

(** The walk up an alternative chain stops at the main chain. *)
Fixpoint find_off_main (fuel : nat) (h : heap) (main : gset ptr) (p : ptr) (transactionHash : Hash) : outcome (option ptr) :=
  match fuel with
  | O => endless
  | S fuel =>
      if bool_decide (p ∈ main) then Ok None
      else
        n ← node h p;
        if cache_hasTransaction (n_segment n) transactionHash then Ok (Some p)
        else match n_parent n with None => Undefined "segment is null" | Some q => find_off_main fuel h main q transactionHash end
  end.
Fixpoint find_tx_leaves (h : heap) (main : gset ptr) (leaves : list ptr) (transactionHash : Hash) : outcome (option ptr) :=
  match leaves with
  | [] => Ok None
  | p :: l =>
      r ← find_off_main (fuel_of h) h main p transactionHash;
      match r with Some q => Ok (Some q) | None => find_tx_leaves h main l transactionHash end
  end.
Definition findSegmentContainingTransaction (c : Core) (transactionHash : Hash) : outcome (option ptr) :=
  p ← main_leaf c;
  r ← find_up (fuel_of (objects c)) (objects c) p (fun s => cache_hasTransaction s transactionHash);
  match r with
  | Some q => Ok (Some q)
  | None => find_tx_leaves (objects c) (mainChainSet c) (tail (chainsLeaves c)) transactionHash
  end.
Definition isTransactionInChain (c : Core) (txnHash : Hash) : outcome bool :=
  _ ← throwIfNotInitialized c; segment ← findSegmentContainingTransaction c txnHash; Ok (bool_decide (is_Some segment)).
Definition Core_hasTransaction (c : Core) (transactionHash : Hash) : outcome bool :=
  _ ← throwIfNotInitialized c; segment ← findSegmentContainingTransaction c transactionHash;
  Ok (bool_decide (is_Some segment) || checkIfTransactionPresent (transactionPool (core_pool c)) transactionHash).

Definition updateMainChainSet (c : Core) : outcome Core :=
  p ← main_leaf c; ids ← ids_at (objects c) p; Ok (set_main (list_to_set ids) c).

(** The sums and differences of sizes are of 64 bits. *)
Definition getMaximumTransactionAllowedSize (currency : Currency) (blockSizeMedian : Z) : outcome Z :=
  _ ← assert (m_minerTxBlobReservedSize currency <? u64 (blockSizeMedian * 2)) "assert(blockSizeMedian * 2 > minerTxBlobReservedSize)";
  Ok (u64 (blockSizeMedian * 2 - m_minerTxBlobReservedSize currency)).

(** [extractSpentOutputs(transaction)] *)
Definition extractSpentOutputs (tx : Transaction) : outcome TransactionValidatorState :=
  foldM (fun (spent : TransactionValidatorState) input =>
           match input with
           | InKey i => _ ← assert (negb (bool_decide (keyImage i ∈ spent))) "assert(r)"; Ok ({[ keyImage i ]} ∪ spent)
           | InBase _ => Undefined "assert(false)"
           end) ∅ (inputs (tx_prefix tx)).

(** Why a transaction does not go into the pool. *)
Inductive PoolError :=
| COULD_NOT_DESERIALIZE | ALREADY_IN_POOL | TOO_MANY_FUSIONS | NOT_VALID (e : option TransactionValidationError).

Section core.
Context (currency : Currency) (checkpoints : points).
Context (scalarmultKey : KeyImage -> KeyImage -> KeyImage) (check_key : PublicKey -> bool).
Context (cn_fast_hash cn_turtle_lite_slow_hash_v2 : bytes -> Hash).
Context (checkRingSignature : Hash -> KeyImage -> list PublicKey -> list Signature -> bool).
Context (algorithm : Z -> option (bytes -> Hash)) (genesisBlockHash : Hash) (threadCount : nat).
(** [time(NULL)], the same during one call. *)
Context (now : Z).

Definition updateBlockMedianSize (c : Core) : outcome Core :=
  mainChain ← main_cache c;
  top ← cache_top mainChain;
  let nextBlockGrantedFullRewardZone := blockGrantedFullRewardZoneByBlockVersion currency (getBlockMajorVersionForHeight currency (top + 1)) in
  lastBlockSizes ← getLastBlocksSizes mainChain (Z.to_nat (m_rewardBlocksWindow currency)) top false;
  Ok (set_median (Z.max (medianValue lastBlockSizes) nextBlockGrantedFullRewardZone) c).

(** ** The pool *)

(** Is a transaction of the pool invalid now that [blockTransactionsState] is spent? *)
Definition pool_tx_invalid (c : Core) (maxTransactionSize : Z) (blockTransactionsState : TransactionValidatorState)
    (poolTxHash : Hash) (poolTx : CachedTransaction) : outcome bool :=
  poolTxState ← extractSpentOutputs (getTransaction poolTx);
  top ← Core_getTopBlockIndex c;
  let mixinSuccess := Mixins_validate [getTransaction poolTx] top in
  inChain ← isTransactionInChain c poolTxHash;
  if inChain : bool then Ok true
  else if negb mixinSuccess then Ok true
  else
    blob ← getTransactionBinaryArray poolTx;
    if maxTransactionSize <? Z.of_nat (length blob) then Ok true
    else Ok (hasIntersections blockTransactionsState poolTxState).

Definition remove_from_pool (hash : Hash) (c : Core) : outcome Core :=
  '(_, p) ← removeTransaction hash (transactionPool (core_pool c));
  Ok (notifyObservers (DeleteTransaction [hash] NotActual) (set_pool (with_pool (core_pool c) p) c)).

Definition check_pool_tx (maxTransactionSize : Z) (blockTransactionsState : TransactionValidatorState) (c : Core) (poolTxHash : Hash) : outcome Core :=
  match tryGetTransaction (transactionPool (core_pool c)) poolTxHash with
  | None => Ok c
  | Some poolTx =>
      invalid ← pool_tx_invalid c maxTransactionSize blockTransactionsState poolTxHash poolTx;
      if invalid : bool then remove_from_pool poolTxHash c else Ok c
  end.

Definition checkAndRemoveInvalidPoolTransactions (blockTransactionsState : TransactionValidatorState) (c : Core) : outcome Core :=
  maxTransactionSize ← getMaximumTransactionAllowedSize currency (blockMedianSize c);
  foldM (check_pool_tx maxTransactionSize blockTransactionsState) c (getTransactionHashes (transactionPool (core_pool c))).

(** The call passes [true] as the timestamp and the timestamp as the flag for the pool. *)
Definition isTransactionValidForPool (c : Core) (tx : CachedTransaction) (sched : list action) : outcome (PoolError + TransactionValidatorState) :=
  if (getTransactionFee (getTransaction tx) =? 0)
     && (FUSION_TX_MAX_POOL_COUNT <=? Z.of_nat (getFusionTransactionCount (transactionPool (core_pool c))))
  then Ok (inl TOO_MANY_FUSIONS)
  else
    mainChain ← main_cache c;
    top ← cache_top mainChain;
    timestamps ← getLastTimestamps mainChain 1 top false;
    lastTimestamp ← from_option "getLastTimestamps(1)[0]" (head timestamps);
    topBlockIndex ← Core_getTopBlockIndex c;
    '(_, e, validatorState) ← Core_validateTransaction (cache := cache_interface currency now mainChain) scalarmultKey check_key cn_fast_hash
        cn_turtle_lite_slow_hash_v2 checkRingSignature threadCount currency checkpoints (blockMedianSize c) tx topBlockIndex
        (negb (lastTimestamp =? 0)) sched ∅;
    Ok (if is_set e then inl (NOT_VALID e) else inr validatorState).

Definition addCachedTransactionToPool (c : Core) (tx : CachedTransaction) (sched : list action) : outcome (option PoolError * Core) :=
  transactionHash ← getTransactionHash cn_fast_hash tx;
  if checkIfTransactionPresent (transactionPool (core_pool c)) transactionHash then Ok (Some ALREADY_IN_POOL, c)
  else
    r ← isTransactionValidForPool c tx sched;
    match r with
    | inl e => Ok (Some e, c)
    | inr validatorState =>
        '(pushed, w) ← wrapper_pushTransaction cn_fast_hash now tx validatorState (core_pool c);
        if pushed : bool then Ok (None, set_pool w c) else Ok (Some ALREADY_IN_POOL, set_pool w c)
    end.

Definition addTransactionToPool (c : Core) (transactionBinaryArray : bytes) (sched : list action) : outcome (option PoolError * Core) :=
  _ ← throwIfNotInitialized c;
  r ← fromBinaryArray_opt serialize_Transaction new_Transaction transactionBinaryArray;
  match r with
  | None => Ok (Some COULD_NOT_DESERIALIZE, c)
  | Some transaction =>
      let tx := CachedTransaction_of transaction in
      transactionHash ← getTransactionHash cn_fast_hash tx;
      '(e, c) ← addCachedTransactionToPool c tx sched;
      match e with
      | Some e => Ok (Some e, c)
      | None => Ok (None, notifyObservers (AddTransaction [transactionHash]) c)
      end
  end.

(** The raw transactions of one segment, base transactions left out, back into the pool;
    [scheds] gives the schedule of each validation. *)
Definition readd_segment (c : Core) (segment : Cache) (scheds : nat -> list action) : outcome Core :=
  match segment with
  | [] => null_parent
  | s :: _ =>
      '(txs, misses) ← cache_getRawTransactions cn_fast_hash segment (cache_getTransactionHashes s);
      _ ← assert (bool_decide (misses = [])) "assert(misses.empty())";
      foldM (fun c (it : nat * bytes) => '(_, c) ← addTransactionToPool c it.2 (scheds it.1); Ok c) c (imap (fun i t => (i, t)) txs)
  end.

Fixpoint copy_up (fuel : nat) (c : Core) (alt : ptr) (scheds : ptr -> nat -> list action) : outcome Core :=
  match fuel with
  | O => endless
  | S fuel =>
      if bool_decide (alt ∈ mainChainSet c) then Ok c
      else
        segment ← cache_at (objects c) alt;
        c ← readd_segment c segment (scheds alt);
        n ← node (objects c) alt;
        match n_parent n with None => Ok c | Some q => copy_up fuel c q scheds end
  end.
Definition copyTransactionsToPool (c : Core) (alt : ptr) (scheds : ptr -> nat -> list action) : outcome Core :=
  copy_up (fuel_of (objects c)) c alt scheds.

(** ** Adding a block *)

(** [cache->pushBlock(...)] on the segment at [p]. *)
Definition push_at (c : Core) (p : ptr) (b : BlockTemplate) (raw : RawBlock) (a : Accepted) : outcome Core :=
  cache ← cache_at (objects c) p;
  cache ← doPushBlock cn_fast_hash cache b (a_transactions a) (a_validatorState a) (a_cumulativeBlockSize a)
            (u64 (a_emissionChange a)) (a_currentDifficulty a) raw;
  match cache with
  | [] => null_parent
  | s :: _ => h ← write_segment s p (objects c); Ok (set_objects h c)
  end.

(** A new segment above [p] for the block, a new leaf. *)
Definition fork_at (c : Core) (p : ptr) (b : BlockTemplate) (raw : RawBlock) (a : Accepted) : outcome Core :=
  let q := next_ptr c in
  h ← new_child p q (u32 (a_previousBlockIndex a + 1)) (objects c);
  let c := own_next h c in
  push_at (set_leaves (chainsLeaves c ++ [q]) c) q b raw a.

Definition cumulativeDifficulty_at (h : heap) (p : ptr) : outcome Z :=
  n ← node h p; b ← from_option "assert(!blockInfos.empty())" (last (seg_blockInfos (n_segment n))); Ok (bi_cumulativeDifficulty b).

(** [std::swap(chainsLeaves[0], chainsLeaves[endpointIndex])] *)
Definition swap_leaves (i : nat) (l : list ptr) : list ptr :=
  match l !! 0%nat, l !! i with
  | Some x, Some y => <[i := x]> (<[0%nat := y]> l)
  | _, _ => l
  end.

(** On the leaf [p] of the main chain. *)
Definition add_to_main (c : Core) (p : ptr) (b : BlockTemplate) (raw : RawBlock) (a : Accepted) : outcome (AddBlockErrorCode * Core) :=
  c ← push_at c p b raw a;
  c ← updateBlockMedianSize c;
  c ← checkAndRemoveInvalidPoolTransactions (a_validatorState a) c;
  (* [hashes] was reserved and stays empty *)
  Ok (ADDED_TO_MAIN, notifyObservers (DeleteTransaction [] InBlock) c).

(** On the leaf [p] of another chain, which may become the main chain. *)
Definition add_to_leaf (c : Core) (p : ptr) (b : BlockTemplate) (raw : RawBlock) (a : Accepted) (scheds : ptr -> nat -> list action)
    : outcome (AddBlockErrorCode * Core) :=
  c ← push_at c p b raw a;
  mainChainCache ← main_leaf c;
  d ← cumulativeDifficulty_at (objects c) p;
  d' ← cumulativeDifficulty_at (objects c) mainChainCache;
  if d' <? d then
    let endpointIndex := match list_find (fun q => q = p) (chainsLeaves c) with Some (i, _) => i | None => length (chainsLeaves c) end in
    _ ← assert (negb (bool_decide (endpointIndex = length (chainsStorage c)))) "assert(endpointIndex != chainsStorage.size())";
    _ ← assert (negb (bool_decide (endpointIndex = 0%nat))) "assert(endpointIndex != 0)";
    c ← updateMainChainSet (set_leaves (swap_leaves endpointIndex (chainsLeaves c)) c);
    c ← updateBlockMedianSize c;
    c ← checkAndRemoveInvalidPoolTransactions (a_validatorState a) c;
    alt ← from_option "chainsLeaves[endpointIndex]" (chainsLeaves c !! endpointIndex);
    c ← copyTransactionsToPool c alt scheds;
    Ok (ADDED_TO_ALTERNATIVE_AND_SWITCHED, c)
  else Ok (ADDED_TO_ALTERNATIVE, c).

(** Above an inner segment. *)
Definition add_to_inner (c : Core) (p : ptr) (b : BlockTemplate) (raw : RawBlock) (a : Accepted) : outcome (AddBlockErrorCode * Core) :=
  c ← fork_at c p b raw a;
  c ← updateMainChainSet c;
  c ← updateBlockMedianSize c;
  Ok (ADDED_TO_ALTERNATIVE, c).

(** Inside a segment: split it first. *)
Definition add_inside (c : Core) (p : ptr) (b : BlockTemplate) (raw : RawBlock) (a : Accepted) : outcome (AddBlockErrorCode * Core) :=
  let u := next_ptr c in
  h ← split_node p u (u32 (a_previousBlockIndex a + 1)) (objects c);
  upperSegment ← node h u;
  cache ← node h p;
  _ ← assert (0 <? getBlockCount (n_segment upperSegment)) "assert(upperSegment->getBlockCount() > 0)";
  _ ← assert (0 <? getBlockCount (n_segment cache)) "assert(cache->getBlockCount() > 0)";
  leaves ← (if bool_decide (n_children upperSegment = []) then
              match list_find (fun q => q = p) (chainsLeaves c) with
              | None => Undefined "assert(found != chainsLeaves.end())"
              | Some (i, _) => Ok (<[i := u]> (chainsLeaves c))
              end
            else Ok (chainsLeaves c));
  c ← fork_at (set_leaves leaves (own_next h c)) p b raw a;
  c ← updateMainChainSet c;
  Ok (ADDED_TO_ALTERNATIVE, c).

Definition extend_chain (c : Core) (p : ptr) (b : BlockTemplate) (raw : RawBlock) (a : Accepted) (scheds : ptr -> nat -> list action)
    : outcome (AddBlockErrorCode * Core) :=
  cache ← node (objects c) p;
  top ← getTopBlockIndex (n_segment cache);
  if top =? a_previousBlockIndex a then
    if bool_decide (n_children cache = []) then
      main ← main_leaf c;
      if bool_decide (p = main) then add_to_main c p b raw a else add_to_leaf c p b raw a scheds
    else add_to_inner c p b raw a
  else add_inside c p b raw a.

(** [p] is the segment the block went on, which a split has left the lower part of. *)
Definition notifyOnSuccess (c : Core) (opResult : AddBlockErrorCode) (previousBlockIndex : Z) (b : BlockTemplate) (p : ptr) : outcome Core :=
  match opResult with
  | ADDED_TO_MAIN => h ← getBlockHash cn_fast_hash b; Ok (notifyObservers (NewBlock (u32 (previousBlockIndex + 1)) h) c)
  | ADDED_TO_ALTERNATIVE => h ← getBlockHash cn_fast_hash b; Ok (notifyObservers (NewAlternativeBlock (u32 (previousBlockIndex + 1)) h) c)
  | ADDED_TO_ALTERNATIVE_AND_SWITCHED =>
      cache ← cache_at (objects c) p;
      match cache with
      | s :: ((parent :: _) as ps) =>
          hs ← cache_getBlockHashes cache (seg_startIndex s) (getBlockCount s);
          h ← cache_getTopBlockHash parent;
          i ← getTopBlockIndex parent;
          Ok (notifyObservers (ChainSwitch i (h :: hs)) c)
      | _ => null_parent
      end
  | _ => Undefined "assert(false)"
  end.

Definition CHECK (c : Core) : Cache -> BlockTemplate -> RawBlock -> (nat -> list action) -> Verdict :=
  check_block currency checkpoints scalarmultKey check_key cn_fast_hash cn_turtle_lite_slow_hash_v2 checkRingSignature algorithm
    genesisBlockHash threadCount now (blockMedianSize c).

(** [addBlock(cachedBlock, rawBlock)]; the schedules are those of the block's
    transactions and of those that go back into the pool. *)
Definition addCachedBlock (c : Core) (b : BlockTemplate) (raw : RawBlock) (scheds : nat -> list action) (back : ptr -> nat -> list action)
    : outcome (error_code * Core) :=
  _ ← throwIfNotInitialized c;
  blockHash ← getBlockHash cn_fast_hash b;
  exists_ ← Core_hasBlock c blockHash;
  if exists_ : bool then Ok (AddBlock ALREADY_EXISTS, c)
  else
    _ ← assert (bool_decide (length (transactions raw) = length (transactionHashes b))) "assert(rawBlock.transactions.size() == transactionHashes.size())";
    found ← findSegmentContainingBlock c (previousBlockHash (header b));
    match found with
    | None => Ok (AddBlock REJECTED_AS_ORPHANED, c)
    | Some p =>
        cache ← cache_at (objects c) p;
        v ← CHECK c cache b raw scheds;
        match v with
        | inl (e, None) => Ok (e, c)
        | inl (e, Some hash) =>
            if checkIfTransactionPresent (transactionPool (core_pool c)) hash
            then c ← remove_from_pool hash c; Ok (e, c)
            else Ok (e, c)
        | inr a =>
            '(ret, c) ← extend_chain c p b raw a back;
            c ← notifyOnSuccess c ret (a_previousBlockIndex a) b p;
            Ok (AddBlock ret, c)
        end
    end.

(** [addBlock(rawBlock)] *)
Definition addBlock (c : Core) (raw : RawBlock) (scheds : nat -> list action) (back : ptr -> nat -> list action) : outcome (error_code * Core) :=
  _ ← throwIfNotInitialized c;
  r ← fromBinaryArray_opt (serialize_BlockTemplate cn_fast_hash) new_BlockTemplate (block raw);
  match r with
  | None => Ok (AddBlock DESERIALIZATION_FAILED, c)
  | Some b => addCachedBlock c b raw scheds back
  end.

(** The transactions of the template, from the pool. *)
Fixpoint template_transactions (p : TransactionPool) (l : list Hash) : outcome (option (list bytes)) :=
  match l with
  | [] => Ok (Some [])
  | h :: l =>
      if negb (checkIfTransactionPresent p h) then Ok None
      else
        tx ← pool_getTransaction p h;
        blob ← getTransactionBinaryArray tx;
        rest ← template_transactions p l;
        Ok (match rest with None => None | Some blobs => Some (blob :: blobs) end)
  end.

Definition submitBlock (c : Core) (rawBlockTemplate : bytes) (scheds : nat -> list action) (back : ptr -> nat -> list action) : outcome (error_code * Core) :=
  _ ← throwIfNotInitialized c;
  r ← fromBinaryArray_opt (serialize_BlockTemplate cn_fast_hash) new_BlockTemplate rawBlockTemplate;
  match r with
  | None => Ok (AddBlock DESERIALIZATION_FAILED, c)
  | Some b =>
      txs ← template_transactions (transactionPool (core_pool c)) (transactionHashes b);
      match txs with
      | None => Ok (BlockError TRANSACTION_ABSENT_IN_POOL, c)
      | Some blobs => addCachedBlock c b {| block := rawBlockTemplate; transactions := blobs |} scheds back
      end
  end.

(** ** The start: [initRootSegment], then [load] *)

Definition start (timeout : Z) (genesis : BlockTemplate) : outcome Core :=
  cache ← genesis_cache cn_fast_hash genesis;
  match cache with
  | [] => null_parent
  | s :: _ =>
      c ← updateBlockMedianSize {| objects := {[ 0%nat := {| n_segment := s; n_parent := None; n_children := [] |} ]}; next_ptr := 1;
             chainsStorage := [0%nat]; chainsLeaves := [0%nat]; mainChainSet := {[ 0%nat ]};
             core_pool := {| transactionPool := new_pool; recentlyDeletedTransactions := ∅; timeout := timeout |};
             blockMedianSize := 0; initialized := false; messages := [] |};
      Ok {| objects := objects c; next_ptr := next_ptr c; chainsStorage := chainsStorage c; chainsLeaves := chainsLeaves c;
            mainChainSet := mainChainSet c; core_pool := core_pool c; blockMedianSize := blockMedianSize c; initialized := true; messages := messages c |}
  end.

(** [Core::transactionPoolCleaningProcedure], one round *)
Definition clean_pool (c : Core) : outcome Core :=
  top ← Core_getTopBlockIndex c;
  '(deletedTransactions, w) ← clean now top (core_pool c);
  Ok (notifyObservers (DeleteTransaction deletedTransactions Outdated) (set_pool w c)).

End core.
