(* ===== verification/CoreInvariant.v ===== *)
(** * CoreInvariant: what [Core] keeps true

    The invariant of [Core.v]: the segments form a tree, every chain in it satisfies
    [Ledger.v], the main chain is a heaviest one, and the pool is consistent.  Every
    handler keeps it. *)

From Stdlib Require Import ZArith Lia.
From stdpp Require Import base tactics list numbers strings gmap fin_maps fin_sets sorting relations.
From S2P Require Import Prelude Config Difficulty Types Serializer TxSerialization TransactionExtra BlockSerialization FormatUtils Currency Checkpoints ThreadPool Validate Pool BlockchainCache CacheChain ShuffleGenerator CacheQueries BlockValidation SegmentTree Ledger Core.

Local Open Scope Z_scope.

(** ** The weight of a chain *)

Definition weight (ch : Cache) : Z := match last (all_blocks ch) with Some b => bi_cumulativeDifficulty b | None => 0 end.

#[global] Instance weight_view : Proper (same_view ==> (=)) weight.
Proof. intros c c' V. unfold weight. by rewrite (sv_blocks _ _ V). Qed.

Lemma replace_leaf (l : list ptr) i x y : NoDup l -> l !! i = Some x -> (y ∉ l) ->
  NoDup (<[i := y]> l) /\ forall q, q ∈ <[i := y]> l <-> q = y \/ (q ∈ l /\ q <> x).
Proof.
  intros Nd Hi Ny. rewrite insert_take_drop by by eapply lookup_lt_Some. rewrite <- (take_drop_middle l i x Hi) in Nd, Ny.
  assert (El : forall q, q ∈ l <-> q ∈ take i l ++ x :: drop (S i) l) by (intros q; by rewrite (take_drop_middle l i x Hi)).
  set (a := take i l) in *. set (b := drop (S i) l) in *. rewrite <- Permutation_middle in Nd, Ny. apply NoDup_cons in Nd as [Nx Nd].
  apply not_elem_of_cons in Ny as [_ Ny]. split; [rewrite <- Permutation_middle; by apply NoDup_cons|].
  intros q. rewrite El, <- !Permutation_middle, !elem_of_cons. naive_solver.
Qed.

Section inv.
Context (currency : Currency) (checkpoints : points).
Context (scalarmultKey : KeyImage -> KeyImage -> KeyImage) (check_key : PublicKey -> bool).
Context (cn_fast_hash cn_turtle_lite_slow_hash_v2 : bytes -> Hash).
Context (checkRingSignature : Hash -> KeyImage -> list PublicKey -> list Signature -> bool).
Context (algorithm : Z -> option (bytes -> Hash)) (genesisBlockHash : Hash) (threadCount : nat) (now : Z).

Abbreviation CHECKED := (block_checked currency checkpoints scalarmultKey check_key cn_fast_hash cn_turtle_lite_slow_hash_v2
  checkRingSignature algorithm genesisBlockHash now).

Definition good (ch : Cache) : Prop := ledger currency cn_fast_hash ch /\ nonempty ch.

(** Difficulties are positive, so the work only grows along a chain. *)
Lemma work_grows bs rs i j x y : flat_ok currency cn_fast_hash bs rs -> (i <= j)%nat -> bs !! i = Some x -> bs !! j = Some y ->
  bi_cumulativeDifficulty x <= bi_cumulativeDifficulty y.
Proof.
  intros F L Hx. revert y. induction L as [|j L IH]; intros y Hy; [rewrite Hx in Hy; injection Hy as <-; lia|].
  destruct (lookup_lt_is_Some_2 bs j) as [z Hz]; [apply lookup_lt_Some in Hy; lia|]. specialize (IH z Hz).
  destruct (f_difficulty _ _ _ _ F j z y Hz Hy) as (d & _ & Hd & E). lia.
Qed.

Lemma work_top ch i x : ledger currency cn_fast_hash ch -> all_blocks ch !! i = Some x -> bi_cumulativeDifficulty x <= weight ch.
Proof.
  intros L Hx. unfold weight. destruct (last (all_blocks ch)) as [y|] eqn:E.
  - rewrite last_lookup in E. eapply work_grows; [apply L| |exact Hx|exact E]. apply lookup_lt_Some in Hx. lia.
  - apply last_None in E. by rewrite E in Hx.
Qed.

(** A block forked off a chain that goes on weighs no more than that chain. *)
Lemma fork_weight ch c0 i x d : ledger currency cn_fast_hash ch -> take (S i) (all_blocks ch) = take (S i) (all_blocks c0) ->
  all_blocks c0 !! i = Some x -> next_difficulty currency (take (S i) (all_blocks c0)) = Ok d -> (S i < length (all_blocks ch))%nat ->
  bi_cumulativeDifficulty x + d <= weight ch.
Proof.
  intros L E Hx Hd Hl. destruct (lookup_lt_is_Some_2 _ _ Hl) as [y Hy]. assert (Hx' : all_blocks ch !! i = Some x).
  { rewrite <- (lookup_take_lt (all_blocks ch) (S i)), E, lookup_take_lt by lia. done. }
  destruct (f_difficulty _ _ _ _ (l_flat _ _ _ L) i x y Hx' Hy) as (d' & Hd' & _ & Ew). rewrite E, Hd in Hd'. apply Ok_inj in Hd' as <-.
  pose proof (work_top ch _ y L Hy). lia.
Qed.

(** ** The forest *)

Record forest (c : Core) (root : ptr) (W : Z) : Prop := {
  fo_tree : tree_ok (objects c) root;
  fo_fresh : forall p, p ∈ dom (objects c) -> (p < next_ptr c)%nat;
  fo_storage : NoDup (chainsStorage c) /\ forall p, p ∈ chainsStorage c <-> p ∈ dom (objects c);
  fo_leaves : NoDup (chainsLeaves c) /\ forall p, p ∈ chainsLeaves c <-> exists n, objects c !! p = Some n /\ n_children n = [];
  fo_chains : forall p ids ch, chain_at (objects c) p ids ch -> good ch /\ weight ch <= W }.

(** The first leaf, the main chain, has all the weight. *)
Definition main_at (c : Core) (W : Z) : Prop := exists m l ids ch, chainsLeaves c = m :: l /\ chain_at (objects c) m ids ch /\ weight ch = W.
Definition main_set (c : Core) : Prop := exists m l ids ch, chainsLeaves c = m :: l /\ chain_at (objects c) m ids ch /\ mainChainSet c = list_to_set ids.

Record core_inv (c : Core) (root : ptr) : Prop := {
  ci_forest : exists W, forest c root W /\ main_at c W;
  ci_main : main_set c;
  ci_pool : pool_inv cn_fast_hash (transactionPool (core_pool c));
  ci_init : initialized c = true }.

(** A node that is in both heaps, and whose path carries over, has the same path. *)
Lemma chain_back h h' root q n ids ch : tree_ok h root -> h !! q = Some n ->
  (forall ids c, chain_at h q ids c -> chain_at h' q ids c) -> chain_at h' q ids ch -> chain_at h q ids ch.
Proof.
  intros T E A H. destruct (t_path h root T q n E) as (ids0 & c0 & H0 & _). destruct (chain_at_det _ _ _ _ _ _ (A _ _ H0) H) as [<- <-]. done.
Qed.

Lemma leaf_chain h p n ids ch : h !! p = Some n -> chain_at h p ids ch -> exists ids' ps, ids = p :: ids' /\ ch = n_segment n :: ps.
Proof. intros E H. destruct (chain_at_head _ _ _ _ H) as (n' & i & ps & E' & -> & ->). rewrite E in E'. injection E' as <-. eauto. Qed.

(** *** Pushing into a leaf *)

(** What a block accepted on the chain [c0] is pushed with. *)
Record pushable (median : Z) (c0 : Cache) (b : BlockTemplate) (raw : RawBlock) (a : Accepted) : Prop := {
  pb_good : good c0;
  pb_checked : CHECKED median c0 b raw a;
  pb_block : raw_block cn_fast_hash raw = Ok b;
  pb_bytes : is_bytes (block raw) /\ Forall is_bytes (transactions raw);
  pb_room : room c0 b a }.

Abbreviation PUSH := (push_at cn_fast_hash).

Lemma push_at_ok median c root W p n ids s ps c0 b raw a c' : sane_currency currency -> pushable median c0 b raw a ->
  tree_ok (objects c) root -> objects c !! p = Some n -> n_children n = [] ->
  (forall q ids ch, q <> p -> chain_at (objects c) q ids ch -> good ch /\ weight ch <= W) ->
  chain_at (objects c) p ids (s :: ps) -> ledger currency cn_fast_hash (s :: ps) ->
  all_blocks (s :: ps) = take (S (Z.to_nat (a_previousBlockIndex a))) (all_blocks c0) ->
  (forall amount, (length (all_outputs (s :: ps) amount) <= length (all_outputs c0 amount))%nat) ->
  PUSH c p b raw a = Ok c' ->
  exists s' x, c' = set_objects (<[p := set_segment s' n]> (objects c)) c /\ tree_ok (objects c') root
    /\ (forall q ids ch, q <> p -> chain_at (objects c) q ids ch -> chain_at (objects c') q ids ch)
    /\ (forall q ids ch, chain_at (objects c') q ids ch -> good ch /\ weight ch <= Z.max W (weight (s' :: ps)))
    /\ chain_at (objects c') p ids (s' :: ps)
    /\ all_blocks c0 !! Z.to_nat (a_previousBlockIndex a) = Some x
    /\ weight (s' :: ps) = bi_cumulativeDifficulty x + a_currentDifficulty a
    /\ next_difficulty currency (take (S (Z.to_nat (a_previousBlockIndex a))) (all_blocks c0)) = Ok (a_currentDifficulty a)
    /\ (exists info, seg_blockInfos s' = seg_blockInfos s ++ [info] /\ getBlockHash cn_fast_hash b = Ok (bi_blockHash info)).
Proof.
  intros Sn [[L0 N0] B Rb Ry Rm] T E Lf A H Ls Eb Eo P. unfold push_at in P. rewrite (cache_at_ok _ _ _ _ H) in P. cbn [mbind outcome_bind] in P.
  apply bind_ok in P as (cc & P1 & P). destruct (ledger_push currency cn_fast_hash checkpoints _ _ _ _ _ _ _ median c0 s ps b raw a cc Sn L0 N0 B Rb Ry Ls Eb Eo Rm P1)
    as (s' & info & x & -> & L' & Ei & Hh & Hx & Hw & _ & Hd).
  unfold write_segment in P. rewrite (node_ok _ _ _ E) in P. cbn [mbind outcome_bind] in P. apply Ok_inj in P as <-.
  assert (Sg : n_segment n = s) by (destruct (leaf_chain _ _ _ _ _ E H) as (? & ? & _ & [= <- _]); done).
  destruct (write_leaf _ root p n s' T E Lf) as (T' & K & Kp). rewrite <- Sg in H. pose proof (Kp _ _ H) as Hp'. exists s', x.
  assert (Ew : weight (s' :: ps) = bi_cumulativeDifficulty x + a_currentDifficulty a).
  { unfold weight. simpl all_blocks. rewrite Ei, (assoc_L (++)), last_snoc. done. }
  rewrite <- Eb. split_and!; try done; [|by exists info]. intros q iq ch Hq. destruct (decide (q = p)) as [->|Nq].
  - destruct (chain_at_det _ _ _ _ _ _ Hq Hp') as [-> ->]. split; [|lia]. split; [done|]. constructor; [rewrite Ei; by destruct (seg_blockInfos s)|].
    apply Ls.
  - destruct (chain_at_head _ _ _ _ Hq) as (m & _ & _ & Em & _ & _). simpl in Em. rewrite lookup_insert_ne in Em by done.
    apply (chain_back (objects c) _ root q m) in Hq; [|done|done|intros; by apply K]. destruct (A q iq ch Nq Hq). split; [done|lia].
Qed.

Lemma next_free c root W : forest c root W -> objects c !! next_ptr c = None.
Proof.
  intros F. destruct (objects c !! next_ptr c) as [n|] eqn:E; [|done]. exfalso.
  assert (next_ptr c ∈ dom (objects c)) as H%(fo_fresh _ _ _ F) by by apply elem_of_dom. lia.
Qed.

Lemma push_forest median c root W p n ids s ps b raw a c' : sane_currency currency -> forest c root W -> objects c !! p = Some n -> n_children n = [] ->
  chain_at (objects c) p ids (s :: ps) -> pushable median (s :: ps) b raw a -> a_previousBlockIndex a = height (s :: ps) - 1 ->
  PUSH c p b raw a = Ok c' ->
  exists s', c' = set_objects (<[p := set_segment s' n]> (objects c)) c /\ forest c' root (Z.max W (weight (s' :: ps)))
    /\ (forall q ids ch, q <> p -> chain_at (objects c) q ids ch -> chain_at (objects c') q ids ch)
    /\ chain_at (objects c') p ids (s' :: ps) /\ weight (s :: ps) < weight (s' :: ps)
    /\ (exists info, seg_blockInfos s' = seg_blockInfos s ++ [info] /\ getBlockHash cn_fast_hash b = Ok (bi_blockHash info)).
Proof.
  intros Sn F E Lf H Pb Hi P. destruct (fo_chains _ _ _ F _ _ _ H) as [[L N] HW].
  assert (Hh : S (Z.to_nat (a_previousBlockIndex a)) = length (all_blocks (s :: ps))).
  { pose proof (all_blocks_nonempty _ N ltac:(done)). rewrite Hi. unfold height. lia. }
  destruct (push_at_ok median c root W p n ids s ps (s :: ps) b raw a c' Sn Pb (fo_tree _ _ _ F) E Lf) as (s' & x & Ec & T' & K & A & Hp & Hx & Hw & Hd & Hinfo); try done.
  { intros. by eapply fo_chains. }
  { by rewrite Hh, firstn_all. }
  assert (Dd : 0 < a_currentDifficulty a).
  { assert (Hb : all_blocks (s :: ps) <> []) by (intros Z; rewrite Z in Hx; done). destruct Hinfo as (info & Ei & _).
    destruct (A _ _ _ Hp) as [[L' _] _]. destruct (f_difficulty _ _ _ _ (l_flat _ _ _ L') (Z.to_nat (a_previousBlockIndex a)) x info) as (d & D1 & D2 & D3).
    - simpl all_blocks. rewrite Ei, (assoc_L (++)), lookup_app_l; [exact Hx|by eapply lookup_lt_Some].
    - simpl all_blocks. rewrite Ei, (assoc_L (++)). by rewrite list_lookup_middle.
    - unfold weight in Hw. simpl all_blocks in Hw. rewrite Ei, (assoc_L (++)), last_snoc in Hw. lia. }
  exists s'. split_and!; try done.
  - rewrite Ec. cbn [objects set_objects] in *. split; simpl.
    + by rewrite Ec in T'.
    + intros q. rewrite dom_insert_lookup_L by by rewrite E. apply F.
    + rewrite dom_insert_lookup_L by by rewrite E. apply F.
    + split; [apply F|]. intros q. rewrite (proj2 (fo_leaves _ _ _ F) q). destruct (decide (q = p)) as [->|].
      * rewrite lookup_insert_eq. split; intros _; [by exists (set_segment s' n)|by exists n].
      * by rewrite lookup_insert_ne.
    + rewrite Ec in A. exact A.
  - rewrite Hw. unfold weight. rewrite last_lookup. replace (pred (length (all_blocks (s :: ps)))) with (Z.to_nat (a_previousBlockIndex a)) by lia. rewrite Hx. lia.
Qed.

(** *** A new leaf *)

Lemma new_view k ch : same_view ch (new_segment k :: ch).
Proof. split; simpl; [by rewrite app_nil_r|by rewrite app_nil_r|by rewrite (left_id_L ∅ (∪))|]. intros amount. by rewrite app_nil_r. Qed.

Lemma new_ledger ch : good ch -> ledger currency cn_fast_hash (new_segment (height ch) :: ch).
Proof.
  intros [L N]. eapply ledger_view; [apply new_view| |exact L]. split_and!; [|apply L|done]. pose proof (chain_bound _ (l_chain _ _ _ L)).
  split; simpl; try done; [lia|]. apply map_disjoint_empty_l.
Qed.

Lemma leaves_snoc c root W p n q (h' : heap) : forest c root W -> objects c !! p = Some n -> n_children n <> [] -> objects c !! q = None ->
  (forall r, r <> q -> r <> p -> h' !! r = objects c !! r) -> h' !! p = Some (set_children (n_children n ++ [q]) n) ->
  (exists m, h' !! q = Some m /\ n_children m = []) ->
  NoDup (chainsLeaves c ++ [q]) /\ forall r, r ∈ chainsLeaves c ++ [q] <-> exists m, h' !! r = Some m /\ n_children m = [].
Proof.
  intros F E Nl Q Ho Hp Hq. destruct (fo_leaves _ _ _ F) as [Nd Hl]. split.
  - apply NoDup_app. split_and!; [done| |apply NoDup_singleton]. intros r Hr ->%list_elem_of_singleton. apply Hl in Hr as (m & Em & _). congruence.
  - intros r. rewrite elem_of_app, list_elem_of_singleton, Hl. destruct (decide (r = q)) as [->|]; [split; [done|by right]|].
    destruct (decide (r = p)) as [->|].
    + rewrite Hp, E. split; [intros [(m & [= <-] & ?)|?]; done|]. intros (m & [= <-] & Z). simpl in Z. by destruct (n_children n).
    + rewrite Ho by done. split; [intros [?|?]; done|by left].
Qed.

Lemma fork_forest median c root W p n ids ch c0 b raw a c' : sane_currency currency -> forest c root W -> objects c !! p = Some n -> n_children n <> [] ->
  chain_at (objects c) p ids ch -> pushable median c0 b raw a ->
  all_blocks ch = take (S (Z.to_nat (a_previousBlockIndex a))) (all_blocks c0) ->
  (forall amount, (length (all_outputs ch amount) <= length (all_outputs c0 amount))%nat) ->
  (forall x d, all_blocks c0 !! Z.to_nat (a_previousBlockIndex a) = Some x ->
     next_difficulty currency (take (S (Z.to_nat (a_previousBlockIndex a))) (all_blocks c0)) = Ok d -> bi_cumulativeDifficulty x + d <= W) ->
  fork_at cn_fast_hash c p b raw a = Ok c' ->
  exists s', forest c' root W /\ chainsLeaves c' = chainsLeaves c ++ [next_ptr c] /\ mainChainSet c' = mainChainSet c /\ core_pool c' = core_pool c
    /\ (forall q ids ch, chain_at (objects c) q ids ch -> chain_at (objects c') q ids ch)
    /\ chain_at (objects c') (next_ptr c) (next_ptr c :: ids) (s' :: ch)
    /\ (exists info, info ∈ seg_blockInfos s' /\ getBlockHash cn_fast_hash b = Ok (bi_blockHash info)).
Proof.
  intros Sn F E Nl H Pb Eb Eo HW P. set (q := next_ptr c) in *. pose proof (next_free _ _ _ F) as Q. fold q in Q.
  destruct (fo_chains _ _ _ F _ _ _ H) as [G _]. destruct (previous_ok _ _ _ _ _ _ _ _ _ _ _ _ _ _ _ (l_chain _ _ _ (proj1 (pb_good _ _ _ _ _ Pb))) (pb_checked _ _ _ _ _ Pb)) as [Hi _].
  assert (Hh : height ch = u32 (a_previousBlockIndex a + 1)).
  { pose proof (rm_height _ _ _ (pb_room _ _ _ _ _ Pb)). rewrite wrap_small by width_solve. unfold height. rewrite Eb, length_take, Nat.min_l; unfold height in Hi; lia. }
  unfold fork_at in P. fold q in P. rewrite <- Hh in P.
  destruct (new_child_ok _ root p q n (height ch) (fo_tree _ _ _ F) E Q) as (h1 & E1 & T1 & K1 & Kq & Hq & Ho & Hp). rewrite E1 in P. cbn [mbind outcome_bind] in P.
  set (c1 := set_leaves _ (own_next h1 c)) in P. pose proof (Kq _ _ H) as H1. assert (Nqp : q <> p) by (intros Z; rewrite Z in Q; congruence).
  assert (A1 : forall r i x, r <> q -> chain_at (objects c1) r i x -> good x /\ weight x <= W).
  { intros r i x Nr Hr. assert (exists m, objects c !! r = Some m) as [m Em].
    { destruct (chain_at_head _ _ _ _ Hr) as (m & _ & _ & Em & _). simpl in Em. destruct (decide (r = p)) as [->|]; [eauto|]. rewrite Ho in Em by done. eauto. }
    apply (chain_back (objects c) _ root r m) in Hr; [|apply F|done|intros; by apply K1]. by eapply fo_chains. }
  destruct (push_at_ok median c1 root W q _ (q :: ids) (new_segment (height ch)) ch c0 b raw a c' Sn Pb T1 Hq eq_refl A1 H1 (new_ledger ch G)) as (s' & x & -> & T' & K & A & Hq' & Hx & Hw & Hd & info & Ei & Hinfo).
  { simpl. by rewrite app_nil_r. } { intros amount. simpl. rewrite app_nil_r. apply Eo. } { exact P. }
  exists s'. specialize (HW x _ Hx Hd). split_and!; try done.
  - split; simpl.
    + exact T'.
    + intros r. rewrite dom_insert_lookup_L by by rewrite Hq. intros (m & Em)%elem_of_dom. destruct (decide (r = q)) as [->|]; [lia|].
      enough (r < q)%nat by lia. apply (fo_fresh _ _ _ F), elem_of_dom. destruct (decide (r = p)) as [->|]; [eauto|]. rewrite Ho in Em by done. eauto.
    + destruct (fo_storage _ _ _ F) as [Nd Hs]. split.
      * apply NoDup_app. split_and!; [done| |apply NoDup_singleton]. intros r Hr ->%list_elem_of_singleton. apply Hs, elem_of_dom in Hr as [? ?]. unfold q in Q. congruence.
      * intros r. rewrite elem_of_app, list_elem_of_singleton, Hs, dom_insert_lookup_L, !elem_of_dom by by rewrite Hq. destruct (decide (r = q)) as [->|].
        { rewrite Hq. split; [eauto|by right]. } destruct (decide (r = p)) as [->|]; [rewrite Hp, E; split; eauto|]. rewrite Ho by done. unfold q in *. split; [intros [?|?]; done|by left].
    + eapply (leaves_snoc c root W p n q); try done.
      * intros r N1 N2. rewrite lookup_insert_ne by done. by apply Ho.
      * by rewrite lookup_insert_ne.
      * rewrite lookup_insert_eq. eexists. split; [reflexivity|done].
    + intros r i y Hr. destruct (A r i y Hr). split; [done|]. lia.
  - intros r i y Hr. apply K; [|by apply K1]. intros ->. destruct (chain_at_head _ _ _ _ Hr) as (? & ? & ? & ? & _). congruence.
  - exists info. split; [|done]. rewrite Ei. simpl. by left.
Qed.

Lemma leaf_of_main c root W p l : forest c root W -> chainsLeaves c = p :: l -> exists n, objects c !! p = Some n /\ n_children n = [].
Proof. intros F El. apply (fo_leaves _ _ _ F). rewrite El. by left. Qed.

(** *** Splitting a segment *)

Section split_core.
Context (c : Core) (root : ptr) (W : Z) (p : ptr) (n : Node) (ids : list ptr) (ps : Cache) (k : Z).
Context (F : forest c root W) (E : objects c !! p = Some n) (H : chain_at (objects c) p ids (n_segment n :: ps)).
Context (Hk : seg_startIndex (n_segment n) < k < seg_startIndex (n_segment n) + Z.of_nat (length (seg_blockInfos (n_segment n)))).
Abbreviation u := (next_ptr c).

(** The leaf that was split is replaced by its upper part. *)
Definition split_leaves (leaves : list ptr) : Prop :=
  (n_children n = [] /\ exists i, chainsLeaves c !! i = Some p /\ leaves = <[i := u]> (chainsLeaves c))
  \/ (n_children n <> [] /\ leaves = chainsLeaves c).

Lemma split_leaves_ok (h : heap) leaves up low : split_leaves leaves ->
  h !! u = Some {| n_segment := up; n_parent := Some p; n_children := n_children n |} ->
  h !! p = Some {| n_segment := low; n_parent := n_parent n; n_children := [u] |} ->
  (forall q, q <> u -> q <> p -> h !! q = if decide (q ∈ n_children n) then set_parent (Some u) <$> objects c !! q else objects c !! q) ->
  NoDup leaves /\ forall q, q ∈ leaves <-> exists m, h !! q = Some m /\ n_children m = [].
Proof using E F.
  clear - E F. intros Hl Hu Hp Ho. destruct (fo_leaves _ _ _ F) as [Nd Ll]. pose proof (next_free _ _ _ F) as U.
  assert (Nu : u ∉ chainsLeaves c) by (rewrite Ll; intros (m & Em & _); congruence). assert (Nup : u <> p) by (intros Z; rewrite Z in U; congruence).
  assert (Rest : forall q, q <> u -> q <> p -> (exists m, h !! q = Some m /\ n_children m = []) <-> q ∈ chainsLeaves c).
  { intros q N1 N2. rewrite Ll, Ho by done. case_decide; [|done]. split.
    - intros (m & (m0 & Em & ->)%fmap_Some & Lm). eauto.
    - intros (m & Em & Lm). rewrite Em. simpl. by exists (set_parent (Some u) m). }
  assert (Np : ~ exists m, h !! p = Some m /\ n_children m = []) by (rewrite Hp; intros (m & [= <-] & ?); done).
  destruct Hl as [(Lf & i & Hi & ->)|[Nl ->]].
  - destruct (replace_leaf _ i p u Nd Hi Nu) as [Nd' El]. split; [done|]. intros q. rewrite El. destruct (decide (q = u)) as [->|N1].
    + rewrite Hu, Lf. split; [eauto|by left].
    + destruct (decide (q = p)) as [->|N2]; [naive_solver|]. rewrite (Rest q N1 N2). naive_solver.
  - split; [done|]. intros q. destruct (decide (q = u)) as [->|N1].
    + rewrite Hu. split; [done|]. intros (m & [= <-] & ?). done.
    + destruct (decide (q = p)) as [->|N2]; [|by rewrite (Rest q N1 N2)]. rewrite Ll, E. split; [intros (m & [= <-] & ?); done|done].
Qed.

Lemma split_forest h leaves : split_node p u k (objects c) = Ok h -> split_leaves leaves ->
  let c1 := set_leaves leaves (own_next h c) in
  forest c1 root W /\ (main_at c W -> main_at c1 W)
  /\ exists l, chain_at h p ids (l :: ps) /\ h !! p = Some {| n_segment := l; n_parent := n_parent n; n_children := [u] |}
     /\ all_blocks (l :: ps) = take (Z.to_nat k) (all_blocks (n_segment n :: ps))
     /\ (forall amount, (length (all_outputs (l :: ps) amount) <= length (all_outputs (n_segment n :: ps) amount))%nat).
Proof using E F H Hk.
  clear - E F H Hk. intros P Hl c1. pose proof (next_free _ _ _ F) as U. destruct (fo_chains _ _ _ F _ _ _ H) as [[L N] HW].
  destruct (split_ledger currency cn_fast_hash ps (n_segment n) k L Hk) as (up & l & Es & V & Lu & Ll & Nu & Nl & Hh & Eb & Eo).
  destruct (split_node_ok (objects c) root p u n up l k (fo_tree _ _ _ F) E U Es) as (h' & P' & Hu & Hp & Ho). rewrite P in P'. apply Ok_inj in P' as <-.
  pose proof (split_tree_ok (objects c) root p u n up l (fo_tree _ _ _ F) E U h Hu Hp Ho) as T1.
  pose proof (split_low (objects c) root p u n l (fo_tree _ _ _ F) E U h Hp Ho _ _ H) as H1.
  pose proof (split_upp (objects c) root p u n up l (fo_tree _ _ _ F) E U h Hu Hp Ho _ _ H) as H2.
  assert (A : forall q i ch, q <> p -> chain_at (objects c) q i ch -> exists i' ch', chain_at h q i' ch' /\ same_view ch ch' /\ good ch').
  { intros q i ch Nq Hq. destruct (fo_chains _ _ _ F _ _ _ Hq) as [[Lq Nq'] _]. destruct (decide (p ∈ i)) as [Hin|Hin].
    - destruct (split_above (objects c) root p u n up l (fo_tree _ _ _ F) E U h Hu Hp Ho q i ch Hq Nq Hin) as (i1 & i2 & c1' & c2 & -> & -> & Hp2 & Hq').
      destruct (chain_at_det _ _ _ _ _ _ H Hp2) as [_ [= <-]]. eexists _, _. split; [exact Hq'|]. split; [by rewrite V|].
      apply Forall_app in Nq' as [Nq1 _]. inv N. assert (nonempty (up :: l :: ps)) by (by repeat constructor). split; [|by apply Forall_app].
      eapply ledger_above; [exact V|exact Lq|apply Lu|done].
    - exists i, ch. split; [by apply (split_off (objects c) root p u n (fo_tree _ _ _ F) E U h Ho)|]. split; [done|by split]. }
  assert (Nup : u <> p) by (intros Z; rewrite Z in U; congruence).
  assert (Dom : forall q, q ∈ dom h <-> q = u \/ q ∈ dom (objects c)).
  { intros q. rewrite !elem_of_dom. destruct (decide (q = u)) as [->|N1]; [rewrite Hu; split; [by left|eauto]|].
    destruct (decide (q = p)) as [->|N2]; [rewrite Hp, E; split; [by right|eauto]|]. rewrite Ho by done. case_decide; rewrite ?fmap_is_Some; naive_solver. }
  split_and!.
  - split; simpl.
    + exact T1.
    + intros q [->|Hq]%Dom; [lia|]. apply (fo_fresh _ _ _ F) in Hq. lia.
    + destruct (fo_storage _ _ _ F) as [Nd Hs]. split.
      * apply NoDup_app. split_and!; [done| |apply NoDup_singleton]. intros r Hr ->%list_elem_of_singleton. apply Hs, elem_of_dom in Hr as [? ?]. congruence.
      * intros r. rewrite elem_of_app, list_elem_of_singleton, Hs, Dom. tauto.
    + by eapply split_leaves_ok.
    + intros q i ch Hq. destruct (decide (q = u)) as [->|N1].
      { destruct (chain_at_det _ _ _ _ _ _ Hq H2) as [-> ->]. inv N. split; [split; [done|by repeat constructor]|by rewrite <- V]. }
      destruct (decide (q = p)) as [->|N2].
      { destruct (chain_at_det _ _ _ _ _ _ Hq H1) as [-> ->]. inv N. split; [split; [done|by repeat constructor]|]. unfold weight at 1.
        destruct (last (all_blocks (l :: ps))) as [x|] eqn:Ex; [|apply last_None in Ex; simpl in Ex; apply app_nil in Ex as [_ ?]; done].
        rewrite Eb, last_lookup in Ex. apply lookup_take_Some in Ex as [Ex _]. pose proof (work_top _ _ _ L Ex). lia. }
      assert (exists m, objects c !! q = Some m) as [m Em].
      { destruct (chain_at_head _ _ _ _ Hq) as (m & _ & _ & Em & _). apply elem_of_dom_2, Dom in Em as [?|Em]; [done|]. by apply elem_of_dom in Em. }
      destruct (t_path _ _ (fo_tree _ _ _ F) q m Em) as (i0 & ch0 & H0 & _). destruct (A q i0 ch0 N2 H0) as (i' & ch' & H' & Vq & G).
      destruct (chain_at_det _ _ _ _ _ _ Hq H') as [-> ->]. split; [done|]. rewrite <- Vq. by eapply fo_chains.
  - intros (m & l0 & i0 & ch0 & El & H0 & Hw). destruct (decide (m = p)) as [->|Nm].
    + destruct (chain_at_det _ _ _ _ _ _ H0 H) as [-> ->]. destruct (leaf_of_main c root W p l0 F El) as (n' & E' & Lf). rewrite E in E'. injection E' as <-.
      destruct Hl as [(_ & i & Hi & ->)|[Nlf ->]]; [|done]. assert (i = 0%nat) as -> by (eapply NoDup_lookup; [apply (fo_leaves _ _ _ F)|exact Hi|by rewrite El]).
      exists u, l0, (u :: ids), (up :: l :: ps). split_and!; [unfold c1; simpl; by rewrite El|done|]. by rewrite <- V.
    + destruct (A m i0 ch0 Nm H0) as (i' & ch' & H' & Vq & _). assert (exists l', leaves = m :: l') as [l' El'].
      { destruct Hl as [(_ & i & Hi & ->)|[Nlf ->]]; [|eauto]. rewrite El. destruct i; [rewrite El in Hi; simpl in Hi; congruence|]. simpl. eauto. }
      exists m, l', i', ch'. split_and!; [done|done|]. by rewrite <- Vq.
  - exists l. by split_and!.
Qed.
End split_core.

End inv.
