(* ===== verification/CorePool.v ===== *)
(** * CorePool: the pool handlers of [Core.v]

    Adding a transaction, cleaning after a block, and copying the transactions of an
    abandoned chain back: they touch nothing but the pool, the median size and the
    messages, and keep the pool consistent. *)

From Stdlib Require Import ZArith Lia.
From stdpp Require Import base tactics list numbers strings gmap fin_maps fin_sets sorting relations.
From S2P Require Import Prelude Config Difficulty Types Serializer TxSerialization TransactionExtra BlockSerialization FormatUtils Currency Checkpoints ThreadPool Validate Pool BlockchainCache CacheChain ShuffleGenerator CacheQueries BlockValidation SegmentTree Ledger Core CoreInvariant.

Local Open Scope Z_scope.

(** Everything but the pool, the median and the messages. *)
Record same_tree (c c' : Core) : Prop := {
  st_objects : objects c' = objects c;
  st_next : next_ptr c' = next_ptr c;
  st_storage : chainsStorage c' = chainsStorage c;
  st_leaves : chainsLeaves c' = chainsLeaves c;
  st_main : mainChainSet c' = mainChainSet c;
  st_init : initialized c' = initialized c }.

#[global] Instance same_tree_equivalence : Equivalence same_tree.
Proof.
  split.
  - by intros c.
  - intros c c' [S1 S2 S3 S4 S5 S6]. by split.
  - intros c c' c'' [S1 S2 S3 S4 S5 S6] [T1 T2 T3 T4 T5 T6]. split; congruence.
Qed.

(** A change of the pool that keeps it consistent. *)
Definition pool_change (cn_fast_hash : bytes -> Hash) (c c' : Core) : Prop :=
  same_tree c c' /\ (pool_inv cn_fast_hash (transactionPool (core_pool c)) -> pool_inv cn_fast_hash (transactionPool (core_pool c'))).
#[global] Instance pool_change_preorder cn_fast_hash : PreOrder (pool_change cn_fast_hash).
Proof.
  split; [by intros c|]. intros c c' c'' [S P] [S' P']. split; [by etrans|auto].
Qed.

Lemma fold_change cn_fast_hash {A} (f : Core -> A -> outcome Core) l : (forall c a c', a ∈ l -> f c a = Ok c' -> pool_change cn_fast_hash c c') ->
  forall c c', foldM f c l = Ok c' -> pool_change cn_fast_hash c c'.
Proof.
  induction l as [|a l IH]; intros Hf c c' H; cbn [foldM] in H; [apply Ok_inj in H as ->; done|].
  apply bind_ok in H as (c1 & H1 & H). etrans; [eapply Hf; [by left|done]|]. eapply IH; [|done]. intros. eapply Hf; [by right|done].
Qed.

Section pool.
Context (currency : Currency) (checkpoints : points).
Context (scalarmultKey : KeyImage -> KeyImage -> KeyImage) (check_key : PublicKey -> bool).
Context (cn_fast_hash cn_turtle_lite_slow_hash_v2 : bytes -> Hash).
Context (checkRingSignature : Hash -> KeyImage -> list PublicKey -> list Signature -> bool).
Context (algorithm : Z -> option (bytes -> Hash)) (genesisBlockHash : Hash) (threadCount : nat) (now : Z).

Abbreviation VALID_FOR_POOL := (isTransactionValidForPool currency checkpoints scalarmultKey check_key cn_fast_hash cn_turtle_lite_slow_hash_v2 checkRingSignature threadCount now).
Abbreviation ADD_CACHED := (addCachedTransactionToPool currency checkpoints scalarmultKey check_key cn_fast_hash cn_turtle_lite_slow_hash_v2 checkRingSignature threadCount now).
Abbreviation ADD_TX := (addTransactionToPool currency checkpoints scalarmultKey check_key cn_fast_hash cn_turtle_lite_slow_hash_v2 checkRingSignature threadCount now).
Abbreviation COPY := (copyTransactionsToPool currency checkpoints scalarmultKey check_key cn_fast_hash cn_turtle_lite_slow_hash_v2 checkRingSignature threadCount now).

Lemma median_change c c' : updateBlockMedianSize currency c = Ok c' -> same_tree c c' /\ core_pool c' = core_pool c.
Proof.
  intros H. unfold updateBlockMedianSize in H. apply bind_ok in H as (m & _ & H). apply bind_ok in H as (top & _ & H). apply bind_ok in H as (sizes & _ & H).
  by apply Ok_inj in H as <-.
Qed.

Lemma remove_change h c c' : remove_from_pool h c = Ok c' -> pool_change cn_fast_hash c c'.
Proof.
  intros H. unfold remove_from_pool in H. apply bind_ok in H as ([r p] & H1 & H). apply Ok_inj in H as <-. split; [done|]. simpl. intros I.
  destruct (remove_ok _ h _ I) as (r' & p' & E & I' & _). rewrite H1 in E. by apply Ok_inj in E as [= _ ->].
Qed.

Lemma check_change state c c' : checkAndRemoveInvalidPoolTransactions currency state c = Ok c' -> pool_change cn_fast_hash c c'.
Proof.
  intros H. unfold checkAndRemoveInvalidPoolTransactions in H. apply bind_ok in H as (max & _ & H). eapply fold_change; [|exact H].
  intros c1 h c2 _ H1. unfold check_pool_tx in H1. destruct (tryGetTransaction _ _) as [tx|]; [|by apply Ok_inj in H1 as ->].
  apply bind_ok in H1 as (b & _ & H1). destruct b; [by eapply remove_change|by apply Ok_inj in H1 as ->].
Qed.

(** A transaction that came as bytes and passed the validator can be pushed. *)
Lemma accepted_push `{cache : !IBlockchainCache} blob t v st : is_bytes blob -> fromBinaryArray_opt serialize_Transaction new_Transaction blob = Ok (Some t) ->
  m_cachedTransaction v = CachedTransaction_of t -> accepts scalarmultKey check_key cn_fast_hash cn_turtle_lite_slow_hash_v2 checkRingSignature v ∅ ->
  st = list_to_set (images v) ∪ ∅ -> good_push (CachedTransaction_of t) st.
Proof.
  intros Hb E Ev ([Sz (ins & Ei & _ & Nd & _) _ _ _ _] & _ & _) ->. unfold fromBinaryArray_opt, try_catch in E.
  destruct (fromBinaryArray _ _ blob) as [t'| |] eqn:D; try done. apply Ok_inj in E as [= ->].
  destruct (whole_canonical unsigned valid_tx serialize_Transaction new_Transaction blob t eq_refl Hb D) as [V Ser].
  destruct Sz as (blob' & Eb & Hl). rewrite Ev in Eb. unfold images, m_transaction in *. rewrite Ev in *. cbn [getTransaction CachedTransaction_of] in *.
  assert (blob' = blob) as -> by (unfold getTransactionBinaryArray in Eb; simpl in Eb; congruence).
  assert (Im : omap image (inputs (tx_prefix t)) = keyImage <$> ins) by (rewrite Ei; clear; induction ins as [|i ins IH]; [done|]; simpl; f_equal; apply IH).
  split; simpl.
  - exists blob. split_and!; [done| |pose proof (wrap_range 64 (m_blockSizeMedian v * 2 - m_minerTxBlobReservedSize (m_currency v)) ltac:(lia)); width_solve|done].
    destruct blob; [vm_compute in D; done|simpl; lia].
  - apply V.
  - by exists ins.
  - by rewrite Im.
  - by rewrite (right_id_L ∅ (∪)).
Qed.

Lemma valid_for_pool_push c blob t sched st : is_bytes blob -> fromBinaryArray_opt serialize_Transaction new_Transaction blob = Ok (Some t) ->
  VALID_FOR_POOL c (CachedTransaction_of t) sched = Ok (inr st) -> good_push (CachedTransaction_of t) st.
Proof.
  intros Hb E H. unfold isTransactionValidForPool in H. destruct (_ && _); [done|]. apply bind_ok in H as (m & _ & H).
  apply bind_ok in H as (top & _ & H). apply bind_ok in H as (ts & _ & H). apply bind_ok in H as (lt & _ & H). apply bind_ok in H as (tp & _ & H).
  apply bind_ok in H as ([[fee e] st'] & H1 & H). unfold Core_validateTransaction in H1. apply bind_ok in H1 as ([r st''] & H1 & H2).
  apply Ok_inj in H2 as [= <- <- <-]. set (v := Build_ValidateTransaction _ _ _ _ _ _) in H1. destruct (is_set _) eqn:Es; [done|].
  apply Ok_inj in H as [= <-]. assert (wf_amounts (tx_prefix (m_transaction v))) as W.
  { unfold fromBinaryArray_opt, try_catch in E. destruct (fromBinaryArray _ _ blob) as [t'| |] eqn:D; try done. apply Ok_inj in E as [= ->].
    apply (valid_amounts v). by destruct (whole_canonical unsigned valid_tx serialize_Transaction new_Transaction blob t eq_refl Hb D). }
  destruct (validate_ok _ _ _ _ _ _ _ _ _ _ _ W H1) as [(_ & _ & _ & Est & A)|(_ & (e & Ee & Ne) & _)].
  - exact (accepted_push blob t v _ Hb E eq_refl A Est).
  - rewrite Ee in Es. by destruct e.
Qed.

Lemma wrapper_push_inv c st w b w' : good_push c st -> pool_inv cn_fast_hash (transactionPool w) -> wrapper_pushTransaction cn_fast_hash now c st w = Ok (b, w') ->
  pool_inv cn_fast_hash (transactionPool w').
Proof.
  intros G I H. unfold wrapper_pushTransaction in H. apply bind_ok in H as (h & _ & H). destruct (isTransactionRecentlyDeleted _ _); [by apply Ok_inj in H as [= _ <-]|].
  apply bind_ok in H as ([b' p] & H1 & H). apply Ok_inj in H as [= _ <-]. simpl. destruct (pool_push_ok cn_fast_hash now c st _ I G) as (b0 & p' & E & I' & _).
  rewrite H1 in E. by apply Ok_inj in E as [= _ ->].
Qed.

Lemma add_tx_change c blob sched e c' : is_bytes blob -> ADD_TX c blob sched = Ok (e, c') -> pool_change cn_fast_hash c c'.
Proof.
  intros Hb H. unfold addTransactionToPool in H. apply bind_ok in H as (_ & _ & H). apply bind_ok in H as (r & Hr & H).
  destruct r as [t|]; [|by apply Ok_inj in H as [= _ ->]]. apply bind_ok in H as (h & _ & H). apply bind_ok in H as ([e1 c1] & H1 & H).
  assert (P : pool_change cn_fast_hash c c1).
  { unfold addCachedTransactionToPool in H1. apply bind_ok in H1 as (h1 & _ & H1). destruct (checkIfTransactionPresent _ _); [by apply Ok_inj in H1 as [= _ ->]|].
    apply bind_ok in H1 as (rr & Hv & H1). destruct rr as [er|st]; [by apply Ok_inj in H1 as [= _ ->]|]. apply bind_ok in H1 as ([pushed w] & Hw & H1).
    assert (c1 = set_pool w c) as -> by (destruct pushed; by apply Ok_inj in H1 as [= _ <-]). split; [done|]. intros I. simpl.
    eapply wrapper_push_inv; [by eapply valid_for_pool_push|exact I|exact Hw]. }
  destruct e1; apply Ok_inj in H as [= _ <-]; [done|]. etrans; [exact P|]. done.
Qed.

(** *** Copying back *)

Lemma storage_elem s i r : storage_getBlockByIndex s i = Ok r -> r ∈ seg_storage s.
Proof.
  intros H. unfold storage_getBlockByIndex in H. destruct (_ <=? _); [done|]. destruct (seg_storage s !! Z.to_nat i) as [x|] eqn:E; [|done].
  apply Ok_inj in H as ->. by eapply list_elem_of_lookup_2.
Qed.

Lemma tx_bytes t blob : valid_tx t -> toBinaryArray serialize_Transaction t = Ok blob -> is_bytes blob.
Proof.
  intros V E. destruct (whole_roundtrip unsigned valid_tx serialize_Transaction new_Transaction t eq_refl V) as (o & B & E' & _).
  rewrite E in E'. by apply Ok_inj in E' as ->.
Qed.

Lemma raw_transaction_bytes ch i ti blob : Forall (fun r => is_bytes (block r) /\ Forall is_bytes (transactions r)) (all_raw ch) ->
  cache_getRawTransaction cn_fast_hash ch i ti = Ok blob -> is_bytes blob.
Proof.
  induction ch as [|s ps IH]; intros F H; [done|]. cbn [cache_getRawTransaction] in H. simpl in F. apply Forall_app in F as [Fp Fs].
  destruct (_ <? _); [by apply IH|]. apply bind_ok in H as (r & Hr & H). apply storage_elem in Hr. rewrite Forall_forall in Fs. destruct (Fs r Hr) as [Bb Bt].
  destruct (_ =? _).
  - apply bind_ok in H as (b & Hb & H). eapply tx_bytes; [|exact H]. by eapply block_base_valid.
  - apply bind_ok in H as (_ & _ & H). destruct (transactions r !! _) as [x|] eqn:E; [|done]. apply Ok_inj in H as ->. exact (Forall_lookup_1 _ _ _ _ Bt E).
Qed.

Lemma raw_transactions_bytes ch hs : forall txs misses, Forall (fun r => is_bytes (block r) /\ Forall is_bytes (transactions r)) (all_raw ch) ->
  cache_getRawTransactions cn_fast_hash ch hs = Ok (txs, misses) -> Forall is_bytes txs.
Proof.
  induction hs as [|h hs IH]; intros txs misses F H; cbn [cache_getRawTransactions] in H; [by apply Ok_inj in H as [= <- _]|].
  destruct ch as [|s ps]; [done|]. destruct (find_by_hash s h) as [t|].
  - apply bind_ok in H as (raw & Hr & H). apply bind_ok in H as ([found missed] & Hf & H). apply Ok_inj in H as [= <- _].
    constructor; [by eapply raw_transaction_bytes|by eapply IH].
  - apply bind_ok in H as ([found missed] & Hf & H). apply Ok_inj in H as [= <- _]. by eapply IH.
Qed.

Definition raw_bytes (h : heap) : Prop := forall p ids ch, chain_at h p ids ch ->
  Forall (fun r => is_bytes (block r) /\ Forall is_bytes (transactions r)) (all_raw ch).

Lemma cache_at_inv fuel h p ch : cache_from fuel h p = Ok ch -> exists ids, chain_at h p ids ch.
Proof.
  revert p ch. induction fuel as [|fuel IH]; intros p ch H; [done|]. cbn [cache_from] in H. apply bind_ok in H as (n & Hn & H).
  unfold node in Hn. destruct (h !! p) as [n'|] eqn:E; [|done]. apply Ok_inj in Hn as ->. destruct (n_parent n) as [q|] eqn:P.
  - apply bind_ok in H as (c & Hc & H). apply Ok_inj in H as <-. destruct (IH _ _ Hc) as [ids Hi]. exists (p :: ids). by econstructor.
  - apply Ok_inj in H as <-. exists [p]. by constructor.
Qed.

Lemma copy_change scheds fuel : forall c p c', raw_bytes (objects c) ->
  copy_up currency checkpoints scalarmultKey check_key cn_fast_hash cn_turtle_lite_slow_hash_v2 checkRingSignature threadCount now fuel c p scheds = Ok c' ->
  pool_change cn_fast_hash c c'.
Proof.
  induction fuel as [|fuel IH]; intros c p c' R H; [done|]. cbn [copy_up] in H. destruct (bool_decide _); [by apply Ok_inj in H as ->|].
  apply bind_ok in H as (ch & Hch & H). apply bind_ok in H as (c1 & H1 & H). apply cache_at_inv in Hch as [ids Hch].
  assert (P : pool_change cn_fast_hash c c1).
  { unfold readd_segment in H1. destruct ch as [|s ps]; [done|]. apply bind_ok in H1 as ([txs misses] & Ht & H1). apply bind_ok in H1 as (_ & _ & H1).
    pose proof (raw_transactions_bytes _ _ _ _ (R _ _ _ Hch) Ht) as B. eapply fold_change; [|exact H1]. intros c2 [i t] c3 Hin H2.
    apply bind_ok in H2 as ([e c4] & H2 & H3). apply Ok_inj in H3 as <-. eapply add_tx_change; [|exact H2]. simpl.
    apply elem_of_lookup_imap in Hin as (j & x & [= -> ->] & Hx). exact (Forall_lookup_1 _ _ _ _ B Hx). }
  apply bind_ok in H as (n & _ & H). destruct (n_parent n) as [q|]; [|by apply Ok_inj in H as <-]. etrans; [exact P|]. eapply IH; [|exact H].
  by rewrite (st_objects _ _ (proj1 P)).
Qed.

End pool.
