(* ===== verification/CoreSafety.v ===== *)
(** * CoreSafety: adding a block keeps the invariant of [CoreInvariant.v]

    One lemma per branch of [Core::addBlock], the handlers, and the states that can be
    reached from the genesis block. *)

From Stdlib Require Import ZArith Lia.
From stdpp Require Import base tactics list numbers strings gmap fin_maps fin_sets sorting relations.
From S2P Require Import Prelude Config Difficulty Types Serializer TxSerialization TransactionExtra BlockSerialization FormatUtils Currency Checkpoints ThreadPool Validate Pool BlockchainCache CacheChain ShuffleGenerator CacheQueries BlockValidation SegmentTree Ledger Core CoreInvariant CorePool.

Local Open Scope Z_scope.

(** Swapping the first leaf with another. *)
Lemma swap_leaves_perm i l : swap_leaves i l ≡ₚ l.
Proof.
  unfold swap_leaves. destruct l as [|x l]; [by destruct i|]. destruct i as [|i]; [done|]. cbn [lookup list_lookup].
  change ((x :: l) !! S i) with (l !! i). destruct (l !! i) as [y|] eqn:E; [|done]. simpl. rewrite <- (take_drop_middle l i y E) at 2.
  rewrite insert_take_drop by by eapply lookup_lt_Some. rewrite <- !Permutation_middle. constructor.
Qed.
Lemma swap_leaves_head i l y : l !! i = Some y -> exists l', swap_leaves i l = y :: l'.
Proof.
  intros E. unfold swap_leaves. rewrite E. destruct l as [|x l]; [done|]. destruct i as [|i]; [injection E as ->|]; simpl; eauto.
Qed.

(** The codes for a block that was added. *)
Definition added (e : error_code) : Prop :=
  e = AddBlock ADDED_TO_MAIN \/ e = AddBlock ADDED_TO_ALTERNATIVE \/ e = AddBlock ADDED_TO_ALTERNATIVE_AND_SWITCHED.
#[global] Instance added_dec e : Decision (added e).
Proof. unfold added. apply _. Defined.

(** No check answers that the block was added. *)
Definition refusal {A} (r : result A) : Prop := forall e, r = Ok (inl e) -> ~ added e.

Lemma refusal_ret {A} (x : A) : refusal (rret x). Proof. by intros e. Qed.
Lemma refusal_lift {A} (o : outcome A) : refusal (lift o). Proof. intros e. by destruct o. Qed.
Lemma refusal_block {A} e : refusal (@reject A (BlockError e)). Proof. intros ? [= <-] [|[|]]; done. Qed.
Lemma refusal_tx {A} e : refusal (@reject A (TransactionError e)). Proof. intros ? [= <-] [|[|]]; done. Qed.
Lemma refusal_if_block bad e : refusal (refuse_if bad (BlockError e)). Proof. destruct bad; [apply refusal_block|apply refusal_ret]. Qed.
Lemma refusal_if_tx bad e : refusal (refuse_if bad (TransactionError e)). Proof. destruct bad; [apply refusal_tx|apply refusal_ret]. Qed.
Lemma refusal_bind {A B} (r : result A) (f : A -> result B) : refusal r -> (forall x, refusal (f x)) -> refusal (rbind r f).
Proof. intros R F e. destruct r as [[e'|x]| |]; simpl; [|apply F|done|done]. intros [= <-]. by apply R. Qed.
Create HintDb refuse.
#[export] Hint Resolve refusal_ret refusal_lift refusal_block refusal_tx refusal_if_block refusal_if_tx refusal_bind : refuse.
(** Follow the checks of a handler one after the other. *)
Ltac refuses := repeat first [apply refusal_bind; [|intros ?] | apply refusal_ret | apply refusal_lift | apply refusal_if_block | apply refusal_if_tx
  | apply refusal_block | apply refusal_tx | case_match]; auto with refuse.

Lemma of_result_refused {A} (r : result A) k e oh : refusal r -> of_result r k = Ok (inl (e, oh)) -> (~ added e) \/ exists x, k x = Ok (inl (e, oh)).
Proof. intros R. destruct r as [[e'|x]| |]; simpl; [|eauto|done|done]. intros [= <- <-]. left. by apply R. Qed.

(** [initialized] is set once. *)
Lemma init_median currency c c' : updateBlockMedianSize currency c = Ok c' -> initialized c' = initialized c.
Proof. intros R. exact (st_init _ _ (proj1 (median_change _ _ _ R))). Qed.
Lemma init_main c c' : updateMainChainSet c = Ok c' -> initialized c' = initialized c.
Proof. intros R. unfold updateMainChainSet in R. apply bind_ok in R as (p & _ & R). apply bind_ok in R as (i & _ & R). by apply Ok_inj in R as <-. Qed.
Lemma init_push h c p b raw a c' : push_at h c p b raw a = Ok c' -> initialized c' = initialized c.
Proof.
  intros R. unfold push_at in R. apply bind_ok in R as (x & _ & R). apply bind_ok in R as (y & _ & R). destruct y as [|s y]; [done|].
  apply bind_ok in R as (z & _ & R). by apply Ok_inj in R as <-.
Qed.
Lemma init_fork h c p b raw a c' : fork_at h c p b raw a = Ok c' -> initialized c' = initialized c.
Proof. intros R. unfold fork_at in R. apply bind_ok in R as (x & _ & R). by apply init_push in R. Qed.

Section safety.
Context (currency : Currency) (checkpoints : points).
Context (scalarmultKey : KeyImage -> KeyImage -> KeyImage) (check_key : PublicKey -> bool).
Context (cn_fast_hash cn_turtle_lite_slow_hash_v2 : bytes -> Hash).
Context (checkRingSignature : Hash -> KeyImage -> list PublicKey -> list Signature -> bool).
Context (algorithm : Z -> option (bytes -> Hash)) (genesisBlockHash : Hash) (threadCount : nat) (now : Z).

Abbreviation FOREST := (forest currency cn_fast_hash).
Abbreviation INV := (core_inv currency cn_fast_hash).
Abbreviation PUSHABLE := (pushable currency checkpoints scalarmultKey check_key cn_fast_hash cn_turtle_lite_slow_hash_v2
  checkRingSignature algorithm genesisBlockHash now).
Abbreviation EXTEND := (extend_chain currency checkpoints scalarmultKey check_key cn_fast_hash cn_turtle_lite_slow_hash_v2 checkRingSignature threadCount now).

Lemma forest_same c c' root W : same_tree c c' -> FOREST c root W -> FOREST c' root W.
Proof. intros [S1 S2 S3 S4 S5 S6] [F1 F2 F3 F4 F5]. split; rewrite ?S1, ?S2, ?S3, ?S4; done. Qed.
Lemma main_at_same c c' W : same_tree c c' -> main_at c W -> main_at c' W.
Proof. intros [S1 S2 S3 S4 S5 S6] (m & l & i & ch & E & H & Hw). exists m, l, i, ch. by rewrite S1, S4. Qed.
Lemma main_set_same c c' : same_tree c c' -> main_set c -> main_set c'.
Proof. intros [S1 S2 S3 S4 S5 S6] (m & l & i & ch & E & H & Hw). exists m, l, i, ch. by rewrite S1, S4, S5. Qed.

Lemma inv_change c c' root : pool_change cn_fast_hash c c' -> INV c root -> INV c' root.
Proof.
  intros [S P] [(W & F & M) Ms I N]. split; [exists W; split; [by eapply forest_same|by eapply main_at_same]|by eapply main_set_same|auto|by rewrite (st_init _ _ S)].
Qed.

Lemma update_main c c' root W : FOREST c root W -> main_at c W -> updateMainChainSet c = Ok c' ->
  FOREST c' root W /\ main_at c' W /\ main_set c' /\ core_pool c' = core_pool c /\ objects c' = objects c /\ chainsLeaves c' = chainsLeaves c.
Proof.
  intros F (m & l & i & ch & E & H & Hw) U. unfold updateMainChainSet, main_leaf in U. rewrite E in U. cbn [head mbind outcome_bind from_option] in U.
  rewrite (ids_at_ok _ _ _ _ H) in U. cbn [mbind outcome_bind] in U. apply Ok_inj in U as <-. destruct F as [F1 F2 F3 F4 F5].
  split_and!; try done; [by exists m, l, i, ch|by exists m, l, i, ch].
Qed.

Lemma forest_bytes c root W : FOREST c root W -> raw_bytes (objects c).
Proof. intros F p i ch H. destruct (fo_chains _ _ _ _ _ F _ _ _ H) as [[L _] _]. apply (f_bytes _ _ _ _ (l_flat _ _ _ L)). Qed.

(** The state after the tree has been put in order. *)
Lemma inv_of c root W : FOREST c root W -> main_at c W -> main_set c -> pool_inv cn_fast_hash (transactionPool (core_pool c)) -> initialized c = true -> INV c root.
Proof. intros F M S P N. split; [by exists W|done|done|done]. Qed.

Section branches.
Context (median : Z) (c : Core) (root : ptr) (p : ptr) (n : Node) (ids : list ptr) (ps : Cache) (b : BlockTemplate) (raw : RawBlock) (a : Accepted).
Context (Sn : sane_currency currency) (I : INV c root) (E : objects c !! p = Some n) (H : chain_at (objects c) p ids (n_segment n :: ps)).
Context (Pb : PUSHABLE median (n_segment n :: ps) b raw a).

(** The block is now in the tree. *)
Definition block_in (c' : Core) : Prop := exists q i s ch info, chain_at (objects c') q i (s :: ch) /\ q ∈ chainsLeaves c'
  /\ info ∈ seg_blockInfos s /\ getBlockHash cn_fast_hash b = Ok (bi_blockHash info).

Lemma add_to_main_ok ret c' : n_children n = [] -> a_previousBlockIndex a = height (n_segment n :: ps) - 1 -> (exists l, chainsLeaves c = p :: l) ->
  add_to_main currency cn_fast_hash c p b raw a = Ok (ret, c') -> INV c' root /\ block_in c'.
Proof.
  intros Lf Hi [l El] R. destruct I as [(W & F & m & l' & im & chm & Em & Hm & HW) Ms Pi Ni]. rewrite El in Em. injection Em as <- <-.
  destruct (chain_at_det _ _ _ _ _ _ Hm H) as [-> ->]. unfold add_to_main in R. apply bind_ok in R as (c1 & R1 & R).
  destruct (push_forest _ _ _ _ _ _ _ _ _ _ median c root W p n ids (n_segment n) ps b raw a c1 Sn F E Lf H Pb Hi R1) as (s' & E1 & F1 & K & Hp & Hw & info & Ei & Hh).
  apply bind_ok in R as (c2 & R2 & R). apply bind_ok in R as (c3 & R3 & R). apply Ok_inj in R as [= _ <-].
  destruct (median_change _ _ _ R2) as [S2 P2]. pose proof (check_change _ cn_fast_hash _ _ _ R3) as P3. rewrite Z.max_r in F1 by lia.
  assert (M1 : main_at c1 (weight (s' :: ps))) by (exists p, l, ids, (s' :: ps); rewrite E1 in *; done).
  assert (Ms1 : main_set c1).
  { destruct Ms as (m & l0 & i0 & ch0 & Em & H0 & Es). rewrite El in Em. injection Em as <- <-. destruct (chain_at_det _ _ _ _ _ _ H0 H) as [-> ->].
    exists p, l, ids, (s' :: ps). rewrite E1 in *. done. }
  assert (I2 : INV c2 root) by (eapply inv_of; [by eapply forest_same|by eapply main_at_same|by eapply main_set_same|rewrite P2, E1; done|rewrite (init_median _ _ _ R2), (init_push _ _ _ _ _ _ _ R1); done]).
  split; [eapply inv_change; [|eapply inv_change; [exact P3|exact I2]]; done|].
  exists p, ids, s', ps, info. simpl. rewrite (st_objects _ _ (proj1 P3)), (st_objects _ _ S2), (st_leaves _ _ (proj1 P3)), (st_leaves _ _ S2). split_and!; try done.
  - rewrite E1. simpl. rewrite El. by left.
  - rewrite Ei. apply elem_of_app. right. by left.
Qed.

Lemma work_at h q m i ch d : h !! q = Some m -> chain_at h q i ch -> nonempty ch -> cumulativeDifficulty_at h q = Ok d -> d = weight ch.
Proof.
  intros Em Hq N D. unfold cumulativeDifficulty_at in D. rewrite (node_ok _ _ _ Em) in D. cbn [mbind outcome_bind] in D.
  destruct (leaf_chain _ _ _ _ _ Em Hq) as (i' & qs & -> & ->). destruct (last (seg_blockInfos (n_segment m))) as [x|] eqn:Ex; [|done].
  apply Ok_inj in D as <-. unfold weight. simpl all_blocks. by rewrite last_app, Ex.
Qed.

(** The leaves in another order. *)
Lemma forest_perm c1 root1 W l : FOREST c1 root1 W -> l ≡ₚ chainsLeaves c1 -> FOREST (set_leaves l c1) root1 W.
Proof.
  intros [F1 F2 F3 [Nd Hl] F5] P. split; try done. simpl. split; [by rewrite P|]. intros q. by rewrite P.
Qed.

Lemma add_to_leaf_ok back ret c' : n_children n = [] -> a_previousBlockIndex a = height (n_segment n :: ps) - 1 -> head (chainsLeaves c) <> Some p ->
  add_to_leaf currency checkpoints scalarmultKey check_key cn_fast_hash cn_turtle_lite_slow_hash_v2 checkRingSignature threadCount now c p b raw a back = Ok (ret, c') ->
  INV c' root /\ block_in c'.
Proof.
  intros Lf Hi Np R. destruct I as [(W & F & m & l & im & chm & Em & Hm & HW) Ms Pi Ni]. rewrite Em in Np. simpl in Np. assert (Nmp : m <> p) by congruence.
  unfold add_to_leaf in R. apply bind_ok in R as (c1 & R1 & R).
  destruct (push_forest _ _ _ _ _ _ _ _ _ _ median c root W p n ids (n_segment n) ps b raw a c1 Sn F E Lf H Pb Hi R1) as (s' & E1 & F1 & K & Hp & Hw & info & Ei & Hh).
  assert (El1 : chainsLeaves c1 = m :: l) by (rewrite E1; exact Em). assert (Hin : p ∈ chainsLeaves c) by (apply (fo_leaves _ _ _ _ _ F); eauto).
  assert (Bin : forall c2, objects c2 = objects c1 -> (forall q, q ∈ chainsLeaves c -> q ∈ chainsLeaves c2) -> block_in c2).
  { intros c2 Eo El. exists p, ids, s', ps, info. rewrite Eo, Ei. split_and!; [done|auto|apply elem_of_app; right; by left|done]. }
  pose proof (K m im chm Nmp Hm) as Hm1. unfold main_leaf in R. rewrite El1 in R. cbn [head from_option mbind outcome_bind] in R.
  apply bind_ok in R as (d & D & R). apply bind_ok in R as (d' & D' & R).
  destruct (chain_at_head _ _ _ _ Hp) as (n1 & _ & _ & En1 & _ & _). destruct (chain_at_head _ _ _ _ Hm1) as (m1 & _ & _ & Em1 & _ & _).
  rewrite (work_at _ _ _ _ _ _ En1 Hp (proj2 (proj1 (fo_chains _ _ _ _ _ F1 _ _ _ Hp))) D) in R.
  rewrite (work_at _ _ _ _ _ _ Em1 Hm1 (proj2 (proj1 (fo_chains _ _ _ _ _ F1 _ _ _ Hm1))) D') in R.
  destruct (Z.ltb_spec (weight chm) (weight (s' :: ps))) as [Hlt|Hge].
  - rewrite Z.max_r in F1 by lia. apply bind_ok in R as (? & _ & R). apply bind_ok in R as (? & _ & R). set (i := match list_find _ _ with Some _ => _ | None => _ end) in R.
    assert (Hi' : (m :: l) !! i = Some p).
    { unfold i. rewrite <- El1 in *. rewrite E1 in *. simpl in *. destruct (list_find (fun q => q = p) (chainsLeaves c)) as [[j y]|] eqn:Ej.
      - apply list_find_Some in Ej as (Hj & -> & _). done.
      - apply list_find_None in Ej. rewrite Forall_forall in Ej. by apply Ej in Hin. }
    destruct (swap_leaves_head _ _ _ Hi') as [l' Hsw]. apply bind_ok in R as (c2 & R2 & R). rewrite Hsw in R2.
    assert (Pm : p :: l' ≡ₚ chainsLeaves c1) by (rewrite El1, <- Hsw; apply swap_leaves_perm).
    destruct (update_main (set_leaves (p :: l') c1) c2 root (weight (s' :: ps))) as (F2 & M2 & S2 & P2 & O2 & L2); [by apply forest_perm|by exists p, l', ids, (s' :: ps)|exact R2|].
    apply bind_ok in R as (c3 & R3 & R). apply bind_ok in R as (c4 & R4 & R). apply bind_ok in R as (alt & _ & R). apply bind_ok in R as (c5 & R5 & R). apply Ok_inj in R as [= _ <-].
    destruct (median_change _ _ _ R3) as [S3 P3]. pose proof (check_change _ cn_fast_hash _ _ _ R4) as C4.
    assert (I3 : INV c3 root).
    { eapply inv_of; [by eapply forest_same|by eapply main_at_same|by eapply main_set_same| |].
      - rewrite P3, P2. simpl. by rewrite E1.
      - rewrite (init_median _ _ _ R3), (init_main _ _ R2). simpl. by rewrite (init_push _ _ _ _ _ _ _ R1). }
    pose proof (inv_change _ _ _ C4 I3) as I4. destruct (ci_forest _ _ _ _ I4) as (W4 & F4 & _).
    pose proof (copy_change _ _ _ _ _ _ _ _ _ _ _ _ _ _ (forest_bytes _ _ _ F4) R5) as C5. split; [by eapply inv_change|].
    apply Bin.
    + by rewrite (st_objects _ _ (proj1 C5)), (st_objects _ _ (proj1 C4)), (st_objects _ _ S3), O2.
    + intros q Hq. rewrite (st_leaves _ _ (proj1 C5)), (st_leaves _ _ (proj1 C4)), (st_leaves _ _ S3), L2. simpl. rewrite Pm, E1. done.
  - apply Ok_inj in R as [= _ <-]. rewrite Z.max_l in F1 by lia. split; [|apply Bin; [done|by rewrite E1]].
    eapply inv_of; [exact F1|exists m, l, im, chm; done| |by rewrite E1|by rewrite E1].
    destruct Ms as (m0 & l0 & i0 & ch0 & Em0 & H0 & Es). rewrite Em in Em0. injection Em0 as <- <-. exists m, l, i0, ch0.
    split_and!; [done|by apply K|by rewrite E1].
Qed.

(** After a fork the main chain is what it was. *)
Lemma forked_ok c1 W s' ch q l : FOREST c1 root W -> main_at c1 W -> pool_inv cn_fast_hash (transactionPool (core_pool c1)) -> initialized c1 = true ->
  (exists info, info ∈ seg_blockInfos s' /\ getBlockHash cn_fast_hash b = Ok (bi_blockHash info)) ->
  chain_at (objects c1) q l (s' :: ch) -> q ∈ chainsLeaves c1 ->
  forall c2, updateMainChainSet c1 = Ok c2 -> INV c2 root /\ block_in c2.
Proof.
  intros F M Pi Ni (info & Hin & Hh) Hq Hl c2 U. destruct (update_main _ _ _ _ F M U) as (F2 & M2 & S2 & P2 & O2 & L2).
  split; [eapply inv_of; try done; [by rewrite P2|by rewrite (init_main _ _ U)]|]. exists q, l, s', ch, info. rewrite O2, L2. by split_and!.
Qed.

Lemma main_at_fork c1 c2 W l : main_at c1 W -> chainsLeaves c2 = chainsLeaves c1 ++ l ->
  (forall q ids ch, chain_at (objects c1) q ids ch -> chain_at (objects c2) q ids ch) -> main_at c2 W.
Proof.
  intros (m & l0 & i & ch & Em & Hm & Hw) El K. exists m, (l0 ++ l), i, ch. split_and!; [by rewrite El, Em|by apply K|done].
Qed.

Lemma add_to_inner_ok ret c' : n_children n <> [] -> a_previousBlockIndex a = height (n_segment n :: ps) - 1 ->
  add_to_inner currency cn_fast_hash c p b raw a = Ok (ret, c') -> INV c' root /\ block_in c'.
Proof.
  intros Nl Hi R. destruct I as [(W & F & M) Ms Pi Ni]. destruct (fo_chains _ _ _ _ _ F _ _ _ H) as [[L N] _].
  unfold add_to_inner in R. apply bind_ok in R as (c1 & R1 & R). pose proof (all_blocks_nonempty _ N ltac:(done)) as Hpos.
  assert (Hl : S (Z.to_nat (a_previousBlockIndex a)) = length (all_blocks (n_segment n :: ps))) by (rewrite Hi; unfold height; lia).
  destruct (fork_forest _ _ _ _ _ _ _ _ _ _ median c root W p n ids (n_segment n :: ps) (n_segment n :: ps) b raw a c1 Sn F E Nl H Pb) as (s' & F1 & L1 & _ & P1 & K & Hq & Hin); try done.
  { by rewrite Hl, firstn_all. }
  { intros x d Hx Hd. destruct (n_children n) as [|r cs] eqn:Ec; [done|]. assert (Hr : r ∈ n_children n) by (rewrite Ec; by left).
    apply (t_children _ _ (fo_tree _ _ _ _ _ F) p n r E) in Hr as (m & Em & Pm). pose proof (at_child _ _ _ _ _ _ Em Pm H) as Hc.
    destruct (fo_chains _ _ _ _ _ F _ _ _ Hc) as [[Lc Nc] Hw]. inv Nc.
    pose proof (fork_weight currency cn_fast_hash (n_segment m :: n_segment n :: ps) (n_segment n :: ps) (Z.to_nat (a_previousBlockIndex a)) x d Lc) as Fw.
    pose proof (nonempty_length (n_segment m) ltac:(done)).
    change (all_blocks (n_segment m :: n_segment n :: ps)) with (all_blocks (n_segment n :: ps) ++ seg_blockInfos (n_segment m)) in Fw.
    rewrite take_app_le, length_app in Fw by lia. specialize (Fw eq_refl Hx Hd ltac:(lia)). lia. }
  apply bind_ok in R as (c2 & R2 & R). apply bind_ok in R as (c3 & R3 & R). apply Ok_inj in R as [= _ <-].
  destruct (forked_ok c1 W s' _ (next_ptr c) _ F1 (main_at_fork c c1 W _ M L1 K) ltac:(by rewrite P1) ltac:(by rewrite (init_fork _ _ _ _ _ _ _ R1)) Hin Hq ltac:(rewrite L1; apply elem_of_app; right; by left) c2 R2) as [I2 B2].
  destruct (median_change _ _ _ R3) as [S3 P3]. split.
  - eapply inv_change; [|exact I2]. split; [done|by rewrite P3].
  - destruct B2 as (q & i & s & ch & info & B). exists q, i, s, ch, info. by rewrite (st_objects _ _ S3), (st_leaves _ _ S3).
Qed.

Lemma add_inside_ok ret c' : height ps <= a_previousBlockIndex a < height (n_segment n :: ps) - 1 ->
  add_inside cn_fast_hash c p b raw a = Ok (ret, c') -> INV c' root /\ block_in c'.
Proof.
  intros Hi R. destruct I as [(W & F & M) Ms Pi Ni]. destruct (fo_chains _ _ _ _ _ F _ _ _ H) as [[L N] HW].
  pose proof (chain_bound _ (l_chain _ _ _ L)) as Bd. pose proof (height_nonneg ps) as Hnn. pose proof (so_start _ _ (proj1 (l_chain _ _ _ L))) as St.
  unfold add_inside in R. rewrite wrap_small in R by width_solve. set (k := a_previousBlockIndex a + 1) in *. rewrite height_cons in *.
  apply bind_ok in R as (h & R1 & R). apply bind_ok in R as (up & Hu & R). apply bind_ok in R as (low & _ & R). apply bind_ok in R as (? & _ & R). apply bind_ok in R as (? & _ & R).
  apply bind_ok in R as (leaves & Hl & R). apply bind_ok in R as (c1 & R2 & R). apply bind_ok in R as (c2 & R3 & R). apply Ok_inj in R as [= _ <-].
  assert (Cu : n_children up = n_children n).
  { destruct (split_ledger currency cn_fast_hash ps (n_segment n) k L ltac:(lia)) as (u' & l' & Es & _).
    destruct (split_node_ok (objects c) root p (next_ptr c) n u' l' k (fo_tree _ _ _ _ _ F) E (next_free _ _ _ _ _ F) Es) as (h' & E' & Hu' & _).
    rewrite R1 in E'. apply Ok_inj in E' as <-. rewrite (node_ok _ _ _ Hu') in Hu. by apply Ok_inj in Hu as <-. }
  assert (Sl : split_leaves c p n leaves).
  { unfold split_leaves. rewrite Cu in Hl. case_bool_decide as Lf; [|right; by apply Ok_inj in Hl as <-]. left. split; [done|].
    destruct (list_find _ _) as [[j y]|] eqn:Ej; [|done]. apply Ok_inj in Hl as <-. apply list_find_Some in Ej as (Hj & -> & _). eauto. }
  destruct (split_forest currency cn_fast_hash c root W p n ids ps k F E H ltac:(lia) h leaves R1 Sl) as (F1 & M1 & l & Hp & En & Eb & Eo). specialize (M1 M).
  set (c0 := set_leaves leaves (own_next h c)) in *. assert (Ek : Z.to_nat k = S (Z.to_nat (a_previousBlockIndex a))) by lia. rewrite Ek in Eb.
  destruct (fork_forest _ _ _ _ _ _ _ _ _ _ median c0 root W p _ ids (l :: ps) (n_segment n :: ps) b raw a c1 Sn F1 En ltac:(done) Hp Pb Eb Eo) as (s' & F2 & L2 & _ & P2 & K & Hq & Hin); [|exact R2|].
  { intros y d Hx Hd. pose proof (fork_weight currency cn_fast_hash (n_segment n :: ps) (n_segment n :: ps) _ y d L eq_refl Hx Hd) as Fw.
    unfold height in Hi. assert (S (Z.to_nat (a_previousBlockIndex a)) < length (all_blocks (n_segment n :: ps)))%nat by (simpl; rewrite length_app; lia). specialize (Fw ltac:(done)). lia. }
  exact (forked_ok c1 W s' _ _ _ F2 (main_at_fork c0 c1 W _ M1 L2 K) ltac:(by rewrite P2) ltac:(by rewrite (init_fork _ _ _ _ _ _ _ R2)) Hin Hq ltac:(rewrite L2; apply elem_of_app; right; by left) c2 R3).
Qed.

Lemma extend_ok back ret c' : EXTEND c p b raw a back = Ok (ret, c') -> INV c' root /\ block_in c'.
Proof.
  intros R. destruct (ci_forest _ _ _ _ I) as (W & F & M). destruct (fo_chains _ _ _ _ _ F _ _ _ H) as [[L N] _].
  destruct (bc_previous _ _ _ _ _ _ _ _ _ _ _ _ _ _ _ (pb_checked _ _ _ _ _ _ _ _ _ _ _ _ _ _ _ Pb)) as (s & qs & Es & Ei).
  injection Es as <- <-. destruct (getBlockIndex_ok _ _ _ _ (l_chain _ _ _ L) Ei) as [Hi _].
  unfold extend_chain in R. rewrite (node_ok _ _ _ E) in R. cbn [mbind outcome_bind] in R. rewrite (top_index _ _ (l_chain _ _ _ L)) in R by by inv N.
  cbn [mbind outcome_bind] in R. destruct (Z.eqb_spec (height (n_segment n :: ps) - 1) (a_previousBlockIndex a)) as [Et|Nt].
  - case_bool_decide as Lf; [|by eapply add_to_inner_ok]. apply bind_ok in R as (m & Hm & R). unfold main_leaf in Hm.
    destruct (chainsLeaves c) as [|m' l] eqn:El; [done|]. apply Ok_inj in Hm as <-. case_bool_decide as Hp.
    + eapply add_to_main_ok; [done|done| |exact R]. exists l. by rewrite El, Hp.
    + eapply add_to_leaf_ok; [done|done| |exact R]. rewrite El. simpl. congruence.
  - eapply add_inside_ok; [lia|exact R].
Qed.

End branches.

(** ** The handlers *)

Abbreviation ADD_BLOCK := (addBlock currency checkpoints scalarmultKey check_key cn_fast_hash cn_turtle_lite_slow_hash_v2 checkRingSignature
  algorithm genesisBlockHash threadCount now).
Abbreviation ADD_CACHED_BLOCK := (addCachedBlock currency checkpoints scalarmultKey check_key cn_fast_hash cn_turtle_lite_slow_hash_v2 checkRingSignature
  algorithm genesisBlockHash threadCount now).
Abbreviation CHECK_IN := (CHECK currency checkpoints scalarmultKey check_key cn_fast_hash cn_turtle_lite_slow_hash_v2 checkRingSignature
  algorithm genesisBlockHash threadCount now).

(** Wherever the block would be accepted there is room for it. *)
Definition roomy (c : Core) (b : BlockTemplate) (raw : RawBlock) (scheds : nat -> list action) : Prop :=
  forall p ids ch a, chain_at (objects c) p ids ch -> CHECK_IN c ch b raw scheds = Ok (inr a) -> room ch b a.

Lemma find_leaf_ok c root W l h : FOREST c root W -> (forall q, q ∈ l -> q ∈ chainsLeaves c) -> exists r, find_leaf (objects c) l h = Ok r /\
  match r with
  | Some q => exists i s ch, chain_at (objects c) q i (s :: ch) /\ cache_hasBlock s h = true
  | None => forall q i ch, q ∈ l -> chain_at (objects c) q i ch -> Forall (fun s => cache_hasBlock s h = false) ch
  end.
Proof.
  intros F. induction l as [|q l IH]; intros Hl; [exists None; split; [done|]; by intros q i ch ?%not_elem_of_nil|]. cbn [find_leaf].
  destruct (proj1 (proj2 (fo_leaves _ _ _ _ _ F) q) (Hl q ltac:(by left))) as (n & En & _). destruct (t_path _ _ (fo_tree _ _ _ _ _ F) q n En) as (i & ch & Hq & _).
  unfold findIndexInChain. destruct (find_ok _ _ _ _ (fun s => cache_hasBlock s h) Hq) as (r & -> & Hr). okbind. destruct r as [q'|].
  - exists (Some q'). split; [done|]. destruct Hr as (s & c1 & c2 & i1 & i2 & Hs & _ & _ & Hq'). eauto.
  - destruct IH as (r & -> & Hr'); [intros; apply Hl; by right|]. exists r. split; [done|]. destruct r as [q'|]; [done|].
    intros q0 i0 ch0 [->|Hin]%elem_of_cons H0; [|by eapply Hr']. destruct (chain_at_det _ _ _ _ _ _ H0 Hq) as [_ ->]. done.
Qed.

(** Every segment is found from some leaf. *)
Lemma find_segment_ok c root W h : FOREST c root W -> main_at c W -> exists r, findSegmentContainingBlock c h = Ok r /\
  match r with
  | Some q => exists i s ch, chain_at (objects c) q i (s :: ch) /\ cache_hasBlock s h = true
  | None => forall q i ch, q ∈ chainsLeaves c -> chain_at (objects c) q i ch -> Forall (fun s => cache_hasBlock s h = false) ch
  end.
Proof.
  intros F (m & l & i & ch & El & Hm & _). destruct (find_leaf_ok c root W (chainsLeaves c) h F ltac:(done)) as (r & E & Hr). exists r. split; [|done].
  rewrite El in E. cbn [find_leaf] in E. unfold findSegmentContainingBlock, findMainChainSegmentContainingBlock, findAlternativeSegmentContainingBlock, main_leaf.
  rewrite El. cbn [head tail from_option mbind outcome_bind]. exact E.
Qed.

Lemma notify_change c ret i b p c' : notifyOnSuccess cn_fast_hash c ret i b p = Ok c' -> pool_change cn_fast_hash c c'.
Proof.
  intros R. unfold notifyOnSuccess in R. destruct ret; try done.
  - apply bind_ok in R as (h & _ & R). by apply Ok_inj in R as <-.
  - apply bind_ok in R as (h & _ & R). by apply Ok_inj in R as <-.
  - apply bind_ok in R as (ch & _ & R). destruct ch as [|s [|q qs]]; try done. apply bind_ok in R as (hs & _ & R). apply bind_ok in R as (h & _ & R).
    apply bind_ok in R as (j & _ & R). by apply Ok_inj in R as <-.
Qed.

Lemma miner_outputs_refuse l : forall x, refusal (miner_outputs check_key x l).
Proof. induction l as [|o l IH]; intros x; cbn [miner_outputs]; refuses. Qed.
Lemma validateBlock_refuse b ch : refusal (validateBlock currency check_key cn_fast_hash now b ch).
Proof.
  unfold validateBlock, check_version, check_timestamp, check_base. destruct ch as [|s ps]; [by intros e|]. refuses; apply miner_outputs_refuse.
Qed.

Lemma check_never_added c ch b raw scheds e oh : CHECK_IN c ch b raw scheds = Ok (inl (e, oh)) -> ~ added e.
Proof.
  intros R. unfold CHECK, check_block in R. apply bind_ok in R as (r & _ & R). destruct r as [[txs size]|]; [|apply Ok_inj in R as [= <- <-]; by intros [|[|]]].
  apply bind_ok in R as (cs & _ & R). apply bind_ok in R as (? & _ & R). destruct ch as [|s ps]; [done|]. apply bind_ok in R as (prev & _ & R).
  apply bind_ok in R as (ms & _ & R). destruct (ms <? _); [apply Ok_inj in R as [= <- <-]; by intros [|[|]]|].
  apply of_result_refused in R as [?|[mr R]]; [done| |apply validateBlock_refuse]. apply bind_ok in R as (d & _ & R).
  destruct (d =? 0); [apply Ok_inj in R as [= <- <-]; by intros [|[|]]|].
  apply of_result_refused in R as [?|[? R]]; [done| |unfold check_hashes; refuses].
  apply bind_ok in R as (t & _ & R). destruct t as [[tx er]|[fee st]]; [apply bind_ok in R as (h & _ & R); apply Ok_inj in R as [= <- <-]; by intros [|[|]]|].
  apply of_result_refused in R as [?|[? R]]; [done| |unfold check_reward; refuses].
  apply of_result_refused in R as [?|[? R]]; [done|done|]. unfold check_work. refuses.
Qed.

Lemma base_amounts blob b : is_bytes blob -> fromBinaryArray (serialize_BlockTemplate cn_fast_hash) new_BlockTemplate blob = Ok b ->
  Forall (fun o => is_u64 (out_amount o)) (outputs (tx_prefix (baseTransaction b))).
Proof.
  intros Hb E. apply block_base_valid in E; [|done]. set (v := Build_ValidateTransaction (CachedTransaction_of (baseTransaction b)) currency ∅ 0 0 false).
  destruct (valid_amounts v E) as [_ W]. change (Forall is_u64 (out_amount <$> outputs (tx_prefix (baseTransaction b)))) in W. exact (proj1 (Forall_fmap _ _ _) W).
Qed.

Lemma add_cached_ok c root b raw scheds back e c' : sane_currency currency -> INV c root -> is_bytes (block raw) -> Forall is_bytes (transactions raw) ->
  raw_block cn_fast_hash raw = Ok b -> roomy c b raw scheds -> ADD_CACHED_BLOCK c b raw scheds back = Ok (e, c') ->
  INV c' root /\ (added e -> block_in b c').
Proof.
  intros Sn I Bb Bt Rb Rm R. unfold addCachedBlock in R. apply bind_ok in R as (? & _ & R). apply bind_ok in R as (h & Hh & R). apply bind_ok in R as (ex & _ & R).
  destruct ex; [apply Ok_inj in R as [= <- <-]; split; [done|by intros [|[|]]]|]. apply bind_ok in R as (? & _ & R).
  destruct (ci_forest _ _ _ _ I) as (W & F & M). destruct (find_segment_ok c root W (previousBlockHash (header b)) F M) as (r & E & Hr). rewrite E in R. cbn [mbind outcome_bind] in R.
  destruct r as [p|]; [|apply Ok_inj in R as [= <- <-]; split; [done|by intros [|[|]]]]. destruct Hr as (ids & s & ps & Hp & _).
  rewrite (cache_at_ok _ _ _ _ Hp) in R. cbn [mbind outcome_bind] in R. apply bind_ok in R as (v & Hv & R). destruct v as [[er oh]|a].
  - assert (Rej : forall c1, pool_change cn_fast_hash c c1 -> INV c1 root /\ (added er -> block_in b c1)).
    { intros c1 P. split; [by eapply inv_change|]. intros A. exfalso. by eapply check_never_added. }
    destruct oh as [th|]; [|apply Ok_inj in R as [= <- <-]; by apply Rej]. destruct (checkIfTransactionPresent _ _); [|apply Ok_inj in R as [= <- <-]; by apply Rej].
    apply bind_ok in R as (c1 & R1 & R). apply Ok_inj in R as [= <- <-]. by eapply Rej, remove_change.
  - apply bind_ok in R as ([ret c1] & R1 & R). apply bind_ok in R as (c2 & R2 & R). apply Ok_inj in R as [= <- <-].
    pose proof Hv as Hv0. unfold CHECK in Hv0. pose proof (check_block_ok _ _ _ _ _ _ _ _ _ _ _ _ _ _ _ _ _ Bt (base_amounts _ _ Bb Rb) Hv0) as Ck.
    destruct (chain_at_head _ _ _ _ Hp) as (n & i' & c' & En & -> & [= -> ->]).
    assert (Pb : PUSHABLE (blockMedianSize c) (n_segment n :: c') b raw a) by (split; [by eapply fo_chains|done|done|done|by eapply Rm]).
    destruct (extend_ok (blockMedianSize c) c root p n _ c' b raw a Sn I En Hp Pb back ret c1 R1) as [I1 B1].
    pose proof (notify_change _ _ _ _ _ _ R2) as P2. split; [by eapply inv_change|]. intros _. destruct B1 as (q & i & s' & ch & info & B1).
    exists q, i, s', ch, info. by rewrite (st_objects _ _ (proj1 P2)), (st_leaves _ _ (proj1 P2)).
Qed.

End safety.
