(* ===== verification/CoreReach.v ===== *)
(** * CoreReach: the states [Core] can reach from the genesis block

    The handlers of [Core] as steps, the invariant of [CoreInvariant.v] in every state
    they can reach, and what it says of the node: the main chain is the heaviest, every
    chain conserves money, spends no key image twice and is linked by hashes, and a
    block that was added is found again. *)

From Stdlib Require Import ZArith Lia.
From stdpp Require Import base tactics list numbers strings gmap fin_maps fin_sets sorting relations.
From S2P Require Import Prelude Config Difficulty Types Serializer TxSerialization TransactionExtra BlockSerialization FormatUtils Currency Checkpoints ThreadPool Validate Pool BlockchainCache CacheChain ShuffleGenerator CacheQueries BlockValidation SegmentTree Ledger Core CoreInvariant CorePool CoreSafety.

Local Open Scope Z_scope.

Section reach.
Context (currency : Currency) (checkpoints : points).
Context (scalarmultKey : KeyImage -> KeyImage -> KeyImage) (check_key : PublicKey -> bool).
Context (cn_fast_hash cn_turtle_lite_slow_hash_v2 : bytes -> Hash).
Context (checkRingSignature : Hash -> KeyImage -> list PublicKey -> list Signature -> bool).
Context (algorithm : Z -> option (bytes -> Hash)) (genesisBlockHash : Hash) (threadCount : nat).

Abbreviation INV := (core_inv currency cn_fast_hash).
Abbreviation ADD_BLOCK := (addBlock currency checkpoints scalarmultKey check_key cn_fast_hash cn_turtle_lite_slow_hash_v2 checkRingSignature
  algorithm genesisBlockHash threadCount).
Abbreviation ADD_CACHED_BLOCK := (addCachedBlock currency checkpoints scalarmultKey check_key cn_fast_hash cn_turtle_lite_slow_hash_v2 checkRingSignature
  algorithm genesisBlockHash threadCount).
Abbreviation SUBMIT := (submitBlock currency checkpoints scalarmultKey check_key cn_fast_hash cn_turtle_lite_slow_hash_v2 checkRingSignature
  algorithm genesisBlockHash threadCount).
Abbreviation ADD_TX := (addTransactionToPool currency checkpoints scalarmultKey check_key cn_fast_hash cn_turtle_lite_slow_hash_v2 checkRingSignature threadCount).
Abbreviation ROOMY := (roomy currency checkpoints scalarmultKey check_key cn_fast_hash cn_turtle_lite_slow_hash_v2 checkRingSignature
  algorithm genesisBlockHash threadCount).
Abbreviation EXTEND := (extend_chain currency checkpoints scalarmultKey check_key cn_fast_hash cn_turtle_lite_slow_hash_v2 checkRingSignature threadCount).

(** ** The handlers *)

Lemma decoded raw b : fromBinaryArray_opt (serialize_BlockTemplate cn_fast_hash) new_BlockTemplate (block raw) = Ok (Some b) ->
  raw_block cn_fast_hash raw = Ok b.
Proof.
  unfold raw_block, fromBinaryArray_opt, try_catch. destruct (fromBinaryArray _ _ _) as [b'| |]; try done. by intros [= ->]%Ok_inj.
Qed.

Lemma template_bytes p l blobs : pool_inv cn_fast_hash p -> template_transactions p l = Ok (Some blobs) -> Forall is_bytes blobs.
Proof.
  intros I. revert blobs. induction l as [|h l IH]; intros blobs R; cbn [template_transactions] in R; [apply Ok_inj in R as [= <-]; constructor|].
  destruct (negb _); [done|]. apply bind_ok in R as (tx & Ht & R). apply bind_ok in R as (blob & Hb & R). apply bind_ok in R as (rest & Hr & R).
  destruct rest as [rest|]; [|done]. apply Ok_inj in R as [= <-]. constructor; [|by apply IH].
  unfold pool_getTransaction in Ht. destruct (find_hash p h) as [[i t]|] eqn:E; [|done]. apply Ok_inj in Ht as <-.
  destruct (find_hash_split p h i t E) as (l1 & l2 & El & _ & _). pose proof (pi_bytes _ p I) as F. rewrite El, Forall_app, Forall_cons in F.
  destruct F as (_ & (blob' & Hb' & B & _) & _). rewrite Hb in Hb'. by apply Ok_inj in Hb' as <-.
Qed.

(** Cleaning returns only when nothing has expired; it then removes the transactions
    with a bad mixin. *)
Lemma clean_change now top w deleted w' : pool_inv cn_fast_hash (transactionPool w) -> clean now top w = Ok (deleted, w') -> pool_inv cn_fast_hash (transactionPool w').
Proof.
  intros I R. unfold clean in R. apply bind_ok in R as ([d w1] & R1 & R). apply Ok_inj in R as [= _ <-]. simpl.
  destruct (decide (Exists (expired now (timeout w)) (pending (transactionPool w)))) as [X|X].
  - pose proof (clean_loop_expired _ now top _ [] [] w I eq_refl X) as U. unfold getTransactionHashes in R1. by rewrite R1 in U.
  - destruct (clean_loop _ now top _ [] [] w I eq_refl ltac:(by apply Forall_Exists_neg)) as (w2 & E & I2 & _).
    unfold getTransactionHashes in R1. rewrite R1 in E. by apply Ok_inj in E as [= _ ->].
Qed.

Lemma clean_pool_change now c c' : clean_pool now c = Ok c' -> pool_change cn_fast_hash c c'.
Proof.
  intros R. unfold clean_pool in R. apply bind_ok in R as (top & _ & R). apply bind_ok in R as ([d w] & R1 & R). apply Ok_inj in R as <-.
  split; [done|]. intros I. by eapply clean_change.
Qed.

Lemma core_add_block_ok now c root raw scheds back e c' : sane_currency currency -> INV c root -> is_bytes (block raw) -> Forall is_bytes (transactions raw) ->
  (forall b, raw_block cn_fast_hash raw = Ok b -> ROOMY now c b raw scheds) -> ADD_BLOCK now c raw scheds back = Ok (e, c') ->
  INV c' root /\ (added e -> exists b, raw_block cn_fast_hash raw = Ok b /\ block_in cn_fast_hash b c').
Proof.
  intros Sn I Bb Bt Rm R. unfold addBlock in R. apply bind_ok in R as (? & _ & R). apply bind_ok in R as (r & Hr & R).
  destruct r as [b|]; [|apply Ok_inj in R as [= <- <-]; split; [done|by intros [|[|]]]]. apply decoded in Hr.
  destruct (add_cached_ok _ _ _ _ _ _ _ _ _ _ _ c root b raw scheds back e c' Sn I Bb Bt Hr (Rm b Hr) R) as [I' A]. split; [done|]. intros Ha. exists b. auto.
Qed.

Lemma submit_ok now c root blob scheds back e c' : sane_currency currency -> INV c root -> is_bytes blob ->
  (forall b txs, raw_block cn_fast_hash {| block := blob; transactions := txs |} = Ok b ->
    template_transactions (transactionPool (core_pool c)) (transactionHashes b) = Ok (Some txs) -> ROOMY now c b {| block := blob; transactions := txs |} scheds) -> SUBMIT now c blob scheds back = Ok (e, c') -> INV c' root.
Proof.
  intros Sn I Bb Rm R. unfold submitBlock in R. apply bind_ok in R as (? & _ & R). apply bind_ok in R as (r & Hr & R).
  destruct r as [b|]; [|by apply Ok_inj in R as [= <- <-]]. apply bind_ok in R as (txs & Ht & R). destruct txs as [txs|]; [|by apply Ok_inj in R as [= <- <-]].
  set (raw := {| block := blob; transactions := txs |}) in R. apply (decoded raw b) in Hr. pose proof (Rm b txs Hr Ht) as Rb. apply template_bytes in Ht; [|apply I].
  by destruct (add_cached_ok _ _ _ _ _ _ _ _ _ _ _ c root b raw scheds back e c' Sn I Bb Ht Hr Rb R).
Qed.

(** ** The start *)

Lemma start_inv timeout g c : sane_currency currency -> genesis_ok currency cn_fast_hash g -> start currency cn_fast_hash timeout g = Ok c ->
  INV c 0%nat.
Proof.
  intros Sn G R. unfold start in R. apply bind_ok in R as (ch & Hg & R). destruct (genesis_ledger currency cn_fast_hash g ch Sn G Hg) as (s & info & -> & L & Ei & _).
  apply bind_ok in R as (c1 & R1 & R). apply Ok_inj in R as <-. destruct (median_change _ _ _ R1) as [S P].
  set (n := {| n_segment := s; n_parent := None; n_children := [] |}) in *. set (c0 := Build_Core _ _ _ _ _ _ _ _ _) in R1.
  assert (H0 : chain_at (objects c0) 0%nat [0%nat] [s]) by (apply (at_root _ 0%nat n); [by apply lookup_singleton_eq|done]).
  assert (Only : forall p m, objects c0 !! p = Some m -> p = 0%nat /\ m = n) by (intros p m E; change (({[0%nat := n]} : heap) !! p = Some m) in E; by apply lookup_singleton_Some in E as [<- <-]).
  assert (F : forest currency cn_fast_hash c0 0%nat (weight [s])).
  { split.
    - split.
      + intros p m [-> ->]%Only. by exists [0%nat], [s].
      + intros p m q [-> ->]%Only. split; [by intros ?%not_elem_of_nil|]. by intros (m & [_ ->]%Only & [=]).
      + intros p m [-> ->]%Only. constructor.
    - intros p Hp. destruct (objects c0 !! p) as [m|] eqn:E; [|by apply not_elem_of_dom in E]. apply Only in E as [-> _]. simpl. lia.
    - split; [apply NoDup_singleton|]. intros p. change (p ∈ [0%nat] <-> p ∈ dom ({[0%nat := n]} : heap)). by rewrite list_elem_of_singleton, dom_singleton, elem_of_singleton.
    - split; [apply NoDup_singleton|]. intros p. change (chainsLeaves c0) with [0%nat]. rewrite list_elem_of_singleton. split; [intros ->; by exists n|by intros (m & [-> _]%Only & _)].
    - intros p ids ch Hp. destruct (chain_at_head _ _ _ _ Hp) as (m & _ & _ & Em & _ & _). apply Only in Em as [-> ->].
      destruct (chain_at_det _ _ _ _ _ _ Hp H0) as [_ ->]. split; [split; [done|]|done]. constructor; [by rewrite Ei|constructor]. }
  assert (M : main_at c0 (weight [s])) by by exists 0%nat, [], [0%nat], [s].
  assert (Ms : main_set c0) by (exists 0%nat, [], [0%nat], [s]; split_and!; [done|done|simpl; by rewrite (right_id_L ∅ (∪))]).
  destruct (forest_same _ _ _ _ _ _ S F) as [F1 F2 F3 F4 F5]. split; [exists (weight [s]); split; [by split|exact (main_at_same _ _ _ S M)]|exact (main_set_same _ _ S Ms)| |done].
  simpl. rewrite P. apply new_pool_inv.
Qed.

(** ** The steps *)

(** Blocks and transactions come as bytes from the network; a submitted block brings
    only its own bytes.  Each step has its own time, schedules and answer. *)
Inductive core_step : Core -> Core -> Prop :=
| step_block now c raw scheds back e c' : is_bytes (block raw) -> Forall is_bytes (transactions raw) ->
    (forall b, raw_block cn_fast_hash raw = Ok b -> ROOMY now c b raw scheds) -> ADD_BLOCK now c raw scheds back = Ok (e, c') -> core_step c c'
| step_submit now c blob scheds back e c' : is_bytes blob -> (forall b txs, raw_block cn_fast_hash {| block := blob; transactions := txs |} = Ok b ->
    template_transactions (transactionPool (core_pool c)) (transactionHashes b) = Ok (Some txs) -> ROOMY now c b {| block := blob; transactions := txs |} scheds) ->
    SUBMIT now c blob scheds back = Ok (e, c') -> core_step c c'
| step_transaction now c blob sched e c' : is_bytes blob -> ADD_TX now c blob sched = Ok (e, c') -> core_step c c'
| step_clean now c c' : clean_pool now c = Ok c' -> core_step c c'.

(** The states after the genesis block [g] has been loaded. *)
Definition reachable (g : BlockTemplate) (c : Core) : Prop :=
  exists timeout c0, start currency cn_fast_hash timeout g = Ok c0 /\ rtc core_step c0 c.

Section invariant.
Context (Sn : sane_currency currency).

Lemma core_step_inv root c c' : core_step c c' -> INV c root -> INV c' root.
Proof using Sn.
  destruct 1 as [now c raw scheds back e c' Bb Bt Rm R|now c blob scheds back e c' Bb Rm R|now c blob sched e c' Bb R|now c c' R]; intros I.
  - by destruct (core_add_block_ok now c root raw scheds back e c' Sn I Bb Bt Rm R).
  - by eapply submit_ok.
  - eapply inv_change; [|exact I]. by eapply add_tx_change.
  - eapply inv_change; [|exact I]. by eapply clean_pool_change.
Qed.

Lemma rtc_core_inv root c c' : rtc core_step c c' -> INV c root -> INV c' root.
Proof using Sn. induction 1 as [c|c c1 c' Hs R IH]; [done|]. intros I. by eapply IH, core_step_inv. Qed.

Context (g : BlockTemplate) (G : genesis_ok currency cn_fast_hash g) (c : Core) (R : reachable g c).

Lemma reachable_inv : INV c 0%nat.
Proof using All. destruct R as (timeout & c0 & S & Rc). eapply rtc_core_inv; [exact Rc|]. by eapply start_inv. Qed.

(** The chain that ends in a segment. *)
Lemma reachable_chain p ch : cache_at (objects c) p = Ok ch -> exists ids, chain_at (objects c) p ids ch /\ ledger currency cn_fast_hash ch /\ nonempty ch.
Proof using All.
  intros E. destruct (cache_at_inv _ _ _ _ E) as [ids H]. exists ids. destruct (ci_forest _ _ _ _ reachable_inv) as (W & F & _).
  by destruct (fo_chains _ _ _ _ _ F _ _ _ H) as [[L N] _].
Qed.

End invariant.

(** C1: the node always follows the heaviest chain it knows: whatever blocks, transactions
    and cleanings come, in whatever order, every segment ends a chain whose cumulative
    difficulty is at most that of the main chain, and [mainChainSet] is exactly the set
    of the main chain's segments. *)
Theorem main_chain_heaviest g c : sane_currency currency -> genesis_ok currency cn_fast_hash g -> reachable g c ->
  exists m main ids, main_leaf c = Ok m /\ main_cache c = Ok main
  /\ ids_at (objects c) m = Ok ids /\ mainChainSet c = list_to_set ids
  /\ forall p, p ∈ chainsStorage c -> exists ch, cache_at (objects c) p = Ok ch /\ weight ch <= weight main.
Proof.
  intros Sn G Rc. destruct (reachable_inv Sn g G c Rc) as [(W & F & m & l & ids & ch & El & Hm & Hw) (m' & l' & ids' & ch' & El' & Hm' & Hs) _ _].
  rewrite El in El'. injection El' as <- <-. destruct (chain_at_det _ _ _ _ _ _ Hm Hm') as [<- <-].
  assert (Em : main_leaf c = Ok m) by (unfold main_leaf; by rewrite El). exists m, ch, ids. split_and!; try done.
  - unfold main_cache. rewrite Em. okbind. by eapply cache_at_ok.
  - by eapply ids_at_ok.
  - intros p Hp. apply (proj2 (fo_storage _ _ _ _ _ F)) in Hp. apply elem_of_dom in Hp as [n En].
    destruct (t_path _ _ (fo_tree _ _ _ _ _ F) p n En) as (i & ch0 & H & _). exists ch0. split; [by eapply cache_at_ok|].
    rewrite Hw. by apply (fo_chains _ _ _ _ _ F p i ch0 H).
Qed.

(** C2: on every chain of every reachable state the coins a block records as generated are
    exactly the outputs that the blocks up to it, base and other transactions alike, gave
    out beyond what they took in, and they never exceed the money supply. *)
Theorem chains_conserve_money g c p ch i coins : sane_currency currency -> genesis_ok currency cn_fast_hash g -> reachable g c ->
  cache_at (objects c) p = Ok ch -> 0 <= i < height ch -> getAlreadyGeneratedCoins ch i = Ok coins ->
  coins = sumZ (created cn_fast_hash <$> take (S (Z.to_nat i)) (all_raw ch)) /\ 0 <= coins <= m_moneySupply currency.
Proof.
  intros Sn G Rc E Hi Hc. destruct (reachable_chain Sn g G c Rc p ch E) as (ids & H & L & N). destruct (info_at_ok _ (l_chain _ _ _ L) i Hi) as (x & Hx & Ex).
  unfold getAlreadyGeneratedCoins in Hc. rewrite Ex in Hc. apply Ok_inj in Hc as <-. pose proof (l_flat _ _ _ L) as F.
  split; [exact (f_coins _ _ _ _ F _ _ Hx)|]. exact (proj1 (Forall_lookup_1 _ _ _ _ (f_limits _ _ _ _ F) Hx)).
Qed.

(** C3: no chain of a reachable state spends a key image twice, neither within a block nor
    across blocks, and [checkIfSpent] answers whether one of its blocks spends the image. *)
Theorem chains_no_double_spend g c p ch : sane_currency currency -> genesis_ok currency cn_fast_hash g -> reachable g c ->
  cache_at (objects c) p = Ok ch ->
  NoDup (concat (raw_images <$> all_raw ch)) /\
  forall ki, checkIfSpent_any ch ki = true <-> ki ∈ concat (raw_images <$> all_raw ch).
Proof.
  intros Sn G Rc E. destruct (reachable_chain Sn g G c Rc p ch E) as (ids & H & L & N). split; [exact (f_images _ _ _ _ (l_flat _ _ _ L))|]. intros ki.
  rewrite spent_any_ok, bool_decide_eq_true, elem_of_dom. split; [|by eapply spent_somewhere]. intros [i Hi].
  apply (l_spent _ _ _ L) in Hi as (_ & r & Hr & Hk). rewrite list_elem_of_In, in_concat. exists (raw_images r).
  rewrite <- !list_elem_of_In. split; [|done]. apply list_elem_of_fmap. exists r. split; [done|by eapply list_elem_of_lookup_2].
Qed.

(** C4: every chain of a reachable state is a hash chain: the raw block at each height decodes
    to a block of that height whose hash and timestamp are the recorded ones, it names the
    block below it by its hash, and it adds exactly the difficulty the blocks below it
    ask for. *)
Theorem chains_linked g c p ch k r bi : sane_currency currency -> genesis_ok currency cn_fast_hash g -> reachable g c ->
  cache_at (objects c) p = Ok ch -> all_raw ch !! S k = Some r -> all_blocks ch !! S k = Some bi ->
  exists b below d, raw_block cn_fast_hash r = Ok b /\ getBlockHash cn_fast_hash b = Ok (bi_blockHash bi) /\ timestamp (header b) = bi_timestamp bi
  /\ getBlockIndex b = Z.of_nat (S k) /\ all_blocks ch !! k = Some below /\ previousBlockHash (header b) = bi_blockHash below
  /\ next_difficulty currency (take (S k) (all_blocks ch)) = Ok d /\ 0 < d /\ bi_cumulativeDifficulty bi = bi_cumulativeDifficulty below + d.
Proof.
  intros Sn G Rc E Hr Hb. destruct (reachable_chain Sn g G c Rc p ch E) as (ids & H & L & N). pose proof (l_flat _ _ _ L) as F.
  destruct (lookup_lt_is_Some_2 (all_blocks ch) k) as [below Hk]; [pose proof (lookup_lt_Some _ _ _ Hb); lia|].
  destruct (f_linked _ _ _ _ F _ _ _ Hr Hb) as (b & Rb & Rh & Rt & Ri & Rl). destruct (f_difficulty _ _ _ _ F _ _ _ Hk Hb) as (d & Hd).
  exists b, below, d. split_and!; try done; [by apply (Rl k)|apply Hd|apply Hd|apply Hd].
Qed.


(** ** Adding a block *)

Lemma hasBlock_true s info : info ∈ seg_blockInfos s -> cache_hasBlock s (bi_blockHash info) = true.
Proof. intros H. unfold cache_hasBlock. apply existsb_exists. exists info. split; [by apply list_elem_of_In|by apply bool_decide_eq_true]. Qed.

Lemma block_in_found c root b h : INV c root -> block_in cn_fast_hash b c -> getBlockHash cn_fast_hash b = Ok h -> Core_hasBlock c h = Ok true.
Proof.
  intros [(W & F & M) _ _ Ni] (q & i & s & ch & info & Hq & Hl & Hin & Hh) Eh. rewrite Hh in Eh. apply Ok_inj in Eh as <-.
  unfold Core_hasBlock, throwIfNotInitialized, require. rewrite Ni. okbind. destruct (find_segment_ok _ _ c root W (bi_blockHash info) F M) as (r & -> & Hr). okbind.
  destruct r as [p|]; [done|]. specialize (Hr q i (s :: ch) Hl Hq). apply Forall_cons in Hr as [Hr _]. by rewrite hasBlock_true in Hr.
Qed.

Lemma extend_added now c p b raw a back ret c' : EXTEND now c p b raw a back = Ok (ret, c') -> added (AddBlock ret).
Proof.
  intros R. unfold extend_chain in R. apply bind_ok in R as (n & _ & R). apply bind_ok in R as (top & _ & R). destruct (_ =? _); [case_bool_decide|].
  - apply bind_ok in R as (m & _ & R). case_bool_decide.
    + unfold add_to_main in R. repeat (apply bind_ok in R as (? & _ & R)). apply Ok_inj in R as [= <- _]. by left.
    + unfold add_to_leaf in R. do 4 (apply bind_ok in R as (? & _ & R)). destruct (_ <? _); [|apply Ok_inj in R as [= <- _]; right; by left].
      repeat (apply bind_ok in R as (? & _ & R)). apply Ok_inj in R as [= <- _]. right. by right.
  - unfold add_to_inner in R. repeat (apply bind_ok in R as (? & _ & R)). apply Ok_inj in R as [= <- _]. right. by left.
  - unfold add_inside in R. repeat (apply bind_ok in R as (? & _ & R)). apply Ok_inj in R as [= <- _]. right. by left.
Qed.

(** A block that is not added leaves the tree of segments as it was. *)
Lemma refused_same now c b raw scheds back e c' : ADD_CACHED_BLOCK now c b raw scheds back = Ok (e, c') -> ~ added e -> pool_change cn_fast_hash c c'.
Proof.
  intros R N. unfold addCachedBlock in R. apply bind_ok in R as (? & _ & R). apply bind_ok in R as (h & _ & R). apply bind_ok in R as (ex & _ & R).
  destruct ex; [by apply Ok_inj in R as [= _ <-]|]. apply bind_ok in R as (? & _ & R). apply bind_ok in R as (r & _ & R).
  destruct r as [p|]; [|by apply Ok_inj in R as [= _ <-]]. apply bind_ok in R as (ch & _ & R). apply bind_ok in R as (v & _ & R). destruct v as [[er oh]|a].
  - destruct oh as [th|]; [|by apply Ok_inj in R as [= _ <-]]. destruct (checkIfTransactionPresent _ _); [|by apply Ok_inj in R as [= _ <-]].
    apply bind_ok in R as (c1 & R1 & R). apply Ok_inj in R as [= _ <-]. by eapply remove_change.
  - apply bind_ok in R as ([ret c1] & R1 & R). apply bind_ok in R as (c2 & _ & R). apply Ok_inj in R as [= <- _]. by apply extend_added in R1.
Qed.

(** C12: a block either enters the tree or leaves it untouched: after an answer that it was
    added [hasBlock] is true of its hash, and adding the same bytes again, at any time,
    answers ALREADY_EXISTS and changes nothing; after any other answer the segments,
    leaves and main chain are what they were, and the pool is consistent. *)
Theorem added_block_found g c now raw scheds back e c' : sane_currency currency -> genesis_ok currency cn_fast_hash g -> reachable g c ->
  is_bytes (block raw) -> Forall is_bytes (transactions raw) -> (forall b, raw_block cn_fast_hash raw = Ok b -> ROOMY now c b raw scheds) ->
  ADD_BLOCK now c raw scheds back = Ok (e, c') ->
  (added e -> exists b h, raw_block cn_fast_hash raw = Ok b /\ getBlockHash cn_fast_hash b = Ok h /\ Core_hasBlock c' h = Ok true
     /\ forall now' scheds' back', ADD_BLOCK now' c' raw scheds' back' = Ok (AddBlock ALREADY_EXISTS, c'))
  /\ (~ added e -> same_tree c c' /\ pool_inv cn_fast_hash (transactionPool (core_pool c'))).
Proof.
  intros Sn G Rc Bb Bt Rm R. pose proof (reachable_inv Sn g G c Rc) as I. destruct (core_add_block_ok now c _ raw scheds back e c' Sn I Bb Bt Rm R) as [I' A]. split.
  - intros Ha. destruct (A Ha) as (b & Rb & Hin). pose proof Hin as (_ & _ & _ & _ & info & _ & _ & _ & Hh). exists b, (bi_blockHash info).
    pose proof (block_in_found c' _ b _ I' Hin Hh) as Hf. split_and!; try done. intros now' scheds' back'. unfold addBlock, throwIfNotInitialized, require.
    rewrite (ci_init _ _ _ _ I'). okbind. unfold fromBinaryArray_opt. unfold raw_block in Rb. rewrite Rb. unfold try_catch. okbind.
    unfold addCachedBlock, throwIfNotInitialized, require. rewrite (ci_init _ _ _ _ I'), Hh. okbind. by rewrite Hf.
  - intros Na. unfold addBlock in R. apply bind_ok in R as (? & _ & R). apply bind_ok in R as (r & _ & R).
    destruct r as [b|]; [|apply Ok_inj in R as [= _ <-]; split; [done|apply I]]. destruct (refused_same _ _ _ _ _ _ _ _ R Na) as [S P]. split; [done|apply P, I].
Qed.

End reach.

(** ** A decision procedure for [roomy] *)

Definition outputs_within (n : nat) (c : Cache) : Prop :=
  Forall (fun s => map_Forall (fun _ e => (length (oi_outputs e) <= n)%nat) (seg_keyOutputsGlobalIndexes s)) c.
Lemma outputs_within_ok n c amount : outputs_within n c -> (length (all_outputs c amount) <= n * length c)%nat.
Proof.
  induction 1 as [|s ps Hs _ IH]; simpl; [lia|]. rewrite length_app. unfold seg_outputs.
  destruct (seg_keyOutputsGlobalIndexes s !! amount) as [e|] eqn:E; [|simpl; lia]. specialize (Hs _ _ E). simpl in Hs. lia.
Qed.

Definition room_within (n : nat) (c : Cache) (b : BlockTemplate) (a : Accepted) : Prop :=
  a_previousBlockIndex a + 2 < 2 ^ 32
  /\ outputs_within n c
  /\ Z.of_nat (n * length c) + Z.of_nat (length (concat ((fun tx => outputs (tx_prefix (getTransaction tx))) <$> (CachedTransaction_of (baseTransaction b) :: a_transactions a)))) < 2 ^ 32
  /\ match all_blocks c !! Z.to_nat (a_previousBlockIndex a) with
     | Some x => bi_cumulativeDifficulty x + a_currentDifficulty a < 2 ^ 64
         /\ total_in (a_transactions a) - total_out (a_transactions a) <= bi_alreadyGeneratedCoins x
         /\ total_in (a_transactions a) - total_out (a_transactions a) < 2 ^ 63
     | None => True
     end.
#[global] Instance room_within_dec n c b a : Decision (room_within n c b a).
Proof. unfold room_within, outputs_within. destruct (all_blocks c !! _); apply _. Defined.
Lemma room_within_ok n c b a : room_within n c b a -> room c b a.
Proof.
  intros (H1 & H2 & H3 & H4). split; [done| | |].
  - intros amount. pose proof (outputs_within_ok n c amount H2). lia.
  - intros x E. rewrite E in H4. apply H4.
  - intros x E. rewrite E in H4. apply H4.
Qed.

(** ** Witnesses: a fork that becomes the main chain *)

Abbreviation TOY f := (f test_currency ∅ toy_scalarmult toy_check_key toy_hash toy_hash toy_ring toy_algorithm [] 2%nat).

(** Every chain of the node, checked. *)
Definition toy_roomy (c : Core) (raw : RawBlock) : bool :=
  match raw_block toy_hash raw with
  | Ok b => forallb (fun p => match cache_at (objects c) p with
      | Ok ch => match TOY CHECK 3000 c ch b raw (fun _ => []) with Ok (inr a) => bool_decide (room_within 10 ch b a) | _ => true end
      | _ => true
      end) (elements (dom (objects c)))
  | _ => true
  end.
Lemma toy_roomy_ok c raw b : toy_roomy c raw = true -> raw_block toy_hash raw = Ok b -> TOY roomy 3000 c b raw (fun _ => []).
Proof.
  intros H Rb p ids ch a Hp Hc. unfold toy_roomy in H. rewrite Rb, forallb_forall in H.
  destruct (chain_at_head _ _ _ _ Hp) as (n & _ & _ & En & _ & _). specialize (H p). rewrite (cache_at_ok _ _ _ _ Hp), Hc in H.
  eapply room_within_ok, bool_decide_eq_true_1, H. apply list_elem_of_In, elem_of_elements, elem_of_dom. eauto.
Qed.

Definition toy_add (c : Core) (b : BlockTemplate) : outcome (error_code * Core) :=
  TOY addBlock 3000 c (raw_of b []) (fun _ => []) (fun _ _ => []).
Definition toy_ready (c : Core) (b : BlockTemplate) : bool := toy_roomy c (raw_of b []) && bool_decide (is_bytes (block (raw_of b []))).
Lemma toy_ready_ok c b : toy_ready c b = true -> is_bytes (block (raw_of b [])) /\ Forall is_bytes (transactions (raw_of b []))
  /\ forall b', raw_block toy_hash (raw_of b []) = Ok b' -> TOY roomy 3000 c b' (raw_of b []) (fun _ => []).
Proof.
  unfold toy_ready. rewrite andb_true_iff, bool_decide_eq_true. intros [Hr Hb]. split_and!; [done|constructor|]. intros b'. by apply toy_roomy_ok.
Qed.

Definition core_of (o : outcome Core) : Core :=
  match o with Ok c => c | _ => Build_Core ∅ 0 [] [] ∅ {| transactionPool := new_pool; recentlyDeletedTransactions := ∅; timeout := 0 |} 0 false [] end.
Definition core_after (o : outcome (error_code * Core)) : Core := core_of ('(_, c) ← o; Ok c).

Definition mined_on (previous : BlockTemplate) (index time amount : Z) : BlockTemplate :=
  {| header := {| majorVersion := getBlockMajorVersionForHeight test_currency index; minorVersion := 0; nonce := 0; timestamp := time;
                  previousBlockHash := hash_of (getBlockHash toy_hash previous) |};
     parentBlock := parentBlock new_BlockTemplate;
     baseTransaction := {| tx_prefix := {| version := 1; unlockTime := expectedUnlockTime index; inputs := [InBase {| blockIndex := index |}];
         outputs := [{| out_amount := amount; target := TargetKey {| ko_key := replicate 32 3 |} |}]; extra := [] |}; signatures := [] |};
     transactionHashes := [] |}.
(** Merge-mined: the tag names the header's hash. *)
Definition tagged (b : BlockTemplate) : BlockTemplate :=
  {| header := header b; baseTransaction := baseTransaction b; transactionHashes := transactionHashes b;
     parentBlock := {| pb_majorVersion := 1; pb_minorVersion := 0; pb_previousBlockHash := replicate 32 0; transactionCount := 1; baseTransactionBranch := [];
       pb_baseTransaction := {| version := 1; unlockTime := 0; inputs := [InBase {| blockIndex := 0 |}]; outputs := [];
                                extra := 3 :: 33 :: 0 :: hash_of (getAuxiliaryBlockHeaderHash toy_hash b) |};
       blockchainBranch := [] |} |}.

Definition rival : BlockTemplate := mined_on block0 1 2001 1192092895.
Definition rival2 : BlockTemplate := tagged (mined_on rival 2 2003 1192092753).
Definition core0 : Core := core_of (start test_currency toy_hash 86400 block0).
Definition core1 : Core := core_after (toy_add core0 mined_block).
Definition core2 : Core := core_after (toy_add core1 rival).
Definition core3 : Core := core_after (toy_add core2 rival2).

Lemma block0_genesis : genesis_ok test_currency toy_hash block0.
Proof.
  split; [by_compute| |by_compute|by_compute]. intros blob E. assert (blob = hash_of (Ok blob)) as -> by done. rewrite <- E. clear. split; [by_compute|].
  vm_compute. reflexivity.
Qed.

Lemma toy_step c b : toy_ready c b = true -> match toy_add c b with Ok (e, _) => bool_decide (added e) | _ => false end = true ->
  TOY core_step c (core_after (toy_add c b)).
Proof.
  intros H A. destruct (toy_ready_ok c b H) as (H1 & H2 & H3). destruct (toy_add c b) as [[e c']| |] eqn:E; [|done|done].
  by eapply (step_block _ _ _ _ _ _ _ _ _ _ 3000 c (raw_of b []) (fun _ => []) (fun _ _ => [])).
Qed.

Lemma core3_reachable : TOY reachable block0 core3.
Proof.
  exists 86400, core0. split; [vm_compute; reflexivity|]. eapply rtc_l; [|eapply rtc_l; [|eapply rtc_once]]; apply toy_step; vm_compute; reflexivity.
Qed.

(** The first chain is now the other one; the rival chain has the weight. *)
Lemma main_chain_heaviest_witness : exists m main ids, main_leaf core3 = Ok m /\ main_cache core3 = Ok main
  /\ ids_at (objects core3) m = Ok ids /\ mainChainSet core3 = list_to_set ids
  /\ forall p, p ∈ chainsStorage core3 -> exists ch, cache_at (objects core3) p = Ok ch /\ weight ch <= weight main.
Proof.
  apply (TOY main_chain_heaviest) with (g := block0); [exact test_currency_sane|exact block0_genesis|exact core3_reachable].
Defined.

Definition chain3 : Cache := match main_cache core3 with Ok ch => ch | _ => [] end.
Definition leaf3 : ptr := match main_leaf core3 with Ok p => p | _ => 0%nat end.
Lemma chain3_ok : cache_at (objects core3) leaf3 = Ok chain3.
Proof. vm_compute. reflexivity. Qed.

Lemma coins3 : getAlreadyGeneratedCoins chain3 2 = Ok 2384185655.
Proof. vm_compute. reflexivity. Qed.
Lemma height3 : height chain3 = 3.
Proof. vm_compute. reflexivity. Qed.
Lemma inside3 : 0 <= 2 < height chain3.
Proof. rewrite height3. lia. Qed.
Lemma chains_conserve_money_witness : 2384185655 = sumZ (created toy_hash <$> take (S (Z.to_nat 2)) (all_raw chain3)) /\ 0 <= 2384185655 <= m_moneySupply test_currency.
Proof. exact (TOY chains_conserve_money block0 core3 leaf3 chain3 2 2384185655 test_currency_sane block0_genesis core3_reachable chain3_ok inside3 coins3). Defined.

Lemma chains_no_double_spend_witness : NoDup (concat (raw_images <$> all_raw chain3)) /\
  forall ki, checkIfSpent_any chain3 ki = true <-> ki ∈ concat (raw_images <$> all_raw chain3).
Proof. exact (TOY chains_no_double_spend block0 core3 leaf3 chain3 test_currency_sane block0_genesis core3_reachable chain3_ok). Defined.

Definition raw2 : RawBlock := raw_of rival2 [].
Definition info2 : CachedBlockInfo := match all_blocks chain3 !! 2%nat with Some b => b | None => Build_CachedBlockInfo [] 0 0 0 0 0 end.
Lemma raw2_in : all_raw chain3 !! 2%nat = Some raw2.
Proof. vm_compute. reflexivity. Qed.
Lemma info2_in : all_blocks chain3 !! 2%nat = Some info2.
Proof. vm_compute. reflexivity. Qed.
Lemma chains_linked_witness : exists b below d, raw_block toy_hash raw2 = Ok b /\ getBlockHash toy_hash b = Ok (bi_blockHash info2) /\ timestamp (header b) = bi_timestamp info2
  /\ getBlockIndex b = Z.of_nat 2 /\ all_blocks chain3 !! 1%nat = Some below /\ previousBlockHash (header b) = bi_blockHash below
  /\ next_difficulty test_currency (take 2 (all_blocks chain3)) = Ok d /\ 0 < d /\ bi_cumulativeDifficulty info2 = bi_cumulativeDifficulty below + d.
Proof. exact (TOY chains_linked block0 core3 leaf3 chain3 1 raw2 info2 test_currency_sane block0_genesis core3_reachable chain3_ok raw2_in info2_in). Defined.

Lemma core2_reachable : TOY reachable block0 core2.
Proof. exists 86400, core0. split; [vm_compute; reflexivity|]. eapply rtc_l; [|eapply rtc_once]; apply toy_step; vm_compute; reflexivity. Qed.

Lemma rival2_ready : toy_ready core2 rival2 = true.
Proof. vm_compute. reflexivity. Qed.
Lemma rival2_added : toy_add core2 rival2 = Ok (AddBlock ADDED_TO_ALTERNATIVE_AND_SWITCHED, core3).
Proof. vm_compute. reflexivity. Qed.
Lemma added_block_found_witness : exists b h, raw_block toy_hash raw2 = Ok b /\ getBlockHash toy_hash b = Ok h /\ Core_hasBlock core3 h = Ok true
  /\ forall now' scheds' back', TOY addBlock now' core3 raw2 scheds' back' = Ok (AddBlock ALREADY_EXISTS, core3).
Proof.
  destruct (toy_ready_ok core2 rival2 rival2_ready) as (H1 & H2 & H3).
  refine (proj1 (TOY added_block_found block0 core2 3000 raw2 (fun _ => []) (fun _ _ => []) _ core3 test_currency_sane block0_genesis core2_reachable H1 H2 H3 rival2_added) _).
  right. by right.
Defined.
