(* ===== verification/WalletUtil.v ===== *)
(** * WalletUtil: [utilities/Utilities.cpp], [utilities/Utilities.h] and [utilities/String.cpp]

    The helpers of the wallets: unlock times, sums and their overflow, heights and
    timestamps, the size of a transaction, host and port of a daemon, text.  The clock
    ([std::time]) is the argument [now]. *)

From Stdlib Require Import ZArith Lia.
From stdpp Require Import base tactics list numbers strings.
From S2P Require Import Prelude Config Types Currency.

Local Open Scope Z_scope.

(** ** Sums *)

Definition getTransactionSum (destinations : list (bytes * Z)) : Z :=
  foldl (fun amountSum d => u64 (amountSum + d.2)) 0 destinations.

(** At [uint64_t], the type it is used at, neither number is negative. *)
Definition additionWillOverflow (a b : Z) : bool :=
  let result := u64 (a + b) in
  let larger := Z.max a b in
  if (a <? 0) || (b <? 0) then larger <? result else result <? larger.

Fixpoint sum_overflow_loop (sum : Z) (amounts : list Z) : bool :=
  match amounts with
  | [] => false
  | item :: rest => if additionWillOverflow item sum then true else sum_overflow_loop (u64 (sum + item)) rest
  end.
Definition sumWillOverflow (amounts : list Z) : bool := sum_overflow_loop 0 amounts.

(** ** Heights and times *)

Definition getLowerBound (val nearestMultiple : Z) : outcome Z :=
  _ ← assert (negb (nearestMultiple =? 0)) "getLowerBound: division by zero";
  let remainder := val mod nearestMultiple in
  Ok (val - remainder).
Definition getUpperBound (val nearestMultiple : Z) : outcome Z :=
  low ← getLowerBound val nearestMultiple; Ok (u64 (low + nearestMultiple)).

Definition isInputUnlocked (now unlockTime currentHeight : Z) : bool :=
  if unlockTime =? 0 then true
  else if CRYPTONOTE_MAX_BLOCK_NUMBER <=? unlockTime then unlockTime <=? u64 (now + CRYPTONOTE_LOCKED_TX_ALLOWED_DELTA_SECONDS)
  else unlockTime <=? u64 (currentHeight + CRYPTONOTE_LOCKED_TX_ALLOWED_DELTA_BLOCKS).

Definition getMaxTxSize (currentHeight : Z) : Z :=
  let numerator := u64 (currentHeight * MAX_BLOCK_SIZE_GROWTH_SPEED_NUMERATOR) in
  let growth := numerator / MAX_BLOCK_SIZE_GROWTH_SPEED_DENOMINATOR in
  let x := u64 (MAX_BLOCK_SIZE_INITIAL + growth) in
  Z.min x 125000 - CRYPTONOTE_COINBASE_BLOB_RESERVED_SIZE.

Definition getCurrentTimestampAdjusted (now : Z) : Z := u64 (now - CRYPTONOTE_BLOCK_FUTURE_TIME_LIMIT).

(** The expected time of a height since the launch. *)
Definition secondsSinceLaunch (scanHeight : Z) : Z :=
  let s := 0 in
  let s := if DIFFICULTY_TARGET_V3_HEIGHT <=? scanHeight
           then u64 (s + u64 (u64 (scanHeight - DIFFICULTY_TARGET_V3_HEIGHT) * DIFFICULTY_TARGET_V3)) else s in
  let s := if DIFFICULTY_TARGET_V2_HEIGHT <=? scanHeight then
             let maxV2Block := Z.min scanHeight (DIFFICULTY_TARGET_V3_HEIGHT - 1) in
             u64 (s + u64 (u64 (maxV2Block - DIFFICULTY_TARGET_V2_HEIGHT) * DIFFICULTY_TARGET_V2)) else s in
  let numBlocksWithV1Diff := Z.min scanHeight (DIFFICULTY_TARGET_V2_HEIGHT - 1) in
  u64 (s + u64 (numBlocksWithV1Diff * DIFFICULTY_TARGET)).

Definition scanHeightToTimestamp (now scanHeight : Z) : Z :=
  if scanHeight =? 0 then 0
  else
    let timestamp := u64 (GENESIS_BLOCK_TIMESTAMP + secondsSinceLaunch scanHeight) in
    if getCurrentTimestampAdjusted now <=? timestamp then getCurrentTimestampAdjusted now else timestamp.

(** [std::max<uint64_t>(0, x)] of an unsigned [x]. *)
Definition timestampToScanHeight (timestamp : Z) : Z :=
  if timestamp =? 0 then 0
  else if timestamp <=? GENESIS_BLOCK_TIMESTAMP then 0
  else
    let launchTimestampDelta := timestamp - GENESIS_BLOCK_TIMESTAMP in
    Z.max 0 (u64 (launchTimestampDelta / DIFFICULTY_TARGET - 10000)).

(** ** The size of a transaction *)

Definition getApproximateMaximumInputCount (transactionSize outputCount mixinCount : Z) : outcome Z :=
  let AMOUNT_SIZE := 8 + 2 in
  let outputsSize := u64 (outputCount * (1 + 32 + AMOUNT_SIZE)) in
  let headerSize := 1 + 8 + 1 + 32 in
  let inputSize := u64 (1 + AMOUNT_SIZE + 32 + 64 + 1 + 4 + u64 (mixinCount * (4 + 64))) in
  _ ← assert (negb (inputSize =? 0)) "getApproximateMaximumInputCount: division by zero";
  Ok (u64 (transactionSize - headerSize - outputsSize) / inputSize).

(** ** Text *)

Definition removeCharFromString (s : bytes) (c : Z) : bytes := filter (fun x => x <> c) s.
Definition startsWith (s substring : bytes) : bool := bool_decide (take (length substring) s = substring).
Definition removePrefix (s prefix : bytes) : bytes := if startsWith s prefix then drop (length prefix) s else s.

(** [std::getline] up to each delimiter: no token after a last delimiter. *)
Fixpoint split_loop (delimiter : Z) (token s : bytes) : list bytes :=
  match s with
  | [] => if bool_decide (token = []) then [] else [token]
  | c :: rest => if c =? delimiter then token :: split_loop delimiter [] rest else split_loop delimiter (token ++ [c]) rest
  end.
Definition split (s : bytes) (delimiter : Z) : list bytes := split_loop delimiter [] s.

(** [std::stoi]: the spaces [leftTrim] skips, a sign, digits; the rest is ignored. *)
Definition is_dec (c : Z) : bool := (48 <=? c) && (c <=? 57).
Fixpoint dec_prefix (acc : Z) (s : bytes) : Z :=
  match s with c :: rest => if is_dec c then dec_prefix (10 * acc + (c - 48)) rest else acc | [] => acc end.
Inductive stoi_result := StoiValue (i : Z) | StoiInvalidArgument | StoiOutOfRange.
Definition stoi (s : bytes) : stoi_result :=
  let s := leftTrim s in
  let '(sign, s) := match s with 45 :: rest => (-1, rest) | 43 :: rest => (1, rest) | _ => (1, s) end in
  match s with
  | c :: _ =>
      if is_dec c then
        let v := sign * dec_prefix 0 s in
        if (- 2 ^ 31 <=? v) && (v <? 2 ^ 31) then StoiValue v else StoiOutOfRange
      else StoiInvalidArgument
  | [] => StoiInvalidArgument
  end.

Definition RPC_DEFAULT_PORT : Z := 6969.
Definition char_colon : Z := 58.

(** Host and port; [None] is [false].  Only [std::invalid_argument] is caught. *)
Definition parseDaemonAddressFromString (address : bytes) : outcome (option (bytes * Z)) :=
  let address := removePrefix address (str "https://") in
  let address := removePrefix address (str "http://") in
  match split address char_colon with
  | [] => Ok None
  | [host] => Ok (Some (host, RPC_DEFAULT_PORT))
  | host :: p :: _ =>
      match stoi p with
      | StoiValue v => Ok (Some (host, u16 v))
      | StoiInvalidArgument => Ok None
      | StoiOutOfRange => Throw "stoi"
      end
  end.

(** ** Laws *)

Lemma sum_overflow_loop_ok amounts : forall sum, is_u64 sum -> Forall is_u64 amounts ->
  sum_overflow_loop sum amounts = negb (sum + sumZ amounts <? 2 ^ 64).
Proof.
  induction amounts as [|a l IH]; intros sum Hs Hl; cbn [sum_overflow_loop].
  { unfold sumZ. simpl. rewrite (proj2 (Z.ltb_lt _ _)) by width_solve. done. }
  inversion Hl as [|? ? Ha Hl']; subst. pose proof (sumZ_nonneg l) as Hn.
  assert (0 <= sumZ l) by (apply Hn; eapply Forall_impl; [exact Hl'|]; intros x []; done). rewrite sumZ_cons.
  unfold additionWillOverflow. rewrite (proj2 (Z.ltb_ge a 0)), (proj2 (Z.ltb_ge sum 0)) by width_solve. simpl.
  destruct (decide (sum + a < 2 ^ 64)).
  - rewrite !wrap_small by width_solve. rewrite (proj2 (Z.ltb_ge _ _)) by width_solve. rewrite IH by (done || width_solve). f_equal. f_equal. lia.
  - assert (u64 (a + sum) = a + sum - 2 ^ 64) as ->.
    { unfold wrap. symmetry. apply (Z.mod_unique_pos _ _ 1); width_solve. }
    rewrite (proj2 (Z.ltb_lt (a + sum - 2 ^ 64) _)) by width_solve. rewrite (proj2 (Z.ltb_ge (sum + (a + sumZ l)) _)) by lia. done.
Qed.
Lemma sumWillOverflow_ok amounts : Forall is_u64 amounts -> sumWillOverflow amounts = negb (sumZ amounts <? 2 ^ 64).
Proof. intros. unfold sumWillOverflow. rewrite sum_overflow_loop_ok; [done|by_compute|done]. Qed.

Lemma foldl_sum {A} (f : A -> Z) l : forall a, is_u64 a -> foldl (fun acc x => u64 (acc + f x)) a l = u64 (a + sumZ (f <$> l)).
Proof.
  induction l as [|x l IH]; intros a Ha; cbn [foldl]; [unfold sumZ; simpl; rewrite Z.add_0_r, wrap_small by done; done|].
  rewrite IH by (apply (wrap_range 64); lia). rewrite wrap_add_l, fmap_cons, sumZ_cons. f_equal. lia.
Qed.
Lemma getTransactionSum_ok d : getTransactionSum d = u64 (sumZ (snd <$> d)).
Proof. unfold getTransactionSum. rewrite (foldl_sum snd) by by_compute. done. Qed.

(** The sizes of inputs that fit: what is left after the header and the outputs, in whole inputs. *)
Lemma getApproximateMaximumInputCount_ok size outputs mixin : is_u64 size -> 0 <= outputs -> 0 <= mixin < 2 ^ 57 -> 42 + 43 * outputs <= size ->
  getApproximateMaximumInputCount size outputs mixin = Ok ((size - 42 - 43 * outputs) / (112 + 68 * mixin)).
Proof.
  intros Hs Ho Hm Hle. unfold getApproximateMaximumInputCount.
  replace (1 + 32 + (8 + 2)) with 43 by lia. rewrite (wrap_small 64 (outputs * 43)) by width_solve.
  rewrite (wrap_small 64 (mixin * _)) by width_solve.
  rewrite (wrap_small 64 (1 + _ + _ + _ + _ + _ + _)) by width_solve.
  rewrite (proj2 (Z.eqb_neq _ 0)) by lia. okbind. rewrite wrap_small by width_solve. f_equal. f_equal; lia.
Qed.

(** The model of a height's time in closed form. *)
Lemma secondsSinceLaunch_ok h : 0 <= h < 2 ^ 55 ->
  secondsSinceLaunch h = Z.min h 699999 * 10 + Z.max 0 (Z.min h 2324999 - 700000) * 20 + Z.max 0 (h - 2325000) * 300.
Proof.
  intros Hh. unfold secondsSinceLaunch, DIFFICULTY_TARGET_V3_HEIGHT, DIFFICULTY_TARGET_V2_HEIGHT, DIFFICULTY_TARGET_V3, DIFFICULTY_TARGET_V2, DIFFICULTY_TARGET.
  destruct (Z.leb_spec 2325000 h); destruct (Z.leb_spec 700000 h); try lia; rewrite ?(wrap_small 64 (h - 2325000)) by width_solve;
    rewrite ?(wrap_small 64 (Z.min h _ - 700000)) by width_solve; rewrite ?wrap_add_l, ?wrap_add_r;
    rewrite ?(wrap_small 64 (0 + _ * 300)), ?(wrap_small 64 (_ * 20)) by width_solve;
    rewrite wrap_small by width_solve; lia.
Qed.

(** ** Properties *)

(** The scan height computed back from the time a block is expected at.  While the first
    difficulty target lasts it is ten thousand blocks below the height, as meant; for the first ten
    thousand blocks the subtraction wraps around; and from height 710002 on, since the later, slower
    targets are not taken into account, it is above the height, so that a wallet reset to that
    time never scans the block. *)
Theorem timestampToScanHeight_skips h : 0 < h < 2 ^ 55 ->
  let t := GENESIS_BLOCK_TIMESTAMP + secondsSinceLaunch h in
  (h < 10000 -> timestampToScanHeight t = 2 ^ 64 - 10000 + h)
  /\ (10000 <= h < 700000 -> timestampToScanHeight t = h - 10000)
  /\ (710002 <= h -> h < timestampToScanHeight t).
Proof.
  intros Hh. cbv zeta. unfold timestampToScanHeight. rewrite secondsSinceLaunch_ok by lia. unfold GENESIS_BLOCK_TIMESTAMP, DIFFICULTY_TARGET.
  rewrite (proj2 (Z.eqb_neq _ 0)), (proj2 (Z.leb_gt _ _)) by lia. set (s := Z.min h 699999 * 10 + _ + _).
  replace (1545261161 + s - 1545261161) with s by lia. split_and!; intros H.
  - replace s with (h * 10) by lia. rewrite Z.div_mul by lia. unfold wrap.
    rewrite <- (Z.mod_unique_pos (h - 10000) (2 ^ 64) (-1) (2 ^ 64 - 10000 + h)) by lia. lia.
  - replace s with (h * 10) by lia. rewrite Z.div_mul by lia. rewrite wrap_small by width_solve. lia.
  - assert (h + 10001 <= s / 10) by (apply Z.div_le_lower_bound; lia).
    assert (s / 10 < 2 ^ 62) by (apply Z.div_lt_upper_bound; lia). rewrite wrap_small by width_solve. lia.
Qed.
Lemma timestampToScanHeight_skips_witness : 2500000 < timestampToScanHeight (GENESIS_BLOCK_TIMESTAMP + secondsSinceLaunch 2500000).
Proof. exact (proj2 (proj2 (timestampToScanHeight_skips 2500000 ltac:(lia))) ltac:(lia)). Defined.
