(* ===== verification/Addresses.v ===== *)
(** * Addresses: [utilities/Addresses.cpp], and what [errors/ValidateParameters.cpp] checks without a wallet

    Standard and integrated addresses: their texts, the keys and payment IDs in them, and
    the checks of hashes, payment IDs, addresses and destinations.  The message an [Error]
    may carry for display is left out: an error is its code ([errors/Errors.h]). *)

From Stdlib Require Import ZArith Lia.
From stdpp Require Import base tactics list numbers strings.
From S2P Require Import Prelude Stream StringTools Base58 Config Types Serializer TxSerialization TransactionExtra.

Local Open Scope Z_scope.

(** ** [ErrorCode] *)

Inductive ErrorCode :=
| SUCCESS | FILENAME_NON_EXISTENT | INVALID_WALLET_FILENAME | NOT_A_WALLET_FILE | WALLET_FILE_CORRUPTED | WRONG_PASSWORD
| UNSUPPORTED_WALLET_FILE_FORMAT_VERSION | INVALID_MNEMONIC | WALLET_FILE_ALREADY_EXISTS | WILL_OVERFLOW | ADDRESS_NOT_IN_WALLET
| NOT_ENOUGH_BALANCE | ADDRESS_WRONG_LENGTH | ADDRESS_WRONG_PREFIX | ADDRESS_NOT_BASE58 | ADDRESS_NOT_VALID
| INTEGRATED_ADDRESS_PAYMENT_ID_INVALID | FEE_TOO_SMALL | NO_DESTINATIONS_GIVEN | AMOUNT_IS_ZERO | FAILED_TO_CREATE_RING_SIGNATURE
| MIXIN_TOO_SMALL | MIXIN_TOO_BIG | PAYMENT_ID_WRONG_LENGTH | PAYMENT_ID_INVALID | ADDRESS_IS_INTEGRATED | CONFLICTING_PAYMENT_IDS
| CANT_GET_FAKE_OUTPUTS | NOT_ENOUGH_FAKE_OUTPUTS | INVALID_GENERATED_KEYIMAGE | DAEMON_OFFLINE | DAEMON_ERROR
| TOO_MANY_INPUTS_TO_FIT_IN_BLOCK | MNEMONIC_INVALID_WORD | MNEMONIC_WRONG_LENGTH | MNEMONIC_INVALID_CHECKSUM | FULLY_OPTIMIZED
| FUSION_MIXIN_TOO_LARGE | SUBWALLET_ALREADY_EXISTS | ILLEGAL_VIEW_WALLET_OPERATION | ILLEGAL_NON_VIEW_WALLET_OPERATION
| KEYS_NOT_DETERMINISTIC | CANNOT_DELETE_PRIMARY_ADDRESS | TX_PRIVATE_KEY_NOT_FOUND | AMOUNTS_NOT_PRETTY | UNEXPECTED_FEE
| NEGATIVE_VALUE_GIVEN | INVALID_KEY_FORMAT | HASH_WRONG_LENGTH | HASH_INVALID | NON_INTEGER_GIVEN | INVALID_PUBLIC_KEY
| INVALID_PRIVATE_KEY | INVALID_EXTRA_DATA | UNKNOWN_ERROR | DAEMON_STILL_PROCESSING | OUTPUT_DECOMPOSITION | API_BODY_REQUIRED
| API_BLOCKEXPLORER_DISABLED | API_NODE_NOT_SYNCED | API_INVALID_ARGUMENT | API_INTERNAL_ERROR | API_TRANSACTION_POOL_INSERT_FAILED
| API_BLOCK_NOT_ACCEPTED | API_HASH_NOT_FOUND.
#[global] Instance ErrorCode_eq_dec : EqDecision ErrorCode.
Proof. solve_decision. Defined.

(** [if (Error error = o; error != SUCCESS) return error;], then [k]. *)
Definition and_then (o k : outcome ErrorCode) : outcome ErrorCode :=
  error ← o; match error with SUCCESS => k | _ => Ok error end.

Lemma and_then_success o k : and_then o k = Ok SUCCESS <-> o = Ok SUCCESS /\ k = Ok SUCCESS.
Proof. unfold and_then. destruct o as [[]| |]; simpl; naive_solver. Qed.

(** ** [WalletConfig] *)

Definition addressPrefix : bytes := str "dg".
Definition standardAddressLength : Z := 97.
Definition integratedAddressLength : Z := standardAddressLength + (64 * 11) / 8.
Definition paymentIDLen : nat := 64.

(** [std::string::substr(pos)] throws past the end. *)
Definition substr_from (pos : nat) (s : bytes) : outcome bytes :=
  if (length s <? pos)%nat then Throw "basic_string::substr" else Ok (drop pos s).

(** ** Payment IDs and hashes

    The regular expression of both is [[a-zA-Z0-9]{64}]. *)

Definition is_alnum (c : Z) : bool := ((97 <=? c) && (c <=? 122)) || ((65 <=? c) && (c <=? 90)) || ((48 <=? c) && (c <=? 57)).

Definition validateHash (hash : bytes) : ErrorCode :=
  if negb (Z.of_nat (length hash) =? 64) then HASH_WRONG_LENGTH
  else if negb (forallb is_alnum hash) then HASH_INVALID
  else SUCCESS.

Definition validatePaymentID (paymentID : bytes) : ErrorCode :=
  if bool_decide (paymentID = []) then SUCCESS
  else if negb (Z.of_nat (length paymentID) =? 64) then PAYMENT_ID_WRONG_LENGTH
  else if negb (forallb is_alnum paymentID) then PAYMENT_ID_INVALID
  else SUCCESS.

Section addresses.
Context (cn_fast_hash : bytes -> bytes) (check_key : PublicKey -> bool) (secret_key_to_public_key : SecretKey -> PublicKey).

Definition no_address : AccountPublicAddress := {| spendPublicKey := []; viewPublicKey := [] |}.

(** ** Keys to text and back *)

Definition getAccountAddressAsStr (prefix : Z) (adr : AccountPublicAddress) : outcome bytes :=
  ba ← toBinaryArray serialize_AccountPublicAddress adr;
  encode_addr cn_fast_hash prefix ba.

(** [None] is [false]. *)
Definition parseAccountAddressString (s : bytes) : outcome (option (Z * AccountPublicAddress)) :=
  d ← decode_addr cn_fast_hash s;
  match d with
  | None => Ok None
  | Some (prefix, data) =>
      a ← fromBinaryArray_opt serialize_AccountPublicAddress no_address data;
      Ok (match a with
          | None => None
          | Some adr => if check_key (spendPublicKey adr) && check_key (viewPublicKey adr) then Some (prefix, adr) else None
          end)
  end.

(** Spend key and view key. *)
Definition addressToKeys (address : bytes) : outcome (PublicKey * PublicKey) :=
  p ← parseAccountAddressString address;
  match p with
  | None => Throw "Address is not valid!"
  | Some (prefix, parsedAddress) =>
      if negb (prefix =? CRYPTONOTE_PUBLIC_ADDRESS_BASE58_PREFIX) then Throw "Address is not valid!"
      else Ok (spendPublicKey parsedAddress, viewPublicKey parsedAddress)
  end.

Fixpoint addressesToSpendKeys (addresses : list bytes) : outcome (list PublicKey) :=
  match addresses with
  | [] => Ok []
  | address :: rest =>
      '(spendKey, _) ← addressToKeys address;
      spendKeys ← addressesToSpendKeys rest;
      Ok (spendKey :: spendKeys)
  end.

Definition publicKeysToAddress (publicSpendKey publicViewKey : PublicKey) : outcome bytes :=
  getAccountAddressAsStr CRYPTONOTE_PUBLIC_ADDRESS_BASE58_PREFIX {| spendPublicKey := publicSpendKey; viewPublicKey := publicViewKey |}.

Definition privateKeysToAddress (privateSpendKey privateViewKey : SecretKey) : outcome bytes :=
  getAccountAddressAsStr CRYPTONOTE_PUBLIC_ADDRESS_BASE58_PREFIX
    {| spendPublicKey := secret_key_to_public_key privateSpendKey; viewPublicKey := secret_key_to_public_key privateViewKey |}.

(** ** Integrated addresses *)

(** Address and payment ID.  A text that does not decode leaves [decoded] empty; keys that do not
    parse leave the address uninitialised. *)
Definition extractIntegratedAddressData (address : bytes) : outcome (bytes * bytes) :=
  d ← decode_addr cn_fast_hash address;
  let decoded := match d with Some (_, data) => data | None => [] end in
  let paymentID := take paymentIDLen decoded in
  keys ← substr_from paymentIDLen decoded;
  a ← fromBinaryArray_opt serialize_AccountPublicAddress no_address keys;
  match a with
  | None => Undefined "the keys of an address that did not parse"
  | Some addr =>
      actualAddress ← getAccountAddressAsStr CRYPTONOTE_PUBLIC_ADDRESS_BASE58_PREFIX addr;
      Ok (actualAddress, paymentID)
  end.

Definition validateAddress (integratedAddressesAllowed : bool) (address : bytes) : outcome ErrorCode :=
  let len := Z.of_nat (length address) in
  let final address :=
    p ← parseAccountAddressString address;
    Ok (match p with None => ADDRESS_NOT_VALID | Some _ => SUCCESS end) in
  if negb (len =? standardAddressLength) && negb (len =? integratedAddressLength) then Ok ADDRESS_WRONG_LENGTH
  else if bool_decide (take (length addressPrefix) address <> addressPrefix) then Ok ADDRESS_WRONG_PREFIX
  else if len =? integratedAddressLength then
    if negb integratedAddressesAllowed then Ok ADDRESS_IS_INTEGRATED
    else
      d ← decode_addr cn_fast_hash address;
      match d with
      | None => Ok ADDRESS_NOT_BASE58
      | Some (_, decoded) =>
          let paymentID := take paymentIDLen decoded in
          match createTxExtraWithPaymentId paymentID [] with
          | None => Ok INTEGRATED_ADDRESS_PAYMENT_ID_INVALID
          | Some _ =>
              keys ← substr_from paymentIDLen decoded;
              a ← fromBinaryArray_opt serialize_AccountPublicAddress no_address keys;
              match a with
              | None => Ok ADDRESS_NOT_VALID
              | Some addr =>
                  address ← getAccountAddressAsStr CRYPTONOTE_PUBLIC_ADDRESS_BASE58_PREFIX addr;
                  final address
              end
          end
      end
  else final address.

Fixpoint validateAddresses (addresses : list bytes) (integratedAddressesAllowed : bool) : outcome ErrorCode :=
  match addresses with
  | [] => Ok SUCCESS
  | address :: rest => and_then (validateAddress integratedAddressesAllowed address) (validateAddresses rest integratedAddressesAllowed)
  end.

Definition createIntegratedAddress (address paymentID : bytes) : outcome (ErrorCode * bytes) :=
  match validatePaymentID paymentID with
  | SUCCESS =>
      error ← validateAddresses [address] false;
      match error with
      | SUCCESS =>
          p ← parseAccountAddressString address;
          match p with
          | None => Undefined "the keys of an address that did not parse"
          | Some (_, addr) =>
              keys ← toBinaryArray serialize_AccountPublicAddress addr;
              integratedAddress ← encode_addr cn_fast_hash CRYPTONOTE_PUBLIC_ADDRESS_BASE58_PREFIX (paymentID ++ keys);
              Ok (SUCCESS, integratedAddress)
          end
      | _ => Ok (error, [])
      end
  | error => Ok (error, [])
  end.

(** ** Destinations *)

Fixpoint has_zero_amount (destinations : list (bytes * Z)) : bool :=
  match destinations with
  | [] => false
  | (_, amount) :: rest => if amount =? 0 then true else has_zero_amount rest
  end.
Definition validateDestinations (destinations : list (bytes * Z)) : outcome ErrorCode :=
  if bool_decide (destinations = []) then Ok NO_DESTINATIONS_GIVEN
  else if has_zero_amount destinations then Ok AMOUNT_IS_ZERO
  else validateAddresses (fst <$> destinations) true.

Fixpoint validateIntegratedAddresses (destinations : list (bytes * Z)) (paymentID : bytes) : outcome ErrorCode :=
  match destinations with
  | [] => Ok SUCCESS
  | (address, _) :: rest =>
      if negb (Z.of_nat (length address) =? integratedAddressLength) then validateIntegratedAddresses rest paymentID
      else
        '(_, extractedPaymentID) ← extractIntegratedAddressData address;
        if bool_decide (paymentID = []) then validateIntegratedAddresses rest extractedPaymentID
        else if bool_decide (paymentID <> extractedPaymentID) then Ok CONFLICTING_PAYMENT_IDS
        else validateIntegratedAddresses rest paymentID
  end.
End addresses.

(** ** The shape of an encoded address *)

Lemma encode_length data e : is_bytes data -> encode data = Ok e ->
  length e = (11 * (length data / 8) + encoded_block_size (length data mod 8))%nat.
Proof.
  intros Hd E. unfold encode in E. case_bool_decide as Hne; [inv_ok; by simplify_eq|]. unfold full_block_size in E.
  set (q := (length data / 8)%nat) in *. set (r := (length data mod 8)%nat) in *.
  assert (Hl : length data = (8 * q + r)%nat) by apply Nat.div_mod_eq.
  assert (Hr : (r < 8)%nat) by (apply Nat.mod_upper_bound; lia). clearbody q r.
  destruct (encode_full_ok q data Hd ltac:(lia)) as (e' & Ee & Hel & _). rewrite Ee in E.
  cbn [mbind outcome_bind] in E. destruct (Nat.ltb_spec 0 r) as [Hpos|Hzero].
  - inv_ok. subst e. assert (Hlast : length (drop (q * 8) data) = r) by (rewrite length_drop; lia).
    destruct (encoded_block_roundtrip (drop (q * 8) data)) as (el & El & Hell & _); [by apply Forall_drop|lia|].
    rewrite El in Hok. inv_ok. subst v. rewrite length_app, Hel, Hell, Hlast. done.
  - inv_ok. subst e'. rewrite Hel. by replace r with 0%nat by lia.
Qed.

Lemma encode_head data e : is_bytes data -> (8 <= length data)%nat -> encode data = Ok e ->
  exists rest, e = (alphabet_at <$> reverse (to_base 58 11 (le_val (reverse (take 8 data))))) ++ rest.
Proof.
  intros Hd Hl E. unfold encode in E. rewrite bool_decide_eq_false_2 in E by (intros ->; simpl in Hl; lia). unfold full_block_size in E.
  destruct (length data / 8)%nat as [|q] eqn:Hq; [apply Nat.div_small_iff in Hq; lia|]. cbn [encode_full_blocks] in E. unfold full_block_size in E.
  assert (Ht : length (take 8 data) = 8%nat) by (rewrite length_take; lia).
  rewrite (encode_block_ok (take 8 data)), Ht in E; [|by apply Forall_take|rewrite Ht; lia]. change (encoded_block_size 8) with 11%nat in E.
  inv_ok. subst v. destruct (0 <? _)%nat; inv_ok; subst; [|by eexists]. rewrite <- app_assoc. by eexists.
Qed.

(** The first block of an address: a prefix of two bytes, [8411] among them, and six more bytes. *)
Lemma prefix_block c l : 65 <= c < 80 -> length l = 6%nat -> is_bytes l ->
  take 2 (alphabet_at <$> reverse (to_base 58 11 (le_val (reverse (219 :: c :: l))))) = addressPrefix.
Proof.
  intros Hc Hl Hb. rewrite !reverse_cons, <- app_assoc. set (x := le_val _).
  assert (Hx : x / 58 ^ Z.of_nat 9 = 2127).
  { unfold x. rewrite from_base_app by lia. pose proof (le_val_bound (reverse l)) as B. rewrite length_reverse, Hl in B.
    specialize (B ltac:(unfold is_bytes; by rewrite Forall_reverse)). rewrite length_reverse, Hl. cbn [app from_base].
    change (256 ^ Z.of_nat 6) with 281474976710656 in *. change (58 ^ Z.of_nat 9) with 7427658739644928.
    symmetry. apply (Z.div_unique _ _ _ (le_val (reverse l) + 281474976710656 * (c + 256 * 219) - 7427658739644928 * 2127)); lia. }
  rewrite (to_base_app 58 ltac:(lia) 9 2), Hx, reverse_app, fmap_app, take_app_length' by done. by vm_compute.
Qed.

Section address_laws.
Context (cn_fast_hash : bytes -> bytes) (check_key : PublicKey -> bool).
(** A digest is 32 bytes. *)
Hypothesis hash_bytes : forall x, is_bytes x -> is_bytes (cn_fast_hash x) /\ length (cn_fast_hash x) = 32%nat.

(** An address of the network: [data] after the prefix, base58 coded. *)
Lemma encode_addr_shape data addr c tag : get_varint_data tag = [219; c] -> 65 <= c < 80 -> is_bytes data -> (6 <= length data)%nat ->
  encode_addr cn_fast_hash tag data = Ok addr ->
  take 2 addr = addressPrefix /\ length addr = (11 * ((length data + 6) / 8) + encoded_block_size ((length data + 6) mod 8))%nat.
Proof using hash_bytes.
  intros Ht Hc Hd Hl E. unfold encode_addr in E. rewrite Ht in E. set (buf := [219; c] ++ data) in *.
  assert (Hbuf : is_bytes buf) by (apply Forall_app; split; [repeat constructor; unfold in_width; lia|done]).
  destruct (hash_bytes buf Hbuf) as [Hh Hhl].
  assert (Hall : is_bytes (buf ++ take addr_checksum_size (cn_fast_hash buf))) by (apply Forall_app; split; [done|by apply Forall_take]).
  assert (Hn : length (buf ++ take addr_checksum_size (cn_fast_hash buf)) = (length data + 6)%nat).
  { rewrite length_app, length_take, Hhl. unfold buf, addr_checksum_size. rewrite length_app. simpl. lia. }
  split; [|rewrite (encode_length _ _ Hall E), Hn; done]. destruct (encode_head _ _ Hall ltac:(lia) E) as [rest ->].
  rewrite take_app_le by (rewrite length_fmap, length_reverse, length_to_base; lia).
  rewrite take_app_le by (unfold buf; rewrite length_app; simpl; lia). unfold buf. cbn [app take].
  apply prefix_block; [done|rewrite length_take; lia|by apply Forall_take].
Qed.

Definition wf_keys (a : AccountPublicAddress) : Prop := pod 32 (spendPublicKey a) /\ pod 32 (viewPublicKey a).
Definition checked_keys (a : AccountPublicAddress) : Prop :=
  wf_keys a /\ check_key (spendPublicKey a) = true /\ check_key (viewPublicKey a) = true.

Lemma keys_bytes a : wf_keys a -> exists ba, is_bytes ba /\ length ba = 64%nat
  /\ toBinaryArray serialize_AccountPublicAddress a = Ok ba /\ fromBinaryArray_opt serialize_AccountPublicAddress no_address ba = Ok (Some a).
Proof.
  intros W. destruct (whole_roundtrip any _ serialize_AccountPublicAddress no_address a I W) as (ba & Hb & Ew & Er). exists ba.
  split_and!; [done| |done|unfold fromBinaryArray_opt; by rewrite Er]. destruct a as [sk vk], W as [[_ Hs] [_ Hv]]. simpl in *.
  assert (ba = sk ++ vk) as ->; [by injection Ew|]. rewrite length_app. lia.
Qed.

Lemma prefix_tag : get_varint_data CRYPTONOTE_PUBLIC_ADDRESS_BASE58_PREFIX = [219; 65].
Proof. by vm_compute. Qed.

Lemma address_ok a : wf_keys a -> exists addr, getAccountAddressAsStr cn_fast_hash CRYPTONOTE_PUBLIC_ADDRESS_BASE58_PREFIX a = Ok addr
  /\ is_bytes addr /\ Z.of_nat (length addr) = standardAddressLength /\ take 2 addr = addressPrefix
  /\ parseAccountAddressString cn_fast_hash check_key addr =
     Ok (if check_key (spendPublicKey a) && check_key (viewPublicKey a) then Some (CRYPTONOTE_PUBLIC_ADDRESS_BASE58_PREFIX, a) else None).
Proof using hash_bytes.
  intros W. destruct (keys_bytes a W) as (ba & Hb & Hl & Ew & Er).
  destruct (decode_encode_addr cn_fast_hash hash_bytes CRYPTONOTE_PUBLIC_ADDRESS_BASE58_PREFIX ba) as (addr & Ea & Hab & Ed); [by_compute|done|].
  exists addr. unfold getAccountAddressAsStr, parseAccountAddressString. rewrite Ew. okbind. rewrite Ed. okbind. rewrite Er. okbind.
  destruct (encode_addr_shape ba addr 65 _ prefix_tag ltac:(lia) Hb ltac:(lia) Ea) as [Hp Hn]. rewrite Hl in Hn.
  split_and!; [done|done|rewrite Hn; by vm_compute|done|done].
Qed.

(** The check of a standard address ends in the parse. *)
Lemma validate_standard addr allowed : Z.of_nat (length addr) = standardAddressLength -> take 2 addr = addressPrefix ->
  validateAddress cn_fast_hash check_key allowed addr =
  (p ← parseAccountAddressString cn_fast_hash check_key addr; Ok (match p with None => ADDRESS_NOT_VALID | Some _ => SUCCESS end)).
Proof.
  intros Hl Hp. unfold validateAddress. rewrite Hl. change (length addressPrefix) with 2%nat. rewrite bool_decide_eq_false_2 by tauto. done.
Qed.

Lemma validated_address a : checked_keys a -> exists addr, publicKeysToAddress cn_fast_hash (spendPublicKey a) (viewPublicKey a) = Ok addr
  /\ is_bytes addr /\ Z.of_nat (length addr) = standardAddressLength /\ take 2 addr = addressPrefix
  /\ parseAccountAddressString cn_fast_hash check_key addr = Ok (Some (CRYPTONOTE_PUBLIC_ADDRESS_BASE58_PREFIX, a))
  /\ forall allowed, validateAddress cn_fast_hash check_key allowed addr = Ok SUCCESS.
Proof using hash_bytes.
  intros (W & Cs & Cv). destruct (address_ok a W) as (addr & Ea & Hb & Hl & Hp & Er). rewrite Cs, Cv in Er. exists addr.
  split_and!; [by destruct a|done..|]. intros. rewrite validate_standard, Er by done. done.
Qed.

(** An integrated address holds the payment ID and the keys of the address it was made from. *)
Lemma integrated_shape a ba id : toBinaryArray serialize_AccountPublicAddress a = Ok ba -> is_bytes ba -> length ba = 64%nat ->
  is_bytes id -> length id = paymentIDLen -> exists ia, encode_addr cn_fast_hash CRYPTONOTE_PUBLIC_ADDRESS_BASE58_PREFIX (id ++ ba) = Ok ia
  /\ is_bytes ia /\ Z.of_nat (length ia) = integratedAddressLength /\ take 2 ia = addressPrefix
  /\ decode_addr cn_fast_hash ia = Ok (Some (CRYPTONOTE_PUBLIC_ADDRESS_BASE58_PREFIX, id ++ ba)).
Proof using hash_bytes.
  intros Ew Hb Hl Hib Hil. assert (B : is_bytes (id ++ ba)) by by apply Forall_app.
  destruct (decode_encode_addr cn_fast_hash hash_bytes CRYPTONOTE_PUBLIC_ADDRESS_BASE58_PREFIX (id ++ ba)) as (ia & Ea & Hab & Ed); [by_compute|done|].
  exists ia. unfold paymentIDLen in Hil. assert (Hn : length (id ++ ba) = 128%nat) by (rewrite length_app; lia).
  destruct (encode_addr_shape _ ia 65 _ prefix_tag ltac:(lia) B ltac:(lia) Ea) as [Hp Hia]. rewrite Hn in Hia.
  split_and!; [done|done|rewrite Hia; by vm_compute|done|done].
Qed.

Lemma create_integrated a addr id : checked_keys a -> publicKeysToAddress cn_fast_hash (spendPublicKey a) (viewPublicKey a) = Ok addr ->
  is_bytes id -> length id = paymentIDLen -> validatePaymentID id = SUCCESS -> exists ba ia,
  createIntegratedAddress cn_fast_hash check_key addr id = Ok (SUCCESS, ia) /\ is_bytes ia
  /\ Z.of_nat (length ia) = integratedAddressLength /\ take 2 ia = addressPrefix
  /\ fromBinaryArray_opt serialize_AccountPublicAddress no_address ba = Ok (Some a)
  /\ decode_addr cn_fast_hash ia = Ok (Some (CRYPTONOTE_PUBLIC_ADDRESS_BASE58_PREFIX, id ++ ba)).
Proof using hash_bytes.
  intros C Ea Hib Hil Hv. destruct (validated_address a C) as (addr' & Ea' & Hb & Hl & Hp & Er & V). rewrite Ea in Ea'. apply Ok_inj in Ea' as <-.
  destruct (keys_bytes a (proj1 C)) as (ba & Hbb & Hbl & Ew & Erd).
  destruct (integrated_shape a ba id Ew Hbb Hbl Hib Hil) as (ia & Ei & Hia & Hil' & Hp' & Ed). exists ba, ia.
  split_and!; try done. unfold createIntegratedAddress. rewrite Hv. cbn [validateAddresses]. rewrite V. cbn [and_then mbind outcome_bind].
  rewrite Er. okbind. rewrite Ew. okbind. rewrite Ei. done.
Qed.

Lemma extract_integrated a ia id ba : is_bytes ia -> length id = paymentIDLen ->
  decode_addr cn_fast_hash ia = Ok (Some (CRYPTONOTE_PUBLIC_ADDRESS_BASE58_PREFIX, id ++ ba)) ->
  fromBinaryArray_opt serialize_AccountPublicAddress no_address ba = Ok (Some a) ->
  extractIntegratedAddressData cn_fast_hash ia = (addr ← publicKeysToAddress cn_fast_hash (spendPublicKey a) (viewPublicKey a); Ok (addr, id)).
Proof.
  intros Hb Hl Ed Er. unfold extractIntegratedAddressData. rewrite Ed. okbind. rewrite take_app_length' by done. unfold substr_from.
  rewrite (proj2 (Nat.ltb_ge _ _)) by (rewrite length_app; lia). okbind. rewrite drop_app_length' by done. rewrite Er. okbind. by destruct a.
Qed.

(** The check of an integrated address: the payment ID, then the keys. *)
Lemma validate_integrated ia id ba a : Z.of_nat (length ia) = integratedAddressLength -> take 2 ia = addressPrefix -> is_bytes id -> length id = paymentIDLen ->
  decode_addr cn_fast_hash ia = Ok (Some (CRYPTONOTE_PUBLIC_ADDRESS_BASE58_PREFIX, id ++ ba)) ->
  fromBinaryArray_opt serialize_AccountPublicAddress no_address ba = Ok (Some a) -> checked_keys a ->
  validateAddress cn_fast_hash check_key true ia = Ok (match podFromHex 32 id with Some _ => SUCCESS | None => INTEGRATED_ADDRESS_PAYMENT_ID_INVALID end).
Proof using hash_bytes.
  intros Hl Hp Hib Hil Ed Er C. unfold validateAddress. rewrite Hl. change (length addressPrefix) with 2%nat. rewrite bool_decide_eq_false_2 by tauto.
  change (negb _ && negb _) with false. rewrite Z.eqb_refl. okbind. rewrite Ed. okbind. rewrite take_app_length' by done.
  unfold createTxExtraWithPaymentId, parsePaymentId. destruct (podFromHex 32 id) as [h|] eqn:Eh; [|done].
  assert (exists e, addExtraNonceToTransactionExtra [] (setPaymentIdToTransactionExtraNonce h) = Some e) as [e ->].
  { apply podFromHex_inv in Eh as (_ & Hh & _); [|done]. unfold addExtraNonceToTransactionExtra, setPaymentIdToTransactionExtraNonce.
    rewrite (proj2 (Z.ltb_ge _ _)); [by eexists|]. simpl length. unfold TX_EXTRA_NONCE_MAX_COUNT. lia. }
  unfold substr_from. rewrite (proj2 (Nat.ltb_ge _ _)) by (rewrite length_app; lia). okbind. rewrite drop_app_length', Er by done. okbind.
  destruct (validated_address a C) as (addr & Ea & _ & _ & _ & Ep & _). unfold publicKeysToAddress in Ea.
  replace a with {| spendPublicKey := spendPublicKey a; viewPublicKey := viewPublicKey a |} by by destruct a. rewrite Ea. okbind. by rewrite Ep.
Qed.

Lemma validatePaymentID_length id : id <> [] -> validatePaymentID id = SUCCESS -> length id = paymentIDLen.
Proof.
  intros Hn H. unfold validatePaymentID in H. rewrite bool_decide_eq_false_2 in H by done.
  destruct (Z.eqb_spec (Z.of_nat (length id)) 64); [|done]. unfold paymentIDLen. lia.
Qed.

Lemma foreign_address a c : checked_keys a -> 65 < c < 80 -> exists addr, getAccountAddressAsStr cn_fast_hash (91 + 128 * c) a = Ok addr
  /\ (forall allowed, validateAddress cn_fast_hash check_key allowed addr = Ok SUCCESS)
  /\ parseAccountAddressString cn_fast_hash check_key addr = Ok (Some (91 + 128 * c, a)).
Proof using hash_bytes.
  intros (W & Cs & Cv) Hc. destruct (keys_bytes a W) as (ba & Hb & Hl & Ew & Er).
  assert (T : get_varint_data (91 + 128 * c) = [219; c]).
  { assert (c ∈ seqZ 66 14) as Hin by (apply elem_of_seqZ; lia). apply (proj1 (Forall_forall (fun c => get_varint_data (91 + 128 * c) = [219; c]) (seqZ 66 14))); [by_compute|done]. }
  destruct (decode_encode_addr cn_fast_hash hash_bytes (91 + 128 * c) ba) as (addr & Ea & Hab & Ed); [width_solve|done|].
  destruct (encode_addr_shape ba addr c _ T ltac:(lia) Hb ltac:(lia) Ea) as [Hp Hn]. rewrite Hl in Hn.
  assert (P : parseAccountAddressString cn_fast_hash check_key addr = Ok (Some (91 + 128 * c, a))).
  { unfold parseAccountAddressString. rewrite Ed. okbind. rewrite Er. okbind. by rewrite Cs, Cv. }
  exists addr. split_and!; [unfold getAccountAddressAsStr; rewrite Ew; done| |done].
  intros allowed. rewrite validate_standard, P by (done || (rewrite Hn; by vm_compute)). done.
Qed.
End address_laws.

(** ** Properties *)

(** C31: Addresses round-trip.  For keys the curve accepts and any payment ID
    [validatePaymentID] accepts: the text of the keys is an address that is accepted and gives
    the keys back; the integrated address made of it and the payment ID gives the address and
    the payment ID back.  But that integrated address is itself accepted only when the
    payment ID is hexadecimal, which [validatePaymentID] does not check. *)
Theorem integrated_address_roundtrip cn_fast_hash check_key a id :
  (forall x, is_bytes x -> is_bytes (cn_fast_hash x) /\ length (cn_fast_hash x) = 32%nat) ->
  checked_keys check_key a -> is_bytes id -> id <> [] -> validatePaymentID id = SUCCESS ->
  exists addr ia, publicKeysToAddress cn_fast_hash (spendPublicKey a) (viewPublicKey a) = Ok addr
    /\ validateAddresses cn_fast_hash check_key [addr] false = Ok SUCCESS
    /\ addressToKeys cn_fast_hash check_key addr = Ok (spendPublicKey a, viewPublicKey a)
    /\ createIntegratedAddress cn_fast_hash check_key addr id = Ok (SUCCESS, ia)
    /\ extractIntegratedAddressData cn_fast_hash ia = Ok (addr, id)
    /\ (validateAddresses cn_fast_hash check_key [ia] true = Ok SUCCESS <-> is_Some (podFromHex 32 id)).
Proof.
  intros H C Hb Hn Hv. pose proof (validatePaymentID_length id Hn Hv) as Hl.
  destruct (validated_address cn_fast_hash check_key H a C) as (addr & Ea & _ & _ & _ & Ep & V).
  destruct (create_integrated cn_fast_hash check_key H a addr id C Ea Hb Hl Hv) as (ba & ia & Ei & Hib & Hil & Hp & Er & Ed).
  exists addr, ia. split_and!; [done| | |done| |].
  - cbn [validateAddresses]. by rewrite V.
  - unfold addressToKeys. rewrite Ep. done.
  - rewrite (extract_integrated cn_fast_hash a ia id ba Hib Hl Ed Er), Ea. done.
  - cbn [validateAddresses]. rewrite (validate_integrated cn_fast_hash check_key H ia id ba a Hil Hp Hb Hl Ed Er C).
    unfold and_then. destruct (podFromHex 32 id); simpl; naive_solver.
Qed.

(** The keys of the witnesses, and a payment ID that is not hexadecimal. *)
Definition sample_keys : AccountPublicAddress := {| spendPublicKey := replicate 32 7; viewPublicKey := replicate 32 9 |}.
Definition any_key (k : PublicKey) : bool := true.
Lemma sample_checked : checked_keys any_key sample_keys.
Proof. split; [split; by_compute|done]. Qed.
Lemma integrated_address_roundtrip_witness :
  exists addr ia, publicKeysToAddress pad_hash (replicate 32 7) (replicate 32 9) = Ok addr
    /\ validateAddresses pad_hash any_key [addr] false = Ok SUCCESS
    /\ addressToKeys pad_hash any_key addr = Ok (replicate 32 7, replicate 32 9)
    /\ createIntegratedAddress pad_hash any_key addr (replicate 64 122) = Ok (SUCCESS, ia)
    /\ extractIntegratedAddressData pad_hash ia = Ok (addr, replicate 64 122)
    /\ (validateAddresses pad_hash any_key [ia] true = Ok SUCCESS <-> is_Some (podFromHex 32 (replicate 64 122))).
Proof.
  exact (integrated_address_roundtrip pad_hash any_key sample_keys (replicate 64 122) pad_hash_bytes sample_checked
    ltac:(by_compute) ltac:(done) ltac:(by vm_compute)).
Defined.

(** [validateAddresses] ignores the prefix number of an address: fourteen prefixes other than
    the network's also read [dg], and the address of any keys under them is accepted, while
    [addressToKeys], which the callers then apply to it, throws. *)
Theorem foreign_prefix_accepted cn_fast_hash check_key a c allowed :
  (forall x, is_bytes x -> is_bytes (cn_fast_hash x) /\ length (cn_fast_hash x) = 32%nat) ->
  checked_keys check_key a -> 65 < c < 80 ->
  exists addr, getAccountAddressAsStr cn_fast_hash (91 + 128 * c) a = Ok addr
    /\ validateAddresses cn_fast_hash check_key [addr] allowed = Ok SUCCESS
    /\ addressToKeys cn_fast_hash check_key addr = Throw "Address is not valid!".
Proof.
  intros H C Hc. destruct (foreign_address cn_fast_hash check_key H a c C Hc) as (addr & Ea & V & P). exists addr.
  split_and!; [done|cbn [validateAddresses]; by rewrite V|]. unfold addressToKeys. rewrite P. okbind.
  rewrite (proj2 (Z.eqb_neq _ _)) by (unfold CRYPTONOTE_PUBLIC_ADDRESS_BASE58_PREFIX; lia). done.
Qed.
Lemma foreign_prefix_accepted_witness :
  exists addr, getAccountAddressAsStr pad_hash 8539 sample_keys = Ok addr
    /\ validateAddresses pad_hash any_key [addr] true = Ok SUCCESS
    /\ addressToKeys pad_hash any_key addr = Throw "Address is not valid!".
Proof. exact (foreign_prefix_accepted pad_hash any_key sample_keys 66 true pad_hash_bytes sample_checked ltac:(lia)). Defined.
