(* ===== verification/SubWallet.v ===== *)
(** * SubWallet: [subwallets/SubWallet.cpp] and the types of [include/WalletTypes.h]

    One address of a wallet: the inputs it owns, in three vectors (unspent, locked by a
    transaction that was sent, spent), and the amounts that are on their way back to it.
    The JSON form of a wallet is not modelled. *)

From Stdlib Require Import ZArith Lia.
From stdpp Require Import base tactics list numbers gmap fin_sets.
From S2P Require Import Prelude Config Types WalletUtil.

Local Open Scope Z_scope.

(** ** [WalletTypes] *)

Record WalletInput := {
  wi_keyImage : KeyImage;
  wi_amount : Z;
  wi_blockHeight : Z;
  wi_transactionPublicKey : PublicKey;
  wi_transactionIndex : Z;
  wi_globalOutputIndex : option Z;
  wi_key : PublicKey;
  wi_spendHeight : Z;
  wi_unlockTime : Z;
  wi_parentTransactionHash : Hash }.
#[global] Instance WalletInput_eq_dec : EqDecision WalletInput.
Proof. solve_decision. Defined.

Definition set_spendHeight (h : Z) (i : WalletInput) : WalletInput :=
  {| wi_keyImage := wi_keyImage i; wi_amount := wi_amount i; wi_blockHeight := wi_blockHeight i;
     wi_transactionPublicKey := wi_transactionPublicKey i; wi_transactionIndex := wi_transactionIndex i;
     wi_globalOutputIndex := wi_globalOutputIndex i; wi_key := wi_key i; wi_spendHeight := h; wi_unlockTime := wi_unlockTime i;
     wi_parentTransactionHash := wi_parentTransactionHash i |}.
Definition set_globalOutputIndex (g : Z) (i : WalletInput) : WalletInput :=
  {| wi_keyImage := wi_keyImage i; wi_amount := wi_amount i; wi_blockHeight := wi_blockHeight i;
     wi_transactionPublicKey := wi_transactionPublicKey i; wi_transactionIndex := wi_transactionIndex i;
     wi_globalOutputIndex := Some g; wi_key := wi_key i; wi_spendHeight := wi_spendHeight i; wi_unlockTime := wi_unlockTime i;
     wi_parentTransactionHash := wi_parentTransactionHash i |}.

Record TxInputAndOwner := { io_input : WalletInput; io_publicSpendKey : PublicKey; io_privateSpendKey : SecretKey }.

Record UnconfirmedInput := { ui_amount : Z; ui_key : PublicKey; ui_parentTransactionHash : Hash }.

(** ** The class *)

Record SubWallet := {
  m_unspentInputs : list WalletInput;
  m_lockedInputs : list WalletInput;
  m_spentInputs : list WalletInput;
  m_unconfirmedIncomingAmounts : list UnconfirmedInput;
  m_publicSpendKey : PublicKey;
  m_privateSpendKey : SecretKey;
  m_syncStartTimestamp : Z;
  m_syncStartHeight : Z;
  m_address : bytes;
  m_isPrimaryAddress : bool }.

Definition NULL_SECRET_KEY : SecretKey := replicate 32 0.

Definition new_SubWallet (publicSpendKey : PublicKey) (privateSpendKey : SecretKey) (address : bytes) (scanHeight scanTimestamp : Z)
    (isPrimaryAddress : bool) : SubWallet :=
  {| m_unspentInputs := []; m_lockedInputs := []; m_spentInputs := []; m_unconfirmedIncomingAmounts := [];
     m_publicSpendKey := publicSpendKey; m_privateSpendKey := privateSpendKey; m_syncStartTimestamp := scanTimestamp;
     m_syncStartHeight := scanHeight; m_address := address; m_isPrimaryAddress := isPrimaryAddress |}.
Definition new_view_SubWallet (publicSpendKey : PublicKey) (address : bytes) (scanHeight scanTimestamp : Z) (isPrimaryAddress : bool) : SubWallet :=
  new_SubWallet publicSpendKey NULL_SECRET_KEY address scanHeight scanTimestamp isPrimaryAddress.

(** The four vectors replaced. *)
Definition set_vectors (unspent locked spent : list WalletInput) (unconfirmed : list UnconfirmedInput) (w : SubWallet) : SubWallet :=
  {| m_unspentInputs := unspent; m_lockedInputs := locked; m_spentInputs := spent; m_unconfirmedIncomingAmounts := unconfirmed;
     m_publicSpendKey := m_publicSpendKey w; m_privateSpendKey := m_privateSpendKey w; m_syncStartTimestamp := m_syncStartTimestamp w;
     m_syncStartHeight := m_syncStartHeight w; m_address := m_address w; m_isPrimaryAddress := m_isPrimaryAddress w |}.
Definition set_syncStart (timestamp height : Z) (w : SubWallet) : SubWallet :=
  {| m_unspentInputs := m_unspentInputs w; m_lockedInputs := m_lockedInputs w; m_spentInputs := m_spentInputs w;
     m_unconfirmedIncomingAmounts := m_unconfirmedIncomingAmounts w;
     m_publicSpendKey := m_publicSpendKey w; m_privateSpendKey := m_privateSpendKey w; m_syncStartTimestamp := timestamp;
     m_syncStartHeight := height; m_address := m_address w; m_isPrimaryAddress := m_isPrimaryAddress w |}.

(** [std::find_if] followed by [erase] of what it found. *)
Definition find_erase {A} (P : A -> Prop) `{!forall x, Decision (P x)} (l : list A) : option (A * list A) :=
  match list_find P l with Some (i, x) => Some (x, delete i l) | None => None end.

(** The primitives of [crypto/crypto.cpp] the wallets call.  [generate_key_derivation] and the two
    derivations report failure through a result the wallets ignore: the function gives what is then
    in the output argument. *)
Class WalletCrypto := {
  cn_fast_hash : bytes -> bytes;
  check_key : PublicKey -> bool;
  secret_key_to_public_key : SecretKey -> PublicKey;
  generate_key_derivation : PublicKey -> SecretKey -> bytes;
  derive_public_key : bytes -> Z -> PublicKey -> PublicKey;
  derive_secret_key : bytes -> Z -> SecretKey -> SecretKey;
  underive_public_key : bytes -> Z -> PublicKey -> PublicKey;
  generate_key_image : PublicKey -> SecretKey -> KeyImage }.

Definition SubWallet_getTxInputKeyImage `{WalletCrypto} (derivation : bytes) (outputIndex : Z) (isViewWallet : bool) (w : SubWallet) : KeyImage :=
  if negb isViewWallet then
    generate_key_image (derive_public_key derivation outputIndex (m_publicSpendKey w)) (derive_secret_key derivation outputIndex (m_privateSpendKey w))
  else replicate 32 0.

Definition SubWallet_storeTransactionInput (input : WalletInput) (isViewWallet : bool) (w : SubWallet) : SubWallet :=
  let unconfirmed := if negb isViewWallet then filter (fun u => ui_key u <> wi_key input) (m_unconfirmedIncomingAmounts w)
                     else m_unconfirmedIncomingAmounts w in
  set_vectors (m_unspentInputs w ++ [input]) (m_lockedInputs w) (m_spentInputs w) unconfirmed w.

(** Unlocked and locked. *)
Definition SubWallet_getBalance (now currentHeight : Z) (w : SubWallet) : Z * Z :=
  let '(unlocked, locked) := foldl (fun '(unlocked, locked) input =>
    if isInputUnlocked now (wi_unlockTime input) currentHeight then (u64 (unlocked + wi_amount input), locked)
    else (unlocked, u64 (locked + wi_amount input))) (0, 0) (m_unspentInputs w) in
  (unlocked, foldl (fun locked u => u64 (locked + ui_amount u)) locked (m_unconfirmedIncomingAmounts w)).

Definition SubWallet_reset (scanHeight : Z) (w : SubWallet) : SubWallet := set_vectors [] [] [] [] (set_syncStart 0 scanHeight w).

Definition SubWallet_markInputAsSpent (keyImage : KeyImage) (spendHeight : Z) (w : SubWallet) : SubWallet :=
  match find_erase (fun x => wi_keyImage x = keyImage) (m_unspentInputs w) with
  | Some (x, rest) => set_vectors rest (m_lockedInputs w) (m_spentInputs w ++ [set_spendHeight spendHeight x]) (m_unconfirmedIncomingAmounts w) w
  | None =>
      match find_erase (fun x => wi_keyImage x = keyImage) (m_lockedInputs w) with
      | Some (x, rest) => set_vectors (m_unspentInputs w) rest (m_spentInputs w ++ [set_spendHeight spendHeight x]) (m_unconfirmedIncomingAmounts w) w
      | None => w
      end
  end.

Definition SubWallet_markInputAsLocked (keyImage : KeyImage) (w : SubWallet) : SubWallet :=
  match find_erase (fun x => wi_keyImage x = keyImage) (m_unspentInputs w) with
  | Some (x, rest) => set_vectors rest (m_lockedInputs w ++ [x]) (m_spentInputs w) (m_unconfirmedIncomingAmounts w) w
  | None => w
  end.

(** Received at or after the fork. *)
Definition isForked (forkHeight : Z) (i : WalletInput) : Prop := forkHeight <= wi_blockHeight i.
#[global] Instance isForked_dec f i : Decision (isForked f i).
Proof. unfold isForked. apply _. Defined.

Definition removeForkedInputs (forkHeight : Z) (isViewWallet : bool) (w : SubWallet) : list KeyImage * SubWallet :=
  let forked l := wi_keyImage <$> filter (isForked forkHeight) l in
  let kept l := filter (fun i => ~ isForked forkHeight i) l in
  let keyImagesToRemove := forked (m_lockedInputs w) ++ forked (m_unspentInputs w) ++ forked (m_spentInputs w) in
  let spent := kept (m_spentInputs w) in
  let returned := set_spendHeight 0 <$> filter (fun i => forkHeight <= wi_spendHeight i) spent in
  (if isViewWallet then [] else keyImagesToRemove,
   set_vectors (kept (m_unspentInputs w) ++ returned) (kept (m_lockedInputs w)) (filter (fun i => ~ forkHeight <= wi_spendHeight i) spent) [] w).

Definition SubWallet_removeCancelledTransactions (cancelledTransactions : gset Hash) (w : SubWallet) : SubWallet :=
  let returned := set_spendHeight 0 <$> filter (fun i => wi_parentTransactionHash i ∈ cancelledTransactions) (m_lockedInputs w) in
  set_vectors (m_unspentInputs w ++ returned) (filter (fun i => ~ wi_parentTransactionHash i ∈ cancelledTransactions) (m_lockedInputs w))
    (m_spentInputs w) (filter (fun u => ~ ui_parentTransactionHash u ∈ cancelledTransactions) (m_unconfirmedIncomingAmounts w)) w.

Definition getSpendableInputs (now height : Z) (w : SubWallet) : list TxInputAndOwner :=
  (fun i => {| io_input := i; io_publicSpendKey := m_publicSpendKey w; io_privateSpendKey := m_privateSpendKey w |})
    <$> filter (fun i => isInputUnlocked now (wi_unlockTime i) height = true) (m_unspentInputs w).

Definition SubWallet_storeUnconfirmedIncomingInput (input : UnconfirmedInput) (w : SubWallet) : SubWallet :=
  set_vectors (m_unspentInputs w) (m_lockedInputs w) (m_spentInputs w) (m_unconfirmedIncomingAmounts w ++ [input]) w.

Definition SubWallet_convertSyncTimestampToHeight (timestamp height : Z) (w : SubWallet) : SubWallet :=
  if negb (m_syncStartTimestamp w =? 0) then set_syncStart timestamp height w else w.

Definition SubWallet_pruneSpentInputs (pruneHeight : Z) (w : SubWallet) : SubWallet :=
  set_vectors (m_unspentInputs w) (m_lockedInputs w) (filter (fun i => ~ wi_spendHeight i <= pruneHeight) (m_spentInputs w))
    (m_unconfirmedIncomingAmounts w) w.

Definition getKeyImages (w : SubWallet) : list KeyImage :=
  (wi_keyImage <$> m_unspentInputs w) ++ (wi_keyImage <$> m_lockedInputs w) ++ (wi_keyImage <$> m_spentInputs w).

(** ** Laws *)

Section find_erase.
Context {A : Type} (P : A -> Prop) `{!forall x, Decision (P x)}.

Lemma find_erase_Some l x rest : find_erase P l = Some (x, rest) ->
  exists l1 l2, l = l1 ++ x :: l2 /\ rest = l1 ++ l2 /\ P x /\ Forall (fun y => ~ P y) l1.
Proof.
  unfold find_erase. destruct (list_find P l) as [[i y]|] eqn:E; [|done]. intros [= -> <-]. apply list_find_Some in E as (Hi & Hx & Hn).
  exists (take i l), (drop (S i) l). pose proof (lookup_lt_Some _ _ _ Hi). split_and!; [by rewrite take_drop_middle|apply delete_take_drop|done|].
  apply Forall_forall. intros z Hz. apply elem_of_take in Hz as (j & Hj & Hlt). by eapply Hn.
Qed.
Lemma find_erase_None l : find_erase P l = None <-> Forall (fun y => ~ P y) l.
Proof.
  unfold find_erase. destruct (list_find P l) as [[i y]|] eqn:E.
  - split; [done|]. intros F. apply list_find_Some in E as (Hi & Hx & _). by apply (Forall_lookup_1 _ _ _ _ F) in Hi.
  - apply list_find_None in E. done.
Qed.
Lemma find_erase_app l1 x l2 : Forall (fun y => ~ P y) l1 -> P x -> find_erase P (l1 ++ x :: l2) = Some (x, l1 ++ l2).
Proof.
  intros F Hx. unfold find_erase. rewrite (proj2 (list_find_Some P (l1 ++ x :: l2) (length l1) x)).
  - f_equal. f_equal. rewrite delete_take_drop, take_app_length. f_equal. rewrite drop_app_ge by lia. by replace (S (length l1) - length l1)%nat with 1%nat by lia.
  - split_and!; [by apply list_lookup_middle|done|]. intros j y Hj Hlt. rewrite lookup_app_l in Hj by done. by apply (Forall_lookup_1 _ _ _ _ F Hj).
Qed.
Lemma find_erase_perm l x rest : find_erase P l = Some (x, rest) -> l ≡ₚ x :: rest.
Proof. intros E. apply find_erase_Some in E as (l1 & l2 & -> & -> & _). by rewrite Permutation_middle. Qed.
End find_erase.

Lemma filter_all {A} (P : A -> Prop) `{!forall x, Decision (P x)} (l : list A) : Forall P l -> filter P l = l.
Proof. induction 1; [done|]. rewrite filter_cons_True by done. by f_equal. Qed.
Lemma filter_none {A} (P : A -> Prop) `{!forall x, Decision (P x)} (l : list A) : Forall (fun x => ~ P x) l -> filter P l = [].
Proof. induction 1; [done|]. by rewrite filter_cons_False. Qed.

Lemma getBalance_ok now h w : SubWallet_getBalance now h w =
  (u64 (sumZ (wi_amount <$> filter (fun i => isInputUnlocked now (wi_unlockTime i) h = true) (m_unspentInputs w))),
   u64 (sumZ (wi_amount <$> filter (fun i => ~ isInputUnlocked now (wi_unlockTime i) h = true) (m_unspentInputs w))
        + sumZ (ui_amount <$> m_unconfirmedIncomingAmounts w))).
Proof.
  unfold SubWallet_getBalance.
  assert (U : forall l a, 0 <= a < 2 ^ 64 -> foldl (fun locked u => u64 (locked + ui_amount u)) a l = u64 (a + sumZ (ui_amount <$> l))).
  { induction l as [|u l IH]; intros a Ha; [simpl; rewrite Z.add_0_r, wrap_small by width_solve; done|]. simpl foldl. rewrite fmap_cons, sumZ_cons.
    rewrite IH by (apply (wrap_range 64); lia). rewrite wrap_add_l. f_equal. lia. }
  assert (F : forall l a b, 0 <= a < 2 ^ 64 -> 0 <= b < 2 ^ 64 -> foldl (fun '(unlocked, locked) input =>
      if isInputUnlocked now (wi_unlockTime input) h then (u64 (unlocked + wi_amount input), locked)
      else (unlocked, u64 (locked + wi_amount input))) (a, b) l =
    (u64 (a + sumZ (wi_amount <$> filter (fun i => isInputUnlocked now (wi_unlockTime i) h = true) l)),
     u64 (b + sumZ (wi_amount <$> filter (fun i => ~ isInputUnlocked now (wi_unlockTime i) h = true) l)))).
  { induction l as [|i l IH]; intros a b Ha Hb; [simpl; rewrite !Z.add_0_r, !wrap_small by width_solve; done|]. simpl foldl.
    rewrite !filter_cons. destruct (isInputUnlocked _ _ _) eqn:E; rewrite IH by (try done; apply (wrap_range 64); lia); rewrite wrap_add_l.
    - rewrite decide_True, decide_False by (rewrite ?E; auto). rewrite fmap_cons, sumZ_cons. f_equal. f_equal. lia.
    - rewrite decide_False, decide_True by (rewrite ?E; auto). rewrite fmap_cons, sumZ_cons. f_equal. f_equal. lia. }
  rewrite F by lia. rewrite !Z.add_0_l, U by (apply (wrap_range 64); lia). by rewrite wrap_add_l.
Qed.
