(* ===== verification/SubWallets.v ===== *)
(** * SubWallets: [subwallets/SubWallets.cpp]

    The container of a wallet's addresses: one [SubWallet] per public spend key, the
    transactions seen in blocks and those sent but not seen yet, and the map from key images to
    the addresses that own them.  The order a hash map is iterated in is not specified; it is
    [map_to_list]'s here, and no theorem depends on it.  [std::shuffle] is a parameter, of which
    the theorems use that it permutes; the mutex is left out: each operation is one step.
    The JSON form is not modelled. *)

From Stdlib Require Import ZArith Lia.
From stdpp Require Import base tactics list numbers strings gmap fin_sets sorting.
From S2P Require Import Prelude Config Types WalletUtil Addresses SubWallet.

Local Open Scope Z_scope.

(** ** [WalletTypes::Transaction] *)

Record WalletTransaction := {
  wt_transfers : gmap PublicKey Z;
  wt_hash : Hash;
  wt_fee : Z;
  wt_timestamp : Z;
  wt_blockHeight : Z;
  wt_paymentID : bytes;
  wt_unlockTime : Z;
  wt_isCoinbaseTransaction : bool }.
#[global] Instance WalletTransaction_eq_dec : EqDecision WalletTransaction.
Proof. solve_decision. Defined.

Definition set_transfers (t : gmap PublicKey Z) (tx : WalletTransaction) : WalletTransaction :=
  {| wt_transfers := t; wt_hash := wt_hash tx; wt_fee := wt_fee tx; wt_timestamp := wt_timestamp tx; wt_blockHeight := wt_blockHeight tx;
     wt_paymentID := wt_paymentID tx; wt_unlockTime := wt_unlockTime tx; wt_isCoinbaseTransaction := wt_isCoinbaseTransaction tx |}.

Definition totalAmount (tx : WalletTransaction) : outcome Z :=
  foldM (fun sum kv => _ ← assert (bool_decide (in_swidth 64 (sum + kv.2))) "totalAmount: signed overflow"; Ok (sum + kv.2)) 0 (map_to_list (wt_transfers tx)).
Definition isFusionTransaction (tx : WalletTransaction) : bool := (wt_fee tx =? 0) && negb (wt_isCoinbaseTransaction tx).

(** ** The class *)

Record SubWallets := {
  m_subWallets : gmap PublicKey SubWallet;
  m_transactions : list WalletTransaction;
  m_lockedTransactions : list WalletTransaction;
  m_privateViewKey : SecretKey;
  m_isViewWallet : bool;
  m_transactionPrivateKeys : gmap Hash SecretKey;
  m_keyImageOwners : gmap KeyImage PublicKey;
  m_publicSpendKeys : list PublicKey }.

Definition set_subWallets (m : gmap PublicKey SubWallet) (w : SubWallets) : SubWallets :=
  {| m_subWallets := m; m_transactions := m_transactions w; m_lockedTransactions := m_lockedTransactions w;
     m_privateViewKey := m_privateViewKey w; m_isViewWallet := m_isViewWallet w; m_transactionPrivateKeys := m_transactionPrivateKeys w;
     m_keyImageOwners := m_keyImageOwners w; m_publicSpendKeys := m_publicSpendKeys w |}.
Definition set_transactions (txs locked : list WalletTransaction) (w : SubWallets) : SubWallets :=
  {| m_subWallets := m_subWallets w; m_transactions := txs; m_lockedTransactions := locked;
     m_privateViewKey := m_privateViewKey w; m_isViewWallet := m_isViewWallet w; m_transactionPrivateKeys := m_transactionPrivateKeys w;
     m_keyImageOwners := m_keyImageOwners w; m_publicSpendKeys := m_publicSpendKeys w |}.
Definition set_transactionPrivateKeys (m : gmap Hash SecretKey) (w : SubWallets) : SubWallets :=
  {| m_subWallets := m_subWallets w; m_transactions := m_transactions w; m_lockedTransactions := m_lockedTransactions w;
     m_privateViewKey := m_privateViewKey w; m_isViewWallet := m_isViewWallet w; m_transactionPrivateKeys := m;
     m_keyImageOwners := m_keyImageOwners w; m_publicSpendKeys := m_publicSpendKeys w |}.
Definition set_keyImageOwners (m : gmap KeyImage PublicKey) (w : SubWallets) : SubWallets :=
  {| m_subWallets := m_subWallets w; m_transactions := m_transactions w; m_lockedTransactions := m_lockedTransactions w;
     m_privateViewKey := m_privateViewKey w; m_isViewWallet := m_isViewWallet w; m_transactionPrivateKeys := m_transactionPrivateKeys w;
     m_keyImageOwners := m; m_publicSpendKeys := m_publicSpendKeys w |}.
Definition set_publicSpendKeys (l : list PublicKey) (w : SubWallets) : SubWallets :=
  {| m_subWallets := m_subWallets w; m_transactions := m_transactions w; m_lockedTransactions := m_lockedTransactions w;
     m_privateViewKey := m_privateViewKey w; m_isViewWallet := m_isViewWallet w; m_transactionPrivateKeys := m_transactionPrivateKeys w;
     m_keyImageOwners := m_keyImageOwners w; m_publicSpendKeys := l |}.

Definition throwIfViewWallet (w : SubWallets) : outcome unit :=
  require (negb (m_isViewWallet w)) "Wallet is a view wallet, but this function cannot be called in a view wallet".

(** [std::unordered_map::at]. *)
Definition at_subWallet (w : SubWallets) (k : PublicKey) : outcome SubWallet :=
  match m_subWallets w !! k with Some s => Ok s | None => Throw "unordered_map::at" end.

(** [m_subWallets[key] = wallet; m_publicSpendKeys.push_back(key);] *)
Definition insert_subWallet (k : PublicKey) (s : SubWallet) (w : SubWallets) : SubWallets :=
  set_publicSpendKeys (m_publicSpendKeys w ++ [k]) (set_subWallets (<[k := s]> (m_subWallets w)) w).

(** An operation on every wallet. *)
Definition on_all (f : SubWallet -> SubWallet) (w : SubWallets) : SubWallets := set_subWallets (f <$> m_subWallets w) w.

Section subwallets.
Context `{WalletCrypto}.

(** *** Construction *)

Definition empty_SubWallets (privateViewKey : SecretKey) (isViewWallet : bool) : SubWallets :=
  {| m_subWallets := ∅; m_transactions := []; m_lockedTransactions := []; m_privateViewKey := privateViewKey; m_isViewWallet := isViewWallet;
     m_transactionPrivateKeys := ∅; m_keyImageOwners := ∅; m_publicSpendKeys := [] |}.

Definition new_SubWallets (now : Z) (privateSpendKey privateViewKey : SecretKey) (address : bytes) (scanHeight : Z) (newWallet : bool) : SubWallets :=
  let publicSpendKey := secret_key_to_public_key privateSpendKey in
  let timestamp := if newWallet then getCurrentTimestampAdjusted now else 0 in
  insert_subWallet publicSpendKey (new_SubWallet publicSpendKey privateSpendKey address scanHeight timestamp true)
    (empty_SubWallets privateViewKey false).

Definition new_view_SubWallets (now : Z) (privateViewKey : SecretKey) (address : bytes) (scanHeight : Z) (newWallet : bool) : outcome SubWallets :=
  '(publicSpendKey, _) ← addressToKeys cn_fast_hash check_key address;
  let timestamp := if newWallet then getCurrentTimestampAdjusted now else 0 in
  Ok (insert_subWallet publicSpendKey (new_view_SubWallet publicSpendKey address scanHeight timestamp true)
        (empty_SubWallets privateViewKey true)).

(** The copy constructor names every member but [m_keyImageOwners]. *)
Definition copy_SubWallets (other : SubWallets) : SubWallets := set_keyImageOwners ∅ other.

(** *** Addresses *)

(** The new pair of [generate_keys] is an argument. *)
Definition addSubWallet (now : Z) (spendKey : KeyPair) (w : SubWallets) : outcome (ErrorCode * bytes * SecretKey * SubWallets) :=
  if m_isViewWallet w then Ok (ILLEGAL_VIEW_WALLET_OPERATION, [], NULL_SECRET_KEY, w)
  else
    address ← privateKeysToAddress cn_fast_hash secret_key_to_public_key (secretKey spendKey) (m_privateViewKey w);
    Ok (SUCCESS, address, secretKey spendKey,
        insert_subWallet (publicKey spendKey)
          (new_SubWallet (publicKey spendKey) (secretKey spendKey) address 0 (getCurrentTimestampAdjusted now) false) w).

Definition importSubWallet (privateSpendKey : SecretKey) (scanHeight : Z) (w : SubWallets) : outcome (ErrorCode * bytes * SubWallets) :=
  if m_isViewWallet w then Ok (ILLEGAL_VIEW_WALLET_OPERATION, [], w)
  else
    let publicSpendKey := secret_key_to_public_key privateSpendKey in
    address ← privateKeysToAddress cn_fast_hash secret_key_to_public_key privateSpendKey (m_privateViewKey w);
    match m_subWallets w !! publicSpendKey with
    | Some _ => Ok (SUBWALLET_ALREADY_EXISTS, [], w)
    | None => Ok (SUCCESS, address, insert_subWallet publicSpendKey (new_SubWallet publicSpendKey privateSpendKey address scanHeight 0 false) w)
    end.

Definition importViewSubWallet (publicSpendKey : PublicKey) (scanHeight : Z) (w : SubWallets) : outcome (ErrorCode * bytes * SubWallets) :=
  if negb (m_isViewWallet w) then Ok (ILLEGAL_NON_VIEW_WALLET_OPERATION, [], w)
  else
    match m_subWallets w !! publicSpendKey with
    | Some _ => Ok (SUBWALLET_ALREADY_EXISTS, [], w)
    | None =>
        let publicViewKey := secret_key_to_public_key (m_privateViewKey w) in
        address ← publicKeysToAddress cn_fast_hash publicSpendKey publicViewKey;
        Ok (SUCCESS, address, insert_subWallet publicSpendKey (new_view_SubWallet publicSpendKey address scanHeight 0 false) w)
    end.

(** The predicate of [remove_if] also takes the transfer out of the transactions it keeps. *)
Definition deleteAddressTransactions (spendKey : PublicKey) (txs : list WalletTransaction) : list WalletTransaction :=
  omap (fun tx =>
    match wt_transfers tx !! spendKey with
    | Some _ => if bool_decide (size (wt_transfers tx) = 1%nat) then None else Some (set_transfers (delete spendKey (wt_transfers tx)) tx)
    | None => Some tx
    end) txs.

Definition deleteSubWallet (address : bytes) (w : SubWallets) : outcome (ErrorCode * SubWallets) :=
  '(spendKey, _) ← addressToKeys cn_fast_hash check_key address;
  match m_subWallets w !! spendKey with
  | None => Ok (ADDRESS_NOT_IN_WALLET, w)
  | Some it =>
      if m_isPrimaryAddress it then Ok (CANNOT_DELETE_PRIMARY_ADDRESS, w)
      else
        let w := set_subWallets (delete spendKey (m_subWallets w)) w in
        let w := set_transactions (deleteAddressTransactions spendKey (m_transactions w))
                   (deleteAddressTransactions spendKey (m_lockedTransactions w)) w in
        Ok (SUCCESS, set_publicSpendKeys (filter (fun k => k <> spendKey) (m_publicSpendKeys w)) w)
  end.

(** Height and timestamp. *)
Definition getMinInitialSyncStart (now : Z) (w : SubWallets) : outcome (Z * Z) :=
  match snd <$> map_to_list (m_subWallets w) with
  | [] => Undefined "dereference of the end iterator"
  | first :: rest =>
      let minTimestamp := foldl Z.min (m_syncStartTimestamp first) (m_syncStartTimestamp <$> rest) in
      let minHeight := foldl Z.min (m_syncStartHeight first) (m_syncStartHeight <$> rest) in
      if (minHeight =? 0) || (minTimestamp =? 0) then Ok (minHeight, minTimestamp)
      else
        let timestampFromHeight := scanHeightToTimestamp now minHeight in
        Ok (if timestampFromHeight <? minTimestamp then (minHeight, 0) else (0, minTimestamp))
  end.

Definition getPrimary (w : SubWallets) : outcome SubWallet :=
  match list_find (fun s => m_isPrimaryAddress s = true) (snd <$> map_to_list (m_subWallets w)) with
  | Some (_, s) => Ok s
  | None => Throw "This container has no primary address!"
  end.
Definition getPrimaryAddress (w : SubWallets) : outcome bytes := s ← getPrimary w; Ok (m_address s).
Definition getPrimaryPrivateSpendKey (w : SubWallets) : outcome SecretKey := s ← getPrimary w; Ok (m_privateSpendKey s).

Definition getAddresses (w : SubWallets) : list bytes := m_address ∘ snd <$> map_to_list (m_subWallets w).
Definition getWalletCount (w : SubWallets) : Z := Z.of_nat (size (m_subWallets w)).
Definition getPrivateSpendKeys (w : SubWallets) : list SecretKey := m_privateSpendKey ∘ snd <$> map_to_list (m_subWallets w).
Definition getPrivateSpendKey (publicSpendKey : PublicKey) (w : SubWallets) : outcome (ErrorCode * SecretKey) :=
  _ ← throwIfViewWallet w;
  Ok (match m_subWallets w !! publicSpendKey with
      | None => (ADDRESS_NOT_IN_WALLET, NULL_SECRET_KEY)
      | Some it => (SUCCESS, m_privateSpendKey it)
      end).
Definition getAddress (spendKey : PublicKey) (w : SubWallets) : ErrorCode * bytes :=
  match m_subWallets w !! spendKey with
  | Some it => (SUCCESS, m_address it)
  | None => (ADDRESS_NOT_IN_WALLET, [])
  end.

(** *** Transactions *)

Definition addUnconfirmedTransaction (tx : WalletTransaction) (w : SubWallets) : SubWallets :=
  if bool_decide (Exists (fun t => wt_hash tx = wt_hash t) (m_lockedTransactions w)) then w
  else set_transactions (m_transactions w) (m_lockedTransactions w ++ [tx]) w.

Definition addTransaction (tx : WalletTransaction) (w : SubWallets) : SubWallets :=
  let locked := filter (fun t => wt_hash tx <> wt_hash t) (m_lockedTransactions w) in
  let w := set_transactions (m_transactions w) locked w in
  if bool_decide (Exists (fun t => wt_hash tx = wt_hash t) (m_transactions w)) then w
  else set_transactions (m_transactions w ++ [tx]) (m_lockedTransactions w) w.

Definition getLockedTransactionsHashes (w : SubWallets) : outcome (gset Hash) :=
  _ ← throwIfViewWallet w; Ok (list_to_set (wt_hash <$> m_lockedTransactions w)).

Definition storeTxPrivateKey (txPrivateKey : SecretKey) (txHash : Hash) (w : SubWallets) : SubWallets :=
  set_transactionPrivateKeys (<[txHash := txPrivateKey]> (m_transactionPrivateKeys w)) w.
Definition getTxPrivateKey (txHash : Hash) (w : SubWallets) : bool * SecretKey :=
  match m_transactionPrivateKeys w !! txHash with Some it => (true, it) | None => (false, NULL_SECRET_KEY) end.

(** *** Inputs *)

Definition getTxInputKeyImage (publicSpendKey : PublicKey) (derivation : bytes) (outputIndex : Z) (w : SubWallets) : outcome KeyImage :=
  match m_subWallets w !! publicSpendKey with
  | Some it => Ok (SubWallet_getTxInputKeyImage derivation outputIndex (m_isViewWallet w) it)
  | None => Throw "Subwallet not found!"
  end.

Definition storeTransactionInput (publicSpendKey : PublicKey) (input : WalletInput) (w : SubWallets) : outcome SubWallets :=
  match m_subWallets w !! publicSpendKey with
  | Some it =>
      let w := if negb (m_isViewWallet w) then set_keyImageOwners (<[wi_keyImage input := publicSpendKey]> (m_keyImageOwners w)) w else w in
      Ok (set_subWallets (<[publicSpendKey := SubWallet_storeTransactionInput input (m_isViewWallet w) it]> (m_subWallets w)) w)
  | None => Throw "Subwallet not found!"
  end.

Definition storeUnconfirmedIncomingInput (input : UnconfirmedInput) (publicSpendKey : PublicKey) (w : SubWallets) : SubWallets :=
  match m_subWallets w !! publicSpendKey with
  | Some it => set_subWallets (<[publicSpendKey := SubWallet_storeUnconfirmedIncomingInput input it]> (m_subWallets w)) w
  | None => w
  end.

Definition getKeyImageOwner (keyImage : KeyImage) (w : SubWallets) : option PublicKey := m_keyImageOwners w !! keyImage.

Definition markInputAsSpent (keyImage : KeyImage) (k : PublicKey) (spendHeight : Z) (w : SubWallets) : outcome SubWallets :=
  _ ← throwIfViewWallet w;
  s ← at_subWallet w k;
  Ok (set_subWallets (<[k := SubWallet_markInputAsSpent keyImage spendHeight s]> (m_subWallets w)) w).

Definition markInputAsLocked (keyImage : KeyImage) (k : PublicKey) (w : SubWallets) : outcome SubWallets :=
  _ ← throwIfViewWallet w;
  s ← at_subWallet w k;
  Ok (set_subWallets (<[k := SubWallet_markInputAsLocked keyImage s]> (m_subWallets w)) w).

Definition removeForkedTransactions (forkHeight : Z) (w : SubWallets) : SubWallets :=
  let w := set_transactions (filter (fun tx => ~ forkHeight <= wt_blockHeight tx) (m_transactions w)) (m_lockedTransactions w) w in
  let forked := removeForkedInputs forkHeight (m_isViewWallet w) <$> m_subWallets w in
  let keyImagesToRemove := mjoin (fst ∘ snd <$> map_to_list forked) in
  let w := set_subWallets (snd <$> forked) w in
  set_keyImageOwners (foldl (fun m keyImage => delete keyImage m) (m_keyImageOwners w) keyImagesToRemove) w.

Definition removeCancelledTransactions (cancelledTransactions : gset Hash) (w : SubWallets) : outcome SubWallets :=
  _ ← throwIfViewWallet w;
  let w := set_transactions (m_transactions w) (filter (fun tx => ~ wt_hash tx ∈ cancelledTransactions) (m_lockedTransactions w)) w in
  Ok (on_all (SubWallet_removeCancelledTransactions cancelledTransactions) w).

Definition reset (scanHeight : Z) (w : SubWallets) : SubWallets :=
  on_all (SubWallet_reset scanHeight) (set_transactionPrivateKeys ∅ (set_transactions [] [] w)).

Definition convertSyncTimestampToHeight (timestamp height : Z) (w : SubWallets) : SubWallets :=
  on_all (SubWallet_convertSyncTimestampToHeight timestamp height) w.

Definition pruneSpentInputs (pruneHeight : Z) (w : SubWallets) : SubWallets := on_all (SubWallet_pruneSpentInputs pruneHeight) w.

(** *** Balances *)

Definition getBalance (now : Z) (subWalletsToTakeFrom : list PublicKey) (takeFromAll : bool) (currentHeight : Z) (w : SubWallets) : outcome (Z * Z) :=
  foldM (fun '(unlockedBalance, lockedBalance) pubKey =>
      s ← at_subWallet w pubKey;
      let '(unlocked, locked) := SubWallet_getBalance now currentHeight s in
      Ok (u64 (unlockedBalance + unlocked), u64 (lockedBalance + locked)))
    (0, 0) (if takeFromAll then m_publicSpendKeys w else subWalletsToTakeFrom).

Definition getBalances (now currentHeight : Z) (w : SubWallets) : list (bytes * Z * Z) :=
  (fun '(_, s) => let '(unlocked, locked) := SubWallet_getBalance now currentHeight s in (m_address s, unlocked, locked))
    <$> map_to_list (m_subWallets w).

(** *** Choosing inputs *)

Definition INPUT_NOT_SENDING : Z := 1000.
Definition input_amount (i : TxInputAndOwner) : Z := wi_amount (io_input i).

(** The wallets of the keys, in order. *)
Fixpoint wallets_of (w : SubWallets) (keys : list PublicKey) : outcome (list SubWallet) :=
  match keys with
  | [] => Ok []
  | k :: rest => s ← at_subWallet w k; l ← wallets_of w rest; Ok (s :: l)
  end.
Definition available_inputs (now height : Z) (wallets : list SubWallet) : list TxInputAndOwner :=
  mjoin ((fun s => filter (fun i => INPUT_NOT_SENDING <= input_amount i) (getSpendableInputs now height s)) <$> wallets).

Context (shuffle : forall A, list A -> list A).

Fixpoint take_until (amount : Z) (inputsToUse : list TxInputAndOwner) (foundMoney : Z) (l : list TxInputAndOwner) : outcome (list TxInputAndOwner * Z) :=
  match l with
  | [] => Throw "Not enough funds found!"
  | x :: rest =>
      if INPUT_NOT_SENDING <=? input_amount x then
        let inputsToUse := inputsToUse ++ [x] in
        let foundMoney := u64 (foundMoney + input_amount x) in
        if amount <=? foundMoney then Ok (inputsToUse, foundMoney) else take_until amount inputsToUse foundMoney rest
      else take_until amount inputsToUse foundMoney rest
  end.

Definition getTransactionInputsForAmount (now amount : Z) (takeFromAll : bool) (subWalletsToTakeFrom : list PublicKey) (height : Z)
    (w : SubWallets) : outcome (list TxInputAndOwner * Z) :=
  _ ← throwIfViewWallet w;
  wallets ← wallets_of w (if takeFromAll then m_publicSpendKeys w else subWalletsToTakeFrom);
  take_until amount [] 0 (shuffle _ (available_inputs now height wallets)).

(** [floor(log10(amount))] on doubles, and the order the buckets are iterated in. *)
Context (floor_log10 : Z -> Z) (bucket_order : forall A, list A -> list A).

Definition numberOfDigits (amount : Z) : Z := floor_log10 amount + 1.

Fixpoint bucket_insert (d : Z) (x : TxInputAndOwner) (buckets : list (Z * list TxInputAndOwner)) : list (Z * list TxInputAndOwner) :=
  match buckets with
  | [] => [(d, [x])]
  | (e, l) :: rest => if d =? e then (e, l ++ [x]) :: rest else (e, l) :: bucket_insert d x rest
  end.
Definition make_buckets (l : list TxInputAndOwner) : list (list TxInputAndOwner) :=
  bucket_order _ (snd <$> foldl (fun buckets x => bucket_insert (numberOfDigits (input_amount x)) x buckets) [] l).

(** Adds inputs until there are [maxInputsToTake]. *)
Fixpoint take_count (maxInputsToTake : Z) (inputsToUse : list TxInputAndOwner) (foundMoney : Z) (l : list TxInputAndOwner) : list TxInputAndOwner * Z :=
  match l with
  | [] => (inputsToUse, foundMoney)
  | x :: rest =>
      let inputsToUse := inputsToUse ++ [x] in
      let foundMoney := u64 (foundMoney + input_amount x) in
      if maxInputsToTake <=? Z.of_nat (length inputsToUse) then (inputsToUse, foundMoney)
      else take_count maxInputsToTake inputsToUse foundMoney rest
  end.

Definition getFusionTransactionInputs (now : Z) (takeFromAll : bool) (subWalletsToTakeFrom : list PublicKey) (mixin height : Z) (w : SubWallets)
    : outcome (list TxInputAndOwner * Z * Z) :=
  _ ← throwIfViewWallet w;
  wallets ← wallets_of w (if takeFromAll then m_publicSpendKeys w else subWalletsToTakeFrom);
  let availableInputs := available_inputs now height wallets in
  maxInputsToTake ← getApproximateMaximumInputCount FUSION_TX_MAX_SIZE FUSION_TX_MIN_IN_OUT_COUNT_RATIO mixin;
  let buckets := make_buckets (shuffle _ availableInputs) in
  let fullBuckets := shuffle _ (filter (fun b => FUSION_TX_MIN_INPUT_COUNT <= Z.of_nat (length b)) buckets) in
  let bucketsToTakeFrom := match fullBuckets with b :: _ => [b] | [] => buckets end in
  let '(inputsToUse, foundMoney) := take_count maxInputsToTake [] 0 (mjoin bucketsToTakeFrom) in
  Ok (inputsToUse, maxInputsToTake, foundMoney).
End subwallets.

(** ** Choosing inputs: laws *)

#[local] Arguments sumZ : simpl never.

Section selection.
Context (amount : Z).

Lemma take_until_ok l : forall acc f, Forall (fun x => INPUT_NOT_SENDING <= input_amount x) l -> f = sumZ (input_amount <$> acc) -> 0 <= f ->
  f + sumZ (input_amount <$> l) < 2 ^ 64 ->
  (l <> [] /\ amount <= f + sumZ (input_amount <$> l) ->
     exists p x r, l = p ++ x :: r /\ take_until amount acc f l = Ok (acc ++ p ++ [x], f + sumZ (input_amount <$> p ++ [x]))
       /\ amount <= f + sumZ (input_amount <$> p ++ [x]) /\ (p = [] \/ f + sumZ (input_amount <$> p) < amount))
  /\ (l = [] \/ f + sumZ (input_amount <$> l) < amount -> take_until amount acc f l = Throw "Not enough funds found!").
Proof.
  induction l as [|x l IH]; intros acc f Hl Hf H0 Hb.
  { split; [by intros [? _]|done]. }
  inversion Hl as [|? ? Hx Hl']; subst x0 l0. rewrite fmap_cons, sumZ_cons in Hb |- *. cbn [take_until].
  rewrite (proj2 (Z.leb_le _ _)) by done. unfold INPUT_NOT_SENDING in Hx.
  assert (Hn : 0 <= sumZ (input_amount <$> l)).
  { apply sumZ_nonneg, Forall_fmap. eapply Forall_impl; [exact Hl'|]. unfold INPUT_NOT_SENDING. simpl. lia. }
  rewrite wrap_small by width_solve. destruct (Z.leb_spec amount (f + input_amount x)) as [Hle|Hgt].
  - split; [|intros [?|?]; [done|lia]]. intros _. exists [], x, l. unfold sumZ. simpl. rewrite Z.add_0_r. split_and!; [done..|auto].
  - destruct (IH (acc ++ [x]) (f + input_amount x) Hl') as [IH1 IH2].
    { rewrite Hf, fmap_app, sumZ_app. simpl. unfold sumZ. simpl. lia. }
    { lia. } { lia. }
    split.
    + intros [_ Ha]. destruct IH1 as (p & y & r & -> & -> & Hy & Hp).
      { split; [|lia]. intros ->. unfold sumZ in Ha. simpl in Ha. lia. }
      exists (x :: p), y, r. rewrite <- app_assoc. cbn [app]. rewrite !fmap_cons, !sumZ_cons. split_and!; [done|do 2 f_equal; lia|lia|].
      right. destruct Hp as [->|?]; [unfold sumZ; simpl; lia|lia].
    + intros [?|Hlt]; [done|]. apply IH2. right. lia.
Qed.
End selection.

Lemma available_big now h wallets : Forall (fun x => INPUT_NOT_SENDING <= input_amount x) (available_inputs now h wallets).
Proof. unfold available_inputs. apply Forall_join, Forall_fmap, Forall_forall. intros s _. simpl. apply Forall_forall. intros x [? _]%list_elem_of_filter. done. Qed.

(** The buckets of a list: its elements by number of digits. *)
Section buckets.
Context (floor_log10 : Z -> Z).
Let digits x := numberOfDigits floor_log10 (input_amount x).

Lemma bucket_insert_keys d x b : (bucket_insert d x b).*1 = if decide (d ∈ b.*1) then b.*1 else b.*1 ++ [d].
Proof.
  induction b as [|[e l] b IH]; [by rewrite decide_False by set_solver|]. simpl bucket_insert. destruct (Z.eqb_spec d e) as [->|].
  - by rewrite decide_True by set_solver.
  - rewrite !fmap_cons, IH. simpl. destruct (decide (d ∈ b.*1)); [by rewrite decide_True by set_solver|by rewrite decide_False by set_solver].
Qed.
Lemma bucket_insert_perm d x b : mjoin (bucket_insert d x b).*2 ≡ₚ mjoin b.*2 ++ [x].
Proof.
  induction b as [|[e l] b IH]; [done|]. simpl bucket_insert. destruct (d =? e); rewrite !fmap_cons; cbn [mjoin list_join snd]; [|by rewrite IH, app_assoc].
  rewrite <- !app_assoc. f_equiv. by rewrite Permutation_app_comm.
Qed.
Lemma bucket_insert_same d x b : Forall (fun p => Forall (fun y => digits y = p.1) p.2) b -> digits x = d ->
  Forall (fun p => Forall (fun y => digits y = p.1) p.2) (bucket_insert d x b).
Proof.
  intros F Hd. induction F as [|[e l] b Hl F IH]; simpl; [repeat constructor; done|]. destruct (Z.eqb_spec d e) as [->|]; constructor; try done.
  apply Forall_app. split; [done|]. by constructor.
Qed.

Lemma buckets_ok l : let b := foldl (fun buckets x => bucket_insert (digits x) x buckets) [] l in
  NoDup b.*1 /\ mjoin b.*2 ≡ₚ l /\ Forall (fun p => Forall (fun y => digits y = p.1) p.2) b.
Proof.
  cbv zeta. induction l as [|x l IH] using rev_ind; [split_and!; [apply NoDup_nil_2|done|constructor]|]. rewrite foldl_app. simpl.
  destruct IH as (Nd & P & F). set (b := foldl _ [] l) in *. split_and!.
  - rewrite bucket_insert_keys. case_decide; [done|]. apply NoDup_app. split_and!; [done|set_solver|apply NoDup_singleton].
  - by rewrite bucket_insert_perm, P.
  - by apply bucket_insert_same.
Qed.

Lemma bucket_filter b d : NoDup b.*1 -> Forall (fun p => Forall (fun y => digits y = p.1) p.2) b ->
  (forall c, (d, c) ∈ b -> filter (fun x => digits x = d) (mjoin b.*2) = c) /\ (d ∉ b.*1 -> filter (fun x => digits x = d) (mjoin b.*2) = []).
Proof.
  intros Nd F. induction F as [|[e l] b Hl F IH]; [split; [set_solver|done]|]. change (((e, l) :: b).*1) with (e :: b.*1) in *. change (mjoin ((e, l) :: b).*2) with (l ++ mjoin b.*2). simpl in Hl. apply NoDup_cons in Nd as [Hn Nd].
  destruct (IH Nd) as [IH1 IH2]. rewrite filter_app.
  assert (Fl : filter (fun x => digits x = d) l = if decide (d = e) then l else []).
  { case_decide as De; [subst; by apply filter_all|]. apply filter_none. eapply Forall_impl; [exact Hl|]. simpl. congruence. }
  rewrite Fl. split.
  - intros c [[= -> ->]|Hc]%elem_of_cons; [rewrite decide_True, IH2 by done; apply app_nil_r|].
    rewrite decide_False, (IH1 c Hc); [done|]. intros ->. apply Hn. apply list_elem_of_fmap. by exists (e, c).
  - intros Hd. rewrite decide_False, IH2 by set_solver. done.
Qed.

Lemma make_buckets_ok (bucket_order : forall A, list A -> list A) l : (forall A (k : list A), bucket_order A k ≡ₚ k) ->
  let B := make_buckets floor_log10 bucket_order l in
  mjoin B ≡ₚ l /\ (forall b, b ∈ B -> exists d, b ≡ₚ filter (fun x => digits x = d) l)
  /\ (forall x, x ∈ l -> exists b, b ∈ B /\ b ≡ₚ filter (fun y => digits y = digits x) l).
Proof.
  intros O. cbv zeta. unfold make_buckets. destruct (buckets_ok l) as (Nd & P & F). unfold digits in *. set (b := foldl _ [] l) in *.
  assert (Q : forall d c, (d, c) ∈ b -> c ≡ₚ filter (fun x => numberOfDigits floor_log10 (input_amount x) = d) l).
  { intros d c Hc. rewrite <- P. pose proof (proj1 (bucket_filter b d Nd F) c Hc) as R. unfold digits in R. by rewrite R. }
  split_and!.
  - by rewrite O, P.
  - intros c Hc. rewrite O in Hc. apply list_elem_of_fmap in Hc as ([d c'] & -> & Hc). exists d. by apply Q.
  - intros x Hx. rewrite <- P in Hx. apply list_elem_of_join in Hx as (c & Hx & Hc). apply list_elem_of_fmap in Hc as ([d c'] & -> & Hc). simpl in Hx.
    assert (numberOfDigits floor_log10 (input_amount x) = d) as -> by (rewrite Forall_forall in F; specialize (F _ Hc); simpl in F; rewrite Forall_forall in F; auto).
    exists c'. split; [|by apply Q]. rewrite O. apply list_elem_of_fmap. by exists (d, c').
Qed.

Lemma take_count_ok m l : forall acc f, f = u64 (sumZ (input_amount <$> acc)) -> exists p r, l = p ++ r
  /\ take_count m acc f l = (acc ++ p, u64 (sumZ (input_amount <$> acc ++ p)))
  /\ (r <> [] -> m <= Z.of_nat (length (acc ++ p))) /\ (p = [] \/ Z.of_nat (length (acc ++ p)) <= Z.max m (Z.of_nat (length acc) + 1)).
Proof.
  induction l as [|x l IH]; intros acc f Hf; [exists [], []; rewrite !app_nil_r, Hf; split_and!; [done..|by left]|]. cbn [take_count].
  assert (Hf' : u64 (f + input_amount x) = u64 (sumZ (input_amount <$> acc ++ [x]))).
  { rewrite Hf, wrap_add_l, fmap_app, sumZ_app. f_equal. unfold sumZ. simpl. lia. }
  destruct (Z.leb_spec m (Z.of_nat (length (acc ++ [x])))) as [Hm|Hm].
  - exists [x], l. rewrite Hf'. split_and!; [done..|right; rewrite length_app; simpl; lia].
  - destruct (IH (acc ++ [x]) _ Hf') as (p & r & -> & -> & Hr & Hp). exists (x :: p), r. rewrite <- app_assoc in Hr, Hp |- *. simpl in Hr, Hp |- *.
    split_and!; [done..|right]. rewrite length_app in Hm. simpl in Hm. destruct Hp as [->|Hp]; [rewrite length_app; simpl; lia|].
    rewrite (length_app acc [x]) in Hp. simpl in Hp. lia.
Qed.
End buckets.

(** How many inputs fit in a fusion transaction. *)
Lemma fusion_max mixin : 0 <= mixin < 2 ^ 57 ->
  getApproximateMaximumInputCount FUSION_TX_MAX_SIZE FUSION_TX_MIN_IN_OUT_COUNT_RATIO mixin = Ok (29786 / (112 + 68 * mixin)).
Proof.
  intros Hm. change FUSION_TX_MAX_SIZE with 30000. change FUSION_TX_MIN_IN_OUT_COUNT_RATIO with 4.
  rewrite getApproximateMaximumInputCount_ok; [do 2 f_equal; lia|width_solve|lia|done|lia].
Qed.

(** The selection, by the number of digits the wallet computes. *)
Lemma fusion_selection_ok (shuffle bucket_order : forall A, list A -> list A) floor_log10 now (takeFromAll : bool) keys mixin height w wallets :
  (forall A (l : list A), shuffle A l ≡ₚ l) -> (forall A (l : list A), bucket_order A l ≡ₚ l) -> m_isViewWallet w = false ->
  wallets_of w (if takeFromAll then m_publicSpendKeys w else keys) = Ok wallets -> 0 <= mixin < 2 ^ 57 ->
  let available := available_inputs now height wallets in
  let of_size d := filter (fun x => numberOfDigits floor_log10 (input_amount x) = d) available in
  exists chosen maxInputs, getFusionTransactionInputs shuffle floor_log10 bucket_order now takeFromAll keys mixin height w
      = Ok (chosen, maxInputs, u64 (sumZ (input_amount <$> chosen)))
    /\ maxInputs = 29786 / (112 + 68 * mixin) /\ chosen ⊆+ available /\ Z.of_nat (length chosen) <= Z.max maxInputs 1
    /\ ((forall d, Z.of_nat (length (of_size d)) < FUSION_TX_MIN_INPUT_COUNT) -> maxInputs <= Z.of_nat (length chosen) \/ chosen ≡ₚ available)
    /\ (forall d, FUSION_TX_MIN_INPUT_COUNT <= Z.of_nat (length (of_size d)) -> exists e, chosen ⊆+ of_size e
         /\ (maxInputs <= Z.of_nat (length chosen) \/ FUSION_TX_MIN_INPUT_COUNT <= Z.of_nat (length chosen))).
Proof.
  intros Hs Hb Hv Hw Hm available of_size. unfold getFusionTransactionInputs, throwIfViewWallet. rewrite Hv. okbind. rewrite Hw. okbind.
  rewrite fusion_max by done. okbind. set (m := 29786 / (112 + 68 * mixin)).
  fold available. assert (P := Hs _ available). set (B := make_buckets _ _ _).
  destruct (make_buckets_ok floor_log10 bucket_order (shuffle _ available) Hb) as (Hj & Hd & Hx). fold B in Hj, Hd, Hx.
  set (full := shuffle _ _). set (from := match full with b :: _ => [b] | [] => B end).
  destruct (take_count_ok m (mjoin from) [] 0 eq_refl) as (p & r & Ep & -> & Hr & Hl). simpl app in *. okbind.
  assert (Fs : forall d, filter (fun x => numberOfDigits floor_log10 (input_amount x) = d) (shuffle _ available) ≡ₚ of_size d) by (intros; unfold of_size; by rewrite P).
  assert (Ff : forall b, b ∈ full -> (exists e, b ≡ₚ of_size e) /\ FUSION_TX_MIN_INPUT_COUNT <= Z.of_nat (length b)).
  { intros b Hb'. unfold full in Hb'. rewrite Hs in Hb'. apply list_elem_of_filter in Hb' as [Hn Hb']. split; [|done].
    destruct (Hd b Hb') as [e He]. exists e. by rewrite He. }
  assert (Hsub : p ⊆+ mjoin from) by (rewrite Ep; by apply submseteq_inserts_r).
  assert (Hall : r = [] -> p = mjoin from) by (intros ->; by rewrite Ep, app_nil_r).
  exists p, m. split_and!; [done|done| | | |].
  - rewrite Hsub. unfold from. destruct full as [|b rest] eqn:Ef; [by rewrite Hj, P|]. simpl. rewrite app_nil_r.
    destruct (Ff b) as [[e He] _]; [set_solver|]. rewrite He. unfold of_size. apply sublist_submseteq, sublist_filter.
  - destruct Hl as [->|Hl]; simpl in *; lia.
  - intros Hnone. assert (full = []) as Ef.
    { destruct full as [|b rest]; [done|]. destruct (Ff b) as [[e He] Hn]; [set_solver|]. rewrite He in Hn. specialize (Hnone e). lia. }
    destruct (decide (r = [])) as [Er|Er]; [right|left; auto]. rewrite (Hall Er). unfold from. by rewrite Ef, Hj, P.
  - intros d Hbig. assert (exists b rest, full = b :: rest) as (b & rest & Ef).
    { destruct full as [|b rest] eqn:Ef; [|eauto]. exfalso. destruct (of_size d) as [|x l] eqn:Eo; [by vm_compute in Hbig|].
      assert (Hxo : x ∈ of_size d) by (rewrite Eo; set_solver). apply list_elem_of_filter in Hxo as [Hxd Hxa].
      destruct (Hx x) as (b & HbB & Hb'); [by rewrite P|]. rewrite Hxd, Fs in Hb'. assert (b ∈ full); [|rewrite Ef in *; set_solver].
      unfold full. rewrite Hs. apply list_elem_of_filter. split; [|done]. by rewrite Hb', Eo. }
    destruct (Ff b) as [[e He] Hn]; [rewrite Ef; set_solver|]. assert (mjoin from = b) as Em by (unfold from; rewrite Ef; simpl; apply app_nil_r).
    exists e. split; [by rewrite Hsub, Em, He|]. destruct (decide (r = [])) as [Er|Er]; [right|left; auto]. by rewrite (Hall Er), Em.
Qed.

(** What the wallet takes from the C library: the double nearest to the logarithm of an integer below 10^14 lies
    between the same powers of ten as the integer does.  (At 10^15 - 1 it would already round up to 15.) *)
Definition log10_exact (floor_log10 : Z -> Z) : Prop :=
  forall a, 0 < a < 10 ^ 14 -> 10 ^ floor_log10 a <= a < 10 ^ (floor_log10 a + 1).

Lemma power_unique a d e : 0 < a -> 10 ^ e <= a < 10 ^ (e + 1) -> e = d <-> 10 ^ d <= a < 10 ^ (d + 1).
Proof.
  intros Ha He. assert (P : forall k, a < 10 ^ (k + 1) -> 0 <= k).
  { intros k Hk. destruct (Z.lt_trichotomy (k + 1) 0) as [Hn|[Hz|Hp]]; [rewrite Z.pow_neg_r in Hk by done; lia| |lia].
    rewrite Hz in Hk. simpl in Hk. lia. }
  pose proof (P e ltac:(lia)). split; [by intros <-|]. intros Hd. pose proof (P d ltac:(lia)).
  assert (e < d + 1) by (apply (Z.pow_lt_mono_r_iff 10); lia). assert (d < e + 1) by (apply (Z.pow_lt_mono_r_iff 10); lia). lia.
Qed.

(** The inputs of one power of ten: those of [d + 1] decimal digits. *)
Definition of_power (d : Z) (l : list TxInputAndOwner) : list TxInputAndOwner :=
  filter (fun x => 10 ^ d <= input_amount x < 10 ^ (d + 1)) l.

Lemma of_power_digits floor_log10 d l : log10_exact floor_log10 -> Forall (fun x => 0 < input_amount x < 10 ^ 14) l ->
  filter (fun x => numberOfDigits floor_log10 (input_amount x) = d + 1) l = of_power d l.
Proof.
  intros L F. unfold of_power, numberOfDigits. induction F as [|x l Hx F IH]; [done|]. rewrite !filter_cons.
  pose proof (power_unique (input_amount x) d _ (proj1 Hx) (L _ Hx)) as E.
  destruct (decide (_ + 1 = _)), (decide (_ <= _ < _)); rewrite ?IH; try done; exfalso; naive_solver lia.
Qed.

(** ** Properties *)

(** C28: Choosing the inputs of a transaction decides: when the spendable inputs of a thousand units or
    more reach the amount, whatever the shuffle, the wallet returns some of them, each once, with
    their exact sum, which covers the amount and would not without the last one chosen; when they do not
    reach it, it throws. *)
Theorem input_selection (shuffle : forall A, list A -> list A) now amount (takeFromAll : bool) keys height w wallets :
  (forall A (l : list A), shuffle A l ≡ₚ l) -> m_isViewWallet w = false ->
  wallets_of w (if takeFromAll then m_publicSpendKeys w else keys) = Ok wallets ->
  let total := sumZ (input_amount <$> available_inputs now height wallets) in
  0 < amount -> total < 2 ^ 64 ->
  (amount <= total -> exists chosen last, getTransactionInputsForAmount shuffle now amount takeFromAll keys height w
       = Ok (chosen ++ [last], sumZ (input_amount <$> chosen ++ [last]))
     /\ chosen ++ [last] ⊆+ available_inputs now height wallets
     /\ sumZ (input_amount <$> chosen) < amount <= sumZ (input_amount <$> chosen ++ [last]))
  /\ (total < amount -> getTransactionInputsForAmount shuffle now amount takeFromAll keys height w = Throw "Not enough funds found!").
Proof.
  intros Hs Hv Hw total Ha Ht. unfold getTransactionInputsForAmount, throwIfViewWallet. rewrite Hv. okbind. rewrite Hw. okbind.
  set (av := available_inputs now height wallets) in *. assert (P := Hs _ av).
  assert (Et : sumZ (input_amount <$> shuffle _ av) = total) by (unfold total; apply sumZ_perm; by rewrite P).
  destruct (take_until_ok amount (shuffle _ av) [] 0) as [T1 T2].
  { rewrite P. apply available_big. } { done. } { lia. } { lia. }
  rewrite Et in *. split.
  - intros Hle. destruct T1 as (p & x & r & El & -> & Hx & Hp).
    { split; [|lia]. intros E. rewrite E in Et. unfold sumZ in Et. simpl in Et. lia. }
    exists p, x. split_and!; [done| |destruct Hp as [->|]; [unfold sumZ; simpl; lia|lia]|lia].
    rewrite <- P, El. rewrite (app_assoc p [x] r : p ++ x :: r = _). by apply submseteq_inserts_r.
  - intros Hlt. apply T2. right. lia.
Qed.

(** A wallet with one address, that holds three inputs. *)
Definition sample_input (i amount : Z) : WalletInput :=
  {| wi_keyImage := [i]; wi_amount := amount; wi_blockHeight := 5; wi_transactionPublicKey := []; wi_transactionIndex := 0;
     wi_globalOutputIndex := Some i; wi_key := [i]; wi_spendHeight := 0; wi_unlockTime := 0; wi_parentTransactionHash := [1] |}.
Definition sample_SubWallets (amounts : list Z) : SubWallets :=
  let s := new_SubWallet [7] [8] [] 0 0 true in
  insert_subWallet [7] (foldl (fun s x => SubWallet_storeTransactionInput x false s) s (imap (fun i a => sample_input (Z.of_nat i) a) amounts))
    (empty_SubWallets [9] false).
Lemma input_selection_witness : exists chosen last, getTransactionInputsForAmount (fun A => reverse) 0 5000 true [] 100 (sample_SubWallets [3000; 900; 4000])
       = Ok (chosen ++ [last], sumZ (input_amount <$> chosen ++ [last]))
     /\ chosen ++ [last] ⊆+ available_inputs 0 100 (snd <$> map_to_list (m_subWallets (sample_SubWallets [3000; 900; 4000])))
     /\ sumZ (input_amount <$> chosen) < 5000 <= sumZ (input_amount <$> chosen ++ [last]).
Proof.
  exact (proj1 (input_selection (fun A => reverse) 0 5000 true [] 100 (sample_SubWallets [3000; 900; 4000]) _
    (fun A l => reverse_Permutation l) eq_refl eq_refl ltac:(lia) ltac:(by vm_compute)) ltac:(by vm_compute)).
Defined.

(** C29: Choosing the inputs of a fusion transaction, for amounts below 10^14 (on which log10 is exact): the wallet
    returns some of the spendable inputs of a thousand units or more, each once, with their sum modulo 2^64 and the
    number [maxInputs] that fits in a transaction, and no more than that (a single one when none fits).  When twelve
    inputs or more have the same power of ten, all the chosen ones have one power of ten, and they are twelve at least
    or as many as fit; when no power of ten has twelve, the choice is over all sizes: every spendable input if they
    fit, else as many as fit. *)
Theorem fusion_selection (shuffle bucket_order : forall A, list A -> list A) floor_log10 now (takeFromAll : bool) keys mixin height w wallets :
  (forall A (l : list A), shuffle A l ≡ₚ l) -> (forall A (l : list A), bucket_order A l ≡ₚ l) -> log10_exact floor_log10 ->
  m_isViewWallet w = false -> wallets_of w (if takeFromAll then m_publicSpendKeys w else keys) = Ok wallets -> 0 <= mixin < 2 ^ 57 ->
  let available := available_inputs now height wallets in
  Forall (fun x => input_amount x < 10 ^ 14) available ->
  exists chosen maxInputs, getFusionTransactionInputs shuffle floor_log10 bucket_order now takeFromAll keys mixin height w
      = Ok (chosen, maxInputs, u64 (sumZ (input_amount <$> chosen)))
    /\ maxInputs = 29786 / (112 + 68 * mixin) /\ chosen ⊆+ available /\ Z.of_nat (length chosen) <= Z.max maxInputs 1
    /\ ((exists d, FUSION_TX_MIN_INPUT_COUNT <= Z.of_nat (length (of_power d available))) -> exists e, chosen ⊆+ of_power e available
         /\ (maxInputs <= Z.of_nat (length chosen) \/ FUSION_TX_MIN_INPUT_COUNT <= Z.of_nat (length chosen)))
    /\ ((forall d, Z.of_nat (length (of_power d available)) < FUSION_TX_MIN_INPUT_COUNT) ->
         maxInputs <= Z.of_nat (length chosen) \/ chosen ≡ₚ available).
Proof.
  intros Hs Hb HL Hv Hw Hm available Hsmall.
  destruct (fusion_selection_ok shuffle bucket_order floor_log10 now takeFromAll keys mixin height w wallets Hs Hb Hv Hw Hm)
    as (chosen & m & E & Em & Hsub & Hl & Hnone & Hsome). fold available in Hsub, Hnone, Hsome.
  assert (F : Forall (fun x => 0 < input_amount x < 10 ^ 14) available).
  { pose proof (available_big now height wallets) as B. fold available in B. rewrite Forall_forall in B, Hsmall |- *.
    intros x Hx. specialize (B x Hx). specialize (Hsmall x Hx). unfold INPUT_NOT_SENDING in B. simpl in *. lia. }
  assert (D : forall d, filter (fun x => numberOfDigits floor_log10 (input_amount x) = d) available = of_power (d - 1) available).
  { intros d. rewrite <- (of_power_digits floor_log10) by done. by rewrite Z.sub_add. }
  exists chosen, m. split_and!; [done..| |].
  - intros (d & Hd). destruct (Hsome (d + 1)) as (e & He & Hc); [by rewrite D, Z.add_simpl_r|]. exists (e - 1). by rewrite <- D.
  - intros H. apply Hnone. intros d. rewrite D. apply H.
Qed.

(** The exact number of decimal digits, less one. *)
Fixpoint log10_loop (fuel : nat) (a : Z) : Z :=
  match fuel with
  | O => 0
  | S fuel => if a <? 10 then 0 else log10_loop fuel (a / 10) + 1
  end.
Lemma log10_loop_ok fuel : forall a, 0 < a < 10 ^ Z.of_nat fuel -> 0 <= log10_loop fuel a /\ 10 ^ log10_loop fuel a <= a < 10 ^ (log10_loop fuel a + 1).
Proof.
  induction fuel as [|n IH]; intros a Ha; [simpl in Ha; lia|]. cbn [log10_loop]. destruct (Z.ltb_spec a 10); [simpl; lia|].
  rewrite Nat2Z.inj_succ, Z.pow_succ_r in Ha by lia. destruct (IH (a / 10)) as [H0 H1].
  { split; [apply Z.div_str_pos; lia|apply Z.div_lt_upper_bound; lia]. }
  split; [lia|]. rewrite !Z.pow_add_r in * by lia. pose proof (Z.div_mod a 10 ltac:(lia)). pose proof (Z.mod_pos_bound a 10 ltac:(lia)). lia.
Qed.
Definition digits_less_one : Z -> Z := log10_loop 14.
Lemma digits_exact : log10_exact digits_less_one.
Proof. intros a Ha. by apply log10_loop_ok. Qed.

Definition fusion_amounts : list Z := [900] ++ replicate 3 40000 ++ replicate 12 5000.
Definition fusion_wallets : list SubWallet := snd <$> map_to_list (m_subWallets (sample_SubWallets fusion_amounts)).
Definition fusion_available : list TxInputAndOwner := available_inputs 0 100 fusion_wallets.
Lemma fusion_selection_witness :
  exists chosen maxInputs, getFusionTransactionInputs (fun A => reverse) digits_less_one (fun A => reverse) 0 true [] 3 100 (sample_SubWallets fusion_amounts)
      = Ok (chosen, maxInputs, u64 (sumZ (input_amount <$> chosen)))
    /\ maxInputs = 29786 / (112 + 68 * 3) /\ chosen ⊆+ fusion_available /\ Z.of_nat (length chosen) <= Z.max maxInputs 1
    /\ (exists e, chosen ⊆+ of_power e fusion_available
         /\ (maxInputs <= Z.of_nat (length chosen) \/ FUSION_TX_MIN_INPUT_COUNT <= Z.of_nat (length chosen))).
Proof.
  destruct (fusion_selection (fun A => reverse) (fun A => reverse) digits_less_one 0 true [] 3 100 (sample_SubWallets fusion_amounts)
    fusion_wallets (fun A l => reverse_Permutation l)
    (fun A l => reverse_Permutation l) digits_exact eq_refl eq_refl ltac:(lia)) as (chosen & m & E & Em & Hsub & Hl & H & _).
  - apply (bool_decide_eq_true_1 _). vm_compute. reflexivity.
  - exists chosen, m. split_and!; [exact E|exact Em|exact Hsub|exact Hl|]. apply H. exists 3. vm_compute. discriminate.
Defined.
