(* ===== verification/WalletInvariant.v ===== *)
(** * WalletInvariant: what holds of a wallet after any sequence of operations

    The operations of [SubWallets.v] as a step relation, the invariant of any sequence of them
    ([wallet_shape]: spend keys, primary address, view wallets), the invariant of those in which no
    stored input repeats a key image ([wallet_consistent]: key images and their owners too), and
    what deleting an address or receiving a key image twice does to a wallet. *)

From Stdlib Require Import ZArith Lia.
From stdpp Require Import base tactics list numbers strings gmap fin_sets sorting.
From S2P Require Import Prelude Base58 Config Types WalletUtil Addresses SubWallet SubWallets.

Local Open Scope Z_scope.

(** ** One address *)

(** The operation keeps the key and the rank of the address, and adds no key image. *)
Definition shrinks (s' s : SubWallet) : Prop :=
  getKeyImages s' ⊆+ getKeyImages s /\ m_publicSpendKey s' = m_publicSpendKey s /\ m_isPrimaryAddress s' = m_isPrimaryAddress s.
(** A view wallet never learns of a spend. *)
Definition only_unspent (s : SubWallet) : Prop := m_lockedInputs s = [] /\ m_spentInputs s = [].

Lemma map_set_spendHeight h (l : list WalletInput) : wi_keyImage <$> (set_spendHeight h <$> l) = wi_keyImage <$> l.
Proof. rewrite <- list_fmap_compose. by apply list_fmap_ext. Qed.

Lemma spent_images i h s : getKeyImages (SubWallet_markInputAsSpent i h s) ≡ₚ getKeyImages s.
Proof.
  unfold SubWallet_markInputAsSpent, getKeyImages. destruct (find_erase _ (m_unspentInputs s)) as [[x rest]|] eqn:E.
  { apply find_erase_perm in E. simpl. rewrite E, !fmap_app. simpl. rewrite !app_assoc, (Permutation_app_comm _ [_]). done. }
  destruct (find_erase _ (m_lockedInputs s)) as [[x rest]|] eqn:E2; [|done]. apply find_erase_perm in E2. simpl.
  rewrite E2, !fmap_app. simpl. apply Permutation_app_head. rewrite app_assoc, (Permutation_app_comm _ [_]). done.
Qed.
Lemma locked_images i s : getKeyImages (SubWallet_markInputAsLocked i s) ≡ₚ getKeyImages s.
Proof.
  unfold SubWallet_markInputAsLocked, getKeyImages. destruct (find_erase _ (m_unspentInputs s)) as [[x rest]|] eqn:E; [|done].
  apply find_erase_perm in E. simpl. rewrite E, !fmap_app. simpl. rewrite <- !app_assoc. simpl. by rewrite !Permutation_middle.
Qed.
Lemma cancelled_images c s : getKeyImages (SubWallet_removeCancelledTransactions c s) ≡ₚ getKeyImages s.
Proof.
  unfold SubWallet_removeCancelledTransactions, getKeyImages. simpl. rewrite fmap_app, map_set_spendHeight, <- app_assoc. apply Permutation_app_head.
  rewrite app_assoc. apply Permutation_app_tail. rewrite <- fmap_app. by apply fmap_Permutation, filter_app_complement.
Qed.
Lemma store_images input v s : getKeyImages (SubWallet_storeTransactionInput input v s) ≡ₚ wi_keyImage input :: getKeyImages s.
Proof. unfold SubWallet_storeTransactionInput, getKeyImages. simpl. rewrite fmap_app, <- app_assoc. simpl. symmetry. apply Permutation_middle. Qed.
Lemma forked_images f s : (removeForkedInputs f false s).1 ++ getKeyImages (removeForkedInputs f false s).2 ≡ₚ getKeyImages s.
Proof.
  unfold removeForkedInputs, getKeyImages. simpl.
  set (F := fun l : list WalletInput => filter (isForked f) l). set (K := fun l : list WalletInput => filter (fun i => ~ isForked f i) l). cbv zeta.
  assert (S : forall l, (wi_keyImage <$> F l) ++ (wi_keyImage <$> K l) ≡ₚ wi_keyImage <$> l) by (intros l; rewrite <- fmap_app; apply fmap_Permutation; apply filter_app_complement).
  assert (R : (wi_keyImage <$> (set_spendHeight 0 <$> filter (fun i => f <= wi_spendHeight i) (K (m_spentInputs s)))) ++
              (wi_keyImage <$> filter (fun i => ~ f <= wi_spendHeight i) (K (m_spentInputs s))) ≡ₚ wi_keyImage <$> K (m_spentInputs s)).
  { rewrite map_set_spendHeight, <- fmap_app. by apply fmap_Permutation, filter_app_complement. }
  rewrite <- (S (m_unspentInputs s)), <- (S (m_lockedInputs s)), <- (S (m_spentInputs s)), fmap_app, <- R. fold (K (m_spentInputs s)).
  solve_Permutation.
Qed.
Lemma prune_images h s : getKeyImages (SubWallet_pruneSpentInputs h s) ⊆+ getKeyImages s.
Proof. unfold SubWallet_pruneSpentInputs, getKeyImages. simpl. apply submseteq_app; [done|]. apply submseteq_app; [done|]. apply fmap_submseteq, sublist_submseteq, sublist_filter. Qed.

Lemma shrinks_perm s' s : getKeyImages s' ≡ₚ getKeyImages s -> m_publicSpendKey s' = m_publicSpendKey s -> m_isPrimaryAddress s' = m_isPrimaryAddress s -> shrinks s' s.
Proof. intros E ? ?. split_and!; [by rewrite E|done|done]. Qed.
Lemma spent_shrinks i h s : shrinks (SubWallet_markInputAsSpent i h s) s.
Proof.
  apply shrinks_perm; [apply spent_images|..]; unfold SubWallet_markInputAsSpent;
    (destruct (find_erase _ _) as [[]|]; [done|]; by destruct (find_erase _ _) as [[]|]).
Qed.
Lemma locked_shrinks i s : shrinks (SubWallet_markInputAsLocked i s) s.
Proof. apply shrinks_perm; [apply locked_images|..]; unfold SubWallet_markInputAsLocked; by destruct (find_erase _ _) as [[]|]. Qed.
Lemma cancelled_shrinks c s : shrinks (SubWallet_removeCancelledTransactions c s) s.
Proof. apply shrinks_perm; [apply cancelled_images|done..]. Qed.
Lemma prune_shrinks h s : shrinks (SubWallet_pruneSpentInputs h s) s.
Proof. split_and!; [apply prune_images|done..]. Qed.
Lemma reset_shrinks h s : shrinks (SubWallet_reset h s) s.
Proof. split_and!; [apply submseteq_nil_l|done..]. Qed.
Lemma convert_shrinks t h s : shrinks (SubWallet_convertSyncTimestampToHeight t h s) s.
Proof. unfold SubWallet_convertSyncTimestampToHeight. by case_match. Qed.
Lemma forked_shrinks f v s : shrinks (removeForkedInputs f v s).2 s.
Proof.
  change (removeForkedInputs f v s).2 with (removeForkedInputs f false s).2. split_and!; [|done..]. rewrite <- (forked_images f s). by apply submseteq_inserts_l.
Qed.

Create HintDb wallet.
#[export] Hint Resolve spent_shrinks locked_shrinks cancelled_shrinks prune_shrinks reset_shrinks convert_shrinks : wallet.

(** ** The invariant *)

(** The addresses. *)
Record wallet_shape (w : SubWallets) : Prop := {
  ws_nodup : NoDup (m_publicSpendKeys w);
  ws_keys : forall k, k ∈ m_publicSpendKeys w <-> is_Some (m_subWallets w !! k);
  ws_own : forall k s, m_subWallets w !! k = Some s -> m_publicSpendKey s = k;
  ws_primary : exists k s, m_subWallets w !! k = Some s /\ m_isPrimaryAddress s = true
    /\ forall k' s', m_subWallets w !! k' = Some s' -> m_isPrimaryAddress s' = true -> k' = k;
  ws_view : m_isViewWallet w = true -> map_Forall (fun _ s => only_unspent s) (m_subWallets w) }.

(** The key images. *)
Record images_unique (w : SubWallets) : Prop := {
  iu_images : m_isViewWallet w = false -> forall k s, m_subWallets w !! k = Some s -> NoDup (getKeyImages s);
  iu_owners : m_isViewWallet w = false -> forall k s i, m_subWallets w !! k = Some s -> i ∈ getKeyImages s -> m_keyImageOwners w !! i = Some k }.

Record wallet_consistent (w : SubWallets) : Prop := {
  wc_shape : wallet_shape w;
  wc_unique : images_unique w }.

(** Some address holds an input with this key image. *)
Definition held (w : SubWallets) (i : KeyImage) : Prop := exists k s, m_subWallets w !! k = Some s /\ i ∈ getKeyImages s.

(** Every known key image belongs to an address that is still there. *)
Definition owners_known (w : SubWallets) : Prop := forall i k, m_keyImageOwners w !! i = Some k -> is_Some (m_subWallets w !! k).

(** *** Operations that only change the addresses in place *)

Record in_place (w' w : SubWallets) : Prop := {
  ip_wallets : forall k, option_Forall2 shrinks (m_subWallets w' !! k) (m_subWallets w !! k);
  ip_keys : m_publicSpendKeys w' = m_publicSpendKeys w;
  ip_view : m_isViewWallet w' = m_isViewWallet w;
  ip_unspent : m_isViewWallet w = true -> map_Forall (fun _ s => only_unspent s) (m_subWallets w) -> map_Forall (fun _ s => only_unspent s) (m_subWallets w');
  ip_owners : m_isViewWallet w = false -> images_unique w -> forall i, held w' i -> m_keyImageOwners w' !! i = m_keyImageOwners w !! i;
  ip_known : forall i k, m_keyImageOwners w' !! i = Some k -> m_keyImageOwners w !! i = Some k }.

Lemma in_place_lookup w' w k s' : in_place w' w -> m_subWallets w' !! k = Some s' -> exists s, m_subWallets w !! k = Some s /\ shrinks s' s.
Proof. intros I E. pose proof (ip_wallets _ _ I k) as F. rewrite E in F. inversion F; subst. eauto. Qed.
Lemma in_place_is_Some w' w k : in_place w' w -> is_Some (m_subWallets w' !! k) <-> is_Some (m_subWallets w !! k).
Proof. intros I. destruct (ip_wallets _ _ I k); split; eauto; by intros []. Qed.

Lemma in_place_shape w' w : in_place w' w -> wallet_shape w -> wallet_shape w'.
Proof.
  intros I [Nd Ks Own (k & s & E & Ep & Eu) Vw]. constructor.
  - by rewrite (ip_keys _ _ I).
  - intros j. by rewrite (ip_keys _ _ I), Ks, (in_place_is_Some _ _ _ I).
  - intros j s' Es. destruct (in_place_lookup _ _ _ _ I Es) as (t & Et & _ & -> & _). eauto.
  - pose proof (ip_wallets _ _ I k) as F. rewrite E in F. inversion F as [s' ? Sh Es|]; subst. exists k, s'.
    split_and!; [done|by rewrite (proj2 (proj2 Sh))|]. intros k' t' Et' Ep'. destruct (in_place_lookup _ _ _ _ I Et') as (t & Et & _ & _ & Hp).
    apply (Eu _ _ Et). by rewrite <- Hp.
  - intros V. rewrite (ip_view _ _ I) in V. by apply (ip_unspent _ _ I V), Vw.
Qed.
Lemma in_place_unique w' w : in_place w' w -> images_unique w -> images_unique w'.
Proof.
  intros I U. pose proof U as [Im Ow]. constructor; intros V; rewrite (ip_view _ _ I) in V.
  - intros j s' Es. destruct (in_place_lookup _ _ _ _ I Es) as (t & Et & Hs & _).
    apply submseteq_Permutation in Hs as [r Hr]. specialize (Im V j t Et). rewrite Hr in Im. by apply NoDup_app in Im as [? _].
  - intros j s' i Es Hi. rewrite (ip_owners _ _ I V U) by (eexists _, _; eauto).
    destruct (in_place_lookup _ _ _ _ I Es) as (t & Et & Hs & _). eapply Ow; [done|exact Et|]. by eapply elem_of_submseteq.
Qed.
Lemma in_place_known w' w : in_place w' w -> owners_known w -> owners_known w'.
Proof. intros I K i k E. apply (in_place_is_Some _ _ _ I). eapply K, (ip_known _ _ I), E. Qed.

(** The map of addresses is the only member of these that changes. *)
Definition same_wallets (w' w : SubWallets) : Prop :=
  m_subWallets w' = m_subWallets w /\ m_publicSpendKeys w' = m_publicSpendKeys w /\ m_isViewWallet w' = m_isViewWallet w
  /\ m_keyImageOwners w' = m_keyImageOwners w.
Lemma same_wallets_in_place w' w : same_wallets w' w -> in_place w' w.
Proof.
  intros (E1 & E2 & E3 & E4). constructor; rewrite ?E1, ?E2, ?E3, ?E4; try done. intros k. destruct (_ !! k); constructor. done.
Qed.
Lemma on_all_in_place f w0 w : same_wallets w0 w -> (forall s, shrinks (f s) s) -> (forall s, only_unspent s -> only_unspent (f s)) -> in_place (on_all f w0) w.
Proof.
  intros (E1 & E2 & E3 & E4) F U. constructor; simpl; rewrite ?E1, ?E2, ?E3, ?E4; try done.
  - intros k. rewrite lookup_fmap. destruct (m_subWallets w !! k); constructor. apply F.
  - intros _ V k s E. apply lookup_fmap_Some in E as (t & <- & Et). eauto.
Qed.
Lemma insert_in_place k s s' w : m_subWallets w !! k = Some s -> shrinks s' s -> (m_isViewWallet w = true -> only_unspent s -> only_unspent s') ->
  in_place (set_subWallets (<[k := s']> (m_subWallets w)) w) w.
Proof.
  intros E F U. constructor; try done.
  - intros j. simpl. destruct (decide (j = k)) as [->|]; [rewrite lookup_insert_eq, E; by constructor|].
    rewrite lookup_insert_ne by done. destruct (m_subWallets w !! j); constructor. done.
  - intros V M. simpl. apply map_Forall_insert_2; [|done]. apply U; [done|]. by apply (M k).
Qed.

(** ** The operations as steps *)

Section steps.
Context `{WalletCrypto}.

(** A generated key is new.  [deleting] says whether addresses may be deleted, and [fresh] restricts the sequence to inputs whose key
    image no address holds when they are stored, which [storeTransactionInput] does not check. *)
Inductive wallet_step (deleting fresh : bool) : SubWallets -> SubWallets -> Prop :=
| step_add now kp w e a sk w' : m_subWallets w !! publicKey kp = None -> addSubWallet now kp w = Ok (e, a, sk, w') -> wallet_step deleting fresh w w'
| step_import sk h w e a w' : importSubWallet sk h w = Ok (e, a, w') -> wallet_step deleting fresh w w'
| step_importView pk h w e a w' : importViewSubWallet pk h w = Ok (e, a, w') -> wallet_step deleting fresh w w'
| step_delete address w e w' : deleting = true -> deleteSubWallet address w = Ok (e, w') -> wallet_step deleting fresh w w'
| step_unconfirmed tx w : wallet_step deleting fresh w (addUnconfirmedTransaction tx w)
| step_transaction tx w : wallet_step deleting fresh w (addTransaction tx w)
| step_store k input w w' : (fresh = true -> ~ held w (wi_keyImage input)) -> storeTransactionInput k input w = Ok w' -> wallet_step deleting fresh w w'
| step_incoming input k w : wallet_step deleting fresh w (storeUnconfirmedIncomingInput input k w)
| step_spent i k h w w' : markInputAsSpent i k h w = Ok w' -> wallet_step deleting fresh w w'
| step_locked i k w w' : markInputAsLocked i k w = Ok w' -> wallet_step deleting fresh w w'
| step_forked h w : wallet_step deleting fresh w (removeForkedTransactions h w)
| step_cancelled c w w' : removeCancelledTransactions c w = Ok w' -> wallet_step deleting fresh w w'
| step_reset h w : wallet_step deleting fresh w (reset h w)
| step_convert t h w : wallet_step deleting fresh w (convertSyncTimestampToHeight t h w)
| step_prune h w : wallet_step deleting fresh w (pruneSpentInputs h w)
| step_txKey sk h w : wallet_step deleting fresh w (storeTxPrivateKey sk h w).

Inductive wallet_reachable (deleting fresh : bool) : SubWallets -> Prop :=
| reach_new now sk vk a h n : wallet_reachable deleting fresh (new_SubWallets now sk vk a h n)
| reach_view now vk a h n w : new_view_SubWallets now vk a h n = Ok w -> wallet_reachable deleting fresh w
| reach_step w w' : wallet_reachable deleting fresh w -> wallet_step deleting fresh w w' -> wallet_reachable deleting fresh w'.

(** *** Each step *)

Lemma held_insert w k s i : held (set_subWallets (<[k := s]> (m_subWallets w)) w) i -> i ∈ getKeyImages s \/ held w i.
Proof.
  intros (j & t & E & Hi). simpl in E. apply lookup_insert_Some in E as [[<- <-]|[? E]]; [by left|right]. eexists _, _. eauto.
Qed.

Lemma insert_new k s w j t : <[k := s]> (m_subWallets w) !! j = Some t -> (j = k /\ t = s) \/ (j <> k /\ m_subWallets w !! j = Some t).
Proof. intros [[<- <-]|[? ?]]%lookup_insert_Some; auto. Qed.
Lemma no_images s : m_unspentInputs s = [] -> only_unspent s -> getKeyImages s = [].
Proof. intros Hu [Hl Hs]. unfold getKeyImages. by rewrite Hu, Hl, Hs. Qed.

Lemma insert_shape k s w : wallet_shape w -> m_subWallets w !! k = None -> m_publicSpendKey s = k -> m_isPrimaryAddress s = false ->
  only_unspent s -> wallet_shape (insert_subWallet k s w).
Proof.
  intros [Nd Ks Own (p & q & E & Ep & Eu) Vw] Hk Hs Hp Hl. constructor; simpl.
  - apply NoDup_app. split_and!; [done| |apply NoDup_singleton]. intros j Hj ->%list_elem_of_singleton. apply Ks in Hj. rewrite Hk in Hj. by destruct Hj.
  - intros j. rewrite elem_of_app, list_elem_of_singleton, Ks. destruct (decide (j = k)) as [->|]; [rewrite lookup_insert_eq; naive_solver|].
    rewrite lookup_insert_ne by done. naive_solver.
  - intros j t [[-> ->]|[_ ?]]%insert_new; eauto.
  - exists p, q. split_and!; [rewrite lookup_insert_ne; [done|intros ->; congruence]|done|]. intros j t [[-> ->]|[_ ?]]%insert_new Ht; [congruence|eauto].
  - intros V. apply map_Forall_insert_2; [done|auto].
Qed.
Lemma insert_unique k s w : images_unique w -> getKeyImages s = [] -> images_unique (insert_subWallet k s w).
Proof.
  intros [Im Ow] Hi. constructor; simpl; intros V j t.
  - intros [[-> ->]|[_ ?]]%insert_new; [rewrite Hi; apply NoDup_nil_2|eauto].
  - intros i [[-> ->]|[_ ?]]%insert_new; [rewrite Hi; set_solver|eauto].
Qed.
Lemma insert_known k s w : owners_known w -> owners_known (insert_subWallet k s w).
Proof. intros K i j E. simpl in *. apply lookup_insert_is_Some. destruct (decide (k = j)); [by left|right]. eauto. Qed.

Lemma delete_cases a w e w' : deleteSubWallet a w = Ok (e, w') -> w' = w \/ exists k s, m_subWallets w !! k = Some s /\ m_isPrimaryAddress s = false
  /\ m_subWallets w' = delete k (m_subWallets w) /\ m_publicSpendKeys w' = filter (fun j => j <> k) (m_publicSpendKeys w)
  /\ m_isViewWallet w' = m_isViewWallet w /\ m_keyImageOwners w' = m_keyImageOwners w.
Proof.
  intros E. unfold deleteSubWallet in E. inv_ok. destruct v as [k vk]. destruct (m_subWallets w !! k) as [s|] eqn:Es; [|simplify_eq; by left].
  destruct (m_isPrimaryAddress s) eqn:Hp; [simplify_eq; by left|]. injection E as <- <-. right. by exists k, s.
Qed.
Lemma delete_shape a w e w' : wallet_shape w -> deleteSubWallet a w = Ok (e, w') -> wallet_shape w'.
Proof.
  intros C [->|(k & s & Es & Hp & EW & EK & EV & _)]%delete_cases; [done|]. destruct C as [Nd Ks Own (p & q & E & Ep & Eu) Vw].
  assert (L : forall j t, delete k (m_subWallets w) !! j = Some t -> m_subWallets w !! j = Some t) by (intros j t Ej; by apply lookup_delete_Some in Ej as [_ ?]).
  constructor; rewrite ?EW, ?EK, ?EV; [by apply NoDup_filter| | | |].
  - intros j. rewrite list_elem_of_filter, Ks, lookup_delete_is_Some. naive_solver.
  - intros j t ?%L; eauto.
  - exists p, q. split_and!; [rewrite lookup_delete_ne; [done|intros ->; congruence]|done|]. intros j t ?%L; eauto.
  - intros V. by apply map_Forall_delete, Vw.
Qed.
Lemma delete_unique a w e w' : images_unique w -> deleteSubWallet a w = Ok (e, w') -> images_unique w'.
Proof.
  intros C [->|(k & s & Es & _ & EW & _ & EV & EO)]%delete_cases; [done|]. destruct C as [Im Ow].
  constructor; rewrite EW, EV, ?EO; intros V j t; [intros [_ ?]%lookup_delete_Some|intros i [_ ?]%lookup_delete_Some]; eauto.
Qed.

Lemma store_fields k input w w' : storeTransactionInput k input w = Ok w' -> exists s,
  m_subWallets w !! k = Some s /\ m_subWallets w' = <[k := SubWallet_storeTransactionInput input (m_isViewWallet w) s]> (m_subWallets w)
  /\ m_publicSpendKeys w' = m_publicSpendKeys w /\ m_isViewWallet w' = m_isViewWallet w
  /\ m_keyImageOwners w' = (if m_isViewWallet w then m_keyImageOwners w else <[wi_keyImage input := k]> (m_keyImageOwners w)).
Proof.
  intros E. unfold storeTransactionInput in E. destruct (m_subWallets w !! k) as [s|]; [|done]. apply Ok_inj in E as <-. exists s.
  by destruct (m_isViewWallet w) eqn:V; simpl; rewrite ?V.
Qed.

Lemma store_shape k input w w' : wallet_shape w -> storeTransactionInput k input w = Ok w' -> wallet_shape w'.
Proof.
  intros C (s & Es & EW & EK & EV & _)%store_fields. destruct C as [Nd Ks Own (p & q & E & Ep & Eu) Vw].
  constructor; rewrite ?EK, ?EV, ?EW; [done| | | |].
  - intros j. rewrite Ks. destruct (decide (j = k)) as [->|]; [rewrite lookup_insert_eq; naive_solver|by rewrite lookup_insert_ne].
  - intros j t [[-> ->]|[_ ?]]%insert_new; [apply (Own _ _ Es)|eauto].
  - exists p. destruct (decide (p = k)) as [->|]; [exists (SubWallet_storeTransactionInput input (m_isViewWallet w) s); simplify_eq; rewrite lookup_insert_eq|exists q; rewrite lookup_insert_ne by done];
      (split_and!; [done|done|]; intros j t [[-> ->]|[_ ?]]%insert_new; eauto).
  - intros V. apply map_Forall_insert_2; [|auto]. destruct (Vw V k s Es) as [? ?]. by split.
Qed.
Lemma store_unique k input w w' : images_unique w -> ~ held w (wi_keyImage input) -> storeTransactionInput k input w = Ok w' -> images_unique w'.
Proof.
  intros [Im Ow] Hn (s & Es & EW & EK & EV & EO)%store_fields. set (s' := SubWallet_storeTransactionInput _ _ s) in *.
  assert (Hs' : getKeyImages s' ≡ₚ wi_keyImage input :: getKeyImages s) by apply store_images.
  constructor; rewrite EV, EW, ?EO; intros V; rewrite ?V.
  - intros j t [[-> ->]|[_ ?]]%insert_new; [|eauto]. rewrite Hs'. apply NoDup_cons. split; [|eauto]. intros Hi. apply Hn. exists k, s. done.
  - intros j t i [[-> ->]|[? Et]]%insert_new Hi.
    + rewrite Hs' in Hi. apply elem_of_cons in Hi as [->|Hi]; [apply lookup_insert_eq|]. rewrite lookup_insert_ne; [eauto|].
      intros <-. apply Hn. exists k, s. done.
    + rewrite lookup_insert_ne; [eauto|]. intros <-. apply Hn. exists j, t. done.
Qed.
Lemma store_known k input w w' : owners_known w -> storeTransactionInput k input w = Ok w' -> owners_known w'.
Proof.
  intros K E. apply store_fields in E as (s & Es & EW & _ & _ & EO). intros i j Hj. rewrite EW. apply lookup_insert_is_Some.
  destruct (decide (k = j)); [by left|right]. split; [done|]. rewrite EO in Hj. destruct (m_isViewWallet w); [eauto|].
  apply lookup_insert_Some in Hj as [[_ ?]|[_ ?]]; [done|eauto].
Qed.

(** The addresses after a fork, and the key images that are forgotten. *)
Lemma foldl_delete (l : list KeyImage) : forall (m : gmap KeyImage PublicKey) i,
  foldl (fun m j => delete j m) m l !! i = if decide (i ∈ l) then None else m !! i.
Proof.
  induction l as [|j l IH]; intros m i; cbn [foldl]; [by rewrite decide_False by set_solver|]. rewrite IH.
  destruct (decide (i ∈ l)); [by rewrite decide_True by set_solver|]. destruct (decide (i = j)) as [->|].
  - rewrite decide_True by set_solver. apply lookup_delete_eq.
  - rewrite decide_False by set_solver. by apply lookup_delete_ne.
Qed.

Lemma forked_in_place f w : in_place (removeForkedTransactions f w) w.
Proof.
  assert (L : forall k, m_subWallets (removeForkedTransactions f w) !! k = snd ∘ removeForkedInputs f (m_isViewWallet w) <$> m_subWallets w !! k).
  { intros k. simpl. rewrite !lookup_fmap. by destruct (_ !! k). }
  constructor; try done.
  - intros k. rewrite L. destruct (m_subWallets w !! k); constructor. apply forked_shrinks.
  - intros V M k s E. rewrite L in E. apply fmap_Some in E as (t & Et & ->). destruct (M k t Et) as [Hl Hs].
    split; simpl; by rewrite ?Hl, ?Hs.
  - intros V C i (k & s & E & Hi). simpl. rewrite foldl_delete. rewrite decide_False; [done|]. intros (l & Hl & (x & -> & Hx)%list_elem_of_fmap)%list_elem_of_join.
    destruct x as [j [imgs t]]. apply elem_of_map_to_list in Hx. rewrite lookup_fmap in Hx. apply fmap_Some in Hx as (u & Eu & Ej). simpl in Hl.
    rewrite L in E. apply fmap_Some in E as (v & Ev & ->). rewrite V in *. simpl in Hi.
    assert (Hu : i ∈ getKeyImages u) by (rewrite <- (forked_images f u); apply elem_of_app; left; by rewrite <- Ej).
    assert (Hv : i ∈ getKeyImages v) by (rewrite <- (forked_images f v); apply elem_of_app; by right).
    pose proof (iu_owners _ C V _ _ _ Eu Hu) as O1. pose proof (iu_owners _ C V _ _ _ Ev Hv) as O2.
    assert (j = k) as -> by congruence. assert (u = v) as -> by congruence.
    pose proof (iu_images _ C V _ _ Ev) as Nd. rewrite <- (forked_images f v) in Nd. apply NoDup_app in Nd as (_ & Nd & _).
    eapply (Nd i); [|exact Hi]. by rewrite <- Ej.
  - intros i k E. simpl in E. rewrite foldl_delete in E. by destruct (decide _).
Qed.

Lemma locked_wallet_in_place i k w w' : markInputAsLocked i k w = Ok w' -> in_place w' w.
Proof.
  intros E. unfold markInputAsLocked, throwIfViewWallet, at_subWallet in E. inv_ok. destruct (m_subWallets w !! k) as [s|] eqn:Es; inv_ok. subst.
  eapply insert_in_place; [done|auto with wallet|]. intros V. by rewrite V in *.
Qed.
Lemma spent_wallet_in_place i k h w w' : markInputAsSpent i k h w = Ok w' -> in_place w' w.
Proof.
  intros E. unfold markInputAsSpent, throwIfViewWallet, at_subWallet in E. inv_ok. destruct (m_subWallets w !! k) as [s|] eqn:Es; inv_ok. subst.
  eapply insert_in_place; [done|auto with wallet|]. intros V. by rewrite V in *.
Qed.

(** Every other operation leaves the set of addresses as it was. *)
Lemma step_in_place fresh w w' : wallet_step false fresh w w' ->
  in_place w' w \/ (exists k s, w' = insert_subWallet k s w /\ m_subWallets w !! k = None /\ m_publicSpendKey s = k /\ m_isPrimaryAddress s = false
                    /\ m_unspentInputs s = [] /\ only_unspent s)
  \/ (exists k input, (fresh = true -> ~ held w (wi_keyImage input)) /\ storeTransactionInput k input w = Ok w').
Proof.
  assert (Same : forall w, in_place w w) by (intros; by apply same_wallets_in_place).
  intros St. destruct St as [now kp w e a sk w' F E|sk h w e a w' E|pk h w e a w' E|? ? ? ? [=]|tx w|tx w|k input w w' F E|input k w|i k h w w' E|i k w w' E|h w|c w w' E|h w|t h w|h w|sk h w].
  - unfold addSubWallet in E. destruct (m_isViewWallet w); [simplify_eq; left; apply Same|]. inv_ok. simplify_eq. right. left. eexists _, _. split_and!; done.
  - unfold importSubWallet in E. destruct (m_isViewWallet w); [simplify_eq; left; apply Same|]. inv_ok.
    destruct (m_subWallets w !! _) eqn:Es; simplify_eq; [left; apply Same|]. right. left. eexists _, _. split_and!; done.
  - unfold importViewSubWallet in E. destruct (m_isViewWallet w); cbn [negb] in E; [|simplify_eq; left; apply Same].
    destruct (m_subWallets w !! _) eqn:Es; [simplify_eq; left; apply Same|]. inv_ok. simplify_eq. right. left. eexists _, _. split_and!; done.
  - left. unfold addUnconfirmedTransaction. case_bool_decide; [apply Same|]. by apply same_wallets_in_place.
  - left. unfold addTransaction. case_bool_decide; by apply same_wallets_in_place.
  - right. right. eauto.
  - left. unfold storeUnconfirmedIncomingInput. destruct (m_subWallets w !! k) as [s|] eqn:Es; [|apply Same]. by eapply insert_in_place.
  - left. by eapply spent_wallet_in_place.
  - left. by eapply locked_wallet_in_place.
  - left. apply forked_in_place.
  - left. unfold removeCancelledTransactions, throwIfViewWallet in E. inv_ok. subst w'.
    apply on_all_in_place; [done|auto with wallet|]. intros s [Hl Hs]. split; simpl; by rewrite ?Hl, ?Hs.
  - left. apply on_all_in_place; [done|auto with wallet|]. by intros s [Hl Hs].
  - left. apply on_all_in_place; [done|auto with wallet|]. intros s Hs. unfold SubWallet_convertSyncTimestampToHeight. by case_match.
  - left. apply on_all_in_place; [done|auto with wallet|]. intros s [Hl Hs]. split; simpl; by rewrite ?Hl, ?Hs.
  - left. by apply same_wallets_in_place.
Qed.

Lemma step_cases d fresh w w' : wallet_step d fresh w w' -> wallet_step false fresh w w' \/ exists a e, deleteSubWallet a w = Ok (e, w').
Proof. destruct 1; try (left; econstructor; by eauto). right. eauto. Qed.
Lemma step_shape d fresh w w' : wallet_shape w -> wallet_step d fresh w w' -> wallet_shape w'.
Proof.
  intros C [St|(a & e & E)]%step_cases; [|by eapply delete_shape].
  destruct (step_in_place _ _ _ St) as [I|[(k & s & -> & Hk & Hs & Hp & Hu & Hl)|(k & input & Hn & E)]];
    [by apply (in_place_shape _ _ I)|by apply insert_shape|by eapply store_shape].
Qed.
Lemma step_unique d w w' : images_unique w -> wallet_step d true w w' -> images_unique w'.
Proof.
  intros C [St|(a & e & E)]%step_cases; [|by eapply delete_unique].
  destruct (step_in_place _ _ _ St) as [I|[(k & s & -> & Hk & Hs & Hp & Hu & Hl)|(k & input & Hn & E)]];
    [by apply (in_place_unique _ _ I)|by apply insert_unique, no_images|by eapply store_unique; [|apply Hn|]].
Qed.
Lemma step_known fresh w w' : owners_known w -> wallet_step false fresh w w' -> owners_known w'.
Proof.
  intros K St. destruct (step_in_place _ _ _ St) as [I|[(k & s & -> & _)|(k & input & _ & E)]];
    [by apply (in_place_known _ _ I)|by apply insert_known|by eapply store_known].
Qed.

Lemma single_consistent k s v b : m_publicSpendKey s = k -> m_isPrimaryAddress s = true -> m_unspentInputs s = [] -> only_unspent s ->
  wallet_consistent (insert_subWallet k s (empty_SubWallets v b)).
Proof.
  intros Hs Hp Hu Hl. pose proof (no_images s Hu Hl) as Hi.
  assert (L : forall j t, <[k := s]> (∅ : gmap PublicKey SubWallet) !! j = Some t -> j = k /\ t = s)
    by (intros j t Ej; apply lookup_insert_Some in Ej as [[<- <-]|[? Ej]]; [done|by rewrite lookup_empty in Ej]).
  constructor; constructor; simpl.
  - apply NoDup_singleton.
  - intros j. rewrite list_elem_of_singleton, lookup_insert_is_Some, lookup_empty, is_Some_alt. naive_solver.
  - by intros j t [-> ->]%L.
  - exists k, s. split_and!; [apply lookup_insert_eq|done|]. by intros j t [-> ->]%L.
  - intros _ j t [-> ->]%L. done.
  - intros _ j t [-> ->]%L. rewrite Hi. apply NoDup_nil_2.
  - intros _ j t i [-> ->]%L. rewrite Hi. set_solver.
Qed.
Lemma new_view_consistent now vk a h n w : new_view_SubWallets now vk a h n = Ok w -> wallet_consistent w.
Proof. intros E. unfold new_view_SubWallets in E. inv_ok. destruct v as [k vk']. apply Ok_inj in E as <-. by apply single_consistent. Qed.
Lemma reachable_shape d fresh w : wallet_reachable d fresh w -> wallet_shape w.
Proof.
  induction 1 as [now sk vk a h n|now vk a h n w E|w w' _ IH St]; [by apply single_consistent|by eapply wc_shape, new_view_consistent|by eapply step_shape].
Qed.
Lemma reachable_unique d w : wallet_reachable d true w -> images_unique w.
Proof.
  induction 1 as [now sk vk a h n|now vk a h n w E|w w' _ IH St]; [by apply single_consistent|by eapply wc_unique, new_view_consistent|by eapply step_unique].
Qed.
Lemma reachable_known fresh w : wallet_reachable false fresh w -> owners_known w.
Proof.
  induction 1 as [now sk vk a h n|now vk a h n w E|w w' _ IH St]; [|unfold new_view_SubWallets in E; inv_ok; destruct v as [k vk']; apply Ok_inj in E as <-|by eapply step_known];
    intros i j; simpl; by rewrite lookup_empty.
Qed.
End steps.

(** *** Spends, deletions, cancellations *)

Lemma spent_one_of_two i h s : (exists l1 l2, wi_keyImage <$> m_unspentInputs s = l1 ++ i :: i :: l2) ->
  i ∈ wi_keyImage <$> m_unspentInputs (SubWallet_markInputAsSpent i h s).
Proof.
  intros (l1 & l2 & El). unfold SubWallet_markInputAsSpent. destruct (find_erase _ (m_unspentInputs s)) as [[x rest]|] eqn:E.
  - apply find_erase_Some in E as (a & b & Ea & -> & Hx & _). simpl. rewrite Ea in El. assert (P : i :: (wi_keyImage <$> a ++ b) ≡ₚ i :: i :: l1 ++ l2).
    { rewrite <- Hx at 1. rewrite <- fmap_cons, (Permutation_middle a b x), El, <- !Permutation_middle. done. }
    apply Permutation_cons_inv in P. rewrite P. set_solver.
  - apply find_erase_None in E. assert (Hi : i ∈ wi_keyImage <$> m_unspentInputs s) by (rewrite El; set_solver).
    apply list_elem_of_fmap in Hi as (x & -> & Hx). rewrite Forall_forall in E. by apply E in Hx.
Qed.

Lemma spent_not_left i h s : NoDup (getKeyImages s) ->
  i ∉ wi_keyImage <$> m_unspentInputs (SubWallet_markInputAsSpent i h s) ++ m_lockedInputs (SubWallet_markInputAsSpent i h s).
Proof.
  intros Nd. unfold SubWallet_markInputAsSpent, getKeyImages in *. rewrite app_assoc, <- fmap_app in Nd. apply NoDup_app in Nd as (Nd & _ & _).
  destruct (find_erase _ (m_unspentInputs s)) as [[x rest]|] eqn:E.
  { apply find_erase_Some in E as (l1 & l2 & El & -> & Hx & _). simpl. rewrite El in Nd. rewrite <- !app_assoc in Nd |- *. rewrite fmap_app in Nd |- *. simpl in Nd.
    apply NoDup_app in Nd as (_ & D & Nd). rewrite Hx in *. apply NoDup_cons in Nd as [Hn _]. intros [Hi|Hi]%elem_of_app; [|done]. eapply D; [exact Hi|]. set_solver. }
  apply find_erase_None in E. destruct (find_erase _ (m_lockedInputs s)) as [[x rest]|] eqn:E2.
  - apply find_erase_Some in E2 as (l1 & l2 & El & -> & Hx & _). simpl. rewrite El in Nd. rewrite app_assoc, fmap_app in Nd. simpl in Nd. rewrite Hx in Nd.
    apply NoDup_app in Nd as (_ & D & Nd). apply NoDup_cons in Nd as [Hn _]. rewrite app_assoc, fmap_app. intros [Hi|Hi]%elem_of_app; [|done].
    eapply D; [exact Hi|]. set_solver.
  - apply find_erase_None in E2. rewrite fmap_app. intros [Hi|Hi]%elem_of_app; apply list_elem_of_fmap in Hi as (x & -> & Hx);
      [rewrite Forall_forall in E; by apply (E x)|rewrite Forall_forall in E2; by apply (E2 x)].
Qed.

Lemma unspent_locked_images s i : i ∈ wi_keyImage <$> m_unspentInputs s ++ m_lockedInputs s -> i ∈ getKeyImages s.
Proof. unfold getKeyImages. rewrite fmap_app. set_solver. Qed.

Lemma locked_then_cancelled s x c : NoDup (getKeyImages s) -> x ∈ m_unspentInputs s -> wi_parentTransactionHash x ∉ c ->
  let s2 := SubWallet_removeCancelledTransactions c (SubWallet_markInputAsLocked (wi_keyImage x) s) in
  x ∈ m_lockedInputs s2 /\ wi_keyImage x ∉ wi_keyImage <$> m_unspentInputs s2.
Proof.
  intros Nd Hx Hp. cbv zeta. unfold SubWallet_markInputAsLocked. destruct (find_erase _ (m_unspentInputs s)) as [[y rest]|] eqn:E.
  2:{ apply find_erase_None in E. rewrite Forall_forall in E. by apply E in Hx. }
  apply find_erase_Some in E as (l1 & l2 & El & -> & Hy & _). unfold getKeyImages in Nd. rewrite El, <- !fmap_app, <- app_assoc, <- app_comm_cons in Nd.
  rewrite fmap_app, fmap_cons in Nd. apply NoDup_app in Nd as (_ & D & [Hn _]%NoDup_cons). rewrite Hy in Hn, D.
  assert (Hi : forall z, z ∈ l1 ++ l2 ++ m_lockedInputs s ++ m_spentInputs s -> wi_keyImage z <> wi_keyImage x).
  { intros z [Hz|Hz]%elem_of_app Ez.
    - eapply D; [by apply list_elem_of_fmap_2|]. rewrite Ez. set_solver.
    - apply Hn. rewrite <- Ez. by apply list_elem_of_fmap_2. }
  assert (y = x) as -> by (rewrite El in Hx; apply elem_of_app in Hx as [Hx|[->|Hx]%elem_of_cons]; [|done|]; exfalso; apply (Hi x); set_solver).
  simpl. split; [apply list_elem_of_filter; set_solver|]. intros (z & Ez & Hz)%list_elem_of_fmap.
  apply elem_of_app in Hz as [Hz|(u & -> & [Hu Hz]%list_elem_of_filter)%list_elem_of_fmap]; [by apply (Hi z); [set_solver|]|]. simpl in Ez.
  apply elem_of_app in Hz as [Hz| ->%list_elem_of_singleton]; [by apply (Hi u); [set_solver|]|done].
Qed.

(** The balance of all addresses. *)
Definition unlocked_total (now height : Z) (s : SubWallet) : Z :=
  sumZ (wi_amount <$> filter (fun i => isInputUnlocked now (wi_unlockTime i) height = true) (m_unspentInputs s)).
Definition locked_total (now height : Z) (s : SubWallet) : Z :=
  sumZ (wi_amount <$> filter (fun i => ~ isInputUnlocked now (wi_unlockTime i) height = true) (m_unspentInputs s))
  + sumZ (ui_amount <$> m_unconfirmedIncomingAmounts s).

Lemma getBalance_loop now h w l : forall a b, is_u64 a -> is_u64 b -> (forall k, k ∈ l -> is_Some (m_subWallets w !! k)) ->
  foldM (fun '(unlockedBalance, lockedBalance) pubKey =>
      s ← at_subWallet w pubKey;
      let '(unlocked, locked) := SubWallet_getBalance now h s in
      Ok (u64 (unlockedBalance + unlocked), u64 (lockedBalance + locked))) (a, b) l =
  Ok (u64 (a + sumZ (unlocked_total now h <$> omap (fun k => m_subWallets w !! k) l)), u64 (b + sumZ (locked_total now h <$> omap (fun k => m_subWallets w !! k) l))).
Proof.
  induction l as [|k l IH]; intros a b Ha Hb F; [unfold sumZ; simpl; by rewrite !Z.add_0_r, !wrap_small|].
  destruct (F k) as [s Es]; [set_solver|]. assert (Ea : at_subWallet w k = Ok s) by (unfold at_subWallet; by rewrite Es).
  cbn [foldM omap list_omap]. rewrite Ea, Es. okbind. rewrite getBalance_ok. okbind.
  rewrite IH; [|apply (wrap_range 64); lia|apply (wrap_range 64); lia|set_solver]. rewrite !fmap_cons, !sumZ_cons, !wrap_add_r, !wrap_add_l.
  unfold unlocked_total at 2, locked_total at 2. do 2 f_equal; f_equal; lia.
Qed.

(** ** Properties *)

Section properties.
Context `{WalletCrypto}.

(** C20: A wallet keeps its form through any sequence of its operations (new addresses getting new keys): its list of
    spend keys is the set of its addresses, without repetition, each filed under its own key; exactly one address is
    the primary one; a view wallet holds unspent inputs only.  If moreover no input was stored while an address
    held its key image ([fresh], which no operation checks), no key image occurs twice in an address and each is known to
    belong to the address that holds it. *)
Theorem wallet_invariant deleting fresh w : wallet_reachable deleting fresh w ->
  wallet_shape w /\ (fresh = true -> images_unique w).
Proof. intros R. split; [by eapply reachable_shape|]. intros ->. by eapply reachable_unique. Qed.

(** The condition is needed: when an address receives two inputs with one key image (two outputs with the same one-time
    key, which a sender makes by using a transaction key twice), the spend of the one leaves the other as unspent,
    although the chain will not take its key image again. *)
Theorem image_twice_stays_unspent w k x y w1 w2 w3 h : m_isViewWallet w = false -> wi_keyImage y = wi_keyImage x ->
  storeTransactionInput k x w = Ok w1 -> storeTransactionInput k y w1 = Ok w2 -> markInputAsSpent (wi_keyImage x) k h w2 = Ok w3 ->
  exists s, m_subWallets w3 !! k = Some s /\ wi_keyImage x ∈ wi_keyImage <$> m_unspentInputs s.
Proof.
  intros V Ei (s & Es & EW & _ & EV & _)%store_fields (t & Et & EW2 & _ & EV2 & _)%store_fields E.
  rewrite EW, lookup_insert_eq in Et. injection Et as <-. unfold markInputAsSpent, throwIfViewWallet, at_subWallet in E.
  rewrite EV2, EV, V, EW2, lookup_insert_eq in E. apply Ok_inj in E as <-. eexists. split; [simpl; apply lookup_insert_eq|].
  apply spent_one_of_two. unfold SubWallet_storeTransactionInput. simpl. rewrite <- app_assoc. simpl. rewrite fmap_app. simpl. rewrite Ei.
  by exists (wi_keyImage <$> m_unspentInputs s), [].
Qed.

(** As long as no address was deleted and no key image stored twice, a key image the wallet knows can always be marked as spent,
    and then no address holds it as unspent or locked any more. *)
Theorem known_spend_recorded w i k h : wallet_reachable false true w -> m_isViewWallet w = false -> getKeyImageOwner i w = Some k ->
  exists w', markInputAsSpent i k h w = Ok w'
    /\ forall j s, m_subWallets w' !! j = Some s -> i ∉ wi_keyImage <$> m_unspentInputs s ++ m_lockedInputs s.
Proof.
  intros R V O. pose proof (reachable_unique _ _ R) as C. destruct (reachable_known _ _ R _ _ O) as [s Es].
  unfold markInputAsSpent, throwIfViewWallet, at_subWallet. rewrite V, Es. okbind. eexists. split; [done|]. intros j t Et. simpl in Et.
  apply lookup_insert_Some in Et as [[<- <-]|[Hj Et]]; [apply spent_not_left, (iu_images _ C V _ _ Es)|].
  intros Hi%unspent_locked_images. pose proof (iu_owners _ C V _ _ _ Et Hi) as O'. unfold getKeyImageOwner in O. congruence.
Qed.

(** Deleting an address forgets its inputs but not who owns their key images: from then on
    recording a spend of any of them throws. *)
Theorem deleted_address_spend_throws w a k vk s i h w' : wallet_reachable true true w -> m_isViewWallet w = false ->
  addressToKeys cn_fast_hash check_key a = Ok (k, vk) -> m_subWallets w !! k = Some s -> i ∈ getKeyImages s ->
  deleteSubWallet a w = Ok (SUCCESS, w') ->
  getKeyImageOwner i w' = Some k /\ markInputAsSpent i k h w' = Throw "unordered_map::at".
Proof.
  intros R V Ea Es Hi E. pose proof (reachable_unique _ _ R) as C. unfold deleteSubWallet in E. rewrite Ea in E. cbn [mbind outcome_bind] in E. rewrite Es in E.
  destruct (m_isPrimaryAddress s); [done|]. injection E as <-. split; [apply (iu_owners _ C V _ _ _ Es Hi)|].
  unfold markInputAsSpent, throwIfViewWallet, at_subWallet. simpl. rewrite V, lookup_delete_eq. done.
Qed.

(** When a sent transaction is cancelled, the inputs it had locked stay locked: an
    input is returned only if the transaction it was received in is among the cancelled ones. *)
Theorem cancelled_inputs_stay_locked w k s x cancelled w1 w2 : wallet_reachable true true w -> m_isViewWallet w = false ->
  m_subWallets w !! k = Some s -> x ∈ m_unspentInputs s -> wi_parentTransactionHash x ∉ cancelled ->
  markInputAsLocked (wi_keyImage x) k w = Ok w1 -> removeCancelledTransactions cancelled w1 = Ok w2 ->
  exists s2, m_subWallets w2 !! k = Some s2 /\ x ∈ m_lockedInputs s2 /\ wi_keyImage x ∉ wi_keyImage <$> m_unspentInputs s2.
Proof.
  intros R V Es Hx Hp E1 E2. pose proof (iu_images _ (reachable_unique _ _ R) V _ _ Es) as Nd.
  unfold markInputAsLocked, throwIfViewWallet, at_subWallet in E1. rewrite V, Es in E1. apply Ok_inj in E1. subst w1.
  unfold removeCancelledTransactions, throwIfViewWallet in E2. simpl in E2. rewrite V in E2. apply Ok_inj in E2. subst w2. simpl.
  rewrite lookup_fmap, lookup_insert_eq. eexists. split; [done|]. by apply locked_then_cancelled.
Qed.

(** The balance over all addresses adds up the unspent inputs of each address once, unlocked or not,
    and what is on its way back. *)
Theorem balance_adds_up deleting fresh now keys height w : wallet_reachable deleting fresh w ->
  getBalance now keys true height w =
  Ok (u64 (sumZ (unlocked_total now height <$> (map_to_list (m_subWallets w)).*2)), u64 (sumZ (locked_total now height <$> (map_to_list (m_subWallets w)).*2))).
Proof.
  intros R. pose proof (reachable_shape _ _ _ R) as C. unfold getBalance. rewrite getBalance_loop; [|by_compute..|intros k; apply (ws_keys _ C)].
  assert (P : omap (fun k => m_subWallets w !! k) (m_publicSpendKeys w) ≡ₚ (map_to_list (m_subWallets w)).*2).
  { assert (Pk : m_publicSpendKeys w ≡ₚ (map_to_list (m_subWallets w)).*1).
    { apply NoDup_Permutation; [apply C|apply NoDup_fst_map_to_list|]. intros k. rewrite (ws_keys _ C). split.
      - intros [s Es]. apply list_elem_of_fmap. exists (k, s). split; [done|]. by apply elem_of_map_to_list.
      - intros ([j s] & -> & Es%elem_of_map_to_list)%list_elem_of_fmap. eauto. }
    rewrite Pk. clear. apply reflexive_eq. assert (F : Forall (fun p => m_subWallets w !! p.1 = Some p.2) (map_to_list (m_subWallets w))).
    { apply Forall_forall. intros [k s] Hs. by apply elem_of_map_to_list. }
    induction F as [|[k s] l Hk F IH]; [done|]. simpl in *. rewrite Hk. by f_equal. }
  rewrite !Z.add_0_l. do 2 f_equal; apply (f_equal (wrap 64)), sumZ_perm; by rewrite P.
Qed.
End properties.

(** ** Witnesses *)

(** A wallet with a primary address and an imported one, which receives an input; keys are their own public
    keys, and an output key carries the key it was derived from. *)
Definition toy_crypto : WalletCrypto :=
  {| cn_fast_hash := pad_hash; check_key := any_key; secret_key_to_public_key := id; generate_key_derivation := fun p s => p;
     derive_public_key := fun d i k => k ++ [i] ++ d; derive_secret_key := fun d i k => k ++ [i] ++ d;
     underive_public_key := fun d i k => take (length k - S (length d)) k; generate_key_image := fun p s => 1 :: p |}.
Definition key_a : PublicKey := replicate 32 7.
Definition key_b : PublicKey := replicate 32 8.
Definition ok_or {A} (d : A) (o : outcome A) : A := match o with Ok a => a | _ => d end.
Definition wallet_0 : SubWallets := @new_SubWallets toy_crypto 0 key_a (replicate 32 9) [] 0 false.
Definition import_b := @importSubWallet toy_crypto key_b 0 wallet_0.
Definition address_b : bytes := (ok_or (SUCCESS, [], wallet_0) import_b).1.2.
Definition wallet_1 : SubWallets := (ok_or (SUCCESS, [], wallet_0) import_b).2.
Definition wallet_2 : SubWallets := ok_or wallet_1 (storeTransactionInput key_b (sample_input 1 5000) wallet_1).
Definition wallet_b : SubWallet := default (new_SubWallet [] [] [] 0 0 false) (m_subWallets wallet_2 !! key_b).

Lemma wallet_2_reachable d fresh : @wallet_reachable toy_crypto d fresh wallet_2.
Proof.
  eapply reach_step; [eapply reach_step; [apply (reach_new d fresh 0 key_a (replicate 32 9) [] 0 false)|]|].
  - apply (step_import d fresh key_b 0 wallet_0 SUCCESS address_b wallet_1). by vm_compute.
  - apply (step_store d fresh key_b (sample_input 1 5000) wallet_1 wallet_2); [|by vm_compute]. intros _ (k & s & E & Hi).
    assert (F : map_Forall (fun _ s => getKeyImages s = []) (m_subWallets wallet_1)) by by_compute.
    specialize (F k s E). simpl in F. rewrite F in Hi. by apply elem_of_nil in Hi.
Qed.
Lemma wallet_invariant_witness : wallet_shape wallet_2 /\ (true = true -> images_unique wallet_2).
Proof. exact (@wallet_invariant toy_crypto true true wallet_2 (wallet_2_reachable true true)). Defined.
Definition wallet_2t : SubWallets := ok_or wallet_1 (storeTransactionInput key_b (sample_input 1 7000) wallet_2).
Definition wallet_2s : SubWallets := ok_or wallet_1 (markInputAsSpent [1] key_b 9 wallet_2t).
Lemma store_first : storeTransactionInput key_b (sample_input 1 5000) wallet_1 = Ok wallet_2.
Proof. by vm_compute. Qed.
Lemma store_again : storeTransactionInput key_b (sample_input 1 7000) wallet_2 = Ok wallet_2t.
Proof. by vm_compute. Qed.
Lemma spend_once : markInputAsSpent [1] key_b 9 wallet_2t = Ok wallet_2s.
Proof. by vm_compute. Qed.
Lemma image_twice_stays_unspent_witness :
  exists s, m_subWallets wallet_2s !! key_b = Some s /\ [1] ∈ wi_keyImage <$> m_unspentInputs s.
Proof.
  exact (image_twice_stays_unspent wallet_1 key_b (sample_input 1 5000) (sample_input 1 7000) wallet_2 wallet_2t wallet_2s 9
    eq_refl eq_refl store_first store_again spend_once).
Defined.
Lemma known_spend_recorded_witness : exists w', markInputAsSpent [1] key_b 9 wallet_2 = Ok w'
  /\ forall j s, m_subWallets w' !! j = Some s -> [1] ∉ wi_keyImage <$> m_unspentInputs s ++ m_lockedInputs s.
Proof. exact (@known_spend_recorded toy_crypto wallet_2 [1] key_b 9 (wallet_2_reachable false true) eq_refl eq_refl). Defined.
Definition wallet_3 : SubWallets := (ok_or (SUCCESS, wallet_0) (@deleteSubWallet toy_crypto address_b wallet_2)).2.
Lemma address_b_keys : addressToKeys pad_hash any_key address_b = Ok (key_b, replicate 32 9).
Proof. by vm_compute. Qed.
Lemma delete_b : @deleteSubWallet toy_crypto address_b wallet_2 = Ok (SUCCESS, wallet_3).
Proof. by vm_compute. Qed.
Lemma wallet_b_found : m_subWallets wallet_2 !! key_b = Some wallet_b.
Proof. by vm_compute. Qed.
Lemma wallet_b_image : [1] ∈ getKeyImages wallet_b.
Proof. by_compute. Qed.
Lemma deleted_address_spend_throws_witness :
  getKeyImageOwner [1] wallet_3 = Some key_b /\ markInputAsSpent [1] key_b 9 wallet_3 = Throw "unordered_map::at".
Proof.
  exact (@deleted_address_spend_throws toy_crypto wallet_2 address_b key_b (replicate 32 9) wallet_b [1] 9 wallet_3
    (wallet_2_reachable true true) eq_refl address_b_keys wallet_b_found wallet_b_image delete_b).
Defined.
Definition wallet_4 : SubWallets := ok_or wallet_0 (markInputAsLocked [1] key_b wallet_2).
Definition wallet_5 : SubWallets := ok_or wallet_0 (removeCancelledTransactions {[ [42] ]} wallet_4).
Lemma input_unspent : sample_input 1 5000 ∈ m_unspentInputs wallet_b.
Proof. by_compute. Qed.
Lemma input_not_cancelled : wi_parentTransactionHash (sample_input 1 5000) ∉ ({[ [42] ]} : gset Hash).
Proof. by_compute. Qed.
Lemma lock_4 : markInputAsLocked [1] key_b wallet_2 = Ok wallet_4.
Proof. by vm_compute. Qed.
Lemma cancel_5 : removeCancelledTransactions {[ [42] ]} wallet_4 = Ok wallet_5.
Proof. by vm_compute. Qed.
Lemma cancelled_inputs_stay_locked_witness : exists s2, m_subWallets wallet_5 !! key_b = Some s2
  /\ sample_input 1 5000 ∈ m_lockedInputs s2 /\ [1] ∉ wi_keyImage <$> m_unspentInputs s2.
Proof.
  exact (@cancelled_inputs_stay_locked toy_crypto wallet_2 key_b wallet_b (sample_input 1 5000) {[ [42] ]} wallet_4 wallet_5
    (wallet_2_reachable true true) eq_refl wallet_b_found input_unspent input_not_cancelled lock_4 cancel_5).
Defined.
Lemma balance_adds_up_witness : getBalance 0 [] true 100 wallet_2 =
  Ok (u64 (sumZ (unlocked_total 0 100 <$> (map_to_list (m_subWallets wallet_2)).*2)), u64 (sumZ (locked_total 0 100 <$> (map_to_list (m_subWallets wallet_2)).*2))).
Proof. exact (@balance_adds_up toy_crypto true true 0 [] 100 wallet_2 (wallet_2_reachable true true)). Defined.
