(* ===== verification/WalletSync.v ===== *)
(** * WalletSync: [walletbackend/WalletSynchronizer.cpp], [BlockDownloader.cpp], [SynchronizationStatus.cpp]

    The wallet follows the chain of a daemon: blocks are downloaded into a queue, scanned for
    outputs of the wallet's addresses by worker threads, and completed in the order they arrived: a block
    at or below the wallet's height is a fork.  The answers of the daemon ([Nigel]) are arguments; events,
    logging, sleeping and the start and stop of the threads are not modelled. *)

From Stdlib Require Import ZArith Lia.
From stdpp Require Import base tactics list numbers strings gmap fin_sets.
From S2P Require Import Prelude Config Types WalletUtil SubWallet SubWallets.

Local Open Scope Z_scope.

(** ** Blocks as the daemon sends them ([include/WalletTypes.h]) *)

Record WalletKeyOutput := { wo_key : PublicKey; wo_amount : Z; wo_globalOutputIndex : option Z }.

Record RawCoinbaseTransaction := {
  rc_keyOutputs : list WalletKeyOutput;
  rc_hash : Hash;
  rc_transactionPublicKey : PublicKey;
  rc_unlockTime : Z }.

Record RawTransaction := { rt_base : RawCoinbaseTransaction; rt_paymentID : bytes; rt_keyInputs : list KeyInput }.

Record WalletBlockInfo := {
  wb_coinbaseTransaction : option RawCoinbaseTransaction;
  wb_transactions : list RawTransaction;
  wb_blockHeight : Z;
  wb_blockHash : Hash;
  wb_blockTimestamp : Z }.

Abbreviation BlockInputsAndOwners := (list (PublicKey * WalletInput))%type.

Record BlockScanTmpInfo := {
  transactionsToAdd : list WalletTransaction;
  inputsToAdd : BlockInputsAndOwners;
  keyImagesToMarkSpent : list (PublicKey * KeyImage) }.

(** ** [Constants.h] *)

Definition LAST_KNOWN_BLOCK_HASHES_SIZE : nat := 50.
Definition BLOCK_HASH_CHECKPOINTS_INTERVAL : Z := 5000.
Definition PRUNE_SPENT_INPUTS_INTERVAL : Z := EXPECTED_NUMBER_OF_BLOCKS_PER_DAY * 2.
Definition GLOBAL_INDEXES_OBSCURITY : Z := 10.
Definition BLOCK_PROCESSING_CHUNK : nat := 500.

(** ** [SynchronizationStatus] *)

Record SynchronizationStatus := {
  m_blockHashCheckpoints : list Hash;
  m_lastKnownBlockHashes : list Hash;
  m_lastKnownBlockHeight : Z;
  m_lastSavedCheckpointAt : Z }.
Definition new_SynchronizationStatus : SynchronizationStatus :=
  {| m_blockHashCheckpoints := []; m_lastKnownBlockHashes := []; m_lastKnownBlockHeight := 0; m_lastSavedCheckpointAt := 0 |}.

Definition storeBlockHash (hash : Hash) (height : Z) (s : SynchronizationStatus) : SynchronizationStatus :=
  if bool_decide (last (m_lastKnownBlockHashes s) = Some hash) then
    {| m_blockHashCheckpoints := m_blockHashCheckpoints s; m_lastKnownBlockHashes := m_lastKnownBlockHashes s;
       m_lastKnownBlockHeight := height; m_lastSavedCheckpointAt := m_lastSavedCheckpointAt s |}
  else
    let checkpoint := u64 (m_lastSavedCheckpointAt s + BLOCK_HASH_CHECKPOINTS_INTERVAL) <? height in
    let hashes := hash :: m_lastKnownBlockHashes s in
    {| m_blockHashCheckpoints := if checkpoint then hash :: m_blockHashCheckpoints s else m_blockHashCheckpoints s;
       m_lastKnownBlockHashes := if (LAST_KNOWN_BLOCK_HASHES_SIZE <? length hashes)%nat then take (length hashes - 1) hashes else hashes;
       m_lastKnownBlockHeight := height;
       m_lastSavedCheckpointAt := if checkpoint then height else m_lastSavedCheckpointAt s |}.

(** ** [BlockDownloader] *)

Record BlockDownloader := {
  m_storedBlocks : list (WalletBlockInfo * Z);
  m_startTimestamp : Z;
  m_startHeight : Z;
  m_synchronizationStatus : SynchronizationStatus;
  m_arrivalIndex : Z }.

Definition new_BlockDownloader (startHeight startTimestamp : Z) : BlockDownloader :=
  {| m_storedBlocks := []; m_startTimestamp := startTimestamp; m_startHeight := startHeight;
     m_synchronizationStatus := new_SynchronizationStatus; m_arrivalIndex := 0 |}.
Definition set_status (s : SynchronizationStatus) (d : BlockDownloader) : BlockDownloader :=
  {| m_storedBlocks := m_storedBlocks d; m_startTimestamp := m_startTimestamp d; m_startHeight := m_startHeight d;
     m_synchronizationStatus := s; m_arrivalIndex := m_arrivalIndex d |}.
Definition set_stored (l : list (WalletBlockInfo * Z)) (i : Z) (d : BlockDownloader) : BlockDownloader :=
  {| m_storedBlocks := l; m_startTimestamp := m_startTimestamp d; m_startHeight := m_startHeight d;
     m_synchronizationStatus := m_synchronizationStatus d; m_arrivalIndex := i |}.
Definition set_start (timestamp height : Z) (d : BlockDownloader) : BlockDownloader :=
  {| m_storedBlocks := m_storedBlocks d; m_startTimestamp := timestamp; m_startHeight := height;
     m_synchronizationStatus := m_synchronizationStatus d; m_arrivalIndex := m_arrivalIndex d |}.

Definition getHeight (d : BlockDownloader) : Z := m_lastKnownBlockHeight (m_synchronizationStatus d).

Definition dropBlock (blockHeight : Z) (blockHash : Hash) (d : BlockDownloader) : outcome BlockDownloader :=
  match m_storedBlocks d with
  | [] => Throw "Cannot remove from an empty queue!"
  | _ :: rest => Ok (set_status (storeBlockHash blockHash blockHeight (m_synchronizationStatus d)) (set_stored rest (m_arrivalIndex d) d))
  end.

Definition fetchBlocks (blockCount : nat) (d : BlockDownloader) : list (WalletBlockInfo * Z) := take blockCount (m_storedBlocks d).

(** The newest first. *)
Definition getStoredBlockCheckpoints (d : BlockDownloader) : list Hash :=
  wb_blockHash ∘ fst <$> take LAST_KNOWN_BLOCK_HASHES_SIZE (reverse (m_storedBlocks d)).

Definition getBlockCheckpoints (d : BlockDownloader) : list Hash :=
  let result := getStoredBlockCheckpoints d in
  let recent := m_lastKnownBlockHashes (m_synchronizationStatus d) in
  let result := if (length result <? LAST_KNOWN_BLOCK_HASHES_SIZE)%nat
                then result ++ take (Nat.min (length recent) (LAST_KNOWN_BLOCK_HASHES_SIZE - length result)) recent else result in
  result ++ m_blockHashCheckpoints (m_synchronizationStatus d).

(** [(success, blocks, topBlock)] of [getWalletSyncData], asked with the checkpoints, the start height and the start timestamp. *)
Abbreviation SyncData := (bool * list WalletBlockInfo * option (Hash * Z))%type.

Fixpoint with_index (i : Z) (blocks : list WalletBlockInfo) : list (WalletBlockInfo * Z) :=
  match blocks with [] => [] | b :: rest => (b, i) :: with_index (u32 (i + 1)) rest end.

Definition downloadBlocks (localDaemonBlockCount : Z) (getWalletSyncData : list Hash -> Z -> Z -> SyncData) (d : BlockDownloader) (w : SubWallets)
    : bool * BlockDownloader * SubWallets :=
  if localDaemonBlockCount <? getHeight d then (false, d, w)
  else
    let '(success, blocks, topBlock) := getWalletSyncData (getBlockCheckpoints d) (m_startHeight d) (m_startTimestamp d) in
    match success, blocks, topBlock, m_storedBlocks d with
    | true, [], Some (hash, height), [] => (false, set_status (storeBlockHash hash height (m_synchronizationStatus d)) d, w)
    | false, _, _, _ | _, [], _, _ => (false, d, w)
    | true, first :: _, _, _ =>
        let '(d, w) :=
          if negb (m_startTimestamp d =? 0)
          then (set_start 0 (wb_blockHeight first) d, convertSyncTimestampToHeight 0 (wb_blockHeight first) w)
          else (d, w) in
        (true, set_stored (m_storedBlocks d ++ with_index (m_arrivalIndex d) blocks) (u32 (m_arrivalIndex d + Z.of_nat (length blocks))) d, w)
    end.

(** ** Scanning: [processTransactionOutputs], [processBlockOutputs] *)

Section scan.
Context `{WalletCrypto}.

Fixpoint outputs_loop (w : SubWallets) (rawTX : RawCoinbaseTransaction) (blockHeight : Z) (derivation : bytes) (outputIndex : Z)
    (outputs : list WalletKeyOutput) : outcome BlockInputsAndOwners :=
  match outputs with
  | [] => Ok []
  | output :: rest =>
      let derivedSpendKey := underive_public_key derivation outputIndex (wo_key output) in
      if bool_decide (derivedSpendKey ∈ m_publicSpendKeys w) then
        keyImage ← getTxInputKeyImage derivedSpendKey derivation outputIndex w;
        let input := {| wi_keyImage := keyImage; wi_amount := wo_amount output; wi_blockHeight := blockHeight;
                        wi_transactionPublicKey := rc_transactionPublicKey rawTX; wi_transactionIndex := outputIndex;
                        wi_globalOutputIndex := wo_globalOutputIndex output; wi_key := wo_key output; wi_spendHeight := 0;
                        wi_unlockTime := rc_unlockTime rawTX; wi_parentTransactionHash := rc_hash rawTX |} in
        inputs ← outputs_loop w rawTX blockHeight derivation (u64 (outputIndex + 1)) rest;
        Ok ((derivedSpendKey, input) :: inputs)
      else outputs_loop w rawTX blockHeight derivation (u64 (outputIndex + 1)) rest
  end.
Definition processTransactionOutputs (privateViewKey : SecretKey) (w : SubWallets) (rawTX : RawCoinbaseTransaction) (blockHeight : Z)
    : outcome BlockInputsAndOwners :=
  outputs_loop w rawTX blockHeight (generate_key_derivation (rc_transactionPublicKey rawTX) privateViewKey) 0 (rc_keyOutputs rawTX).

Fixpoint transactions_outputs (privateViewKey : SecretKey) (w : SubWallets) (blockHeight : Z) (txs : list RawCoinbaseTransaction)
    : outcome BlockInputsAndOwners :=
  match txs with
  | [] => Ok []
  | tx :: rest =>
      newInputs ← processTransactionOutputs privateViewKey w tx blockHeight;
      inputs ← transactions_outputs privateViewKey w blockHeight rest;
      Ok (newInputs ++ inputs)
  end.
Definition scanned_transactions (skipCoinbaseTransactions : bool) (block : WalletBlockInfo) : list RawCoinbaseTransaction :=
  (if negb skipCoinbaseTransactions then option_list (wb_coinbaseTransaction block) else []) ++ (rt_base <$> wb_transactions block).
Definition processBlockOutputs (skipCoinbaseTransactions : bool) (privateViewKey : SecretKey) (w : SubWallets) (block : WalletBlockInfo)
    : outcome BlockInputsAndOwners :=
  transactions_outputs privateViewKey w (wb_blockHeight block) (scanned_transactions skipCoinbaseTransactions block).
End scan.

(** *** Global indexes *)

(** The range of ten blocks the block is in; [None] is a failure of the daemon. *)
Definition getGlobalIndexes (getGlobalIndexesForRange : Z -> Z -> option (gmap Hash (list Z))) (blockHeight : Z) : outcome (gmap Hash (list Z)) :=
  startHeight ← getLowerBound blockHeight GLOBAL_INDEXES_OBSCURITY;
  endHeight ← getUpperBound blockHeight GLOBAL_INDEXES_OBSCURITY;
  Ok (default ∅ (getGlobalIndexesForRange startHeight endHeight)).

(** The indexes of a block's inputs ([blockProcessingThread]).

    [answers] are the maps [getGlobalIndexes] returns, one after the other; the loop asks again until one
    has the index.  [None]: the answers ran out, the thread is still asking. *)
Fixpoint find_index (answers : list (gmap Hash (list Z))) (globalIndexes : gmap Hash (list Z)) (input : WalletInput)
    : option (Z * gmap Hash (list Z) * list (gmap Hash (list Z))) :=
  match globalIndexes !! wi_parentTransactionHash input ≫= (fun l => l !! Z.to_nat (wi_transactionIndex input)) with
  | Some g => Some (g, globalIndexes, answers)
  | None => match answers with [] => None | m :: rest => find_index rest m input end
  end.
Fixpoint fill_indexes (isViewWallet : bool) (answers : list (gmap Hash (list Z))) (globalIndexes : gmap Hash (list Z)) (ourInputs : BlockInputsAndOwners)
    : option BlockInputsAndOwners :=
  match ourInputs with
  | [] => Some []
  | (k, input) :: rest =>
      match isViewWallet, wi_globalOutputIndex input with
      | false, None =>
          match (if bool_decide (globalIndexes = ∅) then match answers with m :: answers => Some (m, answers) | [] => None end
                 else Some (globalIndexes, answers)) with
          | None => None
          | Some (globalIndexes, answers) =>
              match find_index answers globalIndexes input with
              | None => None
              | Some (g, globalIndexes, answers) =>
                  l ← fill_indexes isViewWallet answers globalIndexes rest; Some ((k, set_globalOutputIndex g input) :: l)
              end
          end
      | _, _ => l ← fill_indexes isViewWallet answers globalIndexes rest; Some ((k, input) :: l)
      end
  end.

(** ** Completing a block *)

(** [transfers[key] += amount] at [int64_t]. *)
Definition add_transfer (k : PublicKey) (amount : Z) (transfers : gmap PublicKey Z) : gmap PublicKey Z :=
  <[k := i64 (default 0 (transfers !! k) + amount)]> transfers.

(** Received in the transaction. *)
Definition received_transfers (hash : Hash) (inputs : BlockInputsAndOwners) : gmap PublicKey Z :=
  foldl (fun transfers '(k, input) => add_transfer k (wi_amount input) transfers) ∅
    (filter (fun x => wi_parentTransactionHash x.2 = hash) inputs).

Definition processCoinbaseTransaction (block : WalletBlockInfo) (inputs : BlockInputsAndOwners) : outcome (option WalletTransaction) :=
  tx ← from_option "dereference of an empty optional" (wb_coinbaseTransaction block);
  let transfers := received_transfers (rc_hash tx) inputs in
  Ok (if bool_decide (transfers = ∅) then None
      else Some {| wt_transfers := transfers; wt_hash := rc_hash tx; wt_fee := 0; wt_timestamp := wb_blockTimestamp block;
                   wt_blockHeight := wb_blockHeight block; wt_paymentID := []; wt_unlockTime := rc_unlockTime tx; wt_isCoinbaseTransaction := true |}).

Definition spent_loop (w : SubWallets) (transfers : gmap PublicKey Z) (keyInputs : list KeyInput) : gmap PublicKey Z * list (PublicKey * KeyImage) :=
  foldl (fun '(transfers, spentKeyImages) input =>
      match getKeyImageOwner (keyImage input) w with
      | Some k => (add_transfer k (- ki_amount input) transfers, spentKeyImages ++ [(k, keyImage input)])
      | None => (transfers, spentKeyImages)
      end) (transfers, []) keyInputs.

Definition transaction_fee (tx : RawTransaction) : Z :=
  let fee := foldl (fun fee input => u64 (fee + ki_amount input)) 0 (rt_keyInputs tx) in
  foldl (fun fee output => u64 (fee - wo_amount output)) fee (rc_keyOutputs (rt_base tx)).

Definition processTransaction (w : SubWallets) (block : WalletBlockInfo) (inputs : BlockInputsAndOwners) (tx : RawTransaction)
    : option WalletTransaction * list (PublicKey * KeyImage) :=
  let '(transfers, spentKeyImages) := spent_loop w (received_transfers (rc_hash (rt_base tx)) inputs) (rt_keyInputs tx) in
  if bool_decide (transfers = ∅) then (None, [])
  else
    (Some {| wt_transfers := transfers; wt_hash := rc_hash (rt_base tx); wt_fee := transaction_fee tx; wt_timestamp := wb_blockTimestamp block;
             wt_blockHeight := wb_blockHeight block; wt_paymentID := rt_paymentID tx; wt_unlockTime := rc_unlockTime (rt_base tx);
             wt_isCoinbaseTransaction := false |}, spentKeyImages).

Definition processBlockTransactions (skipCoinbaseTransactions : bool) (w : SubWallets) (block : WalletBlockInfo) (inputs : BlockInputsAndOwners)
    : outcome BlockScanTmpInfo :=
  coinbase ← (if negb skipCoinbaseTransactions then processCoinbaseTransaction block inputs else Ok None);
  let results := processTransaction w block inputs <$> wb_transactions block in
  Ok {| transactionsToAdd := option_list coinbase ++ omap fst results; inputsToAdd := inputs;
        keyImagesToMarkSpent := mjoin ((fun r => match r.1 with Some _ => r.2 | None => [] end) <$> results) |}.

Definition completeBlockProcessing (skipCoinbaseTransactions : bool) (block : WalletBlockInfo) (ourInputs : BlockInputsAndOwners)
    (st : BlockDownloader * SubWallets) : outcome (BlockDownloader * SubWallets) :=
  let '(d, w) := st in
  let h := wb_blockHeight block in
  let w := if (h <=? getHeight d) && negb (h =? 0) then removeForkedTransactions h w else w in
  let w := if (h mod PRUNE_SPENT_INPUTS_INTERVAL =? 0) && (PRUNE_SPENT_INPUTS_INTERVAL <? h)
           then pruneSpentInputs (h - PRUNE_SPENT_INPUTS_INTERVAL) w else w in
  blockScanInfo ← processBlockTransactions skipCoinbaseTransactions w block ourInputs;
  let w := foldl (fun w tx => addTransaction tx w) w (transactionsToAdd blockScanInfo) in
  w ← foldM (fun w '(k, input) => storeTransactionInput k input w) w (inputsToAdd blockScanInfo);
  w ← foldM (fun w '(k, keyImage) => markInputAsSpent keyImage k h w) w (keyImagesToMarkSpent blockScanInfo);
  d ← dropBlock h (wb_blockHash block) d;
  Ok (d, w).

(** *** A chunk of blocks ([mainLoop])

    The processed blocks come out of a priority queue: the one that arrived first next. *)
Abbreviation SemiProcessedBlock := (WalletBlockInfo * BlockInputsAndOwners * Z)%type.

Fixpoint insert_by_arrival (x : SemiProcessedBlock) (queue : list SemiProcessedBlock) : list SemiProcessedBlock :=
  match queue with
  | [] => [x]
  | y :: rest => if x.2 <=? y.2 then x :: queue else y :: insert_by_arrival x rest
  end.
Definition processed_queue (results : list SemiProcessedBlock) : list SemiProcessedBlock := foldr insert_by_arrival [] results.

Definition complete_chunk (skipCoinbaseTransactions : bool) (results : list SemiProcessedBlock) (st : BlockDownloader * SubWallets)
    : outcome (BlockDownloader * SubWallets) :=
  foldM (fun st x => completeBlockProcessing skipCoinbaseTransactions x.1.1 x.1.2 st) st (processed_queue results).

(** *** Sent transactions that have not been seen ([checkLockedTransactions])

    [getTransactionsStatus] is [None] on failure, or the transactions in the pool, in a block, and cancelled. *)
Definition checkLockedTransactions (getTransactionsStatus : gset Hash -> option (gset Hash * gset Hash * gset Hash)) (w : SubWallets) : outcome SubWallets :=
  lockedTxHashes ← getLockedTransactionsHashes w;
  if bool_decide (lockedTxHashes = ∅) then Ok w
  else
    match getTransactionsStatus lockedTxHashes with
    | None => Ok w
    | Some (_, _, cancelledTransactions) =>
        if bool_decide (cancelledTransactions = ∅) then Ok w else removeCancelledTransactions cancelledTransactions w
    end.
