(* ===== verification/WalletChain.v ===== *)
(** * WalletChain: the wallet denotes the chain it followed

    The abstract state of a wallet is the chain of blocks it has scanned, each with the inputs it
    found in it; [denotes] says which inputs every address then holds.  Completing a block refines
    cutting the chain at a fork and appending the block. *)

From Stdlib Require Import ZArith Lia.
From stdpp Require Import base tactics list numbers strings gmap fin_sets sorting.
From S2P Require Import Prelude Config Types WalletUtil SubWallet SubWallets WalletInvariant WalletSync.

Local Open Scope Z_scope.

(** ** The abstract state *)

Abbreviation scanned := (WalletBlockInfo * BlockInputsAndOwners)%type.
Definition height_of (x : scanned) : Z := wb_blockHeight x.1.

(** The key images a block spends, in order. *)
Definition block_images (b : WalletBlockInfo) : list KeyImage := mjoin ((fun tx => keyImage <$> rt_keyInputs tx) <$> wb_transactions b).

(** What the chain gives to an address. *)
Definition received_in (k : PublicKey) (ours : BlockInputsAndOwners) : list WalletInput := snd <$> filter (fun x => x.1 = k) ours.
Definition received (k : PublicKey) (c : list scanned) : list WalletInput := received_in k (mjoin (snd <$> c)).

(** The height of the block that spends a key image. *)
Fixpoint spent_at (c : list scanned) (i : KeyImage) : option Z :=
  match c with
  | [] => None
  | x :: rest => if decide (i ∈ block_images x.1) then Some (height_of x) else spent_at rest i
  end.

(** The input as an address holds it: unspent (or locked), spent since height [pruned], or nowhere. *)
Definition live (c : list scanned) (x : WalletInput) : list WalletInput :=
  match spent_at c (wi_keyImage x) with None => [x] | Some _ => [] end.
Definition gone (pruned : Z) (c : list scanned) (x : WalletInput) : list WalletInput :=
  match spent_at c (wi_keyImage x) with Some h => if decide (pruned < h) then [set_spendHeight h x] else [] | None => [] end.

Record denotes (pruned : Z) (c : list scanned) (w : SubWallets) : Prop := {
  dn_view : m_isViewWallet w = false;
  dn_live : forall k s, m_subWallets w !! k = Some s -> m_unspentInputs s ++ m_lockedInputs s ≡ₚ received k c ≫= live c;
  dn_gone : forall k s, m_subWallets w !! k = Some s -> m_spentInputs s ≡ₚ received k c ≫= gone pruned c;
  dn_owners : forall i k, m_keyImageOwners w !! i = Some k <-> exists x, x ∈ received k c /\ wi_keyImage x = i;
  dn_known : forall k x, x ∈ received k c -> is_Some (m_subWallets w !! k) }.

(** What the results below ask of the blocks a wallet scans.  Heights increase and an input carries the height of its block, as
    scanning makes it.  A key image is received once, and not spent before or in the block it is received in: this is a condition on
    those who pay the wallet.  Neither the validator of transactions nor the wallet rejects an output with a one-time key that is
    there already, which a sender makes by using a transaction key twice ([repeated_payment_stays]). *)
Record chain_wf (c : list scanned) : Prop := {
  cw_heights : StronglySorted (fun x y => height_of x < height_of y) c;
  cw_inputs : Forall (fun x => Forall (fun y => wi_blockHeight y.2 = height_of x /\ wi_spendHeight y.2 = 0) x.2) c;
  cw_received : NoDup (wi_keyImage ∘ snd <$> mjoin (snd <$> c));
  cw_order : forall c1 x c2, c = c1 ++ x :: c2 -> Forall (fun y => spent_at (c1 ++ [x]) (wi_keyImage y.2) = None) x.2 }.

(** ** Lists *)

Section bind_laws.
Context {A B : Type}.

Lemma bind_perm_ext (f g : A -> list B) l : (forall x, x ∈ l -> f x ≡ₚ g x) -> l ≫= f ≡ₚ l ≫= g.
Proof. induction l as [|x l IH]; intros E; [done|]. rewrite !bind_cons. rewrite (E x) by set_solver. rewrite IH; [done|set_solver]. Qed.
Lemma bind_app_perm (f g : A -> list B) l : (l ≫= f) ++ (l ≫= g) ≡ₚ l ≫= (fun x => f x ++ g x).
Proof. induction l as [|x l IH]; [done|]. rewrite !bind_cons. rewrite <- IH. solve_Permutation. Qed.
Lemma filter_bind (P : B -> Prop) `{!forall x, Decision (P x)} (f : A -> list B) l : filter P (l ≫= f) = l ≫= (fun x => filter P (f x)).
Proof. induction l as [|x l IH]; [done|]. rewrite !bind_cons, filter_app. by f_equal. Qed.
Lemma fmap_bind_list {C} (g : B -> C) (f : A -> list B) l : g <$> (l ≫= f) = l ≫= (fun x => g <$> f x).
Proof. induction l as [|x l IH]; [done|]. rewrite !bind_cons, fmap_app. by f_equal. Qed.
End bind_laws.
Lemma filter_as_bind {A} (P : A -> Prop) `{!forall x, Decision (P x)} (l : list A) : filter P l = l ≫= (fun x => if decide (P x) then [x] else []).
Proof. induction l as [|x l IH]; [done|]. rewrite bind_cons, filter_cons, <- IH. by case_decide. Qed.
Lemma bind_nothing {A B} (l : list A) : l ≫= (fun _ => []) = ([] : list B).
Proof. by induction l. Qed.
Lemma mjoin_cons {A} (x : list A) l : mjoin (x :: l) = x ++ mjoin l.
Proof. done. Qed.
Lemma filter_one {A} (P : A -> Prop) `{!forall x, Decision (P x)} y : filter P [y] = if decide (P y) then [y] else [].
Proof. rewrite filter_cons. by case_decide. Qed.
Lemma bind_filter {A B} (P : A -> Prop) `{!forall x, Decision (P x)} (f : A -> list B) (l : list A) :
  filter P l ≫= f = l ≫= (fun x => if decide (P x) then f x else []).
Proof. induction l as [|x l IH]; [done|]. rewrite bind_cons, filter_cons. case_decide; [by rewrite bind_cons, IH|done]. Qed.
Lemma bind_ret {A} (l : list A) : l ≫= (fun x => [x]) = l.
Proof. induction l as [|x l IH]; [done|]. rewrite bind_cons, IH. done. Qed.

(** ** Chains *)

Lemma received_app k c1 c2 : received k (c1 ++ c2) = received k c1 ++ received k c2.
Proof. unfold received, received_in. by rewrite fmap_app, join_app, filter_app, fmap_app. Qed.
Lemma spent_at_app c1 c2 i : spent_at (c1 ++ c2) i = match spent_at c1 i with Some h => Some h | None => spent_at c2 i end.
Proof. induction c1 as [|x c1 IH]; [done|]. simpl. by case_decide. Qed.
Lemma elem_of_received k c x : x ∈ received k c <-> exists y, y ∈ c /\ (k, x) ∈ y.2.
Proof.
  unfold received, received_in. rewrite list_elem_of_fmap. split.
  - intros ([k' x'] & -> & [Hk Hx]%list_elem_of_filter). simpl in Hk. subst k'. apply list_elem_of_join in Hx as (l & Hx & Hl).
    apply list_elem_of_fmap in Hl as (y & -> & Hy). eauto.
  - intros (y & Hy & Hx). exists (k, x). split; [done|]. apply list_elem_of_filter. split; [done|]. apply list_elem_of_join. exists y.2. split; [done|].
    by apply list_elem_of_fmap_2.
Qed.

(** A chain with one more block. *)
Lemma chain_wf_nil : chain_wf [].
Proof. constructor; [constructor|constructor|apply NoDup_nil_2|by intros []]. Qed.
Lemma chain_wf_snoc c x : chain_wf c -> Forall (fun y => height_of y < height_of x) c ->
  Forall (fun y => wi_blockHeight y.2 = height_of x /\ wi_spendHeight y.2 = 0) x.2 -> NoDup (wi_keyImage ∘ snd <$> mjoin (snd <$> c ++ [x])) ->
  Forall (fun y => spent_at (c ++ [x]) (wi_keyImage y.2) = None) x.2 -> chain_wf (c ++ [x]).
Proof.
  intros [S I _ O] H I' N O'. constructor; [|by apply Forall_app; split; [|constructor]|done|].
  - apply StronglySorted_app_2; [|done|repeat constructor]. intros y z Hy ->%list_elem_of_singleton. rewrite Forall_forall in H. by apply H.
  - intros c1 z c2 E. destruct c2 as [|u c2 _] using rev_ind; [apply app_inj_tail in E as [-> ->]; done|].
    rewrite app_comm_cons, app_assoc in E. apply app_inj_tail in E as [-> _]. by apply (O c1 z c2).
Qed.

(** The blocks below a height. *)
Definition cut (h : Z) (c : list scanned) : list scanned := filter (fun x => height_of x < h) c.

Lemma received_block c k x : chain_wf c -> x ∈ received k c -> wi_spendHeight x = 0.
Proof.
  intros W (y & Hy & Hx)%elem_of_received. pose proof (cw_inputs _ W) as F. rewrite Forall_forall in F. specialize (F y Hy). rewrite Forall_forall in F.
  by apply (F _ Hx).
Qed.

Lemma received_cut h c k : Forall (fun x => Forall (fun y => wi_blockHeight y.2 = height_of x /\ wi_spendHeight y.2 = 0) x.2) c ->
  received k (cut h c) = filter (fun x => ~ isForked h x) (received k c).
Proof.
  induction 1 as [|x c Hx F IH]; [done|]. rewrite (received_app k [x] c : received k (x :: c) = _), filter_app, <- IH.
  assert (E : filter (fun x => ~ isForked h x) (received k [x]) = if decide (height_of x < h) then received k [x] else []).
  { assert (G : Forall (fun z => wi_blockHeight z = height_of x) (received k [x])).
    { apply Forall_forall. intros z (y & Hy & Hz)%elem_of_received. apply list_elem_of_singleton in Hy as ->. rewrite Forall_forall in Hx. by apply (Hx _ Hz). }
    unfold isForked. case_decide; [apply filter_all|apply filter_none]; (eapply Forall_impl; [exact G|]); simpl; lia. }
  rewrite E. unfold cut. rewrite filter_cons. case_decide; [|done]. by rewrite (received_app k [x] _ : received k (x :: _) = _).
Qed.

Lemma spent_at_In c i h : spent_at c i = Some h -> exists x, x ∈ c /\ height_of x = h /\ i ∈ block_images x.1.
Proof.
  induction c as [|x c IH]; [done|]. simpl. case_decide; [intros [= <-]; exists x; set_solver|]. intros (y & Hy & E)%IH. exists y. set_solver.
Qed.
Lemma spent_at_cut h c i : StronglySorted (fun x y => height_of x < height_of y) c ->
  spent_at (cut h c) i = match spent_at c i with Some g => if decide (g < h) then Some g else None | None => None end.
Proof.
  induction 1 as [|x c S IH F]; [done|]. unfold cut. rewrite filter_cons. fold (cut h c). simpl spent_at. case_decide as Hx; simpl spent_at.
  - by case_decide; [rewrite decide_True|].
  - rewrite IH. assert (N : forall g, spent_at c i = Some g -> ~ g < h).
    { intros g (y & Hy & <- & _)%spent_at_In. rewrite Forall_forall in F. specialize (F y Hy). lia. }
    case_decide as Hi; [rewrite decide_False by done|]; (destruct (spent_at c i) as [g|]; [rewrite decide_False by auto; done|done]).
Qed.

(** ** The operations on the abstract state *)

Lemma set_spendHeight_0 h x : wi_spendHeight x = 0 -> set_spendHeight 0 (set_spendHeight h x) = x.
Proof. destruct x. simpl. intros ->. done. Qed.

(** A fork above the pruned height. *)
Lemma fork_live pruned h c k s : chain_wf c -> pruned < h ->
  m_unspentInputs s ++ m_lockedInputs s ≡ₚ received k c ≫= live c -> m_spentInputs s ≡ₚ received k c ≫= gone pruned c ->
  let s' := (removeForkedInputs h false s).2 in
  m_unspentInputs s' ++ m_lockedInputs s' ≡ₚ received k (cut h c) ≫= live (cut h c) /\ m_spentInputs s' ≡ₚ received k (cut h c) ≫= gone pruned (cut h c).
Proof.
  intros W Hp L G. cbv zeta. simpl. rewrite received_cut by apply W. rewrite !bind_filter.
  assert (Z0 : forall x, x ∈ received k c -> wi_spendHeight x = 0) by (intros x; by apply received_block). split.
  - rewrite <- app_assoc, (Permutation_app_comm (set_spendHeight 0 <$> _)), app_assoc, <- filter_app, L, G.
    rewrite !filter_bind, fmap_bind_list, bind_app_perm. apply bind_perm_ext. intros x Hx. specialize (Z0 x Hx).
    unfold live, gone. rewrite spent_at_cut by apply W. destruct (spent_at c (wi_keyImage x)) as [g|].
    + rewrite filter_nil, app_nil_l. destruct (decide (pruned < g)).
      * rewrite filter_one. change (isForked h (set_spendHeight g x)) with (isForked h x). destruct (decide (~ isForked h x)); [|done].
        rewrite filter_one. change (wi_spendHeight (set_spendHeight g x)) with g. destruct (decide (h <= g)).
        -- rewrite decide_False by lia. rewrite list_fmap_singleton, set_spendHeight_0; done.
        -- by rewrite decide_True by lia.
      * rewrite (decide_True (P := g < h)) by lia. by destruct (decide (~ isForked h x)).
    + rewrite filter_one. simpl. by destruct (decide (~ isForked h x)).
  - rewrite G, !filter_bind. apply bind_perm_ext. intros x Hx. unfold gone. rewrite spent_at_cut by apply W.
    destruct (spent_at c (wi_keyImage x)) as [g|]; [|by destruct (decide (~ isForked h x))]. destruct (decide (pruned < g)) as [Hg|Hg].
    + rewrite filter_one. change (isForked h (set_spendHeight g x)) with (isForked h x). destruct (decide (~ isForked h x)); [|done].
      rewrite filter_one. change (wi_spendHeight (set_spendHeight g x)) with g. destruct (decide (g < h)).
      * rewrite decide_True by lia. by rewrite decide_True.
      * by rewrite decide_False by lia.
    + destruct (decide (~ isForked h x)); [|done]. destruct (decide (g < h)); [by rewrite decide_False|done].
Qed.

(** Key images identify inputs. *)
Lemma received_unique c k k' x y : chain_wf c -> x ∈ received k c -> y ∈ received k' c -> wi_keyImage x = wi_keyImage y -> k = k' /\ x = y.
Proof.
  intros W Hx Hy E. assert (G : forall k z, z ∈ received k c -> (k, z) ∈ mjoin (snd <$> c)).
  { intros j z (b & Hb & Hz)%elem_of_received. apply list_elem_of_join. exists b.2. split; [done|]. by apply list_elem_of_fmap_2. }
  apply G, list_elem_of_lookup in Hx as [i Hi]. apply G, list_elem_of_lookup in Hy as [j Hj].
  assert (i = j) as ->; [|by simplify_eq]. eapply (NoDup_lookup _ _ _ (wi_keyImage x) (cw_received _ W)); rewrite list_lookup_fmap.
  - by rewrite Hi.
  - rewrite Hj. simpl. by rewrite E.
Qed.

Lemma spent_after c k x g : chain_wf c -> x ∈ received k c -> spent_at c (wi_keyImage x) = Some g -> wi_blockHeight x < g.
Proof.
  intros W (y & Hy & Hx)%elem_of_received Hg. apply list_elem_of_split in Hy as (c1 & c2 & E).
  pose proof (cw_order _ W _ _ _ E) as F. rewrite Forall_forall in F. specialize (F _ Hx). simpl in F.
  pose proof (cw_inputs _ W) as I. pose proof (cw_heights _ W) as S. rewrite E in Hg, I, S. rewrite (app_assoc c1 [y] c2 : c1 ++ y :: c2 = _), spent_at_app, F in Hg.
  apply spent_at_In in Hg as (z & Hz & <- & _). apply Forall_app in I as [_ I]. inversion I as [|? ? Iy _]; subst. rewrite Forall_forall in Iy.
  pose proof (proj1 (Iy _ Hx)) as Ih. simpl in Ih. rewrite Ih. apply StronglySorted_app_1_r in S. inversion S as [|? ? _ Fy]; subst. rewrite Forall_forall in Fy. by apply Fy.
Qed.

(** Where an input is. *)
Lemma denotes_holds pruned c w k s x : denotes pruned c w -> m_subWallets w !! k = Some s -> x ∈ received k c ->
  match spent_at c (wi_keyImage x) with
  | None => x ∈ m_unspentInputs s ++ m_lockedInputs s
  | Some g => pruned < g -> set_spendHeight g x ∈ m_spentInputs s
  end.
Proof.
  intros D Es Hx. destruct (spent_at c (wi_keyImage x)) as [g|] eqn:Eg.
  - intros Hg. rewrite (dn_gone _ _ _ D _ _ Es). apply list_elem_of_bind. exists x. split; [|done]. unfold gone. rewrite Eg, decide_True by done. set_solver.
  - rewrite (dn_live _ _ _ D _ _ Es). apply list_elem_of_bind. exists x. split; [|done]. unfold live. rewrite Eg. set_solver.
Qed.
Lemma denotes_held pruned c w k s y : denotes pruned c w -> m_subWallets w !! k = Some s -> y ∈ m_unspentInputs s ++ m_lockedInputs s ++ m_spentInputs s ->
  exists x, x ∈ received k c /\ wi_keyImage x = wi_keyImage y /\ wi_blockHeight x = wi_blockHeight y.
Proof.
  intros D Es Hy. rewrite app_assoc in Hy. apply elem_of_app in Hy as [Hy|Hy].
  - rewrite (dn_live _ _ _ D _ _ Es) in Hy. apply list_elem_of_bind in Hy as (x & Hy & Hx). unfold live in Hy. destruct (spent_at _ _); set_solver.
  - rewrite (dn_gone _ _ _ D _ _ Es) in Hy. apply list_elem_of_bind in Hy as (x & Hy & Hx). unfold gone in Hy. destruct (spent_at _ _); [|set_solver].
    case_decide; [|set_solver]. apply list_elem_of_singleton in Hy as ->. eauto.
Qed.

(** The key images a fork makes the wallet forget. *)
Definition forgotten (h : Z) (w : SubWallets) (i : KeyImage) : Prop :=
  exists k s y, m_subWallets w !! k = Some s /\ y ∈ m_unspentInputs s ++ m_lockedInputs s ++ m_spentInputs s /\ wi_keyImage y = i /\ h <= wi_blockHeight y.

Lemma fork_fields h w : m_isViewWallet w = false ->
  (forall k, m_subWallets (removeForkedTransactions h w) !! k = snd ∘ removeForkedInputs h false <$> m_subWallets w !! k)
  /\ (forall i k, m_keyImageOwners (removeForkedTransactions h w) !! i = Some k <-> m_keyImageOwners w !! i = Some k /\ ~ forgotten h w i).
Proof.
  intros V. split.
  - intros k. simpl. rewrite !lookup_fmap, V. by destruct (_ !! k).
  - intros i k. simpl. rewrite foldl_delete, V. set (l := mjoin _).
    assert (Hl : i ∈ l <-> forgotten h w i).
    { unfold l, forgotten. rewrite list_elem_of_join. split.
      - intros (imgs & Hi & ([j [imgs' s']] & -> & Hx)%list_elem_of_fmap). simpl in Hi. apply elem_of_map_to_list in Hx. rewrite lookup_fmap in Hx.
        apply fmap_Some in Hx as (s & Es & [= -> ->]). exists j, s.
        assert (F : forall l : list WalletInput, i ∈ wi_keyImage <$> filter (isForked h) l -> exists y, y ∈ l /\ wi_keyImage y = i /\ h <= wi_blockHeight y).
        { intros m (y & -> & [Hy Hm]%list_elem_of_filter)%list_elem_of_fmap. eauto. }
        rewrite !elem_of_app in Hi. destruct Hi as [Hi|[Hi|Hi]]; apply F in Hi as (y & Hy & E & Hh); exists y; set_solver.
      - intros (j & s & y & Es & Hy & <- & Hh). exists (removeForkedInputs h false s).1. split.
        + simpl. assert (F : forall l : list WalletInput, y ∈ l -> wi_keyImage y ∈ wi_keyImage <$> filter (isForked h) l).
          { intros m Hm. apply list_elem_of_fmap_2, list_elem_of_filter. done. }
          rewrite !elem_of_app in Hy. rewrite !elem_of_app. naive_solver.
        + apply list_elem_of_fmap. exists (j, removeForkedInputs h false s). split; [done|]. apply elem_of_map_to_list. by rewrite lookup_fmap, Es. }
    destruct (decide (i ∈ l)) as [Hi|Hi]; rewrite <- Hl; naive_solver.
Qed.

Lemma denotes_fork pruned c w h : denotes pruned c w -> chain_wf c -> pruned < h -> denotes pruned (cut h c) (removeForkedTransactions h w).
Proof.
  intros D W Hp. destruct (fork_fields h w (dn_view _ _ _ D)) as [L O].
  assert (R : forall k, received k (cut h c) = filter (fun x => ~ isForked h x) (received k c)) by (intros; apply received_cut, W).
  constructor.
  - apply D.
  - intros k s' E. rewrite L in E. apply fmap_Some in E as (s & Es & ->). by eapply fork_live; [| |apply (dn_live _ _ _ D _ _ Es)|apply (dn_gone _ _ _ D _ _ Es)].
  - intros k s' E. rewrite L in E. apply fmap_Some in E as (s & Es & ->). by eapply fork_live; [| |apply (dn_live _ _ _ D _ _ Es)|apply (dn_gone _ _ _ D _ _ Es)].
  - intros i k. rewrite O, (dn_owners _ _ _ D). split.
    + intros [(x & Hx & <-) Hf]. exists x. split; [|done]. rewrite R. apply list_elem_of_filter. split; [|done]. intros Hh. apply Hf.
      destruct (dn_known _ _ _ D _ _ Hx) as [s Es]. pose proof (denotes_holds _ _ _ _ _ _ D Es Hx) as P. exists k, s.
      destruct (spent_at c (wi_keyImage x)) as [g|] eqn:Eg; [exists (set_spendHeight g x)|exists x].
      * pose proof (spent_after _ _ _ _ W Hx Eg). unfold isForked in Hh. split_and!; [done|rewrite !elem_of_app; right; right; apply P; lia|done|done].
      * split_and!; [done|rewrite app_assoc; apply elem_of_app; by left|done|done].
    + intros (x & Hx & <-). rewrite R in Hx. apply list_elem_of_filter in Hx as [Hh Hx]. split; [eauto|].
      intros (k' & s & y & Es & Hy & E & Hb). destruct (denotes_held _ _ _ _ _ _ D Es Hy) as (z & Hz & Ez & Bz).
      destruct (received_unique _ _ _ _ _ W Hx Hz) as [-> ->]; [congruence|]. apply Hh. unfold isForked. lia.
  - intros k x Hx. rewrite R in Hx. apply list_elem_of_filter in Hx as [_ Hx]. destruct (dn_known _ _ _ D _ _ Hx) as [s Es]. rewrite L, Es. eauto.
Qed.

(** Spent inputs are dropped up to a height. *)
Lemma denotes_prune pruned q c w : denotes pruned c w -> denotes (Z.max pruned q) c (pruneSpentInputs q w).
Proof.
  intros D. constructor; [apply D| | |apply D|].
  - intros k s' E. simpl in E. rewrite lookup_fmap in E. apply fmap_Some in E as (s & Es & ->). apply (dn_live _ _ _ D _ _ Es).
  - intros k s' E. simpl in E. rewrite lookup_fmap in E. apply fmap_Some in E as (s & Es & ->). simpl. rewrite (dn_gone _ _ _ D _ _ Es), filter_bind.
    apply bind_perm_ext. intros x _. unfold gone. destruct (spent_at _ _) as [g|]; [|done]. destruct (decide (pruned < g)) as [Hg|Hg].
    + rewrite filter_one. change (wi_spendHeight (set_spendHeight g x)) with g. destruct (decide (Z.max pruned q < g)); [by rewrite decide_True by lia|by rewrite decide_False by lia].
    + by rewrite decide_False by lia.
  - intros k x Hx. simpl. rewrite lookup_fmap. destruct (dn_known _ _ _ D _ _ Hx) as [s ->]. eauto.
Qed.

(** What [denotes] speaks of. *)
Definition same_inputs (w' w : SubWallets) : Prop := m_subWallets w' = m_subWallets w /\ m_keyImageOwners w' = m_keyImageOwners w /\ m_isViewWallet w' = m_isViewWallet w.
Lemma denotes_same pruned c w w' : same_inputs w' w -> denotes pruned c w -> denotes pruned c w'.
Proof. intros (E1 & E2 & E3) [V L G O K]. constructor; rewrite ?E1, ?E2, ?E3; done. Qed.
Lemma add_transactions_same txs : forall w, same_inputs (foldl (fun w tx => addTransaction tx w) w txs) w.
Proof.
  induction txs as [|tx txs IH]; intros w; [done|]. cbn [foldl]. unfold same_inputs. destruct (IH (addTransaction tx w)) as (-> & -> & ->). unfold addTransaction. by case_bool_decide.
Qed.

(** Storing what a block brings. *)
Lemma store_all ours : forall w, m_isViewWallet w = false -> Forall (fun x => is_Some (m_subWallets w !! x.1)) ours -> NoDup (wi_keyImage ∘ snd <$> ours) ->
  exists w', foldM (fun w '(k, input) => storeTransactionInput k input w) w ours = Ok w' /\ m_isViewWallet w' = false
    /\ (forall k, is_Some (m_subWallets w' !! k) <-> is_Some (m_subWallets w !! k))
    /\ (forall k s', m_subWallets w' !! k = Some s' -> exists s, m_subWallets w !! k = Some s
          /\ m_unspentInputs s' = m_unspentInputs s ++ received_in k ours /\ m_lockedInputs s' = m_lockedInputs s /\ m_spentInputs s' = m_spentInputs s)
    /\ (forall i k, m_keyImageOwners w' !! i = Some k <->
          (exists x, x ∈ received_in k ours /\ wi_keyImage x = i) \/ ((i ∉ (wi_keyImage ∘ snd <$> ours)) /\ m_keyImageOwners w !! i = Some k)).
Proof.
  induction ours as [|[k x] ours IH]; intros w V F Nd.
  { exists w. split_and!; [done|done|done| |].
    - intros k s' E. exists s'. unfold received_in. simpl. by rewrite app_nil_r.
    - intros i k. unfold received_in. simpl. split; [intros E; right; set_solver|]. intros [(y & Hy & _)|[_ ?]]; [set_solver|done]. }
  inversion F as [|? ? [s0 Hk] F']; subst. rewrite fmap_cons in Nd. apply NoDup_cons in Nd as [Hn Nd]. simpl in Hk, Hn.
  destruct (storeTransactionInput k x w) as [w1| |] eqn:E1; [|by unfold storeTransactionInput in E1; rewrite Hk in E1..].
  apply store_fields in E1 as E1'. destruct E1' as (s & Es & EW & _ & EV & EO). rewrite V in EW, EO.
  assert (S1 : forall j, is_Some (m_subWallets w1 !! j) <-> is_Some (m_subWallets w !! j)).
  { intros j. rewrite EW. destruct (decide (j = k)) as [->|]; [rewrite lookup_insert_eq; naive_solver|by rewrite lookup_insert_ne]. }
  destruct (IH w1) as (w' & E' & V' & S' & R' & O'); [by rewrite EV|eapply Forall_impl; [exact F'|]; intros y Hy; by apply S1|done|].
  exists w'. cbn [foldM]. rewrite E1. okbind. split_and!; [done|done|intros j; by rewrite S', S1| |].
  - intros j s' Ej. destruct (R' j s' Ej) as (t & Et & U & Lk & Sp). rewrite EW in Et. unfold received_in. rewrite filter_cons. simpl.
    apply lookup_insert_Some in Et as [[<- <-]|[Hj Et]].
    + exists s. rewrite decide_True by done. simpl in U, Lk, Sp. split_and!; [done| |done|done]. rewrite U, <- app_assoc. done.
    + exists t. by rewrite decide_False by congruence.
  - intros i j. rewrite O', EO. unfold received_in. rewrite filter_cons. simpl. split.
    + intros [(y & Hy & Ey)|[Hi Ho]]; [left; exists y; split; [|done]; case_decide; set_solver|].
      apply lookup_insert_Some in Ho as [[<- <-]|[Hx Ho]]; [left; exists x; rewrite decide_True by done; set_solver|right; set_solver].
    + intros [(y & Hy & Ey)|[Hi Ho]].
      * case_decide as Hj; [|left; eauto]. subst j. rewrite fmap_cons in Hy. apply elem_of_cons in Hy as [->|Hy]; [right|left; eauto]. simpl in Ey. subst i.
        split; [done|apply lookup_insert_eq].
      * right. split; [set_solver|]. rewrite lookup_insert_ne; [done|set_solver].
Qed.

Lemma NoDup_fmap_sublist {A B} (f : A -> B) (l k : list A) : l `sublist_of` k -> NoDup (f <$> k) -> NoDup (f <$> l).
Proof. intros S N. eapply sublist_NoDup; [exact N|by apply fmap_sublist]. Qed.

(** Marking what a block spends. *)
Definition marked (k : PublicKey) (ms : list (PublicKey * KeyImage)) : list KeyImage := snd <$> filter (fun m => m.1 = k) ms.

Lemma mark_one i h s : NoDup (wi_keyImage <$> m_unspentInputs s ++ m_lockedInputs s) -> let s' := SubWallet_markInputAsSpent i h s in
  m_unspentInputs s' ++ m_lockedInputs s' ≡ₚ filter (fun x => wi_keyImage x <> i) (m_unspentInputs s ++ m_lockedInputs s)
  /\ m_spentInputs s' ≡ₚ m_spentInputs s ++ (set_spendHeight h <$> filter (fun x => wi_keyImage x = i) (m_unspentInputs s ++ m_lockedInputs s)).
Proof.
  intros Nd. cbv zeta. set (L := m_unspentInputs s ++ m_lockedInputs s) in *.
  assert (One : forall l1 x l2, L = l1 ++ x :: l2 -> wi_keyImage x = i ->
    filter (fun y => wi_keyImage y <> i) L = l1 ++ l2 /\ filter (fun y => wi_keyImage y = i) L = [x]).
  { intros l1 x l2 EL Hx. rewrite EL in Nd |- *. rewrite fmap_app, fmap_cons in Nd. apply NoDup_app in Nd as (_ & D & [Hn _]%NoDup_cons).
    assert (F : forall l : list WalletInput, i ∉ wi_keyImage <$> l -> Forall (fun y => wi_keyImage y <> i) l).
    { intros l Hl. apply Forall_forall. intros y Hy <-. apply Hl. by apply list_elem_of_fmap_2. }
    assert (F1 : Forall (fun y => wi_keyImage y <> i) l1) by (apply F; intros Hi; apply (D i Hi); rewrite Hx; set_solver).
    assert (F2 : Forall (fun y => wi_keyImage y <> i) l2) by (apply F; by rewrite <- Hx).
    rewrite !filter_app, !filter_cons, decide_False, decide_True by tauto. rewrite !(filter_all _ l1), !(filter_all _ l2), !(filter_none _ l1), !(filter_none _ l2) by done. done. }
  unfold SubWallet_markInputAsSpent. destruct (find_erase _ (m_unspentInputs s)) as [[x rest]|] eqn:E.
  { apply find_erase_Some in E as (l1 & l2 & El & -> & Hx & _). simpl. destruct (One l1 x (l2 ++ m_lockedInputs s)) as [-> ->]; [unfold L; by rewrite El, <- app_assoc|done|].
    by rewrite <- app_assoc. }
  apply find_erase_None in E. destruct (find_erase _ (m_lockedInputs s)) as [[x rest]|] eqn:E2.
  - apply find_erase_Some in E2 as (l1 & l2 & El & -> & Hx & _). simpl. destruct (One (m_unspentInputs s ++ l1) x l2) as [-> ->]; [unfold L; by rewrite El, <- app_assoc|done|].
    by rewrite <- app_assoc.
  - apply find_erase_None in E2. assert (F : Forall (fun y => wi_keyImage y <> i) L) by (unfold L; by apply Forall_app).
    rewrite (filter_all _ L), (filter_none _ L) by done. by rewrite app_nil_r.
Qed.

Lemma mark_compose i I h (L sp : list WalletInput) :
  filter (fun x => wi_keyImage x ∉ I) (filter (fun x => wi_keyImage x <> i) L) = filter (fun x => wi_keyImage x ∉ i :: I) L
  /\ (sp ++ (set_spendHeight h <$> filter (fun x => wi_keyImage x = i) L)) ++ (set_spendHeight h <$> filter (fun x => wi_keyImage x ∈ I) (filter (fun x => wi_keyImage x <> i) L))
     ≡ₚ sp ++ (set_spendHeight h <$> filter (fun x => wi_keyImage x ∈ i :: I) L).
Proof.
  split.
  - rewrite list_filter_filter. apply list_filter_iff. set_solver.
  - rewrite <- app_assoc. apply Permutation_app_head. rewrite <- fmap_app. apply fmap_Permutation. rewrite list_filter_filter, !filter_as_bind, bind_app_perm.
    apply bind_perm_ext. intros x _. destruct (decide (wi_keyImage x = i)) as [E|E]; destruct (decide (wi_keyImage x ∈ I)) as [E'|E'];
      repeat case_decide; simpl; try done; set_solver.
Qed.

Lemma mark_all h ms : forall w, m_isViewWallet w = false -> Forall (fun m => is_Some (m_subWallets w !! m.1)) ms ->
  (forall k s, m_subWallets w !! k = Some s -> NoDup (wi_keyImage <$> m_unspentInputs s ++ m_lockedInputs s)) ->
  exists w', foldM (fun w '(k, keyImage) => markInputAsSpent keyImage k h w) w ms = Ok w' /\ m_isViewWallet w' = false
    /\ m_keyImageOwners w' = m_keyImageOwners w /\ (forall k, is_Some (m_subWallets w' !! k) <-> is_Some (m_subWallets w !! k))
    /\ (forall k s', m_subWallets w' !! k = Some s' -> exists s, m_subWallets w !! k = Some s
        /\ m_unspentInputs s' ++ m_lockedInputs s' ≡ₚ filter (fun x => wi_keyImage x ∉ marked k ms) (m_unspentInputs s ++ m_lockedInputs s)
        /\ m_spentInputs s' ≡ₚ m_spentInputs s ++ (set_spendHeight h <$> filter (fun x => wi_keyImage x ∈ marked k ms) (m_unspentInputs s ++ m_lockedInputs s))).
Proof.
  induction ms as [|[k i] ms IH]; intros w V F Nd.
  { exists w. split_and!; [done..|]. intros k s' E. exists s'. unfold marked. simpl. split; [done|].
    rewrite filter_all, filter_none by (apply Forall_forall; set_solver). by rewrite app_nil_r. }
  inversion F as [|? ? [s0 Hk] F']; subst. simpl in Hk. set (w1 := set_subWallets (<[k := SubWallet_markInputAsSpent i h s0]> (m_subWallets w)) w).
  assert (E1 : markInputAsSpent i k h w = Ok w1) by (unfold markInputAsSpent, throwIfViewWallet, at_subWallet; by rewrite V, Hk).
  assert (S1 : forall j, is_Some (m_subWallets w1 !! j) <-> is_Some (m_subWallets w !! j)).
  { intros j. simpl. destruct (decide (j = k)) as [->|]; [rewrite lookup_insert_eq; naive_solver|by rewrite lookup_insert_ne]. }
  destruct (mark_one i h s0 (Nd _ _ Hk)) as [M1 M2].
  destruct (IH w1) as (w' & E' & V' & O' & S' & R'); [done|eapply Forall_impl; [exact F'|]; intros y Hy; by apply S1| |].
  { intros j s Ej. simpl in Ej. apply lookup_insert_Some in Ej as [[<- <-]|[_ Ej]]; [|eauto]. rewrite M1.
    apply (NoDup_fmap_sublist wi_keyImage _ (m_unspentInputs s0 ++ m_lockedInputs s0)); [apply sublist_filter|eauto]. }
  exists w'. cbn [foldM]. rewrite E1. okbind. split_and!; [done|done|by rewrite O'|intros j; by rewrite S', S1|].
  intros j s' Ej. destruct (R' j s' Ej) as (t & Et & U & Sp). unfold marked. rewrite filter_cons. simpl in Et |- *.
  apply lookup_insert_Some in Et as [[<- <-]|[Hj Et]].
  - exists s0. rewrite decide_True by done. split; [done|]. fold (marked k ms). rewrite fmap_cons. simpl.
    destruct (mark_compose i (marked k ms) h (m_unspentInputs s0 ++ m_lockedInputs s0) (m_spentInputs s0)) as [C1 C2]. split.
    + by rewrite U, M1, C1.
    + by rewrite Sp, M1, M2, C2.
  - exists t. by rewrite decide_False by congruence.
Qed.

(** The spends a block contains, of inputs the wallet knows. *)
Definition owned_spends (w : SubWallets) (images : list KeyImage) : list (PublicKey * KeyImage) :=
  omap (fun i => (fun k => (k, i)) <$> getKeyImageOwner i w) images.

Lemma spent_loop_ok w l : forall T acc, (acc <> [] -> T <> ∅) ->
  let r := foldl (fun '(transfers, spentKeyImages) input =>
      match getKeyImageOwner (keyImage input) w with
      | Some k => (add_transfer k (- ki_amount input) transfers, spentKeyImages ++ [(k, keyImage input)])
      | None => (transfers, spentKeyImages)
      end) (T, acc) l in
  r.2 = acc ++ owned_spends w (keyImage <$> l) /\ (r.2 <> [] -> r.1 <> ∅).
Proof.
  induction l as [|x l IH]; intros T acc HT; [by rewrite app_nil_r|]. cbn [foldl]. unfold owned_spends. rewrite fmap_cons. cbn [omap list_omap].
  destruct (getKeyImageOwner (keyImage x) w) as [k|] eqn:E; simpl.
  - destruct (IH (add_transfer k (- ki_amount x) T) (acc ++ [(k, keyImage x)])) as [-> H2]; [intros _; apply insert_non_empty|].
    split; [by rewrite <- app_assoc|]. done.
  - apply IH. done.
Qed.

Lemma block_marks w b inputs : mjoin ((fun r : option WalletTransaction * list (PublicKey * KeyImage) => match r.1 with Some _ => r.2 | None => [] end)
    <$> (processTransaction w b inputs <$> wb_transactions b)) = owned_spends w (block_images b).
Proof.
  unfold block_images, owned_spends. induction (wb_transactions b) as [|tx txs IH]; [done|]. rewrite !fmap_cons, !mjoin_cons, omap_app, <- IH.
  f_equal. unfold processTransaction, spent_loop. pose proof (spent_loop_ok w (rt_keyInputs tx) (received_transfers (rc_hash (rt_base tx)) inputs) []) as [E1 E2]; [done|].
  destruct (foldl _ _ (rt_keyInputs tx)) as [T sp] eqn:El. cbn [fst snd] in E1, E2. case_bool_decide as HT; simpl.
  - destruct (decide (sp = [])) as [->|Hs]; [|by apply E2 in Hs]. done.
  - done.
Qed.

Lemma marked_owned w k images i : i ∈ marked k (owned_spends w images) <-> i ∈ images /\ getKeyImageOwner i w = Some k.
Proof.
  unfold marked, owned_spends. rewrite list_elem_of_fmap. split.
  - intros ([k' i'] & -> & [Hk (j & Hj & Ej)%list_elem_of_omap]%list_elem_of_filter). simpl in *. subst k'. apply fmap_Some in Ej as (k' & Ek & [= -> ->]). done.
  - intros [Hi Ho]. exists (k, i). split; [done|]. apply list_elem_of_filter. split; [done|]. apply list_elem_of_omap. exists i. by rewrite Ho.
Qed.

(** What the step does to an input: received before, or in the block. *)
Lemma live_snoc c b ours x : live (c ++ [(b, ours)]) x = filter (fun y => wi_keyImage y ∉ block_images b) (live c x).
Proof.
  unfold live. rewrite spent_at_app. destruct (spent_at c (wi_keyImage x)); [done|]. rewrite filter_one. simpl.
  case_decide; case_decide; done.
Qed.
Lemma gone_snoc pruned c b ours x : pruned < wb_blockHeight b ->
  gone pruned (c ++ [(b, ours)]) x = gone pruned c x ++ (set_spendHeight (wb_blockHeight b) <$> filter (fun y => wi_keyImage y ∈ block_images b) (live c x)).
Proof.
  intros Hp. unfold gone, live. rewrite spent_at_app. destruct (spent_at c (wi_keyImage x)); [by rewrite app_nil_r|]. rewrite filter_one. simpl.
  destruct (decide (wi_keyImage x ∈ block_images b)); [|done]. unfold height_of. simpl. by rewrite decide_True.
Qed.

Section block_step.
Context (pruned : Z) (c : list scanned) (w : SubWallets) (b : WalletBlockInfo) (ours : BlockInputsAndOwners).
Context (D : denotes pruned c w) (W : chain_wf (c ++ [(b, ours)])) (Hp : pruned < wb_blockHeight b).
Context (Hk : Forall (fun x => is_Some (m_subWallets w !! x.1)) ours).

Lemma block_received_nodup : NoDup (wi_keyImage ∘ snd <$> ours) /\ forall i k x, x ∈ received k c -> wi_keyImage x = i -> i ∉ (wi_keyImage ∘ snd <$> ours).
Proof using W.
  pose proof (cw_received _ W) as Nd. rewrite fmap_app, join_app, fmap_app in Nd. simpl in Nd. rewrite app_nil_r in Nd. apply NoDup_app in Nd as (_ & Dj & Nd).
  split; [done|]. intros i k x (y & Hy & Hx)%elem_of_received <-. apply Dj. apply list_elem_of_fmap. exists (k, x). split; [done|].
  apply list_elem_of_join. exists y.2. split; [done|]. by apply list_elem_of_fmap_2.
Qed.
Lemma prefix_wf : chain_wf c.
Proof using W.
  clear D Hk. destruct W as [S I R O]. constructor.
  - by apply StronglySorted_app_1_l in S.
  - by apply Forall_app in I as [? _].
  - rewrite fmap_app, join_app, fmap_app in R. by apply NoDup_app in R as (? & _).
  - intros c1 x c2 ->. apply (O c1 x (c2 ++ [(b, ours)])). by rewrite <- app_assoc.
Qed.
Lemma new_not_spent k x : x ∈ received_in k ours -> spent_at (c ++ [(b, ours)]) (wi_keyImage x) = None.
Proof using W.
  intros (y & -> & [_ Hy]%list_elem_of_filter)%list_elem_of_fmap. pose proof (cw_order _ W c (b, ours) [] eq_refl) as F. rewrite Forall_forall in F. by apply F.
Qed.
Lemma live_nodup k s : m_subWallets w !! k = Some s -> NoDup (wi_keyImage <$> (m_unspentInputs s ++ m_lockedInputs s) ++ received_in k ours).
Proof using D W.
  intros Es. rewrite (dn_live _ _ _ D _ _ Es).
  assert (L : (received k c ≫= live c) = filter (fun x => spent_at c (wi_keyImage x) = None) (received k c)).
  { rewrite filter_as_bind. apply list_bind_ext; [|done]. intros x. unfold live. destruct (spent_at c (wi_keyImage x)); by case_decide. }
  rewrite L. apply (NoDup_fmap_sublist wi_keyImage _ (received k c ++ received_in k ours)); [apply sublist_app; [apply sublist_filter|done]|].
  pose proof (cw_received _ W) as Nd. rewrite fmap_app, join_app in Nd. simpl in Nd. rewrite app_nil_r in Nd. unfold received, received_in.
  rewrite <- fmap_app, <- filter_app, <- list_fmap_compose. apply (NoDup_fmap_sublist (wi_keyImage ∘ snd) _ (mjoin c.*2 ++ ours)); [apply sublist_filter|done].
Qed.

Lemma block_step skip info : processBlockTransactions skip w b ours = Ok info -> exists w',
  (w ← foldM (fun w '(k, input) => storeTransactionInput k input w) (foldl (fun w tx => addTransaction tx w) w (transactionsToAdd info)) (inputsToAdd info);
   foldM (fun w '(k, keyImage) => markInputAsSpent keyImage k (wb_blockHeight b) w) w (keyImagesToMarkSpent info)) = Ok w'
  /\ denotes pruned (c ++ [(b, ours)]) w'.
Proof using D W Hp Hk.
  intros Ei. unfold processBlockTransactions in Ei. apply bind_ok in Ei as (cb & _ & Ei). injection Ei as <-. cbn [transactionsToAdd inputsToAdd keyImagesToMarkSpent].
  rewrite block_marks. set (w0 := foldl _ w _). destruct (add_transactions_same (option_list cb ++ omap fst (processTransaction w b ours <$> wb_transactions b)) w) as (E1 & E2 & E3).
  fold w0 in E1, E2, E3. destruct block_received_nodup as [Ndo Ndc].
  destruct (store_all ours w0) as (w1 & -> & V1 & S1 & R1 & O1); [rewrite E3; apply D|by rewrite E1|done|]. okbind. rewrite E1 in S1, R1. rewrite E2 in O1.
  destruct (mark_all (wb_blockHeight b) (owned_spends w (block_images b)) w1) as (w2 & -> & V2 & O2 & S2 & R2); [done| | |].
  { apply Forall_forall. intros [k i] (j & Hj & Ej)%list_elem_of_omap. apply fmap_Some in Ej as (k' & Ek & [= -> ->]). simpl. apply S1.
    apply (dn_owners _ _ _ D) in Ek as (x & Hx & _). by apply (dn_known _ _ _ D) in Hx. }
  { intros k s1 Es1. destruct (R1 k s1 Es1) as (s & Es & -> & -> & _). rewrite <- app_assoc, (Permutation_app_comm (received_in k ours)), app_assoc. by apply live_nodup. }
  exists w2. split; [done|]. assert (Rc : forall k, received k (c ++ [(b, ours)]) = received k c ++ received_in k ours).
  { intros k. rewrite received_app. unfold received at 2. simpl. by rewrite app_nil_r. }
  assert (Mk : forall k x, x ∈ received k c -> (wi_keyImage x ∈ marked k (owned_spends w (block_images b)) <-> wi_keyImage x ∈ block_images b)).
  { intros k x Hx. rewrite marked_owned. split; [by intros [? _]|]. intros ?. split; [done|]. apply (dn_owners _ _ _ D). eauto. }
  assert (Mn : forall k x, x ∈ received_in k ours -> (wi_keyImage x ∉ marked k (owned_spends w (block_images b))) /\ live (c ++ [(b, ours)]) x = [x] /\ gone pruned (c ++ [(b, ours)]) x = []).
  { intros k x Hx. pose proof (new_not_spent k x Hx) as Hs. unfold live, gone. rewrite Hs. split; [|done]. rewrite marked_owned. intros [Hi _].
    rewrite spent_at_app in Hs. destruct (spent_at c _); [done|]. simpl in Hs. by rewrite decide_True in Hs. }
  assert (U : forall k s1, m_subWallets w1 !! k = Some s1 -> m_unspentInputs s1 ++ m_lockedInputs s1 ≡ₚ (received k c ≫= live c) ++ received_in k ours).
  { intros k s1 Es1. destruct (R1 k s1 Es1) as (s & Es & -> & -> & _). rewrite <- app_assoc, (Permutation_app_comm (received_in k ours)), app_assoc.
    by rewrite (dn_live _ _ _ D _ _ Es). }
  constructor; [done| | | |].
  - intros k s2 Es2. destruct (R2 k s2 Es2) as (s1 & Es1 & -> & _). rewrite (U k s1 Es1), Rc, bind_app, filter_app, filter_bind. apply Permutation_app.
    + apply bind_perm_ext. intros x Hx. rewrite live_snoc. unfold live. destruct (spent_at c (wi_keyImage x)); [done|]. rewrite !filter_one.
      pose proof (Mk k x Hx). case_decide; case_decide; first [done|tauto].
    + rewrite filter_all by (apply Forall_forall; intros x Hx; by apply Mn). rewrite (bind_perm_ext _ (fun x => [x])), bind_ret; [done|].
      intros x Hx. by rewrite (proj1 (proj2 (Mn k x Hx))).
  - intros k s2 Es2. destruct (R2 k s2 Es2) as (s1 & Es1 & _ & ->). rewrite (U k s1 Es1), Rc, bind_app, filter_app, fmap_app.
    destruct (R1 k s1 Es1) as (s & Es & _ & _ & ->). rewrite (dn_gone _ _ _ D _ _ Es), app_assoc. apply Permutation_app.
    + rewrite filter_bind, fmap_bind_list, bind_app_perm. apply bind_perm_ext. intros x Hx. rewrite gone_snoc by done. apply Permutation_app_head.
      unfold live. destruct (spent_at c (wi_keyImage x)); [done|]. rewrite !filter_one. pose proof (Mk k x Hx). case_decide; case_decide; first [done|tauto].
    + rewrite filter_none by (apply Forall_forall; intros x Hx; by apply Mn). rewrite (bind_perm_ext _ (fun x => [])); [by rewrite bind_nothing|].
      intros x Hx. by rewrite (proj2 (proj2 (Mn k x Hx))).
  - intros i k. rewrite O2, O1, (dn_owners _ _ _ D), Rc. setoid_rewrite elem_of_app. split.
    + intros [(x & Hx & E)|[_ (x & Hx & E)]]; exists x; auto.
    + intros (x & [Hx|Hx] & E); [right; split; [by eapply Ndc|eauto]|left; eauto].
  - intros k x Hx. rewrite Rc in Hx. apply S2, S1. apply elem_of_app in Hx as [Hx|Hx]; [by eapply (dn_known _ _ _ D)|].
    apply list_elem_of_fmap in Hx as ([k' y] & _ & [Hk' Hy]%list_elem_of_filter). simpl in Hk'. subst k'. rewrite Forall_forall in Hk. by apply (Hk _ Hy).
Qed.
End block_step.

(** ** Completing a block *)

(** The chain after a block, and the height below which spent inputs are forgotten. *)
Definition next_chain (d : BlockDownloader) (c : list scanned) (x : scanned) : list scanned :=
  (if (height_of x <=? getHeight d) && negb (height_of x =? 0) then cut (height_of x) c else c) ++ [x].
Definition next_pruned (pruned h : Z) : Z :=
  if (h mod PRUNE_SPENT_INPUTS_INTERVAL =? 0) && (PRUNE_SPENT_INPUTS_INTERVAL <? h) then Z.max pruned (h - PRUNE_SPENT_INPUTS_INTERVAL) else pruned.

Lemma next_pruned_lt pruned h : pruned < h -> next_pruned pruned h < h.
Proof. intros Hp. unfold next_pruned. case_match; [|done]. assert (0 < PRUNE_SPENT_INPUTS_INTERVAL) by by vm_compute. lia. Qed.

Lemma getHeight_drop h hash d d' : dropBlock h hash d = Ok d' -> getHeight d' = h.
Proof. unfold dropBlock. destruct (m_storedBlocks d); [done|]. intros [= <-]. unfold getHeight. simpl. unfold storeBlockHash. by case_bool_decide. Qed.

Lemma complete_refines skip pruned c d w b ours : denotes pruned c w -> chain_wf c -> chain_wf (next_chain d c (b, ours)) -> pruned < wb_blockHeight b ->
  Forall (fun x => is_Some (m_subWallets w !! x.1)) ours -> m_storedBlocks d <> [] -> (skip = true \/ is_Some (wb_coinbaseTransaction b)) ->
  exists d' w', completeBlockProcessing skip b ours (d, w) = Ok (d', w') /\ getHeight d' = wb_blockHeight b
    /\ denotes (next_pruned pruned (wb_blockHeight b)) (next_chain d c (b, ours)) w'.
Proof.
  intros D W W' Hp Hk Hd Hc. unfold completeBlockProcessing. cbv zeta. unfold next_chain in *. change (height_of (b, ours)) with (wb_blockHeight b) in *.
  set (h := wb_blockHeight b) in *. set (fork := (h <=? getHeight d) && negb (h =? 0)) in *. set (w1 := if fork then removeForkedTransactions h w else w).
  set (c1 := if fork then cut h c else c) in *.
  assert (D1 : denotes pruned c1 w1) by (unfold c1, w1; destruct fork; [by apply denotes_fork|done]).
  set (w2 := if _ && _ then pruneSpentInputs _ w1 else w1).
  assert (D2 : denotes (next_pruned pruned h) c1 w2) by (unfold next_pruned, w2; case_match; [by apply denotes_prune|done]).
  assert (Hk2 : Forall (fun x => is_Some (m_subWallets w2 !! x.1)) ours).
  { eapply Forall_impl; [exact Hk|]. intros x [s Es]. unfold w2, w1. case_match; simpl; rewrite ?lookup_fmap; (destruct fork; simpl; rewrite ?lookup_fmap, Es; eauto). }
  destruct (processBlockTransactions skip w2 b ours) as [info| |] eqn:Ei.
  2, 3: unfold processBlockTransactions, processCoinbaseTransaction in Ei; destruct skip; [done|]; destruct Hc as [?|[cb Ecb]]; [done|]; by rewrite Ecb in Ei.
  destruct (block_step _ _ _ _ _ D2 W' (next_pruned_lt _ _ Hp) Hk2 skip info Ei) as (w' & Ew & D').
  okbind. apply bind_ok in Ew as (w3 & -> & Ew). okbind. fold h in Ew. rewrite Ew. okbind.
  destruct (dropBlock h (wb_blockHash b) d) as [d'| |] eqn:Ed; [|by unfold dropBlock in Ed; destruct (m_storedBlocks d)..].
  exists d', w'. split_and!; [done|by eapply getHeight_drop|done].
Qed.

Lemma complete_needs skip b ours d w r : completeBlockProcessing skip b ours (d, w) = Ok r -> m_storedBlocks d <> [] /\ (skip = true \/ is_Some (wb_coinbaseTransaction b)).
Proof.
  intros E. unfold completeBlockProcessing in E. cbv zeta in E. inv_ok. split.
  - intros Ed. match goal with H : dropBlock _ _ _ = Ok _ |- _ => unfold dropBlock in H; by rewrite Ed in H end.
  - destruct skip; [by left|right]. unfold processBlockTransactions, processCoinbaseTransaction in Hok. cbn [negb] in Hok. inv_ok. destruct (wb_coinbaseTransaction b); [eauto|done].
Qed.

(** ** Following a chain *)

Section following.
Context (skipCoinbaseTransactions : bool).

(** A wallet without inputs, then: blocks are downloaded and completed, transactions are sent, and cancelled.  A fork is not
    deeper than what was pruned. *)
Inductive follows : BlockDownloader -> SubWallets -> Z -> list scanned -> Prop :=
| follows_start d w : m_isViewWallet w = false -> m_keyImageOwners w = ∅ ->
    map_Forall (fun _ s => m_unspentInputs s = [] /\ only_unspent s) (m_subWallets w) -> follows d w (-1) []
| follows_download count sync d w pruned c ok d' w' : follows d w pruned c -> downloadBlocks count sync d w = (ok, d', w') -> follows d' w' pruned c
| follows_block d w pruned c b ours d' w' : follows d w pruned c -> chain_wf (next_chain d c (b, ours)) -> pruned < wb_blockHeight b ->
    Forall (fun x => is_Some (m_subWallets w !! x.1)) ours -> completeBlockProcessing skipCoinbaseTransactions b ours (d, w) = Ok (d', w') ->
    follows d' w' (next_pruned pruned (wb_blockHeight b)) (next_chain d c (b, ours))
| follows_lock i k d w pruned c w' : follows d w pruned c -> markInputAsLocked i k w = Ok w' -> follows d w' pruned c
| follows_check status d w pruned c w' : follows d w pruned c -> checkLockedTransactions status w = Ok w' -> follows d w' pruned c
| follows_sent tx d w pruned c : follows d w pruned c -> follows d (addUnconfirmedTransaction tx w) pruned c
| follows_incoming x k d w pruned c : follows d w pruned c -> follows d (storeUnconfirmedIncomingInput x k w) pruned c
| follows_key sk h d w pruned c : follows d w pruned c -> follows d (storeTxPrivateKey sk h w) pruned c.

(** An operation that moves inputs between unspent and locked. *)
Definition moves (s' s : SubWallet) : Prop :=
  m_unspentInputs s' ++ m_lockedInputs s' ≡ₚ m_unspentInputs s ++ m_lockedInputs s /\ m_spentInputs s' = m_spentInputs s.
Lemma denotes_moves pruned c w w' : m_isViewWallet w' = m_isViewWallet w -> m_keyImageOwners w' = m_keyImageOwners w ->
  (forall k, option_Forall2 moves (m_subWallets w' !! k) (m_subWallets w !! k)) -> denotes pruned c w -> denotes pruned c w'.
Proof.
  intros EV EO M D. assert (L : forall k s', m_subWallets w' !! k = Some s' -> exists s, m_subWallets w !! k = Some s /\ moves s' s).
  { intros k s' E. specialize (M k). rewrite E in M. inversion M; subst. eauto. }
  constructor; rewrite ?EV, ?EO; [apply D| | |apply D|].
  - intros k s' E. destruct (L k s' E) as (s & Es & -> & _). by apply (dn_live _ _ _ D).
  - intros k s' E. destruct (L k s' E) as (s & Es & _ & ->). by apply (dn_gone _ _ _ D).
  - intros k x Hx. destruct (dn_known _ _ _ D _ _ Hx) as [s Es]. specialize (M k). rewrite Es in M. inversion M; subst; eauto.
Qed.
Lemma moves_insert (k : PublicKey) (s s' : SubWallet) (m : gmap PublicKey SubWallet) : m !! k = Some s -> moves s' s -> forall j, option_Forall2 moves (<[k := s']> m !! j) (m !! j).
Proof.
  intros E M j. destruct (decide (j = k)) as [->|]; [rewrite lookup_insert_eq, E; by constructor|]. rewrite lookup_insert_ne by done. destruct (m !! j); by repeat constructor.
Qed.
Lemma lock_moves i s : moves (SubWallet_markInputAsLocked i s) s.
Proof.
  unfold SubWallet_markInputAsLocked. destruct (find_erase _ _) as [[x rest]|] eqn:E; [|done]. apply find_erase_perm in E. split; [|done]. simpl.
  rewrite E, app_assoc, (Permutation_app_comm _ [x]). done.
Qed.
Lemma cancel_moves cs s : Forall (fun x => wi_spendHeight x = 0) (m_lockedInputs s) -> moves (SubWallet_removeCancelledTransactions cs s) s.
Proof.
  intros F. split; [|done]. simpl. rewrite <- app_assoc. apply Permutation_app_head.
  assert (E : set_spendHeight 0 <$> filter (fun i => wi_parentTransactionHash i ∈ cs) (m_lockedInputs s) = filter (fun i => wi_parentTransactionHash i ∈ cs) (m_lockedInputs s)).
  { etransitivity; [|apply list_fmap_id]. apply Forall_fmap_ext_1, Forall_forall. intros x [_ Hx]%list_elem_of_filter. rewrite Forall_forall in F. specialize (F x Hx). destruct x. simpl in *. by rewrite F. }
  rewrite E. apply filter_app_complement.
Qed.

Lemma denotes_cancel pruned c cs w w' : chain_wf c -> denotes pruned c w -> removeCancelledTransactions cs w = Ok w' -> denotes pruned c w'.
Proof.
  intros W D E. unfold removeCancelledTransactions, throwIfViewWallet in E. inv_ok. subst w'. apply (denotes_moves _ _ w); [done..| |done].
  intros k. simpl. rewrite lookup_fmap. destruct (m_subWallets w !! k) as [s|] eqn:Es; constructor. apply cancel_moves, Forall_forall. intros x Hx.
  assert (Hl : x ∈ m_unspentInputs s ++ m_lockedInputs s) by set_solver. rewrite (dn_live _ _ _ D _ _ Es) in Hl.
  apply list_elem_of_bind in Hl as (y & Hy & Hr). unfold live in Hy. destruct (spent_at _ _); [set_solver|]. apply list_elem_of_singleton in Hy as ->.
  by eapply received_block.
Qed.

Lemma follows_denotes d w pruned c : follows d w pruned c -> chain_wf c /\ denotes pruned c w.
Proof.
  induction 1 as [d w V O F|count sync d w pruned c ok d' w' _ [W D] E|d w pruned c b ours d' w' _ [W D] W' Hp Hk E|i k d w pruned c w' _ [W D] E
    |status d w pruned c w' _ [W D] E|tx d w pruned c _ [W D]|x k d w pruned c _ [W D]|sk h d w pruned c _ [W D]].
  - split; [apply chain_wf_nil|]. constructor; [done| | | |].
    + intros k s E. destruct (F k s E) as (-> & -> & _). done.
    + intros k s E. destruct (F k s E) as (_ & _ & ->). done.
    + intros i k. rewrite O, lookup_empty. split; [done|]. intros (x & Hx & _). by apply elem_of_nil in Hx.
    + intros k x Hx. by apply elem_of_nil in Hx.
  - split; [done|]. unfold downloadBlocks in E. repeat case_match; simplify_eq; try done.
    apply (denotes_moves _ _ w); [done..| |done]. intros k. simpl. rewrite lookup_fmap. destruct (m_subWallets w !! k); constructor.
    unfold SubWallet_convertSyncTimestampToHeight. by case_match.
  - split; [done|]. destruct (complete_needs _ _ _ _ _ _ E) as [Hd Hc].
    destruct (complete_refines skipCoinbaseTransactions pruned c d w b ours D W W' Hp Hk Hd Hc) as (d2 & w2 & E2 & _ & D2). rewrite E in E2. by simplify_eq.
  - split; [done|]. unfold markInputAsLocked, throwIfViewWallet, at_subWallet in E. inv_ok. destruct (m_subWallets w !! k) as [s|] eqn:Es; inv_ok. subst.
    apply (denotes_moves _ _ w); [done..| |done]. simpl. eapply moves_insert; [done|]. apply lock_moves.
  - split; [done|]. unfold checkLockedTransactions in E. inv_ok. case_bool_decide; [by simplify_eq|]. destruct (status v) as [[[? ?] cs]|]; [|by simplify_eq].
    case_bool_decide; [by simplify_eq|]. by eapply denotes_cancel.
  - split; [done|]. unfold addUnconfirmedTransaction. case_bool_decide; [done|]. by apply (denotes_same _ _ w).
  - split; [done|]. unfold storeUnconfirmedIncomingInput. destruct (m_subWallets w !! k) as [s|] eqn:Es; [|done].
    apply (denotes_moves _ _ w); [done..| |done]. simpl. by eapply moves_insert.
  - split; [done|]. by apply (denotes_same _ _ w).
Qed.
End following.

(** ** Scanning *)

Section scanning.
Context `{WalletCrypto} (w : SubWallets) (C : wallet_shape w) (V : m_isViewWallet w = false) (vk : SecretKey).

(** The input an output becomes. *)
Definition input_of (s : SubWallet) (h : Z) (tx : RawCoinbaseTransaction) (d : bytes) (i : Z) (o : WalletKeyOutput) : WalletInput :=
  {| wi_keyImage := generate_key_image (derive_public_key d i (m_publicSpendKey s)) (derive_secret_key d i (m_privateSpendKey s));
     wi_amount := wo_amount o; wi_blockHeight := h; wi_transactionPublicKey := rc_transactionPublicKey tx; wi_transactionIndex := i;
     wi_globalOutputIndex := wo_globalOutputIndex o; wi_key := wo_key o; wi_spendHeight := 0; wi_unlockTime := rc_unlockTime tx;
     wi_parentTransactionHash := rc_hash tx |}.

(** The inputs of a transaction: the outputs whose underived key is an address of the wallet. *)
Definition finds (h : Z) (tx : RawCoinbaseTransaction) (n : nat) (outs : list WalletKeyOutput) (k : PublicKey) (x : WalletInput) : Prop :=
  exists j o s, outs !! j = Some o /\ m_subWallets w !! k = Some s
    /\ k = underive_public_key (generate_key_derivation (rc_transactionPublicKey tx) vk) (Z.of_nat (n + j)) (wo_key o)
    /\ x = input_of s h tx (generate_key_derivation (rc_transactionPublicKey tx) vk) (Z.of_nat (n + j)) o.

Lemma scan_outputs_ok h tx outs : forall n, Z.of_nat (n + length outs) < 2 ^ 64 -> exists ours,
  outputs_loop w tx h (generate_key_derivation (rc_transactionPublicKey tx) vk) (Z.of_nat n) outs = Ok ours /\ (forall k x, (k, x) ∈ ours <-> finds h tx n outs k x).
Proof using C V.
  induction outs as [|o outs IH]; intros n Hn.
  { exists []. split; [done|]. intros k x. split; [by intros ?%elem_of_nil|]. by intros (j & o & s & E & _). }
  cbn [outputs_loop]. set (d := generate_key_derivation _ _) in *. set (k0 := underive_public_key d (Z.of_nat n) (wo_key o)). simpl in Hn.
  replace (u64 (Z.of_nat n + 1)) with (Z.of_nat (S n)) by (rewrite wrap_small by width_solve; lia). destruct (IH (S n) ltac:(lia)) as (ours & Eo & Ho).
  assert (St : forall k x, finds h tx n (o :: outs) k x <-> (exists s, k = k0 /\ m_subWallets w !! k = Some s /\ x = input_of s h tx d (Z.of_nat n) o) \/ finds h tx (S n) outs k x).
  { intros k x. split.
    - intros ([|j] & o' & s & E & Es & Ek & Ex); simpl in E; [injection E as <-; rewrite Nat.add_0_r in *; left; eauto|right].
      exists j, o', s. rewrite Nat.add_succ_comm. done.
    - intros [(s & -> & Es & ->)|(j & o' & s & E & Es & Ek & Ex)]; [exists 0%nat, o, s; by rewrite Nat.add_0_r|].
      exists (S j), o', s. by rewrite <- Nat.add_succ_comm. }
  case_bool_decide as Hk.
  - apply (ws_keys _ C) in Hk as [s Es]. unfold getTxInputKeyImage. rewrite Es. okbind. rewrite Eo. okbind. eexists. split; [done|].
    intros k x. rewrite elem_of_cons, St, Ho. unfold SubWallet_getTxInputKeyImage. rewrite V. cbn [negb]. split; (intros [E|?]; [left|by right]).
    + injection E as -> ->. exists s. done.
    + destruct E as (s' & -> & Es' & ->). by simplify_eq.
  - exists ours. split; [done|]. intros k x. rewrite St, Ho. split; [by right|]. intros [(s & -> & Es & _)|?]; [|done]. exfalso. apply Hk, (ws_keys _ C). eauto.
Qed.

Lemma transactions_outputs_ok h txs : Forall (fun tx => Z.of_nat (length (rc_keyOutputs tx)) < 2 ^ 64) txs -> exists ours,
  transactions_outputs vk w h txs = Ok ours /\ (forall k x, (k, x) ∈ ours <-> exists tx, tx ∈ txs /\ finds h tx 0 (rc_keyOutputs tx) k x).
Proof using C V.
  induction 1 as [|tx txs Hl F (ours & Eo & Ho)]; [exists []; split; [done|]; set_solver|]. cbn [transactions_outputs].
  destruct (scan_outputs_ok h tx (rc_keyOutputs tx) 0 Hl) as (l & El & Hx). change (Z.of_nat 0) with 0 in El. unfold processTransactionOutputs. rewrite El. okbind. rewrite Eo. okbind.
  eexists. split; [done|]. intros k x. rewrite elem_of_app, Ho, Hx. set_solver.
Qed.
End scanning.

(** ** The queue of processed blocks *)

Lemma insert_arrival_head x (l : list SemiProcessedBlock) : Forall (fun y => x.2 < y.2) l -> insert_by_arrival x l = x :: l.
Proof. destruct l as [|y l]; [done|]. intros F. inversion F; subst. simpl. by rewrite (proj2 (Z.leb_le _ _)) by lia. Qed.
Lemma insert_arrival_perm x l : insert_by_arrival x l ≡ₚ x :: l.
Proof. induction l as [|y l IH]; [done|]. simpl. case_match; [done|]. rewrite IH. by rewrite Permutation_swap. Qed.
Lemma processed_queue_perm l : processed_queue l ≡ₚ l.
Proof. induction l as [|x l IH]; [done|]. simpl. by rewrite insert_arrival_perm, IH. Qed.
Lemma insert_arrival_sorted x l : StronglySorted (fun a b => a.2 <= b.2) l -> StronglySorted (fun a b => a.2 <= b.2) (insert_by_arrival x l).
Proof.
  induction 1 as [|y l S IH F]; [repeat constructor|]. simpl. destruct (Z.leb_spec x.2 y.2).
  - constructor; [by constructor|]. constructor; [done|]. eapply Forall_impl; [exact F|]. simpl. lia.
  - constructor; [done|]. rewrite insert_arrival_perm. constructor; [lia|done].
Qed.
Lemma processed_queue_sorted l : StronglySorted (fun a b => a.2 <= b.2) (processed_queue l).
Proof. induction l; [constructor|]. by apply insert_arrival_sorted. Qed.

Lemma sorted_unique (l1 l2 : list SemiProcessedBlock) : l1 ≡ₚ l2 -> StronglySorted (fun a b => a.2 <= b.2) l1 -> StronglySorted (fun a b => a.2 < b.2) l2 -> l1 = l2.
Proof.
  revert l1. induction l2 as [|y l2 IH]; intros l1 P S1 S2; [by apply Permutation_nil_r in P|]. destruct l1 as [|x l1]; [by apply Permutation_nil_l in P|].
  inversion S1 as [|? ? S1' F1]; subst. inversion S2 as [|? ? S2' F2]; subst. rewrite Forall_forall in F1, F2.
  assert (x = y) as ->.
  { assert (Hx : x ∈ y :: l2) by (rewrite <- P; set_solver). assert (Hy : y ∈ x :: l1) by (rewrite P; set_solver).
    apply elem_of_cons in Hx as [?|Hx]; [done|]. apply elem_of_cons in Hy as [?|Hy]; [done|]. apply F2 in Hx. apply F1 in Hy. lia. }
  f_equal. apply IH; [by apply Permutation_cons_inv in P|done|done].
Qed.

(** ** Properties *)

(** C10: A wallet that started without inputs and followed the blocks of a daemon, through forks above the pruned height and
    its own transactions, holds what its chain says, as long as no scanned chain gives it the same key image twice or spends one
    before it is received ([chain_wf], in [follows]): an address has as unspent or locked exactly the inputs
    the chain gives to it and does not spend, as spent those it spends above the pruned height, and the wallet
    knows exactly the key images of what it received. *)
Theorem wallet_follows_chain skip d w pruned c k s : follows skip d w pruned c -> m_subWallets w !! k = Some s ->
  m_unspentInputs s ++ m_lockedInputs s ≡ₚ filter (fun x => spent_at c (wi_keyImage x) = None) (received k c)
  /\ m_spentInputs s ≡ₚ received k c ≫= gone pruned c
  /\ (forall i, getKeyImageOwner i w = Some k <-> exists x, x ∈ received k c /\ wi_keyImage x = i).
Proof.
  intros F Es. destruct (follows_denotes _ _ _ _ _ F) as [_ D]. split_and!; [|by apply (dn_gone _ _ _ D)|intros i; apply (dn_owners _ _ _ D)].
  rewrite (dn_live _ _ _ D _ _ Es), filter_as_bind. apply bind_perm_ext. intros x _. unfold live. destruct (spent_at _ _); by case_decide.
Qed.

(** C19: The next block always completes: when it extends the chain the wallet followed, or a prefix of it
    that is not below the pruned height, completing it neither throws nor goes wrong, and leads to
    the chain cut at the fork and extended with the block. *)
Theorem next_block_completes skip d w pruned c b ours : follows skip d w pruned c -> chain_wf (next_chain d c (b, ours)) -> pruned < wb_blockHeight b ->
  Forall (fun x => is_Some (m_subWallets w !! x.1)) ours -> m_storedBlocks d <> [] -> (skip = true \/ is_Some (wb_coinbaseTransaction b)) ->
  exists d' w', completeBlockProcessing skip b ours (d, w) = Ok (d', w') /\ getHeight d' = wb_blockHeight b
    /\ follows skip d' w' (next_pruned pruned (wb_blockHeight b)) (next_chain d c (b, ours)).
Proof.
  intros F W Hp Hk Hd Hc. destruct (follows_denotes _ _ _ _ _ F) as [W0 D]. destruct (complete_refines skip pruned c d w b ours D W0 W Hp Hk Hd Hc) as (d' & w' & E & Hh & _).
  exists d', w'. split_and!; [done|done|]. by eapply follows_block.
Qed.

(** C18: Scanning a block finds what was paid to the wallet: every output whose one-time key was derived for
    one of its addresses becomes an input of that address, with its amount and the key image that
    spends it, and nothing else is found. *)
Theorem scan_finds_payments `{WalletCrypto} deleting fresh skip vk w b :
  (forall d i k, underive_public_key d i (derive_public_key d i k) = k) ->
  wallet_reachable deleting fresh w -> m_isViewWallet w = false ->
  Forall (fun tx => Z.of_nat (length (rc_keyOutputs tx)) < 2 ^ 64) (scanned_transactions skip b) ->
  exists ours, processBlockOutputs skip vk w b = Ok ours
    /\ (forall k s tx j o, m_subWallets w !! k = Some s -> tx ∈ scanned_transactions skip b -> rc_keyOutputs tx !! j = Some o ->
         let d := generate_key_derivation (rc_transactionPublicKey tx) vk in
         wo_key o = derive_public_key d (Z.of_nat j) k -> (k, input_of s (wb_blockHeight b) tx d (Z.of_nat j) o) ∈ ours)
    /\ (forall k x, (k, x) ∈ ours -> is_Some (m_subWallets w !! k) /\ wi_blockHeight x = wb_blockHeight b /\ wi_spendHeight x = 0
         /\ exists tx, tx ∈ scanned_transactions skip b /\ finds w vk (wb_blockHeight b) tx 0 (rc_keyOutputs tx) k x).
Proof.
  intros U R V F. pose proof (reachable_shape _ _ _ R) as C.
  destruct (transactions_outputs_ok w C V vk (wb_blockHeight b) _ F) as (ours & E & Ho). exists ours. split_and!; [done| |].
  - intros k s tx j o Es Ht Hj d Hk. apply Ho. exists tx. split; [done|]. exists j, o, s. split_and!; [done|done| |done]. simpl. fold d. by rewrite Hk, U.
  - intros k x Hx. apply Ho in Hx as (tx & Ht & Hf). split_and!; [|..|eauto]; destruct Hf as (j & o & s & _ & Es & _ & ->); eauto.
Qed.

(** Whatever order the worker threads deliver the blocks of a chunk in, they are completed in the order
    they arrived from the daemon. *)
Theorem chunk_order skip (chunk results : list SemiProcessedBlock) st :
  StronglySorted (fun a b => a.2 < b.2) chunk -> results ≡ₚ chunk ->
  complete_chunk skip results st = foldM (fun st x => completeBlockProcessing skip x.1.1 x.1.2 st) st chunk.
Proof.
  intros S P. unfold complete_chunk. f_equal. apply sorted_unique; [by rewrite processed_queue_perm|apply processed_queue_sorted|done].
Qed.

(** A synchronised wallet asks for blocks again and again and stores the hash of the daemon's top block each
    time: the check for a repeated hash looks at the oldest one, so that [n] more times of the
    same hash leave only copies of it among the newest [n] (of fifty), and the recent blocks a fork would be
    found with are lost. *)
Theorem top_hash_repeated n hash height s : length (m_lastKnownBlockHashes s) = LAST_KNOWN_BLOCK_HASHES_SIZE -> (n <= LAST_KNOWN_BLOCK_HASHES_SIZE)%nat ->
  hash ∉ drop (LAST_KNOWN_BLOCK_HASHES_SIZE - n) (m_lastKnownBlockHashes s) ->
  m_lastKnownBlockHashes (Nat.iter n (storeBlockHash hash height) s) = replicate n hash ++ take (LAST_KNOWN_BLOCK_HASHES_SIZE - n) (m_lastKnownBlockHashes s).
Proof.
  intros Hl. induction n as [|n IH]; intros Hn Hh; [rewrite Nat.sub_0_r, take_ge by lia; done|]. set (l := m_lastKnownBlockHashes s) in *.
  specialize (IH ltac:(lia)). rewrite Nat.iter_succ. unfold LAST_KNOWN_BLOCK_HASHES_SIZE in *.
  destruct (lookup_lt_is_Some_2 l (50 - S n)%nat) as [y Hy]; [lia|].
  assert (Et : take (50 - n) l = take (50 - S n) l ++ [y]).
  { replace (50 - n)%nat with (S (50 - S n))%nat by lia. by apply take_S_r. }
  assert (Ed : drop (50 - S n) l = y :: drop (50 - n) l) by (replace (50 - n)%nat with (S (50 - S n))%nat by lia; by apply drop_S).
  rewrite Ed in Hh. apply not_elem_of_cons in Hh as [Ny Hh]. specialize (IH Hh). rewrite Et, app_assoc in IH. rename IH into IH'.
  unfold storeBlockHash at 1. rewrite IH', last_snoc, bool_decide_eq_false_2 by congruence. cbn [m_lastKnownBlockHashes].
  assert (Hlen : length (hash :: (replicate n hash ++ take (50 - S n) l) ++ [y]) = 51%nat) by (simpl; rewrite !length_app, length_replicate, length_take; simpl; lia).
  rewrite Hlen. simpl Nat.ltb. cbn [Nat.sub]. rewrite app_comm_cons, take_app_le, take_ge; [done|..]; simpl in *; rewrite ?length_app in *; simpl in *; lia.
Qed.

(** ** Witnesses

    Block 1 pays the imported address of [wallet_1]; block 2 spends the payment; a fork replaces block 2 by one that does not. *)
Definition pay_tx : RawCoinbaseTransaction :=
  {| rc_keyOutputs := [{| wo_key := key_b ++ [0; 5]; wo_amount := 7000; wo_globalOutputIndex := Some 3 |}]; rc_hash := [21]; rc_transactionPublicKey := [5];
     rc_unlockTime := 0 |}.
Definition spend_tx : RawTransaction :=
  {| rt_base := {| rc_keyOutputs := []; rc_hash := [22]; rc_transactionPublicKey := [6]; rc_unlockTime := 0 |}; rt_paymentID := [];
     rt_keyInputs := [{| ki_amount := 7000; outputIndexes := []; keyImage := 1 :: key_b ++ [0; 5] |}] |}.
Definition sample_block (height : Z) (hash : Hash) (coinbase : option RawCoinbaseTransaction) (txs : list RawTransaction) : WalletBlockInfo :=
  {| wb_coinbaseTransaction := coinbase; wb_transactions := txs; wb_blockHeight := height; wb_blockHash := hash; wb_blockTimestamp := 0 |}.
Definition block_1 := sample_block 1 [101] (Some pay_tx) [].
Definition block_2 := sample_block 2 [102] None [spend_tx].
Definition block_2' := sample_block 2 [103] None [].
Definition scan (b : WalletBlockInfo) : BlockInputsAndOwners := ok_or [] (@processBlockOutputs toy_crypto false (replicate 32 9) wallet_1 b).
Definition sync_0 : BlockDownloader := set_stored (with_index 0 [block_1; block_2; block_2']) 3 (new_BlockDownloader 0 0).
Definition sync_1 := ok_or (sync_0, wallet_1) (completeBlockProcessing true block_1 (scan block_1) (sync_0, wallet_1)).
Definition sync_2 := ok_or (sync_0, wallet_1) (completeBlockProcessing true block_2 (scan block_2) sync_1).
Definition sync_3 := ok_or (sync_0, wallet_1) (completeBlockProcessing true block_2' (scan block_2') sync_2).
Definition chain_1 := next_chain sync_0 [] (block_1, scan block_1).
Definition chain_2 := next_chain sync_1.1 chain_1 (block_2, scan block_2).
Definition chain_3 := next_chain sync_2.1 chain_2 (block_2', scan block_2').

Lemma follows_0 : follows true sync_0 wallet_1 (-1) [].
Proof. apply follows_start; by_compute. Qed.
Lemma chain_1_wf : chain_wf chain_1.
Proof. apply (chain_wf_snoc [] (block_1, scan block_1)); [apply chain_wf_nil|by_compute..]. Qed.
Lemma chain_2_wf : chain_wf chain_2.
Proof. apply (chain_wf_snoc chain_1 (block_2, scan block_2)); [apply chain_1_wf|by_compute..]. Qed.
Lemma chain_3_eq : chain_3 = chain_1 ++ [(block_2', scan block_2')].
Proof. by vm_compute. Qed.
Lemma chain_3_wf : chain_wf chain_3.
Proof. rewrite chain_3_eq. apply chain_wf_snoc; [apply chain_1_wf|by_compute..]. Qed.
Lemma complete_1 : completeBlockProcessing true block_1 (scan block_1) (sync_0, wallet_1) = Ok (sync_1.1, sync_1.2).
Proof. by vm_compute. Qed.
Lemma complete_2 : completeBlockProcessing true block_2 (scan block_2) (sync_1.1, sync_1.2) = Ok (sync_2.1, sync_2.2).
Proof. by vm_compute. Qed.
Lemma complete_3 : completeBlockProcessing true block_2' (scan block_2') (sync_2.1, sync_2.2) = Ok (sync_3.1, sync_3.2).
Proof. by vm_compute. Qed.
Lemma follows_2 : follows true sync_2.1 sync_2.2 (-1) chain_2.
Proof.
  assert (F1 : follows true sync_1.1 sync_1.2 (-1) chain_1).
  { apply (follows_block true sync_0 wallet_1 (-1) [] block_1 (scan block_1)); [apply follows_0|apply chain_1_wf|by vm_compute|by_compute|apply complete_1]. }
  apply (follows_block true sync_1.1 sync_1.2 (-1) chain_1 block_2 (scan block_2)); [apply F1|apply chain_2_wf|by vm_compute|by_compute|apply complete_2].
Qed.
Lemma follows_3 : follows true sync_3.1 sync_3.2 (-1) chain_3.
Proof.
  apply (follows_block true sync_2.1 sync_2.2 (-1) chain_2 block_2' (scan block_2')); [apply follows_2|apply chain_3_wf|by vm_compute|by_compute|apply complete_3].
Qed.
Definition final_b : SubWallet := default (new_SubWallet [] [] [] 0 0 false) (m_subWallets sync_3.2 !! key_b).
Lemma final_b_found : m_subWallets sync_3.2 !! key_b = Some final_b.
Proof. by vm_compute. Qed.
Lemma wallet_follows_chain_witness :
  m_unspentInputs final_b ++ m_lockedInputs final_b ≡ₚ filter (fun x => spent_at chain_3 (wi_keyImage x) = None) (received key_b chain_3)
  /\ m_spentInputs final_b ≡ₚ received key_b chain_3 ≫= gone (-1) chain_3
  /\ (forall i, getKeyImageOwner i sync_3.2 = Some key_b <-> exists x, x ∈ received key_b chain_3 /\ wi_keyImage x = i).
Proof. exact (wallet_follows_chain true sync_3.1 sync_3.2 (-1) chain_3 key_b final_b follows_3 final_b_found). Defined.
(** The condition on key images is needed.  Block 1 pays the one-time key of [pay_tx]; another block pays the same key again; the
    next one spends it.  All three complete, and the wallet goes on to count an input whose key image its chain has spent. *)
Definition pay_again : RawCoinbaseTransaction :=
  {| rc_keyOutputs := [{| wo_key := key_b ++ [0; 5]; wo_amount := 9000; wo_globalOutputIndex := Some 4 |}]; rc_hash := [23]; rc_transactionPublicKey := [5];
     rc_unlockTime := 0 |}.
Definition block_r := sample_block 2 [104] (Some pay_again) [].
Definition block_s := sample_block 3 [105] None [spend_tx].
Definition sync_r := ok_or (sync_0, wallet_1) (completeBlockProcessing true block_r (scan block_r) sync_1).
Definition sync_s := ok_or (sync_0, wallet_1) (completeBlockProcessing true block_s (scan block_s) sync_r).
Definition chain_r := next_chain sync_1.1 chain_1 (block_r, scan block_r).
Definition chain_s := next_chain sync_r.1 chain_r (block_s, scan block_s).
Theorem repeated_payment_stays :
  completeBlockProcessing true block_r (scan block_r) sync_1 = Ok sync_r /\ completeBlockProcessing true block_s (scan block_s) sync_r = Ok sync_s
  /\ exists s x, m_subWallets sync_s.2 !! key_b = Some s /\ x ∈ m_unspentInputs s /\ wi_amount x = 9000 /\ spent_at chain_s (wi_keyImage x) = Some 3.
Proof.
  split_and!; [by vm_compute|by vm_compute|]. eexists _, (default (sample_input 0 0) (snd <$> head (scan block_r))).
  split_and!; [by vm_compute|by_compute|by vm_compute|by vm_compute].
Qed.

Lemma fork_keys : Forall (fun x => is_Some (m_subWallets sync_2.2 !! x.1)) (scan block_2').
Proof. by_compute. Qed.
Lemma fork_stored : m_storedBlocks sync_2.1 <> [].
Proof. by vm_compute. Qed.
Lemma next_block_completes_witness : exists d' w', completeBlockProcessing true block_2' (scan block_2') (sync_2.1, sync_2.2) = Ok (d', w')
  /\ getHeight d' = wb_blockHeight block_2' /\ follows true d' w' (next_pruned (-1) 2) chain_3.
Proof.
  exact (next_block_completes true sync_2.1 sync_2.2 (-1) chain_2 block_2' (scan block_2') follows_2 chain_3_wf ltac:(by vm_compute) fork_keys fork_stored
    (or_introl eq_refl)).
Defined.
Lemma toy_underive d i k : underive_public_key (WalletCrypto := toy_crypto) d i (derive_public_key (WalletCrypto := toy_crypto) d i k) = k.
Proof. simpl. rewrite length_app. simpl. rewrite take_app_le by lia. apply take_ge. lia. Qed.
Lemma wallet_2_scan_sizes : Forall (fun tx => Z.of_nat (length (rc_keyOutputs tx)) < 2 ^ 64) (scanned_transactions false block_1).
Proof. by_compute. Qed.
Lemma scan_finds_payments_witness : exists ours, @processBlockOutputs toy_crypto false (replicate 32 9) wallet_2 block_1 = Ok ours
    /\ (forall k s tx j o, m_subWallets wallet_2 !! k = Some s -> tx ∈ scanned_transactions false block_1 -> rc_keyOutputs tx !! j = Some o ->
         let d := rc_transactionPublicKey tx in wo_key o = k ++ [Z.of_nat j] ++ d -> (k, @input_of toy_crypto s 1 tx d (Z.of_nat j) o) ∈ ours)
    /\ (forall k x, (k, x) ∈ ours -> is_Some (m_subWallets wallet_2 !! k) /\ wi_blockHeight x = 1 /\ wi_spendHeight x = 0
         /\ exists tx, tx ∈ scanned_transactions false block_1 /\ @finds toy_crypto wallet_2 (replicate 32 9) 1 tx 0 (rc_keyOutputs tx) k x).
Proof.
  exact (@scan_finds_payments toy_crypto true false false (replicate 32 9) wallet_2 block_1 toy_underive (wallet_2_reachable true false) eq_refl wallet_2_scan_sizes).
Defined.
Definition chunk : list SemiProcessedBlock := [(block_1, scan block_1, 0); (block_2, scan block_2, 1); (block_2', scan block_2', 2)].
Lemma chunk_sorted : StronglySorted (fun a b => a.2 < b.2) chunk.
Proof. repeat constructor. Qed.
Lemma chunk_order_witness : complete_chunk true (reverse chunk) (sync_0, wallet_1)
  = foldM (fun st x => completeBlockProcessing true x.1.1 x.1.2 st) (sync_0, wallet_1) chunk.
Proof. exact (chunk_order true chunk (reverse chunk) (sync_0, wallet_1) chunk_sorted (reverse_Permutation chunk)). Defined.
Definition full_status : SynchronizationStatus := foldl (fun s h => storeBlockHash [h] h s) new_SynchronizationStatus (seqZ 1 60).
Lemma full_no_repeat : [60] ∉ drop (LAST_KNOWN_BLOCK_HASHES_SIZE - 49) (m_lastKnownBlockHashes full_status).
Proof. by_compute. Qed.
Lemma top_hash_repeated_witness : m_lastKnownBlockHashes (Nat.iter 49 (storeBlockHash [60] 60) full_status)
  = replicate 49 [60] ++ take (LAST_KNOWN_BLOCK_HASHES_SIZE - 49) (m_lastKnownBlockHashes full_status).
Proof. exact (top_hash_repeated 49 [60] 60 full_status ltac:(by vm_compute) ltac:(by vm_compute; lia) full_no_repeat). Defined.
