(* ===== verification/ValidateParameters.v ===== *)
(** * ValidateParameters: what [errors/ValidateParameters.cpp] checks against a wallet

    The checks that stand before a transaction is built: keys, mixin, amounts, and the
    addresses that must belong to the wallet.  The checks of addresses alone are in
    [Addresses]. *)

From Stdlib Require Import ZArith Lia.
From stdpp Require Import base tactics list numbers gmap strings.
From S2P Require Import Prelude Base58 Config Types Serializer TxSerialization WalletUtil Addresses SubWallet SubWallets WalletInvariant.

Local Open Scope Z_scope.

(** [sc_check] answers zero for a scalar that is reduced. *)
Definition validatePrivateKey (sc_check : SecretKey -> Z) (privateViewKey : SecretKey) : ErrorCode :=
  if sc_check privateViewKey =? 0 then SUCCESS else INVALID_PRIVATE_KEY.

Definition validateMixin (mixin height : Z) : ErrorCode :=
  let '(minMixin, maxMixin, _) := getMixinAllowableRange height in
  if mixin <? minMixin then MIXIN_TOO_SMALL
  else if maxMixin <? mixin then MIXIN_TOO_BIG
  else SUCCESS.

Section parameters.
Context `{WalletCrypto}.

Definition validatePublicKey (publicKey : PublicKey) : ErrorCode :=
  if check_key publicKey then SUCCESS else INVALID_PUBLIC_KEY.

Fixpoint in_wallet_loop (addresses : list bytes) (w : SubWallets) : outcome ErrorCode :=
  match addresses with
  | [] => Ok SUCCESS
  | address :: rest =>
      '(spendKey, _) ← addressToKeys cn_fast_hash check_key address;
      if bool_decide (spendKey ∈ m_publicSpendKeys w) then in_wallet_loop rest w else Ok ADDRESS_NOT_IN_WALLET
  end.
Definition validateOurAddresses (addresses : list bytes) (w : SubWallets) : outcome ErrorCode :=
  and_then (validateAddresses cn_fast_hash check_key addresses false) (in_wallet_loop addresses w).

Definition validateAmount (now : Z) (destinations : list (bytes * Z)) (fee : Z) (subWalletsToTakeFrom : list bytes) (w : SubWallets)
    (currentHeight : Z) : outcome ErrorCode :=
  let minFee := getMinimumFee currentHeight in
  if fee <? minFee then Ok FEE_TOO_SMALL
  else
    keys ← addressesToSpendKeys cn_fast_hash check_key subWalletsToTakeFrom;
    '(availableBalance, _) ← getBalance now keys (bool_decide (subWalletsToTakeFrom = [])) currentHeight w;
    let totalAmount := u64 (getTransactionSum destinations + fee) in
    Ok (if sumWillOverflow (fee :: (snd <$> destinations)) then WILL_OVERFLOW
        else if availableBalance <? totalAmount then NOT_ENOUGH_BALANCE
        else SUCCESS).

Definition validateFusionTransaction (mixin : Z) (subWalletsToTakeFrom : list bytes) (destinationAddress : bytes) (w : SubWallets)
    (currentHeight : Z) : outcome ErrorCode :=
  and_then (Ok (validateMixin mixin currentHeight))
    (and_then (validateOurAddresses subWalletsToTakeFrom w)
       (and_then (validateOurAddresses [destinationAddress] w) (Ok SUCCESS))).

(** [unlockTime] is not looked at. *)
Definition validateTransaction (now : Z) (destinations : list (bytes * Z)) (mixin fee : Z) (paymentID : bytes) (subWalletsToTakeFrom : list bytes)
    (changeAddress : bytes) (w : SubWallets) (unlockTime currentHeight : Z) : outcome ErrorCode :=
  and_then (validateDestinations cn_fast_hash check_key destinations)
    (and_then (validateIntegratedAddresses cn_fast_hash destinations paymentID)
       (and_then (validateOurAddresses subWalletsToTakeFrom w)
          (and_then (validateAmount now destinations fee subWalletsToTakeFrom w currentHeight)
             (and_then (Ok (validateMixin mixin currentHeight))
                (and_then (Ok (validatePaymentID paymentID))
                   (and_then (validateOurAddresses [changeAddress] w) (Ok SUCCESS))))))).

(** ** What is accepted, stated without the code *)

(** A standard address of the wallet. *)
Definition our_address (w : SubWallets) (address : bytes) : Prop :=
  validateAddress cn_fast_hash check_key false address = Ok SUCCESS
  /\ exists spendKey viewKey, addressToKeys cn_fast_hash check_key address = Ok (spendKey, viewKey) /\ spendKey ∈ m_publicSpendKeys w.

(** The payment ID given and those of the integrated addresses are one. *)
Definition one_payment_id (destinations : list (bytes * Z)) (paymentID : bytes) : Prop :=
  exists pid, (paymentID = [] \/ paymentID = pid)
    /\ forall address amount, (address, amount) ∈ destinations -> Z.of_nat (length address) = integratedAddressLength ->
         exists actual, extractIntegratedAddressData cn_fast_hash address = Ok (actual, pid).

Definition affordable (now : Z) (destinations : list (bytes * Z)) (fee : Z) (sources : list bytes) (w : SubWallets) (height : Z) : Prop :=
  exists keys available locked, addressesToSpendKeys cn_fast_hash check_key sources = Ok keys
    /\ getBalance now keys (bool_decide (sources = [])) height w = Ok (available, locked)
    /\ sumZ (snd <$> destinations) + fee <= available.

Record transaction_ok (now : Z) (destinations : list (bytes * Z)) (mixin fee : Z) (paymentID : bytes) (sources : list bytes) (change : bytes)
    (w : SubWallets) (height : Z) : Prop := {
  ok_some : destinations <> [];
  ok_amounts : Forall (fun d => d.2 <> 0) destinations;
  ok_addresses : Forall (fun d => validateAddress cn_fast_hash check_key true d.1 = Ok SUCCESS) destinations;
  ok_payment_ids : one_payment_id destinations paymentID;
  ok_sources : Forall (our_address w) sources;
  ok_fee : getMinimumFee height <= fee;
  ok_affordable : affordable now destinations fee sources w height;
  ok_mixin : (getMixinAllowableRange height).1.1 <= mixin <= (getMixinAllowableRange height).1.2;
  ok_payment_id : paymentID = [] \/ (length paymentID = 64%nat /\ forallb is_alnum paymentID = true);
  ok_change : our_address w change }.

(** ** Each check decides its condition *)

Lemma validateAddresses_success b l : validateAddresses cn_fast_hash check_key l b = Ok SUCCESS <->
  Forall (fun a => validateAddress cn_fast_hash check_key b a = Ok SUCCESS) l.
Proof. induction l as [|a l IH]; simpl; [naive_solver|]. rewrite and_then_success, IH, Forall_cons. done. Qed.

Lemma in_wallet_success w l : in_wallet_loop l w = Ok SUCCESS <->
  Forall (fun a => exists s v, addressToKeys cn_fast_hash check_key a = Ok (s, v) /\ s ∈ m_publicSpendKeys w) l.
Proof.
  induction l as [|a l IH]; simpl; [naive_solver|]. rewrite Forall_cons, <- IH.
  destruct (addressToKeys cn_fast_hash check_key a) as [[s v]| |]; okbind; [|naive_solver..]. case_bool_decide; naive_solver.
Qed.

Lemma our_addresses_success w l : validateOurAddresses l w = Ok SUCCESS <-> Forall (our_address w) l.
Proof. unfold validateOurAddresses, our_address. rewrite and_then_success, validateAddresses_success, in_wallet_success, Forall_and. done. Qed.

Lemma zero_amount_none l : has_zero_amount l = false <-> Forall (fun d => d.2 <> 0) l.
Proof.
  induction l as [|[a z] l IH]; simpl; [naive_solver|]. rewrite Forall_cons, <- IH. simpl. destruct (Z.eqb_spec z 0); naive_solver.
Qed.

Lemma destinations_success l : validateDestinations cn_fast_hash check_key l = Ok SUCCESS <->
  l <> [] /\ Forall (fun d => d.2 <> 0) l /\ Forall (fun d => validateAddress cn_fast_hash check_key true d.1 = Ok SUCCESS) l.
Proof.
  unfold validateDestinations. case_bool_decide; [naive_solver|]. rewrite <- zero_amount_none. destruct (has_zero_amount l); [naive_solver|].
  rewrite validateAddresses_success, Forall_fmap. naive_solver.
Qed.

Lemma extracted_id_length address actual pid : extractIntegratedAddressData cn_fast_hash address = Ok (actual, pid) -> length pid = 64%nat.
Proof.
  unfold extractIntegratedAddressData. intros E. destruct (decode_addr cn_fast_hash address) as [d| |]; [|done..]. revert E. okbind. unfold substr_from, paymentIDLen.
  set (decoded := match d with Some (_, data) => data | None => [] end). destruct (Nat.ltb_spec (length decoded) 64); [done|]. okbind.
  destruct (fromBinaryArray_opt _ _ _) as [[addr|]| |]; okbind; [|done..]. destruct (getAccountAddressAsStr _ _ _); okbind; [|done..].
  intros [= _ <-]. rewrite length_take. lia.
Qed.

Lemma integrated_success l : forall paymentID, validateIntegratedAddresses cn_fast_hash l paymentID = Ok SUCCESS <-> one_payment_id l paymentID.
Proof.
  induction l as [|[a z] l IH]; intros paymentID; cbn [validateIntegratedAddresses].
  { split; [|done]. intros _. exists paymentID. split; [by right|]. set_solver. }
  destruct (Z.eqb_spec (Z.of_nat (length a)) integratedAddressLength) as [Hlen|Hlen]; simpl negb.
  2:{ rewrite IH. unfold one_payment_id. split; intros (pid & Hp & Hall); exists pid; (split; [done|]); intros ? ? Hin ?; [|apply (Hall _ amount); set_solver].
      apply elem_of_cons in Hin as [[= -> ->]|Hin]; [done|]. by apply (Hall _ amount). }
  unfold one_payment_id. destruct (extractIntegratedAddressData cn_fast_hash a) as [[act p]| |] eqn:E; okbind.
  2,3: split; [done|intros (pid & _ & Hall); destruct (Hall a z) as [? Hx]; [set_solver|done|congruence]].
  assert (Ha : p <> []) by (intros ->; by apply extracted_id_length in E). case_bool_decide as Hemp; [|case_bool_decide as Hdiff].
  - rewrite IH. split.
    + intros (pid & Hp & Hall). destruct Hp as [->| ->]; [done|]. exists pid. split; [by left|]. intros a' z' Hin ?.
      apply elem_of_cons in Hin as [[= -> ->]|Hin]; [by exists act|by apply (Hall _ z')].
    + intros (pid & Hp & Hall). destruct (Hall a z) as [? Hx]; [set_solver|done|]. rewrite E in Hx. injection Hx as -> ->. exists pid. split; [by right|].
      intros a' z' Hin ?. apply (Hall _ z'); set_solver.
  - split; [done|]. intros (pid & [?|Hp] & Hall); [done|]. destruct (Hall a z) as [? Hx]; [set_solver|done|]. rewrite E in Hx. congruence.
  - assert (paymentID = p) as -> by (destruct (decide (paymentID = p)); done). rewrite IH. split.
    + intros (pid & [?|<-] & Hall); [done|]. exists p. split; [by right|]. intros a' z' Hin ?.
      apply elem_of_cons in Hin as [[= -> ->]|Hin]; [by exists act|by apply (Hall _ z')].
    + intros (pid & [?|<-] & Hall); [done|]. exists p. split; [by right|]. intros a' z' Hin ?. apply (Hall _ z'); set_solver.
Qed.

Lemma mixin_success mixin height : validateMixin mixin height = SUCCESS <->
  (getMixinAllowableRange height).1.1 <= mixin <= (getMixinAllowableRange height).1.2.
Proof.
  unfold validateMixin. destruct (getMixinAllowableRange height) as [[lo hi] d]. simpl.
  destruct (Z.ltb_spec mixin lo); [split; [done|lia]|]. destruct (Z.ltb_spec hi mixin); split; (done || lia).
Qed.

Lemma payment_id_success pid : validatePaymentID pid = SUCCESS <-> pid = [] \/ (length pid = 64%nat /\ forallb is_alnum pid = true).
Proof.
  unfold validatePaymentID. case_bool_decide; [naive_solver|]. destruct (Z.eqb_spec (Z.of_nat (length pid)) 64); simpl negb; cbv iota.
  - destruct (forallb is_alnum pid); simpl; split; [intros _; right; split; lia || done|done|done|intros [|[]]; done].
  - split; [done|intros [|[]]; [done|lia]].
Qed.

Lemma balance_is_u64 now keys all height w available locked : getBalance now keys all height w = Ok (available, locked) -> is_u64 available.
Proof.
  unfold getBalance. intros E. apply (foldM_keeps (fun p => is_u64 p.1)) in E; [done| |by_compute].
  intros [u l] k [u' l'] _ F. destruct (at_subWallet w k) as [s| |]; [|done..]. revert F. okbind. destruct (SubWallet_getBalance now height s).
  intros [= <- <-]. by apply wrap_range.
Qed.

Lemma amount_success now destinations fee sources w height : is_u64 fee -> Forall (fun d => is_u64 d.2) destinations ->
  validateAmount now destinations fee sources w height = Ok SUCCESS <-> getMinimumFee height <= fee /\ affordable now destinations fee sources w height.
Proof.
  intros Hf Hd. unfold validateAmount, affordable. destruct (Z.ltb_spec fee (getMinimumFee height)); [naive_solver lia|].
  destruct (addressesToSpendKeys cn_fast_hash check_key sources) as [keys| |]; okbind; [|split; [done|by intros (_ & ? & ? & ? & ? & _)]..].
  destruct (getBalance now keys _ height w) as [[available locked]| |] eqn:Eb; okbind; [|split; [done|intros (_ & ? & ? & ? & [= <-] & E & _); by rewrite Eb in E]..].
  pose proof (balance_is_u64 _ _ _ _ _ _ _ Eb). rewrite sumWillOverflow_ok by (constructor; [done|by apply Forall_fmap]).
  rewrite getTransactionSum_ok, wrap_add_l, sumZ_cons. set (s := sumZ _).
  assert (0 <= s) by (apply sumZ_nonneg, Forall_fmap; eapply Forall_impl; [exact Hd|]; simpl; width_solve).
  destruct (Z.ltb_spec (fee + s) (2 ^ 64)) as [Hlt|Hge]; simpl negb; cbv iota.
  - rewrite wrap_small by width_solve. destruct (Z.ltb_spec available (s + fee)).
    + split; [done|]. intros (_ & k & a & l & [= <-] & Ea & ?). rewrite Eb in Ea. injection Ea as <- <-. lia.
    + split; [|done]. intros _. split; [done|]. exists keys, available, locked. split_and!; done.
  - split; [done|]. intros (_ & k & a & l & [= <-] & Ea & ?). rewrite Eb in Ea. injection Ea as <- <-. width_solve.
Qed.
End parameters.

(** ** Property *)

(** C30: The checks before a transaction is built accept exactly the parameters of the declarative
    specification: some destinations, none of amount zero, every address valid, one payment ID at most, sources and
    change in the wallet, an allowed fee and mixin, and amounts and fee whose true sum the spendable balance covers, so that
    no sum wraps. *)
Theorem parameters_decided `{WalletCrypto} now destinations mixin fee paymentID sources change w unlockTime height :
  is_u64 fee -> Forall (fun d => is_u64 d.2) destinations ->
  validateTransaction now destinations mixin fee paymentID sources change w unlockTime height = Ok SUCCESS
  <-> transaction_ok now destinations mixin fee paymentID sources change w height.
Proof.
  intros Hf Hd. unfold validateTransaction. rewrite !and_then_success, destinations_success, integrated_success, !our_addresses_success, amount_success by done.
  split.
  - intros ((? & ? & ?) & ? & ? & [? ?] & [= Hm] & [= Hp] & Hc & _). apply mixin_success in Hm. apply payment_id_success in Hp.
    rewrite Forall_singleton in Hc. constructor; done.
  - intros []. rewrite (proj2 (mixin_success _ _)), (proj2 (payment_id_success _)), Forall_singleton by done. split_and!; done.
Qed.

(** Keys that are added bytewise, as points are: a secret key is its own public key, and both ends
    derive the same output keys. *)
Definition key_add (a b : bytes) : bytes := zip_with (fun x y => (x + y) mod 256) a b.
Definition key_sub (a b : bytes) : bytes := zip_with (fun x y => (x - y) mod 256) a b.
Definition key_index (i : Z) : bytes := i mod 256 :: replicate 31 0.
Definition additive_crypto : WalletCrypto :=
  {| cn_fast_hash := pad_hash; check_key := any_key; secret_key_to_public_key := id; generate_key_derivation := key_add;
     derive_public_key := fun d i k => key_add k (key_add d (key_index i)); derive_secret_key := fun d i k => key_add k (key_add d (key_index i));
     underive_public_key := fun d i k => key_sub k (key_add d (key_index i)); generate_key_image := fun p s => key_add p (replicate 32 1) |}.

(** A wallet with one address that received some amounts, and the address of someone else. *)
Definition view_key : SecretKey := replicate 32 9.
Definition address_of (k : PublicKey) : bytes := ok_or [] (publicKeysToAddress pad_hash k view_key).
Definition funded_input (i amount : Z) : WalletInput :=
  let r := replicate 32 (20 + i) in
  let key := key_add key_a (key_add (key_add r view_key) (key_index i)) in
  {| wi_keyImage := key_add key (replicate 32 1); wi_amount := amount; wi_blockHeight := 5; wi_transactionPublicKey := r; wi_transactionIndex := i;
     wi_globalOutputIndex := Some (100 + i); wi_key := key; wi_spendHeight := 0; wi_unlockTime := 0; wi_parentTransactionHash := replicate 32 1 |}.
Definition funded_wallet (amounts : list Z) : SubWallets :=
  let w := @new_SubWallets additive_crypto 0 key_a view_key (address_of key_a) 0 false in
  ok_or w (foldM (fun w x => storeTransactionInput key_a x w) w (imap (fun i a => funded_input (Z.of_nat i) a) amounts)).

Lemma funded_accepted : @validateTransaction additive_crypto 0 [(address_of key_b, 4000)] 1 500000 [] [address_of key_a] (address_of key_a) (funded_wallet [3000; 600000]) 0 2600000 = Ok SUCCESS.
Proof. by vm_compute. Qed.
Lemma parameters_decided_witness : @transaction_ok additive_crypto 0 [(address_of key_b, 4000)] 1 500000 [] [address_of key_a] (address_of key_a) (funded_wallet [3000; 600000]) 2600000.
Proof.
  exact (proj1 (@parameters_decided additive_crypto 0 [(address_of key_b, 4000)] 1 500000 [] [address_of key_a] (address_of key_a) (funded_wallet [3000; 600000]) 0 2600000
    ltac:(by_compute) ltac:(by_compute)) funded_accepted).
Defined.
