(* ===== verification/Transfer.v ===== *)
(** * Transfer: [walletbackend/Transfer.cpp], how the wallet makes and sends a transaction

    Choosing inputs, hiding each among ring members the daemon offers, paying the destinations
    in denominations, proof of work, signatures, the checks before the transaction is relayed,
    and what the wallet records afterwards.

    What is not the program's own is a parameter ([Sending], [Nigel]): [std::shuffle],
    [std::sort] and the order of a hash map, random keys, the clock, the primitives of
    [crypto/crypto.cpp], the threads of the proof of work, and the daemon. *)

From Stdlib Require Import ZArith Lia.
From stdpp Require Import base tactics list numbers gmap strings.
From S2P Require Import Prelude Stream StringTools Base58 Config Types Difficulty Serializer TxSerialization WalletUtil Addresses SubWallet SubWallets WalletSync ValidateParameters.

Local Open Scope Z_scope.

(** ** Data ([include/WalletTypes.h], [rpc/CoreRpcServerCommandsDefinitions.h]) *)

Record TransactionDestination := { receiverPublicSpendKey : PublicKey; receiverPublicViewKey : PublicKey; td_amount : Z }.

Record GlobalIndexKey := { gk_index : Z; gk_key : PublicKey }.

Record ObscuredInput := {
  ob_outputs : list GlobalIndexKey;
  realOutput : nat;
  realTransactionPublicKey : PublicKey;
  realOutputTransactionIndex : Z;
  ob_amount : Z;
  ownerPublicSpendKey : PublicKey;
  ownerPrivateSpendKey : SecretKey }.

Record OutputEntry := { global_amount_index : Z; out_key : PublicKey }.
Record RandomOuts := { ro_amount : Z; outs : list OutputEntry }.

Record TransactionResult := { tr_transaction : Transaction; tr_outputs : list WalletKeyOutput; txKeyPair : KeyPair }.

(** The daemon: its answers in the course of one call.  [networkBlockCount n] is the answer to the
    [n]-th question, [sendTransaction] answers success and connection error. *)
Record Nigel := {
  networkBlockCount : nat -> Z;
  nodeFee : Z * bytes;
  getRandomOutsByAmounts : list Z -> Z -> bool * list RandomOuts;
  sendTransaction : Transaction -> bool * bool }.

(** [std::sort] by a key, [std::shuffle], [floor(log10(amount))] on doubles, the order of the buckets; the clock;
    ring signatures and the hash of the proof of work; the keys of the [n]-th transaction made in a call, and the
    rounds each thread searches for its nonce. *)
Class Sending := {
  sort : forall A, (A -> Z) -> list A -> list A;
  shuffle : forall A, list A -> list A;
  floor_log10 : Z -> Z;
  bucket_order : forall A, list A -> list A;
  clock : nat -> Z;
  crypto_generateRingSignatures : Hash -> KeyImage -> list PublicKey -> SecretKey -> nat -> bool * list Signature;
  crypto_checkRingSignature : Hash -> KeyImage -> list PublicKey -> list Signature -> bool;
  cn_turtle_lite_slow_hash_v2 : bytes -> Hash;
  generate_keys : nat -> KeyPair;
  search_rounds : nat -> list nat }.

(** ** Amounts *)

Fixpoint denominations_loop (fuel : nat) (multiplier amount : Z) : list Z :=
  match fuel with
  | O => []
  | S fuel =>
      if 0 <? amount then
        let denomination := u64 (multiplier * (amount mod 10)) in
        (if negb (denomination =? 0) then [denomination] else []) ++ denominations_loop fuel (u64 (multiplier * 10)) (amount / 10)
      else []
  end.
(** A 64-bit number has at most twenty digits. *)
Definition splitAmountIntoDenominations (amount : Z) : list Z := denominations_loop 20 1 amount.

Definition verifyAmounts_list (amounts : list Z) : bool := forallb (fun amount => bool_decide (amount ∈ PRETTY_AMOUNTS)) amounts.
Definition verifyAmounts (tx : Transaction) : bool := verifyAmounts_list (out_amount <$> outputs (tx_prefix tx)).

(** [boost::get] throws on an input of another type. *)
Definition get_KeyInput (i : TransactionInput) : outcome KeyInput :=
  match i with InKey k => Ok k | InBase _ => Throw "boost::bad_get" end.
Definition verifyTransactionFee (expectedFee : Z) (tx : Transaction) : outcome bool :=
  inputTotal ← foldM (fun t i => k ← get_KeyInput i; Ok (u64 (t + ki_amount k))) 0 (inputs (tx_prefix tx));
  let outputTotal := foldl (fun t o => u64 (t + out_amount o)) 0 (outputs (tx_prefix tx)) in
  let actualFee := u64 (inputTotal - outputTotal) in
  Ok (expectedFee =? actualFee).

Definition isTransactionPayloadTooBig (tx : Transaction) (currentHeight : Z) : outcome ErrorCode :=
  data ← toBinaryArray serialize_Transaction tx;
  Ok (if getMaxTxSize currentHeight <? Z.of_nat (length data) then TOO_MANY_INPUTS_TO_FIT_IN_BLOCK else SUCCESS).

Definition keyInputToTransactionInput (keyInputs : list KeyInput) : list TransactionInput := InKey <$> keyInputs.
Definition keyOutputToTransactionOutput (keyOutputs : list WalletKeyOutput) : list TransactionOutput :=
  (fun o => {| out_amount := wo_amount o; target := TargetKey {| ko_key := wo_key o |} |}) <$> keyOutputs.

Section transfer.
Context `{crypto : WalletCrypto, sending : Sending} (daemon : Nigel).

(** ** Ring members *)

(** The checks of every amount asked for, then of every answer.  The answers are sorted as copies: what is returned is
    as the daemon sent it. *)
Definition getRingParticipants (mixin : Z) (sources : list TxInputAndOwner) : ErrorCode * list RandomOuts :=
  if mixin =? 0 then (SUCCESS, [])
  else
    let amounts := input_amount <$> sources in
    let '(success, fakeOuts) := getRandomOutsByAmounts daemon amounts (u64 (mixin + 1)) in
    if negb (success : bool) then (DAEMON_OFFLINE, fakeOuts)
    else if existsb (fun amount =>
        match list_find (fun o => ro_amount o = amount) fakeOuts with
        | None => true
        | Some (_, it) => Z.of_nat (length (outs it)) <? mixin
        end) amounts then (NOT_ENOUGH_FAKE_OUTPUTS, fakeOuts)
    else if negb (Nat.eqb (length fakeOuts) (length amounts)) then (NOT_ENOUGH_FAKE_OUTPUTS, fakeOuts)
    else if existsb (fun fakeOut => Z.of_nat (length (outs fakeOut)) <? mixin) fakeOuts then (NOT_ENOUGH_FAKE_OUTPUTS, fakeOuts)
    else (SUCCESS, fakeOuts).

(** Adds the members that are not our own output until there are [mixin]. *)
Fixpoint take_fakes (mixin ours : Z) (fakes : list OutputEntry) (outputs : list GlobalIndexKey) : list GlobalIndexKey :=
  match fakes with
  | [] => outputs
  | fakeOut :: rest =>
      if ours =? global_amount_index fakeOut then take_fakes mixin ours rest outputs
      else
        let outputs := outputs ++ [{| gk_index := global_amount_index fakeOut; gk_key := out_key fakeOut |}] in
        if mixin <=? Z.of_nat (length outputs) then outputs else take_fakes mixin ours rest outputs
  end.

(** [std::find_if] for a member not below ours, and [insert] before it: the members, and where ours is. *)
Definition insert_real (real : GlobalIndexKey) (outputs : list GlobalIndexKey) : list GlobalIndexKey * nat :=
  let i := match list_find (fun o => gk_index real <= gk_index o) outputs with Some (i, _) => i | None => length outputs end in
  (take i outputs ++ real :: drop i outputs, i).

(** [None] is [NOT_ENOUGH_FAKE_OUTPUTS]. *)
Definition obscure (mixin : Z) (fakeOuts : list RandomOuts) (i : nat) (source : TxInputAndOwner) : outcome (option ObscuredInput) :=
  match wi_globalOutputIndex (io_input source) with
  | None => Undefined "an optional without a value"
  | Some index =>
      let real := {| gk_index := index; gk_key := wi_key (io_input source) |} in
      fakes ← (if negb (mixin =? 0) then
                 f ← from_option "fakeOuts[i]" (fakeOuts !! i); Ok (take_fakes mixin index (outs f) [])
               else Ok []);
      if Z.of_nat (length fakes) <? mixin then Ok None
      else
        let '(members, position) := insert_real real fakes in
        Ok (Some {| ob_outputs := members; realOutput := position; realTransactionPublicKey := wi_transactionPublicKey (io_input source);
                    realOutputTransactionIndex := wi_transactionIndex (io_input source); ob_amount := input_amount source;
                    ownerPublicSpendKey := io_publicSpendKey source; ownerPrivateSpendKey := io_privateSpendKey source |})
  end.

Fixpoint obscure_loop (mixin : Z) (fakeOuts : list RandomOuts) (i : nat) (sources : list TxInputAndOwner) : outcome (ErrorCode * list ObscuredInput) :=
  match sources with
  | [] => Ok (SUCCESS, [])
  | source :: rest =>
      o ← obscure mixin fakeOuts i source;
      match o with
      | None => Ok (NOT_ENOUGH_FAKE_OUTPUTS, [])
      | Some o => '(error, l) ← obscure_loop mixin fakeOuts (S i) rest; Ok (error, o :: l)
      end
  end.

Definition prepareRingParticipants (sources : list TxInputAndOwner) (mixin : Z) : outcome (ErrorCode * list ObscuredInput) :=
  let sources := sort _ input_amount sources in
  let '(error, fakeOuts) := getRingParticipants mixin sources in
  match error with
  | SUCCESS => obscure_loop mixin fakeOuts 0 sources
  | _ => Ok (error, [])
  end.

(** ** Inputs *)

Definition genKeyImage (input : ObscuredInput) (privateViewKey : SecretKey) : KeyPair * KeyImage :=
  let derivation := generate_key_derivation (realTransactionPublicKey input) privateViewKey in
  let tmpKeyPair :=
    {| publicKey := derive_public_key derivation (realOutputTransactionIndex input) (ownerPublicSpendKey input);
       secretKey := derive_secret_key derivation (realOutputTransactionIndex input) (ownerPrivateSpendKey input) |} in
  (tmpKeyPair, generate_key_image (publicKey tmpKeyPair) (secretKey tmpKeyPair)).

(** [copy[i] = outputIndexes[i] - outputIndexes[i - 1]] for [i] from one, on 32-bit indexes. *)
Definition relative_indexes (l : list Z) : list Z :=
  match l with [] => [] | x :: rest => x :: zip_with (fun y x => u32 (y - x)) rest l end.

Fixpoint setupInputs (inputsAndFakes : list ObscuredInput) (privateViewKey : SecretKey) : outcome (ErrorCode * list KeyInput * list SecretKey) :=
  match inputsAndFakes with
  | [] => Ok (SUCCESS, [], [])
  | input :: rest =>
      let '(tmpKeyPair, image) := genKeyImage input privateViewKey in
      real ← from_option "outputs[realOutput]" (ob_outputs input !! realOutput input);
      if bool_decide (publicKey tmpKeyPair <> gk_key real) then Ok (INVALID_GENERATED_KEYIMAGE, [], [])
      else
        let keyInput := {| ki_amount := ob_amount input; outputIndexes := relative_indexes ((fun o => u32 (gk_index o)) <$> ob_outputs input);
                           keyImage := image |} in
        '(error, inputs, tmpSecretKeys) ← setupInputs rest privateViewKey;
        Ok (error, keyInput :: inputs, secretKey tmpKeyPair :: tmpSecretKeys)
  end.

(** ** Outputs *)

Fixpoint outputs_of (txSecretKey : SecretKey) (outputIndex : Z) (destinations : list TransactionDestination) : list WalletKeyOutput :=
  match destinations with
  | [] => []
  | destination :: rest =>
      let derivation := generate_key_derivation (receiverPublicViewKey destination) txSecretKey in
      {| wo_key := derive_public_key derivation outputIndex (receiverPublicSpendKey destination); wo_amount := td_amount destination;
         wo_globalOutputIndex := None |} :: outputs_of txSecretKey (u32 (outputIndex + 1)) rest
  end.
Definition setupOutputs (randomTxKey : KeyPair) (destinations : list TransactionDestination) : list WalletKeyOutput :=
  outputs_of (secretKey randomTxKey) 0 (sort _ td_amount destinations).

Definition denominations_to (publicSpendKey publicViewKey : PublicKey) (amount : Z) : list TransactionDestination :=
  (fun denomination => {| receiverPublicSpendKey := publicSpendKey; receiverPublicViewKey := publicViewKey; td_amount := denomination |})
    <$> splitAmountIntoDenominations amount.

Fixpoint destinations_loop (addressesAndAmounts : list (bytes * Z)) : outcome (list TransactionDestination) :=
  match addressesAndAmounts with
  | [] => Ok []
  | (address, amount) :: rest =>
      '(publicSpendKey, publicViewKey) ← addressToKeys cn_fast_hash check_key address;
      l ← destinations_loop rest;
      Ok (denominations_to publicSpendKey publicViewKey amount ++ l)
  end.
Definition setupDestinations (addressesAndAmounts : list (bytes * Z)) (changeRequired : Z) (changeAddress : bytes) : outcome (list TransactionDestination) :=
  destinations_loop (if negb (changeRequired =? 0) then addressesAndAmounts ++ [(changeAddress, changeRequired)] else addressesAndAmounts).

(** ** The extra field *)

Definition TX_EXTRA_PAYMENT_ID_IDENTIFIER : Z := 0x00.
Definition TX_EXTRA_PUBKEY_IDENTIFIER : Z := 0x01.
Definition TX_EXTRA_NONCE_IDENTIFIER : Z := 0x02.
Definition TX_EXTRA_TRANSACTION_POW_NONCE_IDENTIFIER : Z := 0x04.
Definition TX_EXTRA_ARBITRARY_DATA_IDENTIFIER : Z := 0x7f.

(** Of a [size_t], at most ten bytes. *)
Fixpoint varint_vector_loop (fuel : nat) (i : Z) : bytes :=
  match fuel with
  | O => []
  | S fuel => if 0x80 <=? i then u8 (Z.lor (Z.land i 0x7f) 0x80) :: varint_vector_loop fuel (Z.shiftr i 7) else [u8 i]
  end.
Definition uintToVarintVector (i : Z) : bytes := varint_vector_loop 10 i.

(** A payment ID that is not hexadecimal leaves the hash it should be read into uninitialised. *)
Definition make_extra (paymentID extraData : bytes) (pubKey : PublicKey) : outcome bytes :=
  paymentNonce ← (if bool_decide (paymentID <> []) then
                    match podFromHex 32 paymentID with
                    | Some paymentIDBin => Ok (TX_EXTRA_PAYMENT_ID_IDENTIFIER :: paymentIDBin)
                    | None => Undefined "an uninitialised payment ID"
                    end
                  else Ok []);
  let extraNonce := paymentNonce ++
    (if bool_decide (extraData <> []) then TX_EXTRA_ARBITRARY_DATA_IDENTIFIER :: uintToVarintVector (Z.of_nat (length extraData)) ++ extraData else []) in
  let nonce := if bool_decide (extraNonce <> []) then TX_EXTRA_NONCE_IDENTIFIER :: uintToVarintVector (Z.of_nat (length extraNonce)) ++ extraNonce else [] in
  Ok (nonce ++ TX_EXTRA_PUBKEY_IDENTIFIER :: pubKey).

(** *** Proof of work *)

Definition set_extra (e : bytes) (tx : TransactionPrefix) : TransactionPrefix :=
  {| version := version tx; unlockTime := unlockTime tx; inputs := inputs tx; outputs := outputs tx; extra := e |}.

(** A thread for a number of rounds: [None] when it is stopped before it finds a nonce. *)
Fixpoint generateTransactionPowWorker (rounds : nat) (extra : bytes) (threadCount nonce : Z) (tx : TransactionPrefix) : outcome (option bytes) :=
  match rounds with
  | O => Ok None
  | S rounds =>
      let extra := take (length extra - 8) extra ++ le_bytes 8 nonce in
      data ← toBinaryArray serialize_TransactionPrefix (set_extra extra tx);
      if check_hash (cn_turtle_lite_slow_hash_v2 data) TRANSACTION_POW_DIFFICULTY then Ok (Some extra)
      else generateTransactionPowWorker rounds extra threadCount (u64 (nonce + threadCount)) tx
  end.

Fixpoint run_workers (extra : bytes) (threadCount i : Z) (rounds : list nat) (tx : TransactionPrefix) : outcome (list bytes) :=
  match rounds with
  | [] => Ok []
  | r :: rest =>
      found ← generateTransactionPowWorker r extra threadCount i tx;
      l ← run_workers extra threadCount (i + 1) rest tx;
      Ok (option_list found ++ l)
  end.

(** One round of [rounds] for each thread.  The call returns once some thread has found a nonce; threads that find one
    before they see that another has write the same vector unsynchronised. *)
Definition generateTransactionPoW (rounds : list nat) (tx : TransactionPrefix) (extra : bytes) : outcome bytes :=
  let extra := extra ++ TX_EXTRA_TRANSACTION_POW_NONCE_IDENTIFIER :: replicate 8 0 in
  found ← run_workers extra (Z.of_nat (length rounds)) 0 rounds tx;
  match found with
  | [] => Undefined "the search does not finish"
  | [extra] => Ok extra
  | _ => Undefined "a data race on the extra field"
  end.

(** ** Signatures *)

Definition wallet_getTransactionHash {A} (f : ser A) (tx : A) : outcome Hash := data ← toBinaryArray f tx; Ok (cn_fast_hash data).

Definition ring_keys (input : ObscuredInput) : list PublicKey := gk_key <$> ob_outputs input.

(** [None] is [FAILED_TO_CREATE_RING_SIGNATURE]. *)
Fixpoint sign_loop (txPrefixHash : Hash) (i : nat) (inputs : list TransactionInput) (inputsAndFakes : list ObscuredInput) (tmpSecretKeys : list SecretKey)
    : outcome (option (list (list Signature))) :=
  match inputsAndFakes with
  | [] => Ok (Some [])
  | input :: rest =>
      t ← from_option "tx.inputs[i]" (inputs !! i);
      k ← get_KeyInput t;
      secret ← from_option "tmpSecretKeys[i]" (tmpSecretKeys !! i);
      let '(success, signatures) := crypto_generateRingSignatures txPrefixHash (keyImage k) (ring_keys input) secret (realOutput input) in
      if negb (success : bool) then Ok None
      else l ← sign_loop txPrefixHash (S i) inputs rest tmpSecretKeys; Ok (option_map (cons signatures) l)
  end.
Fixpoint check_signatures (txPrefixHash : Hash) (i : nat) (inputs : list TransactionInput) (signatures : list (list Signature))
    (inputsAndFakes : list ObscuredInput) : outcome bool :=
  match inputsAndFakes with
  | [] => Ok true
  | input :: rest =>
      t ← from_option "tx.inputs[i]" (inputs !! i);
      k ← get_KeyInput t;
      sigs ← from_option "tx.signatures[i]" (signatures !! i);
      if negb (crypto_checkRingSignature txPrefixHash (keyImage k) (ring_keys input) sigs) then Ok false
      else check_signatures txPrefixHash (S i) inputs signatures rest
  end.
Definition generateRingSignatures (tx : TransactionPrefix) (inputsAndFakes : list ObscuredInput) (tmpSecretKeys : list SecretKey) : outcome (option Transaction) :=
  txPrefixHash ← wallet_getTransactionHash serialize_TransactionPrefix tx;
  s ← sign_loop txPrefixHash 0 (inputs tx) inputsAndFakes tmpSecretKeys;
  match s with
  | None => Ok None
  | Some sigs =>
      b ← check_signatures txPrefixHash 0 (inputs tx) sigs inputsAndFakes;
      Ok (if (b : bool) then Some {| tx_prefix := tx; signatures := sigs |} else None)
  end.

(** ** A transaction *)

(** The [n]-th transaction made in a call.  The private view key is the wallet's. *)
Definition makeTransaction (n : nat) (mixin : Z) (ourInputs : list TxInputAndOwner) (paymentID : bytes) (destinations : list TransactionDestination)
    (privateViewKey : SecretKey) (unlockTime : Z) (extraData : bytes) : outcome (ErrorCode + TransactionResult) :=
  '(mixinError, inputsAndFakes) ← prepareRingParticipants ourInputs mixin;
  match mixinError with
  | SUCCESS =>
      '(inputError, transactionInputs, tmpSecretKeys) ← setupInputs inputsAndFakes privateViewKey;
      match inputError with
      | SUCCESS =>
          let keys := generate_keys n in
          let keyOutputs := setupOutputs keys destinations in
          extra ← make_extra paymentID extraData (publicKey keys);
          let setupTX := {| version := CURRENT_TRANSACTION_VERSION; unlockTime := unlockTime; inputs := keyInputToTransactionInput transactionInputs;
                            outputs := keyOutputToTransactionOutput keyOutputs; extra := [] |} in
          extra ← generateTransactionPoW (search_rounds n) setupTX extra;
          signed ← generateRingSignatures (set_extra extra setupTX) inputsAndFakes tmpSecretKeys;
          Ok (match signed with
              | None => inl FAILED_TO_CREATE_RING_SIGNATURE
              | Some tx => inr {| tr_transaction := tx; tr_outputs := keyOutputs; txKeyPair := keys |}
              end)
      | _ => Ok (inl inputError)
      end
  | _ => Ok (inl mixinError)
  end.

Definition relayTransaction (tx : Transaction) : outcome (ErrorCode * Hash) :=
  let '(success, connectionError) := sendTransaction daemon tx in
  if (connectionError : bool) then Ok (DAEMON_OFFLINE, NULL_HASH)
  else if negb (success : bool) then Ok (DAEMON_ERROR, NULL_HASH)
  else hash ← wallet_getTransactionHash serialize_Transaction tx; Ok (SUCCESS, hash).

(** ** What the wallet records *)

Definition storeSentTransaction (hash : Hash) (fee : Z) (paymentID : bytes) (ourInputs : list TxInputAndOwner) (changeAddress : bytes) (changeRequired : Z)
    (w : SubWallets) : outcome SubWallets :=
  let transfers := foldl (fun t i => add_transfer (io_publicSpendKey i) (- input_amount i) t) ∅ ourInputs in
  '(spendKey, _) ← addressToKeys cn_fast_hash check_key changeAddress;
  let transfers := if negb (changeRequired =? 0) then add_transfer spendKey changeRequired transfers else transfers in
  Ok (addUnconfirmedTransaction
        {| wt_transfers := transfers; wt_hash := hash; wt_fee := fee; wt_timestamp := 0; wt_blockHeight := 0; wt_paymentID := paymentID;
           wt_unlockTime := 0; wt_isCoinbaseTransaction := false |} w).

Fixpoint unconfirmed_loop (derivation : bytes) (txHash : Hash) (outputIndex : Z) (keyOutputs : list WalletKeyOutput) (w : SubWallets) : SubWallets :=
  match keyOutputs with
  | [] => w
  | output :: rest =>
      let spendKey := underive_public_key derivation outputIndex (wo_key output) in
      let w := if bool_decide (spendKey ∈ m_publicSpendKeys w) then
                 storeUnconfirmedIncomingInput {| ui_amount := wo_amount output; ui_key := wo_key output; ui_parentTransactionHash := txHash |} spendKey w
               else w in
      unconfirmed_loop derivation txHash (u64 (outputIndex + 1)) rest w
  end.
Definition storeUnconfirmedIncomingInputs (keyOutputs : list WalletKeyOutput) (txPublicKey : PublicKey) (txHash : Hash) (w : SubWallets) : SubWallets :=
  unconfirmed_loop (generate_key_derivation txPublicKey (m_privateViewKey w)) txHash 0 keyOutputs w.

Definition lock_inputs (ourInputs : list TxInputAndOwner) (w : SubWallets) : outcome SubWallets :=
  foldM (fun w i => markInputAsLocked (wi_keyImage (io_input i)) (io_publicSpendKey i) w) w ourInputs.

(** The statements after the transaction was relayed. *)
Definition record_sent (hash : Hash) (fee : Z) (paymentID : bytes) (ourInputs : list TxInputAndOwner) (changeAddress : bytes) (changeRequired : Z)
    (r : TransactionResult) (w : SubWallets) : outcome SubWallets :=
  w ← storeSentTransaction hash fee paymentID ourInputs changeAddress changeRequired w;
  let w := storeUnconfirmedIncomingInputs (tr_outputs r) (publicKey (txKeyPair r)) hash w in
  let w := storeTxPrivateKey (secretKey (txKeyPair r)) hash w in
  lock_inputs ourInputs w.

(** ** Sending *)

(** Integrated addresses become standard ones, and the payment ID that of the last one. *)
Fixpoint extract_integrated_loop (l : list (bytes * Z)) (paymentID : bytes) : outcome (list (bytes * Z) * bytes) :=
  match l with
  | [] => Ok ([], paymentID)
  | (address, amount) :: rest =>
      if negb (Z.of_nat (length address) =? integratedAddressLength) then
        '(l, paymentID) ← extract_integrated_loop rest paymentID; Ok ((address, amount) :: l, paymentID)
      else
        '(extractedAddress, extractedPaymentID) ← extractIntegratedAddressData cn_fast_hash address;
        '(l, paymentID) ← extract_integrated_loop rest extractedPaymentID; Ok ((extractedAddress, amount) :: l, paymentID)
  end.

Definition sendTransactionAdvanced (addressesAndAmounts : list (bytes * Z)) (mixin fee : Z) (paymentID : bytes) (addressesToTakeFrom : list bytes)
    (changeAddress : bytes) (unlockTime : Z) (extraData : bytes) (w : SubWallets) : outcome (ErrorCode * Hash * SubWallets) :=
  let '(feeAmount, feeAddress) := nodeFee daemon in
  let addressesAndAmounts := if negb (feeAmount =? 0) then addressesAndAmounts ++ [(feeAddress, feeAmount)] else addressesAndAmounts in
  changeAddress ← (if bool_decide (changeAddress = []) then getPrimaryAddress w else Ok changeAddress);
  error ← validateTransaction (clock 0) addressesAndAmounts mixin fee paymentID addressesToTakeFrom changeAddress w unlockTime (networkBlockCount daemon 0);
  match error with
  | SUCCESS =>
      '(addressesAndAmounts, paymentID) ← extract_integrated_loop addressesAndAmounts paymentID;
      let takeFromAllSubWallets := bool_decide (addressesToTakeFrom = []) in
      let totalAmount := u64 (getTransactionSum addressesAndAmounts + fee) in
      subWalletsToTakeFrom ← addressesToSpendKeys cn_fast_hash check_key addressesToTakeFrom;
      '(ourInputs, sumOfInputs) ← getTransactionInputsForAmount shuffle (clock 1) totalAmount takeFromAllSubWallets subWalletsToTakeFrom (networkBlockCount daemon 1) w;
      let changeRequired := u64 (sumOfInputs - totalAmount) in
      destinations ← setupDestinations addressesAndAmounts changeRequired changeAddress;
      r ← makeTransaction 0 mixin ourInputs paymentID destinations (m_privateViewKey w) unlockTime extraData;
      match r with
      | inl error => Ok (error, NULL_HASH, w)
      | inr txResult =>
          error ← isTransactionPayloadTooBig (tr_transaction txResult) (networkBlockCount daemon 2);
          match error with
          | SUCCESS =>
              if negb (verifyAmounts (tr_transaction txResult)) then Ok (AMOUNTS_NOT_PRETTY, NULL_HASH, w)
              else
                feeOk ← verifyTransactionFee fee (tr_transaction txResult);
                if negb (feeOk : bool) then Ok (UNEXPECTED_FEE, NULL_HASH, w)
                else
                  '(sendError, txHash) ← relayTransaction (tr_transaction txResult);
                  match sendError with
                  | SUCCESS =>
                      w ← record_sent txHash fee paymentID ourInputs changeAddress changeRequired txResult w;
                      Ok (SUCCESS, txHash, w)
                  | _ => Ok (sendError, NULL_HASH, w)
                  end
          | _ => Ok (error, NULL_HASH, w)
          end
      end
  | _ => Ok (error, NULL_HASH, w)
  end.

Definition defaultFee : Z := MINIMUM_FEE_V2.

Definition sendTransactionBasic (destination : bytes) (amount : Z) (paymentID : bytes) (w : SubWallets) : outcome (ErrorCode * Hash * SubWallets) :=
  let '(_, _, defaultMixin) := getMixinAllowableRange (networkBlockCount daemon 3) in
  changeAddress ← getPrimaryAddress w;
  sendTransactionAdvanced [(destination, amount)] defaultMixin defaultFee paymentID [] changeAddress 0 [] w.

(** ** Fusion *)

(** One transaction out of many inputs, with fewer inputs after every attempt that does not fit: an attempt for each input at most. *)
Fixpoint fusion_loop (fuel n : nat) (mixin : Z) (destination : bytes) (fee : Z) (ourInputs : list TxInputAndOwner) (foundMoney : Z)
    (privateViewKey : SecretKey) (extraData : bytes) : outcome (ErrorCode + list TxInputAndOwner * TransactionResult) :=
  match fuel with
  | O => Undefined "more attempts than inputs"
  | S fuel =>
      if Z.of_nat (length ourInputs) <? FUSION_TX_MIN_INPUT_COUNT then Ok (inl FULLY_OPTIMIZED)
      else
        '(publicSpendKey, publicViewKey) ← addressToKeys cn_fast_hash check_key destination;
        if foundMoney <=? fee then Ok (inl FULLY_OPTIMIZED)
        else
          let destinations := denominations_to publicSpendKey publicViewKey (u64 (foundMoney - fee)) in
          last ← from_option "ourInputs.back()" (last ourInputs);
          let retry := fusion_loop fuel (S n) mixin destination fee (take (length ourInputs - 1) ourInputs) (u64 (foundMoney - input_amount last))
                         privateViewKey extraData in
          if Nat.eqb (length destinations) 0
             || (Z.of_nat (length ourInputs) / Z.of_nat (length destinations) <? FUSION_TX_MIN_IN_OUT_COUNT_RATIO) then retry
          else
            r ← makeTransaction n mixin ourInputs [] destinations privateViewKey 0 extraData;
            match r with
            | inl error => Ok (inl error)
            | inr txResult =>
                data ← toBinaryArray serialize_Transaction (tr_transaction txResult);
                if FUSION_TX_MAX_SIZE <? Z.of_nat (length data) then retry
                else Ok (inr (ourInputs, txResult))
            end
  end.

Definition fusion_fee (height height' : Z) : Z :=
  if (FUSION_FEE_V1_HEIGHT <=? height) && (height' <? FUSION_FEE_V1_EXIT_HEIGHT) then FUSION_FEE_V1 else 0.

Definition sendFusionTransactionAdvanced (mixin : Z) (addressesToTakeFrom : list bytes) (destination : bytes) (extraData : bytes) (w : SubWallets)
    : outcome (ErrorCode * Hash * SubWallets) :=
  destination ← (if bool_decide (destination = []) then getPrimaryAddress w else Ok destination);
  error ← validateFusionTransaction mixin addressesToTakeFrom destination w (networkBlockCount daemon 0);
  match error with
  | SUCCESS =>
      let takeFromAllSubWallets := bool_decide (addressesToTakeFrom = []) in
      subWalletsToTakeFrom ← addressesToSpendKeys cn_fast_hash check_key addressesToTakeFrom;
      '(ourInputs, maxFusionInputs, foundMoney) ←
        getFusionTransactionInputs shuffle floor_log10 bucket_order (clock 0) takeFromAllSubWallets subWalletsToTakeFrom mixin (networkBlockCount daemon 1) w;
      if maxFusionInputs <? FUSION_TX_MIN_INPUT_COUNT then Ok (FUSION_MIXIN_TOO_LARGE, NULL_HASH, w)
      else
        let fee := fusion_fee (networkBlockCount daemon 2) (networkBlockCount daemon 3) in
        r ← fusion_loop (S (length ourInputs)) 0 mixin destination fee ourInputs foundMoney (m_privateViewKey w) extraData;
        match r with
        | inl error => Ok (error, NULL_HASH, w)
        | inr (ourInputs, txResult) =>
            if negb (verifyAmounts (tr_transaction txResult)) then Ok (AMOUNTS_NOT_PRETTY, NULL_HASH, w)
            else
              feeOk ← verifyTransactionFee fee (tr_transaction txResult);
              if negb (feeOk : bool) then Ok (UNEXPECTED_FEE, NULL_HASH, w)
              else
                '(sendError, txHash) ← relayTransaction (tr_transaction txResult);
                match sendError with
                | SUCCESS =>
                    w ← record_sent txHash fee [] ourInputs destination 0 txResult w;
                    Ok (SUCCESS, txHash, w)
                | _ => Ok (sendError, NULL_HASH, w)
                end
        end
  | _ => Ok (error, NULL_HASH, w)
  end.

Definition sendFusionTransactionBasic (w : SubWallets) : outcome (ErrorCode * Hash * SubWallets) :=
  let '(_, _, defaultMixin) := getMixinAllowableRange (networkBlockCount daemon 4) in
  defaultAddress ← getPrimaryAddress w;
  sendFusionTransactionAdvanced defaultMixin [] defaultAddress [] w.
End transfer.
