(* ===== verification/TransferRing.v ===== *)
(** * TransferRing: the amounts and the rings of a transaction the wallet makes

    The denominations of an amount, and the members among which an input is hidden: enough of them, in
    ascending order, each once, with the input at the place that is recorded. *)

From Stdlib Require Import ZArith Lia.
From stdpp Require Import base tactics list numbers gmap strings sorting.
From S2P Require Import Prelude Config Types Serializer TxSerialization FormatUtils WalletUtil Addresses SubWallet SubWallets WalletSync ValidateParameters Transfer.

Local Open Scope Z_scope.

#[local] Arguments sumZ : simpl never.

(** ** Denominations *)

Lemma denominations_loop_ok fuel : forall k amount, 0 <= k -> 0 <= amount -> amount * 10 ^ k < 2 ^ 64 -> amount < 10 ^ Z.of_nat fuel ->
  let l := denominations_loop fuel (10 ^ k) amount in
  sumZ l = amount * 10 ^ k /\ Forall (fun d => 10 ^ k <= d /\ d ∈ PRETTY_AMOUNTS) l /\ StronglySorted Z.lt l.
Proof.
  induction fuel as [|fuel IH]; intros k amount Hk Ha Hb Hf; cbv zeta; cbn [denominations_loop].
  { simpl in Hf. replace amount with 0 by lia. split_and!; [done|constructor..]. }
  destruct (Z.ltb_spec 0 amount) as [Hpos|]; [|replace amount with 0 by lia; split_and!; [done|constructor..]].
  assert (Hp : 0 < 10 ^ k) by (apply Z.pow_pos_nonneg; lia).
  assert (Hd : 0 <= amount mod 10 < 10) by (apply Z.mod_pos_bound; lia). assert (Hq := Z.div_mod amount 10 ltac:(lia)).
  assert (Hs : 10 ^ (k + 1) = 10 * 10 ^ k) by (rewrite Z.pow_add_r by lia; lia).
  assert (Hw : u64 (10 ^ k * (amount mod 10)) = amount mod 10 * 10 ^ k) by (rewrite wrap_small by (split; nia); lia).
  rewrite Hw. set (d := amount mod 10) in *. set (q := amount / 10) in *. assert (0 <= q) by (apply Z.div_pos; lia).
  assert (IHq : let l := denominations_loop fuel (u64 (10 ^ k * 10)) q in
    sumZ l = q * 10 ^ (k + 1) /\ Forall (fun d => 10 ^ (k + 1) <= d /\ d ∈ PRETTY_AMOUNTS) l /\ StronglySorted Z.lt l).
  { destruct (decide (q = 0)) as [->|Hq0].
    { destruct fuel; cbn [denominations_loop]; (split_and!; [done|constructor..]). }
    replace (u64 (10 ^ k * 10)) with (10 ^ (k + 1)) by (rewrite wrap_small; [lia|split; nia]). apply IH; [lia|done|nia|].
    rewrite Nat2Z.inj_succ, Z.pow_succ_r in Hf by lia. lia. }
  cbv zeta in IHq. destruct IHq as (S1 & F1 & O1). set (l := denominations_loop fuel _ q) in *.
  assert (F2 : Forall (fun x => 10 ^ k <= x /\ x ∈ PRETTY_AMOUNTS) l) by (eapply Forall_impl; [exact F1|]; simpl; intros x []; split; [lia|done]).
  destruct (Z.eqb_spec (d * 10 ^ k) 0) as [E|E]; simpl negb; cbv iota; cbn [app].
  - split_and!; [rewrite S1, Hs, Hq; lia|done|done].
  - assert (1 <= d) by (destruct (decide (d = 0)) as [->|]; [by rewrite Z.mul_0_l in E|lia]). rewrite sumZ_cons, S1, Hs.
    split_and!; [rewrite Hq; lia|constructor; [split; [nia|apply pretty_digit; nia]|done]|].
    constructor; [done|]. eapply Forall_impl; [exact F1|]. simpl. intros x []. nia.
Qed.

Lemma denominations_ok amount : is_u64 amount -> let l := splitAmountIntoDenominations amount in
  sumZ l = amount /\ Forall (fun d => d ∈ PRETTY_AMOUNTS) l /\ StronglySorted Z.lt l.
Proof.
  intros Ha. cbv zeta. unfold splitAmountIntoDenominations. destruct (denominations_loop_ok 20 0 amount) as (S & F & O); [lia|width_solve| |width_solve|].
  { width_unfold. lia. }
  change (10 ^ 0) with 1 in *. split_and!; [lia| |done]. eapply Forall_impl; [exact F|]. by intros ? [].
Qed.

(** ** Ring members *)

Section ring.
Context (mixin ours : Z).

Definition index_of (e : OutputEntry) : Z := global_amount_index e.
Definition as_member (e : OutputEntry) : GlobalIndexKey := {| gk_index := global_amount_index e; gk_key := out_key e |}.

Lemma take_fakes_ok fakes : forall acc, Z.of_nat (length acc) < mixin ->
  let l := take_fakes mixin ours fakes acc in
  exists more, l = acc ++ (as_member <$> more) /\ sublist more (filter (fun e => global_amount_index e <> ours) fakes) /\ Z.of_nat (length l) <= mixin
    /\ (mixin <= Z.of_nat (length acc + length (filter (fun e => global_amount_index e <> ours) fakes)) -> Z.of_nat (length l) = mixin).
Proof.
  induction fakes as [|f fakes IH]; intros acc Hacc; cbv zeta; cbn [take_fakes].
  { exists []. rewrite app_nil_r. split_and!; [done|constructor|lia|]. simpl. lia. }
  rewrite filter_cons. destruct (Z.eqb_spec ours (global_amount_index f)) as [E|E].
  { rewrite decide_False by naive_solver. apply IH. done. }
  rewrite decide_True by naive_solver. fold (as_member f). destruct (Z.leb_spec mixin (Z.of_nat (length (acc ++ [as_member f])))) as [Hle|Hgt].
  - exists [f]. rewrite length_app in *. simpl in *. split_and!; [done|apply sublist_cons_r; right; eexists; split; [done|apply sublist_nil_l]|lia|lia].
  - destruct (IH (acc ++ [as_member f])) as (more & E1 & E2 & E3 & E4); [done|]. cbv zeta in *. exists (f :: more). rewrite E1 in *. rewrite <- app_assoc in *. simpl in *.
    split_and!; [done|by apply sublist_skip|done|]. intros Hm. apply E4. rewrite length_app. simpl. lia.
Qed.
End ring.

(** The members are strictly ascending, so each occurs once. *)
Definition ascending (l : list GlobalIndexKey) : Prop := StronglySorted Z.lt (gk_index <$> l).

Lemma sublist_sorted {A} (R : A -> A -> Prop) l k : sublist l k -> StronglySorted R k -> StronglySorted R l.
Proof.
  induction 1 as [|x l k S IH|x l k S IH]; intros H; [constructor|..]; inversion H; subst; [|auto]. constructor; [auto|].
  rewrite Forall_forall in *. intros y Hy. eapply H3, elem_of_sublist; eauto.
Qed.

Lemma sorted_lookup {A} (R : A -> A -> Prop) l i j x y : StronglySorted R l -> l !! i = Some x -> l !! j = Some y -> (i < j)%nat -> R x y.
Proof.
  intros S Hx Hy Hlt. rewrite <- (take_drop j l) in S. apply StronglySorted_app in S as (S & _). apply S; [|].
  - apply (list_elem_of_lookup_2 _ i). by rewrite lookup_take_lt.
  - apply (list_elem_of_lookup_2 _ 0). by rewrite lookup_drop, Nat.add_0_r.
Qed.

Lemma insert_real_ok real l : ascending l -> (gk_index real ∉ gk_index <$> l) ->
  let '(m, i) := insert_real real l in ascending m /\ m !! i = Some real /\ m ≡ₚ real :: l /\ length m = S (length l).
Proof.
  intros S Hn. unfold insert_real.
  set (i := match list_find (fun o => gk_index real <= gk_index o) l with Some (i, _) => i | None => length l end).
  assert (Hi : (i <= length l)%nat /\ Forall (fun o => gk_index o < gk_index real) (take i l) /\ Forall (fun o => gk_index real < gk_index o) (drop i l)).
  { subst i. destruct (list_find _ l) as [[j x]|] eqn:E.
    - apply list_find_Some in E as (Ej & Hx & Hbefore). split_and!; [apply lookup_lt_Some in Ej; lia| |].
      + apply Forall_lookup. intros p y Hy. apply lookup_take_Some in Hy as [Hy Hlt]. specialize (Hbefore p y Hy Hlt). simpl in Hbefore. lia.
      + apply Forall_lookup. intros p y Hy. rewrite lookup_drop in Hy.
        assert (gk_index x <= gk_index y).
        { destruct (decide (p = 0%nat)) as [->|]; [rewrite Nat.add_0_r in Hy; simplify_eq; lia|].
          assert (gk_index x < gk_index y); [|lia]. apply (sorted_lookup Z.lt (gk_index <$> l) j (j + p)); [done|by rewrite list_lookup_fmap, Ej|by rewrite list_lookup_fmap, Hy|lia]. }
        assert (gk_index y <> gk_index real); [|simpl in Hx; lia]. intros Ey. apply Hn. rewrite <- Ey. apply list_elem_of_fmap_2. by eapply list_elem_of_lookup_2.
    - apply list_find_None in E. rewrite take_ge, drop_ge by lia. split_and!; [lia| |constructor]. eapply Forall_impl; [exact E|]. simpl. lia. }
  destruct Hi as (Hl & Hb & Ha). split_and!.
  - unfold ascending in *. rewrite fmap_app, fmap_cons. rewrite <- (take_drop i l), fmap_app in S.
    apply StronglySorted_app in S as (S1 & S2 & S3). apply StronglySorted_app. split_and!.
    + intros x y Hx Hy. apply list_elem_of_fmap in Hx as (u & -> & Hu). rewrite Forall_forall in Hb, Ha. specialize (Hb _ Hu). simpl in Hb.
      apply elem_of_cons in Hy as [->|Hy]; [done|]. apply list_elem_of_fmap in Hy as (v & -> & Hv). specialize (Ha _ Hv). simpl in Ha. lia.
    + done.
    + constructor; [done|]. by apply Forall_fmap.
  - rewrite lookup_app_r by (rewrite length_take; lia). rewrite length_take, Nat.min_l by done. by rewrite Nat.sub_diag.
  - rewrite <- Permutation_middle, take_drop. done.
  - rewrite length_app. simpl. rewrite length_take, length_drop. lia.
Qed.

(** ** An honest daemon, and inputs as the wallet stores them *)

(** [key_at amount index]: the key of the output of that amount with that global index. *)
Section honest.
Context `{crypto : WalletCrypto, sending : Sending} (daemon : Nigel) (key_at : Z -> Z -> option PublicKey).

Definition member_ok (amount : Z) (g : GlobalIndexKey) : Prop := in_width 32 (gk_index g) /\ key_at amount (gk_index g) = Some (gk_key g).

(** Outputs of the amount, in ascending order. *)
Definition honest_outs (o : RandomOuts) : Prop :=
  StronglySorted Z.lt (global_amount_index <$> outs o) /\ Forall (fun e => member_ok (ro_amount o) (as_member e)) (outs o).
(** The daemon answers every amount, in the order it was asked. *)
Definition honest_daemon : Prop := forall amounts n l, getRandomOutsByAmounts daemon amounts n = (true, l) ->
  ro_amount <$> l = amounts /\ Forall honest_outs l.

(** An input as scanning stores it, with a global index, and the keys of its owner. *)
Record coherent (vk : SecretKey) (x : TxInputAndOwner) (g : Z) : Prop := {
  co_index : wi_globalOutputIndex (io_input x) = Some g;
  co_member : member_ok (input_amount x) {| gk_index := g; gk_key := wi_key (io_input x) |};
  co_amount : is_u64 (input_amount x);
  co_key : wi_key (io_input x) =
    derive_public_key (generate_key_derivation (wi_transactionPublicKey (io_input x)) vk) (wi_transactionIndex (io_input x)) (io_publicSpendKey x);
  co_image : wi_keyImage (io_input x) = generate_key_image (wi_key (io_input x))
    (derive_secret_key (generate_key_derivation (wi_transactionPublicKey (io_input x)) vk) (wi_transactionIndex (io_input x)) (io_privateSpendKey x)) }.

(** The input among [mixin] others. *)
Record ring_of (mixin : Z) (x : TxInputAndOwner) (o : ObscuredInput) : Prop := {
  ro_ascending : ascending (ob_outputs o);
  ro_length : Z.of_nat (length (ob_outputs o)) = mixin + 1;
  ro_members : Forall (member_ok (input_amount x)) (ob_outputs o);
  ro_real : exists g, ob_outputs o !! realOutput o = Some {| gk_index := g; gk_key := wi_key (io_input x) |};
  ro_keys : realTransactionPublicKey o = wi_transactionPublicKey (io_input x) /\ realOutputTransactionIndex o = wi_transactionIndex (io_input x)
    /\ ob_amount o = input_amount x /\ ownerPublicSpendKey o = io_publicSpendKey x /\ ownerPrivateSpendKey o = io_privateSpendKey x }.

Lemma filter_ge fakes g : StronglySorted Z.lt (global_amount_index <$> fakes) ->
  (length fakes <= S (length (filter (fun e => global_amount_index e <> g) fakes)))%nat.
Proof.
  induction fakes as [|f fakes IH]; [simpl; lia|]. rewrite fmap_cons. intros [S F]%StronglySorted_inv. rewrite filter_cons. case_decide as E; simpl; [specialize (IH S); lia|].
  assert (filter (fun e => global_amount_index e <> g) fakes = fakes) as ->; [|lia]. apply filter_all. rewrite Forall_fmap in F. eapply Forall_impl; [exact F|]. simpl. lia.
Qed.

Lemma obscure_ok mixin fakeOuts i x vk g : 0 <= mixin -> coherent vk x g ->
  (mixin <> 0 -> exists f, fakeOuts !! i = Some f /\ honest_outs f /\ ro_amount f = input_amount x) ->
  exists r, obscure mixin fakeOuts i x = Ok r /\ (forall o, r = Some o -> ring_of mixin x o)
    /\ ((mixin <> 0 -> forall f, fakeOuts !! i = Some f -> mixin < Z.of_nat (length (outs f))) -> is_Some r).
Proof.
  intros Hm C Hf. unfold obscure. rewrite (co_index _ _ _ C).
  assert (exists l more, (if negb (mixin =? 0) then f ← from_option "fakeOuts[i]" (fakeOuts !! i); Ok (take_fakes mixin g (outs f) []) else Ok []) = Ok l
    /\ l = as_member <$> more /\ ascending l /\ (g ∉ gk_index <$> l) /\ Forall (member_ok (input_amount x)) l /\ Z.of_nat (length l) <= mixin
    /\ ((mixin <> 0 -> forall f, fakeOuts !! i = Some f -> mixin < Z.of_nat (length (outs f))) -> Z.of_nat (length l) = mixin))
    as (l & more & -> & El & Al & Nl & Ml & Ll & Fl).
  { destruct (Z.eqb_spec mixin 0) as [->|Hne]; simpl negb; cbv iota.
    { exists [], []. split_and!; [done|done|constructor|set_solver|constructor|simpl; lia|done]. }
    destruct (Hf Hne) as (f & Ef & [Sf Mf] & Ea). rewrite Ef. simpl from_option. okbind.
    destruct (take_fakes_ok mixin g (outs f) []) as (more & E1 & E2 & E3 & E4); [simpl; lia|]. simpl in E1. exists (take_fakes mixin g (outs f) []), more.
    assert (Sm : sublist more (outs f)) by (etrans; [exact E2|apply sublist_filter]). rewrite E1. split_and!; [done|done| | | | |].
    - unfold ascending. rewrite <- list_fmap_compose. eapply sublist_sorted; [|exact Sf]. by apply fmap_sublist.
    - rewrite <- list_fmap_compose. intros (e & -> & He)%list_elem_of_fmap. eapply elem_of_sublist in He; [|exact E2]. by apply list_elem_of_filter in He as [? _].
    - apply Forall_fmap, Forall_forall. intros e He. rewrite Forall_forall in Mf. simpl. rewrite <- Ea. apply Mf. by eapply elem_of_sublist.
    - by rewrite E1 in E3.
    - intros Hlen. rewrite E1 in E4. apply E4. specialize (Hlen Hne f eq_refl). pose proof (filter_ge (outs f) g Sf). simpl. lia. }
  okbind. destruct (Z.ltb_spec (Z.of_nat (length l)) mixin) as [Hlt|Hge]; [exists None; split_and!; [done|done|intros H; specialize (Fl H); lia]|].
  pose proof (insert_real_ok {| gk_index := g; gk_key := wi_key (io_input x) |} l Al Nl) as I.
  destruct (insert_real _ l) as [m p]. destruct I as (Am & Rm & Pm & Lm). eexists. split; [done|]. split; [|by eexists]. intros o [= <-].
  constructor; simpl; [done|lia| |by eexists|done]. rewrite Pm. constructor; [apply C|done].
Qed.

Lemma obscure_loop_ok mixin fakeOuts vk : forall sources i, 0 <= mixin -> Forall (fun x => exists g, coherent vk x g) sources ->
  (mixin <> 0 -> forall j x, sources !! j = Some x -> exists f, fakeOuts !! (i + j)%nat = Some f /\ honest_outs f /\ ro_amount f = input_amount x) ->
  exists e l, obscure_loop mixin fakeOuts i sources = Ok (e, l) /\ (e = SUCCESS -> Forall2 (ring_of mixin) sources l)
    /\ ((mixin <> 0 -> forall j f, fakeOuts !! j = Some f -> mixin < Z.of_nat (length (outs f))) -> e = SUCCESS).
Proof.
  induction sources as [|x sources IH]; intros i Hm Hc Hf; cbn [obscure_loop]; [exists SUCCESS, []; split_and!; [done|constructor|done]|].
  apply Forall_cons in Hc as [[g Hx] Hc]. destruct (obscure_ok mixin fakeOuts i x vk g Hm Hx) as (r & -> & Hr & Hs).
  { intros Hne. destruct (Hf Hne 0%nat x eq_refl) as (f & Ef & ?). rewrite Nat.add_0_r in Ef. by exists f. }
  okbind. destruct r as [o|].
  - destruct (IH (S i) Hm Hc) as (e & l & -> & Hl & He).
    { intros Hne j y Hy. destruct (Hf Hne (S j) y Hy) as (f & Ef & ?). exists f. by rewrite Nat.add_succ_r in Ef. }
    okbind. exists e, (o :: l). split_and!; [done|intros E; constructor; [by apply Hr|auto]|done].
  - exists NOT_ENOUGH_FAKE_OUTPUTS, []. split_and!; [done|done|]. intros H. destruct Hs as [? [=]]; intros Hne f Ef; eauto.
Qed.

Lemma getRingParticipants_ok mixin sources e l : honest_daemon -> getRingParticipants daemon mixin sources = (e, l) ->
  e = SUCCESS -> mixin <> 0 -> ro_amount <$> l = input_amount <$> sources /\ Forall honest_outs l.
Proof.
  intros H E -> Hne. unfold getRingParticipants in E. rewrite (proj2 (Z.eqb_neq _ _) Hne) in E.
  destruct (getRandomOutsByAmounts daemon _ _) as [ok fakeOuts] eqn:G. destruct ok; simpl negb in E; cbv iota in E; [|done].
  repeat (case_match; [done|]). injection E as <-. by apply H in G.
Qed.

Context (sort_ok : forall A f (l : list A), sort A f l ≡ₚ l).

Lemma prepare_ok vk sources mixin : honest_daemon -> 0 <= mixin -> Forall (fun x => exists g, coherent vk x g) sources ->
  exists e l, prepareRingParticipants daemon sources mixin = Ok (e, l) /\ (e = SUCCESS -> Forall2 (ring_of mixin) (sort _ input_amount sources) l).
Proof.
  intros H Hm Hc. unfold prepareRingParticipants. destruct (getRingParticipants daemon mixin _) as [e l] eqn:E.
  destruct (decide (e = SUCCESS)) as [->|Hne].
  2:{ exists e, []. split; [by destruct e|done]. }
  destruct (obscure_loop_ok mixin l vk (sort _ input_amount sources) 0 Hm) as (e & l' & -> & Hl & _); [|..|by exists e, l'].
  { by rewrite (sort_ok _ input_amount sources). }
  intros Hne j x Hx. destruct (getRingParticipants_ok _ _ _ _ H E eq_refl Hne) as [Ea Ho].
  assert (Ej : (input_amount <$> sort _ input_amount sources) !! j = Some (input_amount x)) by by rewrite list_lookup_fmap, Hx.
  rewrite <- Ea, list_lookup_fmap in Ej. simpl. destruct (l !! j) as [f|] eqn:El; [|done]. exists f. split_and!; [done| |by injection Ej].
  rewrite Forall_forall in Ho. apply Ho. by eapply list_elem_of_lookup_2.
Qed.

End honest.

(** ** The inputs of the transaction *)

Section inputs.
Context `{crypto : WalletCrypto} (key_at : Z -> Z -> option PublicKey).

Lemma relative_indexes_eq l : relative_indexes l = absolute_output_offsets_to_relative l.
Proof.
  destruct l as [|x l]; [done|]. simpl. f_equal. revert x. induction l as [|y l IH]; intros x; [done|]. simpl. f_equal. apply IH.
Qed.
Lemma relative_nonzero l : forall x, StronglySorted Z.lt (x :: l) -> Forall (in_width 32) (x :: l) -> 0 ∉ relative_loop x l.
Proof.
  induction l as [|y l IH]; intros x S W; simpl; [set_solver|]. apply StronglySorted_inv in S as [S F]. apply Forall_cons in W as [Wx W].
  rewrite elem_of_cons. intros [E|E]; [|by apply (IH y S W)]. apply Forall_cons in F as [Hlt _]. apply Forall_cons in W as [Wy _].
  rewrite wrap_small in E by width_solve. lia.
Qed.
Lemma relative_width l : forall x, Forall (in_width 32) (relative_loop x l).
Proof. induction l as [|y l IH]; intros x; simpl; [constructor|]. constructor; [by apply wrap_range|apply IH]. Qed.

(** The key input of a source and its ring. *)
Record input_for (mixin : Z) (x : TxInputAndOwner) (o : ObscuredInput) (k : KeyInput) : Prop := {
  if_amount : ki_amount k = input_amount x;
  if_image : keyImage k = wi_keyImage (io_input x);
  if_absolute : relativeOutputOffsetsToAbsolute (outputIndexes k) = gk_index <$> ob_outputs o;
  if_distinct : 0 ∉ tail (outputIndexes k);
  if_width : Forall (in_width 32) (outputIndexes k);
  if_length : Z.of_nat (length (outputIndexes k)) = mixin + 1 }.

Lemma absolute_length off : length (relativeOutputOffsetsToAbsolute off) = length off.
Proof. destruct off as [|x l]; [done|]. simpl. f_equal. revert x. induction l as [|y l IH]; intros x; simpl; [done|]. f_equal. apply IH. Qed.

Lemma ring_indexes_ok mixin x o (k := {| ki_amount := ob_amount o; outputIndexes := relative_indexes ((fun o => u32 (gk_index o)) <$> ob_outputs o);
    keyImage := wi_keyImage (io_input x) |}) : 0 <= mixin -> ring_of key_at mixin x o -> input_for mixin x o k.
Proof.
  intros Hm R. assert (E : (fun o => u32 (gk_index o)) <$> ob_outputs o = gk_index <$> ob_outputs o).
  { apply list_fmap_ext. intros j g Hg. apply wrap_small. pose proof (ro_members _ _ _ _ R) as F. rewrite Forall_forall in F. apply (F g). by eapply list_elem_of_lookup_2. }
  assert (W : Forall (in_width 32) (gk_index <$> ob_outputs o)) by (apply Forall_fmap; eapply Forall_impl; [apply R|]; by intros ? []).
  assert (A : relativeOutputOffsetsToAbsolute (outputIndexes k) = gk_index <$> ob_outputs o).
  { simpl. rewrite E, relative_indexes_eq. destruct (gk_index <$> ob_outputs o) as [|y l]; [done|]. apply Forall_cons in W as [_ W]. simpl. by rewrite absolute_relative. }
  constructor; [apply R|done|done| | |].
  - simpl. rewrite E, relative_indexes_eq. pose proof (ro_ascending _ _ _ _ R) as S. unfold ascending in S. destruct (gk_index <$> ob_outputs o) as [|y l]; [set_solver|].
    simpl. by apply relative_nonzero.
  - simpl. rewrite E, relative_indexes_eq. destruct (gk_index <$> ob_outputs o) as [|y l]; [done|]. simpl. constructor; [by apply Forall_cons in W as [? _]|apply relative_width].
  - rewrite <- absolute_length, A, length_fmap. apply R.
Qed.

Lemma setupInputs_ok vk mixin sources l : 0 <= mixin -> Forall (fun x => exists g, coherent key_at vk x g) sources -> Forall2 (ring_of key_at mixin) sources l ->
  exists ins secrets, setupInputs l vk = Ok (SUCCESS, ins, secrets) /\ length secrets = length l
    /\ Forall2 (fun '(x, o) k => input_for mixin x o k) (zip sources l) ins.
Proof.
  intros Hm Hc Hr. induction Hr as [|x o sources l R Hr IH]; cbn [setupInputs]; [exists [], []; split_and!; [done|done|constructor]|].
  apply Forall_cons in Hc as [[g C] Hc]. destruct (IH Hc) as (ins & secrets & -> & Hl & F).
  destruct (ro_real _ _ _ _ R) as [g' Er]. destruct (ro_keys _ _ _ _ R) as (K1 & K2 & K3 & K4 & K5). unfold genKeyImage. rewrite Er, K1, K2, K4, K5. simpl from_option. okbind.
  simpl publicKey. simpl gk_key. rewrite (bool_decide_eq_false_2 (_ <> _)) by (intros N; apply N; symmetry; apply C). simpl secretKey. eexists _, _. split_and!; [done|by simpl; f_equal|].
  simpl. constructor; [|done]. rewrite <- (co_key _ _ _ _ C), <- (co_image _ _ _ _ C). by apply ring_indexes_ok.
Qed.
End inputs.
