(* ===== verification/TransferMade.v ===== *)
(** * TransferMade: what is true of every transaction the wallet makes

    The parts of [makeTransaction] put together: the amounts paid, the inputs and their rings, the proof of
    work, the extra field and the signatures. *)

From Stdlib Require Import ZArith Lia.
From stdpp Require Import base tactics list numbers gmap strings sorting.
From S2P Require Import Prelude Stream StringTools Base58 Config Types Difficulty Serializer TxSerialization FormatUtils WalletUtil Addresses SubWallet SubWallets WalletSync ValidateParameters Transfer TransferRing.

Local Open Scope Z_scope.

#[local] Arguments sumZ : simpl never.

(** ** Destinations and outputs *)

Section outputs.
Context `{crypto : WalletCrypto, sending : Sending} (sort_ok : forall A f (l : list A), sort A f l ≡ₚ l).

Lemma denominations_amounts s v amount : td_amount <$> denominations_to s v amount = splitAmountIntoDenominations amount.
Proof. unfold denominations_to. rewrite <- list_fmap_compose. apply list_fmap_id. Qed.

Lemma destinations_loop_ok l : forall d, Forall (fun x => is_u64 x.2) l -> destinations_loop l = Ok d ->
  sumZ (td_amount <$> d) = sumZ (snd <$> l) /\ Forall (fun x => td_amount x ∈ PRETTY_AMOUNTS) d.
Proof.
  induction l as [|[a z] l IH]; intros d Hu E; cbn [destinations_loop] in E; [injection E as <-; by split|]. apply Forall_cons in Hu as [Hz Hu].
  destruct (addressToKeys _ _ _) as [[s v]| |]; [|done..]. revert E. okbind. destruct (destinations_loop l) as [d'| |]; okbind; [|done..].
  intros [= <-]. destruct (IH d' Hu eq_refl) as [E1 E2]. destruct (denominations_ok z Hz) as (S1 & S2 & _).
  rewrite fmap_app, denominations_amounts, sumZ_app, E1, S1, fmap_cons, sumZ_cons. split; [done|]. apply Forall_app. split; [|done].
  rewrite <- (denominations_amounts s v), Forall_fmap in S2. done.
Qed.

Lemma setupDestinations_ok l change address d : Forall (fun x => is_u64 x.2) l -> is_u64 change -> setupDestinations l change address = Ok d ->
  sumZ (td_amount <$> d) = sumZ (snd <$> l) + change /\ Forall (fun x => td_amount x ∈ PRETTY_AMOUNTS) d.
Proof.
  intros Hu Hc E. unfold setupDestinations in E. destruct (Z.eqb_spec change 0) as [->|]; simpl negb in E; cbv iota in E; apply destinations_loop_ok in E as [E1 E2].
  - split; [lia|done].
  - done.
  - rewrite fmap_app, sumZ_app in E1. split; [|done]. rewrite E1. simpl. unfold sumZ at 2. simpl. lia.
  - apply Forall_app. split; [done|]. by constructor.
Qed.

Lemma outputs_of_amounts sk l : forall i, wo_amount <$> outputs_of sk i l = td_amount <$> l.
Proof. induction l as [|d l IH]; intros i; [done|]. cbn [outputs_of]. rewrite !fmap_cons, IH. done. Qed.
Lemma outputs_of_keys sk l : forall i, Forall (fun o => exists d j s, wo_key o = derive_public_key d j s) (outputs_of sk i l).
Proof. induction l as [|d l IH]; intros i; constructor; [by eexists _, _, _|apply IH]. Qed.

Lemma setupOutputs_amounts keys d : wo_amount <$> setupOutputs keys d ≡ₚ td_amount <$> d.
Proof using sort_ok. unfold setupOutputs. rewrite outputs_of_amounts. by rewrite (sort_ok _ td_amount d). Qed.

Lemma converted_amounts l : out_amount <$> keyOutputToTransactionOutput l = wo_amount <$> l.
Proof. unfold keyOutputToTransactionOutput. rewrite <- list_fmap_compose. by apply list_fmap_ext. Qed.

(** ** Proof of work *)

Definition pow_found (tx : TransactionPrefix) (e : bytes) : Prop :=
  exists data, toBinaryArray serialize_TransactionPrefix (set_extra e tx) = Ok data
    /\ check_hash (cn_turtle_lite_slow_hash_v2 data) TRANSACTION_POW_DIFFICULTY = true.

Lemma worker_ok rounds tx count : forall extra nonce e, generateTransactionPowWorker rounds extra count nonce tx = Ok (Some e) ->
  pow_found tx e /\ exists n, e = take (length extra - 8) extra ++ le_bytes 8 n.
Proof.
  induction rounds as [|rounds IH]; intros extra nonce e E; cbn [generateTransactionPowWorker] in E; [done|].
  set (x := take (length extra - 8) extra ++ le_bytes 8 nonce) in *.
  destruct (toBinaryArray serialize_TransactionPrefix (set_extra x tx)) as [data| |] eqn:D; [|done..]. revert E. okbind.
  destruct (check_hash _ _) eqn:H; [intros [= <-]; split; [by exists data|by exists nonce]|]. intros E.
  apply IH in E as [F [n ->]]. split; [done|]. exists n. f_equal. unfold x. rewrite length_app, length_le_bytes, Nat.add_sub.
  rewrite take_app_length' by done. done.
Qed.
Lemma run_workers_ok tx count extra rounds : forall i l, run_workers extra count i rounds tx = Ok l ->
  Forall (fun e => pow_found tx e /\ exists n, e = take (length extra - 8) extra ++ le_bytes 8 n) l.
Proof.
  induction rounds as [|r rounds IH]; intros i l E; cbn [run_workers] in E; [injection E as <-; constructor|].
  destruct (generateTransactionPowWorker r extra count i tx) as [f| |] eqn:W; [|done..]. revert E. okbind.
  destruct (run_workers extra count (i + 1) rounds tx) as [l'| |] eqn:R; okbind; [|done..]. intros [= <-]. apply Forall_app. split; [|by eapply IH].
  destruct f; constructor; [by eapply worker_ok|constructor].
Qed.
Lemma pow_search_ok rounds tx extra e : generateTransactionPoW rounds tx extra = Ok e ->
  pow_found tx e /\ exists n, e = extra ++ TX_EXTRA_TRANSACTION_POW_NONCE_IDENTIFIER :: le_bytes 8 n.
Proof.
  unfold generateTransactionPoW. destruct (run_workers _ _ _ _ _) as [l| |] eqn:R; [|done..]. okbind. apply run_workers_ok in R.
  destruct l as [|f [|]]; [done| |done]. intros [= <-]. apply Forall_singleton in R as [F [n ->]]. split; [done|]. exists n.
  rewrite length_app. simpl. replace (length extra + 9 - 8)%nat with (length extra + 1)%nat by lia.
  rewrite take_app_add. simpl. by rewrite <- app_assoc.
Qed.

(** ** Signatures *)

Lemma sign_loop_ok h (ins : list KeyInput) (rings : list ObscuredInput) : forall i inputs secrets sigs,
  drop i inputs = InKey <$> ins -> length ins = length rings ->
  sign_loop h i inputs rings secrets = Ok (Some sigs) ->
  Forall2 (fun '(k, o) s => exists secret, crypto_generateRingSignatures h (keyImage k) (ring_keys o) secret (realOutput o) = (true, s)) (zip ins rings) sigs.
Proof.
  revert ins. induction rings as [|o rings IH]; intros ins i inputs secrets sigs Hd Hl E; cbn [sign_loop] in E.
  { injection E as <-. destruct ins; [constructor|done]. }
  destruct ins as [|k ins]; [done|]. simpl in Hd. assert (Hi : inputs !! i = Some (InKey k)) by (by rewrite <- (Nat.add_0_r i), <- lookup_drop, Hd).
  rewrite Hi in E. revert E. simpl from_option. okbind. cbn [get_KeyInput]. okbind. destruct (secrets !! i) as [sk|]; simpl from_option; okbind; [|done].
  destruct (crypto_generateRingSignatures h (keyImage k) (ring_keys o) sk (realOutput o)) as [[] s] eqn:G; simpl negb; cbv iota; [|done].
  destruct (sign_loop h (S i) inputs rings secrets) as [[l|]| |] eqn:R; okbind; [|done..]. intros [= <-]. constructor; [by exists sk|].
  eapply IH; [|by injection Hl|exact R]. replace (S i) with (i + 1)%nat by lia. rewrite <- drop_drop, Hd. done.
Qed.

Lemma check_signatures_ok h (ins : list KeyInput) (rings : list ObscuredInput) : forall i inputs sigs rest,
  drop i inputs = InKey <$> ins -> drop i sigs = rest -> length ins = length rings ->
  check_signatures h i inputs sigs rings = Ok true ->
  Forall2 (fun '(k, o) s => crypto_checkRingSignature h (keyImage k) (ring_keys o) s = true) (zip ins rings) (take (length rings) rest).
Proof.
  revert ins. induction rings as [|o rings IH]; intros ins i inputs sigs rest Hd Hs Hl E; cbn [check_signatures] in E.
  { destruct ins; [constructor|done]. }
  destruct ins as [|k ins]; [done|]. simpl in Hd. assert (Hi : inputs !! i = Some (InKey k)) by (by rewrite <- (Nat.add_0_r i), <- lookup_drop, Hd).
  rewrite Hi in E. revert E. simpl from_option. okbind. cbn [get_KeyInput]. okbind. destruct (sigs !! i) as [s|] eqn:Es; simpl from_option; okbind; [|done].
  destruct (crypto_checkRingSignature h (keyImage k) (ring_keys o) s) eqn:G; simpl negb; cbv iota; [|done]. intros E.
  assert (rest = s :: drop (S i) sigs) as -> by (rewrite <- Hs; by apply drop_S). simpl. constructor; [done|].
  eapply IH; [|done|by injection Hl|exact E]. replace (S i) with (i + 1)%nat by lia. rewrite <- drop_drop, Hd. done.
Qed.
End outputs.

(** ** A made transaction *)

Section made.
Context `{crypto : WalletCrypto, sending : Sending} (sort_ok : forall A f (l : list A), sort A f l ≡ₚ l).
Context (daemon : Nigel) (key_at : Z -> Z -> option PublicKey) (honest : honest_daemon daemon key_at).

(** The transaction [r] made of [sources] for [destinations], each source in its ring and each ring signed. *)
Record made (n : nat) (mixin : Z) (sources : list TxInputAndOwner) (paymentID : bytes) (destinations : list TransactionDestination)
    (unlock : Z) (extraData : bytes) (r : TransactionResult) (rings : list ObscuredInput) (ins : list KeyInput) : Prop := {
  md_rings : Forall2 (ring_of key_at mixin) (sort _ input_amount sources) rings;
  md_ins : Forall2 (fun '(x, o) k => input_for mixin x o k) (zip (sort _ input_amount sources) rings) ins;
  md_inputs : inputs (tx_prefix (tr_transaction r)) = InKey <$> ins;
  md_outputs : tr_outputs r = setupOutputs (generate_keys n) destinations
    /\ outputs (tx_prefix (tr_transaction r)) = keyOutputToTransactionOutput (tr_outputs r) /\ txKeyPair r = generate_keys n;
  md_header : version (tx_prefix (tr_transaction r)) = CURRENT_TRANSACTION_VERSION /\ unlockTime (tx_prefix (tr_transaction r)) = unlock;
  md_extra : exists e nonce, make_extra paymentID extraData (publicKey (generate_keys n)) = Ok e
    /\ extra (tx_prefix (tr_transaction r)) = e ++ TX_EXTRA_TRANSACTION_POW_NONCE_IDENTIFIER :: le_bytes 8 nonce;
  md_pow : exists data, toBinaryArray serialize_TransactionPrefix (tx_prefix (tr_transaction r)) = Ok data
    /\ check_hash (cn_turtle_lite_slow_hash_v2 data) TRANSACTION_POW_DIFFICULTY = true
    /\ Forall2 (fun '(k, o) s => (exists secret, crypto_generateRingSignatures (cn_fast_hash data) (keyImage k) (ring_keys o) secret (realOutput o) = (true, s))
         /\ crypto_checkRingSignature (cn_fast_hash data) (keyImage k) (ring_keys o) s = true) (zip ins rings) (signatures (tr_transaction r)) }.

Lemma make_sound n mixin sources paymentID destinations vk unlock extraData r :
  0 <= mixin -> Forall (fun x => exists g, coherent key_at vk x g) sources ->
  makeTransaction daemon n mixin sources paymentID destinations vk unlock extraData = Ok (inr r) ->
  exists rings ins, made n mixin sources paymentID destinations unlock extraData r rings ins.
Proof.
  intros Hm Hc E. unfold makeTransaction in E. destruct (prepare_ok daemon key_at sort_ok vk sources mixin honest Hm Hc) as (e & rings & Ep & Hr).
  rewrite Ep in E. revert E. okbind. destruct (decide (e = SUCCESS)) as [->|]; [|by destruct e]. specialize (Hr eq_refl).
  destruct (setupInputs_ok key_at vk mixin (sort _ input_amount sources) rings Hm) as (ins & secrets & -> & Hls & Hi); [by rewrite (sort_ok _ input_amount sources)|done|].
  okbind. destruct (make_extra _ _ _) as [e1| |] eqn:Ee; okbind; [|done..]. destruct (generateTransactionPoW _ _ _) as [e2| |] eqn:Ew; okbind; [|done..].
  apply pow_search_ok in Ew as [(data & Hd & Hh) [nonce ->]]. unfold generateRingSignatures, wallet_getTransactionHash. rewrite Hd. okbind.
  assert (Hln : length ins = length rings).
  { apply Forall2_length in Hi, Hr. rewrite length_zip_with in Hi. lia. }
  destruct (sign_loop _ _ _ _ _) as [[sigs|]| |] eqn:Es; okbind; [|done..]. destruct (check_signatures _ _ _ _ _) as [[]| |] eqn:Ec; okbind; [|done..].
  intros [= <-]. apply (sign_loop_ok _ ins) in Es; [|done|done]. apply (check_signatures_ok _ ins _ _ _ _ sigs) in Ec; [|done..].
  assert (Hsl := Forall2_length _ _ _ Es). rewrite length_zip_with in Hsl. rewrite take_ge in Ec by lia.
  exists rings, ins. constructor; [done|done|done|done|done|by exists e1, nonce|]. exists data. split_and!; [done..|]. simpl.
  clear -Es Ec. revert Ec. induction Es as [|[k o] s l sigs H1 _ IH]; intros Ec; inversion Ec; subst; constructor; auto.
Qed.

(** The inputs spend exactly the sources, each in a ring of its own. *)
Lemma made_inputs n mixin sources pid ds ul ed r rings ins : made n mixin sources pid ds ul ed r rings ins ->
  ki_amount <$> ins ≡ₚ input_amount <$> sources /\ keyImage <$> ins ≡ₚ (fun x => wi_keyImage (io_input x)) <$> sources.
Proof using sort_ok.
  intros M. pose proof (md_rings _ _ _ _ _ _ _ _ _ _ M) as Hr. pose proof (md_ins _ _ _ _ _ _ _ _ _ _ M) as Hi.
  rewrite <- (sort_ok _ input_amount sources). generalize dependent (sort _ input_amount sources). intros l Hr Hi.
  assert (E : ki_amount <$> ins = input_amount <$> l /\ keyImage <$> ins = (fun x => wi_keyImage (io_input x)) <$> l).
  { clear M. revert ins Hi. induction Hr as [|x o l rings R Hr IH]; intros ins Hi; inversion Hi as [|? k ? ins' F Hi']; subst; [done|].
    destruct (IH ins' Hi') as [E1 E2]. rewrite !fmap_cons, E1, E2, (if_amount _ _ _ _ F), (if_image _ _ _ _ F). done. }
  destruct E as [-> ->]. done.
Qed.
End made.
