(* ===== verification/TransferSend.v ===== *)
(** * TransferSend: what sending a transaction does

    The inputs the wallet may choose and how they are locked, the run of [sendTransactionAdvanced] from the checks to
    the relay, and the properties of sending. *)

From Stdlib Require Import ZArith Lia.
From stdpp Require Import base tactics list numbers gmap strings sorting.
From S2P Require Import Prelude Stream StringTools Base58 Config Types Difficulty Serializer TxSerialization FormatUtils WalletUtil Addresses SubWallet SubWallets WalletInvariant WalletSync ValidateParameters Transfer TransferRing TransferMade.

Local Open Scope Z_scope.

#[local] Arguments sumZ : simpl never.

Definition image_of (x : TxInputAndOwner) : KeyImage := wi_keyImage (io_input x).

(** ** The inputs a wallet may choose *)

(** An unspent input with its owner's keys. *)
Definition source_of (w : SubWallets) (x : TxInputAndOwner) : Prop :=
  exists s, m_subWallets w !! io_publicSpendKey x = Some s /\ io_input x ∈ m_unspentInputs s /\ io_privateSpendKey x = m_privateSpendKey s.

Lemma wallets_of_ok w keys : forall wallets, wallets_of w keys = Ok wallets -> Forall2 (fun k s => m_subWallets w !! k = Some s) keys wallets.
Proof.
  induction keys as [|k keys IH]; intros wallets E; cbn [wallets_of] in E; [injection E as <-; constructor|]. unfold at_subWallet in E.
  destruct (m_subWallets w !! k) as [s|] eqn:Ek; [|done]. revert E. okbind. destruct (wallets_of w keys) as [l| |]; okbind; [|done..]. intros [= <-]. constructor; [done|auto].
Qed.

Lemma spendable_of now h s x : x ∈ getSpendableInputs now h s ->
  io_input x ∈ m_unspentInputs s /\ io_publicSpendKey x = m_publicSpendKey s /\ io_privateSpendKey x = m_privateSpendKey s.
Proof. unfold getSpendableInputs. intros (i & -> & [_ Hi]%list_elem_of_filter)%list_elem_of_fmap. done. Qed.

Section sources.
Context (w : SubWallets) (C : wallet_consistent w) (V : m_isViewWallet w = false) (now h : Z).

Lemma available_sources keys wallets : wallets_of w keys = Ok wallets -> Forall (source_of w) (available_inputs now h wallets).
Proof.
  intros E. apply wallets_of_ok in E. unfold available_inputs. induction E as [|k s keys wallets Ek _ IH]; [constructor|]. rewrite fmap_cons. apply Forall_app. split; [|done].
  apply Forall_forall. intros x [_ Hx]%list_elem_of_filter. apply spendable_of in Hx as (? & Ep & ?). exists s. rewrite Ep, (ws_own w (wc_shape w C) k s Ek). done.
Qed.

Lemma spendable_images s : image_of <$> filter (fun i => INPUT_NOT_SENDING <= input_amount i) (getSpendableInputs now h s) ⊆+ getKeyImages s.
Proof.
  etrans; [apply fmap_submseteq, sublist_submseteq, sublist_filter|]. unfold getSpendableInputs. rewrite <- list_fmap_compose.
  etrans; [apply (fmap_submseteq wi_keyImage), sublist_submseteq, sublist_filter|]. unfold getKeyImages. by apply submseteq_inserts_r.
Qed.

Lemma available_nodup keys wallets : NoDup keys -> wallets_of w keys = Ok wallets -> NoDup (image_of <$> available_inputs now h wallets).
Proof using C V.
  intros Nd E. apply wallets_of_ok in E. unfold available_inputs. induction E as [|k s keys wallets Ek E IH]; [apply NoDup_nil_2|].
  apply NoDup_cons in Nd as [Hk Nd]. rewrite fmap_cons. change (mjoin (?a :: ?b)) with (a ++ mjoin b). rewrite fmap_app. apply NoDup_app. split_and!; [| |auto].
  - pose proof (spendable_images s) as Hs. apply submseteq_Permutation in Hs as [r Hr]. pose proof (iu_images w (wc_unique w C) V k s Ek) as Ni. rewrite Hr in Ni. by apply NoDup_app in Ni as [? _].
  - intros i Hi Hj. assert (Hs : i ∈ getKeyImages s) by (eapply elem_of_submseteq; [exact Hi|apply spendable_images]). pose proof (iu_owners w (wc_unique w C) V k s i Ek Hs) as Ow.
    apply list_elem_of_fmap in Hj as (x & -> & Hx). apply list_elem_of_join in Hx as (l & Hx & Hl). apply list_elem_of_fmap in Hl as (s' & -> & Hl).
    apply list_elem_of_lookup in Hl as [j Hj]. destruct (Forall2_lookup_r _ _ _ _ _ E Hj) as (k' & Hk' & Es').
    assert (Hx' : image_of x ∈ getKeyImages s') by (eapply elem_of_submseteq; [|apply (spendable_images s')]; by apply list_elem_of_fmap_2).
    pose proof (iu_owners w (wc_unique w C) V k' s' _ Es' Hx') as Ow'. assert (k' = k) as -> by congruence. apply Hk. by eapply list_elem_of_lookup_2.
Qed.
End sources.

(** ** Locking the inputs *)

(** The chosen inputs of the address [k] went from unspent to locked. *)
Definition locks (chosen : list TxInputAndOwner) (k : PublicKey) (s s' : SubWallet) : Prop :=
  let own := filter (fun x => io_publicSpendKey x = k) chosen in
  m_unspentInputs s' = filter (fun i => wi_keyImage i ∉ image_of <$> own) (m_unspentInputs s)
  /\ m_lockedInputs s' = m_lockedInputs s ++ (io_input <$> own) /\ m_spentInputs s' = m_spentInputs s.

Lemma lock_one s x : NoDup (wi_keyImage <$> m_unspentInputs s) -> x ∈ m_unspentInputs s ->
  let s' := SubWallet_markInputAsLocked (wi_keyImage x) s in
  m_unspentInputs s' = filter (fun i => wi_keyImage i <> wi_keyImage x) (m_unspentInputs s)
  /\ m_lockedInputs s' = m_lockedInputs s ++ [x] /\ m_spentInputs s' = m_spentInputs s.
Proof.
  intros Nd Hx. cbv zeta. apply list_elem_of_split in Hx as (l1 & l2 & El). unfold SubWallet_markInputAsLocked. rewrite El in *.
  rewrite fmap_app, fmap_cons in Nd. apply NoDup_app in Nd as (N1 & D & [Hn N2]%NoDup_cons).
  assert (F1 : Forall (fun i => wi_keyImage i <> wi_keyImage x) l1).
  { apply Forall_forall. intros i Hi E. apply (D (wi_keyImage i)); [by apply list_elem_of_fmap_2|]. rewrite E. set_solver. }
  assert (F2 : Forall (fun i => wi_keyImage i <> wi_keyImage x) l2).
  { apply Forall_forall. intros i Hi E. apply Hn. rewrite <- E. by apply list_elem_of_fmap_2. }
  rewrite find_erase_app by done. simpl. split_and!; [|done|done].
  rewrite filter_app, filter_cons_False by (intros ?; done). by rewrite !filter_all.
Qed.

Lemma lock_inputs_ok chosen : forall w, m_isViewWallet w = false -> (forall k s, m_subWallets w !! k = Some s -> NoDup (wi_keyImage <$> m_unspentInputs s)) ->
  Forall (fun x => exists s, m_subWallets w !! io_publicSpendKey x = Some s /\ io_input x ∈ m_unspentInputs s) chosen -> NoDup (image_of <$> chosen) ->
  exists w', lock_inputs chosen w = Ok w' /\ forall k, option_Forall2 (locks chosen k) (m_subWallets w !! k) (m_subWallets w' !! k).
Proof.
  induction chosen as [|x chosen IH]; intros w V Nd Hs Hn; unfold lock_inputs; cbn [foldM].
  { exists w. split; [done|]. intros k. destruct (m_subWallets w !! k) as [s|]; constructor. unfold locks. simpl. rewrite app_nil_r. split_and!; [|done|done].
    symmetry. apply filter_all, Forall_forall. set_solver. }
  apply Forall_cons in Hs as [(s & Es & Hx) Hs]. rewrite fmap_cons in Hn. apply NoDup_cons in Hn as [Hnx Hn].
  unfold markInputAsLocked, throwIfViewWallet, at_subWallet. rewrite V, Es. okbind. set (k0 := io_publicSpendKey x) in *.
  destruct (lock_one s (io_input x) (Nd _ _ Es) Hx) as (U & L & P). cbv zeta in *. fold (image_of x) in *.
  set (s1 := SubWallet_markInputAsLocked (image_of x) s) in *. set (w1 := set_subWallets (<[k0 := s1]> (m_subWallets w)) w).
  destruct (IH w1) as (w' & Ew & Hw).
  - done.
  - intros k t Et. simpl in Et. apply lookup_insert_Some in Et as [[<- <-]|[_ Et]]; [|eauto]. rewrite U. eapply sublist_NoDup; [apply (Nd _ _ Es)|]. apply fmap_sublist, sublist_filter.
  - apply Forall_forall. intros y Hy. rewrite Forall_forall in Hs. destruct (Hs y Hy) as (t & Et & Ht). simpl. destruct (decide (io_publicSpendKey y = k0)) as [E|E].
    + rewrite E in *. exists s1. rewrite lookup_insert_eq. split; [done|]. rewrite U. assert (t = s) as -> by congruence. apply list_elem_of_filter. split; [|done].
      intros Ei. apply Hnx. change (image_of x ∈ image_of <$> chosen). unfold image_of in Ei |- *. rewrite <- Ei. apply (list_elem_of_fmap_2 (fun y => wi_keyImage (io_input y))). done.
    + exists t. by rewrite lookup_insert_ne.
  - done.
  - exists w'. split; [done|]. intros k. specialize (Hw k). simpl in Hw. unfold locks in *. destruct (decide (k0 = k)) as [<-|Hk].
    + rewrite lookup_insert_eq in Hw. rewrite Es. inversion Hw as [? s' (U' & L' & P')|]; subst. constructor. rewrite filter_cons_True by done.
      rewrite !fmap_cons, U', L', P', U, L, P. rewrite list_filter_filter, <- app_assoc. split_and!; [|done|done].
      apply list_filter_iff. intros i. rewrite not_elem_of_cons. unfold image_of at 2. tauto.
    + rewrite lookup_insert_ne in Hw by done. rewrite filter_cons_False by done. done.
Qed.

(** ** What is recorded *)

Section record.
Context `{crypto : WalletCrypto}.

(** The inputs of every address are as they were. *)
Definition same_vectors (s s' : SubWallet) : Prop :=
  m_unspentInputs s' = m_unspentInputs s /\ m_lockedInputs s' = m_lockedInputs s /\ m_spentInputs s' = m_spentInputs s.
Definition inputs_kept (w w' : SubWallets) : Prop :=
  m_isViewWallet w' = m_isViewWallet w /\ forall k, option_Forall2 same_vectors (m_subWallets w !! k) (m_subWallets w' !! k).

Lemma same_wallets_kept w w' : m_subWallets w' = m_subWallets w -> m_isViewWallet w' = m_isViewWallet w -> inputs_kept w w'.
Proof. intros E1 E2. split; [done|]. intros k. rewrite E1. destruct (_ !! k); constructor. done. Qed.
#[global] Instance inputs_kept_trans : Transitive inputs_kept.
Proof.
  intros a b c [V1 H1] [V2 H2]. split; [congruence|]. intros k. specialize (H1 k). specialize (H2 k). destruct H1 as [s t (?&?&?)|]; inversion H2 as [? u (?&?&?)|]; constructor.
  unfold same_vectors. split_and!; congruence.
Qed.
Lemma incoming_kept i k w : inputs_kept w (storeUnconfirmedIncomingInput i k w).
Proof.
  unfold storeUnconfirmedIncomingInput. destruct (m_subWallets w !! k) as [s|] eqn:E; [|by apply same_wallets_kept]. split; [done|]. intros j. simpl.
  destruct (decide (k = j)) as [<-|]; [rewrite lookup_insert_eq, E; by constructor|]. rewrite lookup_insert_ne by done. destruct (_ !! j); constructor. done.
Qed.
Lemma unconfirmed_kept d h l : forall i w, inputs_kept w (unconfirmed_loop d h i l w).
Proof.
  induction l as [|o l IH]; intros i w; cbn [unconfirmed_loop]; [by apply same_wallets_kept|].
  case_bool_decide; [etrans; [apply incoming_kept|apply IH]|apply IH].
Qed.

Lemma record_sent_ok hash fee pid chosen change required r w spendKey viewKey : wallet_consistent w -> m_isViewWallet w = false ->
  addressToKeys cn_fast_hash check_key change = Ok (spendKey, viewKey) -> Forall (source_of w) chosen -> NoDup (image_of <$> chosen) ->
  exists w', record_sent hash fee pid chosen change required r w = Ok w' /\ forall k, option_Forall2 (locks chosen k) (m_subWallets w !! k) (m_subWallets w' !! k).
Proof.
  intros C V Ea Hs Hn. unfold record_sent, storeSentTransaction. rewrite Ea. okbind.
  match goal with |- context [addUnconfirmedTransaction ?t w] => set (w1 := addUnconfirmedTransaction t w) end.
  set (w2 := storeTxPrivateKey _ _ _). assert (K : inputs_kept w w2).
  { etrans; [|etrans; [apply unconfirmed_kept|by apply same_wallets_kept]]. unfold w1, addUnconfirmedTransaction. case_bool_decide; by apply same_wallets_kept. }
  destruct K as [Kv Kk]. destruct (lock_inputs_ok chosen w2) as (w' & Ew & Hw).
  - by rewrite Kv.
  - intros k s E. specialize (Kk k). rewrite E in Kk. inversion Kk as [t ? (Eu & _ & _) Et|]; subst. symmetry in Et. rewrite Eu. pose proof (iu_images w (wc_unique w C) V k t Et) as Nd.
    unfold getKeyImages in Nd. by apply NoDup_app in Nd as [? _].
  - eapply Forall_impl; [exact Hs|]. intros x (s & E & Hx & _). specialize (Kk (io_publicSpendKey x)). rewrite E in Kk. inversion Kk as [? t (U & _ & _) E1 Et|]; subst. exists t. by rewrite U.
  - done.
  - exists w'. split; [done|]. intros k. specialize (Hw k). specialize (Kk k). destruct Kk as [s t (U & L & P)|]; inversion Hw as [? u (U' & L' & P')|]; subst; constructor.
    unfold locks. rewrite U', L', P', U, L, P. done.
Qed.

(** Recording is a sequence of operations of the wallet. *)
Lemma unconfirmed_steps d l : forall der h i w, rtc (wallet_step d true) w (unconfirmed_loop der h i l w).
Proof.
  induction l as [|o l IH]; intros der h i w; cbn [unconfirmed_loop]; [done|]. case_bool_decide; [|apply IH]. eapply rtc_l; [apply step_incoming|apply IH].
Qed.
Lemma lock_steps d chosen : forall w w', lock_inputs chosen w = Ok w' -> rtc (wallet_step d true) w w'.
Proof.
  induction chosen as [|x chosen IH]; intros w w' E; unfold lock_inputs in E; cbn [foldM] in E; [by injection E as <-|].
  destruct (markInputAsLocked _ _ w) as [w1| |] eqn:L; [|done..]. eapply rtc_l; [by eapply step_locked|]. by apply IH.
Qed.
Lemma record_steps d hash fee pid chosen change required r w w' : record_sent hash fee pid chosen change required r w = Ok w' -> rtc (wallet_step d true) w w'.
Proof.
  unfold record_sent, storeSentTransaction. intros E. destruct (addressToKeys _ _ change) as [[s v]| |]; [|done..]. revert E. okbind. intros E. apply (lock_steps d) in E.
  etrans; [|exact E]. eapply rtc_l; [apply step_unconfirmed|]. eapply rtc_r; [apply unconfirmed_steps|apply step_txKey].
Qed.
End record.

(** ** A run of [sendTransactionAdvanced] *)

Section run.
Context `{crypto : WalletCrypto, sending : Sending} (daemon : Nigel).

(** The destinations with the fee of the node. *)
Definition with_node_fee (l : list (bytes * Z)) : list (bytes * Z) :=
  if negb ((nodeFee daemon).1 =? 0) then l ++ [((nodeFee daemon).2, (nodeFee daemon).1)] else l.

(** The run of a transaction that was sent. *)
Record run (destinations : list (bytes * Z)) (mixin fee : Z) (paymentID : bytes) (sources : list bytes) (change : bytes) (unlock : Z) (extraData : bytes)
    (w : SubWallets) (h : Hash) (w' : SubWallets) (change' paymentID' : bytes) (paid : list (bytes * Z)) (keys : list PublicKey)
    (chosen : list TxInputAndOwner) (found : Z) (ds : list TransactionDestination) (r : TransactionResult) : Prop := {
  run_change : (if bool_decide (change = []) then getPrimaryAddress w else Ok change) = Ok change';
  run_valid : validateTransaction (clock 0) (with_node_fee destinations) mixin fee paymentID sources change' w unlock (networkBlockCount daemon 0) = Ok SUCCESS;
  run_extract : extract_integrated_loop (with_node_fee destinations) paymentID = Ok (paid, paymentID');
  run_keys : addressesToSpendKeys cn_fast_hash check_key sources = Ok keys;
  run_choose : getTransactionInputsForAmount shuffle (clock 1) (u64 (getTransactionSum paid + fee)) (bool_decide (sources = [])) keys (networkBlockCount daemon 1) w
    = Ok (chosen, found);
  run_destinations : setupDestinations paid (u64 (found - u64 (getTransactionSum paid + fee))) change' = Ok ds;
  run_make : makeTransaction daemon 0 mixin chosen paymentID' ds (m_privateViewKey w) unlock extraData = Ok (inr r);
  run_size : isTransactionPayloadTooBig (tr_transaction r) (networkBlockCount daemon 2) = Ok SUCCESS;
  run_amounts : verifyAmounts (tr_transaction r) = true;
  run_fee : verifyTransactionFee fee (tr_transaction r) = Ok true;
  run_relay : relayTransaction daemon (tr_transaction r) = Ok (SUCCESS, h);
  run_record : record_sent h fee paymentID' chosen change' (u64 (found - u64 (getTransactionSum paid + fee))) r w = Ok w' }.

(** Every other end of the call leaves the wallet as it was. *)
Lemma send_cases destinations mixin fee paymentID sources change unlock extraData w e h w' :
  sendTransactionAdvanced daemon destinations mixin fee paymentID sources change unlock extraData w = Ok (e, h, w') ->
  (e <> SUCCESS /\ h = NULL_HASH /\ w' = w)
  \/ (e = SUCCESS /\ exists change' paymentID' paid keys chosen found ds r,
        run destinations mixin fee paymentID sources change unlock extraData w h w' change' paymentID' paid keys chosen found ds r).
Proof.
  unfold sendTransactionAdvanced. destruct (nodeFee daemon) as [feeAmount feeAddress] eqn:Ef.
  assert (Ew : (if negb (feeAmount =? 0) then destinations ++ [(feeAddress, feeAmount)] else destinations) = with_node_fee destinations) by (unfold with_node_fee; by rewrite Ef).
  rewrite Ew. destruct (if bool_decide (change = []) then _ else _) as [change'| |] eqn:Ec; okbind; [|done..].
  destruct (validateTransaction _ _ _ _ _ _ _ _ _ _) as [v| |] eqn:Ev; okbind; [|done..]. destruct (decide (v = SUCCESS)) as [->|Hv].
  2:{ intros E. left. destruct v; try done; injection E as <- <- <-; done. }
  destruct (extract_integrated_loop _ _) as [[paid paymentID']| |] eqn:Ei; okbind; [|done..].
  destruct (addressesToSpendKeys _ _ _) as [keys| |] eqn:Ek; okbind; [|done..].
  destruct (getTransactionInputsForAmount _ _ _ _ _ _ _) as [[chosen found]| |] eqn:Eg; okbind; [|done..].
  destruct (setupDestinations _ _ _) as [ds| |] eqn:Ed; okbind; [|done..].
  destruct (makeTransaction _ _ _ _ _ _ _ _ _) as [[me|r]| |] eqn:Em; okbind; [| |done..].
  { intros [= <- <- <-]. left. split; [|done]. unfold makeTransaction in Em. intros ->.
    destruct (prepareRingParticipants _ _ _) as [[pe ?]| |]; revert Em; okbind; [|done..]. destruct (decide (pe = SUCCESS)) as [->|]; [|destruct pe; done].
    destruct (setupInputs _ _) as [[[ie ?] ?]| |]; okbind; [|done..]. destruct (decide (ie = SUCCESS)) as [->|]; [|destruct ie; done].
    destruct (make_extra _ _ _) as [?| |]; okbind; [|done..]. destruct (generateTransactionPoW _ _ _) as [?| |]; okbind; [|done..].
    destruct (generateRingSignatures _ _ _) as [[?|]| |]; okbind; done. }
  destruct (isTransactionPayloadTooBig _ _) as [se| |] eqn:Es; okbind; [|done..]. destruct (decide (se = SUCCESS)) as [->|Hse].
  2:{ intros E. left. destruct se; try done; injection E as <- <- <-; done. }
  destruct (verifyAmounts _) eqn:Ea; simpl negb; cbv iota; [|intros [= <- <- <-]; by left].
  destruct (verifyTransactionFee _ _) as [[]| |] eqn:Evf; okbind; [|intros [= <- <- <-]; by left|done..].
  destruct (relayTransaction _ _) as [[re txHash]| |] eqn:Er; okbind; [|done..]. destruct (decide (re = SUCCESS)) as [->|Hre].
  2:{ intros E. left. destruct re; try done; injection E as <- <- <-; done. }
  destruct (record_sent _ _ _ _ _ _ _ _) as [w1| |] eqn:Erec; okbind; [|done..]. intros [= <- <- <-]. right. split; [done|].
  by exists change', paymentID', paid, keys, chosen, found, ds, r.
Qed.
End run.

(** ** The amounts of a run *)

Lemma take_until_sound amount l : forall acc f c g, f = u64 (sumZ (input_amount <$> acc)) -> take_until amount acc f l = Ok (c, g) ->
  exists p, sublist p l /\ c = acc ++ p /\ g = u64 (sumZ (input_amount <$> c)) /\ amount <= g.
Proof.
  induction l as [|x l IH]; intros acc f c g Hf E; cbn [take_until] in E; [done|]. destruct (INPUT_NOT_SENDING <=? input_amount x).
  - assert (Ef : u64 (f + input_amount x) = u64 (sumZ (input_amount <$> acc ++ [x]))).
    { rewrite Hf, wrap_add_l, fmap_app, sumZ_app. f_equal. unfold sumZ. simpl. lia. }
    destruct (Z.leb_spec amount (u64 (f + input_amount x))).
    + injection E as <- <-. exists [x]. split_and!; [apply sublist_skip, sublist_nil_l|done|done|done].
    + apply IH in E as (p & Hp & -> & Hg & Ha); [|done]. exists (x :: p). rewrite <- app_assoc in *. split_and!; [by apply sublist_skip|done|done|done].
  - apply IH in E as (p & Hp & ? & ? & ?); [|done]. exists p. split_and!; [by apply sublist_cons|done..].
Qed.

Section amounts.
Context `{crypto : WalletCrypto, sending : Sending} (shuffle_ok : forall A (l : list A), shuffle A l ≡ₚ l).

Lemma choose_sound now amount (all : bool) keys height w chosen found :
  getTransactionInputsForAmount shuffle now amount all keys height w = Ok (chosen, found) ->
  m_isViewWallet w = false /\ exists wallets, wallets_of w (if all then m_publicSpendKeys w else keys) = Ok wallets
    /\ chosen ⊆+ available_inputs now height wallets /\ found = u64 (sumZ (input_amount <$> chosen)) /\ amount <= found.
Proof using shuffle_ok.
  unfold getTransactionInputsForAmount, throwIfViewWallet. destruct (m_isViewWallet w); [done|]. okbind. destruct (wallets_of w _) as [wallets| |]; okbind; [|done..].
  intros E. apply take_until_sound in E as (p & Hp & -> & Hf & Ha); [|done]. split; [done|]. exists wallets. split_and!; [done| |done|done].
  rewrite <- (shuffle_ok _ (available_inputs now height wallets)). by apply sublist_submseteq.
Qed.

Lemma extract_amounts l : forall pid l' pid', extract_integrated_loop l pid = Ok (l', pid') -> snd <$> l' = snd <$> l.
Proof.
  induction l as [|[a z] l IH]; intros pid l' pid' E; cbn [extract_integrated_loop] in E; [by injection E as <- <-|].
  destruct (negb _).
  - destruct (extract_integrated_loop l pid) as [[m p]| |] eqn:R; [|done..]. revert E. okbind. intros [= <- <-]. rewrite !fmap_cons. f_equal. eauto.
  - destruct (extractIntegratedAddressData _ a) as [[a' p']| |]; [|done..]. revert E. okbind. destruct (extract_integrated_loop l p') as [[m p]| |] eqn:R; okbind; [|done..].
    intros [= <- <-]. rewrite !fmap_cons. f_equal. eauto.
Qed.

Lemma validated now dests mixin fee pid sources change w unlock height : is_u64 fee -> Forall (fun d => is_u64 d.2) dests ->
  validateTransaction now dests mixin fee pid sources change w unlock height = Ok SUCCESS ->
  getMinimumFee height <= fee /\ 0 <= sumZ (snd <$> dests) + fee < 2 ^ 64 /\ (getMixinAllowableRange height).1.1 <= mixin <= (getMixinAllowableRange height).1.2
  /\ exists s v, addressToKeys cn_fast_hash check_key change = Ok (s, v).
Proof.
  intros Hf Hd. unfold validateTransaction. rewrite !and_then_success, !our_addresses_success, amount_success by done.
  intros (_ & _ & _ & [Hm (keys & av & lo & _ & Eb & Hle)] & [= Hx] & _ & Hc & _). apply mixin_success in Hx. rewrite Forall_singleton in Hc.
  apply balance_is_u64 in Eb. destruct Hc as [_ (s & v & Es & _)].
  assert (0 <= sumZ (snd <$> dests)) by (apply sumZ_nonneg, Forall_fmap; eapply Forall_impl; [exact Hd|]; simpl; width_solve).
  split_and!; [done|width_solve|width_solve|lia|lia|by exists s, v].
Qed.

Lemma verify_fee_exact fee tx ins : inputs (tx_prefix tx) = InKey <$> ins -> is_u64 fee ->
  sumZ (ki_amount <$> ins) = sumZ (out_amount <$> outputs (tx_prefix tx)) + fee -> verifyTransactionFee fee tx = Ok true.
Proof.
  intros Ei Hf Es. unfold verifyTransactionFee. rewrite Ei.
  assert (E1 : forall l a, foldM (fun t i => k ← get_KeyInput i; Ok (u64 (t + ki_amount k))) (u64 a) (InKey <$> l) = Ok (u64 (a + sumZ (ki_amount <$> l)))).
  { induction l as [|k l IH]; intros a; [unfold sumZ; simpl; by rewrite Z.add_0_r|].
    rewrite !fmap_cons, sumZ_cons. cbn [foldM get_KeyInput mbind outcome_bind]. rewrite wrap_add_l, IH. do 2 f_equal. lia. }
  change (foldM _ 0 (InKey <$> ins)) with (foldM (fun t i => k ← get_KeyInput i; Ok (u64 (t + ki_amount k))) (u64 0) (InKey <$> ins)). rewrite E1. okbind.
  rewrite (foldl_sum out_amount) by by_compute. rewrite !Z.add_0_l, Es. f_equal. apply Z.eqb_eq.
  unfold wrap. rewrite <- Zminus_mod. replace (_ + fee - _) with fee by lia. symmetry. apply Z.mod_small. width_solve.
Qed.
End amounts.

(** ** Sent transactions *)

(** A wallet whose inputs are as scanning stores them, on a chain whose outputs are [key_at], and worth less
    than 2^64 in all. *)
Record good_wallet `{WalletCrypto} (key_at : Z -> Z -> option PublicKey) (w : SubWallets) : Prop := {
  gw_consistent : wallet_consistent w;
  gw_coherent : forall x, source_of w x -> exists g, coherent key_at (m_privateViewKey w) x g;
  gw_bounded : forall l, Forall (source_of w) l -> NoDup (image_of <$> l) -> sumZ (input_amount <$> l) < 2 ^ 64 }.

Section sent.
Context `{crypto : WalletCrypto, sending : Sending} (daemon : Nigel) (key_at : Z -> Z -> option PublicKey).
Context (sort_ok : forall A f (l : list A), sort A f l ≡ₚ l) (shuffle_ok : forall A (l : list A), shuffle A l ≡ₚ l).
Context (honest : honest_daemon daemon key_at) (w : SubWallets) (G : good_wallet key_at w).
Context (destinations : list (bytes * Z)) (mixin fee : Z) (paymentID : bytes) (sources : list bytes) (change : bytes) (unlock : Z) (extraData : bytes).
Context (Hfee : is_u64 fee) (Hmixin : is_u64 mixin) (Hamounts : Forall (fun d => is_u64 d.2) (with_node_fee daemon destinations)).
Context (Hsources : forall keys, addressesToSpendKeys cn_fast_hash check_key sources = Ok keys -> NoDup keys).

Lemma run_made h w' change' paymentID' paid keys chosen found ds r :
  run daemon destinations mixin fee paymentID sources change unlock extraData w h w' change' paymentID' paid keys chosen found ds r ->
  Forall (source_of w) chosen /\ NoDup (image_of <$> chosen)
  /\ found = sumZ (input_amount <$> chosen) /\ 0 <= found - (sumZ (snd <$> with_node_fee daemon destinations) + fee)
  /\ sumZ (td_amount <$> ds) + fee = found /\ Forall (fun d => td_amount d ∈ PRETTY_AMOUNTS) ds
  /\ exists rings ins, made key_at 0 mixin chosen paymentID' ds unlock extraData r rings ins.
Proof using sort_ok shuffle_ok honest G Hfee Hmixin Hamounts Hsources.
  intros R. destruct (choose_sound shuffle_ok _ _ _ _ _ _ _ _ (run_choose _ _ _ _ _ _ _ _ _ _ _ _ _ _ _ _ _ _ _ _ R)) as (V & wallets & Ew & Hsub & Hfound & Hle).
  pose proof (run_extract _ _ _ _ _ _ _ _ _ _ _ _ _ _ _ _ _ _ _ _ R) as Ee. apply extract_amounts in Ee.
  destruct (validated _ _ _ _ _ _ _ _ _ _ Hfee Hamounts (run_valid _ _ _ _ _ _ _ _ _ _ _ _ _ _ _ _ _ _ _ _ R)) as (_ & Hsum & _ & _).
  assert (Et : u64 (getTransactionSum paid + fee) = sumZ (snd <$> with_node_fee daemon destinations) + fee).
  { rewrite getTransactionSum_ok, wrap_add_l, Ee. apply wrap_small. split; [lia|]. by destruct Hsum. }
  assert (Hc : Forall (source_of w) chosen).
  { apply (available_sources w (gw_consistent _ _ G) (clock 1) (networkBlockCount daemon 1)) in Ew. rewrite Forall_forall in Ew. apply Forall_forall. intros x Hx. apply Ew. by eapply elem_of_submseteq. }
  assert (Hn : NoDup (image_of <$> chosen)).
  { eapply (available_nodup w (gw_consistent _ _ G) V (clock 1) (networkBlockCount daemon 1)) in Ew.
    - pose proof (fmap_submseteq image_of _ _ Hsub) as Hi. apply submseteq_Permutation in Hi as [l Hl]. rewrite Hl in Ew. by apply NoDup_app in Ew as [? _].
    - case_bool_decide; [apply G|]. by apply Hsources, (run_keys _ _ _ _ _ _ _ _ _ _ _ _ _ _ _ _ _ _ _ _ R). }
  assert (Hf : found = sumZ (input_amount <$> chosen)).
  { rewrite Hfound. apply wrap_small. split; [|by apply (gw_bounded _ _ G)]. apply sumZ_nonneg, Forall_fmap. eapply Forall_impl; [exact Hc|]. intros x Hx.
    destruct (gw_coherent _ _ G x Hx) as [g Cx]. pose proof (co_amount _ _ _ _ Cx). simpl. width_solve. }
  rewrite Et in Hle. pose proof (run_destinations _ _ _ _ _ _ _ _ _ _ _ _ _ _ _ _ _ _ _ _ R) as Ed. rewrite Et in Ed.
  assert (Hfb : found < 2 ^ 64) by (rewrite Hf; by apply (gw_bounded _ _ G)).
  rewrite wrap_small in Ed by (split; [lia|]; destruct Hsum; lia). apply setupDestinations_ok in Ed as [Ed1 Ed2].
  2:{ rewrite Forall_forall in Hamounts. apply Forall_forall. intros x Hx. apply (list_elem_of_fmap_2 snd) in Hx. rewrite Ee in Hx. apply list_elem_of_fmap in Hx as (y & -> & Hy). by apply Hamounts. }
  2:{ split; [lia|]. destruct Hsum. lia. }
  rewrite Ee in Ed1. split_and!; [done..|lia|lia|done|].
  eapply (make_sound sort_ok daemon key_at honest); [width_solve| |exact (run_make _ _ _ _ _ _ _ _ _ _ _ _ _ _ _ _ _ _ _ _ R)].
  eapply Forall_impl; [exact Hc|]. apply (gw_coherent _ _ G).
Qed.
End sent.

(** ** Properties *)

(** What a transaction that was sent is: relayed to the daemon under its own hash, spending distinct unspent inputs of the wallet,
    with outputs in allowed denominations, and taking exactly the fee more than it pays. *)
Record sent_for `{WalletCrypto} (daemon : Nigel) (w : SubWallets) (fee : Z) (h : Hash) (tx : Transaction) (chosen : list TxInputAndOwner) (ins : list KeyInput) : Prop := {
  sf_relayed : sendTransaction daemon tx = (true, false) /\ exists data, toBinaryArray serialize_Transaction tx = Ok data /\ h = cn_fast_hash data;
  sf_sources : Forall (source_of w) chosen /\ NoDup (image_of <$> chosen);
  sf_inputs : inputs (tx_prefix tx) = InKey <$> ins /\ keyImage <$> ins ≡ₚ image_of <$> chosen /\ ki_amount <$> ins ≡ₚ input_amount <$> chosen;
  sf_fee : sumZ (ki_amount <$> ins) = sumZ (out_amount <$> outputs (tx_prefix tx)) + fee;
  sf_pretty : Forall (fun o => out_amount o ∈ PRETTY_AMOUNTS) (outputs (tx_prefix tx)) }.

(** C11: Sending, with an honest daemon and a wallet as scanning leaves it: when it fails the wallet is unchanged;
    when it succeeds the daemon has accepted a transaction that spends distinct inputs of the wallet, pays in allowed
    denominations and takes exactly the fee, and exactly those inputs went from unspent to locked, by operations that keep
    the wallet's invariant. *)
Theorem send_correct `{crypto : WalletCrypto, sending : Sending} (daemon : Nigel) key_at w destinations mixin fee paymentID sources change unlock extraData deleting e h w' :
  (forall A f (l : list A), sort A f l ≡ₚ l) -> (forall A (l : list A), shuffle A l ≡ₚ l) -> honest_daemon daemon key_at -> good_wallet key_at w ->
  is_u64 fee -> is_u64 mixin -> Forall (fun d => is_u64 d.2) (with_node_fee daemon destinations) ->
  (forall keys, addressesToSpendKeys cn_fast_hash check_key sources = Ok keys -> NoDup keys) ->
  sendTransactionAdvanced daemon destinations mixin fee paymentID sources change unlock extraData w = Ok (e, h, w') ->
  (e <> SUCCESS -> w' = w /\ h = NULL_HASH)
  /\ (e = SUCCESS -> rtc (wallet_step deleting true) w w' /\ exists tx chosen ins, sent_for daemon w fee h tx chosen ins
        /\ sumZ (snd <$> with_node_fee daemon destinations) <= sumZ (out_amount <$> outputs (tx_prefix tx))
        /\ forall k, option_Forall2 (locks chosen k) (m_subWallets w !! k) (m_subWallets w' !! k)).
Proof.
  intros Hs Hsh Hh G Hf Hm Ha Hsrc E. apply send_cases in E as [(He & -> & ->)|(-> & change' & pid' & paid & keys & chosen & found & ds & r & R)].
  { split; [done|]. by intros ->. }
  split; [done|]. intros _. split; [by eapply record_steps, (run_record _ _ _ _ _ _ _ _ _ _ _ _ _ _ _ _ _ _ _ _ R)|].
  destruct (run_made daemon key_at Hs Hsh Hh w G _ _ _ _ _ _ _ _ Hf Hm Ha Hsrc _ _ _ _ _ _ _ _ _ _ R) as (Hc & Hn & Hfd & H0 & Hsum & Hp & rings & ins & M).
  destruct (made_inputs Hs key_at _ _ _ _ _ _ _ _ _ _ M) as [Ia Ii]. destruct (md_outputs _ _ _ _ _ _ _ _ _ _ _ M) as (Eo & Eo' & _).
  assert (Po : out_amount <$> outputs (tx_prefix (tr_transaction r)) ≡ₚ td_amount <$> ds) by (rewrite Eo', converted_amounts, Eo; by apply setupOutputs_amounts).
  exists (tr_transaction r), chosen, ins. split_and!.
  - constructor.
    + pose proof (run_relay _ _ _ _ _ _ _ _ _ _ _ _ _ _ _ _ _ _ _ _ R) as Er. unfold relayTransaction, wallet_getTransactionHash in Er.
      destruct (sendTransaction daemon (tr_transaction r)) as [[] []]; try done. revert Er. simpl negb. cbv iota.
      destruct (toBinaryArray _ _) as [data| |]; okbind; [|done..]. intros [= <-]. split; [done|]. by exists data.
    + done.
    + split_and!; [apply M|done|done].
    + rewrite (sumZ_perm _ _ Ia), (sumZ_perm _ _ Po). lia.
    + assert (F : Forall (fun a => a ∈ PRETTY_AMOUNTS) (out_amount <$> outputs (tx_prefix (tr_transaction r)))) by (rewrite Po; by apply Forall_fmap).
      by rewrite Forall_fmap in F.
  - rewrite (sumZ_perm _ _ Po). lia.
  - destruct (validated _ _ _ _ _ _ _ _ _ _ Hf Ha (run_valid _ _ _ _ _ _ _ _ _ _ _ _ _ _ _ _ _ _ _ _ R)) as (_ & _ & _ & s & v & Es).
    destruct (choose_sound Hsh _ _ _ _ _ _ _ _ (run_choose _ _ _ _ _ _ _ _ _ _ _ _ _ _ _ _ _ _ _ _ R)) as [V _].
    destruct (record_sent_ok h fee pid' chosen change' (u64 (found - u64 (getTransactionSum paid + fee))) r w s v (gw_consistent _ _ G) V Es Hc Hn) as (w2 & E2 & L).
    pose proof (run_record _ _ _ _ _ _ _ _ _ _ _ _ _ _ _ _ _ _ _ _ R) as E3. rewrite E2 in E3. by injection E3 as <-.
Qed.

(** ** A transaction sent *)

Definition sort_by (A : Type) (f : A -> Z) (l : list A) : list A :=
  @merge_sort A (fun x y => f x <= f y) (fun x y => Z.le_dec (f x) (f y)) l.
Lemma sort_by_perm A f (l : list A) : sort_by A f l ≡ₚ l.
Proof. apply merge_sort_Permutation. Qed.

(** Nothing is shuffled, every hash meets the difficulty, the first of two threads finds a nonce, and a ring is signed
    when it has a signature for each member. *)
Definition sample_sending : Sending :=
  {| sort := sort_by; shuffle := fun A l => l; floor_log10 := digits_less_one; bucket_order := fun A l => l;
     clock := fun _ => 0;
     crypto_generateRingSignatures := fun h i keys s n => (true, replicate (length keys) (replicate 64 0));
     crypto_checkRingSignature := fun h i keys sigs => Nat.eqb (length keys) (length sigs);
     cn_turtle_lite_slow_hash_v2 := fun _ => replicate 32 0; generate_keys := fun n => {| publicKey := replicate 32 50; secretKey := replicate 32 50 |};
     search_rounds := fun _ => [1%nat; 0%nat] |}.

(** A chain with outputs five and fifty of every amount, and the wallet's. *)
Definition sample_key_at (amount index : Z) : option PublicKey :=
  if index <? 100 then Some (replicate 32 index) else Some (wi_key (funded_input (index - 100) amount)).
Definition sample_daemon : Nigel :=
  {| networkBlockCount := fun _ => 2600000; nodeFee := (0, []);
     getRandomOutsByAmounts := fun amounts n => (true, (fun a => {| ro_amount := a;
       outs := [{| global_amount_index := 5; out_key := replicate 32 5 |}; {| global_amount_index := 50; out_key := replicate 32 50 |}] |}) <$> amounts);
     sendTransaction := fun tx => (true, false) |}.

Lemma sample_honest : honest_daemon sample_daemon sample_key_at.
Proof.
  intros amounts n l [= <-]. split; [by rewrite <- list_fmap_compose, list_fmap_id|]. apply Forall_fmap, Forall_forall. intros a _. split; [by_compute|].
  repeat constructor; by_compute.
Qed.

(** Distinct inputs of a wallet with one address are among its unspent inputs. *)
Lemma bounded_single w k s : m_subWallets w = {[k := s]} -> Forall (fun i => 0 <= wi_amount i) (m_unspentInputs s) -> sumZ (wi_amount <$> m_unspentInputs s) < 2 ^ 64 ->
  forall l, Forall (source_of w) l -> NoDup (image_of <$> l) -> sumZ (input_amount <$> l) < 2 ^ 64.
Proof.
  intros Es Hp Hb l Hl Hn. assert (Hsub : io_input <$> l ⊆+ m_unspentInputs s).
  { apply NoDup_submseteq.
    - unfold image_of in Hn. rewrite (list_fmap_compose io_input wi_keyImage l : (fun x => wi_keyImage (io_input x)) <$> l = _) in Hn. by apply NoDup_fmap_1 in Hn.
    - intros i (x & -> & Hx)%list_elem_of_fmap. rewrite Forall_forall in Hl. destruct (Hl x Hx) as (t & Et & Hi & _). rewrite Es in Et. apply lookup_singleton_Some in Et as [_ <-]. done. }
  apply (fmap_submseteq wi_amount) in Hsub. rewrite <- list_fmap_compose in Hsub. apply submseteq_Permutation in Hsub as [r Hr].
  apply sumZ_perm in Hr as Hs. rewrite sumZ_app in Hs. change (wi_amount ∘ io_input <$> l) with (input_amount <$> l) in *.
  assert (0 <= sumZ r); [|lia]. apply sumZ_nonneg. apply (Forall_fmap wi_amount (fun a => 0 <= a)) in Hp. rewrite Hr in Hp. by apply Forall_app in Hp as [_ ?].
Qed.

Definition sample_wallet : SubWallets := funded_wallet [3000; 600000].
Definition sample_subwallet : SubWallet := default (new_SubWallet [] [] [] 0 0 false) (m_subWallets sample_wallet !! key_a).
Lemma sample_subwallets : m_subWallets sample_wallet = {[key_a := sample_subwallet]}.
Proof. by vm_compute. Qed.
Lemma sample_unspent : m_unspentInputs sample_subwallet = [funded_input 0 3000; funded_input 1 600000].
Proof. by vm_compute. Qed.
Lemma sample_consistent : wallet_consistent sample_wallet.
Proof.
  constructor; constructor; rewrite ?sample_subwallets.
  - by_compute.
  - intros k. rewrite lookup_singleton_is_Some. change (m_publicSpendKeys sample_wallet) with [key_a]. rewrite list_elem_of_singleton. done.
  - intros k s [<- <-]%lookup_singleton_Some. by vm_compute.
  - exists key_a, sample_subwallet. rewrite lookup_singleton_eq. split_and!; [done|by vm_compute|]. by intros k s [<- _]%lookup_singleton_Some.
  - done.
  - intros _ k s [<- <-]%lookup_singleton_Some. by_compute.
  - intros _ k s i [<- <-]%lookup_singleton_Some Hi.
    assert (F : Forall (fun i => m_keyImageOwners sample_wallet !! i = Some key_a) (getKeyImages sample_subwallet)) by by_compute. rewrite Forall_forall in F. by apply F.
Qed.
Lemma sample_good : @good_wallet additive_crypto sample_key_at sample_wallet.
Proof.
  constructor; [apply sample_consistent| |eapply bounded_single; [apply sample_subwallets|rewrite sample_unspent; by_compute..]].
  intros [i k sk] (s & Es & Hi & Hk). simpl in *. rewrite sample_subwallets in Es. apply lookup_singleton_Some in Es as [<- <-]. rewrite sample_unspent in Hi.
  assert (sk = key_a) as -> by (rewrite Hk; by vm_compute). clear Hk.
  apply elem_of_cons in Hi as [->|[->|[]%elem_of_nil]%elem_of_cons]; [exists 100|exists 101]; (constructor; simpl; by_compute || by vm_compute).
Qed.
Definition sample_sent : ErrorCode * Hash * SubWallets :=
  ok_or (SUCCESS, [], sample_wallet) (@sendTransactionAdvanced additive_crypto sample_sending sample_daemon [(address_of key_b, 4000)] 1 500000 [] [address_of key_a] (address_of key_a) 0 [] sample_wallet).
Lemma sample_source_keys : forall keys, addressesToSpendKeys pad_hash any_key [address_of key_a] = Ok keys -> NoDup keys.
Proof. intros keys E. assert (E' : addressesToSpendKeys pad_hash any_key [address_of key_a] = Ok [key_a]) by by vm_compute. rewrite E' in E. injection E as <-. by_compute. Qed.
Lemma sample_sent_ok : @sendTransactionAdvanced additive_crypto sample_sending sample_daemon [(address_of key_b, 4000)] 1 500000 [] [address_of key_a] (address_of key_a) 0 [] sample_wallet
  = Ok (SUCCESS, sample_sent.1.2, sample_sent.2).
Proof. by vm_compute. Qed.
Lemma send_correct_witness : (SUCCESS <> SUCCESS -> sample_sent.2 = sample_wallet /\ sample_sent.1.2 = NULL_HASH)
  /\ (SUCCESS = SUCCESS -> rtc (@wallet_step additive_crypto true true) sample_wallet sample_sent.2
        /\ exists tx chosen ins, @sent_for additive_crypto sample_daemon sample_wallet 500000 sample_sent.1.2 tx chosen ins
        /\ sumZ (snd <$> with_node_fee sample_daemon [(address_of key_b, 4000)]) <= sumZ (out_amount <$> outputs (tx_prefix tx))
        /\ forall k, option_Forall2 (locks chosen k) (m_subWallets sample_wallet !! k) (m_subWallets sample_sent.2 !! k)).
Proof.
  exact (@send_correct additive_crypto sample_sending sample_daemon sample_key_at sample_wallet [(address_of key_b, 4000)] 1 500000 [] [address_of key_a] (address_of key_a) 0 [] true
    SUCCESS sample_sent.1.2 sample_sent.2 sort_by_perm (fun A l => reflexivity l) sample_honest sample_good ltac:(by_compute) ltac:(by_compute) ltac:(by_compute)
    sample_source_keys sample_sent_ok).
Defined.
