(* ===== verification/TransferNode.v ===== *)
(** * TransferNode: the node accepts what the wallet sends

    [Transfer] meets [Validate]: a transaction [sendTransactionAdvanced] hands to the daemon passes every check of
    [ValidateTransaction], when the node holds the outputs the daemon offered and both use the same keys and signatures. *)

From Stdlib Require Import ZArith Lia.
From stdpp Require Import base tactics list numbers gmap strings sorting.
From S2P Require Import Prelude Stream StringTools Base58 Config Types Difficulty Serializer TxSerialization BlockSerialization FormatUtils Currency Checkpoints ThreadPool Validate WalletUtil Addresses SubWallet SubWallets WalletInvariant WalletSync ValidateParameters Transfer TransferRing TransferMade TransferSend.

Local Open Scope Z_scope.

#[local] Arguments sumZ : simpl never.

(** ** The length of the extra field *)

Lemma varint_vector_length fuel : forall i, (length (varint_vector_loop fuel i) <= fuel)%nat.
Proof. induction fuel as [|fuel IH]; intros i; simpl; [lia|]. case_match; simpl; [specialize (IH (Z.shiftr i 7))|]; lia. Qed.

Lemma make_extra_length paymentID extraData k e : make_extra paymentID extraData k = Ok e ->
  (length e <= 56 + length extraData + length k)%nat.
Proof.
  unfold make_extra. assert (P : forall o, (if bool_decide (paymentID <> []) then match podFromHex 32 paymentID with Some b => Ok (TX_EXTRA_PAYMENT_ID_IDENTIFIER :: b) | None => Undefined "an uninitialised payment ID" end else Ok []) = Ok o -> (length o <= 33)%nat).
  { intros o. case_bool_decide; [|intros [= <-]; simpl; lia]. destruct (podFromHex 32 paymentID) as [b|] eqn:E; [|done]. intros [= <-]. unfold podFromHex in E.
    destruct (fromHex_buffer_opt _ _) as [d|]; [|done]. destruct (Z.eqb_spec (Z.of_nat (length d)) 32); [|done]. injection E as <-. simpl. lia. }
  destruct (if bool_decide (paymentID <> []) then _ else _) as [o| |]; okbind; [|done..]. specialize (P o eq_refl). intros [= <-].
  set (data := if bool_decide (extraData <> []) then _ else []).
  assert (Hd : (length data <= 11 + length extraData)%nat).
  { subst data. case_bool_decide; [|simpl; lia]. cbn [length]. rewrite length_app. pose proof (varint_vector_length 10 (Z.of_nat (length extraData))). unfold uintToVarintVector. lia. }
  rewrite length_app. case_bool_decide; cbn [length]; [|lia]. rewrite !length_app.
  pose proof (varint_vector_length 10 (Z.of_nat (length o + length data))). unfold uintToVarintVector. lia.
Qed.

Lemma make_extra_data paymentID extraData k e : make_extra paymentID extraData k = Ok e -> (length extraData <= length e)%nat.
Proof.
  unfold make_extra. destruct (if bool_decide (paymentID <> []) then _ else _) as [o| |]; okbind; [|done..]. intros [= <-].
  set (data := if bool_decide (extraData <> []) then _ else []).
  assert (Hd : (length extraData <= length data)%nat) by (subst data; case_bool_decide as Hx; [|rewrite Hx; simpl; lia]; cbn [length]; rewrite length_app; lia).
  rewrite length_app. case_bool_decide as Hn; [cbn [length]; rewrite !length_app; lia|]. apply app_eq_nil in Hn as [_ Hn]. rewrite Hn in Hd. simpl in *. lia.
Qed.

(** ** What the node and the wallet share *)

Section node.
Context `{crypto : WalletCrypto, sending : Sending, cache : !IBlockchainCache} (scalarmultKey : KeyImage -> KeyImage -> KeyImage).
Context (key_at : Z -> Z -> option PublicKey) (w : SubWallets) (state : TransactionValidatorState) (v : ValidateTransaction).

(** The node holds the outputs of [key_at] unlocked, and knows none of the wallet's inputs as spent; derived keys are points, a ring has a
    signature for each member, and a public key has 32 bytes. *)
Record node_agrees : Prop := {
  na_height : in_width 32 (m_blockHeight v);
  na_extract : forall amount l keys, ring_indexes l -> Forall2 (fun i k => key_at amount i = Some k) l keys ->
    extractKeyOutputKeys amount (m_blockHeight v) l = Ok (Validate.SUCCESS, keys);
  na_unspent : forall x, source_of w x -> checkIfSpent (image_of x) (m_blockHeight v) = Ok false /\ (image_of x ∉ state)
    /\ scalarmultKey (image_of x) key_L = key_I;
  na_derived : forall d i k, check_key (derive_public_key d i k) = true;
  na_signatures : forall h i keys s n sigs, crypto_generateRingSignatures h i keys s n = (true, sigs) -> length sigs = length keys;
  na_key : forall n, length (publicKey (generate_keys n)) = 32%nat }.

Context (N : node_agrees) (sort_ok : forall A f (l : list A), sort A f l ≡ₚ l).
Context (n : nat) (mixin fee : Z) (chosen : list TxInputAndOwner) (pid : bytes) (ds : list TransactionDestination) (unlock : Z) (extraData : bytes)
  (r : TransactionResult) (rings : list ObscuredInput) (ins : list KeyInput).
Context (M : made key_at n mixin chosen pid ds unlock extraData r rings ins).
Context (Hv : m_cachedTransaction v = CachedTransaction_of (tr_transaction r)).
Context (Hm : 0 <= mixin) (Hc : Forall (source_of w) chosen) (Hn : NoDup (image_of <$> chosen)) (Hne : chosen <> []).

Lemma m_transaction_eq : m_transaction v = tr_transaction r.
Proof using Hv. unfold m_transaction. by rewrite Hv. Qed.

(** The parts of the [j]-th input. *)
Lemma made_at j k : ins !! j = Some k -> exists x o s, x ∈ chosen /\ rings !! j = Some o /\ signatures (tr_transaction r) !! j = Some s
  /\ ring_of key_at mixin x o /\ input_for mixin x o k.
Proof using M sort_ok.
  intros Hk. destruct (Forall2_lookup_r _ _ _ _ _ (md_ins _ _ _ _ _ _ _ _ _ _ _ M) Hk) as ([x o] & Hz & F).
  apply lookup_zip_with_Some in Hz as (x' & o' & [= <- <-] & Hx & Ho). destruct (md_pow _ _ _ _ _ _ _ _ _ _ _ M) as (data & _ & _ & S).
  assert (Hzk : zip ins rings !! j = Some (k, o)) by (apply lookup_zip_with_Some; by exists k, o). destruct (Forall2_lookup_l _ _ _ _ _ S Hzk) as (s & Hs & _).
  exists x, o, s. split_and!; [|done|done| |done].
  - rewrite <- (sort_ok _ input_amount chosen). by eapply list_elem_of_lookup_2.
  - by eapply (Forall2_lookup_lr _ _ _ _ _ _ (md_rings _ _ _ _ _ _ _ _ _ _ _ M)).
Qed.

Lemma ins_nonempty : ins <> [].
Proof using M sort_ok Hne.
  destruct (made_inputs sort_ok key_at _ _ _ _ _ _ _ _ _ _ M) as [E _]. intros Ei. rewrite Ei in E. symmetry in E. apply Permutation_nil_r in E. by apply Hne, (fmap_nil_inv SubWallets.input_amount).
Qed.

Lemma node_inputs : sumZ (SubWallets.input_amount <$> chosen) < 2 ^ 64 -> inputs_ok scalarmultKey v state.
Proof using N M Hv Hm Hc Hn Hne sort_ok.
  intros Hs. unfold inputs_ok, in_total. rewrite m_transaction_eq. exists ins. destruct (made_inputs sort_ok key_at _ _ _ _ _ _ _ _ _ _ M) as [Ia Ii].
  split_and!; [apply M|apply ins_nonempty|by rewrite Ii| |].
  - apply Forall_lookup. intros j k Hk. destruct (made_at j k Hk) as (x & o & s & Hx & _ & _ & _ & F). rewrite Forall_forall in Hc.
    destruct (na_unspent N x (Hc x Hx)) as (_ & Hst & Hdom). unfold input_sane. rewrite (if_image _ _ _ _ F). split_and!; [|apply F|done|done].
    pose proof (if_length _ _ _ _ F) as L. intros E. rewrite E in L. simpl in L. lia.
  - rewrite (md_inputs _ _ _ _ _ _ _ _ _ _ _ M), <- list_fmap_compose. change (FormatUtils.input_amount ∘ InKey) with ki_amount. by rewrite (sumZ_perm _ _ Ia).
Qed.

Lemma node_in_total : in_total v = sumZ (SubWallets.input_amount <$> chosen).
Proof using M Hv sort_ok.
  unfold in_total. rewrite m_transaction_eq, (md_inputs _ _ _ _ _ _ _ _ _ _ _ M), <- list_fmap_compose. change (FormatUtils.input_amount ∘ InKey) with ki_amount.
  apply sumZ_perm. by destruct (made_inputs sort_ok key_at _ _ _ _ _ _ _ _ _ _ M).
Qed.
Lemma node_out_amounts : out_amount <$> outputs (tx_prefix (m_transaction v)) ≡ₚ td_amount <$> ds.
Proof using M Hv sort_ok.
  rewrite m_transaction_eq. destruct (md_outputs _ _ _ _ _ _ _ _ _ _ _ M) as (Eo & Eo' & _). rewrite Eo', converted_amounts, Eo. by apply setupOutputs_amounts.
Qed.

Lemma pretty_positive a : a ∈ PRETTY_AMOUNTS -> 0 < a.
Proof. assert (F : Forall (fun a => 0 < a) PRETTY_AMOUNTS) by by_compute. rewrite Forall_forall in F. apply F. Qed.

Lemma node_outputs : Forall (fun d => td_amount d ∈ PRETTY_AMOUNTS) ds -> sumZ (td_amount <$> ds) < 2 ^ 64 -> outputs_ok check_key v.
Proof using N M Hv sort_ok.
  intros Hp Hs. split; [|unfold out_total; by rewrite (sumZ_perm _ _ node_out_amounts)].
  assert (Fa : Forall (fun a => a ∈ PRETTY_AMOUNTS) (out_amount <$> outputs (tx_prefix (m_transaction v)))) by (rewrite node_out_amounts; by apply Forall_fmap).
  rewrite Forall_fmap in Fa. rewrite m_transaction_eq in *. destruct (md_outputs _ _ _ _ _ _ _ _ _ _ _ M) as (Eo & Eo' & _). apply Forall_forall. intros o Ho.
  rewrite Forall_forall in Fa. pose proof (pretty_positive _ (Fa o Ho)). split; [lia|]. rewrite Eo' in Ho. apply list_elem_of_fmap in Ho as (u & -> & Hu). rewrite Eo in Hu.
  pose proof (outputs_of_keys (secretKey (generate_keys n)) (sort _ td_amount ds) 0) as K. rewrite Forall_forall in K. destruct (K u Hu) as (d & j & k & E).
  unfold output_key. simpl. rewrite E. apply N.
Qed.

Lemma node_extra : (length extraData <= 400)%nat -> extra_ok v.
Proof using N M Hv.
  intros He. unfold extra_ok. rewrite m_transaction_eq. destruct (md_extra _ _ _ _ _ _ _ _ _ _ _ M) as (e & nonce & Em & ->). apply make_extra_length in Em. rewrite (na_key N) in Em.
  rewrite length_app. cbn [length]. rewrite length_le_bytes. unfold MAX_EXTRA_SIZE_V3, MAX_EXTRA_SIZE_V2. split; intros _; lia.
Qed.

Lemma node_extra_long : (512 <= length extraData)%nat -> m_isPoolTransaction v = true -> ~ extra_ok v.
Proof using M Hv.
  intros He Hp [X _]. rewrite m_transaction_eq in X. destruct (md_extra _ _ _ _ _ _ _ _ _ _ _ M) as (e & nonce & Em & Ee). rewrite Ee in X. apply make_extra_data in Em.
  specialize (X (or_introl Hp)). rewrite length_app in X. unfold MAX_EXTRA_SIZE_V3 in X. lia.
Qed.

Lemma ring_size_const l m : 1 <= m -> Forall (fun k => Z.of_nat (length (outputIndexes k)) = m) l -> forall a, 1 <= a <= m ->
  foldl (fun ringSize i => match i with InKey k => let c := Z.of_nat (length (outputIndexes k)) in if ringSize <? c then c else ringSize | InBase _ => ringSize end) a (InKey <$> l)
  = if bool_decide (l = []) then a else m.
Proof.
  intros H1 F. induction F as [|k l Hk F IH]; intros a Ha; [done|]. rewrite bool_decide_eq_false_2 by done. cbn [fmap list_fmap foldl]. cbv zeta. rewrite Hk.
  destruct (Z.ltb_spec a m); rewrite IH by lia; case_bool_decide; lia.
Qed.
Lemma node_mixin : (getMixinAllowableRange (m_blockHeight v)).1.1 <= mixin <= (getMixinAllowableRange (m_blockHeight v)).1.2 -> mixin_ok v.
Proof using M Hv Hm Hne sort_ok.
  intros Hr. unfold mixin_ok, ring_size. rewrite m_transaction_eq, (md_inputs _ _ _ _ _ _ _ _ _ _ _ M), (ring_size_const ins (mixin + 1)); [|lia| |lia].
  - rewrite bool_decide_eq_false_2 by apply ins_nonempty. destruct (getMixinAllowableRange _) as [[mn mx] df]. simpl in Hr. lia.
  - apply Forall_lookup. intros j k Hk. destruct (made_at j k Hk) as (x & o & s & _ & _ & _ & _ & F). apply F.
Qed.

Lemma node_pow : pow_ok Transfer.cn_turtle_lite_slow_hash_v2 v.
Proof using M Hv. intros _. rewrite m_transaction_eq. destruct (md_pow _ _ _ _ _ _ _ _ _ _ _ M) as (data & Hd & Hh & _). by exists data. Qed.

Lemma ring_lookup o x : ring_of key_at mixin x o -> ring_indexes (gk_index <$> ob_outputs o)
  /\ Forall2 (fun i k => key_at (SubWallets.input_amount x) i = Some k) (gk_index <$> ob_outputs o) (ring_keys o).
Proof using Hm.
  intros R. split; [split_and!|].
  - pose proof (ro_length _ _ _ _ R) as L. intros E. apply fmap_nil_inv in E. rewrite E in L. simpl in L. lia.
  - apply R.
  - apply Forall_fmap. eapply Forall_impl; [apply R|]. by intros ? [].
  - unfold ring_keys. pose proof (ro_members _ _ _ _ R) as F. induction F as [|g l [_ Hg] F IH]; constructor; done.
Qed.

Lemma node_rings : rings_ok cn_fast_hash crypto_checkRingSignature v.
Proof using N M Hv Hm Hc sort_ok.
  intros _. destruct (md_pow _ _ _ _ _ _ _ _ _ _ _ M) as (data & Hd & _ & S). exists (cn_fast_hash data). split.
  { unfold getTransactionPrefixHash, getObjectHash, toBinaryArray_opt. rewrite Hv. simpl getTransaction. rewrite Hd. done. }
  rewrite m_transaction_eq, (md_inputs _ _ _ _ _ _ _ _ _ _ _ M). intros j i Hi. rewrite list_lookup_fmap in Hi. destruct (ins !! j) as [k|] eqn:Hk; [|done]. injection Hi as <-.
  destruct (made_at j k Hk) as (x & o & s & Hx & Ho & Hs & R & F). rewrite Forall_forall in Hc. destruct (na_unspent N x (Hc x Hx)) as (Hsp & _ & _).
  assert (Hzk : zip ins rings !! j = Some (k, o)) by (apply lookup_zip_with_Some; by exists k, o).
  destruct (Forall2_lookup_l _ _ _ _ _ S Hzk) as (s' & Hs' & (secret & Hg) & Hch). assert (s' = s) as -> by congruence.
  destruct (ring_lookup o x R) as [Hri Hke]. unfold input_job. rewrite (wrap_small 32 (m_blockHeight v) (na_height N)), (if_image _ _ _ _ F). fold (image_of x). rewrite Hsp. simpl in_worker. okbind.
  rewrite bool_decide_eq_false_2 by (pose proof (if_length _ _ _ _ F) as L; intros E; rewrite E in L; simpl in L; lia). okbind.
  rewrite (if_absolute _ _ _ _ F), (if_amount _ _ _ _ F), (na_extract N _ _ _ Hri Hke). simpl in_worker. okbind. rewrite m_transaction_eq, Hs. simpl from_option. okbind.
  apply (na_signatures N) in Hg. rewrite Hg, Nat.eqb_refl, andb_false_r. rewrite (if_image _ _ _ _ F) in Hch. fold (image_of x) in Hch. by rewrite Hch.
Qed.

Lemma node_size height : isTransactionPayloadTooBig (tr_transaction r) height = Ok SUCCESS ->
  getMaxTxSize height <= u64 (m_blockSizeMedian v * 2 - m_minerTxBlobReservedSize (m_currency v)) -> size_ok v.
Proof using Hv.
  intros E Hle. unfold size_ok, getTransactionBinaryArray. rewrite Hv. simpl. unfold isTransactionPayloadTooBig in E. destruct (toBinaryArray _ _) as [data| |]; [|done..].
  revert E. okbind. destruct (Z.ltb_spec (getMaxTxSize height) (Z.of_nat (length data))); [done|]. intros _. exists data. split; [done|lia].
Qed.

(** In the heights at which a fusion transaction pays a fee, it is the minimum fee. *)
Lemma node_fee blob : getTransactionBinaryArray (m_cachedTransaction v) = Ok blob -> 0 <= fee -> getMinimumFee (m_blockHeight v) <= fee -> fee_ok v fee.
Proof.
  intros Eb H0 Hf. split; [done|]. exists blob. split; [done|]. destruct (is_fusion v blob); [|done]. intros Hw. etrans; [|exact Hf].
  unfold getMinimumFee. rewrite (proj2 (Z.leb_gt _ _)) by (unfold MINIMUM_FEE_V2_HEIGHT, FUSION_FEE_V1_EXIT_HEIGHT in *; lia).
  rewrite (proj2 (Z.leb_le _ _)) by (unfold MINIMUM_FEE_V1_HEIGHT, FUSION_FEE_V1_HEIGHT in *; lia). done.
Qed.
End node.

(** ** Property *)

(** C6: When sending reports success, with an honest daemon, distinct source addresses and a wallet as scanning leaves it, the daemon
    took a transaction with the returned hash, and a node at the height the daemon reported, that holds the outputs the rings were made of and
    has none of the wallet's inputs as spent, accepts it if and only if it is within the node's limits on the size and on the extra
    field: it meets every other condition of the validator (distinct inputs, outputs, fee, mixin, proof of work, ring signatures).
    It is within the size limit when the wallet's limit is not above the node's, and within the limit of the extra field when the caller
    gave at most 400 bytes of extra data; with 512 bytes or more the wallet still reports success, and the pool of the node rejects it. *)
Theorem sent_accepted `{crypto : WalletCrypto, sending : Sending, cache : !IBlockchainCache} scalarmultKey (daemon : Nigel) key_at w destinations mixin fee paymentID
    sources change unlock extraData h w' (node : Transaction -> ValidateTransaction) state :
  (forall A f (l : list A), sort A f l ≡ₚ l) -> (forall A (l : list A), shuffle A l ≡ₚ l) -> honest_daemon daemon key_at -> good_wallet key_at w ->
  is_u64 fee -> is_u64 mixin -> Forall (fun d => is_u64 d.2) (with_node_fee daemon destinations) ->
  (forall keys, addressesToSpendKeys cn_fast_hash check_key sources = Ok keys -> NoDup keys) ->
  (forall tx, m_cachedTransaction (node tx) = CachedTransaction_of tx /\ m_blockHeight (node tx) = networkBlockCount daemon 0
     /\ node_agrees scalarmultKey key_at w state (node tx)) ->
  sendTransactionAdvanced daemon destinations mixin fee paymentID sources change unlock extraData w = Ok (SUCCESS, h, w') ->
  exists tx data, sendTransaction daemon tx = (true, false) /\ toBinaryArray serialize_Transaction tx = Ok data /\ h = cn_fast_hash data
    /\ (accepts scalarmultKey check_key cn_fast_hash Transfer.cn_turtle_lite_slow_hash_v2 crypto_checkRingSignature (node tx) state
         <-> size_ok (node tx) /\ extra_ok (node tx))
    /\ (getMaxTxSize (networkBlockCount daemon 2) <= u64 (m_blockSizeMedian (node tx) * 2 - m_minerTxBlobReservedSize (m_currency (node tx))) -> size_ok (node tx))
    /\ ((length extraData <= 400)%nat -> extra_ok (node tx))
    /\ ((512 <= length extraData)%nat -> m_isPoolTransaction (node tx) = true -> ~ extra_ok (node tx)).
Proof.
  intros Hs Hsh Hh G Hf Hm Ha Hsrc Hnode E. apply send_cases in E as [(He' & _)|(_ & change' & pid' & paid & keys & chosen & found & ds & r & R)]; [done|].
  destruct (run_made daemon key_at Hs Hsh Hh w G _ _ _ _ _ _ _ _ Hf Hm Ha Hsrc _ _ _ _ _ _ _ _ _ _ R) as (Hc & Hn & Hfd & H0 & Hsum & Hp & rings & ins & M).
  destruct (validated _ _ _ _ _ _ _ _ _ _ Hf Ha (run_valid _ _ _ _ _ _ _ _ _ _ _ _ _ _ _ _ _ _ _ _ R)) as (Hmin & Htot & Hmix & _).
  set (tx := tr_transaction r). destruct (Hnode tx) as (Hv & Hht & N). exists tx.
  assert (Hb : found < 2 ^ 64) by (rewrite Hfd; by apply (gw_bounded _ _ G)). assert (Hd0 : 0 <= sumZ (td_amount <$> ds)).
  { apply sumZ_nonneg, Forall_fmap. eapply Forall_impl; [exact Hp|]. intros d Hd. simpl. apply pretty_positive in Hd. lia. }
  assert (Hne : chosen <> []).
  { intros ->. change (sumZ (SubWallets.input_amount <$> [])) with 0 in Hfd. assert (0 < getMinimumFee (networkBlockCount daemon 0)) by (unfold getMinimumFee; repeat case_match; by vm_compute). lia. }
  assert (Hm0 : 0 <= mixin) by width_solve.
  assert (exists data, sendTransaction daemon tx = (true, false) /\ toBinaryArray serialize_Transaction tx = Ok data /\ h = cn_fast_hash data) as (data & Hrel & Hdata & Hhash).
  { pose proof (run_relay _ _ _ _ _ _ _ _ _ _ _ _ _ _ _ _ _ _ _ _ R) as Er. unfold relayTransaction, wallet_getTransactionHash in Er. fold tx in Er.
    destruct (sendTransaction daemon tx) as [[] []]; try done. revert Er. simpl negb. cbv iota. destruct (toBinaryArray _ _) as [data| |]; okbind; [|done..].
    intros [= <-]. by exists data. }
  exists data. split_and!; [done..| | | |].
  - split; [intros [[? _ _ _ ? _] _]; done|]. intros [Hsize Hextra]. split; [|split; [by eapply node_pow|by eapply node_rings]]. constructor.
    + done.
    + eapply node_inputs; [exact N|exact Hs|exact M|done..|]. by rewrite <- Hfd.
    + eapply node_outputs; [exact N|exact Hs|exact M|done|done|]. width_unfold. lia.
    + destruct Hsize as (blob & Eb & _). assert (Ef : in_total (node tx) - out_total (node tx) = fee); [|rewrite Ef; eapply node_fee; [exact Eb|width_solve|by rewrite Hht]].
      unfold out_total. rewrite (node_in_total key_at (node tx) Hs _ _ _ _ _ _ _ r rings ins M Hv), (sumZ_perm _ _ (node_out_amounts key_at (node tx) Hs _ _ _ _ _ _ _ r rings ins M Hv)). lia.
    + done.
    + eapply node_mixin; [exact Hs|exact M|done|done|done|]. by rewrite Hht.
  - intros Hsz. eapply node_size; [exact Hv|apply R|done].
  - by eapply node_extra.
  - by eapply node_extra_long.
Qed.

(** A node that holds the sample chain. *)
Definition sample_cache : IBlockchainCache :=
  {| checkIfSpent := fun i h => Ok false; extractKeyOutputKeys := fun amount h l => Ok (Validate.SUCCESS, omap (sample_key_at amount) l) |}.
Definition sample_node (tx : Transaction) : ValidateTransaction :=
  {| m_cachedTransaction := CachedTransaction_of tx; m_currency := test_currency; m_checkpoints := ∅; m_blockHeight := 2600000; m_blockSizeMedian := 100000;
     m_isPoolTransaction := true |}.
Definition small_order (i k : KeyImage) : KeyImage := key_I.
Lemma sample_agrees tx : @node_agrees additive_crypto sample_sending sample_cache small_order sample_key_at sample_wallet ∅ (sample_node tx).
Proof.
  constructor; [by_compute| |done|done| |done].
  - intros amount l keys _ F. simpl. do 2 f_equal. induction F as [|i k l keys Hk F IH]; [done|]. rewrite <- IH. cbn [omap list_omap]. by rewrite Hk.
  - intros h i keys s n sigs [= <-]. apply length_replicate.
Qed.
Lemma sample_node_ok tx : m_cachedTransaction (sample_node tx) = CachedTransaction_of tx /\ m_blockHeight (sample_node tx) = networkBlockCount sample_daemon 0
  /\ @node_agrees additive_crypto sample_sending sample_cache small_order sample_key_at sample_wallet ∅ (sample_node tx).
Proof. split_and!; [done|done|apply sample_agrees]. Qed.
Lemma sent_accepted_witness : exists tx data, sendTransaction sample_daemon tx = (true, false) /\ toBinaryArray serialize_Transaction tx = Ok data
  /\ sample_sent.1.2 = pad_hash data
  /\ accepts small_order any_key pad_hash (fun _ => replicate 32 0) (fun h i keys sigs => Nat.eqb (length keys) (length sigs)) (cache := sample_cache) (sample_node tx) ∅.
Proof.
  destruct (@sent_accepted additive_crypto sample_sending sample_cache small_order sample_daemon sample_key_at sample_wallet [(address_of key_b, 4000)] 1 500000 []
    [address_of key_a] (address_of key_a) 0 [] sample_sent.1.2 sample_sent.2 sample_node ∅ sort_by_perm (fun A l => reflexivity l) sample_honest sample_good
    ltac:(by_compute) ltac:(by_compute) ltac:(by_compute) sample_source_keys sample_node_ok sample_sent_ok) as (tx & data & Hr & Hd & Hh & Ha & Hs & He & _).
  exists tx, data. split_and!; [exact Hr|exact Hd|exact Hh|]. apply Ha. split; [apply Hs; by vm_compute|apply He; simpl; lia].
Defined.
