(* ===== verification/ParseExtra.v ===== *)
(** * ParseExtra: [utilities/ParseExtra.cpp], the extra field as the daemon reads it for wallets

    The public key of a transaction, its payment ID, arbitrary data, the merged mining tag and the nonce of the proof of work.
    Positions are those of the iterators: a position outside the vector that is read is undefined behaviour.  [Tools::read_varint]
    reports errors as negative numbers, which the parser keeps in a [size_t]. *)

From Stdlib Require Import ZArith Lia.
From stdpp Require Import base tactics list numbers strings.
From S2P Require Import Prelude Stream StringTools Config Types.

Local Open Scope Z_scope.

Record MergedMiningTag := { mm_depth : Z; mm_merkleRoot : Hash }.

Record ParsedExtra := {
  pe_transactionPublicKey : PublicKey;
  pe_paymentID : bytes;
  pe_mergedMiningTag : MergedMiningTag;
  pe_extraData : bytes;
  pe_transactionPowNonce : Z }.

Record ParseState := {
  parsed : ParsedExtra;
  seenPubKey : bool;
  seenNonce : bool;
  seenExtraData : bool;
  seenPaymentID : bool;
  seenMergedMiningTag : bool;
  seenPowNonce : bool }.

Definition new_ParseState : ParseState :=
  {| parsed := {| pe_transactionPublicKey := replicate 32 0; pe_paymentID := []; pe_mergedMiningTag := {| mm_depth := 0; mm_merkleRoot := NULL_HASH |};
                  pe_extraData := []; pe_transactionPowNonce := 0 |};
     seenPubKey := false; seenNonce := false; seenExtraData := false; seenPaymentID := false; seenMergedMiningTag := false; seenPowNonce := false |}.

Definition found_pubKey (k : PublicKey) (s : ParseState) : ParseState :=
  {| parsed := {| pe_transactionPublicKey := k; pe_paymentID := pe_paymentID (parsed s); pe_mergedMiningTag := pe_mergedMiningTag (parsed s);
                  pe_extraData := pe_extraData (parsed s); pe_transactionPowNonce := pe_transactionPowNonce (parsed s) |};
     seenPubKey := true; seenNonce := seenNonce s; seenExtraData := seenExtraData s; seenPaymentID := seenPaymentID s;
     seenMergedMiningTag := seenMergedMiningTag s; seenPowNonce := seenPowNonce s |}.
Definition found_paymentID (p : bytes) (s : ParseState) : ParseState :=
  {| parsed := {| pe_transactionPublicKey := pe_transactionPublicKey (parsed s); pe_paymentID := p; pe_mergedMiningTag := pe_mergedMiningTag (parsed s);
                  pe_extraData := pe_extraData (parsed s); pe_transactionPowNonce := pe_transactionPowNonce (parsed s) |};
     seenPubKey := seenPubKey s; seenNonce := seenNonce s; seenExtraData := seenExtraData s; seenPaymentID := true;
     seenMergedMiningTag := seenMergedMiningTag s; seenPowNonce := seenPowNonce s |}.
Definition found_extraData (d : bytes) (s : ParseState) : ParseState :=
  {| parsed := {| pe_transactionPublicKey := pe_transactionPublicKey (parsed s); pe_paymentID := pe_paymentID (parsed s); pe_mergedMiningTag := pe_mergedMiningTag (parsed s);
                  pe_extraData := pe_extraData (parsed s) ++ d; pe_transactionPowNonce := pe_transactionPowNonce (parsed s) |};
     seenPubKey := seenPubKey s; seenNonce := seenNonce s; seenExtraData := true; seenPaymentID := seenPaymentID s;
     seenMergedMiningTag := seenMergedMiningTag s; seenPowNonce := seenPowNonce s |}.
Definition found_nonce (s : ParseState) : ParseState :=
  {| parsed := parsed s; seenPubKey := seenPubKey s; seenNonce := true; seenExtraData := seenExtraData s; seenPaymentID := seenPaymentID s;
     seenMergedMiningTag := seenMergedMiningTag s; seenPowNonce := seenPowNonce s |}.
Definition found_mergedMiningTag (t : MergedMiningTag) (s : ParseState) : ParseState :=
  {| parsed := {| pe_transactionPublicKey := pe_transactionPublicKey (parsed s); pe_paymentID := pe_paymentID (parsed s); pe_mergedMiningTag := t;
                  pe_extraData := pe_extraData (parsed s); pe_transactionPowNonce := pe_transactionPowNonce (parsed s) |};
     seenPubKey := seenPubKey s; seenNonce := seenNonce s; seenExtraData := seenExtraData s; seenPaymentID := seenPaymentID s;
     seenMergedMiningTag := true; seenPowNonce := seenPowNonce s |}.
Definition found_powNonce (n : Z) (s : ParseState) : ParseState :=
  {| parsed := {| pe_transactionPublicKey := pe_transactionPublicKey (parsed s); pe_paymentID := pe_paymentID (parsed s); pe_mergedMiningTag := pe_mergedMiningTag (parsed s);
                  pe_extraData := pe_extraData (parsed s); pe_transactionPowNonce := n |};
     seenPubKey := seenPubKey s; seenNonce := seenNonce s; seenExtraData := seenExtraData s; seenPaymentID := seenPaymentID s;
     seenMergedMiningTag := seenMergedMiningTag s; seenPowNonce := true |}.

(** ** Reading through iterators *)

Definition size_of (e : bytes) : Z := Z.of_nat (length e).
Definition byte_at (e : bytes) (it : Z) : outcome Z :=
  if (0 <=? it) && (it <? size_of e) then from_option "a byte" (e !! Z.to_nat it) else Undefined "a byte outside the vector".
(** [std::copy(begin + a, begin + b, ...)]. *)
Definition copy_range (e : bytes) (a b : Z) : outcome bytes :=
  if (0 <=? a) && (a <=? b) && (b <=? size_of e) then Ok (take (Z.to_nat (b - a)) (drop (Z.to_nat a) e)) else Undefined "a range outside the vector".
(** What [read_varint] returns, as a [size_t], and the number. *)
Definition varint_at (e : bytes) (it : Z) : outcome (Z * Z) :=
  if (0 <=? it) && (it <=? size_of e) then let '(code, n, _) := read_varint 64 (drop (Z.to_nat it) e) in Ok (u64 code, n)
  else Undefined "a byte outside the vector".
(** [it += n] for a [size_t] moves back when [n] stands for a negative number. *)
Definition advance (it n : Z) : Z := it + i64 n.

(** ** The fields of the nonce *)

(** The parsed fields, and how far the outer iterator goes. *)
Fixpoint nonce_loop (fuel : nat) (nonceData : bytes) (pos advanceIterator : Z) (s : ParseState) : outcome (ParseState * Z) :=
  match fuel with
  | O => Undefined "more rounds than bytes"
  | S fuel =>
      if pos =? size_of nonceData then Ok (s, advanceIterator)
      else
        c ← byte_at nonceData pos;
        let nElementsRemaining := size_of nonceData - pos in
        let next := nonce_loop fuel nonceData (pos + 1) advanceIterator s in
        if (c =? 0x00) && (32 <? nElementsRemaining) && negb (seenPaymentID s) then
          paymentIDHash ← copy_range nonceData (pos + 1) (pos + 1 + 32);
          nonce_loop fuel nonceData (pos + 32 + 1) (u64 (advanceIterator + (1 + 32))) (found_paymentID (podToHex paymentIDHash) s)
        else if (c =? 0x7f) && (1 <? nElementsRemaining) && negb (seenExtraData s) then
          '(readDataSize, dataSize) ← varint_at nonceData (pos + 1);
          if u64 (1 + readDataSize + dataSize) <=? nElementsRemaining then
            let from := advance (pos + 1) readDataSize in
            d ← copy_range nonceData from (advance from dataSize);
            nonce_loop fuel nonceData (advance pos (u64 (readDataSize + dataSize)) + 1) (u64 (advanceIterator + u64 (1 + readDataSize + dataSize))) (found_extraData d s)
          else next
        else next
  end.

(** A round may step back by one byte once. *)
Definition parse_nonce_data (nonceData : bytes) (advanceIterator : Z) (s : ParseState) : outcome (ParseState * Z) :=
  nonce_loop (length nonceData + 3) nonceData 0 advanceIterator s.

(** ** The fields of the extra *)

Definition parse_nonce (extra : bytes) (it : Z) (s : ParseState) : outcome (ParseState * Z) :=
  '(readNonceSize, nonceSize) ← varint_at extra (it + 1);
  '(s, advanceIterator) ←
    (if u64 (readNonceSize + nonceSize) <? size_of extra - it then
       let from := advance (it + 1) readNonceSize in
       nonceData ← copy_range extra from (advance from nonceSize);
       parse_nonce_data nonceData readNonceSize s
     else Ok (s, readNonceSize));
  Ok (found_nonce s, advance it advanceIterator).

(** [None] when the tag is not taken, and the parser goes on with the same byte. *)
Definition parse_mergedMining (extra : bytes) (it : Z) (s : ParseState) : outcome (option (ParseState * Z)) :=
  '(readDataSize, dataSize) ← varint_at extra (it + 1);
  if (u64 (dataSize + readDataSize) <? size_of extra - it) && (33 <=? dataSize) then
    '(code, depth) ← varint_at extra (advance (it + 1) readDataSize);
    let readDepthSize := i64 code in
    let dataBegin := advance (it + 1) readDataSize + readDepthSize in
    merkleRoot ← copy_range extra dataBegin (dataBegin + 32);
    Ok (Some (found_mergedMiningTag {| mm_depth := u8 depth; mm_merkleRoot := merkleRoot |} s, it + (readDepthSize + 32)))
  else Ok None.

Fixpoint parse_loop (fuel : nat) (extra : bytes) (it : Z) (s : ParseState) : outcome ParsedExtra :=
  match fuel with
  | O => Undefined "more rounds than bytes"
  | S fuel =>
      if negb (it <? size_of extra) then Ok (parsed s)
      else if seenPubKey s && seenPaymentID s && seenMergedMiningTag s && seenExtraData s && seenPowNonce s then Ok (parsed s)
      else
        c ← byte_at extra it;
        let elementsRemaining := size_of extra - it in
        if (c =? 0x01) && (32 <? elementsRemaining) && negb (seenPubKey s) then
          k ← copy_range extra (it + 1) (it + 1 + 32);
          parse_loop fuel extra (it + 32 + 1) (found_pubKey k s)
        else if (c =? 0x02) && (1 <? elementsRemaining) && negb (seenNonce s) then
          '(s, it) ← parse_nonce extra it s;
          parse_loop fuel extra (it + 1) s
        else
          m ← (if (c =? 0x03) && (1 <? elementsRemaining) && negb (seenMergedMiningTag s) then parse_mergedMining extra it s else Ok None);
          match m with
          | Some (s, it) => parse_loop fuel extra (it + 1) s
          | None =>
              if (c =? 0x04) && (8 <? elementsRemaining) && negb (seenPowNonce s) then
                tmp ← copy_range extra (it + 1) (it + 1 + 8);
                parse_loop fuel extra (it + 8 + 1) (found_powNonce (le_val tmp) s)
              else parse_loop fuel extra (it + 1) s
          end
  end.

Definition parseExtra (extra : bytes) : outcome ParsedExtra := parse_loop (length extra + 3) extra 0 new_ParseState.

Definition getPaymentIDFromExtra (extra : bytes) : outcome bytes := p ← parseExtra extra; Ok (pe_paymentID p).
Definition getTransactionPublicKeyFromExtra (extra : bytes) : outcome PublicKey := p ← parseExtra extra; Ok (pe_transactionPublicKey p).
Definition getMergedMiningTagFromExtra (extra : bytes) : outcome MergedMiningTag := p ← parseExtra extra; Ok (pe_mergedMiningTag p).
Definition getExtraDataFromExtra (extra : bytes) : outcome bytes := p ← parseExtra extra; Ok (pe_extraData p).
Definition getTransactionPowNonceFromExtra (extra : bytes) : outcome Z := p ← parseExtra extra; Ok (pe_transactionPowNonce p).

(** One round of the parser at a nonce. *)
Lemma parse_round_nonce fuel extra it s r : byte_at extra it = Ok 0x02 -> 1 < size_of extra - it -> seenPubKey s = false -> seenNonce s = false ->
  parse_nonce extra it s = Ok r -> parse_loop (S fuel) extra it s = parse_loop fuel extra (r.2 + 1) r.1.
Proof.
  intros Hb Hr Hk Hn Hp. cbn [parse_loop]. rewrite (proj2 (Z.ltb_lt it (size_of extra))) by lia. rewrite Hk, Hn, Hb. okbind. cbn [negb andb].
  change (2 =? 1) with false. change (2 =? 2) with true. rewrite (proj2 (Z.ltb_lt 1 (size_of extra - it))) by lia. cbn [negb andb]. rewrite Hp. destruct r. okbind. done.
Qed.

Lemma parse_round_before fuel extra it s : it < 0 -> seenPubKey s = false -> parse_loop (S fuel) extra it s = Undefined "a byte outside the vector".
Proof.
  intros Hi Hk. assert (Hs : (it <? size_of extra) = true) by (apply Z.ltb_lt; unfold size_of; lia). cbn [parse_loop]. rewrite Hs, Hk. cbn [negb andb]. unfold byte_at.
  rewrite (proj2 (Z.leb_gt 0 it)) by done. done.
Qed.
Lemma parse_round_mergedMining fuel extra it s m : byte_at extra it = Ok 0x03 -> 1 < size_of extra - it -> seenPubKey s = false -> seenMergedMiningTag s = false ->
  parse_mergedMining extra it s = Undefined m -> parse_loop (S fuel) extra it s = Undefined m.
Proof.
  intros Hb Hr Hk Hn Hp. cbn [parse_loop]. rewrite (proj2 (Z.ltb_lt it (size_of extra))) by lia. rewrite Hk, Hn, Hb. okbind. cbn [negb andb].
  change (3 =? 1) with false. change (3 =? 2) with false. change (3 =? 3) with true. rewrite (proj2 (Z.ltb_lt 1 (size_of extra - it))) by lia. cbn [negb andb]. by rewrite Hp.
Qed.

(** A size of [80 00] at the start, which [read_varint] refuses with -2. *)
Lemma parse_nonce_back rest : size_of rest < 2 ^ 63 ->
  parse_nonce (0x02 :: 0x80 :: 0x00 :: rest) 0 new_ParseState = Ok (found_nonce new_ParseState, -2).
Proof.
  intros Hr. set (e := 2 :: _). assert (Hs : 3 <= size_of e < 2 ^ 63 + 3) by (unfold e, size_of in *; simpl; lia).
  assert (Hv : varint_at e (0 + 1) = Ok (2 ^ 64 - 2, 0)).
  { unfold varint_at. rewrite (proj2 (Z.leb_le (0 + 1) (size_of e))) by lia. subst e. vm_compute. reflexivity. }
  unfold parse_nonce. rewrite Hv. okbind. replace (u64 (2 ^ 64 - 2 + 0)) with (2 ^ 64 - 2) by (vm_compute; reflexivity).
  rewrite (proj2 (Z.ltb_ge (2 ^ 64 - 2) (size_of e - 0))) by lia. okbind. replace (advance 0 (2 ^ 64 - 2)) with (-2) by (vm_compute; reflexivity). done.
Qed.

Lemma read_varint_small n rest : 0 <= n < 128 -> read_varint 64 (n :: rest) = (1, n, rest).
Proof.
  intros Hn. unfold read_varint. cbn [read_varint_loop]. change (64 <=? 0 + 7) with false. change (negb (0 =? 0)) with false. rewrite andb_false_r. cbn [andb].
  assert (E1 : Z.land n 0x7f = n) by (change 0x7f with (Z.ones 7); rewrite Z.land_ones by lia; by apply Z.mod_small).
  assert (E2 : Z.land n 0x80 = 0) by (rewrite <- E1, <- Z.land_assoc; apply Z.land_0_r).
  rewrite E1, E2, Z.shiftl_0_r, Z.lor_0_l, wrap_small by width_solve. done.
Qed.

(** A size of [2^64 - 9] in a merged mining tag, in ten bytes: the sum of both is 1. *)
Lemma parse_mergedMining_over depth tail : 0 <= depth < 128 -> (length tail < 32)%nat ->
  parse_mergedMining (0x03 :: [0xf7; 0xff; 0xff; 0xff; 0xff; 0xff; 0xff; 0xff; 0xff; 0x01] ++ depth :: tail) 0 new_ParseState = Undefined "a range outside the vector".
Proof.
  intros Hd Ht. set (e := 3 :: _). assert (Hs : 12 <= size_of e < 44) by (unfold e, size_of in *; simpl; lia).
  assert (Hv : varint_at e (0 + 1) = Ok (10, 2 ^ 64 - 9)).
  { unfold varint_at. rewrite (proj2 (Z.leb_le (0 + 1) (size_of e))) by lia. subst e. vm_compute. reflexivity. }
  assert (Hv' : varint_at e 11 = Ok (1, depth)).
  { unfold varint_at. rewrite (proj2 (Z.leb_le 11 (size_of e))) by lia. change (drop (Z.to_nat 11) e) with (depth :: tail). rewrite read_varint_small by done. done. }
  unfold parse_mergedMining. rewrite Hv. okbind. replace (u64 (2 ^ 64 - 9 + 10)) with 1 by (vm_compute; reflexivity).
  rewrite (proj2 (Z.ltb_lt 1 (size_of e - 0))) by lia. replace (33 <=? 2 ^ 64 - 9) with true by (vm_compute; reflexivity). cbn [andb].
  replace (advance (0 + 1) 10) with 11 by (vm_compute; reflexivity). rewrite Hv'. okbind. replace (11 + i64 1) with 12 by (vm_compute; reflexivity). unfold copy_range.
  rewrite (proj2 (Z.leb_gt (12 + 32) (size_of e))) by lia. rewrite andb_false_r. done.
Qed.

(** ** Properties *)

(** C40: The parser reads outside of the extra field.  A nonce at the start whose size is not a canonical varint moves the iterator to the
    byte before the vector ([read_varint] returns -2, kept in a [size_t] and added to the iterator); a merged mining tag whose size is
    [2^64 - 9] passes the check of the bytes that remain, since adding the size of the size wraps, and the 32 bytes of the Merkle root are
    copied whatever is left. *)
Theorem parseExtra_reads_outside rest depth tail : size_of rest < 2 ^ 63 -> 0 <= depth < 128 -> (length tail < 32)%nat ->
  parseExtra (0x02 :: 0x80 :: 0x00 :: rest) = Undefined "a byte outside the vector"
  /\ parseExtra (0x03 :: get_varint_data (2 ^ 64 - 9) ++ depth :: tail) = Undefined "a range outside the vector".
Proof.
  intros Hr Hd Ht. split.
  - unfold parseExtra. set (e := 2 :: _). assert (Hs : 3 <= size_of e) by (unfold e, size_of in *; simpl; lia).
    replace (length e + 3)%nat with (S (S (length e + 1))) by lia.
    rewrite (parse_round_nonce _ e 0 new_ParseState (found_nonce new_ParseState, -2)); [|done|lia|done|done|by apply parse_nonce_back].
    by apply parse_round_before.
  - replace (get_varint_data (2 ^ 64 - 9)) with [0xf7; 0xff; 0xff; 0xff; 0xff; 0xff; 0xff; 0xff; 0xff; 0x01] by (vm_compute; reflexivity).
    unfold parseExtra. rewrite Nat.add_succ_r. apply parse_round_mergedMining; [done| |done|done|by apply parse_mergedMining_over].
    unfold size_of. simpl length. lia.
Qed.

Lemma parseExtra_reads_outside_witness : parseExtra [0x02; 0x80; 0x00] = Undefined "a byte outside the vector"
  /\ parseExtra (0x03 :: get_varint_data (2 ^ 64 - 9) ++ [5]) = Undefined "a range outside the vector".
Proof. refine (parseExtra_reads_outside [] 5 [] _ _ _); [by_compute|lia|simpl; lia]. Defined.
