(* ===== verification/TransferExtra.v ===== *)
(** * TransferExtra: the extra field the wallet writes is the one the daemon reads

    [make_extra] and the nonce of the proof of work of [Transfer], read back by [parseExtra] of [ParseExtra] and by
    [parseTransactionExtra] of [TransactionExtra]. *)

From Stdlib Require Import ZArith Lia.
From stdpp Require Import base tactics list numbers strings.
From S2P Require Import Prelude Stream StringTools Config Types Serializer TransactionExtra ParseExtra Transfer.

Local Open Scope Z_scope.

(** ** Reading at a position *)

Lemma size_of_app a b : size_of (a ++ b) = size_of a + size_of b.
Proof. unfold size_of. rewrite length_app. lia. Qed.
Lemma size_of_cons x b : size_of (x :: b) = 1 + size_of b.
Proof. unfold size_of. simpl. lia. Qed.
Lemma size_of_nonneg b : 0 <= size_of b.
Proof. unfold size_of. lia. Qed.

Lemma byte_at_app pre c rest it : it = size_of pre -> byte_at (pre ++ c :: rest) it = Ok c.
Proof.
  intros ->. unfold byte_at. rewrite size_of_app, size_of_cons. pose proof (size_of_nonneg pre). pose proof (size_of_nonneg rest).
  rewrite (proj2 (Z.leb_le _ _)), (proj2 (Z.ltb_lt _ _)) by lia. simpl andb. cbv iota. unfold size_of. rewrite Nat2Z.id, list_lookup_middle by done. done.
Qed.
Lemma copy_range_app pre l rest a b : a = size_of pre -> b = a + size_of l -> copy_range (pre ++ l ++ rest) a b = Ok l.
Proof.
  intros -> ->. unfold copy_range. rewrite !size_of_app. pose proof (size_of_nonneg pre). pose proof (size_of_nonneg l). pose proof (size_of_nonneg rest).
  rewrite (proj2 (Z.leb_le 0 _)), (proj2 (Z.leb_le (size_of pre) _)), (proj2 (Z.leb_le (_ + _) _)) by lia. simpl andb. cbv iota.
  replace (size_of pre + size_of l - size_of pre) with (size_of l) by lia. unfold size_of. rewrite !Nat2Z.id, drop_app_length, take_app_length. done.
Qed.
Lemma varint_at_app pre v rest it : it = size_of pre -> is_u64 v -> is_bytes rest ->
  varint_at (pre ++ get_varint_data v ++ rest) it = Ok (size_of (get_varint_data v), v).
Proof.
  intros -> Hv Hr. unfold varint_at. rewrite !size_of_app. pose proof (size_of_nonneg pre). pose proof (size_of_nonneg (get_varint_data v)). pose proof (size_of_nonneg rest).
  rewrite (proj2 (Z.leb_le 0 _)), (proj2 (Z.leb_le (size_of pre) _)) by lia. simpl andb. cbv iota. unfold size_of at 1. rewrite Nat2Z.id, drop_app_length.
  rewrite read_varint_get_varint_data; [|by do 3 right|done|done]. do 2 f_equal. rewrite get_varint_data_eq by apply Hv.
  pose proof (length_writeVarint v Hv). fold (size_of (writeVarint v)). apply wrap_small. split; [apply size_of_nonneg|]. unfold size_of. lia.
Qed.

Lemma varint_vector_eq fuel : forall i, 0 <= i -> varint_vector_loop fuel i = write_varint_loop fuel i.
Proof.
  induction fuel as [|fuel IH]; intros i Hi; cbn [varint_vector_loop write_varint_loop]; [done|]. destruct (0x80 <=? i); [|done].
  rewrite IH by (by apply Z.shiftr_nonneg). f_equal. assert (E : Z.land (u8 i) 0x7f = Z.land i 0x7f).
  { change 127 with (Z.ones 7). rewrite !Z.land_ones by lia. unfold wrap. apply Z.mod_mod_divide. by exists 2. }
  rewrite E. apply wrap_small. change 127 with (Z.ones 7). rewrite Z.land_ones by lia. assert (0 <= i mod 2 ^ 7 < 2 ^ 7) by (apply Z.mod_pos_bound; lia).
  assert (F : Forall (fun j => in_width 8 (Z.lor j 128)) (seqZ 0 128)) by by_compute. rewrite Forall_forall in F. apply F, elem_of_seqZ. lia.
Qed.
Lemma uintToVarintVector_eq i : 0 <= i -> uintToVarintVector i = get_varint_data i.
Proof. apply varint_vector_eq. Qed.

(** ** The nonce *)

(** The fields the wallet writes in the nonce: a payment ID and data, both optional. *)
Definition id_field (id : option Hash) : bytes := match id with Some h => 0 :: h | None => [] end.
Definition data_field (data : bytes) : bytes := if bool_decide (data <> []) then 0x7f :: get_varint_data (size_of data) ++ data else [].
Definition read_id (id : option Hash) (s : ParseState) : ParseState := match id with Some h => found_paymentID (podToHex h) s | None => s end.
Definition read_data (data : bytes) (s : ParseState) : ParseState := if bool_decide (data <> []) then found_extraData data s else s.

Lemma nonce_end fuel l adv s : nonce_loop (S fuel) l (size_of l) adv s = Ok (s, adv).
Proof. cbn [nonce_loop]. by rewrite Z.eqb_refl. Qed.

Lemma nonce_id fuel h rest adv s : length h = 32%nat -> 0 <= adv < 2 ^ 40 -> seenPaymentID s = false ->
  nonce_loop (S fuel) (0 :: h ++ rest) 0 adv s = nonce_loop fuel (0 :: h ++ rest) 33 (adv + 33) (found_paymentID (podToHex h) s).
Proof.
  intros Hh Ha Hs. cbn [nonce_loop]. pose proof (size_of_nonneg rest). assert (Es : size_of (0 :: h ++ rest) = 33 + size_of rest) by (rewrite size_of_cons, size_of_app; unfold size_of at 1; lia).
  rewrite Es, (proj2 (Z.eqb_neq _ _)) by lia. rewrite (byte_at_app [] 0 (h ++ rest)) by done. okbind. rewrite Hs, (proj2 (Z.ltb_lt 32 _)) by lia. simpl andb. cbv iota.
  rewrite (copy_range_app [0] h rest) by (done || (unfold size_of; simpl; lia)). okbind. rewrite wrap_small by width_solve. done.
Qed.

Lemma nonce_data fuel pre d adv s l pos : l = pre ++ 0x7f :: get_varint_data (size_of d) ++ d -> pos = size_of pre ->
  d <> [] -> is_bytes d -> size_of d < 2 ^ 40 -> 0 <= adv < 2 ^ 40 -> seenExtraData s = false ->
  nonce_loop (S fuel) l pos adv s = nonce_loop fuel l (size_of l) (adv + (1 + size_of (get_varint_data (size_of d)) + size_of d)) (found_extraData d s).
Proof.
  intros El -> Hd Hb Hsz Ha Hs. set (V := get_varint_data (size_of d)) in *.
  assert (Hu : is_u64 (size_of d)) by (pose proof (size_of_nonneg d); width_solve).
  assert (HV : 1 <= size_of V <= 10) by (unfold V; rewrite get_varint_data_eq by apply Hu; pose proof (length_writeVarint _ Hu); unfold size_of in *; lia).
  assert (Hd1 : 1 <= size_of d) by (destruct d; [done|unfold size_of; simpl; lia]).
  assert (Es : size_of l = size_of pre + 1 + size_of V + size_of d) by (rewrite El, size_of_app, size_of_cons, size_of_app; lia).
  cbn [nonce_loop]. rewrite (proj2 (Z.eqb_neq (size_of pre) _)) by lia. assert (Eb : byte_at l (size_of pre) = Ok 0x7f) by (rewrite El; by apply byte_at_app). rewrite Eb. okbind. change (0x7f =? 0) with false. change (0x7f =? 0x7f) with true.
  rewrite Es, Hs, (proj2 (Z.ltb_lt 1 _)) by lia. simpl andb. cbv iota.
  assert (Ev : varint_at l (size_of pre + 1) = Ok (size_of V, size_of d)).
  { rewrite El. rewrite (app_assoc pre [0x7f] (V ++ d) : pre ++ 0x7f :: V ++ d = _). apply varint_at_app; [rewrite size_of_app; done|done|done]. }
  rewrite Ev. okbind. rewrite (wrap_small 64 (1 + _ + _)), (wrap_small 64 (size_of V + size_of d)), (wrap_small 64 (adv + _)) by width_solve. rewrite (proj2 (Z.leb_le _ _)) by lia.
  unfold advance. rewrite !swrap_small by (unfold in_swidth; eval_pow2; lia).
  assert (Ec : copy_range l (size_of pre + 1 + size_of V) (size_of pre + 1 + size_of V + size_of d) = Ok d).
  { rewrite El. rewrite <- (app_nil_r d) at 1. rewrite (app_assoc pre [0x7f] (V ++ d ++ []) : pre ++ 0x7f :: V ++ d ++ [] = _), app_assoc.
    apply copy_range_app; [rewrite !size_of_app; change (size_of [127]) with 1; lia|done]. }
  rewrite Ec. okbind. f_equal. lia.
Qed.

Lemma nonce_fields_ok id data adv s : (forall h, id = Some h -> length h = 32%nat) -> is_bytes data -> size_of data < 2 ^ 39 -> 0 <= adv < 2 ^ 39 ->
  seenPaymentID s = false -> seenExtraData s = false ->
  parse_nonce_data (id_field id ++ data_field data) adv s = Ok (read_data data (read_id id s), adv + size_of (id_field id ++ data_field data)).
Proof.
  intros Hid Hb Hsz Ha Hp He. unfold parse_nonce_data. rewrite !(Nat.add_comm _ 3). cbn [Nat.add].
  destruct id as [h|]; cbn [id_field read_id].
  - rewrite <- app_comm_cons. rewrite nonce_id by (by apply Hid || lia || done). unfold data_field, read_data. case_bool_decide.
    + pose proof (Hid h eq_refl) as Hh. rewrite (nonce_data _ (0 :: h) data); [|done|unfold size_of; simpl; lia|done|done|lia|lia|done]. rewrite nonce_end. do 2 f_equal.
      assert (size_of h = 32) by (unfold size_of; lia). rewrite size_of_cons, size_of_app, size_of_cons, size_of_app. lia.
    + rewrite app_nil_r. pose proof (Hid h eq_refl) as Hh. replace 33 with (size_of (0 :: h)) at 1 by (unfold size_of; simpl; lia). rewrite nonce_end. unfold size_of. simpl length. rewrite Hh. done.
  - simpl app. unfold data_field, read_data. case_bool_decide.
    + rewrite (nonce_data _ [] data); [|done|done|done|done|lia|lia|done]. rewrite nonce_end. do 2 f_equal. rewrite size_of_cons, size_of_app. lia.
    + change 0 with (size_of []) at 1. rewrite nonce_end. do 2 f_equal. unfold size_of. simpl. lia.
Qed.

(** ** The whole field *)

Lemma parse_nonce_ok extra pre id data rest it s : let nd := id_field id ++ data_field data in
  extra = pre ++ 0x02 :: get_varint_data (size_of nd) ++ nd ++ rest -> it = size_of pre ->
  (forall h, id = Some h -> length h = 32%nat) -> is_bytes nd -> is_bytes data -> is_bytes rest -> size_of data < 2 ^ 39 -> seenPaymentID s = false -> seenExtraData s = false ->
  parse_nonce extra it s = Ok (found_nonce (read_data data (read_id id s)), it + size_of (get_varint_data (size_of nd)) + size_of nd).
Proof.
  intros nd Ee -> Hid Hn Hb Hr Hsz Hp He. assert (Hnd : 0 <= size_of nd < 2 ^ 40).
  { split; [apply size_of_nonneg|]. unfold nd. rewrite size_of_app. assert (size_of (id_field id) <= 33) by (destruct id as [h|]; unfold size_of; simpl; [rewrite (Hid h eq_refl); done|done]).
    unfold data_field. case_bool_decide; [|unfold size_of at 2; simpl; lia]. rewrite size_of_cons, size_of_app.
    assert (Hu : is_u64 (size_of data)) by (pose proof (size_of_nonneg data); width_solve). pose proof (length_writeVarint _ Hu) as L. rewrite get_varint_data_eq by apply Hu.
    unfold size_of at 2. eval_pow2. lia. }
  assert (Hu : is_u64 (size_of nd)) by width_solve. unfold parse_nonce. set (V := get_varint_data (size_of nd)) in *.
  assert (HV : 1 <= size_of V <= 10) by (unfold V; rewrite get_varint_data_eq by apply Hu; pose proof (length_writeVarint _ Hu); unfold size_of in *; lia).
  assert (Es : size_of extra = size_of pre + 1 + size_of V + size_of nd + size_of rest) by (rewrite Ee, size_of_app, size_of_cons, !size_of_app; lia).
  assert (Ev : varint_at extra (size_of pre + 1) = Ok (size_of V, size_of nd)).
  { rewrite Ee. rewrite (app_assoc pre [0x02] (V ++ nd ++ rest) : pre ++ 0x02 :: V ++ nd ++ rest = _). apply varint_at_app; [by rewrite size_of_app|done|]. by apply Forall_app. }
  rewrite Ev. okbind. pose proof (size_of_nonneg rest). rewrite wrap_small by width_solve. rewrite Es, (proj2 (Z.ltb_lt _ _)) by lia.
  unfold advance. rewrite !swrap_small by (unfold in_swidth; eval_pow2; lia).
  assert (Ec : copy_range extra (size_of pre + 1 + size_of V) (size_of pre + 1 + size_of V + size_of nd) = Ok nd).
  { rewrite Ee. rewrite (app_assoc pre [0x02] (V ++ nd ++ rest) : pre ++ 0x02 :: V ++ nd ++ rest = _), app_assoc.
    apply copy_range_app; [rewrite !size_of_app; change (size_of [2]) with 1; lia|done]. }
  rewrite Ec. okbind. unfold nd at 1. rewrite nonce_fields_ok by (done || (eval_pow2; lia)). okbind. fold nd. unfold advance. rewrite swrap_small by (unfold in_swidth; eval_pow2; lia).
  do 2 f_equal. lia.
Qed.

Lemma parse_tail fuel extra pre k n it s : extra = pre ++ 0x01 :: k ++ 0x04 :: n -> it = size_of pre -> length k = 32%nat -> length n = 8%nat ->
  seenPubKey s = false -> seenPowNonce s = false ->
  parse_loop (S (S (S fuel))) extra it s = Ok (parsed (found_powNonce (le_val n) (found_pubKey k s))).
Proof.
  intros Ee -> Hk Hn Sk Sn. assert (size_of k = 32) by (unfold size_of; lia). assert (size_of n = 8) by (unfold size_of; lia). pose proof (size_of_nonneg pre).
  assert (Es : size_of extra = size_of pre + 42) by (rewrite Ee, size_of_app, size_of_cons, size_of_app, size_of_cons; lia).
  cbn [parse_loop]. rewrite Es, (proj2 (Z.ltb_lt (size_of pre) _)) by lia. cbn [negb]. rewrite Sn, andb_false_r.
  assert (Eb : byte_at extra (size_of pre) = Ok 1) by (rewrite Ee; by apply byte_at_app). rewrite Eb. okbind. rewrite Sk, (proj2 (Z.ltb_lt 32 _)) by lia. cbn [andb].
  assert (Ec : copy_range extra (size_of pre + 1) (size_of pre + 1 + 32) = Ok k).
  { rewrite Ee. rewrite (app_assoc pre [0x01] (k ++ 0x04 :: n) : pre ++ 0x01 :: k ++ 0x04 :: n = _). apply copy_range_app; [by rewrite size_of_app|lia]. }
  rewrite Ec. okbind. rewrite (proj2 (Z.ltb_lt (size_of pre + 32 + 1) _)) by lia. cbn [negb].
  assert (Sn' : seenPowNonce (found_pubKey k s) = false) by done. rewrite Sn', andb_false_r.
  assert (Ep : extra = (pre ++ 0x01 :: k) ++ 0x04 :: n) by (rewrite Ee, <- app_assoc; done). assert (Hpre : size_of (pre ++ 0x01 :: k) = size_of pre + 32 + 1) by (rewrite size_of_app, size_of_cons; lia).
  assert (Eb2 : byte_at extra (size_of pre + 32 + 1) = Ok 4) by (rewrite Ep; by apply byte_at_app). rewrite Eb2. okbind. cbn [Z.eqb Pos.eqb andb]. okbind.
  rewrite (proj2 (Z.ltb_lt 8 _)) by lia. cbn [negb andb].
  assert (Ec2 : copy_range extra (size_of pre + 32 + 1 + 1) (size_of pre + 32 + 1 + 1 + 8) = Ok n).
  { replace extra with (((pre ++ 0x01 :: k) ++ [0x04]) ++ n ++ []) by (rewrite app_nil_r, Ep, <- (app_assoc _ [0x04]); done).
    apply copy_range_app; [rewrite size_of_app, Hpre; change (size_of [4]) with 1; lia|lia]. }
  rewrite Ec2. okbind. rewrite (proj2 (Z.ltb_ge _ _)) by lia. done.
Qed.

(** The payment ID as bytes. *)
Definition id_of (paymentID : bytes) (id : option Hash) : Prop :=
  match id with None => paymentID = [] | Some h => paymentID <> [] /\ podFromHex 32 paymentID = Some h end.
Definition nonce_field (nd : bytes) : bytes := if bool_decide (nd <> []) then 0x02 :: get_varint_data (size_of nd) ++ nd else [].

Lemma not_nonempty {A} (l : list A) : ~ l <> [] -> l = [].
Proof. destruct l; naive_solver. Qed.

Lemma make_extra_eq paymentID data k e : make_extra paymentID data k = Ok e -> exists id, id_of paymentID id
  /\ e = nonce_field (id_field id ++ data_field data) ++ 0x01 :: k.
Proof.
  unfold make_extra. rewrite uintToVarintVector_eq by lia. fold (size_of data).
  change (if bool_decide (data <> []) then TX_EXTRA_ARBITRARY_DATA_IDENTIFIER :: get_varint_data (size_of data) ++ data else []) with (data_field data).
  destruct (bool_decide_reflect (paymentID <> [])) as [Hp|Hp].
  - destruct (podFromHex 32 paymentID) as [h|] eqn:E; okbind; [|done]. intros [= <-]. exists (Some h). split; [done|]. rewrite uintToVarintVector_eq by lia. done.
  - okbind. intros [= <-]. exists None. split; [by apply not_nonempty|]. rewrite uintToVarintVector_eq by lia. done.
Qed.
Lemma id_of_length paymentID id h : id_of paymentID id -> id = Some h -> length h = 32%nat.
Proof.
  intros Hi ->. destruct Hi as [_ E]. unfold podFromHex in E. destruct (fromHex_buffer_opt _ _) as [d|]; [|done].
  destruct (Z.eqb_spec (Z.of_nat (length d)) 32); [|done]. injection E as <-. lia.
Qed.
Lemma fields_bytes paymentID id data : id_of paymentID id -> is_bytes paymentID -> is_bytes data -> size_of data < 2 ^ 39 -> is_bytes (id_field id ++ data_field data).
Proof.
  intros Hi Hp Hd Hs. apply Forall_app. split.
  - destruct id as [h|]; [|constructor]. destruct Hi as [_ E]. apply podFromHex_inv in E as (? & _); [|done]. constructor; [by_compute|done].
  - unfold data_field. case_bool_decide; [|constructor]. assert (Hu : is_u64 (size_of data)) by (pose proof (size_of_nonneg data); width_solve).
    constructor; [by_compute|]. apply Forall_app. split; [|done]. rewrite get_varint_data_eq by apply Hu. apply writeVarint_is_bytes, Hu.
Qed.
Lemma read_id_hex paymentID id s : id_of paymentID id -> is_bytes paymentID -> pe_paymentID (parsed s) = [] -> pe_paymentID (parsed (read_id id s)) = to_lower <$> paymentID.
Proof.
  intros Hi Hb Hs. destruct id as [h|]; simpl in *; [|by subst]. destruct Hi as [_ E]. by apply podFromHex_inv in E as (_ & _ & E).
Qed.

(** The state after all the fields. *)
Lemma read_all paymentID id data k n : id_of paymentID id -> is_bytes paymentID ->
  parsed (found_powNonce n (found_pubKey k (found_nonce (read_data data (read_id id new_ParseState)))))
  = {| pe_transactionPublicKey := k; pe_paymentID := to_lower <$> paymentID; pe_mergedMiningTag := {| mm_depth := 0; mm_merkleRoot := NULL_HASH |};
       pe_extraData := data; pe_transactionPowNonce := n |}.
Proof.
  intros Hi Hp. rewrite <- (read_id_hex paymentID id new_ParseState Hi Hp eq_refl). unfold read_data.
  case_bool_decide as Hd; [by destruct id|]. subst data. by destruct id.
Qed.

(** What a reader finds of the fields a wallet wrote. *)
Definition parsed_of (k : PublicKey) (paymentID data : bytes) (nonce : Z) : ParsedExtra :=
  {| pe_transactionPublicKey := k; pe_paymentID := to_lower <$> paymentID; pe_mergedMiningTag := {| mm_depth := 0; mm_merkleRoot := NULL_HASH |};
          pe_extraData := data; pe_transactionPowNonce := nonce |}.

Lemma extra_parsed paymentID data k nonce e : is_bytes paymentID -> is_bytes data -> size_of data < 2 ^ 39 -> pod 32 k -> is_u64 nonce ->
  make_extra paymentID data k = Ok e ->
  parseExtra (e ++ TX_EXTRA_TRANSACTION_POW_NONCE_IDENTIFIER :: le_bytes 8 nonce)
  = Ok (parsed_of k paymentID data nonce).
Proof.
  intros Hp Hd Hs [Hkb Hk] Hn E. apply make_extra_eq in E as (id & Hi & ->). pose proof (fields_bytes _ _ _ Hi Hp Hd Hs) as Hb. set (nd := id_field id ++ data_field data) in *.
  rewrite <- app_assoc, <- app_comm_cons. change TX_EXTRA_TRANSACTION_POW_NONCE_IDENTIFIER with 0x04. set (tail := 0x01 :: k ++ 0x04 :: le_bytes 8 nonce).
  set (extra := nonce_field nd ++ tail). assert (Hv : le_val (le_bytes 8 nonce) = nonce) by (rewrite le_val_le_bytes; apply Z.mod_small; width_solve).
  assert (Hlt : length tail = 42%nat) by (unfold tail; simpl; rewrite length_app; simpl; rewrite Hk; done).
  unfold parseExtra. assert (Hf : exists f, (length extra + 3)%nat = S (S (S (S f)))) by (exists (length extra - 1)%nat; unfold extra; rewrite length_app; lia).
  destruct Hf as [f ->]. destruct (decide (nd <> [])) as [Hne|Hne].
  - set (s1 := found_nonce (read_data data (read_id id new_ParseState))). set (V := get_varint_data (size_of nd)) in *.
    assert (Ee : extra = [] ++ 0x02 :: V ++ nd ++ tail) by (unfold extra, nonce_field; rewrite bool_decide_eq_true_2, <- app_comm_cons, <- app_assoc by done; done).
    assert (Ep : parse_nonce extra 0 new_ParseState = Ok (s1, 0 + size_of V + size_of nd)).
    { eapply (parse_nonce_ok _ [] id data tail); [exact Ee|done|by intros h; apply (id_of_length _ _ _ Hi)|done|done| |done|done|done].
      unfold tail. constructor; [by_compute|]. apply Forall_app. split; [done|]. constructor; [by_compute|apply le_bytes_is_bytes]. }
    pose proof (size_of_nonneg V). pose proof (size_of_nonneg nd).
    assert (Es : size_of extra = 1 + size_of V + size_of nd + 42) by (rewrite Ee; simpl app; rewrite size_of_cons, !size_of_app; assert (size_of tail = 42) by (unfold size_of; lia); lia).
    rewrite (parse_round_nonce _ extra 0 new_ParseState (s1, 0 + size_of V + size_of nd)); [|rewrite Ee; by apply byte_at_app|lia|done|done|exact Ep].
    cbn [fst snd].
    rewrite (parse_tail f extra (0x02 :: V ++ nd) k (le_bytes 8 nonce) _ s1);
      [|rewrite Ee; simpl app; rewrite <- app_assoc; done|rewrite size_of_cons, size_of_app; lia|done|done| |].
    + rewrite Hv. f_equal. by apply read_all.
    + subst s1. unfold read_data. destruct id; by case_bool_decide.
    + subst s1. unfold read_data. destruct id; by case_bool_decide.
  - assert (Ee : extra = tail) by (unfold extra, nonce_field; by rewrite bool_decide_eq_false_2).
    assert (Hnil : nd = []) by (by apply not_nonempty). unfold nd in Hnil. apply app_nil in Hnil as [Hidn Hdn].
    assert (id = None) as -> by (by destruct id). simpl in Hi. subst paymentID. unfold data_field in Hdn. case_bool_decide as Hdd; [done|].
    subst data.
    rewrite (parse_tail _ extra [] k (le_bytes 8 nonce) 0 new_ParseState) by done. rewrite Hv. done.
Qed.

(** ** Properties *)

(** C27: What the wallet writes into the extra field of a transaction, the daemon reads back for wallets: the transaction's public key, the
    payment ID (in lower case), the arbitrary data and the nonce of the proof of work, whatever their bytes. *)
Theorem extra_read_back paymentID data k nonce e : is_bytes paymentID -> is_bytes data -> size_of data < 2 ^ 39 -> pod 32 k -> is_u64 nonce ->
  make_extra paymentID data k = Ok e ->
  parseExtra (e ++ TX_EXTRA_TRANSACTION_POW_NONCE_IDENTIFIER :: le_bytes 8 nonce)
  = Ok (parsed_of k paymentID data nonce).
Proof. apply extra_parsed. Qed.

Lemma extra_read_back_witness : exists e, make_extra (replicate 64 65) [7; 8; 9] (replicate 32 5) = Ok e
  /\ parseExtra (e ++ TX_EXTRA_TRANSACTION_POW_NONCE_IDENTIFIER :: le_bytes 8 42)
     = Ok (parsed_of (replicate 32 5) (replicate 64 65) [7; 8; 9] 42).
Proof.
  eexists. split; [vm_compute; reflexivity|].
  refine (extra_read_back (replicate 64 65) [7; 8; 9] (replicate 32 5) 42 _ _ _ _ _ _ _); [by_compute|by_compute|by_compute|split; by_compute|width_solve|vm_compute; reflexivity].
Defined.
