(* ===== verification/CoreQueries.v ===== *)
(** * CoreQueries: what [cryptonotecore/Core.cpp] answers to peers and wallets

    The read operations of the core: where a peer's chain meets the main chain, the blocks and transactions by height and by hash, the
    changes of the pool, the blocks for a wallet that synchronises, the global indexes of outputs and the outputs offered for rings
    ([getRandomOuts] of [rpc/RpcServer.cpp], without the JSON around it).  Log messages are not modelled. *)

From Stdlib Require Import ZArith Lia.
From stdpp Require Import base tactics list numbers strings gmap fin_maps fin_sets sorting.
From S2P Require Import Prelude Config Types Serializer TxSerialization BlockSerialization Currency Validate Pool BlockchainCache CacheChain CacheQueries BlockValidation SegmentTree Ledger Core WalletSync ParseExtra Transfer.

Local Open Scope Z_scope.

(** [CryptoNoteConfig.h] *)
Definition BLOCKS_IDS_SYNCHRONIZING_DEFAULT_COUNT : Z := 1000.
Definition BLOCKS_SYNCHRONIZING_DEFAULT_COUNT : Z := 100.

(** A loop that appends one result for each element. *)
Fixpoint collect {A B} (f : A -> outcome B) (l : list A) : outcome (list B) :=
  match l with
  | [] => Ok []
  | a :: l => b ← f a; bs ← collect f l; Ok (b :: bs)
  end.

(** [fromBinaryArray] whose result is ignored: on failure the object is read in part. *)
Definition read_unchecked {A} (f : ser A) (object : A) (b : bytes) : outcome A :=
  r ← fromBinaryArray_opt f object b; from_option "an object read in part" r.

(** ** Blocks *)

Definition Core_getTopBlockHash (c : Core) : outcome Hash :=
  _ ← throwIfNotInitialized c; m ← main_cache c;
  match m with [] => null_parent | s :: _ => cache_getTopBlockHash s end.

Definition getBlockHashByIndex (c : Core) (blockIndex : Z) : outcome Hash :=
  _ ← throwIfNotInitialized c;
  top ← Core_getTopBlockIndex c;
  if top <? blockIndex then Ok NULL_HASH else m ← main_cache c; cache_getBlockHash m blockIndex.

Definition getBlockTimestampByIndex (c : Core) (blockIndex : Z) : outcome Z :=
  top ← Core_getTopBlockIndex c;
  _ ← assert (blockIndex <=? top) "assert(blockIndex <= getTopBlockIndex())";
  _ ← throwIfNotInitialized c;
  m ← main_cache c;
  timestamps ← getLastTimestamps m 1 blockIndex true;
  match timestamps with [t] => Ok t | _ => Undefined "assert(timestamps.size() == 1)" end.

Definition findMainChainSegmentContainingBlock_at (c : Core) (blockIndex : Z) : outcome (option ptr) :=
  p ← main_leaf c; findIndexInChain_at (objects c) p blockIndex.

(** What the search of the other leaves finds is not returned. *)
Definition findAlternativeSegmentContainingBlock_at (c : Core) (blockIndex : Z) : outcome (option ptr) :=
  _ ← foldM (fun (found : bool) p => if found then Ok true else r ← findIndexInChain_at (objects c) p blockIndex; Ok (bool_decide (is_Some r)))
        false (tail (chainsLeaves c));
  Ok None.
Definition findSegmentContainingBlock_at (c : Core) (blockHeight : Z) : outcome (option ptr) :=
  blockSegment ← findMainChainSegmentContainingBlock_at c blockHeight;
  match blockSegment with Some p => Ok (Some p) | None => findAlternativeSegmentContainingBlock_at c blockHeight end.

(** [segment->getBlockIndex(blockHash)] *)
Definition blockIndex_in (c : Core) (p : ptr) (blockHash : Hash) : outcome Z :=
  n ← node (objects c) p; cache_getBlockIndex (n_segment n) blockHash.

Section core_queries.
Context (cn_fast_hash : bytes -> Hash).

Definition restoreBlockTemplate (c : Core) (p : ptr) (blockIndex : Z) : outcome BlockTemplate :=
  m ← cache_at (objects c) p;
  rawBlock ← cache_getBlockByIndex m blockIndex;
  r ← fromBinaryArray_opt (serialize_BlockTemplate cn_fast_hash) new_BlockTemplate (block rawBlock);
  match r with Some b => Ok b | None => Throw "Coulnd't deserialize BlockTemplate" end.

Definition Core_getBlockByIndex (c : Core) (index : Z) : outcome BlockTemplate :=
  top ← Core_getTopBlockIndex c;
  _ ← assert (index <=? top) "assert(index <= getTopBlockIndex())";
  segment ← findMainChainSegmentContainingBlock_at c index;
  p ← from_option "assert(segment != nullptr)" segment;
  restoreBlockTemplate c p index.

Definition getBlockByHash (c : Core) (blockHash : Hash) : outcome BlockTemplate :=
  _ ← throwIfNotInitialized c;
  segment ← findMainChainSegmentContainingBlock c blockHash;
  match segment with
  | None => Throw "Requested hash wasn't found in main blockchain"
  | Some p => blockIndex ← blockIndex_in c p blockHash; restoreBlockTemplate c p blockIndex
  end.

(** *** The sparse chain a peer is sent *)

(** [for (uint32_t i = 1; i < blockIndex; i *= 2)]: at most 32 rounds; with more than 2^31 blocks [i] would wrap to 0 and stay there. *)
Fixpoint sparse_loop (fuel : nat) (m : Cache) (blockIndex i : Z) : outcome (list Hash) :=
  match fuel with
  | O => Undefined "the loop does not end"
  | S fuel =>
      if i <? blockIndex then
        h ← cache_getBlockHash m (u32 (blockIndex - i));
        l ← sparse_loop fuel m blockIndex (u32 (i * 2));
        Ok (h :: l)
      else Ok []
  end.
Definition doBuildSparseChain (c : Core) (blockHash : Hash) : outcome (list Hash) :=
  chain ← findSegmentContainingBlock c blockHash;
  p ← from_option "chain is null" chain;
  blockIndex ← blockIndex_in c p blockHash;
  m ← cache_at (objects c) p;
  l ← sparse_loop 33 m blockIndex 1;
  genesisBlockHash ← cache_getBlockHash m 0;
  Ok (blockHash :: l ++ (if bool_decide (blockHash <> genesisBlockHash) then [genesisBlockHash] else [])).
Definition buildSparseChain (c : Core) : outcome (list Hash) :=
  _ ← throwIfNotInitialized c;
  m ← main_cache c;
  topBlockHash ← match m with [] => null_parent | s :: _ => cache_getTopBlockHash s end;
  doBuildSparseChain c topBlockHash.

(** The first of the hashes on the main chain. *)
Fixpoint supplement_loop (c : Core) (remoteBlockIds : list Hash) : outcome Z :=
  match remoteBlockIds with
  | [] => Throw "Genesis block hash was not found."
  | hash :: rest =>
      blockchainSegment ← findMainChainSegmentContainingBlock c hash;
      match blockchainSegment with Some p => blockIndex_in c p hash | None => supplement_loop c rest end
  end.
Definition findBlockchainSupplement (c : Core) (remoteBlockIds : list Hash) : outcome Z :=
  if bool_decide (remoteBlockIds = []) then Ok 0 else supplement_loop c remoteBlockIds.

Definition Core_getBlockHashes (c : Core) (startBlockIndex maxCount : Z) : outcome (list Hash) :=
  m ← main_cache c; cache_getBlockHashes m startBlockIndex maxCount.

(** The hashes from there on, the number of blocks and the index. *)
Definition findBlockchainSupplement_hashes (c : Core) (remoteBlockIds : list Hash) (maxCount : Z) : outcome (list Hash * Z * Z) :=
  genesis ← getBlockHashByIndex c 0;
  _ ← assert (bool_decide (last remoteBlockIds = Some genesis)) "assert(remoteBlockIds.back() == getBlockHashByIndex(0))";
  _ ← throwIfNotInitialized c;
  top ← Core_getTopBlockIndex c;
  startBlockIndex ← findBlockchainSupplement c remoteBlockIds;
  hashes ← Core_getBlockHashes c startBlockIndex (u32 maxCount);
  Ok (hashes, u32 (top + 1), startBlockIndex).

(** *** Raw blocks *)

(** The blocks of a segment from [maxIndex] down to [minChainIndex]: them, newest first, and the [maxIndex] left. *)
Fixpoint blocks_down (fuel : nat) (m : Cache) (minChainIndex maxIndex : Z) : outcome (list RawBlock * Z) :=
  match fuel with
  | O => Undefined "the loop does not end"
  | S fuel =>
      if minChainIndex <=? maxIndex then
        b ← cache_getBlockByIndex m maxIndex;
        if maxIndex =? 0 then Ok ([b], 0)
        else '(l, rest) ← blocks_down fuel m minChainIndex (maxIndex - 1); Ok (b :: l, rest)
      else Ok ([], maxIndex)
  end.
(** Up the chain of segments; the blocks found, newest first. *)
Fixpoint blocks_up (m : Cache) (minIndex maxIndex count : Z) (blocks : list RawBlock) : outcome (list RawBlock) :=
  match m with
  | [] => Ok blocks
  | s :: ps =>
      top ← getTopBlockIndex s;
      '(blocks, maxIndex) ←
        (if maxIndex <=? top then
           '(l, rest) ← blocks_down (S (Z.to_nat (maxIndex + 1))) m (Z.max minIndex (seg_startIndex s)) maxIndex; Ok (blocks ++ l, rest)
         else Ok (blocks, maxIndex));
      if Z.of_nat (length blocks) =? count then Ok blocks else blocks_up ps minIndex maxIndex count blocks
  end.
Definition Core_getBlocks (c : Core) (minIndex count : Z) : outcome (list RawBlock) :=
  _ ← throwIfNotInitialized c;
  if 0 <? count then
    m ← main_cache c;
    top ← cache_top m;
    blocks ← blocks_up m minIndex (Z.min (u32 (minIndex + count - 1)) top) count [];
    Ok (reverse blocks)
  else Ok [].

(** The blocks found and the hashes that are not, in the main chain or another. *)
Fixpoint getBlocks_by_hash (c : Core) (blockHashes : list Hash) : outcome (list RawBlock * list Hash) :=
  match blockHashes with
  | [] => Ok ([], [])
  | hash :: rest =>
      blockchainSegment ← findSegmentContainingBlock c hash;
      match blockchainSegment with
      | None => '(blocks, missed) ← getBlocks_by_hash c rest; Ok (blocks, hash :: missed)
      | Some p =>
          blockIndex ← blockIndex_in c p hash;
          m ← cache_at (objects c) p;
          top ← cache_top m;
          _ ← assert (blockIndex <=? top) "assert(blockIndex <= blockchainSegment->getTopBlockIndex())";
          b ← cache_getBlockByIndex m blockIndex;
          '(blocks, missed) ← getBlocks_by_hash c rest; Ok (b :: blocks, missed)
      end
  end.
Definition Core_getBlocks_hashes (c : Core) (blockHashes : list Hash) : outcome (list RawBlock * list Hash) :=
  _ ← throwIfNotInitialized c; getBlocks_by_hash c blockHashes.

Definition getRawBlock (c : Core) (blockIndex : Z) : outcome RawBlock :=
  _ ← throwIfNotInitialized c; m ← main_cache c; cache_getBlockByIndex m blockIndex.
Definition getRawBlock_hash (c : Core) (blockHash : Hash) : outcome RawBlock :=
  _ ← throwIfNotInitialized c;
  segment ← findMainChainSegmentContainingBlock c blockHash;
  match segment with
  | None => Throw "Requested hash wasn't found in main blockchain"
  | Some p => blockIndex ← blockIndex_in c p blockHash; m ← cache_at (objects c) p; cache_getBlockByIndex m blockIndex
  end.

(** ** Transactions *)

Definition Core_getTransaction (c : Core) (hash : Hash) : outcome (option bytes) :=
  _ ← throwIfNotInitialized c;
  segment ← findSegmentContainingTransaction c hash;
  match segment with
  | Some p =>
      m ← cache_at (objects c) p;
      '(found, _) ← cache_getRawTransactions cn_fast_hash m [hash];
      b ← from_option "[0] of an empty vector" (head found); Ok (Some b)
  | None =>
      if checkIfTransactionPresent (transactionPool (core_pool c)) hash then
        tx ← pool_getTransaction (transactionPool (core_pool c)) hash; b ← getTransactionBinaryArray tx; Ok (Some b)
      else Ok None
  end.

(** Up the segments of a chain, while hashes are left: to the root, or to a segment of [main] (an alternative chain that
    does not meet one would end in a null pointer). *)
Fixpoint transactions_up (fuel : nat) (c : Core) (main : option (gset ptr)) (p : ptr) (leftTransactions : list Hash) (transactions : list bytes)
    : outcome (list bytes * list Hash) :=
  match fuel with
  | O => endless
  | S fuel =>
      m ← cache_at (objects c) p;
      '(found, missed) ← cache_getRawTransactions cn_fast_hash m leftTransactions;
      n ← node (objects c) p;
      if bool_decide (missed = []) then Ok (transactions ++ found, [])
      else
        match n_parent n, main with
        | None, None => Ok (transactions ++ found, missed)
        | None, Some _ => Undefined "segment is null"
        | Some q, _ =>
            if bool_decide (q ∈ default ∅ main) then Ok (transactions ++ found, missed)
            else transactions_up fuel c main q missed (transactions ++ found)
        end
  end.
Fixpoint alternative_transactions (c : Core) (leaves : list ptr) (leftTransactions : list Hash) (found : list bytes) : outcome (list bytes * list Hash) :=
  match leaves with
  | [] => Ok (found, leftTransactions)
  | p :: leaves =>
      '(found, leftTransactions) ←
        (if bool_decide (p ∈ mainChainSet c) || bool_decide (leftTransactions = []) then Ok (found, leftTransactions)
         else transactions_up (fuel_of (objects c)) c (Some (mainChainSet c)) p leftTransactions found);
      alternative_transactions c leaves leftTransactions found
  end.
Definition Core_getTransactions (c : Core) (transactionHashes : list Hash) : outcome (list bytes * list Hash) :=
  _ ← throwIfNotInitialized c;
  if bool_decide (transactionHashes = []) then Ok ([], [])
  else
    p ← main_leaf c;
    '(found, leftTransactions) ← transactions_up (fuel_of (objects c)) c None p transactionHashes [];
    if bool_decide (leftTransactions = []) then Ok (found, []) else alternative_transactions c (tail (chainsLeaves c)) leftTransactions found.

(** The transactions in the pool, in a block, and unknown; [None] is [false]. *)
Definition status_of (c : Core) (st : gset Hash * gset Hash * gset Hash) (hash : Hash) : outcome (gset Hash * gset Hash * gset Hash) :=
  let '(inPool, inBlock, unknown) := st in
  if bool_decide (hash ∈ getTransactionHashes (transactionPool (core_pool c))) then Ok ({[hash]} ∪ inPool, inBlock, unknown)
  else
    segment ← findSegmentContainingTransaction c hash;
    Ok (match segment with Some _ => (inPool, {[hash]} ∪ inBlock, unknown) | None => (inPool, inBlock, {[hash]} ∪ unknown) end).
Definition getTransactionsStatus (c : Core) (transactionHashes : gset Hash) : outcome (option (gset Hash * gset Hash * gset Hash)) :=
  _ ← throwIfNotInitialized c;
  try_catch (foldM (status_of c) (∅, ∅, ∅) (elements transactionHashes)).

(** New in the pool, and known but no longer in it. *)
Definition getTransactionPoolDifference (c : Core) (knownHashes : list Hash) : gset Hash * gset Hash :=
  let poolTransactions : gset Hash := list_to_set (getTransactionHashes (transactionPool (core_pool c))) in
  let knownTransactions : gset Hash := list_to_set knownHashes in
  (poolTransactions ∖ knownTransactions, knownTransactions ∖ poolTransactions).

(** The new transactions, the deleted ones, and whether the top block is still the same. *)
Definition getPoolChanges (c : Core) (lastBlockHash : Hash) (knownHashes : list Hash) : outcome (list bytes * gset Hash * bool) :=
  _ ← throwIfNotInitialized c;
  let '(newTransactions, deletedTransactions) := getTransactionPoolDifference c knownHashes in
  addedTransactions ← collect (fun hash => tx ← pool_getTransaction (transactionPool (core_pool c)) hash; getTransactionBinaryArray tx) (elements newTransactions);
  top ← Core_getTopBlockHash c;
  Ok (addedTransactions, deletedTransactions, bool_decide (top = lastBlockHash)).
Definition getPoolChangesLite (c : Core) (lastBlockHash : Hash) (knownHashes : list Hash) : outcome (list (Hash * TransactionPrefix) * gset Hash * bool) :=
  _ ← throwIfNotInitialized c;
  let '(newTransactions, deletedTransactions) := getTransactionPoolDifference c knownHashes in
  addedTransactions ← collect (fun hash => tx ← pool_getTransaction (transactionPool (core_pool c)) hash; Ok (hash, tx_prefix (getTransaction tx))) (elements newTransactions);
  top ← Core_getTopBlockHash c;
  Ok (addedTransactions, deletedTransactions, bool_decide (top = lastBlockHash)).

Definition Core_getTransactionHashesByPaymentId (c : Core) (paymentId : Hash) : outcome (list Hash) :=
  _ ← throwIfNotInitialized c;
  m ← main_cache c;
  Ok (cache_getTransactionHashesByPaymentId m paymentId ++ getTransactionHashesByPaymentId (transactionPool (core_pool c)) paymentId).

Definition getPoolTransactionHashes (c : Core) : outcome (list Hash) :=
  _ ← throwIfNotInitialized c; Ok (getTransactionHashes (transactionPool (core_pool c))).
(** This one does not ask whether the core is initialised. *)
Definition getPoolTransaction (c : Core) (transactionHash : Hash) : outcome (bool * bytes) :=
  if checkIfTransactionPresent (transactionPool (core_pool c)) transactionHash then
    tx ← pool_getTransaction (transactionPool (core_pool c)) transactionHash; b ← getTransactionBinaryArray tx; Ok (true, b)
  else Ok (false, []).
Definition getPoolTransactionCount (c : Core) : outcome nat :=
  _ ← throwIfNotInitialized c; Ok (getTransactionCount (transactionPool (core_pool c))).
Definition Core_getPoolTransactions (c : Core) : outcome (list Transaction) :=
  _ ← throwIfNotInitialized c; Ok (getTransaction <$> getPoolTransactions (transactionPool (core_pool c))).
Definition getBlockchainTransactionCount (c : Core) : outcome Z :=
  _ ← throwIfNotInitialized c; m ← main_cache c; Ok (cache_getTransactionCount m).
Definition getAlternativeBlockCount (c : Core) : outcome Z :=
  _ ← throwIfNotInitialized c;
  foldM (fun sum p => if bool_decide (p ∈ mainChainSet c) then Ok sum else n ← node (objects c) p; Ok (u64 (sum + getBlockCount (n_segment n))))
    0 (chainsStorage c).

(** [None] is [false]. *)
Fixpoint globalIndexes_up (fuel : nat) (c : Core) (main : option (gset ptr)) (p : ptr) (transactionHash : Hash) : outcome (option (list Z)) :=
  match fuel with
  | O => endless
  | S fuel =>
      n ← node (objects c) p;
      match cache_getTransactionGlobalIndexes (n_segment n) transactionHash, n_parent n, main with
      | Some l, _, _ => Ok (Some l)
      | None, None, None => Ok None
      | None, None, Some _ => Undefined "segment is null"
      | None, Some q, _ => if bool_decide (q ∈ default ∅ main) then Ok None else globalIndexes_up fuel c main q transactionHash
      end
  end.
Fixpoint globalIndexes_leaves (c : Core) (leaves : list ptr) (transactionHash : Hash) : outcome (option (list Z)) :=
  match leaves with
  | [] => Ok None
  | p :: leaves =>
      r ← (if bool_decide (p ∈ mainChainSet c) then Ok None
           else globalIndexes_up (fuel_of (objects c)) c (Some (mainChainSet c)) p transactionHash);
      match r with Some l => Ok (Some l) | None => globalIndexes_leaves c leaves transactionHash end
  end.
Definition Core_getTransactionGlobalIndexes (c : Core) (transactionHash : Hash) : outcome (option (list Z)) :=
  _ ← throwIfNotInitialized c;
  p ← main_leaf c;
  r ← globalIndexes_up (fuel_of (objects c)) c None p transactionHash;
  match r with Some l => Ok (Some l) | None => globalIndexes_leaves c (tail (chainsLeaves c)) transactionHash end.

(** ** Difficulty *)

Definition getBlockDifficulty (c : Core) (blockIndex : Z) : outcome Z :=
  _ ← throwIfNotInitialized c;
  m ← main_cache c;
  difficulties ← getLastCumulativeDifficulties m 2 blockIndex true;
  match difficulties with
  | [d0; d1] => Ok (u64 (d1 - d0))
  | [d] => Ok d
  | _ => Undefined "assert(difficulties.size() == 1)"
  end.
(** On the main chain, from the top, without the genesis block. *)
Definition Core_getDifficultyForNextBlock (currency : Currency) (c : Core) : outcome Z :=
  _ ← throwIfNotInitialized c;
  m ← main_cache c;
  topBlockIndex ← cache_top m;
  let blocksCount := Z.min topBlockIndex DIFFICULTY_BLOCKS_COUNT in
  timestamps ← getLastTimestamps m (Z.to_nat blocksCount) topBlockIndex false;
  difficulties ← getLastCumulativeDifficulties m (Z.to_nat blocksCount) topBlockIndex false;
  getNextDifficulty (getBlockMajorVersionForHeight currency topBlockIndex) topBlockIndex timestamps difficulties.

(** ** Wallets that synchronise *)

(** What a wallet needs of the outputs. *)
Definition wallet_outputs (l : list TransactionOutput) : list WalletKeyOutput :=
  (fun o => {| wo_key := match target o with TargetKey k => ko_key k end; wo_amount := out_amount o; wo_globalOutputIndex := None |}) <$> l.

Definition getRawCoinbaseTransaction (t : Transaction) : outcome RawCoinbaseTransaction :=
  b ← toBinaryArray serialize_Transaction t;
  transactionPublicKey ← getTransactionPublicKeyFromExtra (extra (tx_prefix t));
  Ok {| rc_keyOutputs := wallet_outputs (outputs (tx_prefix t)); rc_hash := getBinaryArrayHash cn_fast_hash b;
        rc_transactionPublicKey := transactionPublicKey; rc_unlockTime := unlockTime (tx_prefix t) |}.

Definition getRawTransaction (rawTX : bytes) : outcome RawTransaction :=
  t ← read_unchecked serialize_Transaction new_Transaction rawTX;
  parsedExtra ← parseExtra (extra (tx_prefix t));
  keyInputs ← collect get_KeyInput (inputs (tx_prefix t));
  Ok {| rt_base := {| rc_keyOutputs := wallet_outputs (outputs (tx_prefix t)); rc_hash := getBinaryArrayHash cn_fast_hash rawTX;
                      rc_transactionPublicKey := pe_transactionPublicKey parsedExtra; rc_unlockTime := unlockTime (tx_prefix t) |};
        rt_paymentID := pe_paymentID parsedExtra; rt_keyInputs := keyInputs |}.

Definition wallet_block (skipCoinbaseTransactions : bool) (rawBlock : RawBlock) : outcome WalletBlockInfo :=
  b ← read_unchecked (serialize_BlockTemplate cn_fast_hash) new_BlockTemplate (block rawBlock);
  blockHash ← getBlockHash cn_fast_hash b;
  coinbase ← (if negb skipCoinbaseTransactions then t ← getRawCoinbaseTransaction (baseTransaction b); Ok (Some t) else Ok None);
  txs ← collect getRawTransaction (transactions rawBlock);
  Ok {| wb_coinbaseTransaction := coinbase; wb_transactions := txs; wb_blockHeight := getBlockIndex b; wb_blockHash := blockHash;
        wb_blockTimestamp := timestamp (header b) |}.

(** The common part of [getWalletSyncData] and [getRawBlocks]: the top block, and the raw blocks, or [None] when there are none to give:
    the start timestamp is not on the chain yet, or the wallet is synchronised. *)
Definition sync_blocks (c : Core) (knownBlockHashes : list Hash) (startHeight startTimestamp blockCount : Z) (skipCoinbaseTransactions : bool)
    : outcome (Hash * Z * option (list RawBlock)) :=
  mainChain ← main_cache c;
  currentIndex ← cache_top mainChain;
  currentHash ← match mainChain with [] => null_parent | s :: _ => cache_getTopBlockHash s end;
  let actualBlockCount := Z.min BLOCKS_SYNCHRONIZING_DEFAULT_COUNT blockCount in
  let actualBlockCount := if actualBlockCount =? 0 then BLOCKS_SYNCHRONIZING_DEFAULT_COUNT else actualBlockCount in
  '(success, timestampBlockHeight) ← getBlockHeightForTimestamp mainChain startTimestamp;
  let timestampBlockHeight := if startTimestamp =? 0 then 0 else timestampBlockHeight in
  if negb (startTimestamp =? 0) && negb success then Ok (currentHash, currentIndex, None)
  else
    let firstBlockHeight := if startHeight =? 0 then timestampBlockHeight else startHeight in
    lastKnownBlockHashHeight ← findBlockchainSupplement c knownBlockHashes;
    let startIndex := Z.max (if lastKnownBlockHashHeight =? 0 then 0 else lastKnownBlockHashHeight + 1) firstBlockHeight in
    let blockDifference := if startIndex <? currentIndex then currentIndex - startIndex else startIndex - currentIndex in
    let endIndex := u64 (Z.min actualBlockCount (u64 (blockDifference + 1)) + startIndex) in
    if currentIndex <? startIndex then Ok (currentHash, currentIndex, None)
    else
      rawBlocks ← (if skipCoinbaseTransactions then getNonEmptyBlocks mainChain startIndex (Z.to_nat actualBlockCount)
                   else getBlocksByHeight mainChain startIndex endIndex);
      Ok (currentHash, currentIndex, Some rawBlocks).

(** [None] is [false]; else the blocks, and the top block when there are none. *)
Definition getWalletSyncData (c : Core) (knownBlockHashes : list Hash) (startHeight startTimestamp blockCount : Z) (skipCoinbaseTransactions : bool)
    : outcome (option (list WalletBlockInfo * option (Hash * Z))) :=
  _ ← throwIfNotInitialized c;
  try_catch (
    '(currentHash, currentIndex, rawBlocks) ← sync_blocks c knownBlockHashes startHeight startTimestamp blockCount skipCoinbaseTransactions;
    match rawBlocks with
    | None => Ok ([], Some (currentHash, currentIndex))
    | Some rawBlocks =>
        walletBlocks ← collect (wallet_block skipCoinbaseTransactions) rawBlocks;
        Ok (walletBlocks, if bool_decide (walletBlocks = []) then Some (currentHash, currentIndex) else None)
    end).
Definition getRawBlocks (c : Core) (knownBlockHashes : list Hash) (startHeight startTimestamp blockCount : Z) (skipCoinbaseTransactions : bool)
    : outcome (option (list RawBlock * option (Hash * Z))) :=
  _ ← throwIfNotInitialized c;
  try_catch (
    '(currentHash, currentIndex, rawBlocks) ← sync_blocks c knownBlockHashes startHeight startTimestamp blockCount skipCoinbaseTransactions;
    let blocks := default [] rawBlocks in
    Ok (blocks, if bool_decide (blocks = []) then Some (currentHash, currentIndex) else None)).

(** [None] is [false]. *)
Definition range_hashes (rawBlock : RawBlock) : outcome (list Hash) :=
  b ← read_unchecked (serialize_BlockTemplate cn_fast_hash) new_BlockTemplate (block rawBlock);
  base ← toBinaryArray serialize_Transaction (baseTransaction b);
  Ok ((getBinaryArrayHash cn_fast_hash <$> transactions rawBlock) ++ [getBinaryArrayHash cn_fast_hash base]).
Definition getGlobalIndexesForRange (c : Core) (startHeight endHeight : Z) : outcome (option (gmap Hash (list Z))) :=
  _ ← throwIfNotInitialized c;
  try_catch (
    mainChain ← main_cache c;
    rawBlocks ← getBlocksByHeight mainChain startHeight endHeight;
    transactionHashes ← collect range_hashes rawBlocks;
    CacheQueries.getGlobalIndexes mainChain (concat transactionHashes)).

(** *** Blocks with hashes before them *)

(** [BlockFullInfo] and [BlockShortInfo]: with the hash alone, or with the block. *)
Record BlockFullInfo := { block_id : Hash; full_block : RawBlock }.
Record BlockShortInfo := { blockId : Hash; short_block : bytes; txPrefixes : list (Hash * TransactionPrefix) }.

Definition extractBlockTemplate (b : RawBlock) : outcome BlockTemplate :=
  r ← fromBinaryArray_opt (serialize_BlockTemplate cn_fast_hash) new_BlockTemplate (block b);
  match r with Some t => Ok t | None => Throw "DESERIALIZATION_FAILED" end.

(** The hashes from [startIndex] up to [fullOffset], of which at most [maxItemsCount]. *)
Definition pushBlockHashes (c : Core) (startIndex fullOffset maxItemsCount : Z) : outcome (list Hash) :=
  _ ← assert (startIndex <=? fullOffset) "assert(fullOffset >= startIndex)";
  let itemsCount := Z.min (fullOffset - startIndex) (u32 maxItemsCount) in
  if itemsCount =? 0 then Ok [] else Core_getBlockHashes c startIndex itemsCount.

Definition full_info (c : Core) (blockIndex : Z) : outcome BlockFullInfo :=
  segment ← findMainChainSegmentContainingBlock_at c blockIndex;
  p ← from_option "segment is null" segment;
  m ← cache_at (objects c) p;
  h ← cache_getBlockHash m blockIndex;
  b ← cache_getBlockByIndex m blockIndex;
  Ok {| block_id := h; full_block := b |}.
(** The number of blocks is the difference of the indexes: the top block is not among them. *)
Definition fillQueryBlockFullInfo (c : Core) (fullOffset currentIndex maxItemsCount : Z) : outcome (list BlockFullInfo) :=
  _ ← assert (fullOffset <=? currentIndex) "assert(currentIndex >= fullOffset)";
  let fullBlocksCount := Z.min (u32 maxItemsCount) (currentIndex - fullOffset) in
  collect (full_info c) (seqZ fullOffset fullBlocksCount).

Definition tx_prefix_info (rawTransaction : bytes) : outcome (Hash * TransactionPrefix) :=
  r ← fromBinaryArray_opt serialize_Transaction new_Transaction rawTransaction;
  match r with Some t => Ok (getBinaryArrayHash cn_fast_hash rawTransaction, tx_prefix t) | None => Throw "Couldn't deserialize transaction" end.
Definition short_info (c : Core) (blockIndex : Z) : outcome BlockShortInfo :=
  i ← full_info c blockIndex;
  txs ← collect tx_prefix_info (transactions (full_block i));
  Ok {| blockId := block_id i; short_block := block (full_block i); txPrefixes := txs |}.
Definition fillQueryBlockShortInfo (c : Core) (fullOffset currentIndex maxItemsCount : Z) : outcome (list BlockShortInfo) :=
  _ ← assert (fullOffset <=? currentIndex) "assert(currentIndex >= fullOffset)";
  let fullBlocksCount := Z.min (u32 maxItemsCount) (currentIndex - fullOffset + 1) in
  collect (short_info c) (seqZ fullOffset fullBlocksCount).

(** [None] is [false]; else the start, the top index, the first full block, and the entries: hashes, then blocks. *)
Definition queryBlocks (c : Core) (blockHashes : list Hash) (timestamp : Z) : outcome (option (Z * Z * Z * (list Hash * list BlockFullInfo))) :=
  _ ← throwIfNotInitialized c;
  try_catch (
    mainChain ← main_cache c;
    currentIndex ← cache_top mainChain;
    startIndex ← findBlockchainSupplement c blockHashes;
    fullOffset ← getTimestampLowerBoundBlockIndex mainChain timestamp;
    let fullOffset := Z.max fullOffset startIndex in
    hashes ← pushBlockHashes c startIndex fullOffset BLOCKS_IDS_SYNCHRONIZING_DEFAULT_COUNT;
    if negb (startIndex + Z.of_nat (length hashes) =? fullOffset) then Ok (startIndex, currentIndex, fullOffset, (hashes, []))
    else
      blocks ← fillQueryBlockFullInfo c fullOffset currentIndex BLOCKS_SYNCHRONIZING_DEFAULT_COUNT;
      Ok (startIndex, currentIndex, fullOffset, (hashes, blocks))).

Definition queryBlocksLite (c : Core) (knownBlockHashes : list Hash) (startTimestamp : Z) : outcome (option (Z * Z * Z * (list Hash * list BlockShortInfo))) :=
  _ ← throwIfNotInitialized c;
  try_catch (
    mainChain ← main_cache c;
    currentIndex ← cache_top mainChain;
    startIndex ← findBlockchainSupplement c knownBlockHashes;
    startTimestamp ← (if (0 <? startIndex) && (startTimestamp =? 0) && (startIndex <=? currentIndex) then
                        b ← cache_getBlockByIndex mainChain startIndex; t ← extractBlockTemplate b; Ok (timestamp (header t))
                      else Ok startTimestamp);
    fullOffset ← getTimestampLowerBoundBlockIndex mainChain startTimestamp;
    let fullOffset := Z.max fullOffset startIndex in
    hashes ← pushBlockHashes c startIndex fullOffset BLOCKS_IDS_SYNCHRONIZING_DEFAULT_COUNT;
    if negb (u32 (startIndex + Z.of_nat (length hashes)) =? fullOffset) then Ok (startIndex, currentIndex, fullOffset, (hashes, []))
    else
      blocks ← fillQueryBlockShortInfo c fullOffset currentIndex BLOCKS_SYNCHRONIZING_DEFAULT_COUNT;
      Ok (startIndex, currentIndex, fullOffset, (hashes, blocks))).

(** *** Outputs for rings *)

(** The global indexes and keys, or an error message. *)
Definition getRandomOutputs (currency : Currency) (now : Z) (rnd : nat -> Z -> list Z) (c : Core) (amount count : Z) : outcome (string + (list Z * list PublicKey)) :=
  _ ← throwIfNotInitialized c;
  if count =? 0 then Ok (inr ([], []))
  else
    top ← Core_getTopBlockIndex c;
    if top <=? CRYPTONOTE_MINED_MONEY_UNLOCK_WINDOW then Ok (inl "Blockchain height is less than mined unlock window"%string)
    else
      m ← main_cache c;
      globalIndexes ← getRandomOutsByAmount currency now rnd m amount count top;
      if bool_decide (globalIndexes = []) then Ok (inl "Failed to get any matching outputs"%string)
      else
        let globalIndexes := merge_sort Z.le globalIndexes in
        '(r, publicKeys) ← cache_extractKeyOutputKeys currency now m amount top globalIndexes;
        Ok (match r with
            | Validate.SUCCESS => inr (globalIndexes, publicKeys)
            | INVALID_GLOBAL_INDEX => inl "Invalid global index is given"%string
            | OUTPUT_LOCKED => inl "Output is locked"%string
            end).

(** [rpc/RpcServer.cpp]: the outputs for each amount, [None] when [CANT_GET_FAKE_OUTPUTS] is returned.  [rnd i] is the randomness of
    the [i]-th amount. *)
Fixpoint random_outs_loop (currency : Currency) (now : Z) (rnd : nat -> nat -> Z -> list Z) (i : nat) (c : Core) (amounts : list Z) (numOutputs : Z)
    : outcome (option (list RandomOuts)) :=
  match amounts with
  | [] => Ok (Some [])
  | amount :: rest =>
      r ← getRandomOutputs currency now (rnd i) c amount (u16 numOutputs);
      match r with
      | inl _ => Ok None
      | inr (globalIndexes, publicKeys) =>
          if negb (Z.of_nat (length globalIndexes) =? numOutputs) then Ok None
          else
            _ ← assert (length globalIndexes <=? length publicKeys)%nat "publicKeys[i]";
            l ← random_outs_loop currency now rnd (S i) c rest numOutputs;
            Ok (option_map (cons {| ro_amount := amount; outs := zip_with (fun g k => {| global_amount_index := g; out_key := k |}) globalIndexes publicKeys |}) l)
      end
  end.
Definition getRandomOuts (currency : Currency) (now : Z) (rnd : nat -> nat -> Z -> list Z) (c : Core) (amounts : list Z) (outs_count : Z) : outcome (option (list RandomOuts)) :=
  random_outs_loop currency now rnd 0 c amounts outs_count.
End core_queries.
