(* ===== verification/CoreSync.v ===== *)
(** * CoreSync: the core's answers, on the flat chain

    What [CoreQueries.v] answers in a state that satisfies the invariant of [CoreInvariant.v], in terms of the main chain as one list of blocks:
    where a list of known hashes meets it, the blocks a synchronising wallet gets, and the sparse chain peers compare. *)

From Stdlib Require Import ZArith Lia.
From stdpp Require Import base tactics list numbers strings gmap fin_maps fin_sets sorting.
From S2P Require Import Prelude Config Types Serializer TxSerialization BlockSerialization Currency Validate Pool BlockchainCache CacheChain CacheQueries BlockValidation SegmentTree Ledger Core CoreInvariant CoreReach WalletSync ParseExtra Transfer CoreQueries.

Local Open Scope Z_scope.

(** ** Loops *)

Lemma collect_ok {A B} (f : A -> outcome B) l bs : collect f l = Ok bs <-> Forall2 (fun a b => f a = Ok b) l bs.
Proof.
  split.
  - revert bs. induction l as [|a l IH]; intros bs E; cbn [collect] in E; [apply Ok_inj in E as <-; constructor|].
    destruct (f a) as [b| |] eqn:F; [|done..]. revert E. okbind. destruct (collect f l) as [bs'| |]; okbind; [|done..]. intros [= <-]. constructor; auto.
  - induction 1 as [|a b l bs F _ IH]; [done|]. cbn [collect]. rewrite F. okbind. rewrite IH. done.
Qed.
Lemma collect_returns {A B} (f : A -> outcome B) l : Forall (fun a => exists b, f a = Ok b) l -> exists bs, collect f l = Ok bs.
Proof. induction 1 as [|a l [b E] _ [bs IH]]; [by exists []|]. cbn [collect]. rewrite E. okbind. rewrite IH. by eexists. Qed.

Lemma collect_throws {A B} (f : A -> outcome B) l e : collect f l = Throw e -> exists a, a ∈ l /\ f a = Throw e.
Proof.
  induction l as [|a l IH]; cbn [collect]; [done|]. destruct (f a) as [b|e'|] eqn:F; okbind; [|intros [= <-]; exists a; set_solver|done].
  destruct (collect f l) as [bs|e'|]; okbind; [done| |done]. intros [= <-]. destruct IH as (x & Hx & Ex); [done|]. exists x. set_solver.
Qed.

(** ** The main chain *)

Definition block_hashes (ch : Cache) : list Hash := bi_blockHash <$> all_blocks ch.
Lemma length_block_hashes ch : length (block_hashes ch) = length (all_blocks ch).
Proof. apply length_fmap. Qed.

(** The known hashes meet the chain at height [k]: that of the first in the list that is on it, whatever the heights of those
    that come later. *)
Definition shared (ch : Cache) (known : list Hash) (k : Z) : Prop :=
  (known = [] /\ k = 0)
  \/ (0 <= k /\ exists l1 h l2, known = l1 ++ h :: l2 /\ Forall (fun x => x ∉ block_hashes ch) l1 /\ block_hashes ch !! Z.to_nat k = Some h).

Section main.
Context (currency : Currency) (cn_fast_hash : bytes -> Hash) (c : Core).

Record at_main (m : ptr) (ids : list ptr) (ch : Cache) : Prop := {
  am_leaf : main_leaf c = Ok m;
  am_chain : chain_at (objects c) m ids ch;
  am_cache : main_cache c = Ok ch;
  am_ledger : ledger currency cn_fast_hash ch;
  am_nonempty : nonempty ch;
  am_some : ch <> [];
  am_init : initialized c = true }.

Lemma main_exists root : core_inv currency cn_fast_hash c root -> exists m ids ch, at_main m ids ch.
Proof.
  intros [(W & F & m & l & ids & ch & El & Hm & _) _ _ Hi]. exists m, ids, ch. assert (Em : main_leaf c = Ok m) by (unfold main_leaf; by rewrite El).
  destruct (fo_chains _ _ _ _ _ F _ _ _ Hm) as [[L N] _]. constructor; [done|done| |done|done| |done].
  - unfold main_cache. rewrite Em. okbind. by eapply cache_at_ok.
  - by destruct Hm.
Qed.

Context (m : ptr) (ids : list ptr) (ch : Cache) (M : at_main m ids ch).

Lemma main_height : 0 < height ch.
Proof using M. unfold height. pose proof (all_blocks_nonempty _ (am_nonempty _ _ _ M) (am_some _ _ _ M)). lia. Qed.
Lemma main_bound : height ch < 2 ^ 32.
Proof using M. apply chain_bound, M. Qed.
Lemma main_top : cache_top ch = Ok (height ch - 1).
Proof using M.
  destruct ch as [|s ps] eqn:E; [by destruct (am_some _ _ _ M)|]. simpl. apply top_index; [apply M|]. pose proof (am_nonempty _ _ _ M) as N. by inversion N.
Qed.
Lemma top_hash : exists h, match ch with [] => null_parent | s :: _ => cache_getTopBlockHash s end = Ok h /\ last (block_hashes ch) = Some h.
Proof using M.
  destruct ch as [|s ps] eqn:E; [by destruct (am_some _ _ _ M)|]. pose proof (am_nonempty _ _ _ M) as N. inversion N as [|? ? Hs _]; subst.
  unfold cache_getTopBlockHash, block_hashes. simpl. destruct (last (seg_blockInfos s)) as [b|] eqn:Eb; [|by apply last_None in Eb].
  exists (bi_blockHash b). split; [done|]. by rewrite fmap_last, last_app, Eb.
Qed.

(** *** Hashes on the chain *)

Lemma hasBlock_in s h : cache_hasBlock s h = true <-> h ∈ bi_blockHash <$> seg_blockInfos s.
Proof.
  unfold cache_hasBlock. rewrite existsb_exists. rewrite list_elem_of_fmap. split.
  - intros (b & Hb & E%bool_decide_eq_true). exists b. by rewrite list_elem_of_In.
  - intros (b & -> & Hb). exists b. rewrite <- list_elem_of_In. split; [done|]. by apply bool_decide_eq_true.
Qed.
Lemma hasBlock_index s h : cache_hasBlock s h = true -> exists i, cache_getBlockIndex s h = Ok i.
Proof.
  intros (b & -> & Hb)%hasBlock_in%list_elem_of_fmap. unfold cache_getBlockIndex. destruct (list_find _ _) as [[i x]|] eqn:E; [by eexists|].
  apply list_find_None in E. rewrite Forall_forall in E. by destruct (E b Hb).
Qed.
Lemma hashes_app c1 c2 h : h ∈ block_hashes c2 -> h ∈ block_hashes (c1 ++ c2).
Proof. induction c1 as [|s c1 IH]; [done|]. intros H. unfold block_hashes. simpl. rewrite fmap_app. apply elem_of_app. left. by apply IH. Qed.
Lemma no_segment ch' h : Forall (fun s => cache_hasBlock s h = false) ch' -> h ∉ block_hashes ch'.
Proof.
  induction 1 as [|s ps Hs _ IH]; [apply not_elem_of_nil|]. unfold block_hashes. simpl. rewrite fmap_app, not_elem_of_app. split; [done|].
  intros Hh%hasBlock_in. congruence.
Qed.
(** The blocks of a part of the chain are at the same heights of the whole. *)
Lemma blocks_suffix c1 c2 i b : all_blocks c2 !! i = Some b -> all_blocks (c1 ++ c2) !! i = Some b.
Proof. induction c1 as [|s c1 IH]; [done|]. intros E. simpl. apply lookup_app_l_Some. by apply IH. Qed.
Lemma suffix_ok c1 c2 : chain_ok (c1 ++ c2) -> chain_ok c2.
Proof. induction c1 as [|s c1 IH]; [done|]. intros (_ & H & _). by apply IH. Qed.

Lemma find_main h : exists r, findMainChainSegmentContainingBlock c h = Ok r /\
  match r with
  | None => h ∉ block_hashes ch
  | Some p => exists i cp, blockIndex_in c p h = Ok i /\ 0 <= i < height cp /\ block_hashes ch !! Z.to_nat i = Some h
      /\ cache_at (objects c) p = Ok cp /\ chain_ok cp /\ forall j b, all_blocks cp !! j = Some b -> all_blocks ch !! j = Some b
  end.
Proof using M.
  unfold findMainChainSegmentContainingBlock. rewrite (am_leaf _ _ _ M). okbind. destruct (find_ok _ _ _ _ (fun s => cache_hasBlock s h) (am_chain _ _ _ M)) as (r & E & Hr).
  exists r. split; [exact E|]. destruct r as [p|]; [|by apply no_segment]. destruct Hr as (s & c1 & c2 & ids1 & ids2 & Hs & Ec & _ & Hp).
  destruct (hasBlock_index s h Hs) as [i Ei]. exists i, (s :: c2). unfold blockIndex_in. destruct (chain_at_head _ _ _ _ Hp) as (n & _ & _ & En & _ & [= Es _]). rewrite (node_ok _ _ _ En). okbind.
  rewrite <- Es. split; [done|]. pose proof (l_chain _ _ _ (am_ledger _ _ _ M)) as Hc. rewrite Ec in Hc. apply suffix_ok in Hc.
  destruct (getBlockIndex_ok _ _ _ _ Hc Ei) as (Hi & bi & Hb & <-). pose proof (height_nonneg c2). split_and!; [lia|lia| |by eapply cache_at_ok|done|].
  - unfold block_hashes. rewrite Ec, list_lookup_fmap, (blocks_suffix c1 _ _ _ Hb). done.
  - intros j b Hj. rewrite Ec. by apply blocks_suffix.
Qed.

(** Where known hashes meet the chain. *)
Lemma supplement_ok known : (known <> [] /\ Forall (fun h => h ∉ block_hashes ch) known /\ findBlockchainSupplement c known = Throw "Genesis block hash was not found.")
  \/ exists k, findBlockchainSupplement c known = Ok k /\ shared ch known k.
Proof using M.
  unfold findBlockchainSupplement. case_bool_decide as Hk; [right; exists 0; split; [done|by left]|].
  assert (L : forall l1 l, known = l1 ++ l -> Forall (fun x => x ∉ block_hashes ch) l1 ->
    (Forall (fun h => h ∉ block_hashes ch) known /\ supplement_loop c l = Throw "Genesis block hash was not found.") \/ exists k, supplement_loop c l = Ok k /\ shared ch known k).
  { intros l1 l. revert l1. induction l as [|h l IH]; intros l1 E Hl; cbn [supplement_loop]; [left; rewrite E, app_nil_r; done|].
    destruct (find_main h) as (r & -> & Hr). okbind. destruct r as [p|].
    - destruct Hr as (i & cp & Ei & Hi & Hh & _). right. exists i. split; [done|]. right. split; [lia|]. by exists l1, h, l.
    - apply (IH (l1 ++ [h])); [by rewrite <- app_assoc|]. apply Forall_app. split; [done|]. by constructor. }
  destruct (L [] known eq_refl ltac:(constructor)) as [[? ?]|?]; [by left|by right].
Qed.
Lemma shared_range known k : shared ch known k -> 0 <= k < height ch.
Proof using M.
  pose proof main_height. intros [[_ ->]|(Hk & l1 & h & l2 & _ & _ & Hh)]; [lia|]. apply lookup_lt_Some in Hh. rewrite length_block_hashes in Hh. unfold height. lia.
Qed.

(** *** Blocks for a wallet *)

Lemma timestamp_returns ch' t : Forall (fun s => seg_blockInfos s <> []) ch' -> ch' <> [] -> exists r, getBlockHeightForTimestamp ch' t = Ok r.
Proof.
  induction 1 as [|s ps Hs N IH]; [done|]. intros _. cbn [getBlockHeightForTimestamp].
  destruct (last (seg_blockInfos s)) as [b|] eqn:Eb; [|by apply last_None in Eb]. unfold from_option. okbind. case_match; [by eexists|].
  destruct (head (seg_blockInfos s)) as [f|] eqn:Ef; [|by apply head_None in Ef]. okbind. case_match; [by eexists|].
  destruct ps; [by eexists|by apply IH].
Qed.

(** How many blocks are given, and from where. *)
Definition sync_count (blockCount : Z) : Z :=
  if (blockCount =? 0) || (BLOCKS_SYNCHRONIZING_DEFAULT_COUNT <=? blockCount) then BLOCKS_SYNCHRONIZING_DEFAULT_COUNT else blockCount.
Definition sync_start (k startHeight : Z) : Z := Z.max (if k =? 0 then 0 else k + 1) startHeight.
Definition offered (skip : bool) (blockCount start : Z) : list RawBlock :=
  take (Z.to_nat (sync_count blockCount)) ((if skip then filter (fun b => transactions b <> []) else id) (drop (Z.to_nat start) (all_raw ch))).

Lemma sync_count_range n : is_u64 n -> 0 < sync_count n <= BLOCKS_SYNCHRONIZING_DEFAULT_COUNT.
Proof. intros H. unfold sync_count, BLOCKS_SYNCHRONIZING_DEFAULT_COUNT. destruct (Z.eqb_spec n 0), (Z.leb_spec 100 n); simpl; width_unfold; lia. Qed.
Lemma sync_count_eq n : is_u64 n ->
  (if Z.min BLOCKS_SYNCHRONIZING_DEFAULT_COUNT n =? 0 then BLOCKS_SYNCHRONIZING_DEFAULT_COUNT else Z.min BLOCKS_SYNCHRONIZING_DEFAULT_COUNT n) = sync_count n.
Proof.
  intros H. unfold sync_count, BLOCKS_SYNCHRONIZING_DEFAULT_COUNT.
  destruct (Z.eqb_spec n 0), (Z.leb_spec 100 n), (Z.eqb_spec (Z.min 100 n) 0); simpl; width_unfold; lia.
Qed.

Lemma sync_blocks_ok known startHeight blockCount skip : is_u64 startHeight -> is_u64 blockCount ->
  (known <> [] /\ Forall (fun h => h ∉ block_hashes ch) known /\ sync_blocks c known startHeight 0 blockCount skip = Throw "Genesis block hash was not found.")
  \/ exists k h, shared ch known k /\ last (block_hashes ch) = Some h
    /\ sync_blocks c known startHeight 0 blockCount skip
       = Ok (h, height ch - 1, if height ch <=? sync_start k startHeight then None else Some (offered skip blockCount (sync_start k startHeight))).
Proof using M.
  intros Hs Hb. unfold sync_blocks. rewrite (am_cache _ _ _ M). okbind. rewrite main_top. okbind. destruct top_hash as (h & -> & Hh). okbind.
  destruct (timestamp_returns ch 0 (am_nonempty _ _ _ M) (am_some _ _ _ M)) as [[success th] ->]. okbind. rewrite sync_count_eq by done. change (0 =? 0) with true. cbn [negb andb].
  destruct (supplement_ok known) as [(Hk & Hf & ->)|(k & -> & Hk)]; [left; done|right]. okbind. exists k, h. split_and!; [done|done|].
  pose proof (shared_range _ _ Hk) as Rk. pose proof main_bound as B. pose proof (sync_count_range _ Hb) as Rc. unfold BLOCKS_SYNCHRONIZING_DEFAULT_COUNT in Rc.
  replace (if startHeight =? 0 then 0 else startHeight) with startHeight by (destruct (Z.eqb_spec startHeight 0); done).
  fold (sync_start k startHeight). set (start := sync_start k startHeight). assert (Rs : 0 <= start) by (unfold start, sync_start; case_match; lia).
  destruct (Z.leb_spec (height ch) start) as [Hle|Hlt].
  - rewrite (proj2 (Z.ltb_lt (height ch - 1) start)) by lia. done.
  - rewrite (proj2 (Z.ltb_ge (height ch - 1) start)) by lia. pose proof (l_chain _ _ _ (am_ledger _ _ _ M)) as Hc. destruct skip.
    + rewrite (nonempty_blocks_ok ch Hc (am_some _ _ _ M)) by lia. done.
    + set (d := if start <? height ch - 1 then _ else _). assert (Ed : d = height ch - 1 - start) by (unfold d; destruct (Z.ltb_spec start (height ch - 1)); lia).
      rewrite Ed, (wrap_small 64 (height ch - 1 - start + 1)) by width_solve. rewrite wrap_small by width_solve.
      rewrite (blocks_by_height_ok ch Hc (am_some _ _ _ M)) by lia. okbind. do 3 f_equal. unfold offered, id. pose proof (length_all_raw ch Hc) as L. unfold height in *.
      destruct (Z.min_spec (sync_count blockCount) (Z.of_nat (length (all_blocks ch)) - 1 - start + 1)) as [[? ->]|[? ->]]; [f_equal; lia|].
      rewrite !take_ge; [done| |]; rewrite length_drop; lia.
Qed.

(** Every raw block of the chain, as a wallet gets it. *)
Lemma read_raw r b : raw_block cn_fast_hash r = Ok b -> read_unchecked (serialize_BlockTemplate cn_fast_hash) new_BlockTemplate (block r) = Ok b.
Proof. intros E. unfold read_unchecked, fromBinaryArray_opt. unfold raw_block in E. rewrite E. done. Qed.
Lemma wallet_block_at skip i r b : all_raw ch !! i = Some r -> wallet_block cn_fast_hash skip r = Ok b ->
  wb_blockHeight b = Z.of_nat i /\ block_hashes ch !! i = Some (wb_blockHash b).
Proof using M.
  intros Hr E. pose proof (l_flat _ _ _ (am_ledger _ _ _ M)) as F. pose proof (f_length _ _ _ _ F) as Hl.
  destruct (lookup_lt_is_Some_2 (all_blocks ch) i) as [bi Hb]; [apply lookup_lt_Some in Hr; lia|].
  destruct (f_linked _ _ _ _ F _ _ _ Hr Hb) as (t & Et & Eh & _ & Ei & _). unfold wallet_block in E. rewrite (read_raw _ _ Et) in E. revert E. okbind. rewrite Eh. okbind.
  destruct (if negb skip then _ else _) as [cb| |]; okbind; [|done..]. destruct (collect _ _) as [txs| |]; okbind; [|done..]. intros [= <-]. simpl.
  split; [done|]. unfold block_hashes. by rewrite list_lookup_fmap, Hb.
Qed.

(** *** The sparse chain *)

Lemma block_hash_ok ch' : chain_ok ch' -> forall i, 0 <= i < height ch' -> exists b, all_blocks ch' !! Z.to_nat i = Some b /\ cache_getBlockHash ch' i = Ok (bi_blockHash b).
Proof.
  induction ch' as [|s ps IH]; intros H i Hi; [unfold height in Hi; simpl in Hi; lia|]. pose proof (chain_bound _ H) as B. pose proof H as ([S1 _ _ _ _ _ _] & Hps & _).
  rewrite height_cons in *. pose proof (height_nonneg ps). cbn [cache_getBlockHash]. simpl all_blocks. destruct (Z.ltb_spec i (seg_startIndex s)) as [Hlt|Hge].
  - destruct (IH Hps i) as (b & Hb & ->); [lia|]. exists b. split; [|done]. by apply lookup_app_l_Some.
  - unfold block_at. rewrite wrap_small by width_solve. rewrite (proj2 (Z.ltb_lt _ _)) by lia. okbind.
    destruct (lookup_lt_is_Some_2 (seg_blockInfos s) (Z.to_nat (i - seg_startIndex s))) as [b Hb]; [lia|]. rewrite Hb. okbind. exists b. split; [|done].
    rewrite lookup_app_r by (unfold height in *; lia). rewrite <- Hb. f_equal. unfold height in *. lia.
Qed.

(** [i], [2 * i], ... below [bound]. *)
Fixpoint doubles (fuel : nat) (i bound : Z) : list Z :=
  match fuel with O => [] | S fuel => if i <? bound then i :: doubles fuel (i * 2) bound else [] end.

(** The hashes at these heights. *)
Definition hashes_at (l : list Hash) : list Z -> list Hash -> Prop := Forall2 (fun i h => 0 <= i /\ l !! Z.to_nat i = Some h).

Lemma sparse_loop_ok cp top : chain_ok cp -> 0 <= top < height cp -> top < 2 ^ 31 -> forall fuel i, 0 < i -> 2 ^ 31 < i * 2 ^ Z.of_nat fuel -> exists l,
  sparse_loop (S fuel) cp top i = Ok l /\ hashes_at (block_hashes cp) ((fun o => top - o) <$> doubles (S fuel) i top) l.
Proof.
  intros H Ht B fuel. induction fuel as [|fuel IH]; intros i Hi Hf.
  { cbn [sparse_loop doubles]. destruct (Z.ltb_spec i top); [simpl in Hf; lia|]. exists []. split; [done|constructor]. }
  specialize (IH (i * 2)). remember (S fuel) as f eqn:Ef. cbn [sparse_loop doubles]. destruct (Z.ltb_spec i top) as [Hlt|Hge]; [|exists []; split; [done|constructor]].
  rewrite (wrap_small 32 (top - i)) by width_solve. destruct (block_hash_ok cp H (top - i)) as (b & Hb & ->); [lia|]. okbind. rewrite (wrap_small 32 (i * 2)) by width_solve.
  destruct IH as (l & -> & Hl); [lia|rewrite Ef, Nat2Z.inj_succ, Z.pow_succ_r in Hf by lia; lia|]. okbind. eexists. split; [done|]. rewrite fmap_cons. constructor; [|done].
  split; [lia|]. unfold block_hashes. by rewrite list_lookup_fmap, Hb.
Qed.

(** The heights of the sparse chain of a chain whose top block has height [top]. *)
Definition sparse_heights (top : Z) : list Z := top :: ((fun o => top - o) <$> doubles 33 1 top) ++ (if decide (top = 0) then [] else [0]).

Lemma hashes_at_weaken l l' idx hs : (forall i h, l !! i = Some h -> l' !! i = Some h) -> hashes_at l idx hs -> hashes_at l' idx hs.
Proof. intros Hl H. eapply Forall2_impl; [exact H|]. intros i h [? ?]. auto. Qed.

Lemma sparse_chain_ok : NoDup (block_hashes ch) -> height ch <= 2 ^ 31 -> exists l,
  buildSparseChain c = Ok l /\ hashes_at (block_hashes ch) (sparse_heights (height ch - 1)) l.
Proof using M.
  intros Nd B. unfold buildSparseChain, throwIfNotInitialized. rewrite (am_init _ _ _ M), (am_cache _ _ _ M). okbind. destruct top_hash as (h & -> & Hh). okbind.
  unfold doBuildSparseChain, findSegmentContainingBlock. destruct (find_main h) as (r & -> & Hr). okbind.
  assert (Htop : block_hashes ch !! Z.to_nat (height ch - 1) = Some h).
  { rewrite last_lookup in Hh. rewrite <- Hh, length_block_hashes. f_equal. unfold height. lia. }
  destruct r as [p|]; [|destruct Hr; by eapply list_elem_of_lookup_2]. destruct Hr as (i & cp & Ei & Hi & Hhi & Ecp & Hcp & Sub). okbind. simpl from_option. okbind. rewrite Ei. okbind. rewrite Ecp. okbind.
  assert (i = height ch - 1) as -> by (pose proof (NoDup_lookup _ _ _ _ Nd Hhi Htop); pose proof main_height; lia). set (top := height ch - 1) in *.
  assert (Sub' : forall j x, block_hashes cp !! j = Some x -> block_hashes ch !! j = Some x).
  { intros j x. unfold block_hashes. rewrite !list_lookup_fmap. destruct (all_blocks cp !! j) as [b|] eqn:Eb; [|done]. by rewrite (Sub _ _ Eb). }
  destruct (sparse_loop_ok cp top Hcp ltac:(lia) ltac:(lia) 32 1 ltac:(lia) ltac:(by_compute)) as (l & -> & Hl). okbind.
  destruct (block_hash_ok cp Hcp 0) as (g & Hg & ->); [lia|]. okbind. eexists. split; [done|]. constructor; [split; [lia|done]|]. apply Forall2_app; [by eapply hashes_at_weaken|].
  assert (Hg' : block_hashes ch !! 0%nat = Some (bi_blockHash g)) by (apply Sub'; unfold block_hashes; rewrite list_lookup_fmap; change 0%nat with (Z.to_nat 0); by rewrite Hg).
  destruct (decide (top = 0)) as [Hz|Hz].
  - rewrite Hz in Htop. assert (h = bi_blockHash g) as <- by (change (Z.to_nat 0) with 0%nat in Htop; congruence). rewrite bool_decide_eq_false_2 by naive_solver. constructor.
  - rewrite bool_decide_eq_true_2; [constructor; [split; [lia|done]|constructor]|]. intros E. rewrite E in Htop. pose proof (NoDup_lookup _ _ _ _ Nd Htop Hg'). lia.
Qed.
End main.

Lemma sync_data_ok currency cn_fast_hash c root ch known startHeight blockCount answer : core_inv currency cn_fast_hash c root -> main_cache c = Ok ch ->
  is_u64 startHeight -> is_u64 blockCount ->
  getWalletSyncData cn_fast_hash c known startHeight 0 blockCount false = Ok answer ->
  match answer with
  | None => (known <> [] /\ Forall (fun h => h ∉ block_hashes ch) known) \/ exists r e, r ∈ all_raw ch /\ wallet_block cn_fast_hash false r = Throw e
  | Some (blocks, top) => exists k, shared ch known k /\ let start := sync_start k startHeight in
      Z.of_nat (length blocks) = Z.max 0 (Z.min (sync_count blockCount) (height ch - start))
      /\ (forall j b, blocks !! j = Some b -> wb_blockHeight b = start + Z.of_nat j /\ block_hashes ch !! (Z.to_nat start + j)%nat = Some (wb_blockHash b)
           /\ exists r, all_raw ch !! (Z.to_nat start + j)%nat = Some r /\ wallet_block cn_fast_hash false r = Ok b)
      /\ top = (if decide (blocks = []) then (fun h => (h, height ch - 1)) <$> last (block_hashes ch) else None)
  end.
Proof.
  intros I Em Hs Hb E. destruct (main_exists _ _ _ _ I) as (m & ids & ch' & M). rewrite (am_cache _ _ _ _ _ _ M) in Em. apply Ok_inj in Em as ->.
  unfold getWalletSyncData, throwIfNotInitialized in E. rewrite (am_init _ _ _ _ _ _ M) in E. revert E. okbind.
  destruct (sync_blocks_ok _ _ _ _ _ _ M known startHeight blockCount false Hs Hb) as [(Hk & Hf & ->)|(k & h & Hk & Hh & ->)]; okbind; [intros [= <-]; by left|].
  pose proof (shared_range _ _ _ _ _ _ M _ _ Hk) as Rk. set (start := sync_start k startHeight) in *. assert (Rs : 0 <= start) by (unfold start, sync_start; case_match; lia).
  pose proof (sync_count_range _ Hb) as Rc. destruct (Z.leb_spec (height ch) start) as [Hle|Hlt].
  { intros [= <-]. exists k. split_and!; [done|simpl; lia|done|]. rewrite decide_True by done. by rewrite Hh. }
  destruct (collect _ _) as [blocks|e|] eqn:Ec; okbind; [| |done].
  2:{ intros [= <-]. right. apply collect_throws in Ec as (r & Hr & Er). exists r, e. split; [|done]. unfold offered, id in Hr. apply elem_of_take in Hr as (i & Hi & _). rewrite lookup_drop in Hi. by eapply list_elem_of_lookup_2. }
  intros [= <-]. exists k. split; [done|]. apply collect_ok in Ec. pose proof (Forall2_length _ _ _ Ec) as Hl. unfold offered, id in Ec, Hl.
  pose proof (length_all_raw ch (l_chain _ _ _ (am_ledger _ _ _ _ _ _ M))) as L. rewrite length_take, length_drop in Hl. unfold height in *. split_and!; [lia| |].
  - intros j b Hj. destruct (Forall2_lookup_r _ _ _ _ _ Ec Hj) as (r & Hr & Er). apply lookup_take_Some in Hr as [Hr _]. rewrite lookup_drop in Hr.
    destruct (wallet_block_at _ _ _ _ _ _ M _ _ _ _ Hr Er) as [Eh Ex]. split_and!; [lia|done|by exists r].
  - case_bool_decide; case_decide; try done. by rewrite Hh.
Qed.

(** The first height of the sparse chain that is not above [a] is not far below it. *)
Lemma doubles_near t a k fuel : forall i i1 i2, t <= i * 2 ^ Z.of_nat fuel -> i <= 2 * (t - a) -> ((fun o => t - o) <$> doubles fuel i t) ++ [0] = i1 ++ k :: i2 ->
  Forall (fun j => a < j) i1 -> t - k <= 2 * (t - a).
Proof.
  induction fuel as [|fuel IH]; intros i i1 i2 Ht Hi E F; cbn [doubles] in E.
  { destruct i1 as [|x [|]]; [injection E as <- _; simpl in Ht; lia|done..]. }
  destruct (Z.ltb_spec i t) as [Hlt|Hge]; [|destruct i1 as [|x [|]]; [injection E as <- _; lia|done..]].
  rewrite fmap_cons in E. destruct i1 as [|x i1]; [injection E as <- _; lia|]. injection E as <- E. inversion F; subst.
  eapply (IH (i * 2)); [|lia|exact E|done]. rewrite Nat2Z.inj_succ, Z.pow_succ_r in Ht by lia. lia.
Qed.
Lemma sparse_near t a k i1 i2 : 0 <= t < 2 ^ 31 -> 0 <= a <= t -> sparse_heights t = i1 ++ k :: i2 -> Forall (fun j => a < j) i1 -> k <= a -> t - k <= 2 * (t - a).
Proof.
  intros Ht Ha E F Hk. unfold sparse_heights in E. destruct i1 as [|x i1]; [injection E as <- _; lia|]. injection E as <- E. inversion F; subst.
  rewrite decide_False in E by lia. eapply (doubles_near t a k 33 1); [change (2 ^ Z.of_nat 33) with 8589934592; lia|lia|exact E|done].
Qed.

(** ** Properties *)


(** C17: A node that hears the sparse chain of a peer finds where the chains part: the height it answers with is that of a block
    both have, and at most twice as far from the peer's top as the last block they share. *)
Theorem peers_meet currency cn_fast_hash peer root node root' theirs ours n : core_inv currency cn_fast_hash peer root -> core_inv currency cn_fast_hash node root' ->
  main_cache peer = Ok theirs -> main_cache node = Ok ours -> height theirs <= 2 ^ 31 ->
  (0 < n <= length (block_hashes theirs))%nat -> take n (block_hashes theirs) = take n (block_hashes ours) ->
  NoDup (block_hashes theirs ++ drop n (block_hashes ours)) ->
  exists ids k, buildSparseChain peer = Ok ids /\ findBlockchainSupplement node ids = Ok k
    /\ 0 <= k < Z.of_nat n /\ height theirs - 1 - k <= 2 * (height theirs - Z.of_nat n).
Proof.
  intros I I' E E' B Hn Et Nd. destruct (main_exists _ _ _ _ I) as (m & segs & ch & M). rewrite (am_cache _ _ _ _ _ _ M) in E. apply Ok_inj in E as ->.
  destruct (main_exists _ _ _ _ I') as (m' & segs' & ch' & M'). rewrite (am_cache _ _ _ _ _ _ M') in E'. apply Ok_inj in E' as ->.
  pose proof Nd as (Nt & Nx & No)%NoDup_app. destruct (sparse_chain_ok _ _ _ _ _ _ M Nt B) as (ids & Ei & Hids). exists ids.
  assert (Hc : forall i h, (i < n)%nat -> block_hashes theirs !! i = Some h -> block_hashes ours !! i = Some h).
  { intros i h Hi Hh. rewrite <- (lookup_take_lt (block_hashes ours) n i) by done. rewrite <- Et. by rewrite lookup_take_lt. }
  assert (Hd : forall i h, (n <= i)%nat -> block_hashes theirs !! i = Some h -> h ∉ block_hashes ours).
  { intros i h Hi Hh. rewrite <- (take_drop n (block_hashes ours)), not_elem_of_app. split; [|by eapply Nx, list_elem_of_lookup_2].
    rewrite <- Et. intros (j & Hj & Hjn)%elem_of_take. pose proof (NoDup_lookup _ _ _ _ Nt Hj Hh). lia. }
  assert (Hl : length (block_hashes theirs) = Z.to_nat (height theirs)) by (rewrite length_block_hashes; unfold height; lia). pose proof (main_height _ _ _ _ _ _ M).
  assert (Hlast : 0 ∈ sparse_heights (height theirs - 1)).
  { unfold sparse_heights. destruct (decide (height theirs - 1 = 0)) as [->|]; set_solver. }
  destruct (supplement_ok _ _ _ _ _ _ M' ids) as [(_ & F & _)|(k & Ek & [[-> _]|(Hk & l1 & h & l2 & -> & F & Hh)])]; [|by inversion Hids|].
  { apply list_elem_of_lookup in Hlast as [j Hj]. destruct (Forall2_lookup_l _ _ _ _ _ Hids Hj) as (g & Hg & _ & H0). rewrite Forall_forall in F.
    destruct (F g); [by eapply list_elem_of_lookup_2|]. eapply list_elem_of_lookup_2, (Hc 0%nat); [lia|done]. }
  assert (No' : NoDup (block_hashes ours)).
  { rewrite <- (take_drop n (block_hashes ours)), <- Et. eapply sublist_NoDup; [exact Nd|]. apply sublist_app; [apply sublist_take|done]. }
  apply Forall2_app_inv_r in Hids as (i1 & i2 & H1 & H2 & Es). inversion H2 as [|x ? i2' ? [Hx0 Hx] H2']; subst.
  assert (Hxn : (Z.to_nat x < n)%nat). { apply Nat.nle_gt. intros Hle. apply (Hd _ _ Hle Hx). by eapply list_elem_of_lookup_2. }
  pose proof (NoDup_lookup _ _ _ _ No' (Hc _ _ Hxn Hx) Hh) as Exk. assert (x = k) as -> by lia. exists k. split_and!; [done|done|lia|lia|].
  enough (height theirs - 1 - k <= 2 * (height theirs - 1 - (Z.of_nat n - 1))) by lia. eapply sparse_near; [lia|lia|exact Es| |lia].
  apply Forall_forall. intros j (p & Hp)%list_elem_of_lookup. destruct (Forall2_lookup_l _ _ _ _ _ H1 Hp) as (g & Hg & Hj0 & Hjg). apply Z.nle_gt. intros Hle.
  rewrite Forall_forall in F. apply (F g); [by eapply list_elem_of_lookup_2|]. eapply list_elem_of_lookup_2, Hc; [|exact Hjg]. lia.
Qed.

(** ** Samples *)

Definition chain2 : Cache := match main_cache core2 with Ok ch => ch | _ => [] end.
Lemma main2 : main_cache core2 = Ok chain2.
Proof. vm_compute. reflexivity. Qed.
Lemma main3 : main_cache core3 = Ok chain3.
Proof. vm_compute. reflexivity. Qed.
Lemma core2_inv : core_inv test_currency toy_hash core2 0%nat.
Proof. exact (TOY reachable_inv test_currency_sane block0 block0_genesis core2 core2_reachable). Qed.
Lemma core3_inv : core_inv test_currency toy_hash core3 0%nat.
Proof. exact (TOY reachable_inv test_currency_sane block0 block0_genesis core3 core3_reachable). Qed.

(** The rival chain of [core3] against the chain of [core2]: they share the genesis block. *)
Lemma peers_meet_witness : exists ids k, buildSparseChain core3 = Ok ids /\ findBlockchainSupplement core2 ids = Ok k /\ 0 <= k < Z.of_nat 1
  /\ height chain3 - 1 - k <= 2 * (height chain3 - Z.of_nat 1).
Proof.
  refine (peers_meet test_currency toy_hash core3 0%nat core2 0%nat chain3 chain2 1 core3_inv core2_inv main3 main2 _ _ _ _); by_compute.
Defined.

Definition known3 : list Hash := [replicate 32 7; hash_of (getBlockHash toy_hash rival); hash_of (getBlockHash toy_hash block0)].
Definition answer3 : list WalletBlockInfo * option (Hash * Z) :=
  match getWalletSyncData toy_hash core3 known3 0 0 0 false with Ok (Some r) => r | _ => ([], None) end.
