(* ===== verification/CoreOutputs.v ===== *)
(** * CoreOutputs: the outputs the daemon offers for rings are on its main chain

    [getRandomOuts] of the daemon discharges what [Transfer.v] relies on: the outputs of every amount asked for exist, with the keys
    they are offered with, in ascending order and without a repetition. *)

From Stdlib Require Import ZArith Lia.
From stdpp Require Import base tactics list numbers strings gmap fin_maps fin_sets sorting.
From S2P Require Import Prelude Config Types Serializer TxSerialization BlockSerialization Currency Validate Pool BlockchainCache CacheChain ShuffleGenerator CacheQueries BlockValidation SegmentTree Ledger Core CoreInvariant CoreSafety CoreReach SubWallet WalletSync ValidateParameters ParseExtra Transfer TransferRing TransferMade TransferSend CoreQueries CoreSync.

Local Open Scope Z_scope.

(** The key of the output of an amount with a global index. *)
Definition key_at (ch : Cache) (amount g : Z) : option PublicKey :=
  if decide (0 <= g) then
    o ← all_outputs ch amount !! Z.to_nat g; info ← find_any ch o; t ← ct_outputs info !! Z.to_nat (po_outputIndex o);
    match t with TargetKey k => Some (ko_key k) end
  else None.

(** ** Drawing outputs *)

Section drawing.
Context (currency : Currency) (now : Z) (rnd : nat -> Z -> list Z).
Context (R : forall k n, 0 <= n -> in_ranges n (take (Z.to_nat n) (rnd k n)) /\ (Z.to_nat n <= length (rnd k n))%nat).

Lemma pick_sound c s e bi offsets : forall outs, pick currency now c s e bi offsets = Ok outs -> outs `sublist_of` ((fun o => u32 (oi_startIndex e + o)) <$> offsets).
Proof using.
  induction offsets as [|o l IH]; intros outs E; cbn [pick] in E; [by apply Ok_inj in E as <-|]. inv_ok.
  match goal with H : pick _ _ _ _ _ _ _ = Ok _ |- _ => apply IH in H end. subst. rewrite fmap_cons. case_match; [by apply sublist_skip|by apply sublist_cons].
Qed.

Lemma random_outs_sound amount bi c : chain_ok c -> forall count outs, is_u64 count -> getRandomOutsByAmount currency now rnd c amount count bi = Ok outs ->
  NoDup outs /\ Forall (fun g => 0 <= g < Z.of_nat (length (all_outputs c amount))) outs.
Proof using R.
  induction c as [|s ps IH]; intros H count outs Wc E; cbn [getRandomOutsByAmount] in E; [apply Ok_inj in E as <-; split; [apply NoDup_nil_2|constructor]|].
  pose proof H as (Hs & Hps & _). simpl all_outputs. rewrite length_app. destruct (seg_keyOutputsGlobalIndexes s !! amount) as [e|] eqn:He.
  2:{ destruct (IH Hps count outs Wc E) as [N F]. split; [done|]. eapply Forall_impl; [exact F|]. simpl. lia. }
  assert (Hso : seg_outputs s amount = oi_outputs e) by (unfold seg_outputs; by rewrite He). rewrite Hso.
  pose proof (so_outputs _ _ Hs _ _ He) as [O1 O2 O3 O4 O5 O6]. pose proof (find_last_le (mature bi) (oi_outputs e)) as L.
  set (dist := Z.min (u32 count) _) in E. assert (D : 0 <= dist <= Z.of_nat (length (oi_outputs e))).
  { unfold dist. rewrite (wrap_small 32 (Z.of_nat _)) by width_solve. pose proof (wrap_range 32 count ltac:(lia)). width_solve. }
  destruct (R (length ps) dist ltac:(lia)) as [Rr RL]. destruct (shuffle_ok dist (take (Z.to_nat dist) (rnd (length ps) dist))) as (l & g & El & P & _); [lia|rewrite length_take; lia|done|].
  rewrite El in E. revert E. okbind. destruct (pick _ _ _ _ _ _ _) as [picked| |] eqn:Ep; okbind; [|done..]. apply pick_sound in Ep. intros E.
  assert (W : forall o, o ∈ l -> 0 <= o < dist) by (intros o Ho; rewrite P in Ho; apply elem_of_seqZ in Ho; lia).
  assert (Eu : (fun o => u32 (oi_startIndex e + o)) <$> l = (fun o => oi_startIndex e + o) <$> l).
  { apply list_fmap_ext. intros k o Ho%list_elem_of_lookup_2. specialize (W o Ho). apply wrap_small. width_solve. }
  rewrite Eu in Ep. assert (Np : NoDup picked).
  { eapply sublist_NoDup; [|exact Ep]. apply NoDup_fmap_2_strong; [intros x y _ _; lia|]. rewrite P. apply NoDup_seqZ. }
  assert (Fp : Forall (fun g => oi_startIndex e <= g < oi_startIndex e + Z.of_nat (length (oi_outputs e))) picked).
  { apply Forall_forall. intros x Hx. eapply sublist_subseteq in Hx; [|exact Ep]. apply list_elem_of_fmap in Hx as (o & -> & Ho). specialize (W o Ho). lia. }
  assert (Fp' : Forall (fun g => 0 <= g < Z.of_nat (length (all_outputs ps amount) + length (oi_outputs e))) picked) by (eapply Forall_impl; [exact Fp|]; simpl; lia).
  destruct ps as [|p ps']; [by apply Ok_inj in E as <-|]. set (ps := p :: ps') in *. destruct (Z.ltb_spec (Z.of_nat (length picked)) count) as [Hlt|_]; [|by apply Ok_inj in E as <-].
  destruct (getRandomOutsByAmount _ _ _ _ _ _ _) as [prevs| |] eqn:Er; revert E; okbind; [|done..]. intros [= <-].
  destruct (IH Hps _ _ ltac:(apply wrap_range; lia) Er) as [Nr Fr]. split.
  - apply NoDup_app. split_and!; [done| |done]. intros x Hx Hy. rewrite Forall_forall in Fp, Fr. specialize (Fp x Hx). specialize (Fr x Hy). simpl in *. lia.
  - apply Forall_app. split; [done|]. eapply Forall_impl; [exact Fr|]. simpl. lia.
Qed.
End drawing.

(** ** Reading their keys *)

Lemma sorted_strict (l : list Z) : NoDup l -> StronglySorted Z.lt (merge_sort Z.le l) /\ merge_sort Z.le l ≡ₚ l.
Proof.
  intros N. pose proof (merge_sort_Permutation Z.le l) as P. split; [|done]. pose proof (StronglySorted_merge_sort Z.le l) as S. rewrite <- P in N. clear P.
  revert N S. generalize (merge_sort Z.le l). clear l. intros l N S. induction S as [|x l S IH F]; [constructor|]. apply NoDup_cons in N as [Nx N].
  constructor; [by apply IH|]. rewrite Forall_forall in F |- *. intros y Hy. specialize (F y Hy). assert (x <> y) by (intros ->; done). lia.
Qed.

Lemma take_key_sound currency now ch bi acc info o acc' : take_key currency now ch bi acc info o = Ok (Validate.SUCCESS, acc') ->
  exists k, ct_outputs info !! Z.to_nat (po_outputIndex o) = Some (TargetKey k) /\ acc' = acc ++ [ko_key k].
Proof.
  unfold take_key. destruct (isTransactionSpendTimeUnlocked _ _ _ _ _) as [[]| |]; okbind; [|done..].
  destruct (ct_outputs info !! Z.to_nat (po_outputIndex o)) as [[k]|]; unfold from_option; okbind; [|done]. intros [= <-]. eauto.
Qed.
Lemma keys_sound currency now ch amount bi l : Forall (fun g => 0 <= g) l -> forall acc keys,
  extract_flat (take_key currency now ch bi) ch amount acc l = Ok (Validate.SUCCESS, keys) ->
  exists ks, keys = acc ++ ks /\ Forall2 (fun g k => key_at ch amount g = Some k) l ks.
Proof.
  induction 1 as [|g l Hg _ IH]; intros acc keys E; cbn [extract_flat] in E; [apply Ok_inj in E as [= <-]; exists []; split; [by rewrite app_nil_r|constructor]|].
  destruct (all_outputs ch amount !! Z.to_nat g) as [o|] eqn:Eo; cbn [mbind option_bind] in E; [|done].
  destruct (find_any ch o) as [info|] eqn:Ei; cbn [mbind option_bind] in E; [|done].
  destruct (take_key currency now ch bi acc info o) as [[[] acc']| |] eqn:Ek; revert E; okbind; try done. intros E.
  apply take_key_sound in Ek as (k & Et & ->). apply IH in E as (ks & -> & F).
  exists (ko_key k :: ks). rewrite <- app_assoc. split; [done|]. constructor; [|done]. unfold key_at. rewrite decide_True by done. rewrite Eo. cbn [mbind option_bind].
  rewrite Ei. cbn [mbind option_bind]. by rewrite Et.
Qed.

Section offer.
Context (currency : Currency) (cn_fast_hash : bytes -> Hash) (c : Core) (m : ptr) (ids : list ptr) (ch : Cache) (M : at_main currency cn_fast_hash c m ids ch).
Context (now : Z).

Lemma random_outputs_sound rnd amount count gs ks : (forall k n, 0 <= n -> in_ranges n (take (Z.to_nat n) (rnd k n)) /\ (Z.to_nat n <= length (rnd k n))%nat) -> is_u64 count ->
  getRandomOutputs currency now rnd c amount count = Ok (inr (gs, ks)) ->
  StronglySorted Z.lt gs /\ Forall is_u32 gs /\ Forall2 (fun g k => key_at ch amount g = Some k) gs ks.
Proof using M.
  intros R Wc E. unfold getRandomOutputs, throwIfNotInitialized in E. rewrite (am_init _ _ _ _ _ _ M) in E. revert E. okbind.
  destruct (count =? 0); [intros [= <- <-]; split_and!; constructor|]. unfold Core_getTopBlockIndex, throwIfNotInitialized.
  rewrite (am_init _ _ _ _ _ _ M), (am_cache _ _ _ _ _ _ M). okbind. rewrite (main_top _ _ _ _ _ _ M). okbind. case_match; [done|].
  destruct (getRandomOutsByAmount _ _ _ _ _ _ _) as [l| |] eqn:El; okbind; [|done..]. pose proof (l_chain _ _ _ (am_ledger _ _ _ _ _ _ M)) as Hc.
  apply (random_outs_sound currency now rnd R amount _ ch Hc) in El as [N F]; [|done]. case_bool_decide as Hl; [done|].
  destruct (sorted_strict l N) as [S P]. assert (F' : Forall (fun g => 0 <= g < Z.of_nat (length (all_outputs ch amount))) (merge_sort Z.le l)) by by rewrite P.
  pose proof (outputs_bound ch amount Hc) as B. assert (F32 : Forall is_u32 (merge_sort Z.le l)) by (eapply Forall_impl; [exact F'|]; simpl; width_solve).
  rewrite extract_keys_flat; [|done|by apply M|pose proof (main_height _ _ _ _ _ _ M); lia| |apply visible_top; [done|lia]].
  2:{ split_and!; [|done|done]. intros Hnil. apply Hl. apply Permutation_nil_r. by rewrite <- Hnil. }
  destruct (extract_flat _ _ _ _ _) as [[[] keys]| |] eqn:Ex; okbind; try done. intros [= <- <-]. split_and!; [done|done|].
  apply keys_sound in Ex as (ks' & -> & F2); [done|]. eapply Forall_impl; [exact F'|]. simpl. lia.
Qed.

Lemma random_outs_loop_ok rnd numOutputs amounts : (forall i k n, 0 <= n -> in_ranges n (take (Z.to_nat n) (rnd i k n)) /\ (Z.to_nat n <= length (rnd i k n))%nat) -> forall i l,
  random_outs_loop currency now rnd i c amounts numOutputs = Ok (Some l) ->
  ro_amount <$> l = amounts /\ Forall (fun o => Z.of_nat (length (outs o)) = numOutputs /\ honest_outs (key_at ch) o) l.
Proof using M.
  intros R. induction amounts as [|a amounts IH]; intros i l E; cbn [random_outs_loop] in E; [apply Ok_inj in E as [= <-]; split; [done|constructor]|].
  destruct (getRandomOutputs _ _ _ _ _ _) as [[e|[gs ks]]| |] eqn:Er; [done| |done..]. apply random_outputs_sound in Er as (S & F & K); [|by intros; apply R|pose proof (wrap_range 16 numOutputs ltac:(lia)); width_solve].
  revert E. okbind. destruct (Z.eqb_spec (Z.of_nat (length gs)) numOutputs) as [Hn|]; simpl negb; cbv iota; [|done]. destruct (_ <=? _)%nat; okbind; [|done].
  destruct (random_outs_loop _ _ _ _ _ _ _) as [[l'|]| |] eqn:El; okbind; [|done..]. intros [= <-]. apply IH in El as [Ea Fl]. split; [by rewrite fmap_cons, Ea|].
  constructor; [|done]. simpl. assert (Hk : length ks = length gs) by (symmetry; by eapply Forall2_length).
  split; [rewrite length_zip_with; lia|]. split; simpl.
  - rewrite fmap_zip_with_l; [done|intros; done|lia].
  - apply Forall_lookup. intros j e He. apply lookup_zip_with_Some in He as (g & k & -> & Hg & Hk'). split; simpl; [by apply (Forall_lookup_1 _ _ _ _ F Hg)|].
    by apply (Forall2_lookup_lr _ _ _ _ _ _ K Hg Hk').
Qed.
End offer.

(** ** Properties *)

(** C16: Whatever is drawn, the outputs a daemon offers for the rings of a wallet answer each amount in the order asked, as many as asked for,
    with ascending global indexes and the keys the main chain has at them.  So a daemon that answers from a core is honest in the sense the theorems on
    sending rely on. *)
Theorem offered_outs_honest `{WalletCrypto, Sending} currency cn_fast_hash c root ch now rnd amounts numOutputs l : core_inv currency cn_fast_hash c root -> main_cache c = Ok ch ->
  (forall i k n, 0 <= n -> in_ranges n (take (Z.to_nat n) (rnd i k n)) /\ (Z.to_nat n <= length (rnd i k n))%nat) ->
  (getRandomOuts currency now rnd c amounts numOutputs = Ok (Some l) ->
    ro_amount <$> l = amounts /\ Forall (fun o => Z.of_nat (length (outs o)) = numOutputs /\ honest_outs (key_at ch) o) l)
  /\ forall daemon : Nigel, (forall amounts n, getRandomOutsByAmounts daemon amounts n = match getRandomOuts currency now rnd c amounts n with Ok (Some l) => (true, l) | _ => (false, []) end) ->
      honest_daemon daemon (key_at ch).
Proof.
  intros I Em R. destruct (main_exists _ _ _ _ I) as (m & ids & ch' & M). rewrite (am_cache _ _ _ _ _ _ M) in Em. apply Ok_inj in Em as ->. split.
  - by apply (random_outs_loop_ok _ _ _ _ _ _ M).
  - intros daemon Ed amounts' n l' E. rewrite Ed in E. destruct (getRandomOuts _ _ _ _ _ _) as [[l0|]| |] eqn:G; [|done..]. injection E as <-.
    apply (random_outs_loop_ok _ _ _ _ _ _ M) in G as [Ea F]; [|done]. split; [done|]. eapply Forall_impl; [exact F|]. by intros o [_ Ho].
Qed.

(** ** Samples: a chain of 126 blocks *)

(** Blocks of different sizes have different hashes. *)
Definition padded (n : nat) (b : BlockTemplate) : BlockTemplate :=
  {| header := header b; baseTransaction := baseTransaction b; transactionHashes := transactionHashes b;
     parentBlock := let p := parentBlock b in
       {| pb_majorVersion := pb_majorVersion p; pb_minorVersion := pb_minorVersion p; pb_previousBlockHash := pb_previousBlockHash p;
          transactionCount := transactionCount p; baseTransactionBranch := baseTransactionBranch p; blockchainBranch := blockchainBranch p;
          pb_baseTransaction := let t := pb_baseTransaction p in
            {| version := version t; unlockTime := unlockTime t; inputs := inputs t; outputs := outputs t; extra := extra t ++ replicate n 0 |} |} |}.
Definition next_block (ch : Cache) (previous : BlockTemplate) : BlockTemplate :=
  let i := height ch in
  let coins := default 0 (bi_alreadyGeneratedCoins <$> last (all_blocks ch)) in
  let reward := match getBlockReward test_currency (getBlockMajorVersionForHeight test_currency i) 0 0 coins 0 i with Ok (Some (r, _)) => r | _ => 0 end in
  let b := mined_on previous i (2000 + i) reward in
  if 1 <? i then padded (Z.to_nat i) (tagged b) else b.
Fixpoint grow (n : nat) (c : Core) (previous : BlockTemplate) : option Core :=
  match n with
  | O => Some c
  | S n =>
      let b := next_block (match main_cache c with Ok ch => ch | _ => [] end) previous in
      match toy_add c b with Ok (e, c') => if toy_ready c b && bool_decide (added e) then grow n c' b else None | _ => None end
  end.
Lemma grow_steps n : forall c b c', grow n c b = Some c' -> rtc (TOY core_step) c c'.
Proof.
  induction n as [|n IH]; intros c b c' E; cbn [grow] in E; [by injection E as <-|]. set (b' := next_block _ b) in E. destruct (toy_add c b') as [[e c1]| |] eqn:A; [|done..].
  destruct (toy_ready c b' && bool_decide (added e)) eqn:H; [|done]. apply andb_true_iff in H as [H1 H2]. eapply rtc_l; [|by eapply IH].
  replace c1 with (core_after (toy_add c b')) by (by rewrite A). apply toy_step; [done|]. by rewrite A.
Qed.

#[local] Instance OutputEntry_eq_dec : EqDecision OutputEntry.
Proof. solve_decision. Defined.
#[local] Instance RandomOuts_eq_dec : EqDecision RandomOuts.
Proof. solve_decision. Defined.

(** Two amounts of early blocks are asked for, one output each. *)
Definition tall_asked : list Z := [1192092895; 1192092753].
Definition tall_answer : list RandomOuts :=
  (fun a => {| ro_amount := a; outs := [{| global_amount_index := 0; out_key := replicate 32 3 |}] |}) <$> tall_asked.
Definition tall_ok (o : option Core) : bool :=
  match o with
  | Some c => is_ok (main_cache c) && bool_decide (getRandomOuts test_currency 0 (fun _ _ n => replicate (Z.to_nat n) 0) c tall_asked 1 = Ok (Some tall_answer))
  | None => false
  end.

Lemma tall_grown : tall_ok (grow 125 core0 block0) = true.
Proof. vm_compute. reflexivity. Qed.

Lemma toy_randomness i k n : 0 <= n -> in_ranges n (take (Z.to_nat n) ((fun (_ _ : nat) n => replicate (Z.to_nat n) 0) i k n)) /\ (Z.to_nat n <= length (replicate (Z.to_nat n) 0%Z))%nat.
Proof.
  intros Hn. rewrite length_replicate. split; [|lia]. rewrite take_replicate, Nat.min_id. revert n Hn. apply natlike_ind; [done|]. intros n Hn IH.
  rewrite Z2Nat.inj_succ by done. simpl. split; [lia|]. by replace (Z.succ n - 1) with n by lia.
Qed.

Lemma offered_outs_honest_witness : exists c ch, main_cache c = Ok ch /\ ro_amount <$> tall_answer = tall_asked
  /\ Forall (fun o => Z.of_nat (length (outs o)) = 1 /\ honest_outs (key_at ch) o) tall_answer.
Proof.
  destruct (grow 125 core0 block0) as [c|] eqn:E; [|by pose proof tall_grown as G; rewrite E in G]. pose proof tall_grown as G. rewrite E in G.
  apply andb_true_iff in G as [Gm Ga%bool_decide_eq_true]. destruct (main_cache c) as [ch| |] eqn:Em; [|done..]. exists c, ch. split; [done|].
  assert (I : core_inv test_currency toy_hash c 0%nat).
  { apply (TOY reachable_inv test_currency_sane block0 block0_genesis c). exists 86400, core0. split; [vm_compute; reflexivity|by eapply grow_steps]. }
  exact (proj1 (offered_outs_honest (H := additive_crypto) (H0 := sample_sending) test_currency toy_hash c 0%nat ch 0 (fun _ _ n => replicate (Z.to_nat n) 0) tall_asked 1 tall_answer I Em toy_randomness) Ga).
Defined.
