(* ===== verification/Miner.v ===== *)
(** * Miner: the mining program, [miner/BlockUtilities.cpp], [miner/Miner.cpp] and the templates of [miner/MinerManager.cpp]

    The hashes of a block the miner computes on its own, the merge-mining tag it puts into a template, and the search for a nonce by
    threads that share one atomic state.  Every step of a thread between two accesses to what it shares is a step here, in any order; the
    daemon, the event loop around the search and the console are left out. *)

From Stdlib Require Import ZArith Lia.
From stdpp Require Import base tactics list numbers strings.
From S2P Require Import Prelude Config Stream Types Difficulty Serializer TreeHash TxSerialization TransactionExtra BlockSerialization FormatUtils Currency.

Local Open Scope Z_scope.

(** ** [BlockUtilities.cpp]: the hashes of [CachedBlock], written again *)

Section utilities.
Context (cn_fast_hash : bytes -> Hash) (algorithm : Z -> option (bytes -> Hash)).

Definition getParentBinaryArray (b : BlockTemplate) (hashTransaction headerOnly : bool) : outcome bytes :=
  r ← toBinaryArray_opt (serialize_ParentBlock cn_fast_hash hashTransaction headerOnly) (makeParentBlockSerializer b);
  match r with None => Throw "Can't serialize parent block" | Some a => Ok a end.
Definition util_getParentBlockHashingBinaryArray (b : BlockTemplate) (headerOnly : bool) : outcome bytes := getParentBinaryArray b true headerOnly.
Definition util_getParentBlockBinaryArray (b : BlockTemplate) (headerOnly : bool) : outcome bytes := getParentBinaryArray b false headerOnly.

Definition util_getBlockHashingBinaryArray (b : BlockTemplate) : outcome bytes :=
  r ← toBinaryArray_opt serializeBlockHeader (header b);
  match r with
  | None => Throw "Can't serialize BlockHeader"
  | Some blockHashingBinaryArray =>
      '(_, h) ← getObjectHash cn_fast_hash serialize_Transaction (baseTransaction b);
      let hashes := h :: transactionHashes b in
      treeHash ← tree_hash cn_fast_hash hashes (Z.of_nat (length hashes));
      Ok (blockHashingBinaryArray ++ treeHash ++ get_varint_data (Z.of_nat (length (transactionHashes b)) + 1))
  end.

Definition util_getBlockHash (b : BlockTemplate) : outcome Hash :=
  a ← util_getBlockHashingBinaryArray b;
  a ← (if BLOCK_MAJOR_VERSION_2 <=? majorVersion (header b) then p ← util_getParentBlockHashingBinaryArray b false; Ok (a ++ p) else Ok a);
  Ok (getObjectHash_bytes cn_fast_hash a).

Definition getMerkleRoot (b : BlockTemplate) : outcome Hash := a ← util_getBlockHashingBinaryArray b; Ok (getObjectHash_bytes cn_fast_hash a).

Definition util_getBlockLongHash (b : BlockTemplate) : outcome Hash :=
  raw ← (if majorVersion (header b) =? BLOCK_MAJOR_VERSION_1 then util_getBlockHashingBinaryArray b else util_getParentBlockHashingBinaryArray b true);
  match algorithm (majorVersion (header b)) with
  | None => Throw "Unknown block major version."
  | Some hash => Ok (hash raw)
  end.
End utilities.

(** ** [MinerManager]: templates *)

(** The fields of [MiningConfig] that decide the timestamp; the interval is signed. *)
Record MiningConfig := { firstBlockTimestamp : Z; blockTimestampInterval : Z }.

Definition set_parent_extra (e : bytes) (b : BlockTemplate) : BlockTemplate :=
  let p := parentBlock b in
  let t := pb_baseTransaction p in
  {| header := header b; baseTransaction := baseTransaction b; transactionHashes := transactionHashes b;
     parentBlock := {| pb_majorVersion := pb_majorVersion p; pb_minorVersion := pb_minorVersion p; pb_previousBlockHash := pb_previousBlockHash p;
       transactionCount := transactionCount p; baseTransactionBranch := baseTransactionBranch p;
       pb_baseTransaction := {| version := version t; unlockTime := unlockTime t; inputs := inputs t; outputs := outputs t; extra := e |};
       blockchainBranch := blockchainBranch p |} |}.
Definition set_header (n t : Z) (b : BlockTemplate) : BlockTemplate :=
  {| header := {| majorVersion := majorVersion (header b); minorVersion := minorVersion (header b); nonce := n; timestamp := t; previousBlockHash := previousBlockHash (header b) |};
     parentBlock := parentBlock b; baseTransaction := baseTransaction b; transactionHashes := transactionHashes b |}.
Definition set_nonce (n : Z) (b : BlockTemplate) : BlockTemplate := set_header n (timestamp (header b)) b.
Definition set_timestamp (t : Z) (b : BlockTemplate) : BlockTemplate := set_header (nonce (header b)) t b.

Section manager.
Context (cn_fast_hash : bytes -> Hash).

Definition adjustMergeMiningTag (blockTemplate : BlockTemplate) : outcome BlockTemplate :=
  if BLOCK_MAJOR_VERSION_2 <=? majorVersion (header blockTemplate) then
    root ← getMerkleRoot cn_fast_hash blockTemplate;
    e ← appendMergeMiningTagToExtra [] {| depth := 0; merkleRoot := root |};
    match e with
    | None => Throw "Couldn't append merge mining tag"
    | Some e => Ok (set_parent_extra e blockTemplate)
    end
  else Ok blockTemplate.

Definition adjustBlockTemplate (m_config : MiningConfig) (m_lastBlockTimestamp : Z) (blockTemplate : BlockTemplate) : outcome BlockTemplate :=
  b ← adjustMergeMiningTag blockTemplate;
  Ok (if firstBlockTimestamp m_config =? 0 then b
      else if m_lastBlockTimestamp =? 0 then set_timestamp (firstBlockTimestamp m_config) b
      else if negb (blockTimestampInterval m_config =? 0) then set_timestamp (u64 (m_lastBlockTimestamp + blockTimestampInterval m_config)) b
      else b).
End manager.

(** ** [Miner]: the search *)

Inductive MiningState := MINING_STOPPED | BLOCK_FOUND | MINING_IN_PROGRESS.
#[global] Instance MiningState_eq_dec : EqDecision MiningState.
Proof. solve_decision. Defined.

(** Where a thread in [workerFunc] is: before the test of the loop, before the hash, before [setStateBlockFound], before [m_block = block], in the handler
    of an exception, or at the end. *)
Inductive Place := Testing | Hashing | Claiming | Writing | Failing | Finished.
#[global] Instance Place_eq_dec : EqDecision Place.
Proof. solve_decision. Defined.

Record Worker := { w_block : BlockTemplate; w_place : Place }.
Record Miner := { m_state : MiningState; m_block : BlockTemplate; m_hash_count : Z; m_workers : list Worker }.

(** The compare-and-exchange is repeated until it succeeds or the state is another: [true] for the one thread that moves it. *)
Definition setStateBlockFound (state : MiningState) : bool * MiningState :=
  match state with BLOCK_FOUND => (false, BLOCK_FOUND) | MINING_IN_PROGRESS => (true, BLOCK_FOUND) | MINING_STOPPED => (false, MINING_STOPPED) end.

Definition set_worker (i : nat) (w : Worker) (state : MiningState) (m : Miner) : Miner :=
  {| m_state := state; m_block := m_block m; m_hash_count := m_hash_count m; m_workers := <[i := w]> (m_workers m) |}.

Section search.
Context (cn_fast_hash : bytes -> Hash) (algorithm : Z -> option (bytes -> Hash)).
Context (difficulty nonceStep : Z).

(** One step of [workerFunc]. *)
Definition worker_step (i : nat) (m : Miner) : outcome Miner :=
  match m_workers m !! i with
  | None => Ok m
  | Some w =>
      let go p := {| w_block := w_block w; w_place := p |} in
      match w_place w with
      | Testing => Ok (set_worker i (go (if decide (m_state m = MINING_IN_PROGRESS) then Hashing else Finished)) (m_state m) m)
      | Hashing =>
          match util_getBlockLongHash cn_fast_hash algorithm (w_block w) with
          | Ok hash =>
              if check_hash hash difficulty then Ok (set_worker i (go Claiming) (m_state m) m)
              else
                Ok {| m_state := m_state m; m_block := m_block m; m_hash_count := u64 (m_hash_count m + 1);
                      m_workers := <[i := {| w_block := set_nonce (u32 (nonce (header (w_block w)) + nonceStep)) (w_block w); w_place := Testing |}]> (m_workers m) |}
          | Throw _ => Ok (set_worker i (go Failing) (m_state m) m)
          | Undefined e => Undefined e
          end
      | Claiming =>
          let '(won, state) := setStateBlockFound (m_state m) in
          Ok (set_worker i (go (if won : bool then Writing else Finished)) state m)
      | Writing =>
          Ok {| m_state := m_state m; m_block := w_block w; m_hash_count := m_hash_count m; m_workers := <[i := go Finished]> (m_workers m) |}
      | Failing => Ok (set_worker i (go Finished) MINING_STOPPED m)
      | Finished => Ok m
      end
  end.

(** [stop]: the weak exchange may fail although the state is the expected one. *)
Definition stop_step (exchanged : bool) (m : Miner) : Miner :=
  if exchanged && bool_decide (m_state m = MINING_IN_PROGRESS)
  then {| m_state := MINING_STOPPED; m_block := m_block m; m_hash_count := m_hash_count m; m_workers := m_workers m |} else m.

Inductive mining_action := Step (i : nat) | Stop (exchanged : bool).
Definition mining_step (m : Miner) (a : mining_action) : outcome Miner :=
  match a with Step i => worker_step i m | Stop e => Ok (stop_step e m) end.
End search.

(** The threads of [runWorkers]: each with the next nonce. *)
Definition new_workers (blockTemplate : BlockTemplate) (start : Z) (threadCount : nat) : list Worker :=
  (fun i => {| w_block := set_nonce (u32 (start + Z.of_nat i)) blockTemplate; w_place := Testing |}) <$> seq 0 threadCount.

(** [mine] under a schedule of the threads and of calls to [stop]; [None] while a thread still runs.  [start] is the random nonce. *)
Definition mine (cn_fast_hash : bytes -> Hash) (algorithm : Z -> option (bytes -> Hash)) (blockTemplate : BlockTemplate) (difficulty : Z) (threadCount : nat) (start : Z)
    (schedule : list mining_action) (m : Miner) : outcome (option (BlockTemplate * Miner)) :=
  if (threadCount =? 0)%nat then Throw "Miner requires at least one thread"
  else if decide (m_state m = MINING_IN_PROGRESS) then Throw "Mining is already in progress"
  else
    m ← foldM (mining_step cn_fast_hash algorithm difficulty (u32 (Z.of_nat threadCount)))
          {| m_state := MINING_IN_PROGRESS; m_block := m_block m; m_hash_count := m_hash_count m; m_workers := new_workers blockTemplate start threadCount |} schedule;
    if negb (forallb (fun w => bool_decide (w_place w = Finished)) (m_workers m)) then Ok None
    else if decide (m_state m = MINING_STOPPED) then Throw "InterruptedException"
    else Ok (Some (m_block m, m)).

(** ** The miner's hashes are the node's *)

(** The same result; of errors only the text may differ. *)
Definition agree {A} (x y : outcome A) : Prop :=
  match x, y with Ok a, Ok b => a = b | Throw _, Throw _ => True | Undefined _, Undefined _ => True | _, _ => False end.
Lemma agree_refl {A} (x : outcome A) : agree x x.
Proof. by destruct x. Qed.
Lemma agree_bind {A B} (x y : outcome A) (k : A -> outcome B) : agree x y -> agree (x ≫= k) (y ≫= k).
Proof. destruct x, y; try done. intros ->. apply agree_refl. Qed.
Lemma agree_ok {A} (x y : outcome A) a : agree x y -> x = Ok a -> y = Ok a.
Proof. intros H ->. destruct y; [by rewrite H|done..]. Qed.

Section same_hashes.
Context (cn_fast_hash : bytes -> Hash) (algorithm : Z -> option (bytes -> Hash)).

Lemma hashing_same b : util_getBlockHashingBinaryArray cn_fast_hash b = getBlockHashingBinaryArray cn_fast_hash b.
Proof.
  unfold util_getBlockHashingBinaryArray, getBlockHashingBinaryArray, getTransactionTreeHash. destruct (toBinaryArray_opt _ _) as [[r|]| |]; [|done..]. okbind.
  by destruct (getObjectHash cn_fast_hash serialize_Transaction (baseTransaction b)) as [[ok h]| |].
Qed.
Lemma parent_same b headerOnly : agree (util_getParentBlockHashingBinaryArray cn_fast_hash b headerOnly) (getParentBlockHashingBinaryArray cn_fast_hash b headerOnly).
Proof. unfold util_getParentBlockHashingBinaryArray, getParentBinaryArray, getParentBlockHashingBinaryArray. by destruct (toBinaryArray_opt _ _) as [[r|]| |]. Qed.
Lemma long_hash_same b : agree (util_getBlockLongHash cn_fast_hash algorithm b) (getBlockLongHash cn_fast_hash algorithm b).
Proof.
  unfold util_getBlockLongHash, getBlockLongHash. apply agree_bind. destruct (_ =? _); [rewrite hashing_same; apply agree_refl|apply parent_same].
Qed.
Lemma block_hash_same b : agree (util_getBlockHash cn_fast_hash b) (getBlockHash cn_fast_hash b).
Proof.
  unfold util_getBlockHash, getBlockHash. rewrite hashing_same. destruct (getBlockHashingBinaryArray cn_fast_hash b) as [a| |]; [|done..]. okbind. apply agree_bind.
  destruct (_ <=? _); [|apply agree_refl]. apply agree_bind, parent_same.
Qed.
Lemma merkle_root_same b : getMerkleRoot cn_fast_hash b = getAuxiliaryBlockHeaderHash cn_fast_hash b.
Proof. unfold getMerkleRoot, getAuxiliaryBlockHeaderHash. by rewrite hashing_same. Qed.
End same_hashes.

(** ** The search finds a block with enough work *)

Section search_ok.
Context (cn_fast_hash : bytes -> Hash) (algorithm : Z -> option (bytes -> Hash)) (blockTemplate : BlockTemplate) (difficulty start : Z) (threadCount : nat).

(** The block of a thread is the template with a nonce of the thread's own sequence. *)
Definition tried (i : nat) (b : BlockTemplate) : Prop := exists k, 0 <= k /\ b = set_nonce (u32 (start + Z.of_nat i + k * Z.of_nat threadCount)) blockTemplate.
Definition worked (b : BlockTemplate) : Prop := exists hash, util_getBlockLongHash cn_fast_hash algorithm b = Ok hash /\ check_hash hash difficulty = true.
Definition good (b : BlockTemplate) : Prop := worked b /\ exists i, (i < threadCount)%nat /\ tried i b.

Record mining_inv (m : Miner) : Prop := {
  mi_count : length (m_workers m) = threadCount;
  mi_tried : forall i w, m_workers m !! i = Some w -> tried i (w_block w);
  mi_worked : forall i w, m_workers m !! i = Some w -> w_place w = Claiming \/ w_place w = Writing -> worked (w_block w);
  mi_over : forall i w, m_workers m !! i = Some w -> w_place w = Writing \/ w_place w = Finished -> m_state m <> MINING_IN_PROGRESS;
  mi_alone : forall i j w w', m_workers m !! i = Some w -> m_workers m !! j = Some w' -> w_place w = Writing -> w_place w' = Writing -> i = j;
  mi_found : m_state m = BLOCK_FOUND -> good (m_block m) \/ exists i w, m_workers m !! i = Some w /\ w_place w = Writing }.

(** One thread moves. *)
Lemma inv_update m i w w' state block count : mining_inv m -> m_workers m !! i = Some w -> tried i (w_block w') ->
  (w_place w' = Claiming \/ w_place w' = Writing -> worked (w_block w')) ->
  (w_place w' = Writing \/ w_place w' = Finished -> state <> MINING_IN_PROGRESS) -> (m_state m <> MINING_IN_PROGRESS -> state <> MINING_IN_PROGRESS) ->
  (w_place w' = Writing -> m_state m = MINING_IN_PROGRESS) ->
  (state = BLOCK_FOUND -> good block \/ w_place w' = Writing \/ (m_state m = BLOCK_FOUND /\ block = m_block m /\ w_place w <> Writing)) ->
  mining_inv {| m_state := state; m_block := block; m_hash_count := count; m_workers := <[i := w']> (m_workers m) |}.
Proof.
  intros [I1 I2 I3 I4 I5 I6] Hi T W O O' C F. pose proof (lookup_lt_Some _ _ _ Hi) as L.
  assert (Look : forall j x, <[i := w']> (m_workers m) !! j = Some x -> (j = i /\ x = w') \/ (j <> i /\ m_workers m !! j = Some x)).
  { intros j x E. destruct (decide (i = j)) as [<-|N]; [rewrite list_lookup_insert_eq in E by done; left; naive_solver|rewrite list_lookup_insert_ne in E by done; right; naive_solver]. }
  split; cbn [m_state m_block m_workers].
  - by rewrite length_insert.
  - intros j x [[-> ->]|[_ E]]%Look; [done|by apply I2].
  - intros j x [[-> ->]|[_ E]]%Look; [done|by apply (I3 j)].
  - intros j x [[-> ->]|[_ E]]%Look P; [by apply O|]. eapply O', I4; eassumption.
  - intros j k x y [[-> ->]|[Nj Ej]]%Look [[-> ->]|[Nk Ek]]%Look Pj Pk; [done| | |by eapply I5].
    + destruct (I4 _ _ Ek); [by left|by apply C].
    + destruct (I4 _ _ Ej); [by left|by apply C].
  - intros E. destruct (F E) as [G|[P|(E' & -> & P)]]; [by left|right; exists i, w'; by rewrite list_lookup_insert_eq|].
    destruct (I6 E') as [G|(j & x & Hj & Pj)]; [by left|right; exists j, x]. split; [|done]. rewrite list_lookup_insert_ne; [done|]. intros <-. congruence.
Qed.

Lemma tried_next i b : tried i b -> tried i (set_nonce (u32 (nonce (header b) + u32 (Z.of_nat threadCount))) b).
Proof.
  intros (k & Hk & ->). exists (k + 1). split; [lia|]. unfold set_nonce, set_header. cbn [header nonce timestamp majorVersion minorVersion previousBlockHash parentBlock baseTransaction transactionHashes].
  rewrite wrap_add_l, wrap_add_r. do 3 f_equal. lia.
Qed.

Lemma worker_step_inv i m m' : mining_inv m -> worker_step cn_fast_hash algorithm difficulty (u32 (Z.of_nat threadCount)) i m = Ok m' -> mining_inv m'.
Proof.
  intros I E. unfold worker_step in E. destruct (m_workers m !! i) as [[b p]|] eqn:Hi; [|by injection E as <-]. cbn [w_block w_place] in E.
  pose proof (mi_tried _ I _ _ Hi) as T. pose proof (mi_worked _ I _ _ Hi) as W. pose proof (mi_over _ I _ _ Hi) as O. cbn [w_block w_place] in T, W, O.
  destruct p.
  - injection E as <-. eapply inv_update; try done; cbn [w_block w_place]; repeat case_decide; naive_solver.
  - destruct (util_getBlockLongHash _ _ _) as [hash|e|e] eqn:Eh; [|injection E as <-; eapply inv_update; try done; cbn [w_block w_place]; naive_solver|done].
    destruct (check_hash hash difficulty) eqn:Ec; injection E as <-; eapply inv_update; try done; cbn [w_block w_place]; try naive_solver.
    + intros _. by exists hash.
    + by apply tried_next.
  - destruct (m_state m) eqn:Es; injection E as <-; eapply inv_update; try done; cbn [w_block w_place]; rewrite ?Es; naive_solver.
  - injection E as <-. eapply inv_update; try done; cbn [w_block w_place]; try naive_solver. intros _. left. split; [by apply W; right|].
    exists i. split; [|done]. rewrite <- (mi_count _ I). by eapply lookup_lt_Some.
  - injection E as <-. eapply inv_update; try done; cbn [w_block w_place]; naive_solver.
  - by injection E as <-.
Qed.

Lemma mining_step_inv a m m' : mining_inv m -> mining_step cn_fast_hash algorithm difficulty (u32 (Z.of_nat threadCount)) m a = Ok m' -> mining_inv m'.
Proof.
  destruct a as [i|e]; [apply worker_step_inv|]. intros [I1 I2 I3 I4 I5 I6] E. cbn [mining_step] in E. injection E as <-. unfold stop_step.
  destruct (e && _); split; cbn [m_state m_block m_workers]; done.
Qed.

Lemma new_workers_inv block count : mining_inv {| m_state := MINING_IN_PROGRESS; m_block := block; m_hash_count := count; m_workers := new_workers blockTemplate start threadCount |}.
Proof.
  assert (H : forall i w, new_workers blockTemplate start threadCount !! i = Some w -> w = {| w_block := set_nonce (u32 (start + Z.of_nat i)) blockTemplate; w_place := Testing |}).
  { intros i w E. unfold new_workers in E. rewrite list_lookup_fmap in E. destruct (seq 0 threadCount !! i) as [j|] eqn:Ej; [|done]. apply lookup_seq in Ej as [-> _]. by injection E as <-. }
  split; cbn [m_state m_block m_workers].
  - unfold new_workers. by rewrite length_fmap, length_seq.
  - intros i w ->%H. exists 0. split; [done|]. cbn [w_block]. do 2 f_equal. lia.
  - intros i w ->%H [?|?]; done.
  - intros i w ->%H [?|?]; done.
  - by intros i j w w' ->%H _ ?.
  - done.
Qed.

(** What [mine] returns. *)
Lemma mine_ok schedule m b m' : mine cn_fast_hash algorithm blockTemplate difficulty threadCount start schedule m = Ok (Some (b, m')) -> good b.
Proof.
  intros E. unfold mine in E. destruct (Nat.eqb_spec threadCount 0) as [|N]; [done|]. case_decide; [done|]. apply bind_ok in E as (m1 & Hf & E).
  apply (foldM_keeps mining_inv) in Hf as [I1 I2 I3 I4 I5 I6]; [|intros x a y; by apply mining_step_inv|apply new_workers_inv].
  destruct (forallb _ _) eqn:Ef; [|done]. cbn [negb] in E. case_decide as Es; [done|]. injection E as <- <-.
  assert (Fin : forall i w, m_workers m1 !! i = Some w -> w_place w = Finished).
  { intros i w Hi%list_elem_of_lookup_2%list_elem_of_In. rewrite forallb_forall in Ef. by apply (bool_decide_eq_true_1 _), Ef. }
  destruct (lookup_lt_is_Some_2 (m_workers m1) 0) as [w Hw]; [lia|]. pose proof (I4 _ _ Hw (or_intror (Fin _ _ Hw))) as Np.
  destruct (m_state m1) eqn:Em; [done| |done]. destruct (I6 eq_refl) as [G|(j & x & Hj & Pj)]; [done|]. by rewrite (Fin _ _ Hj) in Pj.
Qed.
End search_ok.

(** ** The tag makes the work count *)

Lemma header_bytes_parent b n t e : BLOCK_MAJOR_VERSION_2 <= majorVersion (header b) ->
  toBinaryArray_opt serializeBlockHeader (header (set_header n t (set_parent_extra e b))) = toBinaryArray_opt serializeBlockHeader (header b).
Proof.
  intros Hv. unfold toBinaryArray_opt, toBinaryArray, serializeBlockHeader, set_header, set_parent_extra. cbn [header majorVersion minorVersion nonce timestamp previousBlockHash]. cbn [op_uint]. okbind.
  destruct (_ <=? BLOCK_MAJOR_VERSION_7); okbind; [|done]. cbn [op_uint]. okbind. rewrite (proj2 (Z.eqb_neq _ _)) by (unfold BLOCK_MAJOR_VERSION_1, BLOCK_MAJOR_VERSION_2 in *; lia).
  by rewrite (proj2 (Z.leb_le _ _) Hv).
Qed.

Section tag.
Context (cn_fast_hash : bytes -> Hash) (algorithm : Z -> option (bytes -> Hash)) (genesisBlockHash : Hash).

Lemma aux_hash_parent b n t e : BLOCK_MAJOR_VERSION_2 <= majorVersion (header b) ->
  getAuxiliaryBlockHeaderHash cn_fast_hash (set_header n t (set_parent_extra e b)) = getAuxiliaryBlockHeaderHash cn_fast_hash b.
Proof. intros Hv. unfold getAuxiliaryBlockHeaderHash, getBlockHashingBinaryArray. rewrite header_bytes_parent by done. done. Qed.

Lemma tag_written root : pod 32 root -> appendMergeMiningTagToExtra [] {| depth := 0; merkleRoot := root |} = Ok (Some (field_bytes (ExtraMergeMiningTag {| depth := 0; merkleRoot := root |}))).
Proof.
  intros Hr. unfold appendMergeMiningTagToExtra, toBinaryArray_opt, toBinaryArray. rewrite mm_tag_writes by (by split). done.
Qed.
Lemma tag_read t : wf_mm_tag t -> getMergeMiningTagFromExtra (field_bytes (ExtraMergeMiningTag t)) = Ok (Some t).
Proof.
  intros Ht. unfold getMergeMiningTagFromExtra. rewrite <- (app_nil_r (field_bytes _)). change (field_bytes (ExtraMergeMiningTag t) ++ []) with (concat (field_bytes <$> [ExtraMergeMiningTag t])).
  by rewrite parse_written.
Qed.

(** The template the miner works on: the node's, with another coinbase extra in the parent block. *)
Lemma tag_ok b b1 : (forall root, getMerkleRoot cn_fast_hash b = Ok root -> pod 32 root) -> adjustMergeMiningTag cn_fast_hash b = Ok b1 ->
  (majorVersion (header b) < BLOCK_MAJOR_VERSION_2 /\ b1 = b)
  \/ exists root, BLOCK_MAJOR_VERSION_2 <= majorVersion (header b) /\ pod 32 root /\ getAuxiliaryBlockHeaderHash cn_fast_hash b = Ok root
     /\ b1 = set_parent_extra (field_bytes (ExtraMergeMiningTag {| depth := 0; merkleRoot := root |})) b.
Proof.
  intros Hp. unfold adjustMergeMiningTag. destruct (Z.leb_spec BLOCK_MAJOR_VERSION_2 (majorVersion (header b))) as [Hv|Hv]; [|intros [= <-]; by left]. intros E. apply bind_ok in E as (root & Hr & E).
  specialize (Hp root Hr). rewrite merkle_root_same in Hr.
  rewrite tag_written in E by done. revert E. okbind. intros [= <-]. right. by exists root.
Qed.

Lemma mined_work b b1 n t difficulty : (forall root, getMerkleRoot cn_fast_hash b = Ok root -> pod 32 root) -> adjustMergeMiningTag cn_fast_hash b = Ok b1 -> blockchainBranch (parentBlock b) = [] -> BLOCK_MAJOR_VERSION_1 <= majorVersion (header b) ->
  worked cn_fast_hash algorithm difficulty (set_header n t b1) -> checkProofOfWork cn_fast_hash algorithm genesisBlockHash (set_header n t b1) difficulty = Ok true.
Proof.
  intros Hpod Ht Hb Hv (hash & Eh & Ec). apply (agree_ok _ _ _ (long_hash_same _ _ _)) in Eh. unfold checkProofOfWork. apply tag_ok in Ht as [[Hlt ->]|(root & Hge & Hp & Ha & ->)]; [| |done].
  - change (majorVersion (header (set_header n t b))) with (majorVersion (header b)). rewrite (proj2 (Z.eqb_eq _ _)) by (unfold BLOCK_MAJOR_VERSION_1, BLOCK_MAJOR_VERSION_2 in *; lia).
    unfold checkProofOfWorkV1. change (majorVersion (header (set_header n t b))) with (majorVersion (header b)).
    rewrite (proj2 (Z.eqb_eq _ _)) by (unfold BLOCK_MAJOR_VERSION_1, BLOCK_MAJOR_VERSION_2 in *; lia). cbn [negb]. rewrite Eh. okbind. by rewrite Ec.
  - set (e := field_bytes _) in *. assert (Er : getMergeMiningTagFromExtra e = Ok (Some {| depth := 0; merkleRoot := root |})) by (apply tag_read; by split).
    change (majorVersion (header (set_header n t (set_parent_extra e b)))) with (majorVersion (header b)).
    rewrite (proj2 (Z.eqb_neq _ _)) by (unfold BLOCK_MAJOR_VERSION_1, BLOCK_MAJOR_VERSION_2 in *; lia). unfold checkProofOfWorkV2.
    change (majorVersion (header (set_header n t (set_parent_extra e b)))) with (majorVersion (header b)). rewrite (proj2 (Z.ltb_ge _ _)) by done. rewrite Eh. okbind. rewrite Ec. cbn [negb].
    change (extra (pb_baseTransaction (parentBlock (set_header n t (set_parent_extra e b))))) with e. rewrite Er. okbind.
    change (blockchainBranch (parentBlock (set_header n t (set_parent_extra e b)))) with (blockchainBranch (parentBlock b)). rewrite Hb, aux_hash_parent, Ha by done. okbind.
    change (8 * 32 <? Z.of_nat (length (@nil Hash))) with false. cbn match. change (tree_hash_from_branch cn_fast_hash [] (length (@nil Hash)) root (Some genesisBlockHash)) with (Ok root). okbind. by rewrite bool_decide_eq_true_2.
Qed.
End tag.

(** *** The whole of a mining round *)

Lemma adjusted_ok cn_fast_hash config last b b1 : adjustBlockTemplate cn_fast_hash config last b = Ok b1 -> exists b0 t, adjustMergeMiningTag cn_fast_hash b = Ok b0
  /\ b1 = set_header (nonce (header b0)) t b0 /\ (firstBlockTimestamp config = 0 -> t = timestamp (header b)).
Proof.
  intros E. unfold adjustBlockTemplate in E. apply bind_ok in E as (b0 & Hb & E). exists b0. injection E as <-. destruct (Z.eqb_spec (firstBlockTimestamp config) 0) as [|N].
  - exists (timestamp (header b0)). split; [done|]. split; [by destruct b0 as [[] ? ? ?]|]. intros _. unfold adjustMergeMiningTag in Hb. destruct (_ <=? _); [|by injection Hb as <-].
    apply bind_ok in Hb as (root & _ & Hb). apply bind_ok in Hb as (x & _ & Hb). destruct x; [|done]. by injection Hb as <-.
  - destruct (last =? 0); [by eexists|]. destruct (negb _); [by eexists|]. exists (timestamp (header b0)). split; [done|]. split; [by destruct b0 as [[] ? ? ?]|done].
Qed.

(** ** Properties *)

(** C9: The mining program finds blocks the node takes for mined.  On a template it has put its merge-mining tag in, whatever the order in which
    its threads run, are stopped or fail, a block that [mine] returns is the template with a nonce of the sequence of one of the threads, and the node's
    [checkProofOfWork] accepts it at the difficulty it was mined for; at no time are two threads about to write the block that is returned. *)
Theorem mined_block_valid cn_fast_hash algorithm genesisBlockHash config last b b1 difficulty threadCount start schedule m found m' :
  (forall root, getMerkleRoot cn_fast_hash b = Ok root -> pod 32 root) -> blockchainBranch (parentBlock b) = [] -> BLOCK_MAJOR_VERSION_1 <= majorVersion (header b) ->
  adjustBlockTemplate cn_fast_hash config last b = Ok b1 ->
  mine cn_fast_hash algorithm b1 difficulty threadCount start schedule m = Ok (Some (found, m')) ->
  checkProofOfWork cn_fast_hash algorithm genesisBlockHash found difficulty = Ok true
  /\ (exists i k, (i < threadCount)%nat /\ 0 <= k /\ found = set_nonce (u32 (start + Z.of_nat i + k * Z.of_nat threadCount)) b1)
  /\ forall s1 s2 m1, schedule = s1 ++ s2 -> foldM (mining_step cn_fast_hash algorithm difficulty (u32 (Z.of_nat threadCount)))
        {| m_state := MINING_IN_PROGRESS; m_block := m_block m; m_hash_count := m_hash_count m; m_workers := new_workers b1 start threadCount |} s1 = Ok m1 ->
      forall i j w w', m_workers m1 !! i = Some w -> m_workers m1 !! j = Some w' -> w_place w = Writing -> w_place w' = Writing -> i = j.
Proof.
  intros Hp Hb Hv Ha E. destruct (mine_ok _ _ _ _ _ _ _ _ _ _ E) as (W & i & Hi & k & Hk & ->). apply adjusted_ok in Ha as (b0 & t & Ht & -> & _). split_and!.
  - eapply (mined_work _ _ _ b b0 _ t); eassumption.
  - by exists i, k.
  - intros s1 s2 m1 _ Hf. apply (foldM_keeps (mining_inv cn_fast_hash algorithm (set_header (nonce (header b0)) t b0) difficulty start threadCount)) in Hf as I; [apply I|intros x a y; by apply mining_step_inv|apply new_workers_inv].
Qed.

(** ** Samples: two threads, of which the first finds a block with its second nonce *)

(** Data whose bytes sum to a multiple of three has the least hash. *)
Definition sum_algorithm (majorVersion : Z) : option (bytes -> Hash) := Some (fun x => if sumZ x mod 3 =? 0 then replicate 32 0 else replicate 32 255).
Definition sample_template : BlockTemplate :=
  {| header := {| majorVersion := 3; minorVersion := 0; nonce := 0; timestamp := 100; previousBlockHash := replicate 32 1 |};
     parentBlock := {| pb_majorVersion := 0; pb_minorVersion := 0; pb_previousBlockHash := NULL_HASH; transactionCount := 1; baseTransactionBranch := [];
       pb_baseTransaction := new_TransactionPrefix; blockchainBranch := [] |};
     baseTransaction := {| tx_prefix := {| version := 1; unlockTime := 60; inputs := [InBase {| blockIndex := 20 |}]; outputs := []; extra := [] |}; signatures := [] |};
     transactionHashes := [] |}.
Definition sample_config : MiningConfig := {| firstBlockTimestamp := 0; blockTimestampInterval := 0 |}.
Definition sample_adjusted : BlockTemplate := match adjustBlockTemplate toy_hash sample_config 0 sample_template with Ok b => b | _ => sample_template end.
Definition idle_miner : Miner := {| m_state := MINING_STOPPED; m_block := new_BlockTemplate; m_hash_count := 0; m_workers := [] |}.
Definition sample_schedule : list mining_action :=
  Step <$> [0; 1; 1; 0; 0; 0; 1; 1; 0; 0; 1; 0; 1; 0; 1; 1; 0; 0; 1; 1; 0; 0; 1; 1]%nat.
Definition sample_found : BlockTemplate :=
  match mine toy_hash sum_algorithm sample_adjusted 1000 2 8 sample_schedule idle_miner with Ok (Some (b, _)) => b | _ => new_BlockTemplate end.
Definition sample_after : Miner :=
  match mine toy_hash sum_algorithm sample_adjusted 1000 2 8 sample_schedule idle_miner with Ok (Some (_, m)) => m | _ => idle_miner end.
Lemma mined_block_valid_witness : (nonce (header sample_found), m_hash_count sample_after) = (10, 3) /\ checkProofOfWork toy_hash sum_algorithm NULL_HASH sample_found 1000 = Ok true.
Proof.
  split; [vm_compute; reflexivity|].
  apply (mined_block_valid toy_hash sum_algorithm NULL_HASH sample_config 0 sample_template sample_adjusted 1000 2 8 sample_schedule idle_miner sample_found sample_after).
  - intros root E. vm_compute in E. injection E as <-. by_compute.
  - reflexivity.
  - discriminate.
  - vm_compute. reflexivity.
  - vm_compute. reflexivity.
Defined.
