(* ===== verification/CoreTemplate.v ===== *)
(** * CoreTemplate: the blocks [cryptonotecore/Core.cpp] prepares for miners

    [Core::getBlockTemplate] with what it calls: the transactions taken from the pool, and the miner transaction whose size has to
    fit the reward it is computed from.  The random keys of the miner transactions and the clock are arguments. *)

From Stdlib Require Import ZArith Lia.
From stdpp Require Import base tactics list numbers strings gmap fin_maps fin_sets sorting.
From S2P Require Import Prelude Config Types Difficulty Serializer TxSerialization BlockSerialization TransactionExtra FormatUtils Currency Checkpoints ThreadPool Validate Pool BlockchainCache CacheChain BlockValidation SegmentTree Ledger Core CoreInvariant Transfer CoreQueries CoreSync.

Local Open Scope Z_scope.

Definition UNDEF_HEIGHT : Z := u32 (-1).
Definition BLOCK_MINOR_VERSION_1 : Z := 1.

(** ** [TransactionSpentInputsChecker] *)

(** Images inserted before the first that is there already stay in the set. *)
Fixpoint haveSpentInputs (alreadySpentKeyImages : gset KeyImage) (l : list TransactionInput) : bool * gset KeyImage :=
  match l with
  | [] => (false, alreadySpentKeyImages)
  | InKey i :: l =>
      if bool_decide (keyImage i ∈ alreadySpentKeyImages) then (true, alreadySpentKeyImages)
      else haveSpentInputs ({[keyImage i]} ∪ alreadySpentKeyImages) l
  | InBase _ :: l => haveSpentInputs alreadySpentKeyImages l
  end.

Definition set_base_extra (e : bytes) (tx : Transaction) : Transaction :=
  {| tx_prefix := Transfer.set_extra e (tx_prefix tx); signatures := signatures tx |}.

Section template.
Context (currency : Currency) (checkpoints : points).
Context (scalarmultKey : KeyImage -> KeyImage -> KeyImage) (check_key : PublicKey -> bool).
Context (cn_fast_hash cn_turtle_lite_slow_hash_v2 : bytes -> Hash).
Context (generate_key_derivation : PublicKey -> SecretKey -> option bytes) (derive_public_key : bytes -> Z -> PublicKey -> option PublicKey).
Context (now : Z) (txkeys : nat -> KeyPair).

Definition calculateCumulativeBlocksizeLimit (c : Core) (height : Z) : outcome Z :=
  let nextBlockGrantedFullRewardZone := blockGrantedFullRewardZoneByBlockVersion currency (getBlockMajorVersionForHeight currency height) in
  m ← main_cache c;
  top ← cache_top m;
  sizes ← getLastBlocksSizes m (Z.to_nat (m_rewardBlocksWindow currency)) top false;
  Ok (u64 (Z.max (medianValue sizes) nextBlockGrantedFullRewardZone * 2)).

(** ** The transactions of the block *)

Definition template_validator (c : Core) (tx : CachedTransaction) (blockHeight : Z) : ValidateTransaction :=
  {| m_cachedTransaction := tx; m_currency := currency; m_checkpoints := checkpoints; m_blockHeight := blockHeight;
     m_blockSizeMedian := blockMedianSize c; m_isPoolTransaction := true |}.
Definition validateBlockTemplateTransaction (c : Core) (tx : CachedTransaction) (blockHeight : Z) : outcome bool :=
  m ← main_cache c;
  top ← cache_top m;
  timestamps ← getLastTimestamps m 1 top false;
  _ ← from_option "getLastTimestamps(1)[0]" (head timestamps);
  '(r, _) ← revalidateAfterHeightChange scalarmultKey check_key cn_turtle_lite_slow_hash_v2 (template_validator c tx blockHeight) ∅;
  Ok (r_valid r).

Record Filling := {
  fl_core : Core;
  fl_spent : gset KeyImage;
  fl_hashes : list Hash;
  transactionsSize : Z;
  fl_fee : Z }.
Definition drop_from_pool (hash : Hash) (c : Core) : outcome Core :=
  '(_, p) ← removeTransaction hash (transactionPool (core_pool c)); Ok (set_pool (with_pool (core_pool c) p) c).

Definition addTransactionToBlockTemplate (maxTotalSize height : Z) (f : Filling) (tx : CachedTransaction) : outcome Filling :=
  blob ← getTransactionBinaryArray tx;
  if maxTotalSize <? u64 (transactionsSize f + Z.of_nat (length blob)) then Ok f
  else
    valid ← validateBlockTemplateTransaction (fl_core f) tx height;
    hash ← getTransactionHash cn_fast_hash tx;
    if negb (valid : bool) then
      c ← drop_from_pool hash (fl_core f);
      Ok {| fl_core := c; fl_spent := fl_spent f; fl_hashes := fl_hashes f; transactionsSize := transactionsSize f; fl_fee := fl_fee f |}
    else
      let '(spent, images) := haveSpentInputs (fl_spent f) (inputs (tx_prefix (getTransaction tx))) in
      if spent : bool then
        Ok {| fl_core := fl_core f; fl_spent := images; fl_hashes := fl_hashes f; transactionsSize := transactionsSize f; fl_fee := fl_fee f |}
      else
        Ok {| fl_core := fl_core f; fl_spent := images; fl_hashes := fl_hashes f ++ [hash];
              transactionsSize := u64 (transactionsSize f + Z.of_nat (length blob)); fl_fee := u64 (fl_fee f + getTransactionFee (getTransaction tx)) |}.

(** The transactions with a fee first. *)
Definition fillBlockTemplate (c : Core) (medianSize maxCumulativeSize height : Z) : outcome Filling :=
  let maxTotalSize := u64 (125 * medianSize) / 100 in
  let maxTotalSize := u64 (Z.min maxTotalSize maxCumulativeSize - m_minerTxBlobReservedSize currency) in
  let '(regularTransactions, fusionTransactions) := getPoolTransactionsForBlockTemplate (transactionPool (core_pool c)) in
  foldM (addTransactionToBlockTemplate maxTotalSize height) {| fl_core := c; fl_spent := ∅; fl_hashes := []; transactionsSize := 0; fl_fee := 0 |}
    (regularTransactions ++ fusionTransactions).

(** ** The miner transaction *)

Section miner.
Context (majorVersion height medianSize alreadyGeneratedCoins size fee : Z) (publicViewKey publicSpendKey : PublicKey) (extraNonce : bytes).

Definition miner_tx (n : nat) (currentBlockSize : Z) : outcome (option Transaction) :=
  constructMinerTx generate_key_derivation derive_public_key currency majorVersion height medianSize alreadyGeneratedCoins currentBlockSize fee
    publicViewKey publicSpendKey (txkeys n) extraNonce 11.

(** The last check of a round. *)
Definition finish_base (cumulativeSize : Z) (base : Transaction) : outcome (string + Transaction) :=
  s ← getObjectBinarySize serialize_Transaction base;
  Ok (if negb (cumulativeSize =? u64 (size + s)) then inl "unexpected case"%string else inr base).

(** [tryCount] rounds: the transaction is made for a size of the block, and is filled up with zeros to it, or tried again with another size. *)
Fixpoint fit_base (tryCount n : nat) (cumulativeSize : Z) : outcome (string + Transaction) :=
  match tryCount with
  | O => Ok (inl "Failed to create block template"%string)
  | S tryCount =>
      r ← miner_tx n cumulativeSize;
      match r with
      | None => Ok (inl "Failed to construct miner transaction"%string)
      | Some base =>
          coinbaseBlobSize ← getObjectBinarySize serialize_Transaction base;
          let wanted := u64 (cumulativeSize - size) in
          if wanted <? coinbaseBlobSize then fit_base tryCount (S n) (u64 (size + coinbaseBlobSize))
          else if coinbaseBlobSize <? wanted then
            let delta := u64 (wanted - coinbaseBlobSize) in
            let e := extra (tx_prefix base) ++ replicate (Z.to_nat delta) 0 in
            s ← getObjectBinarySize serialize_Transaction (set_base_extra e base);
            if cumulativeSize =? u64 (size + s) then finish_base cumulativeSize (set_base_extra e base)
            else if negb (u64 (cumulativeSize + 1) =? u64 (size + s)) then Ok (inl "unexpected case"%string)
            else
              let e := take (length e - 1) e in
              s ← getObjectBinarySize serialize_Transaction (set_base_extra e base);
              if negb (cumulativeSize =? u64 (size + s)) then fit_base tryCount (S n) (u64 (cumulativeSize + (delta - 1)))
              else finish_base cumulativeSize (set_base_extra e base)
          else finish_base cumulativeSize base
      end
  end.

Definition base_transaction : outcome (string + Transaction) :=
  r ← miner_tx 0 size;
  match r with
  | None => Ok (inl "Failed to construct miner transaction"%string)
  | Some base => s ← getObjectBinarySize serialize_Transaction base; fit_base 10 1 (u64 (size + s))
  end.
End miner.

(** ** The template *)

Definition template_versions (major : Z) : Z :=
  if major =? BLOCK_MAJOR_VERSION_1 then (if upgradeHeight currency BLOCK_MAJOR_VERSION_2 =? UNDEF_HEIGHT then BLOCK_MINOR_VERSION_1 else BLOCK_MINOR_VERSION_0)
  else if BLOCK_MAJOR_VERSION_2 <=? major then
    if upgradeHeight currency BLOCK_MAJOR_VERSION_3 =? UNDEF_HEIGHT then (if major =? BLOCK_MAJOR_VERSION_2 then BLOCK_MINOR_VERSION_1 else BLOCK_MINOR_VERSION_0)
    else BLOCK_MINOR_VERSION_0
  else 0.

(** The parent block: a major version that is overwritten by the minor one, and a coinbase transaction with the merge mining tag; [None] when the tag
    does not serialize. *)
Definition template_parent (major : Z) : outcome (option ParentBlock) :=
  if BLOCK_MAJOR_VERSION_2 <=? major then
    e ← appendMergeMiningTagToExtra (extra (pb_baseTransaction new_ParentBlock)) new_MergeMiningTag;
    Ok (option_map (fun e => {| pb_majorVersion := BLOCK_MINOR_VERSION_0; pb_minorVersion := pb_minorVersion new_ParentBlock;
          pb_previousBlockHash := pb_previousBlockHash new_ParentBlock; transactionCount := 1; baseTransactionBranch := baseTransactionBranch new_ParentBlock;
          pb_baseTransaction := Transfer.set_extra e (pb_baseTransaction new_ParentBlock); blockchainBranch := blockchainBranch new_ParentBlock |}) e)
  else Ok (Some new_ParentBlock).

Definition template_timestamp (c : Core) (height : Z) : outcome Z :=
  if BLOCKCHAIN_TIMESTAMP_CHECK_WINDOW <=? height then
    timestamps ← collect (getBlockTimestampByIndex c) (seqZ (height - BLOCKCHAIN_TIMESTAMP_CHECK_WINDOW) BLOCKCHAIN_TIMESTAMP_CHECK_WINDOW);
    Ok (Z.max now (medianValue timestamps))
  else Ok now.

(** An error message (shortened), or the template, the difficulty and the height; and the core, whose pool may have lost transactions. *)
Definition getBlockTemplate (c : Core) (publicViewKey publicSpendKey : PublicKey) (extraNonce : bytes) : outcome (Core * (string + BlockTemplate * Z * Z)) :=
  _ ← throwIfNotInitialized c;
  top ← Core_getTopBlockIndex c;
  let height := u32 (top + 1) in
  difficulty ← Core_getDifficultyForNextBlock currency c;
  if difficulty =? 0 then Ok (c, inl "Cannot create block template, difficulty is zero."%string)
  else
    let major := getBlockMajorVersionForHeight currency height in
    parent ← template_parent major;
    match parent with
    | None => Ok (c, inl "Failed to append merge mining tag to extra of the parent block miner transaction"%string)
    | Some parent =>
        previousHash ← Core_getTopBlockHash c;
        time ← template_timestamp c height;
        limit ← calculateCumulativeBlocksizeLimit c height;
        let medianSize := limit / 2 in
        m ← main_cache c;
        alreadyGeneratedCoins ← getAlreadyGeneratedCoins m top;
        maxCumulativeSize ← maxBlockCumulativeSize currency height;
        f ← fillBlockTemplate c medianSize maxCumulativeSize height;
        r ← base_transaction major height medianSize alreadyGeneratedCoins (transactionsSize f) (fl_fee f) publicViewKey publicSpendKey extraNonce;
        Ok (fl_core f,
            match r with
            | inl e => inl e
            | inr base =>
                inr ({| header := {| majorVersion := major; minorVersion := template_versions major; nonce := 0; timestamp := time; previousBlockHash := previousHash |};
                        parentBlock := parent; baseTransaction := base; transactionHashes := fl_hashes f |}, difficulty, height)
            end)
    end.
End template.

(** ** The transactions that were chosen *)

Lemma spent_inputs_ok l : forall s b s', haveSpentInputs s l = (b, s') ->
  s ⊆ s' /\ (b = false -> NoDup (omap image l) /\ list_to_set (omap image l) ## s /\ s' = list_to_set (omap image l) ∪ s).
Proof.
  induction l as [|[i|i] l IH]; intros s b s' H; cbn [haveSpentInputs] in H.
  - injection H as <- <-. split; [done|]. intros _. simpl. split_and!; [constructor|set_solver|set_solver].
  - by apply IH in H.
  - case_bool_decide as Hin; [injection H as <- <-; done|]. apply IH in H as [S H]. split; [set_solver|]. intros E. destruct (H E) as (N & D & ->).
    simpl. split_and!; [|set_solver|set_solver]. apply NoDup_cons. split; [|done]. intros Hi. apply (D (keyImage i)); set_solver.
Qed.

Definition chosen_images (txs : list CachedTransaction) : list KeyImage := concat (tx_key_images <$> (getTransaction <$> txs)).
Lemma chosen_images_app l1 l2 : chosen_images (l1 ++ l2) = chosen_images l1 ++ chosen_images l2.
Proof. unfold chosen_images. by rewrite !fmap_app, concat_app. Qed.

Section filling.
Context (currency : Currency) (checkpoints : points).
Context (scalarmultKey : KeyImage -> KeyImage -> KeyImage) (check_key : PublicKey -> bool).
Context (cn_fast_hash cn_turtle_lite_slow_hash_v2 : bytes -> Hash).

Abbreviation ADD := (addTransactionToBlockTemplate currency checkpoints scalarmultKey check_key cn_fast_hash cn_turtle_lite_slow_hash_v2).
Abbreviation VALID := (validateBlockTemplateTransaction currency checkpoints scalarmultKey check_key cn_turtle_lite_slow_hash_v2).

(** What the loop adds to a template: transactions that are valid at its height, of which no two spend the same key image, with their exact size and
    fee, while the size stays within the limit; of the core only the pool changes. *)
Record adds (maxTotalSize height : Z) (f : Filling) (chosen : list CachedTransaction) (f' : Filling) : Prop := {
  ad_hashes : exists hs, fl_hashes f' = fl_hashes f ++ hs /\ Forall2 (fun tx h => getTransactionHash cn_fast_hash tx = Ok h) chosen hs;
  ad_size : exists blobs, Forall2 (fun tx blob => getTransactionBinaryArray tx = Ok blob) chosen blobs
    /\ transactionsSize f' = u64 (transactionsSize f + sumZ ((fun blob => Z.of_nat (length blob)) <$> blobs));
  ad_limit : transactionsSize f <= maxTotalSize -> transactionsSize f' <= maxTotalSize;
  ad_fee : fl_fee f' = u64 (fl_fee f + sumZ ((fun tx => getTransactionFee (getTransaction tx)) <$> chosen));
  ad_spent : NoDup (chosen_images chosen) /\ list_to_set (chosen_images chosen) ## fl_spent f
    /\ list_to_set (chosen_images chosen) ∪ fl_spent f ⊆ fl_spent f';
  ad_valid : Forall (fun tx => VALID (fl_core f) tx height = Ok true) chosen;
  ad_core : exists w, fl_core f' = set_pool w (fl_core f) }.

Lemma adds_trans m h f l1 f1 l2 f2 : adds m h f l1 f1 -> adds m h f1 l2 f2 -> adds m h f (l1 ++ l2) f2.
Proof.
  intros [(hs1 & A1 & A2) (b1 & A3 & A4) A5 A6 (A7 & A8 & A9) A10 (w1 & A11)] [(hs2 & B1 & B2) (b2 & B3 & B4) B5 B6 (B7 & B8 & B9) B10 (w2 & B11)]. split.
  - exists (hs1 ++ hs2). rewrite B1, A1, <- app_assoc. split; [done|]. by apply Forall2_app.
  - exists (b1 ++ b2). split; [by apply Forall2_app|]. rewrite B4, A4, fmap_app, sumZ_app, wrap_add_l. f_equal. lia.
  - auto.
  - rewrite B6, A6, fmap_app, sumZ_app, wrap_add_l. f_equal. lia.
  - rewrite chosen_images_app, NoDup_app, list_to_set_app_L. clear - A7 A8 A9 B7 B8 B9. split_and!; [done| |done| |].
    + intros ki H1%(elem_of_list_to_set (C := gset KeyImage)) H2%(elem_of_list_to_set (C := gset KeyImage)). apply (B8 ki H2), A9, elem_of_union. by left.
    + apply disjoint_union_l. split; [done|]. intros ki H1 H2. apply (B8 ki H1), A9, elem_of_union. by right.
    + intros ki H. apply B9. apply elem_of_union. apply elem_of_union in H as [[H|H]%elem_of_union|H]; [right|by left|right]; apply A9, elem_of_union; auto.
  - apply Forall_app. split; [done|]. rewrite A11 in B10. exact B10.
  - exists w2. by rewrite B11, A11.
Qed.
Lemma adds_nothing m h f f' : is_u64 (transactionsSize f) -> is_u64 (fl_fee f) -> fl_hashes f' = fl_hashes f -> transactionsSize f' = transactionsSize f ->
  fl_fee f' = fl_fee f -> fl_spent f ⊆ fl_spent f' -> (exists w, fl_core f' = set_pool w (fl_core f)) -> adds m h f [] f'.
Proof.
  intros U1 U2 E1 E2 E3 S C. split.
  - exists []. by rewrite E1, app_nil_r.
  - exists []. split; [constructor|]. by rewrite E2, Z.add_0_r, wrap_small.
  - by rewrite E2.
  - by rewrite E3, Z.add_0_r, wrap_small.
  - simpl. split_and!; [constructor|set_solver|set_solver].
  - constructor.
  - done.
Qed.

Lemma same_core c : exists w, c = set_pool w c.
Proof. exists (core_pool c). by destruct c. Qed.

Lemma add_ok m h f tx f' : is_u64 (transactionsSize f) -> is_u64 (fl_fee f) -> ADD m h f tx = Ok f' ->
  exists chosen, (chosen = [] \/ chosen = [tx]) /\ adds m h f chosen f'.
Proof.
  intros U1 U2 E. unfold addTransactionToBlockTemplate in E. apply bind_ok in E as (blob & Hb & E).
  destruct (Z.ltb_spec m (u64 (transactionsSize f + Z.of_nat (length blob)))) as [|Hm].
  { apply Ok_inj in E as <-. exists []. split; [by left|]. apply adds_nothing; try done. apply same_core. }
  apply bind_ok in E as (valid & Hv & E). apply bind_ok in E as (hash & Hh & E). destruct valid; cbn [negb] in E.
  2:{ apply bind_ok in E as (c & Hc & E). apply Ok_inj in E as <-. exists []. split; [by left|]. apply adds_nothing; try done.
      unfold drop_from_pool in Hc. apply bind_ok in Hc as ([? p] & _ & Hc). apply Ok_inj in Hc as <-. by eexists. }
  destruct (haveSpentInputs _ _) as [spent imgs] eqn:Hs. apply spent_inputs_ok in Hs as [S Hs]. destruct spent; apply Ok_inj in E as <-.
  { exists []. split; [by left|]. apply adds_nothing; try done. apply same_core. }
  exists [tx]. split; [by right|]. destruct (Hs eq_refl) as (N & D & ->).
  assert (Ei : chosen_images [tx] = omap image (inputs (tx_prefix (getTransaction tx)))) by (unfold chosen_images; simpl; apply app_nil_r).
  split; cbn [fl_hashes transactionsSize fl_fee fl_spent fl_core].
  - exists [hash]. split; [done|]. by repeat constructor.
  - exists [blob]. split; [by repeat constructor|]. simpl. by rewrite Z.add_0_r.
  - done.
  - simpl. by rewrite Z.add_0_r.
  - by rewrite Ei.
  - by repeat constructor.
  - apply same_core.
Qed.

Lemma adds_widths m h f l f' : adds m h f l f' -> is_u64 (transactionsSize f') /\ is_u64 (fl_fee f').
Proof. intros [_ (b & _ & ->) _ -> _ _ _]. split; apply wrap_range; lia. Qed.

Lemma fill_loop_ok m h l : forall f f', is_u64 (transactionsSize f) -> is_u64 (fl_fee f) -> foldM (ADD m h) f l = Ok f' ->
  exists chosen, chosen `sublist_of` l /\ adds m h f chosen f'.
Proof.
  induction l as [|tx l IH]; intros f f' U1 U2 E; cbn [foldM] in E.
  { apply Ok_inj in E as <-. exists []. split; [constructor|]. apply adds_nothing; try done. apply same_core. }
  apply bind_ok in E as (f1 & E1 & E). destruct (add_ok _ _ _ _ _ U1 U2 E1) as (c1 & Hc & A). destruct (adds_widths _ _ _ _ _ A) as [V1 V2].
  destruct (IH f1 f' V1 V2 E) as (c2 & S & B). exists (c1 ++ c2). split; [|by eapply adds_trans].
  destruct Hc as [-> | ->]; [by apply sublist_cons|by apply sublist_skip].
Qed.
End filling.

(** ** The miner transaction *)

Lemma merge_outs_positive fuel : forall maxOuts l l', Forall (fun a => 0 < a) l -> sumZ l < 2 ^ 64 -> (length l <= fuel)%nat -> 1 <= maxOuts ->
  merge_outs fuel maxOuts l = Ok l' -> Forall (fun a => 0 < a) l' /\ sumZ l' = sumZ l.
Proof.
  induction fuel as [|fuel IH]; intros maxOuts l l' Hp Hs Hf Hm E; cbn [merge_outs] in E;
    (destruct (Z.ltb_spec maxOuts (Z.of_nat (length l))); [|apply Ok_inj in E as <-; done]); [lia|].
  destruct (split_last_two l) as (l0 & a & b & ->); [lia|]. apply Forall_app in Hp as [H0 [Ha [Hb _]%Forall_cons]%Forall_cons].
  rewrite sumZ_app in Hs. change (sumZ [a; b]) with (a + (b + 0)) in Hs. assert (0 <= sumZ l0) by (apply sumZ_nonneg; eapply Forall_impl; [exact H0|]; simpl; lia).
  revert E. rewrite length_app. cbn [length]. replace (length l0 + 2 - 2)%nat with (length l0 + 0)%nat by lia. rewrite (list_lookup_middle l0 [b] a) by lia. cbn [from_option]. okbind.
  rewrite (last_app_cons l0 [b]). cbn [last from_option]. okbind. rewrite insert_app_r. cbn [insert list_insert list_alter]. rewrite wrap_small by width_solve.
  replace (length l0 + 2 - 1)%nat with (length l0 + 1)%nat by lia. rewrite take_app_add. cbn [take]. intros E. destruct (IH maxOuts (l0 ++ [a + b]) l') as [P S]; try done.
  - apply Forall_app. split; [done|]. constructor; [lia|constructor].
  - rewrite sumZ_app. change (sumZ [a + b]) with (a + b + 0). lia.
  - rewrite length_app in *. simpl in *. lia.
  - split; [done|]. rewrite S, !sumZ_app. change (sumZ [a + b]) with (a + b + 0). change (sumZ [a; b]) with (a + (b + 0)). lia.
Qed.

Lemma decompose_positive amount thr : is_u64 amount -> is_u64 thr -> Forall (fun a => 0 < a) (decomposeAmount amount thr) /\ sumZ (decomposeAmount amount thr) = amount.
Proof.
  intros Ha Ht. destruct (decompose_ok amount thr Ha Ht) as (S1 & _ & d & c & E & Hd & Hc). unfold decomposeAmount. split; [|done]. rewrite E, fmap_app. apply Forall_app. split.
  - destruct Hd as [-> |(x & -> & Hx)]; repeat constructor. simpl. lia.
  - apply Forall_fmap. eapply Forall_impl; [exact Hc|]. intros p [_ Hp]. simpl. assert (HP : Forall (fun a => 0 < a) PRETTY_AMOUNTS) by by_compute. rewrite Forall_forall in HP. by apply HP.
Qed.

Section base.
Context (generate_key_derivation : PublicKey -> SecretKey -> option bytes) (derive_public_key : bytes -> Z -> PublicKey -> option PublicKey).

Lemma miner_outputs_keys pv ps sk l : forall no outs, Currency.miner_outputs generate_key_derivation derive_public_key pv ps sk no l = Some outs ->
  Forall (fun o => exists d n, derive_public_key d n ps = Some (output_key o)) outs.
Proof.
  induction l as [|a l IH]; intros no outs H; simpl in H; [simplify_eq; constructor|].
  apply bind_Some in H as (d & _ & H). apply bind_Some in H as (k & Hk & H). apply bind_Some in H as (rest & Hr & H). simplify_eq. constructor; [|by eapply IH]. by exists d, no.
Qed.

(** What the block of size [size] at [height] owes its miner is what the outputs of [tx] sum to. *)
Record pays (currency : Currency) (v height median already size fee : Z) (spend : PublicKey) (tx : Transaction) : Prop := {
  py_inputs : inputs (tx_prefix tx) = [InBase {| blockIndex := height |}];
  py_unlock : unlockTime (tx_prefix tx) = expectedUnlockTime height;
  py_signatures : signatures tx = [];
  py_amounts : Forall (fun o => 0 < out_amount o) (outputs (tx_prefix tx));
  py_keys : Forall (fun o => exists d n, derive_public_key d n spend = Some (output_key o)) (outputs (tx_prefix tx));
  py_reward : exists reward change, getBlockReward currency v median size already fee height = Ok (Some (reward, change))
    /\ is_u64 reward /\ sumZ (out_amount <$> outputs (tx_prefix tx)) = reward }.

Lemma reward_width currency v median size already fee height reward change :
  getBlockReward currency v median size already fee height = Ok (Some (reward, change)) -> is_u64 reward.
Proof.
  intros E. unfold getBlockReward in E. apply bind_ok in E as (? & _ & E). apply bind_ok in E as (? & _ & E). destruct (_ <? size); [done|].
  apply bind_ok in E as (p & _ & E). apply bind_ok in E as (q & _ & E). injection E as <- _. apply wrap_range. lia.
Qed.

Lemma construct_pays currency v height median already size fee pv ps txkey extraNonce tx : is_u64 (m_defaultDustThreshold currency) ->
  constructMinerTx generate_key_derivation derive_public_key currency v height median already size fee pv ps txkey extraNonce 11 = Ok (Some tx) ->
  pays currency v height median already size fee ps tx.
Proof.
  intros Hd E. unfold constructMinerTx in E. destruct (if bool_decide _ then _ else _) as [e|]; [|done]. apply bind_ok in E as (r & Hr & E). destruct r as [[reward change]|]; [|done].
  pose proof (reward_width _ _ _ _ _ _ _ _ _ Hr) as U. change (negb (1 <=? 11)) with false in E. cbn iota in E. apply bind_ok in E as (outs & Ho & E).
  destruct (decompose_positive reward (m_defaultDustThreshold currency) U Hd) as [P S]. apply merge_outs_positive in Ho as [P' S']; [|done|rewrite S; apply U|lia|lia].
  destruct (Currency.miner_outputs _ _ _ _ _ _ _) as [os|] eqn:Eo; [|done]. destruct (negb _); [done|]. apply Ok_inj in E as [= <-].
  pose proof (miner_outputs_amounts _ _ _ _ _ _ _ _ Eo) as Ea. split; cbn [tx_prefix inputs outputs unlockTime signatures].
  - done.
  - unfold expectedUnlockTime. by case_match.
  - done.
  - rewrite <- Ea in P'. exact (proj1 (Forall_fmap _ _ _) P').
  - by eapply miner_outputs_keys.
  - exists reward, change. split_and!; [done|done|]. by rewrite Ea, S', S.
Qed.
Lemma pays_extra currency v height median already size fee ps tx e : pays currency v height median already size fee ps tx -> pays currency v height median already size fee ps (set_base_extra e tx).
Proof. intros [P1 P2 P3 P4 P5 P6]. by split. Qed.

Context (currency : Currency) (txkeys : nat -> KeyPair).
Context (v height median already size fee : Z) (pv ps : PublicKey) (extraNonce : bytes).
Abbreviation MINER := (miner_tx currency generate_key_derivation derive_public_key txkeys v height median already fee pv ps extraNonce).
Abbreviation FIT := (fit_base currency generate_key_derivation derive_public_key txkeys v height median already size fee pv ps extraNonce).

(** However often the size is tried: the transaction that is returned was made for a block of exactly the size it gives the block. *)
Lemma fit_ok tries : forall n cum base, is_u64 (m_defaultDustThreshold currency) -> FIT tries n cum = Ok (inr base) ->
  exists s, getObjectBinarySize serialize_Transaction base = Ok s /\ pays currency v height median already (u64 (size + s)) fee ps base.
Proof.
  induction tries as [|tries IH]; intros n cum base Hd E; cbn [fit_base] in E; [done|]. apply bind_ok in E as (r & Hr & E). destruct r as [tx|]; [|done].
  apply construct_pays in Hr; [|done]. assert (F : forall e tx', tx' = tx \/ tx' = set_base_extra e tx -> finish_base size cum tx' = Ok (inr base) -> exists s, getObjectBinarySize serialize_Transaction base = Ok s
    /\ pays currency v height median already (u64 (size + s)) fee ps base).
  { intros e tx' Ht H. unfold finish_base in H. apply bind_ok in H as (s & Hs & H). destruct (Z.eqb_spec cum (u64 (size + s))) as [Hc|]; [|done]. cbn [negb] in H. injection H as <-.
    exists s. split; [done|]. rewrite <- Hc. destruct Ht as [-> | ->]; [done|by apply pays_extra]. }
  apply bind_ok in E as (s & Hs & E). destruct (_ <? s); [by eapply IH|]. destruct (s <? _); [|eapply (F []); [by left|exact E]].
  apply bind_ok in E as (s1 & H1 & E). destruct (cum =? _); [eapply F; [by right|exact E]|]. destruct (negb (u64 (cum + 1) =? _)); [done|].
  apply bind_ok in E as (s2 & H2 & E). destruct (negb _); [by eapply IH|eapply F; [by right|exact E]].
Qed.
Lemma base_ok base : is_u64 (m_defaultDustThreshold currency) ->
  base_transaction currency generate_key_derivation derive_public_key txkeys v height median already size fee pv ps extraNonce = Ok (inr base) ->
  exists s, getObjectBinarySize serialize_Transaction base = Ok s /\ pays currency v height median already (u64 (size + s)) fee ps base.
Proof.
  intros Hd E. unfold base_transaction in E. apply bind_ok in E as (r & _ & E). destruct r; [|done]. apply bind_ok in E as (s & _ & E). by eapply fit_ok.
Qed.
End base.
