(* ===== verification/TemplateAccepted.v ===== *)
(** * TemplateAccepted: a block mined on the node's template is accepted by the node

    The template of [CoreTemplate.v], completed by the mining program of [Miner.v], against the checks of [BlockValidation.v]: each check of
    [Core::addBlock] passes, for the reason that the template computed the same thing. *)

From Stdlib Require Import ZArith Lia.
From stdpp Require Import base tactics list numbers strings gmap fin_maps fin_sets sorting.
From S2P Require Import Prelude Config Stream Types Difficulty Serializer TreeHash TxSerialization BlockSerialization TransactionExtra FormatUtils Currency Checkpoints ThreadPool Validate Pool BlockchainCache CacheChain BlockValidation SegmentTree Ledger Core CoreInvariant CoreReach Transfer CoreQueries CoreSync Miner CoreTemplate.

Local Open Scope Z_scope.

(** ** Blocks that are mined on a template *)

(** The tag of the template is replaced by one that names the header: the coinbase of the parent block has 40 bytes either way. *)
Definition tag_extra (root : Hash) : bytes := field_bytes (ExtraMergeMiningTag {| depth := 0; merkleRoot := root |}).
Lemma template_extra_ok : appendMergeMiningTagToExtra [] new_MergeMiningTag = Ok (Some (tag_extra NULL_HASH)).
Proof. vm_compute. reflexivity. Qed.
Lemma tag_extra_bytes root : pod 32 root -> tag_extra root = [3; 33; 0] ++ root.
Proof. intros [_ L]. unfold tag_extra. cbn [field_bytes]. unfold mm_blob, mm_field. cbn [depth merkleRoot]. rewrite length_app, L. reflexivity. Qed.

Definition tagged_base (root : Hash) : BaseTransaction := Transfer.set_extra (tag_extra root) new_TransactionPrefix.
Lemma tagged_base_written root pre : pod 32 root -> serialize_BaseTransaction (tagged_base root) (OUTPUT pre) = Ok (tagged_base root, OUTPUT (pre ++ [0; 0; 0; 0; 35] ++ tag_extra root)).
Proof.
  intros Hr. assert (L : Z.of_nat (length (tag_extra root)) = 35) by (rewrite tag_extra_bytes, length_app by done; destruct Hr as [_ ->]; done).
  unfold serialize_BaseTransaction, tagged_base, Transfer.set_extra, new_TransactionPrefix. cbn [version unlockTime inputs outputs extra].
  transitivity (Ok (tagged_base root, OUTPUT ((((((pre ++ [0]) ++ [0]) ++ [0]) ++ [0]) ++ writeVarint (Z.of_nat (length (tag_extra root)))) ++ tag_extra root))).
  - unfold tagged_base, Transfer.set_extra, new_TransactionPrefix. cbn [version unlockTime inputs outputs extra]. generalize (tag_extra root). reflexivity.
  - rewrite L, <- !app_assoc. reflexivity.
Qed.

(** The parent block of the template, with the tag. *)
Definition tagged_parent (root : Hash) : ParentBlock :=
  {| pb_majorVersion := BLOCK_MINOR_VERSION_0; pb_minorVersion := 0; pb_previousBlockHash := NULL_HASH; transactionCount := 1; baseTransactionBranch := [];
     pb_baseTransaction := tagged_base root; blockchainBranch := [] |}.
Lemma template_parent_ok major : BLOCK_MAJOR_VERSION_2 <= major -> template_parent major = Ok (Some (tagged_parent NULL_HASH)).
Proof.
  intros Hm. unfold template_parent. rewrite (proj2 (Z.leb_le _ _)) by done. change (extra (pb_baseTransaction new_ParentBlock)) with (@nil Z). by rewrite template_extra_ok.
Qed.

Lemma parent_written cn_fast_hash root ts n : pod 32 root -> is_u64 ts ->
  exists p, toBinaryArray_opt (serialize_ParentBlock cn_fast_hash false false) {| m_parentBlock := tagged_parent root; m_timestamp := ts; m_nonce := n |} = Ok (Some p)
    /\ Z.of_nat (length p) <= 2048.
Proof.
  intros Hr Ht. unfold toBinaryArray_opt, toBinaryArray, serialize_ParentBlock, tagged_parent.
  cbn [m_parentBlock m_timestamp m_nonce pb_majorVersion pb_minorVersion pb_previousBlockHash transactionCount baseTransactionBranch pb_baseTransaction blockchainBranch op_uint binary]. okbind.
  do 6 (cbn [op_uint binary]; okbind). change (tree_depth (u16 1)) with (Ok 0). change (1 <=? u16 1) with true. okbind. change (Z.to_nat 0) with 0%nat.
  unfold sized_hashes. cbn [is_input length Nat.eqb serialize_items orb]. okbind.
  rewrite tagged_base_written by done. okbind. change (extra (tagged_base root)) with (tag_extra root). rewrite (tag_read {| depth := 0; merkleRoot := root |} ltac:(by split) : getMergeMiningTagFromExtra (tag_extra root) = _). okbind.
  cbn [depth]. change (0 <=? 8 * 32) with true. change (Z.to_nat 0) with 0%nat. cbn [is_input Nat.eqb orb]. okbind. cbn [serialize_items]. okbind.
  eexists. split; [reflexivity|]. unfold out_uint, out_binary. rewrite tag_extra_bytes by done. rewrite !length_app, length_le_bytes. destruct Hr as [_ ->]. pose proof (length_writeVarint ts Ht).
  change (length (writeVarint 1)) with 1%nat. change (length NULL_HASH) with 32%nat. change (length (writeVarint BLOCK_MINOR_VERSION_0)) with 1%nat. change (length (writeVarint 0)) with 1%nat. simpl length. lia.
Qed.

(** The limits a template is made for: the reserve for the miner transaction is within what a block may have, the timestamps are compared over the
    window the node uses, and the median of the block sizes does not depend on the genesis block, which the template leaves out of it. *)
Record template_params (currency : Currency) (ch : Cache) : Prop := {
  tp_dust : is_u64 (m_defaultDustThreshold currency);
  tp_window : m_timestampCheckWindow currency = BLOCKCHAIN_TIMESTAMP_CHECK_WINDOW;
  tp_zone : let zone := blockGrantedFullRewardZoneByBlockVersion currency (getBlockMajorVersionForHeight currency (height ch)) in
    m_minerTxBlobReservedSize currency <= zone
    /\ (m_rewardBlocksWindow currency < height ch \/ Forall (fun b => bi_blockSize b <= zone) (all_blocks ch));
  tp_reserve : 0 <= m_minerTxBlobReservedSize currency;
  tp_maximum : forall m, maxBlockCumulativeSize currency (height ch) = Ok m -> m_minerTxBlobReservedSize currency <= m;
  tp_height : height ch < 2 ^ 31 }.

Lemma reward_effective currency v m m' size coins fee h : effective_median currency v m = effective_median currency v m' ->
  getBlockReward currency v m size coins fee h = getBlockReward currency v m' size coins fee h.
Proof. unfold effective_median, getBlockReward. by intros ->. Qed.

Lemma zone_range currency v : sane_currency currency -> 0 < blockGrantedFullRewardZoneByBlockVersion currency v < 2 ^ 32.
Proof.
  intros [_ Z _]. unfold blockGrantedFullRewardZoneByBlockVersion, CRYPTONOTE_BLOCK_GRANTED_FULL_REWARD_ZONE_V2, CRYPTONOTE_BLOCK_GRANTED_FULL_REWARD_ZONE_V1. repeat case_match; lia.
Qed.

Section main_chain.
Context (currency : Currency) (cn_fast_hash : bytes -> Hash) (c : Core) (m : ptr) (ids : list ptr) (ch : Cache).
Context (M : at_main currency cn_fast_hash c m ids ch) (P : template_params currency ch) (Sn : sane_currency currency).

Lemma window_top count ug : window ch count (height ch - 1) ug = drop (Nat.max (Z.to_nat (height ch) - count) (if ug then 0 else 1)) (all_blocks ch).
Proof using M.
  pose proof (main_height _ _ _ _ _ _ M). unfold window. replace (S (Z.to_nat (height ch - 1))) with (Z.to_nat (height ch)) by lia. rewrite (take_ge (all_blocks ch)); [done|]. unfold height. lia.
Qed.
Lemma units_top {count ug} f : getLastUnits ch count (height ch - 1) ug f = Ok (f <$> window ch count (height ch - 1) ug).
Proof using M. pose proof (main_height _ _ _ _ _ _ M). apply units_ok; [apply M|apply M|lia]. Qed.

Definition chain_sizes (ug : bool) : list Z := bi_blockSize <$> window ch (Z.to_nat (m_rewardBlocksWindow currency)) (height ch - 1) ug.
Lemma sizes_median_bound B ug : 0 <= B < 2 ^ 32 -> Forall (fun b => bi_blockSize b <= B) (all_blocks ch) -> 0 <= medianValue (chain_sizes ug) <= B.
Proof using M.
  intros HB F. apply medianValue_bound; [lia|]. apply Forall_fmap, Forall_drop, Forall_take. apply Forall_forall. intros b Hb. rewrite Forall_forall in F. split; [|by apply F].
  pose proof (f_limits _ _ _ _ (l_flat _ _ _ (am_ledger _ _ _ _ _ _ M))) as L. rewrite Forall_forall in L. destruct (L b Hb) as [_ U]. apply U.
Qed.
Lemma all_sizes : Forall (fun b => bi_blockSize b <= 2 ^ 32 - 1) (all_blocks ch).
Proof using M. eapply Forall_impl; [exact (f_limits _ _ _ _ (l_flat _ _ _ (am_ledger _ _ _ _ _ _ M)))|]. simpl. intros b [_ U]. width_unfold. lia. Qed.

(** The template and the check of the block use the same median. *)
Lemma limit_ok limit : calculateCumulativeBlocksizeLimit currency c (height ch) = Ok limit ->
  getLastBlocksSizes ch (Z.to_nat (m_rewardBlocksWindow currency)) (height ch - 1) true = Ok (chain_sizes true)
  /\ let v := getBlockMajorVersionForHeight currency (height ch) in
     effective_median currency v (limit / 2) = effective_median currency v (medianValue (chain_sizes true))
     /\ blockGrantedFullRewardZoneByBlockVersion currency v <= limit / 2 < 2 ^ 32.
Proof using M P Sn.
  intros E. split; [apply units_top|]. cbn zeta. set (v := getBlockMajorVersionForHeight currency (height ch)). unfold calculateCumulativeBlocksizeLimit in E. fold v in E.
  rewrite (am_cache _ _ _ _ _ _ M) in E. revert E. unfold getLastBlocksSizes. okbind. rewrite (main_top _ _ _ _ _ _ M). okbind. rewrite units_top. okbind. fold (chain_sizes false). intros E. injection E as <-.
  pose proof (zone_range currency v Sn) as Z. pose proof (sizes_median_bound (2 ^ 32 - 1) false ltac:(lia) all_sizes) as B. destruct (tp_zone _ _ P) as [_ T]. fold v in T.
  set (zone := blockGrantedFullRewardZoneByBlockVersion currency v) in *. rewrite wrap_small by width_solve. rewrite Z.div_mul by lia. unfold effective_median. fold zone. split; [|lia].
  pose proof (main_height _ _ _ _ _ _ M). destruct T as [T|T].
  - unfold chain_sizes. rewrite !window_top. cbn match. rewrite !Nat.max_l by lia. lia.
  - pose proof (sizes_median_bound zone false ltac:(lia) T). pose proof (sizes_median_bound zone true ltac:(lia) T). lia.
Qed.

Lemma timestamp_at i : 0 <= i < height ch -> exists b, all_blocks ch !! Z.to_nat i = Some b /\ getBlockTimestampByIndex c i = Ok (bi_timestamp b).
Proof using M.
  intros Hi. destruct (lookup_lt_is_Some_2 (all_blocks ch) (Z.to_nat i)) as [b Hb]; [unfold height in Hi; lia|]. exists b. split; [done|].
  unfold getBlockTimestampByIndex, Core_getTopBlockIndex, throwIfNotInitialized. rewrite (am_init _ _ _ _ _ _ M), (am_cache _ _ _ _ _ _ M). okbind. rewrite (main_top _ _ _ _ _ _ M). okbind.
  rewrite (proj2 (Z.leb_le _ _)) by lia. okbind. unfold getLastTimestamps. rewrite units_ok; [|apply M|apply M|done]. okbind. unfold window.
  rewrite (take_S_r _ _ b) by done. rewrite drop_app_ge by (rewrite length_take; lia). rewrite length_take, Nat.min_l by (unfold height in Hi; lia).
  by replace (Nat.max (S (Z.to_nat i) - 1) 0 - Z.to_nat i)%nat with 0%nat by lia.
Qed.

(** The template's timestamp is not before the median the check asks for. *)
Lemma timestamp_ok now t : template_timestamp now c (height ch) = Ok t -> exists l,
  getLastTimestamps ch (Z.to_nat (m_timestampCheckWindow currency)) (height ch - 1) true = Ok l
  /\ (m_timestampCheckWindow currency <=? Z.of_nat (length l)) && (t <? medianValue l) = false.
Proof using M P.
  intros E. eexists. split; [apply units_top|]. rewrite (tp_window _ _ P). rewrite window_top. unfold template_timestamp in E. set (w := BLOCKCHAIN_TIMESTAMP_CHECK_WINDOW) in *.
  destruct (Z.leb_spec w (height ch)) as [Hw|Hw].
  - apply bind_ok in E as (l & Hl & E). injection E as <-. apply collect_ok in Hl. rewrite Nat.max_l by lia.
    assert (El : l = bi_timestamp <$> drop (Z.to_nat (height ch) - Z.to_nat w) (all_blocks ch)).
    { apply list_eq. intros k. rewrite list_lookup_fmap, lookup_drop. destruct (l !! k) as [x|] eqn:Hx.
      - destruct (Forall2_lookup_r _ _ _ _ _ Hl Hx) as (i & Hi & Ei). apply lookup_seqZ in Hi as [-> Hk]. destruct (timestamp_at (height ch - w + Z.of_nat k)) as (b & Hb & Eb); [lia|].
        rewrite Eb in Ei. injection Ei as <-. by replace (Z.to_nat (height ch) - Z.to_nat w + k)%nat with (Z.to_nat (height ch - w + Z.of_nat k)) by (unfold w, BLOCKCHAIN_TIMESTAMP_CHECK_WINDOW in *; lia); rewrite Hb.
      - apply lookup_ge_None in Hx. rewrite <- (Forall2_length _ _ _ Hl), length_seqZ in Hx. rewrite (proj2 (lookup_ge_None _ _)); [done|]. unfold height in *. lia. }
    rewrite <- El. rewrite (proj2 (Z.ltb_ge _ _)); [apply andb_false_r|lia].
  - rewrite length_fmap, length_drop. rewrite (proj2 (Z.leb_gt _ _)); [done|]. unfold height in *. lia.
Qed.

Lemma difficulty_ok d : Core_getDifficultyForNextBlock currency c = Ok d -> getDifficultyForNextBlock currency ch (height ch - 1) = Ok d.
Proof using M.
  intros E. pose proof (main_height _ _ _ _ _ _ M) as H. rewrite difficulty_at; [|apply M|apply M|lia]. rewrite <- E.
  unfold Core_getDifficultyForNextBlock, throwIfNotInitialized, getLastTimestamps, getLastCumulativeDifficulties. rewrite (am_init _ _ _ _ _ _ M), (am_cache _ _ _ _ _ _ M). okbind.
  rewrite (main_top _ _ _ _ _ _ M). okbind. rewrite !units_top. okbind. rewrite !window_top. unfold next_difficulty, getNextDifficulty.
  replace (S (Z.to_nat (height ch - 1))) with (length (all_blocks ch)) by (unfold height; unfold height in H; lia). rewrite firstn_all. fold (height ch).
  set (k1 := Nat.max _ 1). set (k2 := Nat.max _ 1). assert (k1 = k2) as -> by (unfold k1, k2, DIFFICULTY_BLOCKS_COUNT, height in *; lia). done.
Qed.
End main_chain.

(** *** Fees and sizes *)

Lemma fee_inputs_keys ins : forall acc, is_u64 acc -> fee_inputs acc (InKey <$> ins) = Some (u64 (acc + sumZ (input_amount <$> (InKey <$> ins)))).
Proof.
  induction ins as [|i ins IH]; intros acc Ha; [simpl; by rewrite Z.add_0_r, wrap_small|]. rewrite !fmap_cons, sumZ_cons. cbn [fee_inputs]. rewrite IH by (apply wrap_range; lia).
  rewrite wrap_add_l. do 2 f_equal. unfold input_amount at 2. lia.
Qed.
Lemma fee_of_keys tx ins : inputs (tx_prefix tx) = InKey <$> ins ->
  getTransactionFee tx = u64 (sumZ (input_amount <$> inputs (tx_prefix tx)) - sumZ (out_amount <$> outputs (tx_prefix tx))).
Proof.
  intros E. unfold getTransactionFee. rewrite E, fee_inputs_keys by width_solve.
  rewrite (foldl_fmap (fun a x => u64 (a + x)) out_amount), sum_wrap by width_solve. rewrite !Z.add_0_l. unfold wrap. by rewrite <- Zminus_mod.
Qed.

Lemma u64_sum_cong {A} (f g : A -> Z) l : Forall (fun x => f x = u64 (g x)) l -> u64 (sumZ (f <$> l)) = u64 (sumZ (g <$> l)).
Proof.
  induction 1 as [|x l E _ IH]; [done|]. rewrite !fmap_cons, !sumZ_cons, E, wrap_add_l, <- wrap_add_r, IH, wrap_add_r. done.
Qed.

Lemma extract_blobs currency raws txs : Forall2 (fun raw tx => CachedTransaction_of_blob raw = Ok tx) raws txs ->
  Forall (fun raw => Z.of_nat (length raw) <= m_maxTxSize currency) raws -> forall s, is_u64 s ->
  extractTransactions currency raws s = Ok (Some (txs, u64 (s + sumZ ((fun raw => Z.of_nat (length raw)) <$> raws)))).
Proof.
  induction 1 as [|raw tx raws txs E _ IH]; intros F s Hs; cbn [extractTransactions]; [simpl; by rewrite Z.add_0_r, wrap_small|].
  apply Forall_cons in F as [Hr F]. rewrite (proj2 (Z.ltb_ge _ _)) by done. rewrite E. cbn [try_catch]. okbind. rewrite IH by (done || apply wrap_range; lia). okbind.
  rewrite fmap_cons, sumZ_cons, wrap_add_l, Z.add_assoc. done.
Qed.

(** A transaction of the pool, as a node has it that received the bytes. *)
Definition received_as (raw : bytes) (tx : CachedTransaction) : CachedTransaction := {| getTransaction := getTransaction tx; transactionBinaryArray := Some raw |}.
Definition arrives_as (raw : bytes) (tx : CachedTransaction) : Prop := getTransactionBinaryArray tx = Ok raw /\ CachedTransaction_of_blob raw = Ok (received_as raw tx).
Definition arrived (raws : list bytes) (txs : list CachedTransaction) : list CachedTransaction := zip_with received_as raws txs.

Lemma arrived_same raws txs : Forall2 arrives_as raws txs -> getTransaction <$> arrived raws txs = getTransaction <$> txs.
Proof. induction 1 as [|raw tx raws txs _ _ IH]; [done|]. unfold arrived. cbn [zip_with]. rewrite !fmap_cons. f_equal. exact IH. Qed.
Lemma arrived_read raws txs : Forall2 arrives_as raws txs -> Forall2 (fun raw tx => CachedTransaction_of_blob raw = Ok tx) raws (arrived raws txs).
Proof. induction 1 as [|raw tx raws txs [_ E] _ IH]; [constructor|]. by constructor. Qed.
Lemma arrived_lookup raws txs k tx : Forall2 arrives_as raws txs -> arrived raws txs !! k = Some tx ->
  exists raw tx0, raws !! k = Some raw /\ txs !! k = Some tx0 /\ tx = received_as raw tx0 /\ arrives_as raw tx0.
Proof.
  intros F E. unfold arrived in E. apply lookup_zip_with_Some in E as (raw & tx0 & -> & Hr & Ht). exists raw, tx0. split_and!; try done. by eapply Forall2_lookup_lr.
Qed.
Lemma arrived_hash cn_fast_hash raws txs hs : Forall2 arrives_as raws txs -> Forall2 (fun tx h => getTransactionHash cn_fast_hash tx = Ok h) txs hs ->
  Forall2 (fun tx h => getTransactionHash cn_fast_hash tx = Ok h) (arrived raws txs) hs.
Proof.
  intros F. revert hs. induction F as [|raw tx raws txs [E _] _ IH]; intros hs H; inversion H as [|? h ? ? Eh Hs]; subst; [constructor|]. constructor; [|by apply IH].
  unfold getTransactionHash in *. rewrite E in Eh. exact Eh.
Qed.
Lemma blobs_are_raws raws txs blobs : Forall2 arrives_as raws txs -> Forall2 (fun tx blob => getTransactionBinaryArray tx = Ok blob) txs blobs -> blobs = raws.
Proof.
  intros H. revert blobs. induction H as [|raw tx raws txs [E _] _ IH]; intros blobs B; inversion B as [|? blob ? ? Eb Bs]; subst; [done|]. rewrite (IH _ Bs). f_equal. congruence.
Qed.

Lemma hashes_collected cn_fast_hash txs hs : Forall2 (fun tx h => getTransactionHash cn_fast_hash tx = Ok h) txs hs -> hashes_of cn_fast_hash txs = Ok hs.
Proof. induction 1 as [|tx h txs hs E _ IH]; [done|]. cbn [hashes_of]. rewrite E. okbind. rewrite IH. done. Qed.

Lemma miner_outputs_accept check_key l : forall acc, 0 <= acc -> acc + sumZ (out_amount <$> l) < 2 ^ 64 ->
  Forall (fun o => 0 < out_amount o) l -> Forall (fun o => check_key (output_key o) = true) l ->
  BlockValidation.miner_outputs check_key acc l = rret (acc + sumZ (out_amount <$> l)).
Proof.
  induction l as [|o l IH]; intros acc Ha S P K; cbn [BlockValidation.miner_outputs]; [simpl; by rewrite Z.add_0_r|].
  apply Forall_cons in P as [Po P], K as [Ko K]. rewrite fmap_cons, sumZ_cons in *. assert (0 <= sumZ (out_amount <$> l)) by (apply sumZ_nonneg, Forall_fmap; eapply Forall_impl; [exact P|]; simpl; lia).
  rewrite (proj2 (Z.eqb_neq _ _)) by lia. rewrite Ko. cbn [refuse_if rbind rret negb]. rewrite (wrap_small 64 (MAX_U64 - out_amount o)) by (unfold MAX_U64; width_solve).
  rewrite (proj2 (Z.ltb_ge _ _)) by (unfold MAX_U64; lia). cbn [refuse_if rbind rret]. rewrite wrap_small by width_solve. rewrite IH by (done || lia). by rewrite Z.add_assoc.
Qed.

(** *** Acceptance *)

(** A template that a miner has completed: with a nonce and, from version 2 on, with a tag in the parent block. *)
Record completed (b found : BlockTemplate) : Prop := {
  cp_header : exists n, header found = header (set_nonce n b);
  cp_base : baseTransaction found = baseTransaction b;
  cp_hashes : transactionHashes found = transactionHashes b;
  cp_parent : BLOCK_MAJOR_VERSION_2 <= majorVersion (header b) -> parentBlock b = tagged_parent NULL_HASH -> exists root, pod 32 root /\ parentBlock found = tagged_parent root }.

Lemma mined_completes cn_fast_hash algorithm config last b b1 difficulty threadCount start schedule m found m' :
  (forall root, getMerkleRoot cn_fast_hash b = Ok root -> pod 32 root) -> firstBlockTimestamp config = 0 -> adjustBlockTemplate cn_fast_hash config last b = Ok b1 ->
  mine cn_fast_hash algorithm b1 difficulty threadCount start schedule m = Ok (Some (found, m')) -> completed b found.
Proof.
  intros Hp Hc Ha E. destruct (mine_ok _ _ _ _ _ _ _ _ _ _ E) as (_ & i & _ & k & _ & ->). apply adjusted_ok in Ha as (b0 & t & Ht & -> & T). rewrite (T Hc). set (n := u32 _).
  apply tag_ok in Ht as [[Hlt ->]|(root & Hge & Hr & _ & ->)]; [| |done]; split; try done.
  - by exists n.
  - unfold BLOCK_MAJOR_VERSION_2 in *. lia.
  - by exists n.
  - intros _ Eb. exists root. split; [done|]. unfold set_nonce, set_header, set_parent_extra. cbn [parentBlock]. by rewrite Eb.
Qed.

Lemma top_index_found ch s ps h : ch = s :: ps -> chain_ok ch -> nonempty ch -> NoDup (block_hashes ch) -> last (block_hashes ch) = Some h ->
  cache_getBlockIndex s h = Ok (height ch - 1).
Proof.
  intros -> H N Nd Hl. inversion N as [|? ? Hs _]; subst. destruct (last (seg_blockInfos s)) as [b|] eqn:Eb; [|by apply last_None in Eb].
  assert (Hb : cache_hasBlock s h = true).
  { apply hasBlock_in. unfold block_hashes in Hl. simpl in Hl. rewrite fmap_last, last_app, Eb in Hl. injection Hl as <-. apply list_elem_of_fmap. exists b. split; [done|].
    rewrite last_lookup in Eb. by eapply list_elem_of_lookup_2. }
  destruct (hasBlock_index s h Hb) as [i Ei]. destruct (getBlockIndex_ok _ _ _ _ H Ei) as (Hi & bi & Hbi & Eh). rewrite Ei. f_equal. rewrite last_lookup, length_block_hashes in Hl.
  assert (Hi' : block_hashes (s :: ps) !! Z.to_nat i = Some h) by (unfold block_hashes; rewrite list_lookup_fmap, Hbi; simpl; by rewrite Eh).
  pose proof (NoDup_lookup _ _ _ _ Nd Hl Hi'). pose proof (height_nonneg ps). unfold height in *. lia.
Qed.

(** The heights at which a rule for transactions changes.  A template is checked by the rules of its own height, the block by those of the height before it. *)
Definition rule_changes : list Z := [MIXIN_LIMITS_V1_HEIGHT; MINIMUM_FEE_V1_HEIGHT; MINIMUM_FEE_V2_HEIGHT; FUSION_FEE_V1_HEIGHT; FUSION_FEE_V1_EXIT_HEIGHT].

Lemma leb_before k h : h <> k -> (k <=? h - 1) = (k <=? h).
Proof. intros N. destruct (Z.leb_spec k (h - 1)), (Z.leb_spec k h); (done || lia). Qed.
Lemma rules_before h : h ∉ rule_changes -> getMixinAllowableRange (h - 1) = getMixinAllowableRange h /\ getMinimumFee (h - 1) = getMinimumFee h
  /\ (FUSION_FEE_V1_HEIGHT <=? h - 1) && (h - 1 <? FUSION_FEE_V1_EXIT_HEIGHT) = (FUSION_FEE_V1_HEIGHT <=? h) && (h <? FUSION_FEE_V1_EXIT_HEIGHT).
Proof.
  unfold rule_changes, getMixinAllowableRange, getMinimumFee. rewrite !not_elem_of_cons. intros (N1 & N2 & N3 & N4 & N5 & _). rewrite !(Z.ltb_antisym FUSION_FEE_V1_EXIT_HEIGHT).
  by rewrite !leb_before.
Qed.

Lemma cheap_before scalarmultKey check_key currency checkpoints c h raw tx : h ∉ rule_changes -> getTransactionBinaryArray tx = Ok raw ->
  cheap_ok scalarmultKey check_key (template_validator currency checkpoints c tx h) ∅ ->
  cheap_ok scalarmultKey check_key (block_validator currency checkpoints (blockMedianSize c) (h - 1) (received_as raw tx)) ∅.
Proof.
  intros R B [(blob & Eb & Sz) I O (F0 & blob' & Eb' & F) [X1 X2] Mx]. destruct (rules_before h R) as (R1 & R2 & R3). simpl in Eb, Eb'. rewrite B in Eb, Eb'. apply Ok_inj in Eb as <-. apply Ok_inj in Eb' as <-.
  split; [by exists raw|exact I|exact O| | |].
  - split; [exact F0|]. exists raw. split; [done|]. assert (is_fusion (block_validator currency checkpoints (blockMedianSize c) (h - 1) (received_as raw tx)) raw = is_fusion (template_validator currency checkpoints c tx h) raw) as ->
      by (unfold is_fusion, isFusionTransaction_amounts; simpl; by rewrite R3).
    destruct (is_fusion _ raw); cbn [m_blockHeight block_validator template_validator] in *; [|rewrite R2; exact F]. intros Hh. apply F. revert R3. rewrite (proj2 (Z.leb_le _ _)), (proj2 (Z.ltb_lt _ _)) by lia. intros R3. symmetry in R3. apply andb_true_iff in R3 as [?%Z.leb_le ?%Z.ltb_lt]. done.
  - split; simpl in *; intros Hh; [apply X1; by left|apply X2; lia].
  - unfold mixin_ok in *. simpl in *. by rewrite R1.
Qed.

Section accepted.
Context (currency : Currency) (checkpoints : points).
Context (scalarmultKey : KeyImage -> KeyImage -> KeyImage) (check_key : PublicKey -> bool).
Context (cn_fast_hash cn_turtle_lite_slow_hash_v2 : bytes -> Hash).
Context (checkRingSignature : Hash -> KeyImage -> list PublicKey -> list Signature -> bool).
Context (algorithm : Z -> option (bytes -> Hash)) (genesisBlockHash : Hash) (threadCount : nat).
Context (generate_key_derivation : PublicKey -> SecretKey -> option bytes) (derive_public_key : bytes -> Z -> PublicKey -> option PublicKey).
Context (now : Z) (txkeys : nat -> KeyPair).

Abbreviation TEMPLATE := (getBlockTemplate currency checkpoints scalarmultKey check_key cn_fast_hash cn_turtle_lite_slow_hash_v2
  generate_key_derivation derive_public_key now txkeys).
Abbreviation ADDS := (adds currency checkpoints scalarmultKey check_key cn_fast_hash cn_turtle_lite_slow_hash_v2).
Abbreviation TRANSACTIONS later ch := (block_transactions (cache := cache_interface currency later ch) scalarmultKey check_key cn_fast_hash
  cn_turtle_lite_slow_hash_v2 checkRingSignature threadCount currency checkpoints).

Abbreviation VALIDATE later ch := (validate (cache := cache_interface currency later ch) scalarmultKey check_key cn_fast_hash
  cn_turtle_lite_slow_hash_v2 checkRingSignature threadCount).

Abbreviation RINGS later ch v := (rings_ok (cache := cache_interface currency later ch) cn_fast_hash checkRingSignature v).

(** What a template is made of. *)
Record prepared (c : Core) (ch : Cache) (spend : PublicKey) (chosen : list CachedTransaction) (f : Filling) (b : BlockTemplate) (d : Z) : Prop := {
  pp_chosen : chosen `sublist_of` (let '(r, z) := getPoolTransactionsForBlockTemplate (transactionPool (core_pool c)) in r ++ z);
  pp_filled : exists limit maximum, calculateCumulativeBlocksizeLimit currency c (height ch) = Ok limit /\ maxBlockCumulativeSize currency (height ch) = Ok maximum
    /\ ADDS (u64 (Z.min (u64 (125 * (limit / 2)) / 100) maximum - m_minerTxBlobReservedSize currency)) (height ch)
         {| fl_core := c; fl_spent := ∅; fl_hashes := []; transactionsSize := 0; fl_fee := 0 |} chosen f;
  pp_hashes : transactionHashes b = fl_hashes f;
  pp_version : majorVersion (header b) = getBlockMajorVersionForHeight currency (height ch);
  pp_previous : last (block_hashes ch) = Some (previousBlockHash (header b));
  pp_time : template_timestamp now c (height ch) = Ok (timestamp (header b));
  pp_parent : template_parent (majorVersion (header b)) = Ok (Some (parentBlock b));
  pp_difficulty : Core_getDifficultyForNextBlock currency c = Ok d /\ d <> 0;
  pp_base : exists limit coins s, calculateCumulativeBlocksizeLimit currency c (height ch) = Ok limit /\ getAlreadyGeneratedCoins ch (height ch - 1) = Ok coins
    /\ getObjectBinarySize serialize_Transaction (baseTransaction b) = Ok s
    /\ pays derive_public_key currency (majorVersion (header b)) (height ch) (limit / 2) coins (u64 (transactionsSize f + s)) (fl_fee f) spend (baseTransaction b) }.

Context (c : Core) (m : ptr) (ids : list ptr) (ch : Cache).
Context (M : at_main currency cn_fast_hash c m ids ch) (P : template_params currency ch) (Sn : sane_currency currency).

Lemma template_ok view spend extraNonce c' b d h : TEMPLATE c view spend extraNonce = Ok (c', inr (b, d, h)) ->
  h = height ch /\ exists chosen f, c' = fl_core f /\ prepared c ch spend chosen f b d.
Proof using M P.
  intros E. pose proof (main_height _ _ _ _ _ _ M) as H0. pose proof (main_bound _ _ _ _ _ _ M) as H1. pose proof (tp_height _ _ P) as H2.
  unfold getBlockTemplate, Core_getTopBlockIndex, Core_getTopBlockHash, throwIfNotInitialized in E. rewrite (am_init _ _ _ _ _ _ M), (am_cache _ _ _ _ _ _ M) in E. revert E. okbind.
  rewrite (main_top _ _ _ _ _ _ M). okbind. replace (u32 (height ch - 1 + 1)) with (height ch) by (rewrite Z.sub_add; symmetry; apply wrap_small; width_solve).
  intros E. apply bind_ok in E as (d' & Hd & E). destruct (Z.eqb_spec d' 0) as [|Nd]; [done|]. apply bind_ok in E as (parent & Hp & E). destruct parent as [parent|]; [|done].
  destruct (top_hash _ _ _ _ _ _ M) as (hash & Eh & Hh). rewrite Eh in E. revert E. okbind. intros E. apply bind_ok in E as (t & Ht & E). apply bind_ok in E as (limit & Hl & E).
  apply bind_ok in E as (coins & Hc & E). apply bind_ok in E as (maximum & Hm & E). apply bind_ok in E as (f & Hf & E). apply bind_ok in E as (r & Hr & E).
  destruct r as [e|base]; [done|]. injection E as <- <- <- <-. split; [done|]. unfold fillBlockTemplate in Hf.
  destruct (getPoolTransactionsForBlockTemplate _) as [reg fus] eqn:Eg. apply fill_loop_ok in Hf as (chosen & Sub & A); [|done|done]. exists chosen, f. split; [done|].
  apply base_ok in Hr as (s & Hs & Hpay); [|apply P]. split; cbn [header majorVersion timestamp previousBlockHash parentBlock baseTransaction transactionHashes]; try done.
  - by rewrite Eg.
  - by exists limit, maximum.
  - by exists limit, coins, s.
Qed.

(** A block mined on the template reaches the node: in time, with the bytes of the transactions the template names, with a miner transaction within the
    reserve, at a height at which no rule for transactions changes.  The signatures and the proof of work of the transactions, which the pool checked when it
    took them and which the template does not check again, hold on the chain, and the threads that check them run to their end. *)
Record found_on (chosen : list CachedTransaction) (b : BlockTemplate) (median later : Z) (raw : RawBlock) (scheds : nat -> list action) : Prop := {
  mo_rules : height ch ∉ rule_changes;
  mo_time : is_u64 (timestamp (header b)) /\ timestamp (header b) <= u64 (later + futureTimeLimit (height ch));
  mo_raws : Forall2 arrives_as (transactions raw) chosen;
  mo_median : u64 (median * 2 - m_minerTxBlobReservedSize currency) <= m_maxTxSize currency;
  mo_reserve : forall s, getObjectBinarySize serialize_Transaction (baseTransaction b) = Ok s -> s <= m_minerTxBlobReservedSize currency;
  mo_signed : Forall (fun tx => let v := block_validator currency checkpoints median (height ch - 1) tx in
    pow_ok cn_turtle_lite_slow_hash_v2 v /\ RINGS later ch v) (arrived (transactions raw) chosen);
  mo_runs : forall i tx, arrived (transactions raw) chosen !! i = Some tx ->
    exists p, VALIDATE later ch (block_validator currency checkpoints median (height ch - 1) tx) (scheds i) ∅ = Ok p }.

Context (spend : PublicKey) (chosen : list CachedTransaction) (f : Filling) (b : BlockTemplate) (d : Z) (Pp : prepared c ch spend chosen f b d).
Abbreviation median := (blockMedianSize c).
Context (later : Z) (raw : RawBlock) (scheds : nat -> list action) (Mo : found_on chosen b median later raw scheds) (found : BlockTemplate) (Cp : completed b found).
Context (Pi : pool_inv cn_fast_hash (transactionPool (core_pool c))).

(** *** The transactions, as the pool has them *)

Lemma prepared_hashes : Forall2 (fun tx hash => getTransactionHash cn_fast_hash tx = Ok hash) chosen (transactionHashes b).
Proof using Pp.
  destruct (pp_filled _ _ _ _ _ _ _ Pp) as (limit & maximum & _ & _ & A). destruct (ad_hashes _ _ _ _ _ _ _ _ _ _ _ A) as (hs & Eh & Fh).
  by rewrite (pp_hashes _ _ _ _ _ _ _ Pp), Eh.
Qed.

Lemma chosen_pool : chosen ⊆+ cachedTransaction <$> pending (transactionPool (core_pool c)).
Proof using Pp.
  pose proof (pp_chosen _ _ _ _ _ _ _ Pp) as S. unfold getPoolTransactionsForBlockTemplate in S. apply sublist_submseteq in S. rewrite S, <- fmap_app.
  apply fmap_submseteq. rewrite Permutation_app_comm. by rewrite (filter_app_complement (fun t => pending_fee t = 0)).
Qed.

Definition hash_or_null (tx : CachedTransaction) : Hash := match getTransactionHash cn_fast_hash tx with Ok h => h | _ => [] end.
Lemma chosen_distinct hs : Forall2 (fun tx h => getTransactionHash cn_fast_hash tx = Ok h) chosen hs -> NoDup hs.
Proof using Pp Pi.
  intros F. assert (hs = hash_or_null <$> chosen) as ->.
  { clear Pp Mo. induction F as [|tx h l hs E _ IH]; [done|]. rewrite fmap_cons, <- IH. unfold hash_or_null. by rewrite E. }
  assert (E : memo_hash <$> pending (transactionPool (core_pool c)) = hash_or_null <$> (cachedTransaction <$> pending (transactionPool (core_pool c)))).
  { rewrite <- list_fmap_compose. apply list_fmap_ext. intros k t Ht. destruct (Forall_lookup_1 _ _ _ _ (pi_bytes _ _ Pi) Ht) as (blob & Eb & _ & ->).
    unfold compose, hash_or_null, getTransactionHash. rewrite Eb. done. }
  pose proof (fmap_submseteq hash_or_null _ _ chosen_pool) as S. rewrite <- E in S. apply submseteq_Permutation in S as [r Hr].
  pose proof (pi_hashes _ _ Pi) as N. rewrite Hr in N. by apply NoDup_app in N as [? _].
Qed.

(** Their bytes are those they came in as. *)
Lemma raw_blob k rw tx : chosen !! k = Some tx -> arrives_as rw tx -> is_bytes rw.
Proof using Pp Pi.
  intros Ht [B _]. apply list_elem_of_lookup_2 in Ht. pose proof (elem_of_submseteq _ _ _ Ht chosen_pool) as Hp.
  apply list_elem_of_fmap in Hp as (t & -> & Hp). pose proof (pi_bytes _ _ Pi) as F. rewrite Forall_forall in F. destruct (F t Hp) as (blob & Eb & Hb & _).
  rewrite B in Eb. by apply Ok_inj in Eb as ->.
Qed.
(** Every check of the template but those it leaves to the pool is one of the block's. *)
Lemma chosen_valid k tx : arrived (transactions raw) chosen !! k = Some tx -> exists r st,
  VALIDATE later ch (block_validator currency checkpoints median (height ch - 1) tx) (scheds k) ∅ = Ok (r, st) /\ r_valid r = true.
Proof using Pp Pi Mo.
  intros Ha. destruct (mo_runs _ _ _ _ _ _ Mo k tx Ha) as [[r st] V]. exists r, st. split; [done|]. destruct (Forall_lookup_1 _ _ _ _ (mo_signed _ _ _ _ _ _ Mo) Ha) as [Pw Rg].
  destruct (arrived_lookup _ _ _ _ (mo_raws _ _ _ _ _ _ Mo) Ha) as (rw & tx0 & _ & Ht & -> & E). pose proof (raw_blob k rw tx0 Ht E) as Hb.
  assert (W : wf_amounts (tx_prefix (getTransaction tx0))) by (eapply blob_amounts with (tx := received_as rw tx0); [exact currency|exact Hb|apply E]).
  destruct (pp_filled _ _ _ _ _ _ _ Pp) as (limit & maximum & _ & _ & A). pose proof (Forall_lookup_1 _ _ _ _ (ad_valid _ _ _ _ _ _ _ _ _ _ _ A) Ht) as T. cbn [fl_core] in T.
  unfold validateBlockTemplateTransaction in T. apply bind_ok in T as (? & _ & T). apply bind_ok in T as (? & _ & T). apply bind_ok in T as (? & _ & T). apply bind_ok in T as (? & _ & T).
  apply bind_ok in T as ([r' st'] & T & Hr'). apply Ok_inj in Hr'. apply (revalidate_ok _ _ cn_fast_hash _ checkRingSignature) in T; [|exact W]. destruct T as [(_ & _ & _ & _ & Ch & _)|(T & _)]; [|congruence].
  apply validate_ok in V; [|exact W]. destruct V as [(V & _)|(_ & _ & N)]; [done|]. exfalso. apply N. split; [|by split]. apply cheap_before; [apply Mo|apply E|exact Ch].
Qed.
Lemma raws_sizes : Forall (fun raw => Z.of_nat (length raw) <= m_maxTxSize currency) (transactions raw).
Proof using Pp Pi Mo.
  apply Forall_lookup. intros k rw Hr. destruct (Forall2_lookup_l _ _ _ _ _ (mo_raws _ _ _ _ _ _ Mo) Hr) as (tx & Ht & E).
  pose proof (raw_blob k rw tx Ht E) as Hb. destruct (chosen_valid k (received_as rw tx)) as (r & st & V & Vr); [apply lookup_zip_with_Some; eauto|].
  apply validate_ok in V; [|eapply blob_amounts; [exact currency|exact Hb|apply E]]. destruct V as [(_ & _ & _ & _ & A)|(V & _)]; [|congruence].
  destruct (acc_size _ _ _ _ (proj1 A)) as (blob & Eblob & Hl). simpl in Eblob, Hl. apply Ok_inj in Eblob as <-.
  pose proof (mo_median _ _ _ _ _ _ Mo). lia.
Qed.

Lemma mined_index : getBlockIndex found = height ch.
Proof using Pp Cp. destruct (pp_base _ _ _ _ _ _ _ Pp) as (limit & coins & s & _ & _ & _ & [E _ _ _ _ _]). unfold getBlockIndex. by rewrite (cp_base _ _ Cp), E. Qed.

Lemma mined_header : majorVersion (header found) = majorVersion (header b) /\ timestamp (header found) = timestamp (header b) /\ previousBlockHash (header found) = previousBlockHash (header b).
Proof using Cp. by destruct (cp_header _ _ Cp) as [n ->]. Qed.

Lemma mined_version : check_version currency cn_fast_hash found = rret ().
Proof using Pp Mo Cp.
  unfold check_version. rewrite mined_index. destruct mined_header as (-> & Et & _). rewrite (pp_version _ _ _ _ _ _ _ Pp), Z.eqb_refl. cbn [negb refuse_if rbind rret].
  rewrite <- (pp_version _ _ _ _ _ _ _ Pp). destruct (Z.leb_spec BLOCK_MAJOR_VERSION_2 (majorVersion (header b))) as [Hv|]; [|done].
  pose proof (pp_parent _ _ _ _ _ _ _ Pp) as Hp. rewrite template_parent_ok in Hp by done. injection Hp as Hp. destruct (cp_parent _ _ Cp Hv (eq_sym Hp)) as (root & Hr & Er).
  destruct (parent_written cn_fast_hash root (timestamp (header b)) (nonce (header found)) Hr) as (p & Ep & Lp); [apply Mo|]. unfold getParentBlockBinaryArray, makeParentBlockSerializer. rewrite Er, Et.
  change (BLOCK_MAJOR_VERSION_1 <? pb_majorVersion (tagged_parent root)) with false. rewrite andb_false_r. cbn [refuse_if rbind rret].
  rewrite Ep. okbind. cbn [lift rbind rret]. rewrite (proj2 (Z.ltb_ge _ _)) by done. done.
Qed.

Lemma mined_time : check_timestamp currency later found ch (height ch - 1) = rret ().
Proof using Pp Mo M P Cp.
  pose proof (main_height _ _ _ _ _ _ M) as H0. pose proof (main_bound _ _ _ _ _ _ M) as H1. unfold check_timestamp. destruct mined_header as (_ & -> & _).
  replace (u32 (height ch - 1 + 1)) with (height ch) by (rewrite Z.sub_add; symmetry; apply wrap_small; width_solve). destruct (mo_time _ _ _ _ _ _ Mo) as [_ T]. rewrite (proj2 (Z.ltb_ge _ _)) by done.
  cbn [refuse_if rbind rret]. destruct (timestamp_ok _ _ _ _ _ _ M P now _ (pp_time _ _ _ _ _ _ _ Pp)) as (l & -> & El). cbn [lift rbind rret]. by rewrite El.
Qed.

Lemma mined_base : check_base found (height ch - 1) = rret ().
Proof using Pp M P Cp.
  pose proof (main_height _ _ _ _ _ _ M) as H0. pose proof (tp_height _ _ P) as H1. unfold check_base. rewrite mined_index, (cp_base _ _ Cp).
  replace (u32 (height ch - 1 + 1)) with (height ch) by (rewrite Z.sub_add; symmetry; apply wrap_small; width_solve).
  destruct (pp_base _ _ _ _ _ _ _ Pp) as (limit & coins & s & _ & _ & _ & [E1 E2 E3 _ _ _]). rewrite E1, E2, E3. cbn [blockIndex]. rewrite Z.eqb_refl. cbn [negb refuse_if rbind rret].
  rewrite Z.eqb_refl. cbn [negb refuse_if rbind rret]. rewrite bool_decide_eq_true_2 by done. by rewrite andb_false_r.
Qed.

Abbreviation ARRIVED := (arrived (transactions raw) chosen).
Lemma scheduled_amounts : Forall (fun p => wf_amounts (tx_prefix (getTransaction p.1))) (imap (fun i tx => (tx, scheds i)) ARRIVED).
Proof using Pp Pi Mo.
  apply Forall_lookup. intros k p Hp. rewrite list_lookup_imap in Hp. apply fmap_Some in Hp as (tx & Ht & ->). simpl.
  destruct (arrived_lookup _ _ _ _ (mo_raws _ _ _ _ _ _ Mo) Ht) as (rw & tx0 & _ & H0 & -> & E). eapply blob_amounts; [exact currency| |apply E]. by eapply raw_blob.
Qed.
Lemma mined_transactions : exists fee st, TRANSACTIONS later ch median (height ch - 1) (imap (fun i tx => (tx, scheds i)) ARRIVED) ∅ 0 = Ok (inr (fee, st)) /\ fee = fl_fee f.
Proof using Pp Pi Mo.
  pose proof scheduled_amounts as W. destruct (pp_filled _ _ _ _ _ _ _ Pp) as (limit & maximum & _ & _ & A).
  pose proof (arrived_same _ _ (mo_raws _ _ _ _ _ _ Mo)) as Same.
  assert (exists fee st, TRANSACTIONS later ch median (height ch - 1) (imap (fun i tx => (tx, scheds i)) ARRIVED) ∅ 0 = Ok (inr (fee, st))) as (fee & st & E).
  { apply block_transactions_pass; [exact W| | |intros k _; apply not_elem_of_empty].
    - apply Forall_lookup. intros k p Hp. rewrite list_lookup_imap in Hp. apply fmap_Some in Hp as (tx & Ht & ->). simpl. exact (chosen_valid k tx Ht).
    - rewrite (imap_fst (fun i _ => scheds i) ARRIVED). destruct (ad_spent _ _ _ _ _ _ _ _ _ _ _ A) as (N & _). unfold chosen_images in N. rewrite <- Same in N.
      rewrite <- list_fmap_compose in N. exact N. }
  exists fee, st. split; [done|]. apply block_transactions_ok in E; [|done|width_solve].
  rewrite (imap_fst (fun i _ => scheds i) ARRIVED) in E. destruct E as (_ & _ & _ & -> & Acc).
  rewrite (ad_fee _ _ _ _ _ _ _ _ _ _ _ A). cbn [fl_fee]. rewrite !Z.add_0_l. change ((fun tx => getTransactionFee (getTransaction tx)) <$> chosen) with (getTransactionFee ∘ getTransaction <$> chosen).
  rewrite list_fmap_compose, <- Same, <- list_fmap_compose. unfold compose. symmetry. apply u64_sum_cong.
  eapply Forall_impl; [exact Acc|]. simpl. intros tx (state & Ch & _). destruct (acc_inputs _ _ _ _ Ch) as (ins & Ei & _). by apply (fee_of_keys _ ins).
Qed.

Lemma mined_size : exists s maximum, getObjectBinarySize serialize_Transaction (baseTransaction b) = Ok s /\ maxBlockCumulativeSize currency (height ch) = Ok maximum
  /\ 0 <= s /\ 0 <= transactionsSize f /\ s + transactionsSize f <= maximum < 2 ^ 32.
Proof using Pp Mo M P Sn.
  destruct (pp_filled _ _ _ _ _ _ _ Pp) as (limit & maximum & Hl & Hm & A). destruct (pp_base _ _ _ _ _ _ _ Pp) as (? & coins & s & _ & _ & Hs & _). exists s, maximum. split_and!; try done.
  - unfold getObjectBinarySize in Hs. apply bind_ok in Hs as (r & _ & Hs). injection Hs as <-. destruct r; [lia|done].
  - apply (adds_widths _ _ _ _ _ _ _ _ _ _ _ A).
  - destruct (limit_ok _ _ _ _ _ _ M P Sn limit Hl) as (_ & _ & L). destruct (tp_zone _ _ P) as [Z _]. pose proof (tp_reserve _ _ P) as R. pose proof (tp_maximum _ _ P _ Hm) as Rm.
    pose proof (mo_reserve _ _ _ _ _ _ Mo s Hs) as Rs. pose proof (ad_limit _ _ _ _ _ _ _ _ _ _ _ A) as Ad. cbn [transactionsSize] in Ad.
    assert (Hx : maximum < 2 ^ 32) by (eapply (sane_sizes _ Sn); [|exact Hm]; pose proof (main_height _ _ _ _ _ _ M); pose proof (main_bound _ _ _ _ _ _ M); width_solve).
    rewrite (wrap_small 64 (125 * (limit / 2))) in Ad by width_solve. assert (limit / 2 <= 125 * (limit / 2) / 100) by (apply Z.div_le_lower_bound; lia).
    assert (125 * (limit / 2) / 100 <= 125 * (limit / 2)) by (apply Z.div_le_upper_bound; lia).
    rewrite wrap_small in Ad by width_solve. lia.
  - eapply (sane_sizes _ Sn); [|exact Hm]. pose proof (main_height _ _ _ _ _ _ M). pose proof (main_bound _ _ _ _ _ _ M). width_solve.
Qed.

Lemma mined_reward minerReward : (exists reward change limit coins s, calculateCumulativeBlocksizeLimit currency c (height ch) = Ok limit /\ getAlreadyGeneratedCoins ch (height ch - 1) = Ok coins
    /\ getObjectBinarySize serialize_Transaction (baseTransaction b) = Ok s
    /\ getBlockReward currency (majorVersion (header b)) (limit / 2) (u64 (transactionsSize f + s)) coins (fl_fee f) (height ch) = Ok (Some (reward, change)) /\ minerReward = reward) ->
  forall s, getObjectBinarySize serialize_Transaction (baseTransaction b) = Ok s ->
  exists change, check_reward currency found ch (height ch - 1) (u64 (s + transactionsSize f)) (fl_fee f) minerReward = rret change.
Proof using Pp M P Sn Cp.
  intros (reward & change & limit & coins & s' & Hl & Hc & Hs' & Hr & ->) s Hs. rewrite Hs in Hs'. injection Hs' as <-. exists change. unfold check_reward. rewrite mined_index, Hc. cbn [lift rbind rret].
  destruct (limit_ok _ _ _ _ _ _ M P Sn limit Hl) as (-> & Ef & _). cbn [lift rbind rret]. destruct mined_header as (-> & _). rewrite <- (pp_version _ _ _ _ _ _ _ Pp) in Ef.
  rewrite <- (reward_effective _ _ _ _ _ _ _ _ Ef), (Z.add_comm s), Hr. cbn [lift rbind rret]. by rewrite Z.eqb_refl.
Qed.

Lemma mined_hashes : check_hashes cn_fast_hash found ARRIVED = rret ().
Proof using Pp Pi Mo Cp.
  unfold check_hashes. destruct (_ <=? getBlockIndex _); [|done]. rewrite (cp_hashes _ _ Cp).
  destruct (pp_filled _ _ _ _ _ _ _ Pp) as (limit & maximum & _ & _ & A). destruct (ad_hashes _ _ _ _ _ _ _ _ _ _ _ A) as (hs & Eh & Fh). cbn [fl_hashes app] in Eh. pose proof (chosen_distinct hs Fh) as Nd.
  rewrite (hashes_collected _ _ _ (arrived_hash _ _ _ _ (mo_raws _ _ _ _ _ _ Mo) Fh)). rewrite (pp_hashes _ _ _ _ _ _ _ Pp), Eh in *. rewrite bool_decide_eq_true_2 by done. cbn [negb refuse_if rbind rret lift].
  rewrite bool_decide_eq_true_2 by done. cbn [negb refuse_if rbind rret].
  assert (forallb (fun h => bool_decide (h ∈ hs)) hs = true) as -> by (apply forallb_forall; intros h Hh; by apply bool_decide_eq_true, list_elem_of_In).
  cbn [negb refuse_if rbind rret]. by rewrite bool_decide_eq_true_2.
Qed.

Lemma mined_extracted : extractTransactions currency (transactions raw) 0 = Ok (Some (ARRIVED, transactionsSize f)).
Proof using Pp Pi Mo.
  rewrite (extract_blobs currency _ _ (arrived_read _ _ (mo_raws _ _ _ _ _ _ Mo)) raws_sizes 0) by width_solve. destruct (pp_filled _ _ _ _ _ _ _ Pp) as (limit & maximum & _ & _ & A).
  destruct (ad_size _ _ _ _ _ _ _ _ _ _ _ A) as (blobs & Fb & ->). by rewrite (blobs_are_raws _ _ _ (mo_raws _ _ _ _ _ _ Mo) Fb).
Qed.

Lemma mined_checked : check_work checkpoints cn_fast_hash algorithm genesisBlockHash found d = rret () -> NoDup (block_hashes ch) -> (forall x k key, derive_public_key x k spend = Some key -> check_key key = true) ->
  exists a, check_block currency checkpoints scalarmultKey check_key cn_fast_hash cn_turtle_lite_slow_hash_v2 checkRingSignature algorithm genesisBlockHash threadCount later
    median ch found raw scheds = Ok (inr a) /\ getTransaction <$> a_transactions a = getTransaction <$> chosen /\ a_previousBlockIndex a = height ch - 1.
Proof using Pp Pi Mo M P Sn Cp.
  intros Work Nd Keys. pose proof (main_height _ _ _ _ _ _ M) as H0. pose proof (main_bound _ _ _ _ _ _ M) as H1. destruct mined_size as (s & maximum & Hs & Hm & S0 & S1 & S2).
  unfold check_block. rewrite mined_extracted. okbind. rewrite (cp_base _ _ Cp), Hs. okbind.
  rewrite (proj2 (Z.ltb_lt s MAX_U64)) by (unfold MAX_U64; lia). okbind.
  assert (exists sg ps, ch = sg :: ps) as (sg & ps & Ec) by (pose proof (am_some _ _ _ _ _ _ M); clear - H; destruct ch; [done|eauto]).
  assert (X : forall A (k : Segment -> outcome A), match ch with [] => Undefined "cache is null" | s0 :: _ => k s0 end = k sg) by (intros A k; by rewrite Ec).
  assert (Ei : cache_getBlockIndex sg (previousBlockHash (header found)) = Ok (height ch - 1)) by (eapply top_index_found; [exact Ec|apply M|apply M|done|destruct mined_header as (_ & _ & ->); apply Pp]).
  rewrite X, Ei. okbind. replace (u32 (height ch - 1 + 1)) with (height ch) by (rewrite Z.sub_add; symmetry; apply wrap_small; width_solve). rewrite Hm. okbind.
  cbn zeta. rewrite (proj2 (Z.ltb_ge maximum (u64 (s + transactionsSize f)))) by (rewrite wrap_small by width_solve; lia).
  destruct (pp_base _ _ _ _ _ _ _ Pp) as (limit & coins & s' & Hl & Hc & Hs' & [_ _ _ Pa Pk (reward & change & Hr & Ur & Sum)]).
  assert (Hv : validateBlock currency check_key cn_fast_hash later found ch = rret reward).
  { unfold validateBlock. transitivity (miner_outputs check_key 0 (outputs (tx_prefix (baseTransaction b)))).
    - etransitivity; [apply (X (error_code + Z)%type)|]. cbn beta. rewrite Ei. cbn [lift rbind rret]. rewrite mined_version. cbn [rbind rret]. rewrite mined_time. cbn [rbind rret]. rewrite mined_base. cbn [rbind rret]. by rewrite (cp_base _ _ Cp).
    - rewrite miner_outputs_accept; [by rewrite Sum, Z.add_0_l|lia|rewrite Sum; apply Ur|done|]. eapply Forall_impl; [exact Pk|]. simpl. intros o (x & k & Hk). by eapply Keys. }
  rewrite Hv. cbn [of_result rret]. destruct (pp_difficulty _ _ _ _ _ _ _ Pp) as [Hd Hd0]. rewrite (difficulty_ok _ _ _ _ _ _ M d Hd). okbind. rewrite (proj2 (Z.eqb_neq _ _) Hd0).
  rewrite mined_hashes. cbn [of_result rret]. destruct mined_transactions as (fee & st & -> & ->). okbind.
  destruct (mined_reward reward) with (s := s) as [change' Hrew]; [by exists reward, change, limit, coins, s'|done|]. rewrite Hrew. cbn [of_result rret].
  rewrite Work. cbn [of_result rret]. eexists. split; [reflexivity|]. split; [apply arrived_same, Mo|done].
Qed.
End accepted.


Lemma version_positive currency h : BLOCK_MAJOR_VERSION_1 <= getBlockMajorVersionForHeight currency h.
Proof.
  unfold getBlockMajorVersionForHeight, UpgradeManager_getBlockMajorVersion. destruct (list_find _ _) as [[i [v u]]|] eqn:E; [|done].
  apply list_find_Some in E as (E & _ & _). apply list_elem_of_lookup_2, elem_of_reverse in E. rewrite reverse_involutive in E. unfold upgrade_detectors in E. apply list_elem_of_fmap in E as (x & [= -> _] & Hx).
  assert (F : Forall (fun x => BLOCK_MAJOR_VERSION_1 <= x) [BLOCK_MAJOR_VERSION_2; BLOCK_MAJOR_VERSION_3; BLOCK_MAJOR_VERSION_4; BLOCK_MAJOR_VERSION_5; BLOCK_MAJOR_VERSION_6; BLOCK_MAJOR_VERSION_7]) by by_compute.
  rewrite Forall_forall in F. by apply F.
Qed.

(** Neither kind of template has a branch to other block chains. *)
Lemma parent_no_branch major pb : template_parent major = Ok (Some pb) -> blockchainBranch pb = [].
Proof.
  intros E. destruct (Z.leb_spec BLOCK_MAJOR_VERSION_2 major) as [H|H]; [rewrite template_parent_ok in E by done|unfold template_parent in E; rewrite (proj2 (Z.leb_gt _ _)) in E by done]; by injection E as <-.
Qed.

(** ** Properties *)

(** C8: A block template is one the node accepts itself.  Whatever transactions of the pool [getBlockTemplate] chooses, they are valid at the height
    of the block, spend every key image once and are those the template names, and of the core nothing but the pool changes.  A block that the mining program finds on the template, on any schedule of its
    threads, is accepted by the checks of [addBlock], as the block after the top one with exactly the chosen transactions: its
    version, parent block, timestamp, size, hashes and proof of work pass, its transactions pass one after the other, and its miner transaction, whose amount was computed for a size that it is itself a part of,
    pays exactly the reward of the block.  The conditions: the chain is outside the checkpoint zone, has no block hash twice and satisfies [template_params] (the
    reserve for the miner transaction is within the limits of a block, and leaving the genesis block out of the median of the sizes makes no difference); the mined block satisfies [found_on]:
    it arrives in time with the bytes the pool has for its transactions, its miner transaction is within the reserve (the template does not
    check that of a long extra nonce), no rule for transactions changes at its height (the template applies the rules of the block's height, [addBlock] those of the height before it), and
    the ring signatures and the proof of work of its transactions, which the template leaves to the pool, are valid on the chain. *)
Theorem template_accepted currency checkpoints scalarmultKey check_key cn_fast_hash cn_turtle_lite_slow_hash_v2 checkRingSignature algorithm genesisBlockHash threadCount
    generate_key_derivation derive_public_key now txkeys c root ch view spend extraNonce c' b d h :
  core_inv currency cn_fast_hash c root -> sane_currency currency -> main_cache c = Ok ch -> template_params currency ch -> NoDup (block_hashes ch) ->
  isInCheckpointZone checkpoints (height ch) = false ->
  (forall x k key, derive_public_key x k spend = Some key -> check_key key = true) ->
  getBlockTemplate currency checkpoints scalarmultKey check_key cn_fast_hash cn_turtle_lite_slow_hash_v2 generate_key_derivation derive_public_key now txkeys
    c view spend extraNonce = Ok (c', inr (b, d, h)) ->
  (forall r, getMerkleRoot cn_fast_hash b = Ok r -> pod 32 r) ->
  h = height ch /\ (exists w, c' = set_pool w c) /\ exists chosen,
    chosen `sublist_of` (let '(r, z) := getPoolTransactionsForBlockTemplate (transactionPool (core_pool c)) in r ++ z)
    /\ Forall2 (fun tx hash => getTransactionHash cn_fast_hash tx = Ok hash) chosen (transactionHashes b)
    /\ NoDup (chosen_images chosen)
    /\ Forall (fun tx => validateBlockTemplateTransaction currency checkpoints scalarmultKey check_key cn_turtle_lite_slow_hash_v2 c tx (height ch) = Ok true) chosen
    /\ forall later raw scheds config last b1 threads start schedule miner found miner',
      found_on currency checkpoints scalarmultKey check_key cn_fast_hash cn_turtle_lite_slow_hash_v2 checkRingSignature threadCount ch chosen b (blockMedianSize c) later raw scheds ->
      firstBlockTimestamp config = 0 -> adjustBlockTemplate cn_fast_hash config last b = Ok b1 ->
      mine cn_fast_hash algorithm b1 d threads start schedule miner = Ok (Some (found, miner')) ->
      exists a, check_block currency checkpoints scalarmultKey check_key cn_fast_hash cn_turtle_lite_slow_hash_v2 checkRingSignature algorithm genesisBlockHash threadCount later
        (blockMedianSize c) ch found raw scheds = Ok (inr a) /\ getTransaction <$> a_transactions a = getTransaction <$> chosen /\ a_previousBlockIndex a = height ch - 1.
Proof.
  intros I Sn Em P Nd Cz Keys E Hr. destruct (main_exists _ _ _ _ I) as (m & ids & ch' & M). rewrite (am_cache _ _ _ _ _ _ M) in Em. apply Ok_inj in Em as ->.
  apply (template_ok _ _ _ _ _ _ _ _ _ _ _ _ _ _ M P) in E as (-> & chosen & f & -> & Pp). pose proof (pp_filled _ _ _ _ _ _ _ _ _ _ _ _ _ _ _ Pp) as (limit & maximum & _ & _ & A).
  split; [done|]. split; [apply A|]. exists chosen. split_and!; [apply Pp|by eapply prepared_hashes|apply A|apply A|]. intros later raw scheds config last b1 threads start schedule miner found miner' F Hc Ha Hm.
  pose proof (mined_completes _ _ _ _ _ _ _ _ _ _ _ _ _ Hr Hc Ha Hm) as Cp. eapply mined_checked; try done; [apply I|]. unfold check_work. erewrite mined_index by done. rewrite Cz.
  assert (checkProofOfWork cn_fast_hash algorithm genesisBlockHash found d = Ok true) as ->; [|done].
  destruct (mine_ok _ _ _ _ _ _ _ _ _ _ Hm) as (W & i & Hi & k & Hk & ->). apply adjusted_ok in Ha as (b0 & t & Ht & -> & _).
  eapply (mined_work _ _ genesisBlockHash b b0 _ t d Hr Ht); [eapply parent_no_branch, Pp| |exact W]. rewrite (pp_version _ _ _ _ _ _ _ _ _ _ _ _ _ _ _ Pp). apply version_positive.
Qed.

(** ** Samples: a node whose pool has a transaction that spends the output of the genesis block *)

Definition rich0 : BlockTemplate :=
  {| header := header block0; parentBlock := parentBlock block0; transactionHashes := [];
     baseTransaction := {| tx_prefix := {| version := 1; unlockTime := 0; inputs := [InBase {| blockIndex := 0 |}];
       outputs := [{| out_amount := 1000000; target := TargetKey {| ko_key := replicate 32 8 |} |}]; extra := [] |}; signatures := [] |} |}.
Definition rich1 : BlockTemplate := mined_on rich0 1 2001 1192092895.
Definition spending : Transaction :=
  {| tx_prefix := {| version := 1; unlockTime := 0; inputs := [InKey {| ki_amount := 1000000; outputIndexes := [0]; keyImage := replicate 32 1 |}];
       outputs := [{| out_amount := 900000; target := TargetKey {| ko_key := replicate 32 9 |} |}]; extra := [] |}; signatures := [[replicate 64 5]] |}.
Definition spending_blob : bytes := match toBinaryArray serialize_Transaction spending with Ok l => l | _ => [] end.
Definition spending_schedule : list action := [ActAdd; ActTake; ActCheck 0; ActFinish 0; ActCollect].

Definition rich_core0 : Core := core_of (start test_currency toy_hash 86400 rich0).
Definition rich_core1 : Core := core_after (toy_add rich_core0 rich1).
Definition spent_into : outcome (option PoolError * Core) :=
  addTransactionToPool test_currency ∅ toy_scalarmult toy_check_key toy_hash toy_hash toy_ring 2 2500 rich_core1 spending_blob spending_schedule.
Definition rich_core2 : Core := match spent_into with Ok (_, c) => c | _ => rich_core1 end.
Definition rich_chain : Cache := match main_cache rich_core2 with Ok ch => ch | _ => [] end.

Lemma rich0_genesis : genesis_ok test_currency toy_hash rich0.
Proof.
  split; [by_compute| |by_compute|by_compute]. intros blob E. assert (blob = hash_of (Ok blob)) as -> by done. rewrite <- E. clear. split; [by_compute|].
  vm_compute. reflexivity.
Qed.
Lemma rich_reachable : TOY reachable rich0 rich_core2.
Proof.
  exists 86400, rich_core0. split; [vm_compute; reflexivity|]. apply (rtc_l _ _ rich_core1); [|apply rtc_once].
  - apply (toy_step rich_core0 rich1); vm_compute; reflexivity.
  - apply (TOY step_transaction 2500 rich_core1 spending_blob spending_schedule None); [by_compute|vm_compute; reflexivity].
Qed.
Lemma rich_inv : core_inv test_currency toy_hash rich_core2 0%nat.
Proof. exact (TOY reachable_inv test_currency_sane rich0 rich0_genesis rich_core2 rich_reachable). Qed.
Lemma rich_main : main_cache rich_core2 = Ok rich_chain.
Proof. vm_compute. reflexivity. Qed.
Lemma rich_pool : (let '(r, z) := getPoolTransactionsForBlockTemplate (transactionPool (core_pool rich_core2)) in r ++ z) = [CachedTransaction_of spending].
Proof. vm_compute. reflexivity. Qed.

Definition toy_derivation (p : PublicKey) (s : SecretKey) : option bytes := Some (p ++ s).
Definition toy_derive (x : bytes) (k : Z) (p : PublicKey) : option PublicKey := Some p.
Definition toy_keys (n : nat) : KeyPair := {| publicKey := replicate 32 3; secretKey := replicate 32 (Z.of_nat n) |}.
Definition template2 : outcome (Core * (string + BlockTemplate * Z * Z)) :=
  getBlockTemplate test_currency ∅ toy_scalarmult toy_check_key toy_hash toy_hash toy_derivation toy_derive 3000 toy_keys rich_core2 (replicate 32 1) (replicate 32 2) [7].
Definition prepared2 : BlockTemplate := match template2 with Ok (_, inr (b, _, _)) => b | _ => block0 end.
Definition after2 : Core := match template2 with Ok (c, _) => c | _ => rich_core2 end.
Lemma template2_ok : template2 = Ok (after2, inr (prepared2, 10000, 2)).
Proof. vm_compute. reflexivity. Qed.
Lemma params2 : template_params test_currency rich_chain.
Proof.
  split; [by_compute|by_compute| |by_compute| |by_compute].
  - cbn zeta. split; [vm_compute; discriminate|right]. vm_compute. repeat constructor; discriminate.
  - intros m E. vm_compute in E. injection E as <-. by_compute.
Qed.

Definition adjusted2 : BlockTemplate := match adjustBlockTemplate toy_hash sample_config 0 prepared2 with Ok b => b | _ => prepared2 end.
Definition schedule2 : list mining_action := Step <$> [0; 0; 1; 1; 1; 0; 0; 0; 1; 1; 1; 0; 0; 0]%nat.
Definition mined2 : outcome (option (BlockTemplate * Miner)) := mine toy_hash sum_algorithm adjusted2 10000 2 8 schedule2 idle_miner.
Definition found2 : BlockTemplate := match mined2 with Ok (Some (b, _)) => b | _ => prepared2 end.
Definition miner2 : Miner := match mined2 with Ok (Some (_, m)) => m | _ => idle_miner end.
Definition raw_found2 : RawBlock := raw_of found2 [spending_blob].

Lemma found2_on : found_on test_currency ∅ toy_scalarmult toy_check_key toy_hash toy_hash toy_ring 2 rich_chain [CachedTransaction_of spending] prepared2
  (blockMedianSize rich_core2) 3100 raw_found2 (fun _ => spending_schedule).
Proof.
  split.
  - by_compute.
  - split; [vm_compute; split; [discriminate|reflexivity]|vm_compute; discriminate].
  - constructor; [|constructor]. split; vm_compute; reflexivity.
  - vm_compute. discriminate.
  - intros s E. vm_compute in E. injection E as <-. vm_compute. discriminate.
  - constructor; [|constructor]. split; [intros H; exfalso; revert H; vm_compute; by intros []|].
    intros _. eexists. split; [vm_compute; reflexivity|]. intros [|k] i E; [|destruct k; discriminate E]. injection E as <-. vm_compute. reflexivity.
  - intros [|i] tx E; [|destruct i; discriminate E]. injection E as <-. eexists. vm_compute. reflexivity.
Qed.

Lemma template_accepted_witness : length (outputs (tx_prefix (baseTransaction prepared2))) = 10%nat /\ m_hash_count miner2 = 3
  /\ exists a, check_block test_currency ∅ toy_scalarmult toy_check_key toy_hash toy_hash toy_ring sum_algorithm [] 2 3100 (blockMedianSize rich_core2) rich_chain found2 raw_found2 (fun _ => spending_schedule) = Ok (inr a)
    /\ getTransaction <$> a_transactions a = [spending] /\ a_previousBlockIndex a = height rich_chain - 1.
Proof.
  split; [vm_compute; reflexivity|]. split; [vm_compute; reflexivity|].
  destruct (template_accepted test_currency ∅ toy_scalarmult toy_check_key toy_hash toy_hash toy_ring sum_algorithm [] 2 toy_derivation toy_derive 3000 toy_keys rich_core2 0%nat rich_chain
    (replicate 32 1) (replicate 32 2) [7] after2 prepared2 10000 2 rich_inv test_currency_sane rich_main params2) as (_ & _ & chosen & Sub & Fh & _ & _ & Acc).
  - by_compute.
  - reflexivity.
  - done.
  - exact template2_ok.
  - intros r E. vm_compute in E. injection E as <-. by_compute.
  - assert (chosen = [CachedTransaction_of spending]) as ->.
    { apply Forall2_length in Fh. rewrite rich_pool in Sub. apply sublist_cons_r in Sub as [Sub|(k & -> & Sub)]; apply sublist_nil_r in Sub as ->; [|done].
      vm_compute in Fh. discriminate Fh. }
    apply (Acc 3100 raw_found2 (fun _ => spending_schedule) sample_config 0 adjusted2 2%nat 8 schedule2 idle_miner found2 miner2);
      [exact found2_on|reflexivity|vm_compute; reflexivity|vm_compute; reflexivity].
Defined.
