(* ===== verification/WalletNode.v ===== *)
(** * WalletNode: the wallet and the daemon together

    The wallet of [WalletSync.v] against the core of [CoreQueries.v]: synchronising from a daemon leads the wallet to the daemon's main
    chain. *)

From Stdlib Require Import ZArith Lia.
From stdpp Require Import base tactics list numbers strings gmap fin_maps fin_sets sorting.
From S2P Require Import Prelude Stream StringTools Config Types Serializer TxSerialization BlockSerialization Currency Validate Pool BlockchainCache CacheChain CacheQueries BlockValidation SegmentTree Ledger Core CoreInvariant CoreReach WalletUtil Addresses SubWallet SubWallets WalletInvariant WalletSync WalletChain ValidateParameters ParseExtra Transfer TransferRing TransferMade TransferSend TransferExtra CoreQueries CoreSync.

Local Open Scope Z_scope.

#[local] Arguments sumZ : simpl never.

(** ** Synchronising *)

(** Every block the wallet has scanned is on the chain. *)
Definition on_chain (ch : Cache) (c : list scanned) : Prop :=
  Forall (fun x => 0 <= height_of x /\ block_hashes ch !! Z.to_nat (height_of x) = Some (wb_blockHash x.1)) c.

(** The blocks [xs] are completed one after the other, each with the inputs found in it. *)
Inductive completes (skip : bool) : list scanned -> BlockDownloader -> SubWallets -> Z -> list scanned -> BlockDownloader -> SubWallets -> Z -> list scanned -> Prop :=
| completes_nil d w pruned c : completes skip [] d w pruned c d w pruned c
| completes_cons b ours xs d w pruned c d1 w1 d' w' pruned' c' : chain_wf (next_chain d c (b, ours)) -> pruned < wb_blockHeight b ->
    Forall (fun x => is_Some (m_subWallets w !! x.1)) ours -> completeBlockProcessing skip b ours (d, w) = Ok (d1, w1) ->
    completes skip xs d1 w1 (next_pruned pruned (wb_blockHeight b)) (next_chain d c (b, ours)) d' w' pruned' c' ->
    completes skip ((b, ours) :: xs) d w pruned c d' w' pruned' c'.

Lemma complete_height skip b ours d w d' w' : completeBlockProcessing skip b ours (d, w) = Ok (d', w') -> getHeight d' = wb_blockHeight b.
Proof.
  intros E. unfold completeBlockProcessing in E. cbv zeta in E. inv_ok. simplify_eq. by eapply getHeight_drop.
Qed.

Section sync.
Context (skip : bool) (ch : Cache).

(** The blocks are those of the chain from height [h] on. *)
Definition blocks_from (h : Z) (xs : list scanned) : Prop :=
  forall j x, xs !! j = Some x -> height_of x = h + Z.of_nat j /\ block_hashes ch !! (Z.to_nat h + j)%nat = Some (wb_blockHash x.1).
Lemma blocks_from_cons h x xs : 0 <= h -> blocks_from h (x :: xs) -> height_of x = h /\ block_hashes ch !! Z.to_nat h = Some (wb_blockHash x.1) /\ blocks_from (h + 1) xs.
Proof.
  intros Hh B. destruct (B 0%nat x eq_refl) as [E1 E2]. split_and!; [lia|by rewrite Nat.add_0_r in E2|]. intros j y Hy. destruct (B (S j) y Hy) as [F1 F2].
  split; [lia|]. replace (Z.to_nat (h + 1) + j)%nat with (Z.to_nat h + S j)%nat by lia. done.
Qed.

Lemma completes_on xs d w pruned c d' w' pruned' c' : completes skip xs d w pruned c d' w' pruned' c' -> forall h, 0 <= h -> blocks_from h xs ->
  follows skip d w pruned c -> on_chain ch c -> Forall (fun x => height_of x < h) c -> getHeight d < h ->
  follows skip d' w' pruned' c' /\ on_chain ch c' /\ Forall (fun x => height_of x < h + Z.of_nat (length xs)) c' /\ getHeight d' < h + Z.of_nat (length xs).
Proof.
  induction 1 as [d w pruned c|b ours xs d w pruned c d1 w1 d' w' pruned' c' W Hp Hk E C IH]; intros h Hh B F O L G.
  { simpl. rewrite Z.add_0_r. done. }
  apply blocks_from_cons in B as (Eh & Ex & B); [|done]. simpl in Ex. unfold height_of in Eh. simpl in Eh. pose proof (complete_height _ _ _ _ _ _ _ E) as Eg.
  assert (En : next_chain d c (b, ours) = c ++ [(b, ours)]). { unfold next_chain, height_of. simpl. rewrite Eh, (proj2 (Z.leb_gt h (getHeight d))) by lia. done. }
  destruct (IH (h + 1)) as (F' & O' & L' & G'); [lia|done|by eapply follows_block|..].
  - rewrite En. apply Forall_app. split; [done|]. constructor; [|done]. unfold height_of. simpl. rewrite Eh. done.
  - rewrite En. apply Forall_app. split; [eapply Forall_impl; [exact L|]; simpl; lia|]. constructor; [|done]. unfold height_of. simpl. lia.
  - lia.
  - simpl length. replace (h + Z.of_nat (S (length xs))) with (h + 1 + Z.of_nat (length xs)) by lia. done.
Qed.

(** The first block may be the end of a fork. *)
Lemma completes_fork xs d w pruned c d' w' pruned' c' h : completes skip xs d w pruned c d' w' pruned' c' -> 0 < h -> blocks_from h xs -> xs <> [] ->
  follows skip d w pruned c -> on_chain ch (cut h c) -> Forall (fun x => height_of x <= getHeight d) c ->
  follows skip d' w' pruned' c' /\ on_chain ch c' /\ Forall (fun x => height_of x < h + Z.of_nat (length xs)) c'.
Proof.
  intros C Hh B Hne F O L. destruct C as [|b ours xs d w pruned c d1 w1 d' w' pruned' c' W Hp Hk E C]; [done|].
  apply blocks_from_cons in B as (Eh & Ex & B); [|lia]. simpl in Ex. unfold height_of in Eh. simpl in Eh. pose proof (complete_height _ _ _ _ _ _ _ E) as Eg.
  assert (En : next_chain d c (b, ours) = cut h c ++ [(b, ours)]).
  { unfold next_chain, height_of. simpl. rewrite Eh, (proj2 (Z.eqb_neq h 0)) by lia. simpl. rewrite andb_true_r. destruct (Z.leb_spec h (getHeight d)); [done|].
    f_equal. symmetry. apply filter_all. eapply Forall_impl; [exact L|]. simpl. lia. }
  destruct (completes_on _ _ _ _ _ _ _ _ _ C (h + 1)) as (F' & O' & L' & _); [lia|done|by eapply follows_block|..].
  - rewrite En. apply Forall_app. split; [done|]. constructor; [|done]. unfold height_of. simpl. rewrite Eh. split; [lia|done].
  - rewrite En. apply Forall_app. split; [|constructor; [unfold height_of; simpl; lia|done]]. apply Forall_forall. intros x [Hx _]%list_elem_of_filter. lia.
  - lia.
  - split_and!; [done|done|]. simpl length. eapply Forall_impl; [exact L'|]. simpl. lia.
Qed.
End sync.

Lemma shared_fun ch known k k' : NoDup (block_hashes ch) -> shared ch known k -> shared ch known k' -> k = k'.
Proof.
  intros N [[-> ->]|(Hk & l1 & h & l2 & E & F & Hh)] [[E' ->]|(Hk' & l1' & h' & l2' & E' & F' & Hh')]; try done.
  - by destruct l1'.
  - subst. by destruct l1.
  - assert (h = h') as <-; [|pose proof (NoDup_lookup _ _ _ _ N Hh Hh'); lia]. subst known. revert l1' E' F'. induction l1 as [|x l1 IH]; intros l1' E' F'.
    + destruct l1' as [|y l1']; [by injection E'|]. injection E' as <- _. inversion F' as [|? ? Hy]; subst. destruct Hy. by eapply list_elem_of_lookup_2.
    + inversion F as [|? ? Hx F0]; subst. destruct l1' as [|y l1'].
      * injection E' as -> _. destruct Hx. by eapply list_elem_of_lookup_2.
      * injection E' as -> E'. inversion F'; subst. by eapply IH.
Qed.

(** The daemon, answering from its core. *)
Definition core_answers (cn_fast_hash : bytes -> Hash) (core : Core) (blockCount : Z) (known : list Hash) (startHeight startTimestamp : Z) : SyncData :=
  match getWalletSyncData cn_fast_hash core known startHeight startTimestamp blockCount false with
  | Ok (Some (blocks, top)) => (true, blocks, top)
  | _ => (false, [], None)
  end.

Lemma with_index_blocks l : forall i, (with_index i l).*1 = l.
Proof. induction l as [|b l IH]; intros i; [done|]. simpl. by rewrite IH. Qed.

Lemma download_ok count sync d w d' w' : m_storedBlocks d = [] -> m_startTimestamp d = 0 -> downloadBlocks count sync d w = (true, d', w') ->
  w' = w /\ getHeight d' = getHeight d /\ exists blocks top, sync (getBlockCheckpoints d) (m_startHeight d) 0 = (true, blocks, top) /\ blocks <> [] /\ (m_storedBlocks d').*1 = blocks.
Proof.
  intros Hs Ht. unfold downloadBlocks. rewrite Ht, Hs. destruct (count <? getHeight d); [done|]. destruct (sync _ _ _) as [[[] blocks] top]; [|done].
  destruct blocks as [|b blocks]; [by repeat case_match|]. intros E.
  assert (E' : d' = set_stored ([] ++ with_index (m_arrivalIndex d) (b :: blocks)) (u32 (m_arrivalIndex d + Z.of_nat (length (b :: blocks)))) d /\ w' = w).
  { change (negb (0 =? 0)) with false in E. cbv iota beta in E. rewrite Hs in E. by injection E as <- <-. }
  destruct E' as [-> ->]. split_and!; [done|done|]. exists (b :: blocks), top. split_and!; [done|done|]. apply (with_index_blocks (b :: blocks)).
Qed.

(** ** Chains that share a block *)

(** No hash collision among these blocks: two of them with the same hash have the same height and name the same block below them. *)
Definition hashes_name_blocks (cn_fast_hash : bytes -> Hash) (rs : list RawBlock) : Prop :=
  forall r r' b b' h, r ∈ rs -> r' ∈ rs -> raw_block cn_fast_hash r = Ok b -> raw_block cn_fast_hash r' = Ok b' ->
    getBlockHash cn_fast_hash b = Ok h -> getBlockHash cn_fast_hash b' = Ok h ->
    getBlockIndex b = getBlockIndex b' /\ previousBlockHash (header b) = previousBlockHash (header b').

Section shared_prefix.
Context (currency : Currency) (cn_fast_hash : bytes -> Hash).

Lemma hash_block ch i h : ledger currency cn_fast_hash ch -> block_hashes ch !! i = Some h -> exists r b, r ∈ all_raw ch /\ raw_block cn_fast_hash r = Ok b
  /\ getBlockHash cn_fast_hash b = Ok h /\ getBlockIndex b = Z.of_nat i /\ forall j, i = S j -> block_hashes ch !! j = Some (previousBlockHash (header b)).
Proof.
  intros L Hh. pose proof (l_flat _ _ _ L) as F. unfold block_hashes in *. rewrite list_lookup_fmap in Hh. apply fmap_Some in Hh as (bi & Hb & ->).
  destruct (lookup_lt_is_Some_2 (all_raw ch) i) as [r Hr]; [rewrite (f_length _ _ _ _ F); by eapply lookup_lt_Some|].
  destruct (f_linked _ _ _ _ F _ _ _ Hr Hb) as (b & Rb & Rh & _ & Ri & Rl). exists r, b. split_and!; [by eapply list_elem_of_lookup_2|done..|].
  intros j ->. destruct (lookup_lt_is_Some_2 (all_blocks ch) j) as [bj Hj]; [pose proof (lookup_lt_Some _ _ _ Hb); lia|].
  by rewrite list_lookup_fmap, Hj, (Rl j bj eq_refl Hj).
Qed.

Section two_chains.
Context (ch0 ch : Cache) (L0 : ledger currency cn_fast_hash ch0) (L : ledger currency cn_fast_hash ch).
Context (N : hashes_name_blocks cn_fast_hash (all_raw ch0 ++ all_raw ch)).

(** A hash that is on both chains is at the same height, and so is the one below it. *)
Lemma same_block i k h : block_hashes ch0 !! i = Some h -> block_hashes ch !! k = Some h ->
  i = k /\ forall j, k = S j -> exists p, block_hashes ch0 !! j = Some p /\ block_hashes ch !! j = Some p.
Proof using L0 L N.
  intros Hi Hk. destruct (hash_block ch0 i h L0 Hi) as (r & b & Hr & Rb & Rh & Ri & Rl). destruct (hash_block ch _ h L Hk) as (r' & b' & Hr' & Rb' & Rh' & Ri' & Rl').
  destruct (N r r' b b' h) as [Ei Ep]; [set_solver|set_solver|done..|]. assert (i = k) as -> by lia. split; [done|].
  intros j Ej. exists (previousBlockHash (header b)). split; [by apply Rl|]. rewrite Ep. by apply Rl'.
Qed.
(** Below it the chains are the same. *)
Lemma shared_prefix k : forall i h, block_hashes ch0 !! i = Some h -> block_hashes ch !! k = Some h ->
  forall j, (j <= k)%nat -> block_hashes ch0 !! j = block_hashes ch !! j.
Proof using L0 L N.
  induction k as [|k IH]; intros i h Hi Hk j Hj; destruct (same_block _ _ _ Hi Hk) as [-> Hp]; [by assert (j = 0%nat) as -> by lia; congruence|].
  destruct (decide (j = S k)) as [->|]; [congruence|]. destruct (Hp k eq_refl) as (p & H1 & H2). apply (IH k p); [done|done|lia].
Qed.

(** The blocks of the one chain up to a block both share are on the other. *)
Lemma on_chain_shared c k x : 0 <= k -> on_chain ch0 c -> x ∈ c -> block_hashes ch !! Z.to_nat k = Some (wb_blockHash x.1) -> on_chain ch (cut (k + 1) c).
Proof using L0 L N.
  intros Hk O Hx Hh. unfold on_chain in *. rewrite Forall_forall in O |- *. destruct (O x Hx) as [_ Hx0].
  intros y [Hy Hc]%list_elem_of_filter. destruct (O y Hc) as [H0 Hy0]. split; [done|]. rewrite <- (shared_prefix _ _ _ Hx0 Hh) by lia. done.
Qed.
End two_chains.

Lemma hashes_distinct ch rs : ledger currency cn_fast_hash ch -> hashes_name_blocks cn_fast_hash rs -> all_raw ch ⊆ rs -> NoDup (block_hashes ch).
Proof.
  intros L N Hs. apply NoDup_alt. intros i j h Hi Hj. destruct (hash_block ch i h L Hi) as (r & b & Hr & Rb & Rh & Ri & _).
  destruct (hash_block ch j h L Hj) as (r' & b' & Hr' & Rb' & Rh' & Rj & _). destruct (N r r' b b' h) as [E _]; [set_solver|set_solver|done..|]. lia.
Qed.

End shared_prefix.

Lemma main_ledger currency cn_fast_hash core root ch : core_inv currency cn_fast_hash core root -> main_cache core = Ok ch -> ledger currency cn_fast_hash ch.
Proof.
  intros I E. destruct (main_exists _ _ _ _ I) as (m & segs & ch' & M). pose proof (am_cache _ _ _ _ _ _ M) as E'. rewrite E in E'. apply Ok_inj in E' as ->.
  exact (am_ledger _ _ _ _ _ _ M).
Qed.


(** ** Samples *)

(** Two chains above [rival] that overtake each other: [chain_a], with [block_a2], then [chain_b], with [rival2] and [block_b3], then
    [chain_a] again, with [block_a3] and [block_a4]. *)
Definition with_minor (v : Z) (b : BlockTemplate) : BlockTemplate :=
  {| header := {| majorVersion := majorVersion (header b); minorVersion := v; nonce := nonce (header b); timestamp := timestamp (header b);
                  previousBlockHash := previousBlockHash (header b) |};
     parentBlock := parentBlock b; baseTransaction := baseTransaction b; transactionHashes := transactionHashes b |}.
Definition block_a2 : BlockTemplate := tagged (with_minor 1 (mined_on rival 2 2004 1192092753)).
Definition block_a3 : BlockTemplate := tagged (mined_on block_a2 3 2005 1192092611).
Definition block_a4 : BlockTemplate := tagged (mined_on block_a3 4 2006 1192092469).
Definition block_b3 : BlockTemplate := tagged (mined_on rival2 3 2005 1192092611).
Definition core_a : Core := core_after (toy_add core2 block_a2).
Definition core_ab : Core := core_after (toy_add core_a rival2).
Definition core_b : Core := core_after (toy_add core_ab block_b3).
Definition core_ba : Core := core_after (toy_add core_b block_a3).
Definition core_a' : Core := core_after (toy_add core_ba block_a4).
Definition main_of (c : Core) : Cache := match main_cache c with Ok ch => ch | _ => [] end.
Definition chain_a : Cache := main_of core_a.
Definition chain_b : Cache := main_of core_b.
Definition chain_a' : Cache := main_of core_a'.

Lemma toy_next c c' : TOY reachable block0 c -> TOY core_step c c' -> TOY reachable block0 c'.
Proof. intros (now & c0 & E & R) St. exists now, c0. split; [done|]. by eapply rtc_r. Qed.
Lemma core_a_reachable : TOY reachable block0 core_a.
Proof. apply (toy_next core2); [exact core2_reachable|]. apply (toy_step core2 block_a2); vm_compute; reflexivity. Qed.
Lemma core_ab_reachable : TOY reachable block0 core_ab.
Proof. apply (toy_next core_a); [exact core_a_reachable|]. apply (toy_step core_a rival2); vm_compute; reflexivity. Qed.
Lemma core_b_reachable : TOY reachable block0 core_b.
Proof. apply (toy_next core_ab); [exact core_ab_reachable|]. apply (toy_step core_ab block_b3); vm_compute; reflexivity. Qed.
Lemma core_ba_reachable : TOY reachable block0 core_ba.
Proof. apply (toy_next core_b); [exact core_b_reachable|]. apply (toy_step core_b block_a3); vm_compute; reflexivity. Qed.
Lemma core_a'_reachable : TOY reachable block0 core_a'.
Proof. apply (toy_next core_ba); [exact core_ba_reachable|]. apply (toy_step core_ba block_a4); vm_compute; reflexivity. Qed.
Lemma core_a_inv : core_inv test_currency toy_hash core_a 0%nat.
Proof. exact (TOY reachable_inv test_currency_sane block0 block0_genesis core_a core_a_reachable). Qed.
Lemma core_b_inv : core_inv test_currency toy_hash core_b 0%nat.
Proof. exact (TOY reachable_inv test_currency_sane block0 block0_genesis core_b core_b_reachable). Qed.
Lemma main_a : main_cache core_a = Ok chain_a.
Proof. vm_compute. reflexivity. Qed.
Lemma main_b : main_cache core_b = Ok chain_b.
Proof. vm_compute. reflexivity. Qed.

(** A list of raw blocks whose hashes name them, checked. *)
Definition block_facts (r : RawBlock) : option (Hash * (Z * Hash)) :=
  match raw_block toy_hash r with
  | Ok b => match getBlockHash toy_hash b with Ok h => Some (h, (getBlockIndex b, previousBlockHash (header b))) | _ => None end
  | _ => None
  end.
Lemma hashes_checked rs : Forall (fun p => Forall (fun q => p.1 = q.1 -> p.2 = q.2) (omap block_facts rs)) (omap block_facts rs) -> hashes_name_blocks toy_hash rs.
Proof.
  intros F r r' b b' h Hr Hr' Eb Eb' Eh Eh'. assert (G : forall s t, s ∈ rs -> raw_block toy_hash s = Ok t -> getBlockHash toy_hash t = Ok h ->
    (h, (getBlockIndex t, previousBlockHash (header t))) ∈ omap block_facts rs).
  { intros s t Hs Et Ht. apply list_elem_of_omap. exists s. split; [done|]. unfold block_facts. by rewrite Et, Ht. }
  rewrite Forall_forall in F. specialize (F _ (G r b Hr Eb Eh)). rewrite Forall_forall in F. specialize (F _ (G r' b' Hr' Eb' Eh') eq_refl).
  simpl in F. by injection F.
Qed.
Lemma hashes_ab : hashes_name_blocks toy_hash (all_raw chain_a ++ all_raw chain_b).
Proof. apply hashes_checked. by_compute. Qed.

(** A wallet that has scanned the blocks of [chain_a] from height 1 on, then asks the node at [core_b]. *)
Definition blocks_of (core : Core) : list WalletBlockInfo := match getWalletSyncData toy_hash core [] 0 0 0 false with Ok (Some (b, _)) => b | _ => [] end.
Definition no_block : WalletBlockInfo := sample_block 0 [] None [].
Definition wallet_r1 : WalletBlockInfo := default no_block (blocks_of core_a !! 1%nat).
Definition wallet_a2 : WalletBlockInfo := default no_block (blocks_of core_a !! 2%nat).
Definition wallet_b2 : WalletBlockInfo := default no_block (blocks_of core_b !! 2%nat).
Definition wallet_b3 : WalletBlockInfo := default no_block (blocks_of core_b !! 3%nat).
Definition complete (b : WalletBlockInfo) (st : BlockDownloader * SubWallets) : BlockDownloader * SubWallets := ok_or st (completeBlockProcessing false b [] st).
Definition download (core : Core) (st : BlockDownloader * SubWallets) : BlockDownloader * SubWallets :=
  let '(_, d, w) := downloadBlocks 100 (core_answers toy_hash core 0) st.1 st.2 in (d, w).
Definition joining_0 : BlockDownloader * SubWallets := (set_stored (with_index 0 [wallet_r1; wallet_a2]) 2 (new_BlockDownloader 1 0), wallet_1).
Definition joining_1 := complete wallet_r1 joining_0.
Definition joining_2 := complete wallet_a2 joining_1.
Definition joining_3 := download core_b joining_2.
Definition joining_4 := complete wallet_b2 joining_3.
Definition joining_5 := complete wallet_b3 joining_4.
Definition scanned_1 : list scanned := [(wallet_r1, [])].
Definition scanned_a : list scanned := [(wallet_r1, []); (wallet_a2, [])].
Definition scanned_b2 : list scanned := [(wallet_r1, []); (wallet_b2, [])].
Definition scanned_b : list scanned := [(wallet_r1, []); (wallet_b2, []); (wallet_b3, [])].

Lemma scanned_1_wf : chain_wf scanned_1.
Proof. apply (chain_wf_snoc [] (wallet_r1, [])); [apply chain_wf_nil|by_compute..]. Qed.
Lemma scanned_a_wf : chain_wf scanned_a.
Proof. apply (chain_wf_snoc scanned_1 (wallet_a2, [])); [apply scanned_1_wf|by_compute..]. Qed.
Lemma scanned_b2_wf : chain_wf scanned_b2.
Proof. apply (chain_wf_snoc scanned_1 (wallet_b2, [])); [apply scanned_1_wf|by_compute..]. Qed.
Lemma scanned_b_wf : chain_wf scanned_b.
Proof. apply (chain_wf_snoc scanned_b2 (wallet_b3, [])); [apply scanned_b2_wf|by_compute..]. Qed.
Lemma next_a : next_chain joining_1.1 scanned_1 (wallet_a2, []) = scanned_a.
Proof. vm_compute. reflexivity. Qed.
Lemma next_b2 : next_chain joining_3.1 scanned_a (wallet_b2, []) = scanned_b2.
Proof. vm_compute. reflexivity. Qed.
Lemma next_b : next_chain joining_4.1 scanned_b2 (wallet_b3, []) = scanned_b.
Proof. vm_compute. reflexivity. Qed.
Lemma joining_follows : follows false joining_2.1 joining_2.2 (-1) scanned_a.
Proof.
  assert (F1 : follows false joining_1.1 joining_1.2 (-1) scanned_1).
  { apply (follows_block false joining_0.1 joining_0.2 (-1) [] wallet_r1 []); [apply follows_start; by_compute|apply scanned_1_wf|by vm_compute|by_compute|by vm_compute]. }
  rewrite <- next_a. apply (follows_block false joining_1.1 joining_1.2 (-1) scanned_1 wallet_a2 []);
    [apply F1|rewrite next_a; apply scanned_a_wf|by vm_compute|by_compute|by vm_compute].
Qed.
Lemma joining_completes : completes false [(wallet_b2, []); (wallet_b3, [])] joining_3.1 joining_3.2 (-1) scanned_a joining_5.1 joining_5.2 (-1) scanned_b.
Proof.
  apply (completes_cons false wallet_b2 [] _ joining_3.1 joining_3.2 (-1) scanned_a joining_4.1 joining_4.2);
    [rewrite next_b2; apply scanned_b2_wf|by vm_compute|by_compute|by vm_compute|]. rewrite next_b2.
  apply (completes_cons false wallet_b3 [] _ joining_4.1 joining_4.2 (-1) scanned_b2 joining_5.1 joining_5.2);
    [rewrite next_b; apply scanned_b_wf|by vm_compute|by_compute|by vm_compute|]. rewrite next_b. apply completes_nil.
Qed.
Lemma joining_shared : shared chain_b (getBlockCheckpoints joining_2.1) 1.
Proof. right. split; [done|]. exists [wb_blockHash wallet_a2], (wb_blockHash wallet_r1), []. split_and!; [by vm_compute|by_compute|by vm_compute]. Qed.
Lemma joining_heights : Forall (fun x => m_startHeight joining_2.1 <= height_of x <= getHeight joining_2.1) scanned_a.
Proof.
  assert (m_startHeight joining_2.1 = 1 /\ getHeight joining_2.1 = 2) as [-> ->] by by vm_compute.
  assert (height_of <$> scanned_a = [1; 2]) as E by by vm_compute. apply (Forall_fmap height_of (fun z => 1 <= z <= 2)). rewrite E. by_compute.
Qed.
Lemma joining_on : on_chain chain_a scanned_a.
Proof. by_compute. Qed.
Lemma joining_start : is_u64 (m_startHeight joining_2.1).
Proof. by_compute. Qed.
Lemma joining_stored : m_storedBlocks joining_2.1 = [].
Proof. by vm_compute. Qed.
Lemma joining_time : m_startTimestamp joining_2.1 = 0.
Proof. by vm_compute. Qed.
Lemma joining_scanned : (wallet_r1, []) ∈ scanned_a.
Proof. apply list_elem_of_here. Qed.
Lemma joining_met : block_hashes chain_b !! Z.to_nat 1 = Some (wb_blockHash wallet_r1).
Proof. vm_compute. reflexivity. Qed.
Lemma joining_download : downloadBlocks 100 (core_answers toy_hash core_b 0) joining_2.1 joining_2.2 = (true, joining_3.1, joining_3.2).
Proof. vm_compute. reflexivity. Qed.
Lemma joining_new : [(wallet_b2, [] : BlockInputsAndOwners); (wallet_b3, [])].*1 = (m_storedBlocks joining_3.1).*1.
Proof. vm_compute. reflexivity. Qed.


(** The condition that the block found is one the wallet still counts as scanned is needed.  When the node goes back to the first chain,
    the wallet's list still has the hash of [block_a2], which it removed when the node left that chain: it is given only the blocks above,
    and keeps the block of the other chain at height 2. *)
Definition joining_6 := download core_a' joining_5.
Definition wallet_a3 : WalletBlockInfo := default no_block (blocks_of core_a' !! 3%nat).
Definition wallet_a4 : WalletBlockInfo := default no_block (blocks_of core_a' !! 4%nat).
Definition joining_7 := complete wallet_a3 joining_6.
Definition joining_8 := complete wallet_a4 joining_7.
Definition scanned_a' : list scanned := next_chain joining_7.1 (next_chain joining_6.1 scanned_b (wallet_a3, [])) (wallet_a4, []).
Theorem returned_fork_missed :
  (m_storedBlocks joining_6.1).*1 = [wallet_a3; wallet_a4]
  /\ completeBlockProcessing false wallet_a3 [] joining_6 = Ok joining_7 /\ completeBlockProcessing false wallet_a4 [] joining_7 = Ok joining_8
  /\ scanned_a' = [(wallet_r1, []); (wallet_b2, []); (wallet_a3, []); (wallet_a4, [])] /\ block_hashes chain_a' !! Z.to_nat (wb_blockHeight wallet_b2) = Some (wb_blockHash wallet_a2)
  /\ wb_blockHash wallet_a2 <> wb_blockHash wallet_b2.
Proof. split_and!; [vm_compute; reflexivity..|vm_compute; discriminate]. Qed.
