(* ===== verification/Payment.v ===== *)
(** * Payment: from the sender's wallet to the receiver's

    A transaction that [Transfer.v] sends, put into a block, handed out by the core of [CoreQueries.v], and scanned by another wallet
    ([WalletSync.v]). *)

From Stdlib Require Import ZArith Lia.
From stdpp Require Import base tactics list numbers strings gmap fin_maps fin_sets sorting.
From S2P Require Import Prelude Stream StringTools Base58 Config Types Serializer TxSerialization BlockSerialization Validate WalletUtil Addresses SubWallet SubWallets WalletInvariant WalletSync WalletChain ValidateParameters ParseExtra Transfer TransferRing TransferMade TransferSend TransferExtra CoreQueries.

Local Open Scope Z_scope.

#[local] Arguments sumZ : simpl never.

(** What the elliptic curve promises: both ends derive the same shared secret, and a key derived for an address leads back to it. *)
Record key_agreement `{WalletCrypto} : Prop := {
  ka_pod : forall p s, pod 32 p -> pod 32 s -> pod 32 (generate_key_derivation p s);
  ka_shared : forall a b, generate_key_derivation (secret_key_to_public_key a) b = generate_key_derivation (secret_key_to_public_key b) a;
  ka_underive : forall d i k, pod 32 d -> pod 32 k -> underive_public_key d i (derive_public_key d i k) = k }.

Section payment.
Context `{crypto : WalletCrypto, sending : Sending}.

(** ** What is paid to an address *)

(** The keys of a standard or an integrated address. *)
Definition receiver_of (address : bytes) : outcome (PublicKey * PublicKey) :=
  if negb (Z.of_nat (length address) =? integratedAddressLength) then addressToKeys cn_fast_hash check_key address
  else '(actual, _) ← extractIntegratedAddressData cn_fast_hash address; addressToKeys cn_fast_hash check_key actual.

Definition keys_are (k v : PublicKey) (o : outcome (PublicKey * PublicKey)) : bool :=
  match o with Ok (k', v') => bool_decide (k' = k) && bool_decide (v' = v) | _ => false end.

(** What destinations pay to the address with the spend key [k] and the view key [v]. *)
Definition paid_to (k v : PublicKey) (l : list (bytes * Z)) : Z := sumZ ((fun d => if keys_are k v (receiver_of d.1) then d.2 else 0) <$> l).
Definition paid_plainly (k v : PublicKey) (l : list (bytes * Z)) : Z :=
  sumZ ((fun d => if keys_are k v (addressToKeys cn_fast_hash check_key d.1) then d.2 else 0) <$> l).
Definition split_to (k v : PublicKey) (l : list TransactionDestination) : Z :=
  sumZ ((fun d => if bool_decide (receiverPublicSpendKey d = k) && bool_decide (receiverPublicViewKey d = v) then td_amount d else 0) <$> l).

(** What a scan found for the address in the transaction with hash [h]. *)
Definition found_for (k : PublicKey) (h : Hash) (ours : BlockInputsAndOwners) : Z :=
  sumZ ((fun p => if bool_decide (p.1 = k) && bool_decide (wi_parentTransactionHash p.2 = h) then wi_amount p.2 else 0) <$> ours).

Lemma extract_paid k v l : forall pid l' pid', extract_integrated_loop l pid = Ok (l', pid') -> paid_to k v l = paid_plainly k v l'.
Proof.
  unfold paid_to, paid_plainly. induction l as [|[a z] l IH]; intros pid l' pid' E; cbn [extract_integrated_loop] in E; [by injection E as <- <-|].
  rewrite fmap_cons, sumZ_cons. unfold receiver_of at 1. cbn [fst snd]. destruct (negb _).
  - destruct (extract_integrated_loop l pid) as [[m p]| |] eqn:R; [|done..]. revert E. okbind. intros [= <- <-]. rewrite fmap_cons, sumZ_cons. cbn [fst snd]. f_equal. eauto.
  - destruct (extractIntegratedAddressData _ a) as [[a' p']| |]; [|done..]. revert E. okbind. destruct (extract_integrated_loop l p') as [[m p]| |] eqn:R; okbind; [|done..].
    intros [= <- <-]. rewrite fmap_cons, sumZ_cons. cbn [fst snd]. f_equal. eauto.
Qed.

Lemma decoded_bytes a tag data : is_bytes a -> decode_addr cn_fast_hash a = Ok (Some (tag, data)) -> is_bytes data.
Proof. intros Ha E. destruct (decide (data = [])) as [->|Hn]; [constructor|]. by apply encode_decode_addr in E as (_ & ? & _). Qed.

Lemma extract_id_bytes a actual pid : is_bytes a -> extractIntegratedAddressData cn_fast_hash a = Ok (actual, pid) -> is_bytes pid.
Proof.
  unfold extractIntegratedAddressData. intros Ha E. destruct (decode_addr cn_fast_hash a) as [d| |] eqn:D; [|done..]. revert E. okbind.
  destruct (substr_from _ _) as [keys| |]; okbind; [|done..]. destruct (fromBinaryArray_opt _ _ _) as [[addr|]| |]; okbind; [|done..].
  destruct (getAccountAddressAsStr _ _ _); okbind; [|done..]. intros [= _ <-]. apply is_bytes_take. destruct d as [[tag data]|]; [by eapply decoded_bytes|constructor].
Qed.

Lemma extract_bytes l : forall pid l' pid', extract_integrated_loop l pid = Ok (l', pid') -> Forall (fun d => is_bytes d.1) l -> is_bytes pid -> is_bytes pid'.
Proof.
  induction l as [|[a z] l IH]; intros pid l' pid' E F Hp; cbn [extract_integrated_loop] in E; [by injection E as <- <-|]. apply Forall_cons in F as [Ha F].
  destruct (negb _).
  - destruct (extract_integrated_loop l pid) as [[m p]| |] eqn:R; [|done..]. revert E. okbind. intros [= _ <-]. eauto.
  - destruct (extractIntegratedAddressData _ a) as [[a' p']| |] eqn:X; [|done..]. revert E. okbind. destruct (extract_integrated_loop l p') as [[m p]| |] eqn:R; okbind; [|done..].
    intros [= _ <-]. eapply IH; [exact R|done|]. exact (extract_id_bytes _ _ _ Ha X).
Qed.

Lemma denominations_split k v s t amount : is_u64 amount -> split_to k v (denominations_to s t amount) = if bool_decide (s = k) && bool_decide (t = v) then amount else 0.
Proof.
  intros Hz. destruct (denominations_ok amount Hz) as (S1 & _ & _). unfold split_to, denominations_to. rewrite <- list_fmap_compose. unfold compose. simpl.
  destruct (_ && _).
  - rewrite <- S1 at 2. f_equal. apply list_fmap_id.
  - clear. induction (splitAmountIntoDenominations amount) as [|x l IH]; [done|]. rewrite fmap_cons, sumZ_cons, IH. done.
Qed.

Lemma destinations_split k v l : forall d, Forall (fun x => is_u64 x.2) l -> destinations_loop l = Ok d -> split_to k v d = paid_plainly k v l.
Proof.
  induction l as [|[a z] l IH]; intros d Hu E; cbn [destinations_loop] in E; [by injection E as <-|]. apply Forall_cons in Hu as [Hz Hu].
  unfold paid_plainly. rewrite fmap_cons, sumZ_cons. cbn [fst snd]. fold (paid_plainly k v l). destruct (addressToKeys _ _ _) as [[s t]| |]; [|done..]. revert E. okbind.
  destruct (destinations_loop l) as [d'| |] eqn:El; okbind; [|done..]. intros [= <-]. rewrite <- (IH d' Hu eq_refl). pose proof (denominations_split k v s t z Hz) as Ed.
  unfold split_to in *. rewrite fmap_app, sumZ_app. f_equal. exact Ed.
Qed.

Lemma denominations_short fuel : forall m a, (length (denominations_loop fuel m a) <= fuel)%nat.
Proof.
  induction fuel as [|fuel IH]; intros m a; cbn [denominations_loop]; [simpl; lia|]. destruct (0 <? a); [|simpl; lia]. rewrite length_app.
  specialize (IH (u64 (m * 10)) (a / 10)). destruct (negb _); simpl; lia.
Qed.
Lemma destinations_short l : forall d, destinations_loop l = Ok d -> (length d <= 20 * length l)%nat.
Proof.
  induction l as [|[a z] l IH]; intros d E; cbn [destinations_loop] in E; [by injection E as <-|]. destruct (addressToKeys _ _ _) as [[s t]| |]; [|done..]. revert E. okbind.
  destruct (destinations_loop l) as [d'| |] eqn:El; okbind; [|done..]. intros [= <-]. specialize (IH d' eq_refl). rewrite length_app. unfold denominations_to. rewrite length_fmap.
  pose proof (denominations_short 20 1 z). unfold splitAmountIntoDenominations. rewrite length_cons. lia.
Qed.

(** With the change. *)
Lemma setup_split k v l change address d : Forall (fun x => is_u64 x.2) l -> is_u64 change -> setupDestinations l change address = Ok d ->
  paid_plainly k v l <= split_to k v d /\ (length d <= 20 * (length l + 1))%nat.
Proof.
  intros Hu Hc E. unfold setupDestinations in E. pose proof (destinations_short _ _ E) as Hl. destruct (Z.eqb_spec change 0) as [->|]; simpl negb in E, Hl; cbv iota in E, Hl.
  - rewrite (destinations_split k v l d) by done. lia.
  - assert (Hu' : Forall (fun x : bytes * Z => is_u64 x.2) (l ++ [(address, change)])) by (apply Forall_app; split; [done|]; by constructor).
    rewrite (destinations_split k v _ d Hu' E). unfold paid_plainly. rewrite fmap_app, sumZ_app. rewrite length_app in Hl. simpl in Hl. split; [|lia].
    simpl. rewrite sumZ_cons. change (sumZ []) with 0. destruct (keys_are _ _ _); [|lia]. cbn [snd]. width_solve.
Qed.

(** ** What the receiver's scan finds *)

Section scan.
Context (w : SubWallets) (k v : PublicKey) (s : SubWallet) (txSecret vk : SecretKey) (tx : RawCoinbaseTransaction) (height : Z).
Context (underive : forall i, underive_public_key (generate_key_derivation (rc_transactionPublicKey tx) vk) i
                                (derive_public_key (generate_key_derivation (rc_transactionPublicKey tx) vk) i k) = k).
Context (C : wallet_shape w) (Es : m_subWallets w !! k = Some s).
Context (same_derivation : generate_key_derivation v txSecret = generate_key_derivation (rc_transactionPublicKey tx) vk).

Lemma scan_pays ds : forall n ours, Z.of_nat (n + length ds) < 2 ^ 32 -> Forall (fun d => 0 <= td_amount d) ds ->
  outputs_loop w tx height (generate_key_derivation (rc_transactionPublicKey tx) vk) (Z.of_nat n) (outputs_of txSecret (Z.of_nat n) ds) = Ok ours ->
  split_to k v ds <= found_for k (rc_hash tx) ours.
Proof using underive C Es same_derivation.
  set (dv := generate_key_derivation (rc_transactionPublicKey tx) vk) in *. induction ds as [|d ds IH]; intros n ours Hn F E.
  { cbn [outputs_of outputs_loop] in E. by injection E as <-. }
  apply Forall_cons in F as [Hd F]. cbn [outputs_of outputs_loop wo_key] in E. simpl length in Hn.
  assert (E32 : u32 (Z.of_nat n + 1) = Z.of_nat (S n)) by (rewrite wrap_small by width_solve; lia).
  assert (E64 : u64 (Z.of_nat n + 1) = Z.of_nat (S n)) by (rewrite wrap_small by width_solve; lia). rewrite E32, E64 in E.
  unfold split_to. rewrite fmap_cons, sumZ_cons. fold (split_to k v ds). set (dd := generate_key_derivation (receiverPublicViewKey d) txSecret) in E.
  destruct (bool_decide_reflect (receiverPublicSpendKey d = k /\ receiverPublicViewKey d = v)) as [[Hk Hv]|Hno].
  - assert (dd = dv) as Edd by (unfold dd; rewrite Hv; exact same_derivation). rewrite Edd, Hk, underive in E.
    rewrite (bool_decide_eq_true_2 (k ∈ _)) in E by (apply (ws_keys _ C); eauto). unfold getTxInputKeyImage in E. rewrite Es in E. revert E. okbind.
    destruct (outputs_loop w tx height dv _ _) as [l| |] eqn:El; okbind; [|done..]. intros [= <-]. specialize (IH (S n) l ltac:(lia) F El).
    unfold found_for. rewrite fmap_cons, sumZ_cons. fold (found_for k (rc_hash tx) l). cbn [fst snd wi_parentTransactionHash wi_amount wo_amount].
    rewrite !bool_decide_eq_true_2 by done. simpl. lia.
  - assert (Ez : bool_decide (receiverPublicSpendKey d = k) && bool_decide (receiverPublicViewKey d = v) = false).
    { destruct (bool_decide_reflect (receiverPublicSpendKey d = k)), (bool_decide_reflect (receiverPublicViewKey d = v)); naive_solver. }
    rewrite Ez, Z.add_0_l. destruct (bool_decide (underive_public_key _ _ _ ∈ _)); [|by eapply (IH (S n)); [lia|done|]].
    destruct (getTxInputKeyImage _ _ _ _) as [ki| |]; [|done..]. revert E. okbind. destruct (outputs_loop w tx height dv _ _) as [l| |] eqn:El; okbind; [|done..]. intros [= <-].
    specialize (IH (S n) l ltac:(lia) F El). unfold found_for. rewrite fmap_cons, sumZ_cons. fold (found_for k (rc_hash tx) l). cbn [fst snd wi_amount wo_amount].
    clear Ez. destruct (_ && _); lia.
Qed.
End scan.

Lemma found_app k h l1 l2 : found_for k h (l1 ++ l2) = found_for k h l1 + found_for k h l2.
Proof. unfold found_for. by rewrite fmap_app, sumZ_app. Qed.

Lemma found_nonneg k h w tx height d outs : forall i ours, Forall (fun o => 0 <= wo_amount o) outs -> outputs_loop w tx height d i outs = Ok ours -> 0 <= found_for k h ours.
Proof.
  induction outs as [|o outs IH]; intros i ours F E; cbn [outputs_loop] in E; [by injection E as <-|]. apply Forall_cons in F as [Ho F].
  case_bool_decide; [|by eauto]. destruct (getTxInputKeyImage _ _ _ _) as [ki| |]; [|done..]. revert E. okbind. destruct (outputs_loop _ _ _ _ _ outs) as [l| |] eqn:El; okbind; [|done..].
  intros [= <-]. apply IH in El; [|done]. unfold found_for in *. rewrite fmap_cons, sumZ_cons. cbn [wi_amount snd]. destruct (_ && _); lia.
Qed.

(** What is found in a transaction of the block is found in the block. *)
Lemma found_in_block k h vk w height tx txs ours : tx ∈ txs -> Forall (fun t => Forall (fun o => 0 <= wo_amount o) (rc_keyOutputs t)) txs ->
  transactions_outputs vk w height txs = Ok ours -> exists l, processTransactionOutputs vk w tx height = Ok l /\ found_for k h l <= found_for k h ours.
Proof.
  intros Ht F. revert ours. induction txs as [|t txs IH]; intros ours E; [by apply elem_of_nil in Ht|]. apply Forall_cons in F as [Hn F]. cbn [transactions_outputs] in E.
  destruct (processTransactionOutputs vk w t height) as [l1| |] eqn:E1; [|done..]. revert E. okbind. destruct (transactions_outputs vk w height txs) as [l2| |] eqn:E2; okbind; [|done..].
  intros [= <-]. rewrite found_app. assert (0 <= found_for k h l1) by by eapply found_nonneg.
  assert (0 <= found_for k h l2).
  { clear -F E2. revert l2 E2. induction F as [|t txs Hn F IH]; intros l2 E2; cbn [transactions_outputs] in E2; [by injection E2 as <-|].
    destruct (processTransactionOutputs vk w t height) as [a| |] eqn:E1; [|done..]. revert E2. okbind. destruct (transactions_outputs vk w height txs) as [b| |]; okbind; [|done..].
    intros [= <-]. rewrite found_app. specialize (IH b eq_refl). assert (0 <= found_for k h a) by by eapply found_nonneg. lia. }
  apply elem_of_cons in Ht as [->|Ht]; [exists l1; split; [done|lia]|]. destruct (IH Ht F l2 eq_refl) as (l & El & Hle). exists l. split; [done|lia].
Qed.

(** ** What the daemon hands out of the transaction *)

Lemma outputs_of_indexes sk l : forall i, Forall (fun o => wo_globalOutputIndex o = None) (outputs_of sk i l).
Proof. induction l as [|d l IH]; intros i; constructor; [done|apply IH]. Qed.
Lemma wallet_outputs_converted l : Forall (fun o => wo_globalOutputIndex o = None) l -> wallet_outputs (keyOutputToTransactionOutput l) = l.
Proof.
  unfold wallet_outputs, keyOutputToTransactionOutput. induction 1 as [|[key amount index] l Ho F IH]; [done|]. rewrite !fmap_cons. simpl in *. subst index. f_equal. done.
Qed.

Lemma raw_of_made key_at mixin sources paymentID ds unlock extraData r rings ins raw t : made key_at 0 mixin sources paymentID ds unlock extraData r rings ins ->
  is_bytes paymentID -> is_bytes extraData -> size_of extraData < 2 ^ 39 -> pod 32 (publicKey (generate_keys 0)) ->
  fromBinaryArray serialize_Transaction new_Transaction raw = Ok (tr_transaction r) -> getRawTransaction cn_fast_hash raw = Ok t ->
  rc_keyOutputs (rt_base t) = setupOutputs (generate_keys 0) ds /\ rc_transactionPublicKey (rt_base t) = publicKey (generate_keys 0)
  /\ rc_hash (rt_base t) = cn_fast_hash raw /\ rt_paymentID t = to_lower <$> paymentID.
Proof.
  intros M Hp Hd Hs Hk Hr E. unfold getRawTransaction, read_unchecked, fromBinaryArray_opt in E. rewrite Hr in E. cbn [try_catch] in E. revert E. okbind. cbn [from_option]. okbind.
  destruct (md_extra _ _ _ _ _ _ _ _ _ _ _ M) as (e & nonce & Ee & ->). destruct (md_outputs _ _ _ _ _ _ _ _ _ _ _ M) as (Eo & Eo' & _).
  assert (En : le_bytes 8 nonce = le_bytes 8 (nonce mod 2 ^ 64)).
  { rewrite <- (le_bytes_le_val (le_bytes 8 nonce)) at 1 by apply le_bytes_is_bytes. rewrite length_le_bytes, le_val_le_bytes. done. }
  rewrite En, (extra_parsed _ _ _ _ _ Hp Hd Hs Hk ltac:(apply Z.mod_pos_bound; lia) Ee). okbind.
  destruct (collect get_KeyInput _) as [ks| |]; okbind; [|done..]. intros [= <-]. cbn [rt_base rc_keyOutputs rc_transactionPublicKey rc_hash rt_paymentID]. split_and!; [|done..].
  rewrite Eo', wallet_outputs_converted; [done|]. rewrite Eo. apply outputs_of_indexes.
Qed.

Lemma collect_member {A B} (f : A -> outcome B) l x : forall r, x ∈ l -> collect f l = Ok r -> exists y, f x = Ok y /\ y ∈ r.
Proof.
  induction l as [|a l IH]; intros r Hx E; [by apply elem_of_nil in Hx|]. cbn [collect] in E. destruct (f a) as [b| |] eqn:Ef; [|done..]. revert E. okbind.
  destruct (collect f l) as [bs| |]; okbind; [|done..]. intros [= <-]. apply elem_of_cons in Hx as [->|Hx]; [exists b; set_solver|]. destruct (IH bs Hx eq_refl) as (y & Ey & Hy). exists y. set_solver.
Qed.
Lemma wallet_block_transaction skip r b raw : wallet_block cn_fast_hash skip r = Ok b -> raw ∈ transactions r ->
  exists t, getRawTransaction cn_fast_hash raw = Ok t /\ t ∈ wb_transactions b /\ rt_base t ∈ scanned_transactions skip b.
Proof.
  intros E Hr. unfold wallet_block in E. inv_ok. simplify_eq. destruct (collect_member _ _ _ _ Hr Hok2) as (t & Et & Ht). exists t. split_and!; [done|done|].
  unfold scanned_transactions. apply elem_of_app. right. simpl. by apply list_elem_of_fmap_2.
Qed.
End payment.

Lemma with_fee_length daemon l : (length (with_node_fee daemon l) <= length l + 1)%nat.
Proof. unfold with_node_fee. destruct (negb _); [|lia]. rewrite length_app. simpl. lia. Qed.

(** ** Properties *)

(** C7: A payment arrives.  When a wallet reports that it sent a transaction, the daemon took a transaction such that: once a block of the
    daemon holds bytes that read as it, any wallet that scans this block finds for each of its addresses at least what the sender's
    destinations (standard or integrated, the fee of the node among them) pay to it, under the hash the sender was given and with the payment ID the
    sender used. *)
Theorem payment_arrives `{crypto : WalletCrypto, sending : Sending} (daemon : Nigel) key_at w destinations mixin fee paymentID sources change unlock extraData h w' :
  (forall A f (l : list A), sort A f l ≡ₚ l) -> (forall A (l : list A), shuffle A l ≡ₚ l) -> honest_daemon daemon key_at -> good_wallet key_at w ->
  is_u64 fee -> is_u64 mixin -> Forall (fun d => is_bytes d.1 /\ is_u64 d.2) (with_node_fee daemon destinations) -> Z.of_nat (length destinations) < 2 ^ 27 ->
  (forall keys, addressesToSpendKeys cn_fast_hash check_key sources = Ok keys -> NoDup keys) -> is_bytes paymentID -> is_bytes extraData -> size_of extraData < 2 ^ 39 ->
  key_agreement -> publicKey (generate_keys 0) = secret_key_to_public_key (secretKey (generate_keys 0)) -> pod 32 (publicKey (generate_keys 0)) ->
  sendTransactionAdvanced daemon destinations mixin fee paymentID sources change unlock extraData w = Ok (SUCCESS, h, w') ->
  exists tx paid pid, sendTransaction daemon tx = (true, false) /\ extract_integrated_loop (with_node_fee daemon destinations) paymentID = Ok (paid, pid)
    /\ forall deleting fresh receiver vk k s skip raw r b, wallet_reachable deleting fresh receiver -> m_isViewWallet receiver = false ->
         m_subWallets receiver !! k = Some s -> pod 32 k -> pod 32 vk ->
         is_bytes raw -> fromBinaryArray serialize_Transaction new_Transaction raw = Ok tx -> raw ∈ transactions r -> wallet_block cn_fast_hash skip r = Ok b ->
         Forall (fun t => Z.of_nat (length (rc_keyOutputs t)) < 2 ^ 64 /\ Forall (fun o => 0 <= wo_amount o) (rc_keyOutputs t)) (scanned_transactions skip b) ->
         exists ours, processBlockOutputs skip vk receiver b = Ok ours
           /\ paid_to k (secret_key_to_public_key vk) (with_node_fee daemon destinations) <= found_for k h ours
           /\ exists t, t ∈ wb_transactions b /\ rc_hash (rt_base t) = h /\ rt_paymentID t = to_lower <$> pid.
Proof.
  intros Hs Hsh Hh G Hf Hm Ha Hl Hsrc Hp He Hes K Hg Hgp E. apply send_cases in E as [(He' & _)|(_ & change' & pid & paid & keys & chosen & found & ds & r & R)]; [done|].
  assert (Ha1 : Forall (fun d : bytes * Z => is_bytes d.1) (with_node_fee daemon destinations)) by (eapply Forall_impl; [exact Ha|]; by intros ? [? _]).
  assert (Ha2 : Forall (fun d : bytes * Z => is_u64 d.2) (with_node_fee daemon destinations)) by (eapply Forall_impl; [exact Ha|]; by intros ? [_ ?]).
  destruct (run_made daemon key_at Hs Hsh Hh w G _ _ _ _ _ _ _ _ Hf Hm Ha2 Hsrc _ _ _ _ _ _ _ _ _ _ R) as (_ & _ & _ & _ & _ & Hpretty & rings & ins & M).
  pose proof (run_extract _ _ _ _ _ _ _ _ _ _ _ _ _ _ _ _ _ _ _ _ R) as Ex. pose proof (extract_amounts _ _ _ _ Ex) as Eam.
  assert (Hpid : is_bytes pid) by by eapply extract_bytes. exists (tr_transaction r), paid, pid.
  pose proof (run_relay _ _ _ _ _ _ _ _ _ _ _ _ _ _ _ _ _ _ _ _ R) as Er. unfold relayTransaction in Er. destruct (sendTransaction daemon (tr_transaction r)) as [[] []]; try done.
  split_and!; [done|done|]. intros deleting fresh receiver vk k s skip raw rb b Hrec Hv Es Hk Hvk Hraw Hread Hin Hb Hbounds.
  destruct (whole_canonical unsigned valid_tx serialize_Transaction new_Transaction raw _ eq_refl Hraw Hread) as [_ Hw].
  assert (h = cn_fast_hash raw) as ->. { revert Er. simpl negb. cbv iota. unfold wallet_getTransactionHash. rewrite Hw. okbind. by intros [= <-]. }
  destruct (wallet_block_transaction _ _ _ _ Hb Hin) as (t & Et & Htb & Hts).
  destruct (raw_of_made _ _ _ _ _ _ _ _ _ _ _ _ M Hpid He Hes Hgp Hread Et) as (Eo & Epk & Ehash & Epid).
  pose proof (reachable_shape _ _ _ Hrec) as C. assert (Hb1 : Forall (fun t => Z.of_nat (length (rc_keyOutputs t)) < 2 ^ 64) (scanned_transactions skip b)) by (eapply Forall_impl; [exact Hbounds|]; by intros ? [? _]).
  assert (Hb2 : Forall (fun t => Forall (fun o => 0 <= wo_amount o) (rc_keyOutputs t)) (scanned_transactions skip b)) by (eapply Forall_impl; [exact Hbounds|]; by intros ? [_ ?]).
  destruct (transactions_outputs_ok receiver C Hv vk (wb_blockHeight b) _ Hb1) as (ours & Eours & _). exists ours. split_and!; [exact Eours| |by exists t].
  destruct (found_in_block k (cn_fast_hash raw) vk receiver (wb_blockHeight b) _ _ _ Hts Hb2 Eours) as (l & El & Hle). etrans; [|exact Hle].
  pose proof (run_destinations _ _ _ _ _ _ _ _ _ _ _ _ _ _ _ _ _ _ _ _ R) as Eds.
  assert (Hu : Forall (fun x : bytes * Z => is_u64 x.2) paid).
  { apply (Forall_fmap snd (fun z => is_u64 z)). rewrite Eam. by apply Forall_fmap. }
  destruct (setup_split k (secret_key_to_public_key vk) _ _ _ _ Hu ltac:(apply wrap_range; lia) Eds) as [Hsplit Hlen].
  rewrite (extract_paid _ _ _ _ _ _ Ex). etrans; [exact Hsplit|]. rewrite <- Ehash. unfold processTransactionOutputs in El. rewrite Eo in El. unfold setupOutputs in El.
  assert (Pd := Hs _ td_amount ds). assert (Epd : split_to k (secret_key_to_public_key vk) ds = split_to k (secret_key_to_public_key vk) (sort _ td_amount ds)).
  { unfold split_to. apply sumZ_perm. by rewrite Pd. }
  rewrite Epd. eapply (scan_pays receiver k _ s (secretKey (generate_keys 0)) vk (rt_base t) (wb_blockHeight b)) with (n := 0%nat); [|done|done| | | |exact El].
  - intros i. rewrite Epk. apply (ka_underive K); [by apply (ka_pod K)|done].
  - rewrite Epk, Hg. apply (ka_shared K).
  - rewrite Pd. assert (length paid = length (with_node_fee daemon destinations)) as Elp by (rewrite <- (length_fmap snd paid), Eam; apply length_fmap).
    pose proof (with_fee_length daemon destinations). lia.
  - rewrite Pd. eapply Forall_impl; [exact Hpretty|]. intros d Hd. simpl. assert (F : Forall (fun x => 0 <= x) PRETTY_AMOUNTS) by by_compute. rewrite Forall_forall in F. by apply F.
Qed.

(** ** Samples *)

(** [key_a] pays 4000 to [key_b], with a payment ID, through a daemon that takes exactly this transaction. *)
Definition sample_id : bytes := replicate 64 65.
Definition sample_destinations : list (bytes * Z) := [(address_of key_b, 4000)].
Definition sample_chosen : list TxInputAndOwner * Z :=
  ok_or ([], 0) (getTransactionInputsForAmount (@shuffle sample_sending) 0 504000 false [key_a] 2600000 sample_wallet).
Definition relayed : Transaction :=
  match ds ← @setupDestinations additive_crypto sample_destinations (sample_chosen.2 - 504000) (address_of key_a);
        @makeTransaction additive_crypto sample_sending sample_daemon 0 1 sample_chosen.1 sample_id ds view_key 0 [] with
  | Ok (inr r) => tr_transaction r
  | _ => new_Transaction
  end.
Definition strict_daemon : Nigel :=
  {| networkBlockCount := networkBlockCount sample_daemon; nodeFee := nodeFee sample_daemon; getRandomOutsByAmounts := getRandomOutsByAmounts sample_daemon;
     sendTransaction := fun tx => (bool_decide (tx = relayed), false) |}.
Definition strict_sent : ErrorCode * Hash * SubWallets :=
  ok_or (DAEMON_ERROR, [], sample_wallet)
    (@sendTransactionAdvanced additive_crypto sample_sending strict_daemon sample_destinations 1 500000 sample_id [address_of key_a] (address_of key_a) 0 [] sample_wallet).
Definition relayed_raw : bytes := ok_or [] (toBinaryArray serialize_Transaction relayed).
Definition paying_raw : RawBlock :=
  {| block := ok_or [] (toBinaryArray (serialize_BlockTemplate pad_hash) BlockSerialization.sample_block); transactions := [relayed_raw] |}.
Definition paying_block : WalletBlockInfo := ok_or (sample_block 0 [] None []) (wallet_block pad_hash false paying_raw).
Definition receiver_wallet : SubWallets := @new_SubWallets additive_crypto 0 key_b view_key (address_of key_b) 0 false.

Lemma key_add_length a b : length (key_add a b) = (length a `min` length b)%nat.
Proof. apply length_zip_with. Qed.
Lemma key_add_bytes a b : is_bytes (key_add a b).
Proof. unfold key_add. revert b. induction a as [|x a IH]; intros [|y b]; simpl; constructor; [apply Z.mod_pos_bound; lia|apply IH]. Qed.
Lemma key_sub_add a b : is_bytes a -> length a = length b -> key_sub (key_add a b) b = a.
Proof.
  unfold key_sub, key_add. intros F. revert b. induction F as [|x a Hx F IH]; intros [|y b] E; simplify_eq/=; [done|]. rewrite IH by done. f_equal.
  rewrite Zminus_mod_idemp_l, Z.add_simpl_r. apply Z.mod_small. width_solve.
Qed.
Lemma additive_agreement : @key_agreement additive_crypto.
Proof.
  constructor.
  - intros p s [_ Hp] [_ Hs]. split; [apply key_add_bytes|]. cbn [generate_key_derivation additive_crypto]. rewrite key_add_length, Hp, Hs. done.
  - intros a b. simpl. unfold key_add. revert b. induction a as [|x a IH]; intros [|y b]; simpl; [done..|]. rewrite IH. f_equal. f_equal. lia.
  - intros d i k [_ Hd] [Hkb Hk]. cbn [underive_public_key derive_public_key additive_crypto]. apply key_sub_add; [done|]. rewrite key_add_length, Hd, Hk. done.
Qed.

Lemma strict_sent_ok : @sendTransactionAdvanced additive_crypto sample_sending strict_daemon sample_destinations 1 500000 sample_id [address_of key_a] (address_of key_a) 0 [] sample_wallet
  = Ok (SUCCESS, strict_sent.1.2, strict_sent.2).
Proof. vm_compute. reflexivity. Qed.
Lemma strict_honest : honest_daemon strict_daemon sample_key_at.
Proof. exact sample_honest. Qed.
Lemma strict_destinations : Forall (fun d : bytes * Z => is_bytes d.1 /\ is_u64 d.2) (with_node_fee strict_daemon sample_destinations).
Proof. by_compute. Qed.
Lemma relayed_read : fromBinaryArray serialize_Transaction new_Transaction relayed_raw = Ok relayed.
Proof. vm_compute. reflexivity. Qed.
Lemma paying_block_ok : wallet_block pad_hash false paying_raw = Ok paying_block.
Proof. vm_compute. reflexivity. Qed.
Lemma paying_bounds : Forall (fun t => Z.of_nat (length (rc_keyOutputs t)) < 2 ^ 64 /\ Forall (fun o => 0 <= wo_amount o) (rc_keyOutputs t)) (scanned_transactions false paying_block).
Proof. by_compute. Qed.
Definition receiver_address : SubWallet := default (new_SubWallet [] [] [] 0 0 false) (m_subWallets receiver_wallet !! key_b).
Lemma receiver_found : m_subWallets receiver_wallet !! key_b = Some receiver_address.
Proof. by vm_compute. Qed.
Lemma paid_4000 : @paid_to additive_crypto key_b view_key (with_node_fee strict_daemon sample_destinations) = 4000.
Proof. by vm_compute. Qed.

(** The receiver finds the 4000. *)
Lemma payment_arrives_witness : exists ours, @processBlockOutputs additive_crypto false view_key receiver_wallet paying_block = Ok ours
  /\ 4000 <= found_for key_b strict_sent.1.2 ours
  /\ exists pid t, t ∈ wb_transactions paying_block /\ rc_hash (rt_base t) = strict_sent.1.2 /\ rt_paymentID t = to_lower <$> pid.
Proof.
  destruct (@payment_arrives additive_crypto sample_sending strict_daemon sample_key_at sample_wallet sample_destinations 1 500000 sample_id [address_of key_a] (address_of key_a) 0 []
    strict_sent.1.2 strict_sent.2 sort_by_perm (fun A l => reflexivity l) strict_honest sample_good ltac:(by_compute) ltac:(by_compute) strict_destinations ltac:(by_compute)
    sample_source_keys ltac:(by_compute) ltac:(by_compute) ltac:(by_compute) additive_agreement eq_refl ltac:(split; by_compute) strict_sent_ok) as (tx & paid & pid & Hs & _ & Hall).
  assert (tx = relayed) as ->. { injection Hs as Hs. by apply bool_decide_eq_true in Hs. }
  destruct (Hall true false receiver_wallet view_key key_b receiver_address false relayed_raw paying_raw paying_block) as (ours & Eo & Hle & Ht).
  - apply reach_new.
  - done.
  - apply receiver_found.
  - split; by_compute.
  - split; by_compute.
  - by_compute.
  - apply relayed_read.
  - by apply list_elem_of_singleton.
  - apply paying_block_ok.
  - apply paying_bounds.
  - exists ours. split_and!; [exact Eo| |by exists pid]. rewrite <- paid_4000. exact Hle.
Defined.
